(* ===== verification/_CoqProject ===== *)
-Q . S2P
Prelude.v
Identifiers.v
Canonical.v
Documents.v
JsonText.v
Datetimes.v
Contracts.v
PackageState.v
PackageStore.v
PackageJournal.v
PackageGC.v
PackageEngine.v
PackageTransitions.v
NodeLeases.v
Protocol.v
Messages.v
AttemptStore.v
AttemptFacts.v
Requests.v
Registry.v
RegistryFacts.v
AgentLoop.v
AgentLoopFacts.v
AgentDelivery.v
OperationGraph.v
Orchestration.v
OrchestrationFacts.v
Placement.v
Jobs.v
JobsFacts.v
AgentTables.v
AgentJobs.v
Routes.v
ReleaseLocks.v
ReleaseLockFacts.v
ReleaseGraph.v
HelperMessages.v
AgentJobsFacts.v
NodeExecutor.v
UpdateAuthorization.v
PackageHelper.v
HelperFacts.v
HelperCalls.v
HelperRun.v
PackageRollouts.v
PackagePlans.v
AgentReconciliation.v
Waves.v
ReconciliationQuiet.v
ReconciliationFacts.v
ReconciliationEvidence.v
PublishedEvidence.v
ControlRun.v
AgentPackages.v
RolloutFacts.v
PackagePlanFacts.v
RolloutOrder.v
RolloutCompletion.v
RolloutResults.v
RolloutRun.v
