(* ===== verification/Prelude.v ===== *)
(** * Vonk Forge: verification of the agent's package engine and of the control
    plane's orchestration core

    Vonk Forge runs model-serving workloads on a fleet of GPU nodes. A control
    plane ([control/src/vonk_control]) turns desired state into plans, and an
    agent on every node ([agent/src/vonk_agent]) carries their operations out. The
    two speak the protocol of [agent_protocol]; planning helpers shared with the
    command line are in [src/cluster_profiles]. This library models the parts that
    keep durable state or decide what happens next, as executable functions, and
    proves what makes them correct.

    ** How the parts interact

    The control plane chooses nodes ([Placement]), builds an operation graph
    ([OperationGraph]), persists and authenticates it ([Orchestration]), holds the
    nodes it changes under mutation leases ([NodeLeases]) and runs background work
    from a fenced queue ([Jobs]). The reconciliation service ([AgentReconciliation])
    drives a persisted graph: it withdraws the routes, dispatches the operations
    wave by wave into the agent queue ([AgentJobs]), judges the evidence of their
    results, compensates, cancels, and hands the routes ([Routes]) to the publisher.
    Agents claim operations from the queue, extend their leases and report results,
    which the queue passes to the service inside its own transaction. Workload
    packages have a planner of their own ([PackagePlans]), whose plans the rollout
    orchestrator ([PackageRollouts]) takes through the same queue, canary first,
    driven by the loop of the control worker. An agent
    runs a loop ([AgentLoop]): it records a claim in its own journal
    ([AttemptStore]), executes it through a registry of operations ([Registry])
    while a thread renews its lease, and delivers the result. Package requests
    ([Protocol]) go to its engine ([PackageEngine]), which executes them over a
    journal ([PackageState]), a content store ([PackageStore]) and a garbage
    collector ([PackageGC]). The adapters of the engine run in a privileged process on
    the node, the package helper ([PackageHelper]): the control plane signs a grant for
    an attempt that is running, the agent sends it with the request over a socket, and
    the helper checks it, uses it up and launches.

    ** Files and the code they model

    - [Prelude] (this file): results and exceptions ([result], [exn]), stateful
      code ([M S A], an exception keeps the writes before it; [transaction] rolls
      them back), the rule systems [moves] (a relation every run respects), [reads],
      [atomic] (a call that raises wrote nothing) and [errs], their tactics, and
      lemmas on lists, options and integers.
    - [Identifiers]: the regular expressions and identity checks. [Canonical]: JSON
      documents, [json.dumps] in its two canonical forms, Python equality, SHA-256.
      [Documents]: fields of documents and of requests. [JsonText]: [json.loads].
      [Datetimes]: instants in microseconds, [isoformat] and [fromisoformat].
    - [PackageState]: [packages/state.py], one function per method of
      [PackageState] over a record [db] of the tables of its SQL schema.
      [PackageStore]: [packages/store.py], reservations, lookup, deletion, derived
      objects and quarantine over a map of object files. [PackageJournal]: their
      theorems.
    - [PackageGC]: [packages/gc.py], [collect] with its clock readings,
      cancellation polls and deletion hook, and its theorems.
    - [PackageEngine]: [packages/engine.py], [execute] and every operation it
      dispatches to, over the journal, the pointer files, the release locks and the
      generation trees. The collaborators the engine is constructed with (trust,
      acquisition, materializer, adapters, preflight, hooks, operating system
      writes) are the fields of the class [Services]; [ServicesFrame] and
      [ServicesForeign] state what the engine relies on: they leave the engine's
      own state alone and raise exceptions of their own. [PackageTransitions]: the
      theorems.
    - [NodeLeases]: [node_leases.py]; the rows other transactions commit in the
      middle of an acquisition are an argument.
    - [Protocol]: [PackageOperationRequest.parse] and the deployment projection of
      [agent_protocol/package_operations.py].
    - [OperationGraph] and [Orchestration]: [orchestration.py], the graph half and
      the persistence half; [OrchestrationFacts]: theorems on the latter.
    - [Placement]: [placement.py] with [fleet/types.py] and the topology check of
      [fleet/loaders.py].
    - [Jobs]: [jobs.py]; [JobsFacts]: workers and queue as a transition system.
    - [Contracts]: the messages of an attempt in [agent_protocol/contracts.py], as
      their constructors check them. [Messages]: directives, the canonical text of
      a message and the [parse] methods, as the class [Message] with an instance
      for each message.
    - [AttemptStore]: the agent's [state.py], one function per method of
      [AgentStateStore] over the rows of its table. [AttemptFacts]: the journal as a
      transition system and the refinement of a one-claim slot.
    - [Requests]: the requests of releases, workloads and updates
      ([releases.py], [workloads.py], [update.py]) and their checks. [Registry]:
      [operations.py] and [deadlines.py]; the handlers are the boundary classes of
      the module, records of functions. [RegistryFacts]: its theorems.
    - [AgentLoop]: [Agent.run_once] and [_ActiveHeartbeat] of the agent's
      [main.py]; the client and the credentials are records of functions, what the
      environment decides in a turn (readings, heartbeats) is the record
      [schedule]. [AgentLoopFacts] (classes [ControlMessages], [MappingContext]) and
      [AgentDelivery]: its theorems. [AgentPackages]: the engine as a boundary of
      the registry, against the reconciliation service.
    - [AgentTables]: the rows of [models.py] the next parts share, and their
      database [control_db].
    - [AgentJobs]: [agent_jobs.py], the queue of agent operations: enqueueing,
      claims with their negotiation, authority and expiry rules, heartbeats,
      results, and the parent jobs. [AgentJobsFacts]: the queue as a transition
      system and its invariants. [NodeExecutor]: an abstract executor of
      operations on nodes, and the refinement of it by the queue.
      [UpdateAuthorization]: the reservation, signing and queueing of update
      authorizations, and its theorem.
    - [Routes]: the records, digests and address parsing of [route_runtime.py] the
      service uses. [AgentReconciliation]: [agent_reconciliation.py], one function
      per method; the body of [_tick_candidate] is split along its phases. The
      publisher, the commit authority and the resolver of endpoints are
      parameters; what a transaction draws (times, ids, fences, concurrent lease
      writes) is the record [inputs].
    - [Waves]: the pure decisions of the service (waves, compensation order,
      evidence, targets). [ReconciliationQuiet]: what the queue may rely on, as
      the class [QuietConsumer]. [ReconciliationFacts]: what a tick enqueues, and
      when. [ReconciliationEvidence] and [PublishedEvidence]: queue, planning and
      service as one transition system and its evidence invariant. [ControlRun]: a
      reconciliation executed from its plan to its accepted evidence.
    - [ReleaseLocks]: the release locks of [agent_protocol/workload_packages.py], one
      function per parser, and the resolution of the graph of releases; [urlsplit] and
      [PurePosixPath] as far as the parsers use them. [ReleaseLockFacts] and
      [ReleaseGraph]: their theorems.
    - [HelperMessages]: grants and receipts of [agent_protocol/workload_packages.py],
      the invocations of [packages/backends.py], and requests, responses and frames of
      [package_helper_protocol.py]. [PackageHelper]: [package_helper.py] (active slot,
      replay database, [PackageHelper.handle], the listener),
      [package_helper_client.py] and [package_helper_authority.py]; the signature
      scheme and the two keys are the class [HelperKeys], the state file, the clock and
      the answer of the launcher are the record [helper_inputs]. [HelperFacts] (the
      helper as a transition system over connections and restarts) and [HelperCalls]:
      their theorems. [HelperRun]: the helper executed.
    - [PackagePlans]: the resolver of [package_rollouts.py] (selection of nodes,
      payloads, graph) with [WorkloadDeployment.load] and
      [resolved_reconciliation_plan]; the repository, the schema of deployments and
      the trust are the class [PackageSources].
      [PackageRollouts]: [PackageRolloutOrchestrator] of the same file,
      [package_rollout_worker.py] and [Worker.run_once] of [worker.py]; marks that are
      made in place on the history of a node are kept apart from its row, as the
      object-relational mapper does. [PackagePlanFacts], [RolloutFacts] (the rollouts
      as a transition system beside any activity of the control plane),
      [RolloutOrder], [RolloutCompletion] and [RolloutResults]: their theorems.
      [RolloutRun]: rollouts executed.

    A Python object becomes a record, an enumeration an inductive type, a table or
    dictionary a finite map (an association list where order or duplicates show),
    a method a function in [M] over the state it writes. Clocks, random identities
    and committed writes of other transactions are arguments.

    ** What the theorems show

    - Journal: a superseded attempt can write nothing, identities and attempts are
      fenced, the schema's constraints hold, at most one generation of a deployment
      is active, activation retains what it replaces.
    - Collector: reachable objects survive every run, dry runs change nothing, a
      completed run met its target, candidates go in digest order.
    - Engine: one active generation over any sequence of requests with any
      services, activation serves the requested release, a failed activation is
      compensated, removal spares what is in use, preparation writes only its own
      generation, a finished operation inspects as completed; and two defects: a pointer
      write that fails before the pointer is replaced blocks the deployment, and a persisted lock is readable
      after a restart only under a strict umask.
    - Leases: acquisition is all or nothing, the lifecycle of a grant, superseded
      grants are refused. Protocol: accepted requests are bound to their identities
      and digests.
    - Graphs: the topological order is a schedule and exists exactly when it is
      found; accepted plans are executable; the result ignores the order of the
      input; canonical documents are fixed points of the parser.
    - Orchestrator: every call is a step of a small state machine, so rows move
      forward only, completions are ordered, open reconciliations can complete, a
      plan digest names one plan; authenticated plans keep the stop, gate and
      install barriers and the order of package rollouts.
    - Placement: sound, preferred and deterministic, and complete for one node.
    - Job queue: leases are exclusive, superseded attempts are fenced for good,
      payloads are stored without secrets.
    - Agent: the messages of an attempt are read back from their text; attempts in
      the journal only advance and refine a slot that runs one claim at a time,
      whatever the loop meets; recovery finds that slot; an offered claim is
      delivered in one turn, an unacknowledged result is delivered again before
      anything is fetched, an interrupted attempt runs again only where its
      boundary allows it; what the agent reports of a package operation is what
      the reconciliation service accepts; and a defect: an operation that
      completed before its result was recorded blocks the agent for good.
    - Agent queue: it refines an executor that runs at most one mutation per node
      under growing attempts; mutations are never replayed on their own, a
      finished or superseded fence is refused for good, the loop of a claim
      terminates, the lease of an update stays within its signed deadline, and a
      finalized authorization whose turn has come is handed out exactly while its source
      is unchanged and its receipt is valid.
    - Reconciliation service: no routes are published without accepted evidence
      for every operation of the graph, operations are dispatched in the order of
      the graph while the nodes are leased and the routes are owned, the waves of a
      graph complete it, accepted evidence speaks for one operation and one subject,
      no transaction of the service starts an attempt; and a defect: agents with
      the Rust runtime are refused as targets.
    - Release locks: a lock survives its canonical form, so that a signed digest names
      one lock; a resolved graph is complete, minimal, acyclic and bounded, and every
      graph within the limits is resolved (the limit on the depth depends on the order
      of the dependencies).
    - Package helper: every launch had a grant in force for exactly its request, and no
      request and no attempt launches again before the grant expires; if only the
      authority signs, the control plane had the attempt running when it issued the
      grant; and two defects: the adapter calls of an attempt after the first that
      returned are refused until its grant expires, and a grant that expires too late ends the helper, whoever signed it.
    - Package rollouts: the graph of a resolved plan is acyclic and local to its
      nodes, no node but the canary gets an operation before the canary is accepted,
      what is enqueued is planned and its dependencies were accepted, and a node is
      accepted only after every operation planned for it succeeded in the queue; and
      two defects: no plan is resolved for two or more observed nodes, and the queue
      closes the parent of a rollout after the first result of its canary, which
      stops the rollout and the control worker.

    ** Fuel and bounds

    [OperationGraph.resolve] takes one unit of fuel per operation of the graph:
    every round orders at least one, and [topological_cases] proves that the fuel
    never runs out. [Jobs.remove_all] takes the length of its string, of which
    every step consumes a character; [Canonical.Sha256.blocks] takes the number of
    input bytes, of which every step consumes 64. The loop of a claim takes one
    unit more than there are operations ([claim_fuel]); every round excludes an
    operation, and [claim_loop_terminates] proves that it is enough.
    [Routes.Ip.print_hex] takes the four digits of a 16-bit group. [JsonText.loads]
    takes twice the length of its text and one more, and [loads_finishes] proves
    that it never runs out. [ReleaseLocks.visit] recurses on the levels below the limit
    on the depth, which is the recursion of the code. All other recursion is
    structural. SQLite integers are checked against 64 bits, the completion
    counter against [2^63 - 1], collection targets, payloads and plans against
    their limits in bytes; SHA-256 works on 32-bit words.

    ** What is not modelled

    Strings hold code points below 256. Floats, time zones, the widths of database
    columns other than those above, directory handles and file modes other than
    those a check reads are left out, and so are downloads and the promotion of
    components into the store, the building of environments and containers,
    adapter processes, the launcher and the sockets of the package helper, certificates
    and signatures (a parameter where they decide), HTTP handlers, the listing of
    jobs by signed cursors, host upgrades and the command line: they are input and
    output around the modelled core. [ReconciliationOrchestrator.advance], which no
    process of the control plane calls, is modelled in [Orchestration] but is not a
    step of the system of [PublishedEvidence]. Of the agent, the opening and
    validation of the SQLite file, the construction of the agent from its
    configuration, the back-off between turns and enrollment are left out. Of the
    packages of the control plane, the projections and action plans of
    [package_services.py] other than the write of a rollback, families and promotion
    policies, validation and publication are left out. The route publisher, admission and
    platform updates build on what is modelled here and would come next. *)

From Stdlib Require Export Ascii.
From stdpp Require Export base gmap sets list strings sorting relations.
From Stdlib Require Export ZArith Lia.

Declare Scope py_scope.
Delimit Scope py_scope with py.

(** ** Exceptions and results

    A raised Python exception is a class and a message. *)
Inductive exn_class :=
| EValue | EType | EKey | ERuntime | EOverflow
| EPackageState | EPackageStateConflict | EPackageStore | EPackageCapacity
| EPackageEngine | EPackageCancelled | EGarbageCollection | EInterrupted
| EPlacement | ETopologyValidation | ENodeLeaseConflict | EStaleAttempt | EStaleAgentAttempt | ERouteRuntime
| EAgentState | EAgentStateConflict | EUnsupportedOperation | EAgentUpdate | EReleaseValidation | EWorkloadValidation
| EProbe (error_code : string) | EToolSecurity | EDeadlineBinding | EAgentTransport | EHeartbeatShutdown | EAssertion
| EPackageRollout | EOS | EIntegrity | EAgentProtocol | EAdapterValidation | EBackendValidation | EHelperProtocol
| EHelperAuthority | EExternal.

#[export] Instance exn_class_eq_dec : EqDecision exn_class.
Proof. solve_decision. Defined.

Record exn := Exn { exn_cls : exn_class; exn_msg : string }.

#[export] Instance exn_eq_dec : EqDecision exn.
Proof. solve_decision. Defined.

Inductive result (A : Type) :=
| Ok (a : A)
| Err (e : exn).
Arguments Ok {A} a.
Arguments Err {A} e.

Definition is_ok {A} (r : result A) : bool :=
  match r with Ok _ => true | Err _ => false end.

#[export] Instance result_ret : MRet result := λ A a, Ok a.
#[export] Instance result_bind : MBind result := λ A B f r,
  match r with Ok a => f a | Err e => Err e end.

(** [ensure b c m]: the guard [if not b: raise c(m)]. *)
Definition ensure (b : bool) (c : exn_class) (m : string) : result unit :=
  if b then Ok () else Err (Exn c m).

Definition raise {A} (c : exn_class) (m : string) : result A := Err (Exn c m).

(** A loop that calls a fallible function on every element, in order. *)
Fixpoint each {A} (f : A → result unit) (l : list A) : result unit :=
  match l with
  | [] => Ok ()
  | x :: l => f x ≫= λ _, each f l
  end.

Fixpoint traverse {A B} (f : A → result B) (l : list A) : result (list B) :=
  match l with
  | [] => Ok []
  | x :: l => f x ≫= λ y, traverse f l ≫= λ ys, Ok (y :: ys)
  end.

(** ** Stateful code

    [M S A] is code over a state [S] that returns or raises; an exception keeps
    the writes done before it, as an exception in Python does. *)
Definition M (S A : Type) : Type := S → result A * S.

#[export] Instance M_ret {S} : MRet (M S) := λ A a s, (Ok a, s).
#[export] Instance M_bind {S} : MBind (M S) := λ A B f m s,
  match m s with
  | (Ok a, s') => f a s'
  | (Err e, s') => (Err e, s')
  end.

Definition lift {S A} (r : result A) : M S A := λ s, (r, s).
Definition get {S} : M S S := λ s, (Ok s, s).
Definition modify {S} (f : S → S) : M S unit := λ s, (Ok (), f s).
Definition throw {S A} (c : exn_class) (m : string) : M S A := lift (raise c m).

(** A SQL transaction: an exception rolls every write of the body back. *)
Definition transaction {S A} (m : M S A) : M S A := λ s,
  match m s with
  | (Ok a, s') => (Ok a, s')
  | (Err e, _) => (Err e, s)
  end.

(** [try: m except Exception: handler]; the handler starts from the state the
    exception left. *)
Definition try_catch {S A} (m : M S A) (handler : exn → M S A) : M S A := λ s,
  match m s with
  | (Ok a, s') => (Ok a, s')
  | (Err e, s') => handler e s'
  end.

Definition rethrow {S A} (e : exn) : M S A := lift (Err e).

(** Code over one component [T] of the state, run on the whole. *)
Definition zoom {S T A} (get_part : S → T) (put_part : T → S → S) (m : M T A) : M S A :=
  λ s, let '(r, t) := m (get_part s) in (r, put_part t s).

Fixpoint eachM {S A} (f : A → M S unit) (l : list A) : M S unit :=
  match l with
  | [] => mret ()
  | x :: l => f x ≫= λ _, eachM f l
  end.

(** ** Guards as facts *)

Lemma ensure_ok b c m u : ensure b c m = Ok u ↔ b = true.
Proof. destruct b, u; unfold ensure; naive_solver. Qed.

Lemma result_bind_ok {A B} (r : result A) (f : A → result B) b :
  r ≫= f = Ok b ↔ ∃ a, r = Ok a ∧ f a = Ok b.
Proof. destruct r; cbn; naive_solver. Qed.

Lemma result_ret_ok {A} (a b : A) : (mret a : result A) = Ok b → a = b.
Proof. by intros [= ->]. Qed.

Lemma each_ok {A} (f : A → result unit) l u :
  each f l = Ok u ↔ Forall (λ x, f x = Ok ()) l.
Proof.
  destruct u. induction l as [|x l IH]; cbn; [by split; [constructor|]|].
  rewrite Forall_cons, <- IH. destruct (f x) as [[]|]; cbn; naive_solver.
Qed.

Lemma traverse_ok {A B} (f : A → result B) l ys :
  traverse f l = Ok ys ↔ Forall2 (λ x y, f x = Ok y) l ys.
Proof.
  revert ys. induction l as [|x l IH]; intros ys; cbn.
  - split; [intros [= <-]; constructor|]. by inversion 1.
  - split.
    + rewrite result_bind_ok. setoid_rewrite result_bind_ok.
      intros (y & ? & zs & ?%IH & [= <-]). by constructor.
    + inversion 1 as [|? y ? zs Hx Hl]; subst. rewrite Hx. cbn.
      by rewrite (proj2 (IH zs) Hl).
Qed.

Lemma M_bind_ok {S A B} (m : M S A) (f : A → M S B) s b s' :
  (m ≫= f) s = (Ok b, s') ↔ ∃ a s1, m s = (Ok a, s1) ∧ f a s1 = (Ok b, s').
Proof.
  unfold mbind, M_bind. destruct (m s) as [[a|e] s1]; naive_solver.
Qed.

Lemma M_bind_run {S A B} (m : M S A) (f : A → M S B) s a s1 :
  m s = (Ok a, s1) → (m ≫= f) s = f a s1.
Proof. unfold mbind, M_bind. by intros ->. Qed.

Lemma M_bind_err {S A B} (m : M S A) (f : A → M S B) s e s1 :
  m s = (Err e, s1) → (m ≫= f) s = (Err e, s1).
Proof. unfold mbind, M_bind. by intros ->. Qed.

Lemma M_ret_ok {S A} (a b : A) (s s' : S) :
  (mret a : M S A) s = (Ok b, s') ↔ a = b ∧ s = s'.
Proof. unfold mret, M_ret. naive_solver. Qed.

Lemma lift_ok {S A} (r : result A) (s s' : S) a :
  lift r s = (Ok a, s') ↔ r = Ok a ∧ s = s'.
Proof. unfold lift. naive_solver. Qed.

Lemma get_ok {S} (s s' a : S) : get s = (Ok a, s') ↔ a = s ∧ s' = s.
Proof. unfold get. naive_solver. Qed.

Lemma modify_ok {S} (f : S → S) s s' u : modify f s = (Ok u, s') ↔ s' = f s.
Proof. unfold modify. destruct u. naive_solver. Qed.

Lemma transaction_ok {S A} (m : M S A) s a s' :
  transaction m s = (Ok a, s') ↔ m s = (Ok a, s').
Proof. unfold transaction. destruct (m s) as [[]]; naive_solver. Qed.

Lemma transaction_err {S A} (m : M S A) s e s' :
  transaction m s = (Err e, s') → s' = s.
Proof. unfold transaction. destruct (m s) as [[]]; naive_solver. Qed.

Lemma throw_ok {S A} c m (s s' : S) (a : A) : throw c m s = (Ok a, s') ↔ False.
Proof. unfold throw, lift, raise. naive_solver. Qed.

Lemma zoom_ok {S T A} g p (m : M T A) (s s' : S) a :
  zoom g p m s = (Ok a, s') ↔ ∃ t, m (g s) = (Ok a, t) ∧ s' = p t s.
Proof. unfold zoom. destruct (m (g s)) as [r t]; naive_solver. Qed.

Lemma try_catch_ok {S A} (m : M S A) h s a s' :
  try_catch m h s = (Ok a, s') →
  m s = (Ok a, s') ∨ ∃ e s1, m s = (Err e, s1) ∧ h e s1 = (Ok a, s').
Proof. unfold try_catch. destruct (m s) as [[]]; naive_solver. Qed.

Lemma rethrow_ok {S A} e (s s' : S) (a : A) : rethrow e s = (Ok a, s') ↔ False.
Proof. unfold rethrow, lift. naive_solver. Qed.

(** [inv_run_all] turns every successful run [m s = (Ok a, s')] of the context
    into the runs of its statements, and the same for pure fallible code. *)
Ltac inv_run_all :=
  repeat match goal with
  | H : mbind _ _ _ = (Ok _, _) |- _ =>
      apply (proj1 (M_bind_ok _ _ _ _ _)) in H; destruct H as (? & ? & ? & H)
  | H : mbind _ _ = Ok _ |- _ =>
      apply (proj1 (result_bind_ok _ _ _)) in H; destruct H as (? & ? & H)
  | H : get _ = (Ok _, _) |- _ =>
      apply (proj1 (get_ok _ _ _)) in H; destruct H as [-> ->]
  | H : modify _ _ = (Ok _, _) |- _ => apply (proj1 (modify_ok _ _ _ _)) in H; subst
  | H : mret _ _ = (Ok _, _) |- _ =>
      apply (proj1 (M_ret_ok _ _ _ _)) in H;
      destruct H as [H <-];
      lazymatch type of H with _ = ?b => tryif is_var b then (destruct H) else idtac end
  | H : lift _ _ = (Ok _, _) |- _ =>
      apply (proj1 (lift_ok _ _ _ _)) in H; destruct H as [H <-]
  | H : throw _ _ _ = (Ok _, _) |- _ => apply (proj1 (throw_ok _ _ _ _ _)) in H; destruct H
  | H : rethrow _ _ = (Ok _, _) |- _ => apply (proj1 (rethrow_ok _ _ _ _)) in H; destruct H
  | H : transaction _ _ = (Ok _, _) |- _ => apply (proj1 (transaction_ok _ _ _ _)) in H
  | H : ensure _ _ _ = Ok _ |- _ => apply (proj1 (ensure_ok _ _ _ _)) in H
  | H : mret _ = Ok _ |- _ => apply result_ret_ok in H
  | H : Ok _ = Ok _ |- _ => injection H as H
  | H : Err _ = Ok _ |- _ => discriminate H
  | H : raise _ _ = Ok _ |- _ => discriminate H
  | H : (Ok _, _) = (Ok _, _) |- _ => injection H; clear H; intros
  | H : (Err _, _) = (Ok _, _) |- _ => discriminate H
  end.

(** ** Relations every run of a program respects

    [moves R m]: whatever [m] does, returning or raising, the state it starts
    from and the state it leaves are related by [R]. *)
Definition moves {S A} (R : relation S) (m : M S A) : Prop :=
  ∀ s, R s (m s).2.

(** [preserves I m]: [I] is an invariant of [m], on its error paths too. *)
Notation preserves I m := (moves (λ s s', I s → I s') m) (only parsing).

Create HintDb py discriminated.

Section moves_rules.
Context {S : Type} (R : relation S) `{!PreOrder R}.

Lemma moves_ret {A} (a : A) : moves R (mret a).
Proof. intros s. cbn. reflexivity. Qed.

Lemma moves_lift {A} (r : result A) : moves R (lift r).
Proof. intros s. cbn. reflexivity. Qed.

Lemma moves_throw {A} c m : moves R (throw (A:=A) c m).
Proof. apply moves_lift. Qed.

Lemma moves_get : moves R get.
Proof. intros s. cbn. reflexivity. Qed.

Lemma moves_modify f : (∀ s, R s (f s)) → moves R (modify f).
Proof. intros H s. apply H. Qed.

Lemma moves_bind {A B} (m : M S A) (f : A → M S B) :
  moves R m → (∀ a, moves R (f a)) → moves R (m ≫= f).
Proof.
  intros Hm Hf s. unfold mbind, M_bind. specialize (Hm s).
  destruct (m s) as [[a|e] s1]; cbn in *; [|done].
  etrans; [exact Hm|]. apply Hf.
Qed.

(** A guard: what follows it may use that it held. *)
Lemma moves_lift_bind {A B} (r : result A) (f : A → M S B) :
  (∀ a, r = Ok a → moves R (f a)) → moves R (lift r ≫= f).
Proof.
  intros Hf s. unfold mbind, M_bind, lift. destruct r as [a|e]; cbn; [|reflexivity].
  by apply Hf.
Qed.

(** Reading the state first: the continuation starts from what was read. *)
Lemma moves_get_bind {B} (f : S → M S B) :
  (∀ s, R s (f s s).2) → moves R (get ≫= f).
Proof. intros H s. apply H. Qed.

Lemma moves_transaction {A} (m : M S A) : moves R m → moves R (transaction m).
Proof.
  intros Hm s. unfold transaction. specialize (Hm s).
  destruct (m s) as [[a|e] s1]; cbn in *; [done|reflexivity].
Qed.

Lemma moves_if {A} (b : bool) (m1 m2 : M S A) :
  moves R m1 → moves R m2 → moves R (if b then m1 else m2).
Proof. by destruct b. Qed.

Lemma moves_try_catch {A} (m : M S A) handler :
  moves R m → (∀ e, moves R (handler e)) → moves R (try_catch m handler).
Proof.
  intros Hm Hh s. unfold try_catch. specialize (Hm s).
  destruct (m s) as [[a|e] s1]; cbn in *; [done|]. etrans; [exact Hm|]. apply Hh.
Qed.

Lemma moves_rethrow {A} e : moves R (rethrow (A:=A) e).
Proof. apply moves_lift. Qed.

Lemma moves_eachM {A} (f : A → M S unit) l :
  (∀ x, moves R (f x)) → moves R (eachM f l).
Proof.
  intros Hf. induction l as [|x l IH]; cbn; [apply moves_ret|].
  by apply moves_bind.
Qed.

Lemma moves_eachM_in {A} (f : A → M S unit) l :
  (∀ x, x ∈ l → moves R (f x)) → moves R (eachM f l).
Proof.
  induction l as [|x l IH]; intros Hf; cbn; [apply moves_ret|].
  apply moves_bind; [apply Hf; by left|intros _]. apply IH. intros y Hy. apply Hf. by right.
Qed.
End moves_rules.

Lemma moves_impl {S A} (R1 R2 : relation S) (m : M S A) :
  (∀ s s', R1 s s' → R2 s s') → moves R1 m → moves R2 m.
Proof. intros HR Hm s. apply HR, Hm. Qed.

Lemma moves_zoom {S T A} (R : relation S) (g : S → T) p (m : M T A) :
  moves (λ t t', ∀ s, g s = t → R s (p t' s)) m → moves R (zoom g p m).
Proof.
  intros Hm s. unfold zoom. specialize (Hm (g s)).
  destruct (m (g s)) as [r t]. cbn in *. by apply Hm.
Qed.

(** Only the runs of a transaction that commit write anything. *)
Lemma moves_committed {S A} (R : relation S) `{!Reflexive R} (m : M S A) :
  (∀ s a s', m s = (Ok a, s') → R s s') → moves R (transaction m).
Proof.
  intros Hm s. unfold transaction. specialize (Hm s).
  destruct (m s) as [[a|e] s']; cbn; [by eapply Hm|reflexivity].
Qed.

#[export] Instance invariant_preorder {S} (I : S → Prop) :
  PreOrder (λ s s', I s → I s').
Proof. split; intros ?; naive_solver. Qed.

(** The relation one run establishes. *)
Lemma moves_run {S A} (R : relation S) (m : M S A) s r s' : moves R m → m s = (r, s') → R s s'.
Proof. intros Hm H. specialize (Hm s). by rewrite H in Hm. Qed.

(** The same at one starting state, where the values read are known. *)
Definition moves_at {S A} (R : relation S) (s : S) (m : M S A) : Prop := R s (m s).2.

Lemma moves_at_bind {S A B} (R : relation S) `{!Transitive R} s (m : M S A) (f : A → M S B) :
  moves_at R s m → (∀ a s1, m s = (Ok a, s1) → moves_at R s1 (f a)) →
  moves_at R s (m ≫= f).
Proof.
  unfold moves_at, mbind, M_bind. intros Hm Hf.
  destruct (m s) as [[a|e] s1] eqn:H; cbn in *; [|done]. etrans; [done|]. by apply Hf.
Qed.

Lemma moves_get_at {S B} (R : relation S) (f : S → M S B) :
  (∀ s, moves_at R s (f s)) → moves R (get ≫= f).
Proof. intros H s. apply H. Qed.

Lemma moves_at_run {S A} (R : relation S) s (m : M S A) r s' : moves_at R s m → m s = (r, s') → R s s'.
Proof. unfold moves_at. intros Hm E. by rewrite E in Hm. Qed.

Lemma moves_at_moves {S A} (R : relation S) s (m : M S A) : moves R m → moves_at R s m.
Proof. intros H. apply H. Qed.

(** [reads m]: [m] never writes. *)
Definition reads {S A} (m : M S A) : Prop := ∀ s, (m s).2 = s.

Lemma reads_moves {S A} (m : M S A) : moves eq m → reads m.
Proof. intros H s. symmetry. apply H. Qed.

Lemma reads_state {S A} (m : M S A) s r s' : reads m → m s = (r, s') → s' = s.
Proof. intros H Hm. specialize (H s). by rewrite Hm in H. Qed.

Lemma moves_reads {S A} (R : relation S) `{!Reflexive R} (m : M S A) : reads m → moves R m.
Proof. intros H s. by rewrite (H s). Qed.

Lemma reads_zoom {S T A} (g : S → T) p (m : M T A) :
  (∀ s, p (g s) s = s) → reads m → reads (zoom g p m).
Proof.
  intros Hp Hm s. unfold zoom. specialize (Hm (g s)).
  destruct (m (g s)) as [r t]. cbn in *. by subst.
Qed.

Lemma reads_lift {S A} (r : result A) : reads (S:=S) (lift r).
Proof. by intros s. Qed.

Lemma reads_ret {S A} (a : A) : reads (S:=S) (mret a).
Proof. by intros s. Qed.

Lemma reads_get {S} : reads (S:=S) get.
Proof. by intros s. Qed.

(** A statement that only reads: what follows starts from the same state. *)
Lemma moves_at_read {S A B} (R : relation S) `{!Reflexive R} s (m : M S A) (f : A → M S B) :
  reads m → (∀ a, m s = (Ok a, s) → moves_at R s (f a)) → moves_at R s (m ≫= f).
Proof.
  unfold moves_at, mbind, M_bind. intros Hm Hf. specialize (Hm s).
  destruct (m s) as [[a|e] s1] eqn:H; cbn in Hm; subst; [by apply Hf|cbn; reflexivity].
Qed.

Create HintDb reading discriminated.
#[export] Hint Resolve reads_lift reads_ret reads_get : reading.

Ltac at_read := apply moves_at_read; [exact _|solve [auto 3 with reading nocore]|intros ? ?].

(** [atomic m]: when [m] raises, it has written nothing. *)
Definition atomic {S A} (m : M S A) : Prop := ∀ s e s', m s = (Err e, s') → s' = s.

Lemma atomic_transaction {S A} (m : M S A) : atomic (transaction m).
Proof. intros s e s'. apply transaction_err. Qed.

Lemma atomic_lift_bind {S A B} (r : result A) (f : A → M S B) :
  (∀ a, r = Ok a → atomic (f a)) → atomic (lift r ≫= f).
Proof.
  intros Hf s e s'. unfold mbind, M_bind, lift. destruct r as [a|e']; [by apply Hf|].
  by intros [= _ <-].
Qed.

Lemma atomic_then_ret {S A B} (m : M S A) (f : A → B) :
  atomic m → atomic (m ≫= λ a, mret (f a)).
Proof.
  intros Hm s e s'. unfold mbind, M_bind. destruct (m s) as [[a|e'] s1] eqn:H; [done|].
  intros [= _ <-]. by eapply Hm.
Qed.

Lemma moves_atomic {S A} (R : relation S) `{!Reflexive R} (m : M S A) :
  atomic m → (∀ s a s', m s = (Ok a, s') → R s s') → moves R m.
Proof.
  intros Ha Hm s. destruct (m s) as [[a|e] s'] eqn:H; cbn; [by eapply Hm|].
  by rewrite (Ha _ _ _ H).
Qed.

Ltac solve_atomic :=
  repeat (first [ apply atomic_lift_bind; intros ? ? | apply atomic_transaction ]).

(** [errs P m]: an exception of [m] satisfies [P]. *)
Definition errs {S A} (P : exn → Prop) (m : M S A) : Prop := ∀ s e s', m s = (Err e, s') → P e.

Create HintDb errors discriminated.

Lemma bind_cases {S A B} (m : M S A) (f : A → M S B) s r s' :
  (m ≫= f) s = (r, s') →
  (∃ e, m s = (Err e, s') ∧ r = Err e) ∨ ∃ a s1, m s = (Ok a, s1) ∧ f a s1 = (r, s').
Proof. unfold mbind, M_bind. destruct (m s) as [[a|e] s1]; naive_solver. Qed.

Section errs_rules.
Context {S : Type} (P : exn → Prop).

Lemma errs_ret {A} (a : A) : errs (S:=S) P (mret a).
Proof. by intros s e s'. Qed.

Lemma errs_get : errs (S:=S) P get.
Proof. by intros s e s'. Qed.

Lemma errs_modify f : errs (S:=S) P (modify f).
Proof. by intros s e s'. Qed.

Lemma errs_throw {A} c m : P (Exn c m) → errs (S:=S) P (throw (A:=A) c m).
Proof. intros HP s e s' [= <- _]. done. Qed.

Lemma errs_ensure b c m : P (Exn c m) → errs (S:=S) P (lift (ensure b c m)).
Proof. intros HP s e s'. unfold lift, ensure. destruct b; [done|]. by intros [= <- _]. Qed.

Lemma errs_lift {A} (r : result A) : (∀ e, r = Err e → P e) → errs (S:=S) P (lift r).
Proof. intros HP s e s'. unfold lift. intros [= -> _]. by apply HP. Qed.

Lemma errs_bind {A B} (m : M S A) (f : A → M S B) :
  errs P m → (∀ a, errs P (f a)) → errs P (m ≫= f).
Proof.
  intros Hm Hf s e s' [(e' & He & [= <-])|(a & s1 & _ & H)]%bind_cases; [by eapply Hm|by eapply Hf].
Qed.

Lemma errs_transaction {A} (m : M S A) : errs P m → errs P (transaction m).
Proof.
  intros Hm s e s'. unfold transaction. destruct (m s) as [[a|e'] s1] eqn:H; [done|].
  intros [= <- _]. by eapply Hm.
Qed.
End errs_rules.

Lemma errs_zoom {S T A} (P : exn → Prop) g p (m : M T A) :
  errs P m → errs P (zoom (S:=S) g p m).
Proof.
  intros Hm s e s'. unfold zoom. destruct (m (g s)) as [r t] eqn:H. intros [= -> _].
  by eapply Hm.
Qed.

Ltac errs_step :=
  lazymatch goal with
  | |- errs _ (mret _) => apply errs_ret
  | |- errs _ get => apply errs_get
  | |- errs _ (modify _) => apply errs_modify
  | |- errs _ (throw _ _) => apply errs_throw; done
  | |- errs _ (lift (ensure _ _ _)) => apply errs_ensure; done
  | |- errs _ (transaction _) => apply errs_transaction
  | |- errs _ (mbind _ _) => apply errs_bind; [|intros ?]
  | |- errs _ (if ?x then _ else _) => destruct x
  | |- errs _ (match ?x with _ => _ end) => destruct x eqn:?
  end.

Ltac solve_errs := repeat (first [ solve [auto 3 with errors nocore] | errs_step ]).

(** [solve_moves] walks the statements of a program, closes the calls of other
    programs with their lemmas of the database [py], and leaves the writes. *)
Ltac moves_step :=
  lazymatch goal with
  | |- moves _ (mret _) => apply moves_ret; exact _
  | |- moves _ (lift _) => apply moves_lift; exact _
  | |- moves _ (throw _ _) => apply moves_throw; exact _
  | |- moves _ (rethrow _) => apply moves_rethrow; exact _
  | |- moves _ (try_catch _ _) => apply moves_try_catch; [exact _| |intros ?]
  | |- moves _ get => apply moves_get; exact _
  | |- moves _ (transaction _) => apply moves_transaction; [exact _|]
  | |- moves _ (eachM _ _) => apply moves_eachM; [exact _|]; intros ?
  | |- moves _ (mbind _ (lift _)) => apply moves_lift_bind; [exact _|intros ? ?]
  | |- moves _ (mbind _ _) => apply moves_bind; [exact _| |intros ?]
  | |- moves _ (if ?x then _ else _) => first [ apply moves_if | destruct x eqn:? ]
  | |- moves _ (match ?x with _ => _ end) => destruct x eqn:?
  | |- moves _ (let _ := _ in _) => intros_let
  end
with intros_let := cbv zeta.

Ltac solve_moves :=
  repeat (first [ solve [auto 3 with py nocore] | moves_step ]).

(** Walk up to the transactions of a program, whose commits need an argument. *)
Ltac moves_to_commit :=
  repeat lazymatch goal with
  | |- moves _ (transaction _) => fail
  | |- _ => first [ solve [auto 3 with py nocore] | moves_step ]
  end.

(** ** Python values and collections *)

Definition py_sorted (l : list string) : list string := merge_sort String.le l.

Lemma py_sorted_perm l : py_sorted l ≡ₚ l.
Proof. apply merge_sort_Permutation. Qed.

Lemma py_sorted_sorted l : Sorted String.le (py_sorted l).
Proof. apply Sorted_merge_sort, _. Qed.

Lemma py_sorted_elem_of l x : x ∈ py_sorted l ↔ x ∈ l.
Proof. by rewrite py_sorted_perm. Qed.

Lemma py_sorted_unique l1 l2 : l1 ≡ₚ l2 → py_sorted l1 = py_sorted l2.
Proof.
  intros Hp. apply (Sorted_unique String.le);
    [apply py_sorted_sorted..|]. by rewrite !py_sorted_perm.
Qed.

Lemma py_sorted_id l : Sorted String.le l → py_sorted l = l.
Proof.
  intros Hl. apply (Sorted_unique String.le); [apply py_sorted_sorted|done|].
  apply py_sorted_perm.
Qed.

Lemma py_sorted_idemp l : py_sorted (py_sorted l) = py_sorted l.
Proof. apply py_sorted_id, py_sorted_sorted. Qed.

(** [len(xs) == len(set(xs))]. *)
Definition distinct {A} `{EqDecision A} (l : list A) : bool := bool_decide (NoDup l).

Lemma distinct_true {A} `{EqDecision A} (l : list A) : distinct l = true ↔ NoDup l.
Proof. unfold distinct. by rewrite bool_decide_eq_true. Qed.

(** [x in xs] for a literal collection. *)
Definition among {A} `{EqDecision A} (x : A) (l : list A) : bool := bool_decide (x ∈ l).

Lemma among_true {A} `{EqDecision A} (x : A) l : among x l = true ↔ x ∈ l.
Proof. unfold among. by rewrite bool_decide_eq_true. Qed.

Definition eqb {A} `{EqDecision A} (x y : A) : bool := bool_decide (x = y).

Lemma eqb_true {A} `{EqDecision A} (x y : A) : eqb x y = true ↔ x = y.
Proof. unfold eqb. by rewrite bool_decide_eq_true. Qed.

Lemma eqb_false {A} `{EqDecision A} (x y : A) : eqb x y = false ↔ x ≠ y.
Proof. unfold eqb. by rewrite bool_decide_eq_false. Qed.

Lemma eqb_refl {A} `{EqDecision A} (x : A) : eqb x x = true.
Proof. by apply eqb_true. Qed.

Definition is_None_b {A} (o : option A) : bool :=
  match o with None => true | Some _ => false end.

Lemma is_None_b_true {A} (o : option A) : is_None_b o = true ↔ o = None.
Proof. destruct o; naive_solver. Qed.

Definition is_Some_b {A} (o : option A) : bool := negb (is_None_b o).

Definition nonempty {A} (l : list A) : bool :=
  match l with [] => false | _ => true end.

Lemma nonempty_true {A} (l : list A) : nonempty l = true ↔ l ≠ [].
Proof. destruct l; naive_solver. Qed.

(** [ORDER BY ... LIMIT 1]: the element of a query's rows that [better] puts
    first. *)
Fixpoint best {A} (better : A → A → bool) (l : list A) : option A :=
  match l with
  | [] => None
  | x :: l =>
      match best better l with
      | None => Some x
      | Some y => if better y x then Some y else Some x
      end
  end.

Lemma best_None {A} (better : A → A → bool) l : best better l = None ↔ l = [].
Proof. destruct l as [|x l]; cbn; [done|]. repeat case_match; naive_solver. Qed.

Lemma best_elem {A} (better : A → A → bool) l x : best better l = Some x → x ∈ l.
Proof.
  revert x. induction l as [|y l IH]; intros x; cbn; [done|].
  destruct (best better l) as [z|]; [destruct (better z y)|];
    intros [= <-]; set_solver.
Qed.

Lemma best_max {A} (key : A → Z) l x :
  best (λ a b, key b <? key a)%Z l = Some x → ∀ y, y ∈ l → (key y ≤ key x)%Z.
Proof.
  revert x. induction l as [|z l IH]; intros x; cbn; [done|].
  destruct (best _ l) as [w|] eqn:Hw.
  - specialize (IH w eq_refl). destruct (key z <? key w)%Z eqn:Hz;
      intros [= <-] y [->|Hy]%elem_of_cons; try specialize (IH _ Hy); lia.
  - apply best_None in Hw as ->. intros [= <-] y [->|Hy]%elem_of_cons; [lia|].
    by apply elem_of_nil in Hy.
Qed.

Lemma Forall2_elem_l {A B} (P : A → B → Prop) l k x :
  Forall2 P l k → x ∈ l → ∃ y, y ∈ k ∧ P x y.
Proof. induction 1; intros Hx; [by apply elem_of_nil in Hx|]. set_solver. Qed.

Lemma Forall2_elem_r {A B} (P : A → B → Prop) l k y :
  Forall2 P l k → y ∈ k → ∃ x, x ∈ l ∧ P x y.
Proof. induction 1; intros Hy; [by apply elem_of_nil in Hy|]. set_solver. Qed.

Lemma filter_length {A} (P : A → Prop) `{!∀ x, Decision (P x)} l : length (filter P l) ≤ length l.
Proof.
  induction l as [|x l IH]; [done|]. rewrite filter_cons. case_decide; cbn; lia.
Qed.

Lemma filter_full {A} (P : A → Prop) `{!∀ x, Decision (P x)} l : Forall P l → filter P l = l.
Proof. induction 1 as [|x l Hx _ IH]; [done|]. rewrite filter_cons_True by done. by rewrite IH. Qed.

Lemma filter_full_length {A} (P : A → Prop) `{!∀ x, Decision (P x)} l :
  length (filter P l) = length l ↔ Forall P l.
Proof.
  split; [|intros Hall; by rewrite filter_full].
  induction l as [|x l IH]; [by constructor|]. rewrite filter_cons. pose proof (filter_length P l).
  case_decide; cbn; [|lia]. intros [= Hl]. constructor; auto.
Qed.

(** SQL [SUM] over integers. *)
Definition sum_Z (l : list Z) : Z := foldr Z.add 0%Z l.

Lemma sum_Z_app l1 l2 : sum_Z (l1 ++ l2) = (sum_Z l1 + sum_Z l2)%Z.
Proof. induction l1 as [|x l1 IH]; cbn; [done|]. unfold sum_Z in *. lia. Qed.

Lemma sum_Z_perm l1 l2 : l1 ≡ₚ l2 → sum_Z l1 = sum_Z l2.
Proof. unfold sum_Z. induction 1; cbn in *; lia. Qed.

Lemma sum_Z_nonneg l : Forall (λ x, 0 ≤ x)%Z l → (0 ≤ sum_Z l)%Z.
Proof. unfold sum_Z. induction 1; cbn; lia. Qed.

(** Boolean connectives as propositions. *)
Lemma andb_true_intro_2 a b : a = true → b = true → a && b = true.
Proof. by intros -> ->. Qed.

Ltac bool_facts :=
  repeat match goal with
  | H : _ && _ = true |- _ => apply (proj1 (andb_true_iff _ _)) in H; destruct H
  | H : _ || _ = false |- _ => apply (proj1 (orb_false_iff _ _)) in H; destruct H
  | H : negb _ = true |- _ => apply (proj1 (negb_true_iff _)) in H
  | H : negb _ = false |- _ => apply (proj1 (negb_false_iff _)) in H
  | H : bool_decide _ = true |- _ => apply (proj1 (bool_decide_eq_true _)) in H
  | H : bool_decide _ = false |- _ => apply (proj1 (bool_decide_eq_false _)) in H
  | H : eqb _ _ = true |- _ => apply (proj1 (eqb_true _ _)) in H
  | H : eqb _ _ = false |- _ => apply (proj1 (eqb_false _ _)) in H
  | H : among _ _ = true |- _ => apply (proj1 (among_true _ _)) in H
  | H : distinct _ = true |- _ => apply (proj1 (distinct_true _)) in H
  | H : nonempty _ = true |- _ => apply (proj1 (nonempty_true _)) in H
  | H : is_None_b _ = true |- _ => apply (proj1 (is_None_b_true _)) in H
  | H : (_ <=? _)%Z = true |- _ => apply (proj1 (Z.leb_le _ _)) in H
  | H : (_ <=? _)%Z = false |- _ => apply (proj1 (Z.leb_gt _ _)) in H
  | H : (_ <? _)%Z = true |- _ => apply (proj1 (Z.ltb_lt _ _)) in H
  | H : (_ <? _)%Z = false |- _ => apply (proj1 (Z.ltb_ge _ _)) in H
  | H : (_ =? _)%Z = true |- _ => apply (proj1 (Z.eqb_eq _ _)) in H
  | H : (_ =? _)%Z = false |- _ => apply (proj1 (Z.eqb_neq _ _)) in H
  | H : forallb _ _ = true |- _ => rewrite forallb_forall in H
  end.
