(* ===== verification/Identifiers.v ===== *)
(** * Identities and their validators

    The regular expressions and identity checks the agent and the control plane
    share: SHA-256 digests, node, job and fence identities, identifiers and
    phases. Each Python pattern is the boolean function that decides whether
    [fullmatch] accepts a string. A Python string is modelled as a sequence of
    code points below 256 ([string]); the patterns accept ASCII only. *)

From S2P Require Import Prelude.

Definition code (c : Ascii.ascii) : N := Ascii.N_of_ascii c.

Definition in_range (lo hi c : Ascii.ascii) : bool :=
  (code lo <=? code c)%N && (code c <=? code hi)%N.

Definition is_lower (c : Ascii.ascii) : bool := in_range "a"%char "z"%char c.
Definition is_digit (c : Ascii.ascii) : bool := in_range "0"%char "9"%char c.
Definition is_hex (c : Ascii.ascii) : bool := is_digit c || in_range "a"%char "f"%char c.
Definition is_lower_digit (c : Ascii.ascii) : bool := is_lower c || is_digit c.

Fixpoint all_chars (p : Ascii.ascii → bool) (s : string) : bool :=
  match s with
  | EmptyString => true
  | String c s => p c && all_chars p s
  end.

Fixpoint last_char (s : string) : option Ascii.ascii :=
  match s with
  | EmptyString => None
  | String c EmptyString => Some c
  | String _ s => last_char s
  end.

Definition first_char (s : string) : option Ascii.ascii :=
  match s with EmptyString => None | String c _ => Some c end.

Definition char_is (p : Ascii.ascii → bool) (o : option Ascii.ascii) : bool :=
  match o with Some c => p c | None => false end.

(** [value.strip()] is nonempty: some character is not white space. Python's
    [str.strip] also removes the separators 28 to 31, 133 and 160. *)
Definition is_py_space (c : Ascii.ascii) : bool :=
  Ascii.is_space c || (28 <=? code c)%N && (code c <=? 31)%N
  || (code c =? 133)%N || (code c =? 160)%N.

Fixpoint nonblank (s : string) : bool :=
  match s with
  | EmptyString => false
  | String c s => negb (is_py_space c) || nonblank s
  end.

Definition fits (lo hi : nat) (s : string) : bool :=
  (lo <=? String.length s)%nat && (String.length s <=? hi)%nat.

(** [[0-9a-f]{n}]. *)
Definition is_hex_of (n : nat) (s : string) : bool :=
  (String.length s =? n)%nat && all_chars is_hex s.

Definition is_digest (s : string) : bool := is_hex_of 64 s.
Definition is_commit (s : string) : bool := is_hex_of 40 s.

(** [spk_[0-9a-f]{32}]. *)
Definition is_node_id (s : string) : bool :=
  String.prefix "spk_" s && (String.length s =? 36)%nat
  && all_chars is_hex (String.substring 4 32 s).

(** [[a-z0-9](?:X{0,126}[a-z0-9])?] for a class [X] that contains [[a-z0-9]]. *)
Definition is_token (extra : Ascii.ascii → bool) (s : string) : bool :=
  fits 1 128 s && char_is is_lower_digit (first_char s)
  && char_is is_lower_digit (last_char s)
  && all_chars (λ c, is_lower_digit c || extra c) s.

Definition is_dot_dash (c : Ascii.ascii) : bool :=
  among c ["."%char; "_"%char; "-"%char].
Definition is_dot_dash_colon (c : Ascii.ascii) : bool :=
  among c ["."%char; "_"%char; ":"%char; "-"%char].

Definition is_identifier (s : string) : bool := is_token is_dot_dash s.
Definition is_operation_id (s : string) : bool := is_token is_dot_dash_colon s.

(** [[a-z][a-z0-9-]{0,63}]. *)
Definition is_phase (s : string) : bool :=
  fits 1 64 s && char_is is_lower (first_char s)
  && all_chars (λ c, is_lower_digit c || eqb c "-"%char) s.

(** [str(uuid.UUID(s)) == s]: the canonical text of a UUID is 32 lowercase
    hexadecimal digits in groups of 8, 4, 4, 4 and 12. *)
Fixpoint matches (pattern : list (Ascii.ascii → bool)) (s : string) : bool :=
  match pattern, s with
  | [], EmptyString => true
  | p :: pattern, String c s => p c && matches pattern s
  | _, _ => false
  end.

Definition dash : Ascii.ascii → bool := eqb "-"%char.
Definition hexes (n : nat) : list (Ascii.ascii → bool) := replicate n is_hex.

Definition is_uuid (s : string) : bool :=
  matches (hexes 8 ++ [dash] ++ hexes 4 ++ [dash] ++ hexes 4 ++ [dash]
           ++ hexes 4 ++ [dash] ++ hexes 12) s.

(** [parsed.version == 4]: [UUID.version] is defined for the RFC 4122 variant
    only, whose top bits are the characters 8, 9, a and b. *)
Definition is_uuid4 (s : string) : bool :=
  matches (hexes 8 ++ [dash] ++ hexes 4 ++ [dash]
           ++ [eqb "4"%char] ++ hexes 3 ++ [dash]
           ++ [λ c, among c ["8"%char; "9"%char; "a"%char; "b"%char]] ++ hexes 3
           ++ [dash] ++ hexes 12) s.

(** The SQLite driver refuses an integer that is not a signed 64-bit one. *)
Definition sqlite_max : Z := 2 ^ 63 - 1.
Definition sqlite_int (z : Z) : result unit :=
  ensure ((- 2 ^ 63 <=? z)%Z && (z <=? sqlite_max)%Z) EOverflow
    "Python int too large to convert to SQLite INTEGER".

(** ** Text *)

Definition lower_char (c : Ascii.ascii) : Ascii.ascii :=
  if in_range "A"%char "Z"%char c then Ascii.ascii_of_N (code c + 32) else c.

Fixpoint lower (s : string) : string :=
  match s with
  | EmptyString => EmptyString
  | String c s => String (lower_char c) (lower s)
  end.

(** [pattern.search]: a match at some position. *)
Fixpoint search (matches_at : string → bool) (s : string) : bool :=
  matches_at s || match s with EmptyString => false | String _ s => search matches_at s end.

(** [private.?key]; the dot does not match a line feed. *)
Definition private_key_at (s : string) : bool :=
  String.prefix "private" s &&
  let rest := String.substring 7 (String.length s - 7) s in
  String.prefix "key" rest
  || match rest with
     | String c rest => negb (code c =? 10)%N && String.prefix "key" rest
     | EmptyString => false
     end.

Fixpoint has_char (c : Ascii.ascii) (s : string) : bool :=
  match s with EmptyString => false | String d s => eqb c d || has_char c s end.

(** [s.split(c)]. *)
Fixpoint split_on (c : Ascii.ascii) (s : string) : list string :=
  match s with
  | EmptyString => [EmptyString]
  | String d s =>
      if eqb d c then EmptyString :: split_on c s
      else match split_on c s with
           | part :: parts => String d part :: parts
           | [] => [String d EmptyString]
           end
  end.

(** ** What the validators guarantee *)

Lemma all_chars_impl (p q : Ascii.ascii → bool) s :
  (∀ c, p c = true → q c = true) → all_chars p s = true → all_chars q s = true.
Proof.
  intros Hpq. induction s as [|c s IH]; cbn; [done|].
  rewrite !andb_true_iff. intros [Hc Hs]. auto.
Qed.

Lemma is_digest_length s : is_digest s = true → String.length s = 64.
Proof. unfold is_digest, is_hex_of. intros ?. bool_facts. by apply Nat.eqb_eq. Qed.

Lemma matches_length pattern s :
  matches pattern s = true → String.length s = length pattern.
Proof.
  revert s. induction pattern as [|p pattern IH]; intros [|c s]; cbn; try done.
  rewrite andb_true_iff. intros [_ Hs]. by rewrite (IH _ Hs).
Qed.

Lemma matches_impl ps qs s :
  Forall2 (λ p q : Ascii.ascii → bool, ∀ c, p c = true → q c = true) ps qs →
  matches ps s = true → matches qs s = true.
Proof.
  intros Hps. revert s. induction Hps as [|p q ps qs Hpq _ IH]; intros [|c s]; cbn; try done.
  rewrite !andb_true_iff. intros [Hc Hs]. auto.
Qed.

Lemma is_uuid4_uuid s : is_uuid4 s = true → is_uuid s = true.
Proof.
  unfold is_uuid4, is_uuid. apply matches_impl. cbn [hexes replicate app].
  repeat (apply Forall2_cons; split; [intros c Hc; try exact Hc|]); [..|constructor].
  - apply (proj1 (eqb_true _ _)) in Hc as <-. reflexivity.
  - apply (proj1 (among_true _ _)) in Hc.
    repeat (apply elem_of_cons in Hc as [->|Hc]; [reflexivity|]).
    by apply elem_of_nil in Hc.
Qed.

Lemma nonblank_nonempty s : nonblank s = true → s ≠ "".
Proof. by destruct s. Qed.
