(* ===== verification/Canonical.v ===== *)
(** * Canonical JSON and SHA-256

    The two parts of Python's standard library that give documents their
    identity: [json.dumps(value, sort_keys=True, separators=(",", ":"),
    ensure_ascii=True)] and [hashlib.sha256(...).hexdigest()]. Numbers are
    integers: no document of the modelled code carries a float. *)

From stdpp Require Import pretty.
From S2P Require Import Prelude.

(** ** JSON values

    A Python [dict] is the list of its items in insertion order. *)
Inductive json :=
| JNull
| JBool (b : bool)
| JInt (z : Z)
| JStr (s : string)
| JArr (items : list json)
| JObj (items : list (string * json)).

Definition key_le {A} (p q : string * A) : Prop := String.le p.1 q.1.

#[export] Instance key_le_dec {A} : RelDecision (@key_le A).
Proof. intros p q. unfold key_le. apply _. Defined.

Definition hex_char (n : N) : Ascii.ascii :=
  if (n <? 10)%N then Ascii.ascii_of_N (48 + n) else Ascii.ascii_of_N (87 + n).

(** [ensure_ascii]: a printable ASCII character stands for itself. *)
Definition escape_char (c : Ascii.ascii) : string :=
  let n := Ascii.N_of_ascii c in
  match n with
  | 34 => "\" +:+ String (Ascii.ascii_of_N 34) EmptyString
  | 92 => "\\"
  | 8 => "\b" | 9 => "\t" | 10 => "\n" | 12 => "\f" | 13 => "\r"
  | _ => if (32 <=? n)%N && (n <=? 126)%N then String c EmptyString
         else "\u00" +:+ String (hex_char (n / 16)) (String (hex_char (n mod 16)) EmptyString)
  end%N.

(** [ensure_ascii=False] and UTF-8: only control characters are escaped, and a
    code point above 127 is two bytes. *)
Definition utf8_char (c : Ascii.ascii) : string :=
  let n := Ascii.N_of_ascii c in
  if (n <=? 126)%N then escape_char c
  else if (n =? 127)%N then String c EmptyString
  else String (Ascii.ascii_of_N (192 + n / 64)) (String (Ascii.ascii_of_N (128 + n mod 64)) EmptyString).

Fixpoint escape (char : Ascii.ascii → string) (s : string) : string :=
  match s with
  | EmptyString => EmptyString
  | String c s => char c +:+ escape char s
  end.

Definition quote : string := String (Ascii.ascii_of_N 34) EmptyString.
Definition json_string (char : Ascii.ascii → string) (s : string) : string :=
  quote +:+ escape char s +:+ quote.

Fixpoint join (sep : string) (l : list string) : string :=
  match l with
  | [] => ""
  | [x] => x
  | x :: l => x +:+ sep +:+ join sep l
  end.

Section printer.
Context (char : Ascii.ascii → string).

Definition json_item (p : string * string) : string := json_string char p.1 +:+ ":" +:+ p.2.

Fixpoint dumps (v : json) : string :=
  match v with
  | JNull => "null"
  | JBool b => if b then "true" else "false"
  | JInt z => pretty z
  | JStr s => json_string char s
  | JArr items => "[" +:+ join "," (map dumps items) +:+ "]"
  | JObj items =>
      let rendered := map (λ '(k, x), (k, dumps x)) items in
      "{" +:+ join "," (map json_item (merge_sort key_le rendered)) +:+ "}"
  end.
End printer.

Definition canonical (v : json) : string := dumps escape_char v.
Definition canonical_utf8 (v : json) : string := dumps utf8_char v.

(** ** Python's view of a value *)

(** The items of [json.loads(json.dumps(value, sort_keys=True))]. *)
Fixpoint sort_json (v : json) : json :=
  match v with
  | JArr items => JArr (map sort_json items)
  | JObj items => JObj (merge_sort key_le (map (λ '(k, x), (k, sort_json x)) items))
  | _ => v
  end.

(** [==] ignores the order of the items of a [dict] and takes [True] for 1. *)
Fixpoint py_norm (v : json) : json :=
  match v with
  | JBool b => JInt (if b then 1 else 0)
  | JArr items => JArr (map py_norm items)
  | JObj items => JObj (merge_sort key_le (map (λ '(k, x), (k, py_norm x)) items))
  | _ => v
  end.

(** [value.get(key)] of a mapping. *)
Definition lookup_key {A} (items : list (string * A)) (key : string) : option A :=
  snd <$> head (filter (λ p, p.1 = key) items).

(** [set(value) == fields]. *)
Definition same_keys {A} (items : list (string * A)) (fields : list string) : bool :=
  forallb (λ p, among p.1 fields) items && forallb (λ f, among f items.*1) fields.

Section json_induction.
Context (P : json → Prop) (Hnull : P JNull) (Hbool : ∀ b, P (JBool b))
  (Hint : ∀ z, P (JInt z)) (Hstr : ∀ s, P (JStr s))
  (Harr : ∀ items, Forall P items → P (JArr items))
  (Hobj : ∀ items, Forall (λ p, P p.2) items → P (JObj items)).

Fixpoint json_nested_ind (v : json) : P v :=
  match v with
  | JNull => Hnull
  | JBool b => Hbool b
  | JInt z => Hint z
  | JStr s => Hstr s
  | JArr items =>
      Harr items ((fix go l : Forall P l :=
        match l with [] => Forall_nil_2 _ | x :: l => Forall_cons_2 _ _ _ (json_nested_ind x) (go l) end) items)
  | JObj items =>
      Hobj items ((fix go l : Forall (λ p : string * json, P p.2) l :=
        match l with [] => Forall_nil_2 _ | x :: l => Forall_cons_2 _ _ _ (json_nested_ind x.2) (go l) end) items)
  end.
End json_induction.

Fixpoint json_eqb (v w : json) {struct v} : bool :=
  match v, w with
  | JNull, JNull => true
  | JBool a, JBool b => Bool.eqb a b
  | JInt a, JInt b => (a =? b)%Z
  | JStr a, JStr b => eqb a b
  | JArr l, JArr k =>
      (fix go l k := match l, k with
                     | [], [] => true
                     | x :: l, y :: k => json_eqb x y && go l k
                     | _, _ => false
                     end) l k
  | JObj l, JObj k =>
      (fix go l k := match l, k with
                     | [], [] => true
                     | (a, x) :: l, (b, y) :: k => eqb a b && json_eqb x y && go l k
                     | _, _ => false
                     end) l k
  | _, _ => false
  end.

Lemma json_eqb_true v w : json_eqb v w = true ↔ v = w.
Proof.
  revert w. induction v as [| | | |l IH|l IH] using json_nested_ind; intros [| | | |k|k]; cbn;
    try (split; discriminate); [done|..].
  - rewrite Bool.eqb_true_iff. split; congruence.
  - rewrite Z.eqb_eq. split; congruence.
  - rewrite eqb_true. split; congruence.
  - revert k. induction IH as [|x l Hx _ IHl]; intros [|y k]; [done|split; discriminate..|].
    rewrite andb_true_iff, Hx, IHl. split; [intros [-> [= ->]]; done|by intros [= -> ->]].
  - revert k. induction IH as [|[a x] l Hx _ IHl]; intros [|[b y] k]; [done|split; discriminate..|].
    cbn in Hx. rewrite !andb_true_iff, eqb_true, Hx, IHl.
    split; [intros [[-> ->] [= ->]]; done|by intros [= -> -> ->]].
Qed.

#[export] Instance json_eq_dec : EqDecision json.
Proof.
  intros v w. destruct (json_eqb v w) eqn:H; [left|right].
  - by apply json_eqb_true.
  - intros <-. by rewrite (proj2 (json_eqb_true v v)) in H.
Defined.

Definition py_eqb (v w : json) : bool := json_eqb (py_norm v) (py_norm w).

(** ** SHA-256 *)

Module Sha256.

Definition w32 (x : Z) : Z := Z.land x 4294967295.
Definition add32 (x y : Z) : Z := w32 (x + y).
Definition rotr (n x : Z) : Z := w32 (Z.lor (Z.shiftr x n) (Z.shiftl x (32 - n))).
Definition not32 (x : Z) : Z := Z.lxor x 4294967295.

Definition ch x y z := Z.lxor (Z.land x y) (Z.land (not32 x) z).
Definition maj x y z := Z.lxor (Z.lxor (Z.land x y) (Z.land x z)) (Z.land y z).
Definition bsig0 x := Z.lxor (Z.lxor (rotr 2 x) (rotr 13 x)) (rotr 22 x).
Definition bsig1 x := Z.lxor (Z.lxor (rotr 6 x) (rotr 11 x)) (rotr 25 x).
Definition ssig0 x := Z.lxor (Z.lxor (rotr 7 x) (rotr 18 x)) (Z.shiftr x 3).
Definition ssig1 x := Z.lxor (Z.lxor (rotr 17 x) (rotr 19 x)) (Z.shiftr x 10).

Definition round_constants : list Z := ([1116352408; 1899447441; 3049323471; 3921009573; 961987163; 1508970993;
   2453635748; 2870763221; 3624381080; 310598401; 607225278; 1426881987;
   1925078388; 2162078206; 2614888103; 3248222580; 3835390401; 4022224774;
   264347078; 604807628; 770255983; 1249150122; 1555081692; 1996064986;
   2554220882; 2821834349; 2952996808; 3210313671; 3336571891; 3584528711;
   113926993; 338241895; 666307205; 773529912; 1294757372; 1396182291;
   1695183700; 1986661051; 2177026350; 2456956037; 2730485921; 2820302411;
   3259730800; 3345764771; 3516065817; 3600352804; 4094571909; 275423344;
   430227734; 506948616; 659060556; 883997877; 958139571; 1322822218;
   1537002063; 1747873779; 1955562222; 2024104815; 2227730452; 2361852424;
   2428436474; 2756734187; 3204031479; 3329325298])%Z.

Definition initial : list Z := ([1779033703; 3144134277; 1013904242; 2773480762; 1359893119; 2600822924;
   528734635; 1541459225])%Z.

Fixpoint bytes_of (s : string) : list Z :=
  match s with
  | EmptyString => []
  | String c s => Z.of_N (Ascii.N_of_ascii c) :: bytes_of s
  end.

(** [n] bytes of [x], most significant first. *)
Fixpoint big_endian (n : nat) (x : Z) : list Z :=
  match n with
  | O => []
  | S n => Z.land (Z.shiftr x (8 * Z.of_nat n)) 255 :: big_endian n x
  end.

Definition pad (msg : list Z) : list Z :=
  let n := Z.of_nat (length msg) in
  let zeros := Z.to_nat ((55 - n) mod 64) in
  msg ++ [128%Z] ++ replicate zeros 0%Z ++ big_endian 8 (8 * n).

Fixpoint words (l : list Z) : list Z :=
  match l with
  | a :: b :: c :: d :: l =>
      Z.lor (Z.lor (Z.shiftl a 24) (Z.shiftl b 16)) (Z.lor (Z.shiftl c 8) d) :: words l
  | _ => []
  end.

(** The message schedule, kept most recent word first. *)
Fixpoint extend (n : nat) (w : list Z) : list Z :=
  match n with
  | O => w
  | S n =>
      let at_ i := default 0%Z (w !! i) in
      extend n (w32 (ssig1 (at_ 1) + at_ 6 + ssig0 (at_ 14) + at_ 15) :: w)
  end.

Definition schedule (block : list Z) : list Z := rev (extend 48 (rev block)).

Definition round (st : list Z) (kw : Z * Z) : list Z :=
  match st with
  | [a; b; c; d; e; f; g; h] =>
      let t1 := (h + bsig1 e + ch e f g + kw.1 + kw.2)%Z in
      let t2 := (bsig0 a + maj a b c)%Z in
      [w32 (t1 + t2); a; b; c; add32 d t1; e; f; g]
  | _ => st
  end.

Definition compress (st block : list Z) : list Z :=
  zip_with add32 st (foldl round st (zip round_constants (schedule block))).

Fixpoint blocks (fuel : nat) (l : list Z) (st : list Z) : list Z :=
  match fuel with
  | O => st
  | S fuel => match l with
              | [] => st
              | _ => blocks fuel (drop 16 l) (compress st (take 16 l))
              end
  end.

Fixpoint hex_bytes (l : list Z) : string :=
  match l with
  | [] => ""
  | b :: l => String (hex_char (Z.to_N (b / 16))) (String (hex_char (Z.to_N (b mod 16))) (hex_bytes l))
  end.

Definition hexdigest (s : string) : string :=
  let l := words (pad (bytes_of s)) in
  hex_bytes (mjoin (big_endian 4 <$> blocks (length l) l initial)).

Example hexdigest_empty :
  hexdigest "" = "e3b0c44298fc1c149afbf4c8996fb92427ae41e4649b934ca495991b7852b855".
Proof. vm_compute. reflexivity. Qed.

Example hexdigest_two_blocks :
  hexdigest "abcdbcdecdefdefgefghfghighijhijkijkljklmklmnlmnomnopnopq"
  = "248d6a61d20638b8e5c026930c3e6039a33ce45964ff2167f6ecedd419db06c1".
Proof. vm_compute. reflexivity. Qed.

End Sha256.

(** [hashlib.sha256(canonical(value)).hexdigest()], with the two encodings. *)
Definition document_digest (v : json) : string := Sha256.hexdigest (canonical v).
Definition utf8_digest (v : json) : string := Sha256.hexdigest (canonical_utf8 v).

#[global] Arguments canonical : simpl never.
#[global] Arguments canonical_utf8 : simpl never.
#[global] Arguments document_digest : simpl never.
#[global] Arguments utf8_digest : simpl never.
#[global] Arguments Sha256.hexdigest : simpl never.
