(* ===== verification/Documents.v ===== *)
(** * Documents

    Facts about JSON documents: lookups, and what sorting the items of the objects
    of a document ([json.loads(json.dumps(value, sort_keys=True))]) keeps. A
    Python dict has distinct keys, which [dict_keys] says of a document. *)

From S2P Require Import Prelude Identifiers Canonical.

(** ** Lookups *)

Lemma lookup_key_Some {A} (l : list (string * A)) key v :
  NoDup l.*1 → lookup_key l key = Some v ↔ (key, v) ∈ l.
Proof.
  unfold lookup_key. induction l as [|[k x] l IH]; cbn; intros Hnd.
  - split; [done|]. by intros ?%elem_of_nil.
  - apply NoDup_cons in Hnd as [Hk Hnd]. rewrite elem_of_cons.
    case_decide as E; cbn.
    + subst k. split; [intros [= ->]; by left|]. intros [[= ->]|Hin]; [done|].
      destruct Hk. apply list_elem_of_fmap. by exists (key, v).
    + rewrite (IH Hnd). naive_solver.
Qed.

Lemma lookup_key_None {A} (l : list (string * A)) key :
  lookup_key l key = None ↔ key ∉ l.*1.
Proof.
  unfold lookup_key. induction l as [|[k x] l IH]; cbn.
  - split; [|done]. intros _. by intros ?%elem_of_nil.
  - rewrite elem_of_cons. case_decide; cbn; [naive_solver|].
    rewrite IH. naive_solver.
Qed.

Lemma same_keys_spec {A} (l : list (string * A)) fields :
  same_keys l fields = true ↔ ∀ key, key ∈ l.*1 ↔ key ∈ fields.
Proof.
  unfold same_keys. rewrite andb_true_iff, !forallb_forall.
  setoid_rewrite <- list_elem_of_In. setoid_rewrite among_true. split.
  - intros [H1 H2] key. split; [|apply H2]. intros (p & -> & Hp)%list_elem_of_fmap. by apply H1.
  - intros H. split; [intros p Hp|intros key; apply H]. apply H. by apply list_elem_of_fmap_2.
Qed.

(** ** Sorted documents *)

(** The keys of every object are distinct. *)
Fixpoint dict_keys (v : json) : bool :=
  match v with
  | JArr items => forallb dict_keys items
  | JObj items => distinct items.*1 && forallb (λ p, dict_keys p.2) items
  | _ => true
  end.

Lemma key_sort_perm {A} (l : list (string * A)) : merge_sort key_le l ≡ₚ l.
Proof. apply merge_sort_Permutation. Qed.

#[export] Instance key_le_total {A} : Total (@key_le A).
Proof. intros p q. unfold key_le. apply (total String.le). Qed.
#[export] Instance key_le_trans {A} : Transitive (@key_le A).
Proof. intros p q r. unfold key_le. apply transitivity. Qed.

(** Distinct keys: the sorted items depend on the items only. *)
Lemma key_sort_unique {A} (l k : list (string * A)) :
  NoDup l.*1 → l ≡ₚ k → merge_sort key_le l = merge_sort key_le k.
Proof.
  intros Hnd Hp. apply (Sorted_unique_strong key_le);
    [|by apply Sorted_merge_sort, _..|by rewrite !key_sort_perm].
  intros [a x] [b y]. rewrite !key_sort_perm, <- Hp. intros Hx Hy H1 H2.
  assert (a = b) as -> by by apply (anti_symm String.le).
  f_equal. apply lookup_key_Some in Hx, Hy; [congruence|done..].
Qed.

Definition on_values {A B} (f : A → B) (p : string * A) : string * B := (p.1, f p.2).

Lemma on_values_keys {A B} (f : A → B) l : (map (on_values f) l).*1 = l.*1.
Proof. induction l as [|p l IH]; cbn; [done|]. by f_equal. Qed.

(** A function of the values commutes with the sort. *)
Lemma key_sort_map {A B} (f : A → B) l :
  NoDup l.*1 → map (on_values f) (merge_sort key_le l) = merge_sort key_le (map (on_values f) l).
Proof.
  intros Hnd. apply (Sorted_unique_strong key_le).
  - intros [a x] [b y] Hx Hy H1 H2.
    assert (a = b) as -> by by apply (anti_symm String.le). f_equal.
    assert (NoDup (map (on_values f) l).*1) as Hnd' by by rewrite on_values_keys.
    assert (map (on_values f) (merge_sort key_le l) ≡ₚ map (on_values f) l) as Hp
      by by rewrite key_sort_perm.
    rewrite Hp in Hx. rewrite key_sort_perm in Hy. apply lookup_key_Some in Hx, Hy; [congruence|done..].
  - assert (Sorted key_le (merge_sort key_le l)) as Hs by apply Sorted_merge_sort, _. revert Hs.
    generalize (merge_sort key_le l) as k. induction 1 as [|p k Hk IH Hp]; cbn; constructor; [done|].
    destruct Hp; cbn; by constructor.
  - apply Sorted_merge_sort, _.
  - by rewrite !key_sort_perm.
Qed.

Lemma sort_json_object items :
  sort_json (JObj items) = JObj (merge_sort key_le (map (on_values sort_json) items)).
Proof. cbn. do 2 f_equal. by apply map_ext; intros []. Qed.

Lemma py_norm_object items :
  py_norm (JObj items) = JObj (merge_sort key_le (map (on_values py_norm) items)).
Proof. cbn. do 2 f_equal. by apply map_ext; intros []. Qed.

Lemma dict_keys_object items :
  dict_keys (JObj items) = true ↔ NoDup items.*1 ∧ Forall (λ p, dict_keys p.2 = true) items.
Proof. cbn. rewrite andb_true_iff, distinct_true, forallb_forall, Forall_forall. by setoid_rewrite list_elem_of_In. Qed.

Lemma dict_keys_array items : dict_keys (JArr items) = true ↔ Forall (λ v, dict_keys v = true) items.
Proof. cbn. rewrite forallb_forall, Forall_forall. by setoid_rewrite list_elem_of_In. Qed.

Lemma sorted_keys items : NoDup items.*1 →
  NoDup (merge_sort key_le (map (on_values sort_json) items)).*1.
Proof. intros Hnd. by rewrite key_sort_perm, on_values_keys. Qed.

(** Sorting twice is sorting once. *)
Lemma sort_json_idemp v : dict_keys v = true → sort_json (sort_json v) = sort_json v.
Proof.
  induction v as [| | | |l IH|l IH] using json_nested_ind; try done.
  - rewrite dict_keys_array. intros Hl. cbn. f_equal. rewrite map_map. apply map_ext_in. intros v Hv.
    apply list_elem_of_In in Hv. rewrite Forall_forall in IH, Hl. auto.
  - rewrite dict_keys_object. intros [Hnd Hl]. rewrite !sort_json_object. f_equal.
    rewrite key_sort_map by by rewrite on_values_keys. rewrite map_map.
    assert (map (λ p, on_values sort_json (on_values sort_json p)) l = map (on_values sort_json) l) as ->.
    { apply map_ext_in. intros [k v] Hv. apply list_elem_of_In in Hv. unfold on_values. cbn. f_equal.
      rewrite Forall_forall in IH, Hl. apply (IH _ Hv), (Hl _ Hv). }
    apply key_sort_unique; [by apply sorted_keys|by rewrite key_sort_perm].
Qed.

(** A value and its sorted copy are equal in Python. *)
Lemma py_norm_sort v : dict_keys v = true → py_norm (sort_json v) = py_norm v.
Proof.
  induction v as [| | | |l IH|l IH] using json_nested_ind; try done.
  - rewrite dict_keys_array. intros Hl. cbn. f_equal. rewrite map_map. apply map_ext_in. intros v Hv.
    apply list_elem_of_In in Hv. rewrite Forall_forall in IH, Hl. auto.
  - rewrite dict_keys_object. intros [Hnd Hl]. rewrite sort_json_object, !py_norm_object. f_equal.
    rewrite key_sort_map by by rewrite on_values_keys. rewrite map_map.
    assert (map (λ p, on_values py_norm (on_values sort_json p)) l = map (on_values py_norm) l) as ->.
    { apply map_ext_in. intros [k v] Hv. apply list_elem_of_In in Hv. unfold on_values. cbn. f_equal.
      rewrite Forall_forall in IH, Hl. apply (IH _ Hv), (Hl _ Hv). }
    apply key_sort_unique; [|by rewrite key_sort_perm]. by rewrite key_sort_perm, on_values_keys.
Qed.

Lemma py_eqb_eq v w : py_eqb v w = true ↔ py_norm v = py_norm w.
Proof. unfold py_eqb. by rewrite json_eqb_true. Qed.

(** [==] is an equivalence: what equals [w] compares as [w] does. *)
Lemma py_eqb_subst v w x : py_eqb v w = true → py_eqb v x = py_eqb w x.
Proof. intros H%py_eqb_eq. unfold py_eqb. by rewrite H. Qed.

Lemma py_eqb_str v s : py_eqb v (JStr s) = true → v = JStr s.
Proof. intros H%py_eqb_eq. by destruct v. Qed.

Lemma py_eqb_sort v w : dict_keys v = true → py_eqb (sort_json v) w = py_eqb v w.
Proof. intros Hv. unfold py_eqb. by rewrite py_norm_sort. Qed.

Lemma lookup_key_sort items key :
  NoDup items.*1 →
  lookup_key (merge_sort key_le (map (on_values sort_json) items)) key = sort_json <$> lookup_key items key.
Proof.
  intros Hnd. destruct (lookup_key items key) as [v|] eqn:E; cbn.
  - apply lookup_key_Some in E; [|done]. apply lookup_key_Some; [by apply sorted_keys|].
    rewrite key_sort_perm. apply list_elem_of_fmap. by exists (key, v).
  - apply lookup_key_None in E. apply lookup_key_None. by rewrite key_sort_perm, on_values_keys.
Qed.

(** ** Digests

    [hexdigest] answers 64 lowercase hexadecimal digits. *)

Section digests.
Import Sha256.

Lemma round_length st kw : length (round st kw) = length st.
Proof. unfold round. by repeat case_match. Qed.

Lemma compress_length st block : length (compress st block) = length st.
Proof.
  unfold compress. rewrite length_zip_with. enough (length (foldl round st (zip round_constants (schedule block))) = length st) as -> by lia.
  generalize (zip round_constants (schedule block)). intros l. revert st. induction l as [|kw l IH]; intros st; cbn; [done|].
  by rewrite IH, round_length.
Qed.

Lemma blocks_length fuel l st : length (blocks fuel l st) = length st.
Proof. revert l st. induction fuel as [|fuel IH]; intros l st; cbn; [done|]. destruct l; [done|]. by rewrite IH, compress_length. Qed.

Lemma big_endian_bytes n x : Forall (λ b, 0 <= b < 256)%Z (big_endian n x).
Proof.
  induction n; cbn; constructor; [|done]. change 255%Z with (Z.ones 8). rewrite Z.land_ones by lia. apply Z.mod_pos_bound. lia.
Qed.

Lemma big_endian_length n x : length (big_endian n x) = n.
Proof. induction n; cbn; congruence. Qed.

Lemma hex_char_hex n : (n < 16)%N → is_hex (hex_char n) = true.
Proof.
  intros Hn. assert (Forall (λ k, is_hex (hex_char (N.of_nat k)) = true) (seq 0 16)) as Hall by (repeat constructor).
  rewrite Forall_forall in Hall. rewrite <- (N2Nat.id n). apply Hall, elem_of_seq. lia.
Qed.

Lemma hex_bytes_hex l : Forall (λ b, 0 <= b < 256)%Z l → is_hex_of (2 * length l) (hex_bytes l) = true.
Proof.
  unfold is_hex_of. induction 1 as [|b l Hb _ IH]; [done|]. apply andb_true_iff in IH as [IH1%Nat.eqb_eq IH2].
  cbn [hex_bytes String.length length all_chars].
  rewrite !hex_char_hex; [|apply N2Z.inj_lt; rewrite Z2N.id..]. 
  - apply andb_true_iff. split; [|done]. apply Nat.eqb_eq. lia.
  - cbn. apply Z.mod_pos_bound. lia.
  - apply Z.mod_pos_bound. lia.
  - cbn. apply Z.div_lt_upper_bound; lia.
  - apply Z.div_pos; lia.
Qed.

Lemma hexdigest_is_digest s : is_digest (hexdigest s) = true.
Proof.
  unfold hexdigest, is_digest. set (l := words _). assert (Forall (λ b, 0 <= b < 256)%Z (mjoin (big_endian 4 <$> blocks (length l) l initial))) as Hb.
  { apply Forall_join, Forall_fmap, Forall_true. intros x. apply big_endian_bytes. }
  apply hex_bytes_hex in Hb. assert (length (mjoin (big_endian 4 <$> blocks (length l) l initial)) = 32) as E; [|by rewrite E in Hb].
  assert (∀ ws, length (mjoin (big_endian 4 <$> ws)) = 4 * length ws) as ->.
  { induction ws as [|w ws IH]; [done|]. change (length (big_endian 4 w ++ mjoin (big_endian 4 <$> ws)) = 4 * S (length ws)).
    rewrite length_app, big_endian_length, IH. lia. }
  by rewrite blocks_length.
Qed.
End digests.
