(* ===== verification/JsonText.v ===== *)
(** * Reading JSON

    [json.loads] of a text in UTF-8, the inverse of [json.dumps]. Code points are
    below 256 and numbers are integers, as in [Canonical]; a text outside this
    range is refused. *)

From stdpp Require Import pretty.
From S2P Require Import Prelude Canonical Documents.

Definition code_of (c : Ascii.ascii) : N := Ascii.N_of_ascii c.
Definition json_error {A} : result A := raise EValue "JSON text is invalid".
Definition out_of_fuel {A} : result A := raise EInterrupted "out of fuel".

(** Space, tab, line feed and carriage return. *)
Definition is_space (c : Ascii.ascii) : bool := among (code_of c) [32; 9; 10; 13]%N.

Fixpoint skip (s : string) : string :=
  match s with
  | String c rest => if is_space c then skip rest else s
  | EmptyString => s
  end.

(** ** Strings *)

Definition hex_digit (c : Ascii.ascii) : option N :=
  let n := code_of c in
  if (48 <=? n)%N && (n <=? 57)%N then Some (n - 48)%N
  else if (97 <=? n)%N && (n <=? 102)%N then Some (n - 87)%N
  else if (65 <=? n)%N && (n <=? 70)%N then Some (n - 55)%N
  else None.

(** The character a two-character escape stands for. *)
Definition unescape (c : Ascii.ascii) : option Ascii.ascii :=
  match code_of c with
  | 34 => Some c | 92 => Some c | 47 => Some c
  | 98 => Some (Ascii.ascii_of_N 8) | 102 => Some (Ascii.ascii_of_N 12)
  | 110 => Some (Ascii.ascii_of_N 10) | 114 => Some (Ascii.ascii_of_N 13)
  | 116 => Some (Ascii.ascii_of_N 9)
  | _ => None
  end%N.

(** The body of a string up to its closing quote, and what follows. *)
Fixpoint string_body (s : string) : option (string * string) :=
  match s with
  | EmptyString => None
  | String c rest =>
      let cons x (tail : option (string * string)) :=
        '(text, rest) ← tail; mret (String x text, rest) in
      let n := code_of c in
      if (n =? 34)%N then mret (EmptyString, rest)
      else if (n =? 92)%N then
        match rest with
        | String e after =>
            if (code_of e =? 117)%N then
              match after with
              | String a (String b (String x (String y after))) =>
                  match hex_digit a, hex_digit b, hex_digit x, hex_digit y with
                  | Some 0%N, Some 0%N, Some x, Some y =>
                      cons (Ascii.ascii_of_N (16 * x + y)) (string_body after)
                  | _, _, _, _ => None
                  end
              | _ => None
              end
            else match unescape e with
                 | Some x => cons x (string_body after)
                 | None => None
                 end
        | EmptyString => None
        end
      else if (n <? 32)%N then None
      else if (n <? 128)%N then cons c (string_body rest)
      else if (n =? 194)%N || (n =? 195)%N then
        match rest with
        | String d after =>
            let m := code_of d in
            if (128 <=? m)%N && (m <? 192)%N
            then cons (Ascii.ascii_of_N (64 * (n - 192) + (m - 128))) (string_body after) else None
        | EmptyString => None
        end
      else None
  end.

(** ** Numbers *)

Definition digit_value (c : Ascii.ascii) : option Z :=
  let n := code_of c in
  if (48 <=? n)%N && (n <=? 57)%N then Some (Z.of_N n - 48)%Z else None.

Fixpoint digits (acc : Z) (s : string) : Z * string :=
  match s with
  | String c rest =>
      match digit_value c with
      | Some d => digits (10 * acc + d)%Z rest
      | None => (acc, s)
      end
  | EmptyString => (acc, s)
  end.

(** No leading zeros. *)
Definition natural (s : string) : option (Z * string) :=
  match s with
  | String c rest =>
      match digit_value c with
      | Some 0%Z => Some (0%Z, rest)
      | Some d => Some (digits d rest)
      | None => None
      end
  | EmptyString => None
  end.

(** A fraction or an exponent would make it a float. *)
Definition is_float_tail (s : string) : bool :=
  match s with
  | String c _ => among (code_of c) [46; 69; 101]%N
  | EmptyString => false
  end.

#[global] Arguments is_float_tail : simpl never.

Definition number (s : string) : option (Z * string) :=
  '(z, rest) ← match s with
               | String c rest =>
                   if (code_of c =? 45)%N then '(z, rest) ← natural rest; mret (- z, rest)%Z
                   else natural s
               | EmptyString => None
               end;
  if is_float_tail rest then None else mret (z, rest).

(** ** Values *)

(** An assignment to a dictionary. *)
Definition put_item (items : list (string * json)) (key : string) (v : json) : list (string * json) :=
  if among key items.*1 then map (λ p : string * json, if eqb p.1 key then (key, v) else p) items
  else items ++ [(key, v)].

Fixpoint strip_prefix (prefix s : string) : option string :=
  match prefix, s with
  | EmptyString, _ => Some s
  | String a prefix, String b s => if eqb a b then strip_prefix prefix s else None
  | String _ _, EmptyString => None
  end.

Definition keyword (s : string) : option (json * string) :=
  match strip_prefix "null" s, strip_prefix "true" s, strip_prefix "false" s with
  | Some rest, _, _ => Some (JNull, rest)
  | _, Some rest, _ => Some (JBool true, rest)
  | _, _, Some rest => Some (JBool false, rest)
  | None, None, None => None
  end.

Definition or_error {A} (o : option A) : result A :=
  match o with Some a => mret a | None => json_error end.

(** [object_pairs_hook]: the dictionary of the pairs of an object that is not empty. *)
Class PairsHook := object_of_pairs : list (string * json) → result (list (string * json)).

(** [dict], the default: the last of two equal keys counts. *)
Definition dict_of_pairs (pairs : list (string * json)) : list (string * json) :=
  foldl (λ items p, put_item items p.1 p.2) [] pairs.
Definition dict_hook : PairsHook := λ pairs, mret (dict_of_pairs pairs).

Section reader.
Context {hook : PairsHook}.

Fixpoint value (fuel : nat) (s : string) : result (json * string) :=
  match fuel with
  | O => out_of_fuel
  | S fuel =>
      let s := skip s in
      match s with
      | EmptyString => json_error
      | String c rest =>
          let n := code_of c in
          if (n =? 34)%N then '(text, rest) ← or_error (string_body rest); mret (JStr text, rest)
          else if (n =? 91)%N then
            match skip rest with
            | String d after =>
                if (code_of d =? 93)%N then mret (JArr [], after) else elements fuel [] rest
            | EmptyString => json_error
            end
          else if (n =? 123)%N then
            match skip rest with
            | String d after =>
                if (code_of d =? 125)%N then mret (JObj [], after) else members fuel [] rest
            | EmptyString => json_error
            end
          else match keyword s with
               | Some r => mret r
               | None => '(z, rest) ← or_error (number s); mret (JInt z, rest)
               end
      end
  end
with elements (fuel : nat) (items : list json) (s : string) : result (json * string) :=
  match fuel with
  | O => out_of_fuel
  | S fuel =>
      '(v, rest) ← value fuel s;
      match skip rest with
      | String c rest =>
          if (code_of c =? 44)%N then elements fuel (items ++ [v]) rest
          else if (code_of c =? 93)%N then mret (JArr (items ++ [v]), rest)
          else json_error
      | EmptyString => json_error
      end
  end
with members (fuel : nat) (items : list (string * json)) (s : string) : result (json * string) :=
  match fuel with
  | O => out_of_fuel
  | S fuel =>
      match skip s with
      | String c rest =>
          if negb (code_of c =? 34)%N then json_error else
          '(key, rest) ← or_error (string_body rest);
          match skip rest with
          | String c rest =>
              if negb (code_of c =? 58)%N then json_error else
              '(v, rest) ← value fuel rest;
              match skip rest with
              | String c rest =>
                  if (code_of c =? 44)%N then members fuel (items ++ [(key, v)]) rest
                  else if (code_of c =? 125)%N then
                    object ← object_of_pairs (items ++ [(key, v)]); mret (JObj object, rest)
                  else json_error
              | EmptyString => json_error
              end
          | EmptyString => json_error
          end
      | EmptyString => json_error
      end
  end.

(** Two units of fuel per character: an element list calls [value] where it is. *)
Definition json_fuel (s : string) : nat := S (2 * String.length s).

Definition loads_with (s : string) : result json :=
  '(v, rest) ← value (json_fuel s) s;
  if eqb (skip rest) "" then mret v else json_error.
End reader.

Definition loads (s : string) : result json := loads_with (hook:=dict_hook) s.

Example loads_nested :
  loads (canonical_utf8 (JObj [("b", JArr [JInt (-12); JNull; JStr (String (Ascii.ascii_of_N 233) "x")]); ("a", JBool true)]))
  = Ok (JObj [("a", JBool true); ("b", JArr [JInt (-12); JNull; JStr (String (Ascii.ascii_of_N 233) "x")])]).
Proof. vm_compute. reflexivity. Qed.

(** ** Printing and reading strings and numbers *)

#[export] Instance string_app_assoc : Assoc (=) String.append.
Proof. intros s t u. induction s as [|c s IH]; [done|]. change (String c (s +:+ t +:+ u) = String c ((s +:+ t) +:+ u)). by rewrite IH. Qed.

#[export] Instance string_app_nil : RightId (=) "" String.append.
Proof. intros s. induction s as [|c s IH]; [done|]. change (String c (s +:+ "") = String c s). by rewrite IH. Qed.

Lemma string_body_char c s :
  string_body (utf8_char c +:+ s) = ('(text, rest) ← string_body s; mret (String c text, rest)).
Proof. destruct c as [[] [] [] [] [] [] [] []]; reflexivity. Qed.

Lemma string_body_escape s rest : string_body (escape utf8_char s +:+ quote +:+ rest) = Some (s, rest).
Proof.
  induction s as [|c s IH]; [done|]. cbn [escape]. rewrite <- (assoc_L String.append), string_body_char, IH. done.
Qed.

Lemma digit_char n : (n < 10)%N → digit_value (pretty_N_char n) = Some (Z.of_N n).
Proof.
  intros H. assert (n ∈ [0; 1; 2; 3; 4; 5; 6; 7; 8; 9]%N) as Hn by (rewrite !elem_of_cons; lia).
  repeat (apply elem_of_cons in Hn as [->|Hn]; [done|]). by apply elem_of_nil in Hn.
Qed.

Lemma pretty_go_natural n s : (0 < n)%N → natural (pretty_N_go n s) = Some (digits (Z.of_N n) s).
Proof.
  revert s. induction (N.lt_wf_0 n) as [n _ IH]. intros s Hn. rewrite pretty_N_go_step by done.
  assert (n mod 10 < 10)%N as Hm by by apply N.mod_lt.
  assert (n = 10 * (n / 10) + n mod 10)%N as Hd by by apply N.div_mod.
  destruct (decide (n / 10 = 0)%N) as [Hz|Hz].
  - rewrite Hz, pretty_N_go_0. cbn. rewrite digit_char by done.
    destruct (Z.of_N (n mod 10)) eqn:E; [lia| |lia]. do 2 f_equal. lia.
  - rewrite IH by (try apply N.div_lt; lia). cbn. rewrite digit_char by done. do 2 f_equal. lia.
Qed.

Lemma pretty_go_app n s t : pretty_N_go n s +:+ t = pretty_N_go n (s +:+ t).
Proof.
  revert s. induction (N.lt_wf_0 n) as [n _ IH]. intros s.
  destruct (decide (n = 0)%N) as [->|Hn]; [done|].
  rewrite !(pretty_N_go_step n) by lia. rewrite IH by (apply N.div_lt; lia). done.
Qed.

(** What may follow a number. *)
Definition ends (s : string) : Prop :=
  match s with
  | String c _ => digit_value c = None ∧ among (code_of c) [46; 69; 101]%N = false
  | EmptyString => True
  end.

Lemma digits_ends acc s : ends s → digits acc s = (acc, s) ∧ is_float_tail s = false.
Proof. unfold is_float_tail. destruct s as [|c s]; cbn; [done|]. by intros [-> ->]. Qed.

Lemma natural_pretty n s : ends s → natural (pretty n +:+ s) = Some (Z.of_N n, s).
Proof.
  intros Hs. unfold pretty, pretty_N. case_decide as Hn; [by subst|].
  rewrite pretty_go_app, pretty_go_natural by lia. f_equal. by apply digits_ends.
Qed.

Lemma natural_first s r : natural s = Some r → ∃ c t, s = String c t ∧ ∃ d, digit_value c = Some d.
Proof. destruct s as [|c t]; cbn; [done|]. intros H. exists c, t. split; [done|]. by destruct (digit_value c); eauto. Qed.

Lemma digit_code c d : digit_value c = Some d → (48 <= code_of c <= 57)%N.
Proof. unfold digit_value. destruct (_ && _) eqn:H; [|done]. rewrite andb_true_iff, !N.leb_le in H. lia. Qed.

Lemma number_natural n s : ends s → number (pretty n +:+ s) = Some (Z.of_N n, s).
Proof.
  intros Hs. destruct (digits_ends 0 s Hs) as [_ Hf]. unfold number. pose proof (natural_pretty n s Hs) as H.
  destruct (natural_first _ _ H) as (c & t & E & d & Hc%digit_code). rewrite H, E.
  destruct (N.eqb_spec (code_of c) 45); [lia|]. cbn. by rewrite Hf.
Qed.

Lemma number_pretty z s : ends s → number (pretty z +:+ s) = Some (z, s).
Proof.
  intros Hs. destruct z as [|p|p]; [apply (number_natural 0 s Hs)|apply (number_natural (N.pos p) s Hs)|].
  change (pretty (Z.neg p) +:+ s) with (String "-"%char (pretty (N.pos p) +:+ s)). unfold number.
  change (code_of "-" =? 45)%N with true. cbn iota.
  rewrite (natural_pretty (N.pos p) s Hs). cbn. by rewrite (proj2 (digits_ends 0 s Hs)).
Qed.

(** ** Fuel *)

Definition finished {A} (r : result A) : Prop := r ≠ out_of_fuel.

Lemma finished_bind {A B} (m : result A) (f : A → result B) :
  finished (m ≫= f) → finished m.
Proof. intros H E. apply H. by rewrite E. Qed.

(** What a hook promises: it returns, keeps pairs with distinct keys, and makes a
    dictionary. *)
Class HookLaws (hook : PairsHook) : Prop := {
  hook_finished pairs : finished (object_of_pairs pairs);
  hook_distinct pairs : NoDup pairs.*1 → object_of_pairs pairs = Ok pairs;
  hook_dict pairs items : object_of_pairs pairs = Ok items → Forall (λ p, dict_keys p.2 = true) pairs →
    dict_keys (JObj items) = true
}.

Section reading.
Context {hook : PairsHook} `{!HookLaws hook}.

(** A reader that does not run out of fuel reads the same with more. *)
Lemma more_fuel fuel :
  (∀ s k, (fuel <= k)%nat → finished (value fuel s) → value k s = value fuel s)
  ∧ (∀ l s k, (fuel <= k)%nat → finished (elements fuel l s) → elements k l s = elements fuel l s)
  ∧ (∀ l s k, (fuel <= k)%nat → finished (members fuel l s) → members k l s = members fuel l s).
Proof.
  induction fuel as [|fuel (IHv & IHe & IHm)]; [by split_and!; intros * ? []|].
  split_and!; [intros s|intros l s|intros l s]; (intros [|k] Hk; [lia|]); apply le_S_n in Hk; cbn [value elements members].
  - destruct (skip s) as [|c rest]; [done|]. destruct (code_of c =? 34)%N; [done|].
    destruct (code_of c =? 91)%N; [|destruct (code_of c =? 123)%N; [|done]];
      (destruct (skip rest) as [|d after]; [done|]); (destruct (code_of d =? _)%N; [done|]); auto.
  - intros Hf. rewrite (IHv s k Hk (finished_bind _ _ Hf)). destruct (value fuel s) as [[v rest]|e]; [|done].
    cbn in *. destruct (skip rest) as [|c after]; [done|]. destruct (code_of c =? 44)%N; auto.
  - destruct (skip s) as [|c rest]; [done|]. destruct (negb _); [done|].
    destruct (or_error _) as [[key after]|e]; [|done]. cbn. destruct (skip after) as [|d rest']; [done|].
    destruct (negb _); [done|]. intros Hf. rewrite (IHv rest' k Hk (finished_bind _ _ Hf)).
    destruct (value fuel rest') as [[v tail]|e]; [|done]. cbn in *. destruct (skip tail) as [|x tail']; [done|].
    destruct (code_of x =? 44)%N; auto.
Qed.

Lemma skip_length s : (String.length (skip s) <= String.length s)%nat.
Proof. induction s as [|c s IH]; cbn; [done|]. destruct (is_space c); cbn; lia. Qed.

Lemma string_body_length s text rest :
  string_body s = Some (text, rest) → (String.length rest < String.length s)%nat.
Proof.
  revert text rest. induction s as [s IH] using (induction_ltof1 _ String.length). unfold ltof in IH.
  intros text rest. destruct s as [|c s]; [done|]. cbn [string_body].
  assert (∀ x t, (String.length t <= String.length s)%nat →
    ('(text, rest) ← string_body t; mret (String x text, rest)) = Some (text, rest) →
    (String.length rest < String.length (String c s))%nat) as Hcons.
  { intros x t Ht H. destruct (string_body t) as [[u v]|] eqn:E; [|done]. injection H as _ <-.
    apply IH in E; cbn in *; lia. }
  destruct (code_of c =? 34)%N; [intros [= _ <-]; cbn; lia|]. destruct (code_of c =? 92)%N.
  - destruct s as [|e s]; [done|]. destruct (code_of e =? 117)%N.
    + destruct s as [|a [|b [|x [|y s]]]]; try done.
      destruct (hex_digit a) as [[]|], (hex_digit b) as [[]|], (hex_digit x), (hex_digit y); try done.
      apply Hcons. cbn. lia.
    + destruct (unescape e); [|done]. apply Hcons. cbn. lia.
  - destruct (code_of c <? 32)%N; [done|]. destruct (code_of c <? 128)%N; [by apply Hcons|].
    destruct (_ || _); [|done]. destruct s as [|d s]; [done|]. destruct (_ && _); [|done]. apply Hcons. cbn. lia.
Qed.

Lemma strip_length a prefix s rest :
  strip_prefix (String a prefix) s = Some rest → (String.length rest < String.length s)%nat.
Proof.
  revert a s. induction prefix as [|b prefix IH]; intros a [|c s]; cbn [strip_prefix]; try done.
  - destruct (eqb a c); [|done]. intros [= <-]. cbn. lia.
  - destruct (eqb a c); [|done]. intros H%IH. cbn. lia.
Qed.

Lemma keyword_length s v rest : keyword s = Some (v, rest) → (String.length rest < String.length s)%nat.
Proof.
  unfold keyword. destruct (strip_prefix "null" s) eqn:E1; [by intros [= _ <-]; eapply strip_length|].
  destruct (strip_prefix "true" s) eqn:E2; [by intros [= _ <-]; eapply strip_length|].
  destruct (strip_prefix "false" s) eqn:E3; [by intros [= _ <-]; eapply strip_length|done].
Qed.

Lemma digits_length acc s : (String.length (digits acc s).2 <= String.length s)%nat.
Proof.
  revert acc. induction s as [|c s IH]; intros acc; cbn; [done|]. destruct (digit_value c); cbn; [|done].
  etrans; [apply IH|lia].
Qed.

Lemma natural_length s z rest : natural s = Some (z, rest) → (String.length rest < String.length s)%nat.
Proof.
  destruct s as [|c s]; cbn; [done|]. destruct (digit_value c) as [d|]; [|done].
  pose proof (digits_length d s). destruct d; [intros [= _ <-]; lia|intros [= E]..]; rewrite E in *; cbn in *; lia.
Qed.

Lemma number_length s z rest : number s = Some (z, rest) → (String.length rest < String.length s)%nat.
Proof.
  unfold number. destruct s as [|c s]; [done|]. destruct (code_of c =? 45)%N.
  - destruct (natural s) as [[n t]|] eqn:E; [|done]. cbn. case_match; [done|]. intros [= _ <-].
    apply natural_length in E. cbn. lia.
  - destruct (natural (String c s)) as [[n t]|] eqn:E; [|done]. cbn -[String.length]. case_match; [done|].
    intros [= _ <-]. by apply natural_length in E.
Qed.

(** A run with enough fuel finishes, and what it returns is shorter. *)
Definition consumes (s : string) (r : result (json * string)) : Prop :=
  finished r ∧ ∀ v rest, r = Ok (v, rest) → (String.length rest < String.length s)%nat.

Lemma consumes_error s : consumes s json_error.
Proof. by split. Qed.
Lemma consumes_ret s v rest : (String.length rest < String.length s)%nat → consumes s (mret (v, rest)).
Proof. intros H. split; [done|]. by intros ? ? [= _ <-]. Qed.
Lemma consumes_more s t r : consumes t r → (String.length t <= String.length s)%nat → consumes s r.
Proof. intros [Hf Hl] H. split; [done|]. intros v rest E. apply Hl in E. lia. Qed.
Lemma consumes_bind s r f : consumes s r →
  (∀ v rest, (String.length rest < String.length s)%nat → consumes s (f (v, rest))) → consumes s (r ≫= f).
Proof.
  intros [Hf Hl] H. destruct r as [[v rest]|e]; [by apply H, (Hl v)|]. split; [|done]. intros E. by apply Hf.
Qed.
#[local] Hint Resolve consumes_error consumes_ret : core.

Lemma enough_fuel fuel :
  (∀ s, (2 * String.length s < fuel)%nat → consumes s (value fuel s))
  ∧ (∀ l s, (2 * String.length s + 1 < fuel)%nat → consumes s (elements fuel l s))
  ∧ (∀ l s, (2 * String.length s + 1 < fuel)%nat → consumes s (members fuel l s)).
Proof.
  induction fuel as [|fuel (IHv & IHe & IHm)]; [split_and!; intros; lia|].
  split_and!; [intros s Hs|intros l s Hs|intros l s Hs]; cbn [value elements members]; pose proof (skip_length s) as Hskip.
  - destruct (skip s) as [|c rest] eqn:E; [done|]. cbn in Hskip. destruct (code_of c =? 34)%N.
    { destruct (string_body rest) as [[text r]|] eqn:Eb; [|apply consumes_error]. apply string_body_length in Eb.
      apply consumes_ret. lia. }
    pose proof (skip_length rest) as Hr. destruct (code_of c =? 91)%N; [|destruct (code_of c =? 123)%N].
    1,2: destruct (skip rest) as [|d after]; [done|]; cbn in Hr; destruct (code_of d =? _)%N;
      [apply consumes_ret; lia|eapply consumes_more; [first [apply IHe|apply IHm]; lia|lia]].
    destruct (keyword (String c rest)) as [[v r]|] eqn:Ek.
    { apply keyword_length in Ek. apply consumes_ret. cbn in Ek. lia. }
    destruct (number (String c rest)) as [[z r]|] eqn:En; [|apply consumes_error]. apply number_length in En.
    apply consumes_ret. cbn in En. lia.
  - apply consumes_bind; [apply IHv; lia|]. intros v rest Hr. pose proof (skip_length rest) as Hk.
    destruct (skip rest) as [|c after]; [done|]. cbn in Hk. destruct (code_of c =? 44)%N.
    + eapply consumes_more; [apply IHe; lia|lia].
    + destruct (code_of c =? 93)%N; [apply consumes_ret; lia|done].
  - destruct (skip s) as [|c rest]; [done|]. cbn in Hskip. destruct (negb _); [done|].
    destruct (string_body rest) as [[key after]|] eqn:Eb; [|apply consumes_error]. apply string_body_length in Eb. cbn -[value members code_of].
    pose proof (skip_length after) as Ha. destruct (skip after) as [|d rest']; [done|]. cbn in Ha.
    destruct (negb _); [done|]. eapply (consumes_more s rest'); [|lia].
    apply consumes_bind; [apply IHv; lia|]. intros v tail Ht. pose proof (skip_length tail) as Hk.
    destruct (skip tail) as [|x tail']; [done|]. cbn in Hk. destruct (code_of x =? 44)%N.
    + eapply consumes_more; [apply IHm; lia|lia].
    + destruct (code_of x =? 125)%N; [|done]. pose proof (hook_finished (l ++ [(key, v)])) as Hh.
      destruct (object_of_pairs _) as [object|e]; [apply consumes_ret; lia|]. split; [|done]. intros E. apply Hh. by injection E as ->.
Qed.

(** ** Reading what was printed *)

Definition reads_back (v : json) : Prop :=
  ∀ rest, ends rest → ∃ fuel, value fuel (canonical_utf8 v +:+ rest) = Ok (sort_json v, rest).

Lemma read_more {A} (f : nat → result A) (fuel k : nat) a :
  (∀ k, (fuel <= k)%nat → finished (f fuel) → f k = f fuel) → f fuel = Ok a → (fuel <= k)%nat → f k = Ok a.
Proof. intros Hm H Hk. rewrite (Hm k Hk); [done|]. by rewrite H. Qed.

Lemma value_more fuel k s r : value fuel s = Ok r → (fuel <= k)%nat → value k s = Ok r.
Proof. intros H. apply (read_more (λ k, value k s)); [|done]. intros. by apply more_fuel. Qed.
Lemma elements_more fuel k l s r : elements fuel l s = Ok r → (fuel <= k)%nat → elements k l s = Ok r.
Proof. intros H. apply (read_more (λ k, elements k l s)); [|done]. intros. by apply more_fuel. Qed.
Lemma members_more fuel k l s r : members fuel l s = Ok r → (fuel <= k)%nat → members k l s = Ok r.
Proof. intros H. apply (read_more (λ k, members k l s)); [|done]. intros. by apply more_fuel. Qed.

(** The first character of a printed value. *)
Definition opens (s : string) : Prop :=
  ∃ c t, s = String c t ∧ is_space c = false ∧ code_of c ≠ 93%N ∧ code_of c ≠ 125%N.

Lemma opens_app s t : opens s → opens (s +:+ t).
Proof. intros (c & u & -> & H). by exists c, (u +:+ t). Qed.

Lemma pretty_first (z : Z) : ∃ c t, pretty z = String c t ∧ (48 <= code_of c <= 57 ∨ code_of c = 45)%N.
Proof.
  assert (∀ n : N, ∃ c t, pretty n = String c t ∧ (48 <= code_of c <= 57 ∨ code_of c = 45)%N) as Hnat.
  { intros n. pose proof (natural_pretty n "" I) as H. rewrite (right_id_L "" String.append) in H.
    destruct (natural_first _ _ H) as (c & t & -> & d & Hd%digit_code). eauto. }
  destruct z as [|p|p]; [apply (Hnat 0%N)|apply (Hnat (N.pos p))|].
  exists "-"%char, (pretty (N.pos p)). split; [done|by right].
Qed.

Lemma pretty_opens (z : Z) : opens (pretty z).
Proof.
  destruct (pretty_first z) as (c & t & -> & Hc). exists c, t. split; [done|]. unfold is_space.
  rewrite <- not_true_iff_false, among_true, !elem_of_cons, elem_of_nil. lia.
Qed.

Lemma canonical_opens v : opens (canonical_utf8 v).
Proof.
  destruct v as [|[]|z|s|l|l]; [by eexists _, _|by eexists _, _|by eexists _, _|apply pretty_opens|by eexists _, _..].
Qed.

Lemma skip_opens s : opens s → skip s = s.
Proof. intros (c & t & -> & Hs & _). cbn. by rewrite Hs. Qed.

Lemma reads_back_string s : reads_back (JStr s).
Proof.
  intros rest _. exists 1. change (canonical_utf8 (JStr s)) with (json_string utf8_char s). unfold json_string.
  rewrite <- !(assoc_L String.append). change (quote +:+ ?x) with (String (Ascii.ascii_of_N 34) x).
  cbn [value]. rewrite skip_opens by by eexists _, _. change (code_of (Ascii.ascii_of_N 34) =? 34)%N with true.
  cbn iota. change (String (Ascii.ascii_of_N 34) ?x) with (quote +:+ x). by rewrite string_body_escape.
Qed.

Lemma keyword_first c t : ¬ code_of c ∈ [110; 116; 102]%N → keyword (String c t) = None.
Proof.
  intros Hc. unfold keyword.
  assert (∀ a u, code_of a ∈ [110; 116; 102]%N → strip_prefix (String a u) (String c t) = None) as Hp.
  { intros a u Ha. cbn [strip_prefix]. destruct (eqb a c) eqn:E; [|done]. apply eqb_true in E as ->. done. }
  rewrite !Hp; [done|..]; apply among_true; reflexivity.
Qed.

Lemma reads_back_number z : reads_back (JInt z).
Proof.
  intros rest Hr. exists 1. change (canonical_utf8 (JInt z)) with (pretty z).
  destruct (pretty_first z) as (c & t & E & Hc).
  assert (number (pretty z +:+ rest) = Some (z, rest)) as Hn by by apply number_pretty.
  assert (opens (pretty z +:+ rest)) as Ho by apply opens_app, pretty_opens.
  cbn [value]. rewrite (skip_opens _ Ho). rewrite E in Hn |- *. change (String c t +:+ rest) with (String c (t +:+ rest)) in *.
  rewrite keyword_first by (rewrite !elem_of_cons, elem_of_nil; lia).
  do 3 (match goal with |- context [(code_of c =? ?n)%N] => destruct (N.eqb_spec (code_of c) n); [lia|] end).
  by rewrite Hn.
Qed.

(** *** Arrays *)

Lemma value_array fuel s : opens s → value (S fuel) ("[" +:+ s) = elements fuel [] s.
Proof.
  intros Ho. change ("[" +:+ s) with (String "["%char s). cbn [value]. rewrite (skip_opens (String _ _)) by by eexists _, _.
  cbn -[value elements code_of N.eqb]. change (code_of "[" =? 34)%N with false. change (code_of "[" =? 91)%N with true. cbn iota.
  rewrite (skip_opens s Ho). destruct Ho as (c & t & -> & _ & Hc & _). by destruct (N.eqb_spec (code_of c) 93).
Qed.

Lemma ends_comma s : ends ("," +:+ s).
Proof. done. Qed.
Lemma ends_bracket s : ends ("]" +:+ s).
Proof. done. Qed.
Lemma ends_brace s : ends ("}" +:+ s).
Proof. done. Qed.

Lemma elements_comma fuel acc s v rest : value fuel s = Ok (v, "," +:+ rest) →
  elements (S fuel) acc s = elements fuel (acc ++ [v]) rest.
Proof. intros H. cbn [elements]. by rewrite H. Qed.

Lemma elements_read items acc rest : items ≠ [] → Forall reads_back items →
  ∃ fuel, elements fuel acc (join "," (map canonical_utf8 items) +:+ "]" +:+ rest)
          = Ok (JArr (acc ++ map sort_json items), rest).
Proof.
  intros Hne Hall. induction Hall as [|x [|y l] Hx Hl IH] in acc, Hne |- *; [done|..].
  - destruct (Hx ("]" +:+ rest) (ends_bracket _)) as [k Hk]. exists (S k). cbn [elements map join]. by rewrite Hk.
  - destruct (Hx ("," +:+ join "," (map canonical_utf8 (y :: l)) +:+ "]" +:+ rest) (ends_comma _)) as [k Hk].
    destruct (IH (acc ++ [sort_json x])) as [k' Hk']; [done|]. exists (S (k + k')).
    cbn [map join]. rewrite <- !(assoc_L String.append). cbn [map] in Hk, Hk'.
    rewrite (elements_comma _ _ _ _ _ (value_more _ (k + k') _ _ Hk ltac:(lia))).
    rewrite (elements_more _ _ _ _ _ Hk') by lia. by rewrite <- (assoc_L (++)).
Qed.

(** *** Objects *)

Definition item_text (p : string * json) : string := json_item utf8_char (on_values canonical_utf8 p).

Lemma value_object fuel s : opens s → value (S fuel) ("{" +:+ s) = members fuel [] s.
Proof.
  intros Ho. change ("{" +:+ s) with (String "{"%char s). cbn [value]. rewrite (skip_opens (String _ _)) by by eexists _, _.
  cbn -[value members code_of N.eqb]. change (code_of "{" =? 34)%N with false. change (code_of "{" =? 91)%N with false.
  change (code_of "{" =? 123)%N with true. cbn iota.
  rewrite (skip_opens s Ho). destruct Ho as (c & t & -> & _ & _ & Hc). by destruct (N.eqb_spec (code_of c) 125).
Qed.

(** The value of one member. *)
Lemma members_step fuel acc key s :
  members (S fuel) acc (json_string utf8_char key +:+ ":" +:+ s) =
  ('(v, rest) ← value fuel s;
   match skip rest with
   | String c rest =>
       if (code_of c =? 44)%N then members fuel (acc ++ [(key, v)]) rest
       else if (code_of c =? 125)%N then
         object ← object_of_pairs (acc ++ [(key, v)]); mret (JObj object, rest)
       else json_error
   | EmptyString => json_error
   end).
Proof.
  unfold json_string. rewrite <- !(assoc_L String.append). cbn [members].
  change (skip (quote +:+ ?x)) with (String (Ascii.ascii_of_N 34) x).
  change (negb (code_of (Ascii.ascii_of_N 34) =? 34)%N) with false. cbn iota. by rewrite string_body_escape.
Qed.

Lemma members_read items acc rest : items ≠ [] → Forall (λ p, reads_back p.2) items → NoDup (acc.*1 ++ items.*1) →
  ∃ fuel, members fuel acc (join "," (map item_text items) +:+ "}" +:+ rest)
          = Ok (JObj (acc ++ map (on_values sort_json) items), rest).
Proof.
  intros Hne Hall. induction Hall as [|[key x] [|y l] Hx Hl IH] in acc, Hne |- *; [done|..]; intros Hnd;
    cbn in Hx.
  - destruct (Hx ("}" +:+ rest) (ends_brace _)) as [k Hk]. exists (S k). cbn [map join]. unfold item_text, json_item.
    cbn [fst snd on_values]. rewrite <- !(assoc_L String.append), members_step, Hk. cbn -[object_of_pairs].
    rewrite hook_distinct; [done|]. by rewrite fmap_app.
  - destruct (Hx ("," +:+ join "," (map item_text (y :: l)) +:+ "}" +:+ rest) (ends_comma _)) as [k Hk].
    destruct (IH (acc ++ [(key, sort_json x)])) as [k' Hk'].
    { done. } { rewrite fmap_app, <- (assoc_L (++)). done. }
    exists (S (k + k')). revert Hk Hk'.
    change (map item_text ((key, x) :: y :: l)) with (item_text (key, x) :: map item_text (y :: l)).
    change (join "," (?a :: map item_text (y :: l))) with (a +:+ "," +:+ join "," (map item_text (y :: l))).
    generalize (join "," (map item_text (y :: l))) as tail. intros tail Hk Hk'. unfold item_text, json_item.
    cbn [fst snd on_values].
    rewrite <- !(assoc_L String.append), members_step, (value_more _ (k + k') _ _ Hk ltac:(lia)).
    cbn -[members skip code_of N.eqb]. change (skip ("," +:+ ?x)) with (String ","%char x). cbn iota.
    change (code_of "," =? 44)%N with true. cbn iota. rewrite (members_more _ _ _ _ _ Hk') by lia. by rewrite <- (assoc_L (++)).
Qed.

Lemma reads_back_array items : Forall reads_back items → reads_back (JArr items).
Proof.
  intros Hall rest _. change (canonical_utf8 (JArr items)) with ("[" +:+ join "," (map canonical_utf8 items) +:+ "]").
  rewrite <- !(assoc_L String.append). destruct items as [|x l]; [by exists 1|].
  destruct (elements_read (x :: l) [] rest) as [k Hk]; [done..|]. exists (S k).
  rewrite value_array; [exact Hk|]. cbn [map]. destruct (map canonical_utf8 l) eqn:E; cbn [join].
  - by apply opens_app, canonical_opens.
  - rewrite <- !(assoc_L String.append). by apply opens_app, canonical_opens.
Qed.

Lemma canonical_object items : NoDup items.*1 →
  canonical_utf8 (JObj items) = "{" +:+ join "," (map item_text (merge_sort key_le items)) +:+ "}".
Proof.
  intros Hnd. unfold canonical_utf8. cbn [dumps]. do 3 f_equal.
  replace (map (λ '(k, x), (k, dumps utf8_char x)) items) with (map (on_values canonical_utf8) items)
    by (apply map_ext; by intros []).
  by rewrite <- key_sort_map, map_map.
Qed.

Lemma item_opens p : opens (item_text p).
Proof. by eexists _, _. Qed.

Lemma reads_back_object items :
  NoDup items.*1 → Forall (λ p, reads_back p.2) items → reads_back (JObj items).
Proof.
  intros Hnd Hall rest _. rewrite canonical_object, sort_json_object, <- key_sort_map by done.
  rewrite <- (key_sort_perm items) in Hnd, Hall. revert Hnd Hall. generalize (merge_sort key_le items) as l.
  intros l Hnd Hall. rewrite <- !(assoc_L String.append). destruct l as [|x l]; [by exists 1|].
  destruct (members_read (x :: l) [] rest) as [k Hk]; [done..|]. exists (S k).
  rewrite value_object; [exact Hk|]. cbn [map]. destruct (map item_text l) eqn:E; cbn [join].
  - apply opens_app, item_opens.
  - rewrite <- !(assoc_L String.append). apply opens_app, item_opens.
Qed.

Lemma document_reads_back v : dict_keys v = true → reads_back v.
Proof.
  induction v as [| | | |l IH|l IH] using json_nested_ind; intros Hk.
  - intros rest _. by exists 1.
  - intros rest _. exists 1. by destruct b.
  - apply reads_back_number.
  - apply reads_back_string.
  - apply dict_keys_array in Hk. apply reads_back_array. eapply Forall_impl; [apply Forall_and; split; [exact IH|exact Hk]|].
    intros x [H1 H2]. by apply H1.
  - apply dict_keys_object in Hk as [Hnd Hk]. apply reads_back_object; [done|].
    eapply Forall_impl; [apply Forall_and; split; [exact IH|exact Hk]|]. intros x [H1 H2]. by apply H1.
Qed.

(** The reader never runs out of its fuel, and reads every canonical text back. *)
Lemma loads_with_finishes s : finished (loads_with s).
Proof.
  unfold loads_with. destruct (proj1 (enough_fuel (json_fuel s)) s) as [Hf _]; [unfold json_fuel; lia|].
  destruct (value _ s) as [[v rest]|e]; cbn; [by case_match|]. intros E. apply Hf. by injection E as ->.
Qed.

Lemma loads_with_canonical v : dict_keys v = true → loads_with (canonical_utf8 v) = Ok (sort_json v).
Proof.
  intros Hk. destruct (document_reads_back v Hk "" I) as [k H]. rewrite (right_id_L "" String.append) in H.
  set (s := canonical_utf8 v) in *. unfold loads_with.
  destruct (proj1 (enough_fuel (json_fuel s)) s) as [Hf _]; [unfold json_fuel; lia|].
  assert (value (json_fuel s) s = Ok (sort_json v, "")) as ->; [|done].
  rewrite <- (proj1 (more_fuel (json_fuel s)) s (k + json_fuel s) ltac:(lia) Hf).
  eapply value_more; [exact H|lia].
Qed.

(** ** What is read has distinct keys *)

Definition dict_read (r : result (json * string)) : Prop := ∀ v rest, r = Ok (v, rest) → dict_keys v = true.

Lemma dict_read_ret v rest : dict_keys v = true → dict_read (mret (v, rest)).
Proof. by intros ? ? ? [= <- <-]. Qed.

Lemma dict_read_error : dict_read json_error.
Proof. by intros ??. Qed.

Lemma read_dict fuel :
  (∀ s, dict_read (value fuel s))
  ∧ (∀ l s, dict_keys (JArr l) = true → dict_read (elements fuel l s))
  ∧ (∀ l s, Forall (λ p, dict_keys p.2 = true) l → dict_read (members fuel l s)).
Proof.
  induction fuel as [|fuel (IHv & IHe & IHm)]; [by split_and!; intros * ? ? ?|].
  split_and!; [intros s|intros l s Hl|intros l s Hl]; cbn [value elements members].
  - destruct (skip s) as [|c rest]; [apply dict_read_error|]. destruct (code_of c =? 34)%N.
    { destruct (string_body rest) as [[text r]|]; [by apply dict_read_ret|apply dict_read_error]. }
    destruct (code_of c =? 91)%N; [|destruct (code_of c =? 123)%N].
    1,2: destruct (skip rest) as [|d after]; [apply dict_read_error|]; destruct (code_of d =? _)%N;
      [by apply dict_read_ret|auto].
    destruct (keyword _) as [[v r]|] eqn:Ek.
    + unfold keyword in Ek. apply dict_read_ret.
      repeat (case_match; simplify_eq/=; try done).
    + destruct (number _) as [[z r]|]; [by apply dict_read_ret|apply dict_read_error].
  - specialize (IHv s). destruct (value fuel s) as [[v rest]|e]; [|by intros ??]. specialize (IHv _ _ eq_refl).
    assert (dict_keys (JArr (l ++ [v])) = true) as Hlv.
    { apply dict_keys_array. apply dict_keys_array in Hl. apply Forall_app. by split; [|constructor]. }
    cbn [mbind result_bind]. destruct (skip rest) as [|c after]; [apply dict_read_error|].
    destruct (code_of c =? 44)%N; [by apply IHe|]. destruct (code_of c =? 93)%N; [by apply dict_read_ret|apply dict_read_error].
  - destruct (skip s) as [|c rest]; [apply dict_read_error|]. destruct (negb _); [apply dict_read_error|].
    destruct (or_error _) as [[key after]|e]; [|by intros ??]. cbn [mbind result_bind].
    destruct (skip after) as [|d rest']; [apply dict_read_error|]. destruct (negb _); [apply dict_read_error|].
    specialize (IHv rest'). destruct (value fuel rest') as [[v tail]|e]; [|by intros ??]. specialize (IHv _ _ eq_refl).
    cbn [mbind result_bind].
    assert (Forall (λ p : string * json, dict_keys p.2 = true) (l ++ [(key, v)])) as Hp by (apply Forall_app; by split; [|constructor]).
    destruct (skip tail) as [|x tail']; [apply dict_read_error|].
    destruct (code_of x =? 44)%N; [by apply IHm|]. destruct (code_of x =? 125)%N; [|apply dict_read_error].
    destruct (object_of_pairs _) as [object|e] eqn:Ep; [|by intros ??]. apply dict_read_ret. by eapply hook_dict.
Qed.

Lemma loads_with_dict s v : loads_with s = Ok v → dict_keys v = true.
Proof.
  unfold loads_with. destruct (value _ s) as [[w rest]|e] eqn:E; [|done]. cbn [mbind result_bind].
  destruct (eqb _ _); [|done]. intros [= <-]. by eapply (proj1 (read_dict _)).
Qed.
End reading.

(** ** The default hook *)

Lemma put_item_new acc key v : key ∉ acc.*1 → put_item acc key v = acc ++ [(key, v)].
Proof.
  intros H. unfold put_item. destruct (among key acc.*1) eqn:E; [|done]. by apply among_true in E.
Qed.

Lemma put_item_dict items key v :
  dict_keys (JObj items) = true → dict_keys v = true → dict_keys (JObj (put_item items key v)) = true.
Proof.
  rewrite !dict_keys_object. intros [Hnd Hl] Hv. unfold put_item. destruct (among key items.*1) eqn:E.
  - split.
    + assert ((map (λ p : string * json, if eqb p.1 key then (key, v) else p) items).*1 = items.*1) as ->; [|done].
      rewrite <- list_fmap_compose. apply list_fmap_ext. intros _ [k w] _. cbn. destruct (eqb k key) eqn:Ek; [|done].
      by apply eqb_true in Ek as ->.
    + rewrite Forall_fmap. eapply Forall_impl; [exact Hl|]. intros p Hp. cbn. by destruct (eqb p.1 key).
  - assert (key ∉ items.*1) as Hk by (intros ?%among_true; congruence).
    rewrite fmap_app, Forall_app. split; [|by split; [|constructor]]. apply NoDup_app. split_and!; [done| |apply NoDup_singleton].
    by intros k Hin ->%list_elem_of_singleton.
Qed.

Lemma dict_of_pairs_dict pairs : Forall (λ p, dict_keys p.2 = true) pairs → dict_keys (JObj (dict_of_pairs pairs)) = true.
Proof.
  intros Hall. unfold dict_of_pairs. assert (dict_keys (JObj []) = true) as Hacc by done. revert Hacc.
  generalize ([] : list (string * json)) as acc. induction Hall as [|p pairs Hp Hall IH]; intros acc Hacc; [done|].
  cbn [foldl]. by apply IH, put_item_dict.
Qed.

Lemma dict_of_pairs_distinct pairs : NoDup pairs.*1 → dict_of_pairs pairs = pairs.
Proof.
  unfold dict_of_pairs. intros Hnd. change pairs with ([] ++ pairs) at 2. change (NoDup (([] : list (string * json)).*1 ++ pairs.*1)) in Hnd.
  revert Hnd. generalize ([] : list (string * json)) as acc. induction pairs as [|[k v] pairs IH]; intros acc Hnd; cbn [foldl fst snd].
  - by rewrite app_nil_r.
  - rewrite put_item_new; [|apply NoDup_app in Hnd as (_ & Hd & _); intros Hin; by eapply Hd; [|left]].
    rewrite IH; [by rewrite <- (assoc_L (++))|]. rewrite fmap_app, <- (assoc_L (++)). done.
Qed.

#[export] Instance dict_hook_laws : HookLaws dict_hook.
Proof.
  split; [done| |].
  - intros pairs Hnd. unfold object_of_pairs, dict_hook. by rewrite dict_of_pairs_distinct.
  - intros pairs items [= <-]. apply dict_of_pairs_dict.
Qed.

Lemma loads_finishes s : finished (loads s).
Proof. apply loads_with_finishes. Qed.
Lemma loads_canonical v : dict_keys v = true → loads (canonical_utf8 v) = Ok (sort_json v).
Proof. apply loads_with_canonical. Qed.
Lemma loads_dict s v : loads s = Ok v → dict_keys v = true.
Proof. apply loads_with_dict. Qed.
