(* ===== verification/Datetimes.v ===== *)
(** * Datetimes

    UTC instants as microseconds since 1970: [datetime.isoformat] and the reading of
    what it prints by [datetime.fromisoformat]. *)

From stdpp Require Import pretty.
From S2P Require Import Prelude Canonical Documents JsonText.

Definition microsecond : Z := 1000000.

(** Days since 1970-01-01 as year, month and day of the proleptic Gregorian
    calendar. *)
Definition civil (days : Z) : Z * Z * Z :=
  (let z := days + 719468 in
   let era := z / 146097 in
   let doe := z - era * 146097 in
   let yoe := (doe - doe / 1460 + doe / 36524 - doe / 146096) / 365 in
   let doy := doe - (365 * yoe + yoe / 4 - yoe / 100) in
   let mp := (5 * doy + 2) / 153 in
   let month := if mp <? 10 then mp + 3 else mp - 9 in
   (yoe + era * 400 + (if month <=? 2 then 1 else 0), month, doy - (153 * mp + 2) / 5 + 1))%Z.

Definition padded (width : nat) (n : Z) : string :=
  let digits := pretty n in
  String.concat "" (replicate (width - String.length digits) "0") +:+ digits.

(** [datetime.isoformat()] of a UTC instant. *)
Definition isoformat (t : Z) : string :=
  let seconds := (t / microsecond)%Z in
  let '(year, month, day) := civil (seconds / 86400) in
  let s := (seconds mod 86400)%Z in
  padded 4 year +:+ "-" +:+ padded 2 month +:+ "-" +:+ padded 2 day +:+ "T"
  +:+ padded 2 (s / 3600) +:+ ":" +:+ padded 2 (s / 60 mod 60) +:+ ":" +:+ padded 2 (s mod 60)
  +:+ (if (t mod microsecond =? 0)%Z then "" else "." +:+ padded 6 (t mod microsecond)) +:+ "+00:00".

Example isoformat_leap_day : isoformat 1709210096000042 = "2024-02-29T12:34:56.000042+00:00".
Proof. vm_compute. reflexivity. Qed.

(** ** Reading *)

(** Exactly [width] digits. *)
Fixpoint take_digits (width : nat) (acc : Z) (s : string) : option (Z * string) :=
  match width with
  | O => Some (acc, s)
  | S width =>
      match s with
      | String c rest => d ← digit_value c; take_digits width (10 * acc + d)%Z rest
      | EmptyString => None
      end
  end.

(** Days since 1970-01-01 of a date of the proleptic Gregorian calendar. *)
Definition days_of_civil (year month day : Z) : Z :=
  (let y := year - (if month <=? 2 then 1 else 0) in
   let era := y / 400 in
   let yoe := y - era * 400 in
   let mp := if 2 <? month then month - 3 else month + 9 in
   let doy := (153 * mp + 2) / 5 + day - 1 in
   era * 146097 + (yoe * 365 + yoe / 4 - yoe / 100 + doy) - 719468)%Z.

(** The years 1 to 9999. *)
Definition in_range_of_years (t : Z) : bool :=
  (-62135596800 * microsecond <=? t)%Z && (t <? 253402300800 * microsecond)%Z.

(** The instant that the digits of a text name. *)
Definition read_fields (s : string) : option Z :=
  '(year, r) ← take_digits 4 0 s; r ← strip_prefix "-" r;
  '(month, r) ← take_digits 2 0 r; r ← strip_prefix "-" r;
  '(day, r) ← take_digits 2 0 r; r ← strip_prefix "T" r;
  '(hour, r) ← take_digits 2 0 r; r ← strip_prefix ":" r;
  '(minute, r) ← take_digits 2 0 r; r ← strip_prefix ":" r;
  '(second, r) ← take_digits 2 0 r;
  micro ← match strip_prefix "." r with
          | Some r => fst <$> take_digits 6 0 r
          | None => Some 0%Z
          end;
  Some ((days_of_civil year month day * 86400 + hour * 3600 + minute * 60 + second) * microsecond + micro)%Z.

(** [datetime.fromisoformat] of a text in the form [isoformat] prints; every other
    spelling is refused here. *)
Definition fromisoformat (s : string) : option Z :=
  t ← read_fields s;
  if eqb (isoformat t) s && in_range_of_years t then Some t else None.

Example fromisoformat_leap_day : fromisoformat "2024-02-29T12:34:56.000042+00:00" = Some 1709210096000042%Z.
Proof. vm_compute. reflexivity. Qed.

(** ** What is printed is read *)

Lemma take_digits_split m n acc s :
  take_digits (m + n) acc s = ('(v, rest) ← take_digits m acc s; take_digits n v rest).
Proof.
  revert acc s. induction m as [|m IH]; intros acc s; [done|]. cbn. destruct s as [|c s]; [done|].
  destruct (digit_value c); cbn; [apply IH|done].
Qed.

Lemma pretty_go_split n s : pretty_N_go n s = pretty_N_go n "" +:+ s.
Proof. by rewrite pretty_go_app. Qed.

Definition digit_count (n : N) : nat := String.length (pretty_N_go n "").

Lemma string_length_app s t : String.length (s +:+ t) = (String.length s + String.length t)%nat.
Proof. induction s as [|c s IH]; [done|]. change (S (String.length (s +:+ t)) = S (String.length s + String.length t)). by rewrite IH. Qed.

Lemma digit_count_step n : (0 < n)%N → digit_count n = (digit_count (n / 10) + 1)%nat.
Proof.
  intros Hn. unfold digit_count. rewrite pretty_N_go_step by done. rewrite pretty_go_split. apply string_length_app.
Qed.

Lemma take_pretty n acc s :
  take_digits (digit_count n) acc (pretty_N_go n "" +:+ s)
  = Some (acc * 10 ^ Z.of_nat (digit_count n) + Z.of_N n, s)%Z.
Proof.
  revert acc s. induction (N.lt_wf_0 n) as [n _ IH]. intros acc s.
  destruct (decide (n = 0)%N) as [->|Hn].
  { change (Some (acc, s) = Some (acc * 1 + 0, s)%Z). do 2 f_equal. lia. }
  rewrite digit_count_step by lia. rewrite (pretty_N_go_step n) by lia. rewrite (pretty_go_split (n / 10)).
  rewrite <- (assoc_L String.append), take_digits_split, IH by (apply N.div_lt; lia). cbn [mbind option_bind].
  change (String ?c "" +:+ s) with (String c s). cbn [take_digits].
  rewrite digit_char by by apply N.mod_lt. cbn. do 2 f_equal.
  rewrite Nat2Z.inj_add, Z.pow_add_r by lia. pose proof (N.div_mod n 10 ltac:(done)). change (Z.of_nat 1) with 1%Z. nia.
Qed.

Lemma digit_count_bound n (w : nat) : (n < 10 ^ N.of_nat w)%N → (digit_count n <= w)%nat.
Proof.
  revert n. induction w as [|w IH]; intros n Hn; [change (10 ^ N.of_nat 0)%N with 1%N in Hn; by replace n with 0%N by lia|].
  destruct (decide (n = 0)%N) as [->|Hz]; [change (digit_count 0) with 0; lia|]. rewrite digit_count_step by lia.
  assert (digit_count (n / 10) <= w)%nat; [|lia]. apply IH. rewrite Nat2N.inj_succ, N.pow_succ_r' in Hn.
  apply N.Div0.div_lt_upper_bound. lia.
Qed.

Lemma take_zeros k acc s :
  take_digits k acc (String.concat "" (replicate k "0") +:+ s) = Some (acc * 10 ^ Z.of_nat k, s)%Z.
Proof.
  revert acc. induction k as [|k IH]; intros acc.
  { change (Some (acc, s) = Some (acc * 1, s)%Z). do 2 f_equal. lia. }
  assert (String.concat "" (replicate (S k) "0") = String "0"%char (String.concat "" (replicate k "0"))) as ->
    by by destruct k.
  change (String "0"%char ?x +:+ s) with (String "0"%char (x +:+ s)). cbn [take_digits].
  change (digit_value "0") with (Some 0%Z). cbn [mbind option_bind]. rewrite IH. do 2 f_equal.
  rewrite Nat2Z.inj_succ, Z.pow_succ_r by lia. lia.
Qed.

Lemma take_padded (w : nat) n s : (0 < w)%nat → (0 <= n < 10 ^ Z.of_nat w)%Z →
  take_digits w 0 (padded w n +:+ s) = Some (n, s).
Proof.
  intros Hw Hn. unfold padded. destruct (decide (n = 0)%Z) as [->|Hz].
  - change (pretty 0%Z) with "0". change (String.length "0") with 1.
    rewrite <- (assoc_L String.append). replace w with (w - 1 + 1)%nat at 1 by lia.
    rewrite take_digits_split, take_zeros. done.
  - assert (pretty n = pretty_N_go (Z.to_N n) "") as ->.
    { destruct n as [|p|p]; [done| |lia]. cbn. unfold pretty, pretty_Z, pretty, pretty_positive, pretty, pretty_N. by case_decide. }
    assert (digit_count (Z.to_N n) <= w)%nat as Hc.
    { apply digit_count_bound. apply N2Z.inj_lt. rewrite N2Z.inj_pow, Z2N.id by lia. rewrite nat_N_Z. cbn. lia. }
    fold (digit_count (Z.to_N n)). rewrite <- (assoc_L String.append).
    replace w with (w - digit_count (Z.to_N n) + digit_count (Z.to_N n))%nat at 1 by lia.
    rewrite take_digits_split, take_zeros. cbn [mbind option_bind]. rewrite take_pretty. do 2 f_equal. lia.
Qed.

Lemma take_two n s : (0 <= n < 100)%Z → take_digits 2 0 (padded 2 n +:+ s) = Some (n, s).
Proof. intros H. apply take_padded; [lia|exact H]. Qed.
Lemma take_four n s : (0 <= n < 10000)%Z → take_digits 4 0 (padded 4 n +:+ s) = Some (n, s).
Proof. intros H. apply take_padded; [lia|exact H]. Qed.
Lemma take_six n s : (0 <= n < 1000000)%Z → take_digits 6 0 (padded 6 n +:+ s) = Some (n, s).
Proof. intros H. apply take_padded; [lia|exact H]. Qed.

(** *** The calendar *)

Lemma div_bounds a b : (0 < b)%Z → (b * (a / b) <= a < b * (a / b) + b)%Z.
Proof. intros. Z.to_euclidean_division_equations. lia. Qed.

(** The year of an era and the day of that year, counted from March. *)
Lemma year_of_era doe : (0 <= doe < 146097)%Z →
  (let yoe := (doe - doe / 1460 + doe / 36524 - doe / 146096) / 365 in
   0 <= yoe < 400 ∧ 0 <= doe - (365 * yoe + yoe / 4 - yoe / 100) <= 365)%Z.
Proof.
  intros H yoe. subst yoe. pose proof (div_bounds doe 1460 ltac:(lia)) as Ha.
  pose proof (div_bounds doe 36524 ltac:(lia)) as Hb. pose proof (div_bounds doe 146096 ltac:(lia)) as Hc.
  revert Ha Hb Hc. generalize (doe / 1460)%Z (doe / 36524)%Z (doe / 146096)%Z. intros a b c Ha Hb Hc.
  pose proof (div_bounds (doe - a + b - c) 365 ltac:(lia)) as Hy. revert Hy. generalize ((doe - a + b - c) / 365)%Z.
  intros y Hy. assert (0 <= y < 400)%Z as Hrange by lia. split; [done|].
  pose proof (div_bounds y 4 ltac:(lia)) as Hd. pose proof (div_bounds y 100 ltac:(lia)) as He.
  revert Hd He. generalize (y / 4)%Z (y / 100)%Z. intros d e Hd He.
  assert (b = 0 ∨ b = 1 ∨ b = 2 ∨ b = 3 ∨ b = 4)%Z as Hb' by lia. assert (c = 0 ∨ c = 1)%Z as Hc' by lia.
  assert (e = 0 ∨ e = 1 ∨ e = 2 ∨ e = 3)%Z as He' by lia.
  destruct Hb' as [->|[->|[->|[->| ->]]]], Hc' as [->| ->], He' as [->|[->|[->| ->]]]; lia.
Qed.

(** Months counted from March. *)
Lemma month_of_year doy : (0 <= doy <= 365)%Z →
  (let mp := (5 * doy + 2) / 153 in 0 <= mp <= 11 ∧ 0 <= doy - (153 * mp + 2) / 5 <= 30)%Z.
Proof.
  intros H mp. subst mp. pose proof (div_bounds (5 * doy + 2) 153 ltac:(lia)) as Hm. revert Hm.
  generalize ((5 * doy + 2) / 153)%Z. intros mp Hm. pose proof (div_bounds (153 * mp + 2) 5 ltac:(lia)). lia.
Qed.

Lemma civil_days days :
  let '(year, month, day) := civil days in
  (1 <= month <= 12)%Z ∧ (1 <= day <= 31)%Z ∧ days_of_civil year month day = days
  ∧ ((-719162 <= days <= 2932896)%Z → (0 <= year <= 9999)%Z).
Proof.
  unfold civil. cbv zeta. set (z := (days + 719468)%Z). set (era := (z / 146097)%Z).
  pose proof (div_bounds z 146097 ltac:(lia)) as He. fold era in He.
  assert (0 <= z - era * 146097 < 146097)%Z as Hdoe by lia. set (doe := (z - era * 146097)%Z) in *.
  destruct (year_of_era doe Hdoe) as [Hyoe Hdoy].
  set (yoe := ((doe - doe / 1460 + doe / 36524 - doe / 146096) / 365)%Z) in *.
  set (doy := (doe - (365 * yoe + yoe / 4 - yoe / 100))%Z) in *. destruct (month_of_year doy Hdoy) as [Hmp Hday].
  set (mp := ((5 * doy + 2) / 153)%Z) in *.
  assert (mp = (5 * doy + 2) / 153)%Z as Emp by done. assert (days = z - 719468)%Z as Ez by (subst z; lia).
  assert (doe = 365 * yoe + yoe / 4 - yoe / 100 + doy)%Z as Edoe by (subst doy; lia).
  assert (z = era * 146097 + doe)%Z as Ezz by (subst doe; lia). clearbody z era doe yoe doy mp.
  set (month := if (mp <? 10)%Z then (mp + 3)%Z else (mp - 9)%Z).
  assert (1 <= month <= 12 ∧ (if 2 <? month then month - 3 else month + 9) = mp
          ∧ (month <= 2 ↔ 10 <= mp))%Z as (Hmonth & Hback & Hlate).
  { subst month. destruct (Z.ltb_spec mp 10); [destruct (Z.ltb_spec 2 (mp + 3))|destruct (Z.ltb_spec 2 (mp - 9))]; lia. }
  clearbody month. split_and!; [lia|lia|lia|lia| |].
  - unfold days_of_civil. cbv zeta. rewrite Hback.
    assert (yoe + era * 400 + (if month <=? 2 then 1 else 0) - (if month <=? 2 then 1 else 0) = era * 400 + yoe)%Z as -> by lia.
    assert ((era * 400 + yoe) / 400 = era)%Z as -> by (rewrite Z.div_add_l by lia; rewrite Z.div_small by lia; lia).
    replace (era * 400 + yoe - era * 400)%Z with yoe by lia. lia.
  - intros Hrange. pose proof (div_bounds yoe 4 ltac:(lia)). pose proof (div_bounds yoe 100 ltac:(lia)).
    pose proof (div_bounds (5 * doy + 2) 153 ltac:(lia)). destruct (Z.leb_spec month 2); lia.
Qed.

Lemma strip_char c s : strip_prefix (String c "") (String c "" +:+ s) = Some s.
Proof. change (String c "" +:+ s) with (String c s). cbn [strip_prefix]. by rewrite eqb_refl. Qed.

Lemma read_isoformat t : in_range_of_years t = true → read_fields (isoformat t) = Some t.
Proof.
  unfold in_range_of_years. rewrite andb_true_iff, Z.leb_le, Z.ltb_lt. intros Hr.
  unfold isoformat. pose proof (civil_days (t / microsecond / 86400)) as Hc. unfold microsecond in *.
  pose proof (div_bounds t 1000000 ltac:(lia)) as Hs. pose proof (Z.mod_eq t 1000000 ltac:(lia)) as Hu.
  set (seconds := (t / 1000000)%Z) in *. set (micro := (t mod 1000000)%Z) in *.
  pose proof (div_bounds seconds 86400 ltac:(lia)) as Hday. pose proof (Z.mod_eq seconds 86400 ltac:(lia)) as Hmod.
  set (s := (seconds mod 86400)%Z) in *. destruct (civil (seconds / 86400)) as [[year month] day].
  destruct Hc as (Hm & Hd & Hdays & Hy). specialize (Hy ltac:(lia)).
  pose proof (div_bounds s 3600 ltac:(lia)). pose proof (div_bounds s 60 ltac:(lia)).
  pose proof (Z.mod_eq s 60 ltac:(lia)). pose proof (Z.mod_eq (s / 60) 60 ltac:(lia)).
  pose proof (div_bounds (s / 60) 60 ltac:(lia)).
  assert (s / 3600 = s / 60 / 60)%Z by (rewrite Z.div_div by lia; done).
  unfold read_fields. cbn [fst snd].
  rewrite take_four by lia. cbn [mbind option_bind]. rewrite strip_char. cbn [mbind option_bind].
  do 4 (rewrite take_two by lia; cbn [mbind option_bind]; rewrite strip_char; cbn [mbind option_bind]).
  rewrite take_two by lia. cbn [mbind option_bind].
  destruct (Z.eqb_spec micro 0) as [Hz|Hz].
  - change (strip_prefix "." ("" +:+ "+00:00")) with (@None string). cbn [mbind option_bind]. f_equal. rewrite Hdays.
    unfold microsecond. lia.
  - rewrite <- (assoc_L String.append), strip_char, take_six by lia. cbn [fmap option_fmap option_map mbind option_bind fst].
    f_equal. rewrite Hdays. unfold microsecond. lia.
Qed.

Lemma fromisoformat_isoformat t : in_range_of_years t = true → fromisoformat (isoformat t) = Some t.
Proof. intros Hr. unfold fromisoformat. rewrite read_isoformat by done. cbn [mbind option_bind]. by rewrite eqb_refl, Hr. Qed.

Lemma fromisoformat_range s t : fromisoformat s = Some t → in_range_of_years t = true.
Proof.
  unfold fromisoformat. destruct (read_fields s) as [x|]; [|done]. cbn [mbind option_bind].
  destruct (eqb _ _ && in_range_of_years x) eqn:Hb; [|done]. intros [= <-]. by apply andb_true_iff in Hb as [_ ?].
Qed.
