(* ===== verification/Contracts.v ===== *)
(** * Agent messages ([agent_protocol/src/vonk_agent_protocol/contracts.py])

    The operations an agent knows and the three messages of an attempt: the
    claim a node receives, the progress and the result it reports. A message
    exists only with canonical identities and a bounded document that carries no
    secrets, no commands and no file paths: the constructors below are the
    [__post_init__] methods.

    A deadline is an aware UTC instant in microseconds. [Messages] reads messages
    from their wire form; the JSON schemas are not modelled. *)

From S2P Require Import Prelude Identifiers Canonical.

(** ** Operations *)

Inductive AgentOperation :=
| NODE_PROBE | RELEASE_INSTALL
| WORKLOAD_PREPARE | WORKLOAD_START | WORKLOAD_STOP | WORKLOAD_HEALTH | WORKLOAD_VERIFY
| AGENT_UPDATE | AGENT_ROLLBACK
| PACKAGE_PREPARE | PACKAGE_ACTIVATE | PACKAGE_HEALTH | PACKAGE_STOP
| PACKAGE_ROLLBACK | PACKAGE_REMOVE | PACKAGE_REPAIR | PACKAGE_GC
| RECIPE_BUILD | RECIPE_IMAGE_IMPORT | RECIPE_INSTALL | RECIPE_START | RECIPE_STOP
| RECIPE_UNINSTALL.

#[export] Instance AgentOperation_eq_dec : EqDecision AgentOperation.
Proof. solve_decision. Defined.

(** A [StrEnum]: an operation is its value. *)
Definition operation_value (o : AgentOperation) : string :=
  match o with
  | NODE_PROBE => "node.probe" | RELEASE_INSTALL => "release.install"
  | WORKLOAD_PREPARE => "workload.prepare" | WORKLOAD_START => "workload.start"
  | WORKLOAD_STOP => "workload.stop" | WORKLOAD_HEALTH => "workload.health"
  | WORKLOAD_VERIFY => "workload.verify"
  | AGENT_UPDATE => "agent.update" | AGENT_ROLLBACK => "agent.rollback"
  | PACKAGE_PREPARE => "package.prepare" | PACKAGE_ACTIVATE => "package.activate"
  | PACKAGE_HEALTH => "package.health" | PACKAGE_STOP => "package.stop"
  | PACKAGE_ROLLBACK => "package.rollback" | PACKAGE_REMOVE => "package.remove"
  | PACKAGE_REPAIR => "package.repair" | PACKAGE_GC => "package.gc"
  | RECIPE_BUILD => "recipe.build.v1" | RECIPE_IMAGE_IMPORT => "recipe.image.import.v1"
  | RECIPE_INSTALL => "recipe.install" | RECIPE_START => "recipe.start"
  | RECIPE_STOP => "recipe.stop" | RECIPE_UNINSTALL => "recipe.uninstall"
  end.
Coercion operation_value : AgentOperation >-> string.

Definition all_operations : list AgentOperation :=
  [NODE_PROBE; RELEASE_INSTALL; WORKLOAD_PREPARE; WORKLOAD_START; WORKLOAD_STOP; WORKLOAD_HEALTH;
   WORKLOAD_VERIFY; AGENT_UPDATE; AGENT_ROLLBACK; PACKAGE_PREPARE; PACKAGE_ACTIVATE; PACKAGE_HEALTH;
   PACKAGE_STOP; PACKAGE_ROLLBACK; PACKAGE_REMOVE; PACKAGE_REPAIR; PACKAGE_GC; RECIPE_BUILD;
   RECIPE_IMAGE_IMPORT; RECIPE_INSTALL; RECIPE_START; RECIPE_STOP; RECIPE_UNINSTALL].

(** [AgentOperation(value)]. *)
Definition operation_of_value (value : string) : result AgentOperation :=
  match head (filter (λ o, operation_value o = value) all_operations) with
  | Some o => mret o
  | None => raise EValue (value +:+ " is not a valid AgentOperation")
  end.

(** ** Keys and values an agent never accepts *)

Definition protocol_error {A} (m : string) : result A := raise EAgentProtocol m.
Definition protocol_check (b : bool) (m : string) : result unit := ensure b EAgentProtocol m.

Definition unsafe_terms : list string :=
  ["password"; "secret"; "token"; "authorization"; "command"; "shell"; "environment"].

(** [UNSAFE_KEY.search]. *)
Definition is_unsafe_key (key : string) : bool :=
  search (λ s, existsb (λ t, String.prefix t s) unsafe_terms || private_key_at s) (lower key).

Definition path_tokens : list string :=
  ["path"; "file"; "filename"; "filepath"; "directory"; "folder"].

Definition is_upper (c : Ascii.ascii) : bool := in_range "A"%char "Z"%char c.
Definition is_separator (c : Ascii.ascii) : bool := among c ["_"%char; "-"%char].

Definition drop_chars (n : nat) (s : string) : string := String.substring n (String.length s - n) s.

(** [(?:$|[_-]|[A-Z])]; the dollar also matches before a final line feed. *)
Definition term_end (s : string) : bool :=
  match s with
  | EmptyString => true
  | String c rest => is_separator c || is_upper c || (code c =? 10)%N && eqb rest ""
  end.

(** A path term, in any case, that ends here. *)
Definition path_term_at (s : string) : bool :=
  existsb (λ t, String.prefix t (lower s) && term_end (drop_chars (String.length t) s)) path_tokens.

(** [PATH_KEY.search]. *)
Definition is_path_key (key : string) : bool :=
  path_term_at key
  || search (λ s, match s with
                  | String c rest =>
                      is_separator c && path_term_at rest
                      || is_lower_digit c && char_is is_upper (first_char rest) && path_term_at rest
                  | EmptyString => false
                  end) key.

(** A number without leading zeros, and three of them separated by dots. *)
Definition is_number (s : string) : bool :=
  fits 1 (String.length s) s && all_chars is_digit s
  && (eqb s "0" || negb (char_is (eqb "0"%char) (first_char s))).

Definition is_version (s : string) : bool :=
  match split_on "."%char s with
  | [a; b; c] => is_number a && is_number b && is_number c
  | _ => false
  end.

(** [VERSIONED_PLATFORM_TARGET.fullmatch]. *)
Definition is_platform_target (s : string) : bool :=
  match split_on "/"%char s with
  | [root; releases; version; file] =>
      eqb root "platform" && eqb releases "releases" && is_version version
      && is_digest (String.substring 0 64 file) && eqb (drop_chars 64 file) ".json"
  | _ => false
  end.

(** The flags of [_validate_safe_keys]: the key the value is bound to, whether
    secret references are allowed here, and whether this is one. *)
Fixpoint validate_safe_keys (field_name : option string) (allow secret : bool) (v : json)
    : result unit :=
  match v with
  | JObj items =>
      (fix go items :=
         match items with
         | [] => mret ()
         | (key, item) :: items =>
             protocol_check (negb (is_path_key key)) ("filesystem path key is not allowed: " +:+ key);;
             protocol_check (negb (is_unsafe_key key)
                             || allow && (eqb key "secrets" || eqb field_name (Some "secrets")))
               ("unsafe protocol key: " +:+ key);;
             validate_safe_keys (Some key) (allow || eqb key "deployment")
               (eqb field_name (Some "secrets")) item;;
             go items
         end) items
  | JArr items =>
      (fix go items :=
         match items with
         | [] => mret ()
         | item :: items => validate_safe_keys None allow secret item;; go items
         end) items
  | JStr s =>
      if secret then protocol_check (String.prefix "secret://" s) "secret reference is not canonical"
      else if eqb field_name (Some "platform_target_name") then
        protocol_check (is_platform_target s) "platform target identifier is not canonical"
      else protocol_check (negb (has_char "/"%char s || has_char "\"%char s))
             "filesystem path values are not allowed"
  | _ => mret ()
  end.

Definition max_document_bytes : Z := 64 * 1024.

(** [_validate_bounded_document]; the result is [json.loads(canonical_message(value))]. *)
Definition validate_bounded_document (v : json) (name : string) : result json :=
  match v with
  | JObj _ =>
      validate_safe_keys None false false v;;
      protocol_check (Z.of_nat (String.length (canonical_utf8 (sort_json v))) <=? max_document_bytes)%Z
        (name +:+ " is too large");;
      mret (sort_json v)
  | _ => protocol_error (name +:+ " must be a JSON object")
  end.

(** ** Messages *)

(** The fields every message of an attempt carries. *)
Record attempt_identity := Identity {
  id_job : string; id_operation : string; id_attempt : Z; id_fence : string; id_node : string;
  id_deadline : Z
}.

Definition check_attempt_identity (i : attempt_identity) : result unit :=
  protocol_check (is_uuid (id_job i)) "job_id must be a canonical UUID";;
  protocol_check (is_uuid (id_operation i)) "operation_id must be a canonical UUID";;
  protocol_check (1 <=? id_attempt i)%Z "attempt must be a positive integer";;
  protocol_check (is_uuid (id_fence i)) "fence must be a canonical UUID";;
  protocol_check (is_node_id (id_node i)) "node_id must match spk_[0-9a-f]{32}".

Record AgentClaim := MkClaim {
  claim_identity : attempt_identity; claim_operation : AgentOperation; claim_base_commit : string;
  claim_payload_digest : string; claim_payload : json
}.

Record AgentProgress := MkProgress { progress_identity : attempt_identity; progress_document : json }.

Record AgentResult := MkResult {
  result_identity : attempt_identity; result_state : string; result_document : json
}.

Definition agent_claim (i : attempt_identity) (o : AgentOperation)
    (base_commit payload_digest : string) (payload : json) : result AgentClaim :=
  check_attempt_identity i;;
  protocol_check (is_commit base_commit) "base_commit must be a 40-character lowercase SHA-1";;
  protocol_check (is_digest payload_digest) "payload_digest must be a lowercase SHA-256";;
  document ← validate_bounded_document payload "payload";
  protocol_check (eqb (utf8_digest document) payload_digest) "payload digest does not match payload";;
  mret (MkClaim i o base_commit payload_digest document).

Definition agent_progress (i : attempt_identity) (progress : json) : result AgentProgress :=
  check_attempt_identity i;;
  document ← validate_bounded_document progress "progress";
  mret (MkProgress i document).

Definition result_states : list string := ["succeeded"; "failed"; "waiting-for-operator"].

Definition agent_result (i : attempt_identity) (state : string) (value : json) : result AgentResult :=
  check_attempt_identity i;;
  protocol_check (among state result_states) "result state is not supported";;
  document ← validate_bounded_document value "result";
  mret (MkResult i state document).
