(* ===== verification/PackageState.v ===== *)
(** * The agent's package journal ([agent/src/vonk_agent/packages/state.py])

    [PackageState] is a SQLite journal with one transaction per method. A
    table is a finite map from its primary key to its row, [db] is the
    database, and each method is a program of [M db]: what runs inside
    [with self.transaction()] is under [transaction], so an exception leaves
    the database as it was. A method's [isinstance] checks are the types of its
    arguments. The file-system checks that open the database, and a corrupt
    database, are not modelled.

    The second half of the file proves the fencing discipline: whatever the
    calls and their order, attempts never go back, a superseded binding cannot
    write, and the schema's constraints always hold. *)

From S2P Require Import Prelude Identifiers.

(** ** Data *)

(** [OperationBinding]: the fencing identity of every side effect. *)
Record OperationBinding := Binding {
  job_id : string;
  operation_id : string;
  attempt : Z;
  fence : string;
  node_id : string
}.

(** The columns [operation_id], [attempt], [fence] a row is owned with. *)
Record owner := Owner { own_operation : string; own_attempt : Z; own_fence : string }.

#[export] Instance owner_eq_dec : EqDecision owner.
Proof. solve_decision. Defined.

Definition owner_of (b : OperationBinding) : owner :=
  Owner (operation_id b) (attempt b) (fence b).

Inductive generation_state :=
| GStaging | GValidated | GActive | GRetained | GFailed
| GQuarantined | GStaged | GRollback | GInactive | GPinned.

#[export] Instance generation_state_eq_dec : EqDecision generation_state.
Proof. solve_decision. Defined.

Inductive gc_state := GcPlanned | GcRunning | GcCompleted | GcCancelled.

#[export] Instance gc_state_eq_dec : EqDecision gc_state.
Proof. solve_decision. Defined.

Inductive candidate_state := CandPending | CandDeleted | CandSkipped.

#[export] Instance candidate_state_eq_dec : EqDecision candidate_state.
Proof. solve_decision. Defined.

(** The rows of the schema. The implicit [rowid] of [generations] orders two of
    its queries. *)
Record operation_row := OperationRow {
  op_job : string; op_node : string; op_attempt : Z; op_fence : string;
  op_phase : string; op_cancel : bool
}.
Record reservation_row := ReservationRow {
  rsv_attempt : Z; rsv_fence : string; rsv_bytes : Z
}.
Inductive component_state := CompPartial | CompComplete.

#[export] Instance component_state_eq_dec : EqDecision component_state.
Proof. solve_decision. Defined.

Record component_row := ComponentRow {
  comp_name : string; comp_size : Z; comp_kind : string;
  comp_state : component_state; comp_relative_name : option string;
  comp_owner : option owner
}.
Record partial_row := PartialRow {
  par_owner : owner; par_name : string; par_device : Z; par_inode : Z;
  par_ctime_ns : Z; par_bytes_written : Z;
  par_etag : option string; par_last_modified : option string
}.
Record derived_row := DerivedRow { drv_object : string; drv_owner : owner }.
Record generation_row := GenerationRow {
  gen_rowid : Z; gen_deployment : string; gen_release : string;
  gen_state : generation_state; gen_owner : owner
}.
Record lease_row := LeaseRow {
  lease_generation : string; lease_expires : Z; lease_owner : owner
}.
Record intent_row := IntentRow {
  int_target : Z; int_dry_run : bool; int_state : gc_state; int_owner : owner
}.
Record candidate_row := CandidateRow { cnd_size : Z; cnd_state : candidate_state }.

Record db := Db {
  operations : gmap string operation_row;
  reservations : gmap string reservation_row;
  components : gmap string component_row;
  partials : gmap string partial_row;
  derived_objects : gmap string derived_row;
  generations : gmap string generation_row;
  generation_objects : gset (string * string);
  leases : gmap string lease_row;
  gc_intents : gmap string intent_row;
  gc_candidates : gmap (string * string) candidate_row
}.

Definition empty_db : db := Db ∅ ∅ ∅ ∅ ∅ ∅ ∅ ∅ ∅ ∅.

Definition set_operations (f : gmap string operation_row → gmap string operation_row) (d : db) : db :=
  Db (f (operations d)) (reservations d) (components d) (partials d) (derived_objects d)
     (generations d) (generation_objects d) (leases d) (gc_intents d) (gc_candidates d).
Definition set_reservations (f : gmap string reservation_row → gmap string reservation_row) (d : db) : db :=
  Db (operations d) (f (reservations d)) (components d) (partials d) (derived_objects d)
     (generations d) (generation_objects d) (leases d) (gc_intents d) (gc_candidates d).
Definition set_components (f : gmap string component_row → gmap string component_row) (d : db) : db :=
  Db (operations d) (reservations d) (f (components d)) (partials d) (derived_objects d)
     (generations d) (generation_objects d) (leases d) (gc_intents d) (gc_candidates d).
Definition set_partials (f : gmap string partial_row → gmap string partial_row) (d : db) : db :=
  Db (operations d) (reservations d) (components d) (f (partials d)) (derived_objects d)
     (generations d) (generation_objects d) (leases d) (gc_intents d) (gc_candidates d).
Definition set_derived (f : gmap string derived_row → gmap string derived_row) (d : db) : db :=
  Db (operations d) (reservations d) (components d) (partials d) (f (derived_objects d))
     (generations d) (generation_objects d) (leases d) (gc_intents d) (gc_candidates d).
Definition set_generations (f : gmap string generation_row → gmap string generation_row) (d : db) : db :=
  Db (operations d) (reservations d) (components d) (partials d) (derived_objects d)
     (f (generations d)) (generation_objects d) (leases d) (gc_intents d) (gc_candidates d).
Definition set_generation_objects (f : gset (string * string) → gset (string * string)) (d : db) : db :=
  Db (operations d) (reservations d) (components d) (partials d) (derived_objects d)
     (generations d) (f (generation_objects d)) (leases d) (gc_intents d) (gc_candidates d).
Definition set_leases (f : gmap string lease_row → gmap string lease_row) (d : db) : db :=
  Db (operations d) (reservations d) (components d) (partials d) (derived_objects d)
     (generations d) (generation_objects d) (f (leases d)) (gc_intents d) (gc_candidates d).
Definition set_intents (f : gmap string intent_row → gmap string intent_row) (d : db) : db :=
  Db (operations d) (reservations d) (components d) (partials d) (derived_objects d)
     (generations d) (generation_objects d) (leases d) (f (gc_intents d)) (gc_candidates d).
Definition set_candidates (f : gmap (string * string) candidate_row → gmap (string * string) candidate_row) (d : db) : db :=
  Db (operations d) (reservations d) (components d) (partials d) (derived_objects d)
     (generations d) (generation_objects d) (leases d) (gc_intents d) (f (gc_candidates d)).

(** What the methods return. *)
Record OperationRecord := OperationRec {
  rec_operation_id : string; rec_attempt : Z; rec_fence : string;
  rec_phase : string; rec_cancel_requested : bool
}.
Record GenerationRecord := GenerationRec {
  gr_generation_id : string; gr_deployment_id : string; gr_release_digest : string;
  gr_state : generation_state; gr_object_digests : list string
}.
Record GcIntentRecord := GcIntentRec {
  gi_intent_id : string; gi_target_bytes : Z; gi_dry_run : bool; gi_state : gc_state
}.
Record GcCandidateRecord := GcCandidateRec {
  gc_digest : string; gc_size : Z; gc_cand_state : candidate_state
}.

Definition conflict {A} (m : string) : M db A := throw EPackageStateConflict m.
Definition ensure_state (b : bool) (m : string) : M db unit :=
  lift (ensure b EPackageStateConflict m).

(** ** Validators *)

Definition check_uuid4 (value label : string) : result unit :=
  ensure (is_uuid4 value) EValue (label +:+ " is invalid").

Definition check_identifier (value label : string) : result unit :=
  ensure (is_identifier value) EValue (label +:+ " is invalid").

Definition check_digest (value label : string) : result unit :=
  ensure (is_digest value) EValue (label +:+ " is invalid").

Definition check_phase (value : string) : result unit :=
  ensure (is_phase value) EValue "operation phase is invalid".

Definition check_binding (b : OperationBinding) : result unit :=
  check_uuid4 (job_id b) "job ID";;
  check_uuid4 (operation_id b) "operation ID";;
  check_uuid4 (fence b) "operation fence";;
  ensure ((1 <=? attempt b)%Z && (attempt b <=? 999999999)%Z) EValue
    "operation attempt is invalid";;
  ensure (is_node_id (node_id b)) EValue "operation node ID is invalid".

Definition parse_generation_state (value : string) : result generation_state :=
  if eqb value "staging" then Ok GStaging
  else if eqb value "validated" then Ok GValidated
  else if eqb value "active" then Ok GActive
  else if eqb value "retained" then Ok GRetained
  else if eqb value "failed" then Ok GFailed
  else if eqb value "quarantined" then Ok GQuarantined
  else if eqb value "staged" then Ok GStaged
  else if eqb value "rollback" then Ok GRollback
  else if eqb value "inactive" then Ok GInactive
  else if eqb value "pinned" then Ok GPinned
  else raise EValue "generation state is invalid".

Definition parse_gc_state (value : string) : result gc_state :=
  if eqb value "planned" then Ok GcPlanned
  else if eqb value "running" then Ok GcRunning
  else if eqb value "completed" then Ok GcCompleted
  else if eqb value "cancelled" then Ok GcCancelled
  else raise EValue "GC intent state is invalid".

(** The members of a state set are typed; the set must not be empty. *)
Definition check_state_set (expected : list generation_state) (label : string) : result unit :=
  ensure (nonempty expected) EValue (label +:+ " are invalid").

Definition check_gc_state_set (expected : list gc_state) : result unit :=
  ensure (nonempty expected) EValue "GC expected states are invalid".

(** Python's order on [(digest, size)] tuples. *)
Definition pair_le (p q : string * Z) : Prop :=
  p.1 ≠ q.1 ∧ String.le p.1 q.1 ∨ p.1 = q.1 ∧ (p.2 ≤ q.2)%Z.

#[export] Instance pair_le_dec : RelDecision pair_le.
Proof. intros p q. unfold pair_le. apply _. Defined.

Definition check_candidate (item : string * Z) : result unit :=
  check_digest item.1 "GC candidate digest";;
  ensure (1 <=? item.2)%Z EValue "GC candidate size is invalid".

Definition normalize_candidates (value : list (string * Z)) : result (list (string * Z)) :=
  ensure (nonempty value) EValue "GC candidates are invalid";;
  each check_candidate value;;
  let normalized := merge_sort pair_le value in
  ensure (distinct (normalized.*1)) EValue "GC candidates are duplicated";;
  mret normalized.

(** ** Records of rows *)

Definition operation_record (operation_id : string) (row : operation_row) : OperationRecord :=
  OperationRec operation_id (op_attempt row) (op_fence row) (op_phase row) (op_cancel row).

Definition objects_of (d : db) (generation_id : string) : gset string :=
  set_map snd (filter (λ p : string * string, p.1 = generation_id) (generation_objects d)).

Definition generation_record (d : db) (generation_id : string) (row : generation_row) : GenerationRecord :=
  GenerationRec generation_id (gen_deployment row) (gen_release row) (gen_state row)
    (py_sorted (elements (objects_of d generation_id))).

Definition gc_intent_record (intent_id : string) (row : intent_row) : GcIntentRecord :=
  GcIntentRec intent_id (int_target row) (int_dry_run row) (int_state row).

Definition candidate_le (a b : GcCandidateRecord) : Prop :=
  String.le (gc_digest a) (gc_digest b).

#[export] Instance candidate_le_dec : RelDecision candidate_le.
Proof. intros a b. unfold candidate_le. apply _. Defined.

Definition gc_candidate_rows (d : db) (intent_id : string) : list GcCandidateRecord :=
  merge_sort candidate_le
    ((λ p : (string * string) * candidate_row,
        GcCandidateRec p.1.2 (cnd_size p.2) (cnd_state p.2)) <$>
     filter (λ p : (string * string) * candidate_row, p.1.1 = intent_id)
       (map_to_list (gc_candidates d))).

Definition gc_owner (o : owner) (b : OperationBinding) : M db unit :=
  ensure_state (eqb o (owner_of b)) "GC intent ownership is invalid".

(** [_assert_binding]: the row of a binding that still owns its operation. *)
Definition assert_binding (b : OperationBinding) : M db operation_row :=
  d ← get;
  match operations d !! operation_id b with
  | None => conflict "operation is not journaled"
  | Some row =>
      ensure_state (eqb (op_job row) (job_id b) && eqb (op_node row) (node_id b))
        "operation identity disagrees with journal";;
      ensure_state (negb (attempt b <? op_attempt row)%Z) "operation attempt is stale";;
      ensure_state ((attempt b =? op_attempt row)%Z && eqb (fence b) (op_fence row))
        "operation fence disagrees with journal";;
      mret row
  end.

(** ** Operations *)

Definition begin_operation (b : OperationBinding) (phase : string) : M db OperationRecord :=
  lift (check_binding b);;
  lift (check_phase phase);;
  transaction (
    d ← get;
    let row' := OperationRow (job_id b) (node_id b) (attempt b) (fence b) phase false in
    match operations d !! operation_id b with
    | None =>
        modify (set_operations <[operation_id b := row']>);;
        mret (operation_record (operation_id b) row')
    | Some row =>
        ensure_state (eqb (op_job row) (job_id b) && eqb (op_node row) (node_id b))
          "operation identity disagrees with journal";;
        ensure_state (negb (attempt b <? op_attempt row)%Z) "operation attempt is stale";;
        if (attempt b =? op_attempt row)%Z then
          ensure_state (eqb (fence b) (op_fence row)) "operation fence disagrees with journal";;
          mret (operation_record (operation_id b) row)
        else
          modify (set_operations <[operation_id b := row']>);;
          modify (set_reservations (delete (operation_id b)));;
          mret (operation_record (operation_id b) row')
    end).

Definition operation (b : OperationBinding) : M db OperationRecord :=
  lift (check_binding b);;
  row ← assert_binding b;
  mret (operation_record (operation_id b) row).

Definition with_phase (phase : string) (row : operation_row) : operation_row :=
  OperationRow (op_job row) (op_node row) (op_attempt row) (op_fence row) phase (op_cancel row).

Definition set_phase (b : OperationBinding) (phase : string) : M db OperationRecord :=
  lift (check_binding b);;
  lift (check_phase phase);;
  transaction (
    assert_binding b;;
    modify (set_operations (alter (with_phase phase) (operation_id b))));;
  operation b.

Definition with_cancel (row : operation_row) : operation_row :=
  OperationRow (op_job row) (op_node row) (op_attempt row) (op_fence row) (op_phase row) true.

Definition request_cancel (b : OperationBinding) : M db unit :=
  lift (check_binding b);;
  transaction (
    assert_binding b;;
    modify (set_operations (alter with_cancel (operation_id b)))).

(** ** Generations *)

(** SQLite gives a new row the largest [rowid] plus one. *)
Definition next_rowid (d : db) : Z :=
  (1 + foldr Z.max 0 ((λ p : string * generation_row, gen_rowid p.2) <$> map_to_list (generations d)))%Z.

Definition record_generation (b : OperationBinding)
    (deployment_id generation_id release_digest : string)
    (object_digests : list string) (state : generation_state) : M db unit :=
  lift (check_binding b);;
  lift (check_identifier deployment_id "deployment ID");;
  lift (check_identifier generation_id "generation ID");;
  lift (check_digest release_digest "release digest");;
  lift (ensure (nonempty object_digests && distinct object_digests) EValue
    "generation object digests are invalid");;
  lift (each (λ digest, check_digest digest "generation object digest") object_digests);;
  transaction (
    assert_binding b;;
    d ← get;
    let existing := generations d !! generation_id in
    ensure_state (match existing with
                  | Some row => eqb (gen_owner row) (owner_of b)
                  | None => true
                  end) "generation ownership is invalid";;
    let row' := match existing with
                | Some row => GenerationRow (gen_rowid row) deployment_id release_digest state (gen_owner row)
                | None => GenerationRow (next_rowid d) deployment_id release_digest state (owner_of b)
                end in
    modify (set_generations <[generation_id := row']>);;
    modify (set_generation_objects (filter (λ p : string * string, p.1 ≠ generation_id)));;
    modify (set_generation_objects
      (λ objects, objects ∪ list_to_set (pair generation_id <$> object_digests)))).

(** The upsert of a lease extends it only for the owner that took it. *)
Definition acquire_lease (b : OperationBinding) (lease_id generation_id : string)
    (expires_at_ns : Z) : M db unit :=
  lift (check_binding b);;
  lift (check_uuid4 lease_id "lease ID");;
  lift (check_identifier generation_id "generation ID");;
  lift (ensure (1 <=? expires_at_ns)%Z EValue "lease expiry is invalid");;
  transaction (
    assert_binding b;;
    d ← get;
    ensure_state (is_Some_b (generations d !! generation_id)) "lease generation is unknown";;
    lift (sqlite_int expires_at_ns);;
    match leases d !! lease_id with
    | None =>
        modify (set_leases <[lease_id := LeaseRow generation_id expires_at_ns (owner_of b)]>)
    | Some row =>
        if eqb (lease_owner row) (owner_of b) then
          modify (set_leases <[lease_id :=
            LeaseRow (lease_generation row) expires_at_ns (lease_owner row)]>)
        else mret ()
    end).

Definition generation (generation_id : string) : M db (option GenerationRecord) :=
  lift (check_identifier generation_id "generation ID");;
  d ← get;
  mret (generation_record d generation_id <$> generations d !! generation_id).

(** The rows of a query on [generations]. *)
Definition select_generations (d : db) (P : string → generation_row → bool)
    : list (string * generation_row) :=
  filter (λ p : string * generation_row, P p.1 p.2 = true) (map_to_list (generations d)).

Definition generation_id_le (p q : string * generation_row) : Prop := String.le p.1 q.1.

#[export] Instance generation_id_le_dec : RelDecision generation_id_le.
Proof. intros p q. unfold generation_id_le. apply _. Defined.

Definition list_generations (deployment_id : option string) : M db (list GenerationRecord) :=
  match deployment_id with
  | Some deployment => lift (check_identifier deployment "deployment ID")
  | None => mret ()
  end;;
  d ← get;
  let rows := select_generations d (λ _ row,
    match deployment_id with
    | Some deployment => eqb (gen_deployment row) deployment
    | None => true
    end) in
  mret ((λ p : string * generation_row, generation_record d p.1 p.2) <$>
        merge_sort generation_id_le rows).

Definition with_state (state : generation_state) (b : OperationBinding) (row : generation_row)
    : generation_row :=
  GenerationRow (gen_rowid row) (gen_deployment row) (gen_release row) state (owner_of b).

Definition transition_generation (b : OperationBinding) (generation_id : string)
    (expected_states : list generation_state) (state : generation_state)
    : M db GenerationRecord :=
  lift (check_binding b);;
  lift (check_identifier generation_id "generation ID");;
  lift (check_state_set expected_states "generation expected states");;
  transaction (
    assert_binding b;;
    d ← get;
    match generations d !! generation_id with
    | None => conflict "generation is unknown"
    | Some row =>
        ensure_state (eqb (gen_state row) state || among (gen_state row) expected_states)
          "generation state changed concurrently";;
        modify (set_generations <[generation_id := with_state state b row]>);;
        d ← get;
        mret (generation_record d generation_id (with_state state b row))
    end).

(** States that keep a generation's objects alive without a lease. *)
Definition rooted_state (s : generation_state) : bool :=
  among s [GStaging; GValidated; GActive; GRetained; GStaged; GRollback; GPinned].

Definition live_lease (d : db) (generation_id : string) (now_ns : Z) : bool :=
  existsb (λ p : string * lease_row,
      eqb (lease_generation p.2) generation_id && (now_ns <=? lease_expires p.2)%Z)
    (map_to_list (leases d)).

Definition rooted_generation (d : db) (now_ns : Z) (generation_id : string) : bool :=
  match generations d !! generation_id with
  | Some row => rooted_state (gen_state row) || live_lease d generation_id now_ns
  | None => false
  end.

Definition reachable_set (d : db) (now_ns : Z) : gset string :=
  set_map snd (filter (λ p : string * string, rooted_generation d now_ns p.1 = true)
                 (generation_objects d)).

Definition reachable_objects (now_ns : Z) : M db (gset string) :=
  lift (ensure (0 <=? now_ns)%Z EValue "reachability time is invalid");;
  lift (sqlite_int now_ns);;
  d ← get;
  mret (reachable_set d now_ns).

(** [ORDER BY rowid DESC LIMIT 1]. *)
Definition latest (rows : list (string * generation_row)) : option (string * generation_row) :=
  best (λ p q : string * generation_row, gen_rowid q.2 <? gen_rowid p.2)%Z rows.

(** A query without [ORDER BY] scans the table in [rowid] order. *)
Definition earliest (rows : list (string * generation_row)) : option (string * generation_row) :=
  best (λ p q : string * generation_row, gen_rowid p.2 <? gen_rowid q.2)%Z rows.

Definition record_of (d : db) (row : option (string * generation_row)) : option GenerationRecord :=
  (λ p, generation_record d p.1 p.2) <$> row.

Definition generation_for_release (deployment_id release_digest : string)
    : M db (option GenerationRecord) :=
  lift (check_identifier deployment_id "deployment ID");;
  lift (check_digest release_digest "release digest");;
  d ← get;
  mret (record_of d (latest (select_generations d (λ _ row,
    eqb (gen_deployment row) deployment_id && eqb (gen_release row) release_digest)))).

Definition active_generation (deployment_id : string) : M db (option GenerationRecord) :=
  lift (check_identifier deployment_id "deployment ID");;
  d ← get;
  mret (record_of d (latest (select_generations d (λ _ row,
    eqb (gen_deployment row) deployment_id && eqb (gen_state row) GActive)))).

Definition has_live_lease (generation_id : string) (now_ns : Z) : M db bool :=
  lift (check_identifier generation_id "generation ID");;
  lift (ensure (0 <=? now_ns)%Z EValue "lease time is invalid");;
  lift (sqlite_int now_ns);;
  d ← get;
  mret (live_lease d generation_id now_ns).

Definition has_generation_reference (release_digest : string)
    (excluding_generation : option string) (now_ns : Z) : M db bool :=
  lift (check_digest release_digest "release digest");;
  match excluding_generation with
  | Some g => lift (check_identifier g "generation ID")
  | None => mret ()
  end;;
  lift (ensure (0 <=? now_ns)%Z EValue "lease time is invalid");;
  lift (sqlite_int now_ns);;
  d ← get;
  mret (nonempty (select_generations d (λ g row,
    eqb (gen_release row) release_digest
    && match excluding_generation with Some x => negb (eqb g x) | None => true end
    && (negb (among (gen_state row) [GFailed; GQuarantined; GInactive])
        || live_lease d g now_ns)))).

Definition activate_generation (b : OperationBinding) (generation_id : string)
    : M db (option GenerationRecord) :=
  lift (check_binding b);;
  lift (check_identifier generation_id "generation ID");;
  transaction (
    assert_binding b;;
    d ← get;
    match generations d !! generation_id with
    | None => conflict "generation is not activatable"
    | Some target =>
        ensure_state (among (gen_state target) [GValidated; GRetained; GActive])
          "generation is not activatable";;
        let previous := earliest (select_generations d (λ g row,
          eqb (gen_deployment row) (gen_deployment target)
          && eqb (gen_state row) GActive && negb (eqb g generation_id))) in
        match previous with
        | Some p => modify (set_generations <[p.1 := with_state GRetained b p.2]>)
        | None => mret ()
        end;;
        modify (set_generations <[generation_id := with_state GActive b target]>);;
        d' ← get;
        mret (record_of d' previous)
    end).

(** ** Garbage-collection intents *)

Definition record_gc_intent (b : OperationBinding) (intent_id : string)
    (target_bytes : Z) (dry_run : bool) : M db unit :=
  lift (check_binding b);;
  lift (check_uuid4 intent_id "GC intent ID");;
  lift (ensure (1 <=? target_bytes)%Z EValue "GC intent is invalid");;
  transaction (
    assert_binding b;;
    d ← get;
    match gc_intents d !! intent_id with
    | Some row =>
        ensure_state ((int_target row =? target_bytes)%Z && Bool.eqb (int_dry_run row) dry_run
                      && eqb (int_owner row) (owner_of b))
          "GC intent replay is inconsistent"
    | None =>
        lift (sqlite_int target_bytes);;
        modify (set_intents <[intent_id := IntentRow target_bytes dry_run GcPlanned (owner_of b)]>)
    end).

Definition gc_intent (b : OperationBinding) (intent_id : string) : M db (option GcIntentRecord) :=
  lift (check_binding b);;
  lift (check_uuid4 intent_id "GC intent ID");;
  assert_binding b;;
  d ← get;
  match gc_intents d !! intent_id with
  | None => mret None
  | Some row =>
      gc_owner (int_owner row) b;;
      mret (Some (gc_intent_record intent_id row))
  end.

Definition with_gc_state (state : gc_state) (row : intent_row) : intent_row :=
  IntentRow (int_target row) (int_dry_run row) state (int_owner row).

Definition transition_gc_intent (b : OperationBinding) (intent_id : string)
    (expected_states : list gc_state) (state : gc_state) : M db GcIntentRecord :=
  lift (check_binding b);;
  lift (check_uuid4 intent_id "GC intent ID");;
  lift (check_gc_state_set expected_states);;
  transaction (
    assert_binding b;;
    d ← get;
    match gc_intents d !! intent_id with
    | None => conflict "GC intent is unknown"
    | Some row =>
        gc_owner (int_owner row) b;;
        ensure_state (eqb (int_state row) state || among (int_state row) expected_states)
          "GC intent state changed concurrently";;
        modify (set_intents <[intent_id := with_gc_state state row]>);;
        mret (gc_intent_record intent_id (with_gc_state state row))
    end).

(** The owned intent of a candidate operation. *)
Definition owned_intent (b : OperationBinding) (intent_id : string) : M db unit :=
  assert_binding b;;
  d ← get;
  match gc_intents d !! intent_id with
  | None => conflict "GC intent is unknown"
  | Some row => gc_owner (int_owner row) b
  end.

Definition insert_candidates (intent_id : string) (items : list (string * Z))
    (m : gmap (string * string) candidate_row) : gmap (string * string) candidate_row :=
  foldr (λ item m, <[(intent_id, item.1) := CandidateRow item.2 CandPending]> m) m items.

Definition plan_gc_candidates (b : OperationBinding) (intent_id : string)
    (candidates : list (string * Z)) : M db (list GcCandidateRecord) :=
  lift (check_binding b);;
  lift (check_uuid4 intent_id "GC intent ID");;
  normalized ← lift (normalize_candidates candidates);
  transaction (
    owned_intent b intent_id;;
    d ← get;
    let existing := gc_candidate_rows d intent_id in
    if nonempty existing then
      ensure_state (bool_decide ((λ c, (gc_digest c, gc_size c)) <$> existing = normalized))
        "GC candidate plan is immutable";;
      mret existing
    else
      lift (each sqlite_int (normalized.*2));;
      modify (set_candidates (insert_candidates intent_id normalized));;
      d' ← get;
      mret (gc_candidate_rows d' intent_id)).

Definition list_gc_candidates (b : OperationBinding) (intent_id : string)
    : M db (list GcCandidateRecord) :=
  lift (check_binding b);;
  lift (check_uuid4 intent_id "GC intent ID");;
  owned_intent b intent_id;;
  d ← get;
  mret (gc_candidate_rows d intent_id).

Definition mark_gc_candidate (b : OperationBinding) (intent_id digest : string)
    (state : candidate_state) : M db GcCandidateRecord :=
  lift (check_binding b);;
  lift (check_uuid4 intent_id "GC intent ID");;
  lift (check_digest digest "GC candidate digest");;
  transaction (
    owned_intent b intent_id;;
    d ← get;
    match gc_candidates d !! (intent_id, digest) with
    | None => conflict "GC candidate is unknown"
    | Some row =>
        ensure_state (eqb (cnd_state row) state || eqb (cnd_state row) CandPending)
          "GC candidate state changed concurrently";;
        modify (set_candidates <[(intent_id, digest) := CandidateRow (cnd_size row) state]>);;
        mret (GcCandidateRec digest (cnd_size row) state)
    end).

(** ** Derived objects *)

Definition record_derived (b : OperationBinding) (derivation_digest object_digest : string)
    : M db unit :=
  lift (check_binding b);;
  lift (check_digest derivation_digest "derivation digest");;
  lift (check_digest object_digest "derived object digest");;
  transaction (
    assert_binding b;;
    d ← get;
    match derived_objects d !! derivation_digest with
    | Some row =>
        ensure_state (eqb (drv_object row) object_digest && eqb (drv_owner row) (owner_of b))
          "derived object mapping is immutable"
    | None =>
        modify (set_derived <[derivation_digest := DerivedRow object_digest (owner_of b)]>)
    end).

Definition lookup_derived (derivation_digest : string) : M db (option string) :=
  lift (check_digest derivation_digest "derivation digest");;
  d ← get;
  mret (drv_object <$> derived_objects d !! derivation_digest).

(** [DELETE FROM components WHERE ...] cascades to [partials]. *)
Definition delete_components (P : string → component_row → bool) (d : db) : db :=
  let kept := filter (λ p : string * component_row, P p.1 p.2 = false) (components d) in
  set_partials (filter (λ p : string * partial_row, is_Some (kept !! p.1)))
    (set_components (λ _, kept) d).

Definition forget_object (b : OperationBinding) (object_digest : string) : M db unit :=
  lift (check_binding b);;
  lift (check_digest object_digest "object digest");;
  transaction (
    assert_binding b;;
    modify (set_derived (filter (λ p : string * derived_row, drv_object p.2 ≠ object_digest)));;
    modify (delete_components (λ digest row,
      eqb digest object_digest && eqb (comp_state row) CompComplete))).
