(* ===== verification/PackageStore.v ===== *)
(** * The content store ([agent/src/vonk_agent/packages/store.py])

    The part of [ContentStore] that the garbage collector and the engine call:
    capacity reservations, verified lookup, deletion and quarantine of objects.
    The directory [objects/sha256] is a map from a file name to what [fstat] and
    the content hash say about it; [quarantine/] is the list of what was moved
    there. Resumable downloads (the table [partials] and its files) are not
    modelled, nor are failing system calls and the advisory lock file.

    [sys_capacity] is the configured capacity, [sys_available] what [statvfs]
    reports for the file system. *)

From S2P Require Import Prelude Identifiers PackageState.

Inductive file_kind := FRegular | FSymlink | FOther.

#[export] Instance file_kind_eq_dec : EqDecision file_kind.
Proof. solve_decision. Defined.

(** [file_trusted]: one link, a trusted owner and mode 0444. *)
Record file := File {
  file_type : file_kind; file_trusted : bool; file_size : Z; file_hash : string
}.

Record store := Store {
  st_db : db;
  st_files : gmap string file;
  st_quarantine : list (string * file)
}.

Definition set_db (d : db) (s : store) : store := Store d (st_files s) (st_quarantine s).
Definition set_files (f : gmap string file → gmap string file) (s : store) : store :=
  Store (st_db s) (f (st_files s)) (st_quarantine s).

(** A call of the journal from the store. *)
Definition journal {A} (m : M db A) : M store A := zoom st_db set_db m.

Record Reservation := Reserved { rsv_binding : OperationBinding; bytes_reserved : Z }.

Record StoreObject := Stored {
  so_digest : string; so_size : Z; so_kind : string; so_relative_name : string
}.

#[export] Instance StoreObject_eq_dec : EqDecision StoreObject.
Proof. solve_decision. Defined.

Definition max_component_bytes : Z := 16 * 1024 ^ 4.

(** [value.removeprefix("sha256:")], then the digest check. *)
Definition remove_prefix (p s : string) : string :=
  if String.prefix p s
  then String.substring (String.length p) (String.length s - String.length p) s else s.

Definition raw_digest (value : string) : result string :=
  let digest := remove_prefix "sha256:" value in
  ensure (is_digest digest) EValue "component digest is invalid";;
  mret digest.

Definition object_name (digest : string) : string := "objects/sha256/" +:+ digest.

Definition store_error {A} (m : string) : M store A := throw EPackageStore m.

Definition file_ok (f : file) : bool := eqb (file_type f) FRegular && file_trusted f.

Definition validate_object_at (files : gmap string file) (name : string) (size : Z)
    (digest : string) : result unit :=
  match files !! name with
  | None => raise EPackageStore "verified component is missing or unsafe"
  | Some f =>
      ensure (negb (eqb (file_type f) FSymlink)) EPackageStore
        "verified component is missing or unsafe";;
      ensure (file_ok f && (file_size f =? size)%Z && eqb (file_hash f) digest)
        EPackageStore "verified component is unsafe or corrupt"
  end.

(** ** Capacity *)

Definition committed_bytes (d : db) : Z :=
  sum_Z ((λ p : string * component_row, comp_size p.2) <$>
    filter (λ p : string * component_row, comp_state p.2 = CompComplete)
      (map_to_list (components d))).

Definition reserved_bytes (d : db) : Z :=
  sum_Z ((λ p : string * reservation_row, rsv_bytes p.2) <$> map_to_list (reservations d)).

Section with_system.
Context (sys_capacity : option Z) (sys_available : Z).

Definition logical_capacity : Z :=
  match sys_capacity with Some c => c | None => sys_available end.

Definition reserve (b : OperationBinding) (bytes_required : Z) : M db Reservation :=
  lift (ensure ((0 <=? bytes_required)%Z && (bytes_required <=? max_component_bytes)%Z)
    EValue "package reservation size is invalid");;
  begin_operation b "reserve";;
  transaction (
    assert_binding b;;
    d ← get;
    match reservations d !! operation_id b with
    | Some row =>
        ensure_state ((rsv_attempt row =? attempt b)%Z && eqb (rsv_fence row) (fence b)
                      && (rsv_bytes row =? bytes_required)%Z)
          "capacity reservation disagrees with operation fence"
    | None =>
        lift (ensure (committed_bytes d + reserved_bytes d + bytes_required
                        <=? logical_capacity)%Z EPackageCapacity
          "package store capacity is insufficient");;
        lift (ensure (bytes_required <=? sys_available)%Z EPackageCapacity
          "package store filesystem is full");;
        modify (set_reservations <[operation_id b :=
          ReservationRow (attempt b) (fence b) bytes_required]>)
    end);;
  mret (Reserved b bytes_required).

Definition release_reservation (r : Reservation) : M db unit :=
  transaction (
    assert_binding (rsv_binding r);;
    d ← get;
    match reservations d !! operation_id (rsv_binding r) with
    | None => mret ()
    | Some row =>
        ensure_state ((rsv_attempt row =? attempt (rsv_binding r))%Z
                      && eqb (rsv_fence row) (fence (rsv_binding r))
                      && (rsv_bytes row =? bytes_reserved r)%Z)
          "capacity reservation disagrees with operation fence";;
        modify (set_reservations (delete (operation_id (rsv_binding r))))
    end).
End with_system.

(** ** Objects *)

Definition check_object (files : gmap string file) (digest : string) (row : component_row)
    : result StoreObject :=
  ensure (eqb (comp_relative_name row) (Some (object_name digest))) EPackageStore
    "verified component path is invalid";;
  validate_object_at files digest (comp_size row) digest;;
  mret (Stored digest (comp_size row) (comp_kind row) (object_name digest)).

Definition lookup_object (value : string) (size : option Z) : M store (option StoreObject) :=
  digest ← lift (raw_digest value);
  lift (ensure (match size with Some n => (0 <=? n)%Z | None => true end) EValue
    "component lookup size is invalid");;
  s ← get;
  match components (st_db s) !! digest with
  | None => mret None
  | Some row =>
      if negb (eqb (comp_state row) CompComplete) then mret None
      else
        lift (ensure (match size with Some n => (comp_size row =? n)%Z | None => true end)
          EPackageStore "verified component size is inconsistent");;
        object ← lift (check_object (st_files s) digest row);
        mret (Some object)
  end.

Definition component_le (p q : string * component_row) : Prop := String.le p.1 q.1.

#[export] Instance component_le_dec : RelDecision component_le.
Proof. intros p q. unfold component_le. apply _. Defined.

Definition complete_components (d : db) : list (string * component_row) :=
  merge_sort component_le
    (filter (λ p : string * component_row, comp_state p.2 = CompComplete)
       (map_to_list (components d))).

Definition list_objects : M store (list StoreObject) :=
  s ← get;
  lift (traverse (λ p : string * component_row,
    digest ← raw_digest p.1;
    check_object (st_files s) digest p.2) (complete_components (st_db s))).

Definition delete_unreachable (b : OperationBinding) (value : string) (now_ns : Z) : M store Z :=
  digest ← lift (raw_digest value);
  lift (ensure (0 <=? now_ns)%Z EValue "GC timestamp is invalid");;
  journal (operation b);;
  reachable ← journal (reachable_objects now_ns);
  (if bool_decide (digest ∈ reachable)
   then store_error "reachable store object cannot be deleted" else mret ());;
  s ← get;
  match st_files s !! digest with
  | None =>
      journal (forget_object b digest);;
      mret 0%Z
  | Some f =>
      lift (ensure (file_ok f) EPackageStore "GC object path is unsafe");;
      lift (validate_object_at (st_files s) digest (file_size f) digest);;
      modify (set_files (delete digest));;
      journal (forget_object b digest);;
      mret (file_size f)
  end.

Definition store_record_derived (b : OperationBinding) (derivation_digest object_digest : string)
    : M store unit :=
  stored ← lookup_object object_digest None;
  match stored with
  | None => store_error "derived store object is unavailable"
  | Some object =>
      derivation ← lift (raw_digest derivation_digest);
      journal (record_derived b derivation (so_digest object))
  end.

Definition store_lookup_derived (derivation_digest : string) : M store (option StoreObject) :=
  derivation ← lift (raw_digest derivation_digest);
  object ← journal (lookup_derived derivation);
  match object with
  | None => mret None
  | Some digest => lookup_object digest None
  end.

Definition forget_corrupt (b : OperationBinding) (value : string) : M store unit :=
  digest ← lift (raw_digest value);
  s ← get;
  lift (ensure (is_None_b (st_files s !! digest)) EPackageStore
    "corrupt store object must be quarantined first");;
  journal (forget_object b digest).

(** [time_ns] is the clock, [token] the random suffix of the quarantined name. *)
Definition quarantine_corrupt (time_ns : Z) (token : string) (b : OperationBinding)
    (value : string) : M store string :=
  digest ← lift (raw_digest value);
  journal (operation b);;
  reachable ← journal (reachable_objects time_ns);
  (if bool_decide (digest ∈ reachable)
   then store_error "reachable store object cannot be quarantined" else mret ());;
  s ← get;
  match st_files s !! digest with
  | None => store_error "corrupt store object cannot be quarantined"
  | Some f =>
      lift (ensure (file_ok f) EPackageStore "corrupt store object path is unsafe");;
      let name := digest +:+ "." +:+ token +:+ ".corrupt" in
      modify (λ s, Store (st_db s) (delete digest (st_files s))
                     ((name, f) :: st_quarantine s));;
      forget_corrupt b digest;;
      mret ("quarantine/" +:+ name)
  end.
