(* ===== verification/PackageJournal.v ===== *)
(** * Theorems on the package journal

    [call] enumerates every method of the journal that writes the database and the
    reservations of the store, [run] executes one, and [step] is the transition system
    of all of them. [store_call] adds the methods of the store on its files that take
    a binding: deletion, derived objects, quarantine. (Downloads and the promotion of
    components are not modelled.) The theorems hold for any sequence of calls: attempts and fences
    ([fenced]), superseded bindings ([stale]), the schema ([wf]) and the
    generation that serves a deployment ([single_active]). *)

From S2P Require Import Prelude Identifiers PackageState PackageStore.

Inductive call :=
| CBegin (b : OperationBinding) (phase : string)
| CSetPhase (b : OperationBinding) (phase : string)
| CRequestCancel (b : OperationBinding)
| CRecordGeneration (b : OperationBinding) (deployment generation release : string)
    (objects : list string) (state : generation_state)
| CAcquireLease (b : OperationBinding) (lease generation : string) (expires : Z)
| CTransition (b : OperationBinding) (generation : string)
    (expected : list generation_state) (state : generation_state)
| CActivate (b : OperationBinding) (generation : string)
| CRecordIntent (b : OperationBinding) (intent : string) (target : Z) (dry_run : bool)
| CTransitionIntent (b : OperationBinding) (intent : string)
    (expected : list gc_state) (state : gc_state)
| CPlanCandidates (b : OperationBinding) (intent : string) (candidates : list (string * Z))
| CMarkCandidate (b : OperationBinding) (intent digest : string) (state : candidate_state)
| CRecordDerived (b : OperationBinding) (derivation object : string)
| CForget (b : OperationBinding) (object : string)
| CReserve (capacity : option Z) (available : Z) (b : OperationBinding) (bytes : Z)
| CRelease (r : Reservation).

Definition call_binding (c : call) : OperationBinding :=
  match c with
  | CBegin b _ | CSetPhase b _ | CRequestCancel b | CRecordGeneration b _ _ _ _ _
  | CAcquireLease b _ _ _ | CTransition b _ _ _ | CActivate b _ | CRecordIntent b _ _ _
  | CTransitionIntent b _ _ _ | CPlanCandidates b _ _ | CMarkCandidate b _ _ _
  | CRecordDerived b _ _ | CForget b _ | CReserve _ _ b _ => b
  | CRelease r => rsv_binding r
  end.

Definition run (c : call) : M db unit :=
  match c with
  | CBegin b phase => begin_operation b phase;; mret ()
  | CSetPhase b phase => set_phase b phase;; mret ()
  | CRequestCancel b => request_cancel b
  | CRecordGeneration b dep gen rel objs st => record_generation b dep gen rel objs st
  | CAcquireLease b lease gen expires => acquire_lease b lease gen expires
  | CTransition b gen expected st => transition_generation b gen expected st;; mret ()
  | CActivate b gen => activate_generation b gen;; mret ()
  | CRecordIntent b intent target dry => record_gc_intent b intent target dry
  | CTransitionIntent b intent expected st => transition_gc_intent b intent expected st;; mret ()
  | CPlanCandidates b intent cands => plan_gc_candidates b intent cands;; mret ()
  | CMarkCandidate b intent digest st => mark_gc_candidate b intent digest st;; mret ()
  | CRecordDerived b derivation object => record_derived b derivation object
  | CForget b object => forget_object b object
  | CReserve capacity available b bytes => reserve capacity available b bytes;; mret ()
  | CRelease r => release_reservation r
  end.

Inductive step : db → db → Prop :=
| step_call c d : step d (run c d).2.

(** ** The binding check *)

Definition owns (b : OperationBinding) (row : operation_row) : Prop :=
  op_job row = job_id b ∧ op_node row = node_id b
  ∧ op_attempt row = attempt b ∧ op_fence row = fence b.

Lemma assert_binding_ok b d row d' :
  assert_binding b d = (Ok row, d') →
  d' = d ∧ operations d !! operation_id b = Some row ∧ owns b row.
Proof.
  unfold assert_binding, ensure_state, conflict. intros H. inv_run_all.
  destruct (operations d !! operation_id b) as [r|] eqn:Hr; inv_run_all; bool_facts.
  unfold owns. naive_solver lia.
Qed.

Lemma assert_binding_reads b d : (assert_binding b d).2 = d.
Proof.
  enough (moves eq (assert_binding b)) as H by (symmetry; apply H).
  unfold assert_binding, conflict, ensure_state. solve_moves.
Qed.

(** Invert a successful call and name what its binding check found. *)
Ltac inv_call :=
  unfold owned_intent, gc_owner, conflict, ensure_state, begin_operation, operation in *;
  inv_run_all;
  repeat (match goal with
  | H : assert_binding _ _ = (Ok _, _) |- _ =>
      apply assert_binding_ok in H as (-> & ? & ?)
  | H : match ?x with _ => _ end _ = (Ok _, _) |- _ => destruct x eqn:?
  end; inv_run_all); bool_facts.

(** ** Superseded bindings cannot write *)

Definition stale (b : OperationBinding) (d : db) : Prop :=
  ∃ row, operations d !! operation_id b = Some row ∧ (attempt b < op_attempt row)%Z.

Definition fails {S A} (d : S) (m : M S A) : Prop := ∃ e, m d = (Err e, d).

Create HintDb fencing discriminated.

Lemma fails_lift_bind {S A B} (d : S) (r : result A) (f : A → M S B) :
  (∀ a, fails d (f a)) → fails d (lift r ≫= f).
Proof. intros Hf. destruct r as [a|e]; [apply (Hf a)|]. by exists e. Qed.

Lemma fails_bind {S A B} (d : S) (m : M S A) (f : A → M S B) : fails d m → fails d (m ≫= f).
Proof. intros [e He]. exists e. by apply M_bind_err. Qed.

Lemma fails_transaction {S A} (d : S) (m : M S A) : fails d m → fails d (transaction m).
Proof. intros [e He]. exists e. unfold transaction. by rewrite He. Qed.

Lemma fails_assert b d : stale b d → fails d (assert_binding b).
Proof.
  intros (row & Hrow & Hlt). unfold fails, assert_binding, ensure_state, ensure.
  unfold mbind, M_bind, get, lift. rewrite Hrow.
  rewrite (proj2 (Z.ltb_lt _ _) Hlt). case_match; eauto.
Qed.

Lemma fails_begin b phase d : stale b d → fails d (begin_operation b phase).
Proof.
  intros (row & Hrow & Hlt). unfold begin_operation.
  apply fails_lift_bind; intros ?. apply fails_lift_bind; intros ?.
  apply fails_transaction. unfold fails, ensure_state, ensure.
  unfold mbind, M_bind, get, lift. rewrite Hrow.
  rewrite (proj2 (Z.ltb_lt _ _) Hlt). case_match; eauto.
Qed.

#[export] Hint Resolve fails_lift_bind fails_bind fails_transaction fails_assert
  fails_begin : fencing.

Lemma stale_fails c d : stale (call_binding c) d → fails d (run c).
Proof.
  destruct c; cbn -[begin_operation]; intros Hst;
    unfold set_phase, request_cancel, record_generation, acquire_lease,
      transition_generation, activate_generation, record_gc_intent, transition_gc_intent,
      plan_gc_candidates, mark_gc_candidate, record_derived, forget_object, owned_intent,
      reserve, release_reservation;
    eauto 20 with fencing.
Qed.

(** ** Attempts only grow *)

(** [fenced d d']: an operation keeps its identity, its attempt does not go
    back, and within one attempt the fence does not change and a cancellation
    request is not lost. *)
Definition fenced (d d' : db) : Prop :=
  ∀ id row, operations d !! id = Some row →
  ∃ row', operations d' !! id = Some row'
    ∧ op_job row' = op_job row ∧ op_node row' = op_node row
    ∧ (op_attempt row ≤ op_attempt row')%Z
    ∧ (op_attempt row' = op_attempt row →
       op_fence row' = op_fence row ∧ (op_cancel row = true → op_cancel row' = true)).

#[export] Instance fenced_preorder : PreOrder fenced.
Proof.
  split.
  - intros d id row Hrow. exists row. naive_solver lia.
  - intros d1 d2 d3 H12 H23 id row Hrow.
    destruct (H12 _ _ Hrow) as (r2 & Hr2 & ? & ? & ? & Hf2).
    destruct (H23 _ _ Hr2) as (r3 & Hr3 & ? & ? & ? & Hf3).
    exists r3. split_and!; [done|congruence|congruence|lia|].
    intros Heq. destruct Hf2 as [Hf2 Hc2]; [lia|]. destruct Hf3 as [Hf3 Hc3]; [lia|].
    split; [congruence|auto].
Qed.

Lemma fenced_same_operations d d' : operations d' = operations d → fenced d d'.
Proof. intros Heq id row Hrow. rewrite Heq. exists row. naive_solver lia. Qed.

(** Writing one row of [operations] that respects the old one. *)
Lemma fenced_insert d id row :
  (∀ old, operations d !! id = Some old →
     op_job row = op_job old ∧ op_node row = op_node old
     ∧ (op_attempt old ≤ op_attempt row)%Z
     ∧ (op_attempt row = op_attempt old →
        op_fence row = op_fence old ∧ (op_cancel old = true → op_cancel row = true))) →
  fenced d (set_operations <[id := row]> d).
Proof.
  intros H id' row' Hrow'. cbn. destruct (decide (id = id')) as [->|Hne].
  - exists row. rewrite lookup_insert_eq. split; [done|]. by apply H.
  - exists row'. rewrite lookup_insert_ne by done. naive_solver lia.
Qed.

Lemma fenced_alter d id f :
  (∀ row, op_job (f row) = op_job row ∧ op_node (f row) = op_node row
     ∧ op_attempt (f row) = op_attempt row ∧ op_fence (f row) = op_fence row
     ∧ (op_cancel row = true → op_cancel (f row) = true)) →
  fenced d (set_operations (alter f id) d).
Proof.
  intros Hf id' row Hrow. cbn. rewrite lookup_alter.
  destruct (decide (id = id')) as [->|Hne].
  - exists (f row). rewrite Hrow. destruct (Hf row) as (?&?&?&?&?).
    split_and!; auto with lia.
  - exists row. naive_solver lia.
Qed.

Lemma begin_operation_fenced b phase : moves fenced (begin_operation b phase).
Proof.
  unfold begin_operation. moves_to_commit.
  apply moves_committed; [exact _|]. intros d r d' Hrun. inv_call.
  - by apply fenced_same_operations.
  - etrans; [|by apply fenced_same_operations].
    apply fenced_insert. intros old Hold. simplify_eq. cbn. naive_solver lia.
  - apply fenced_insert. intros old Hold. congruence.
Qed.

Lemma operation_fenced b : moves fenced (operation b).
Proof.
  unfold operation, assert_binding, conflict, ensure_state. solve_moves.
Qed.

Lemma assert_binding_fenced b : moves fenced (assert_binding b).
Proof. unfold assert_binding, conflict, ensure_state. solve_moves. Qed.

#[export] Hint Resolve begin_operation_fenced operation_fenced assert_binding_fenced : py.

Lemma run_fenced c : moves fenced (run c).
Proof.
  destruct c; cbn -[begin_operation];
    unfold set_phase, request_cancel, record_generation, acquire_lease,
      transition_generation, activate_generation, record_gc_intent, transition_gc_intent,
      plan_gc_candidates, mark_gc_candidate, record_derived, forget_object, owned_intent,
      gc_owner, conflict, ensure_state, reserve, release_reservation;
    solve_moves; apply moves_modify; intros ?;
    solve [ by apply fenced_same_operations
          | apply fenced_alter; intros []; cbn; naive_solver ].
Qed.

(** ** The schema's constraints *)

(** The foreign keys and [CHECK] constraints of the schema, and distinct
    [rowid]s. *)
Record wf (d : db) : Prop := Wf {
  wf_operations : map_Forall (λ _ r, 1 ≤ op_attempt r)%Z (operations d);
  wf_reservations : map_Forall (λ id r, id ∈ dom (operations d) ∧ 0 ≤ rsv_bytes r)%Z (reservations d);
  wf_components : map_Forall (λ _ r, 0 ≤ comp_size r)%Z (components d);
  wf_partials : map_Forall (λ digest r, digest ∈ dom (components d)
    ∧ own_operation (par_owner r) ∈ dom (operations d) ∧ 0 ≤ par_bytes_written r)%Z (partials d);
  wf_derived : map_Forall (λ _ r, own_operation (drv_owner r) ∈ dom (operations d)) (derived_objects d);
  wf_generations : map_Forall (λ _ r, own_operation (gen_owner r) ∈ dom (operations d)) (generations d);
  wf_objects : ∀ p, p ∈ generation_objects d → p.1 ∈ dom (generations d);
  wf_leases : map_Forall (λ _ r, lease_generation r ∈ dom (generations d)
    ∧ own_operation (lease_owner r) ∈ dom (operations d) ∧ 1 ≤ lease_expires r)%Z (leases d);
  wf_intents : map_Forall (λ _ r, own_operation (int_owner r) ∈ dom (operations d)
    ∧ 1 ≤ int_target r)%Z (gc_intents d);
  wf_candidates : map_Forall (λ k r, k.1 ∈ dom (gc_intents d) ∧ 1 ≤ cnd_size r)%Z (gc_candidates d);
  wf_rowids : ∀ g1 g2 r1 r2, generations d !! g1 = Some r1 → generations d !! g2 = Some r2 →
    gen_rowid r1 = gen_rowid r2 → g1 = g2
}.

Lemma next_rowid_fresh d g r : generations d !! g = Some r → (gen_rowid r < next_rowid d)%Z.
Proof.
  intros Hg%elem_of_map_to_list. unfold next_rowid.
  induction (map_to_list (generations d)) as [|p l IH]; [by apply elem_of_nil in Hg|].
  cbn. apply elem_of_cons in Hg as [<-|Hg]; cbn; [lia|]. specialize (IH Hg). lia.
Qed.

(** Growing the set of operations or generations keeps every reference. *)
Lemma wf_grow_operations d id row :
  wf d → (1 ≤ op_attempt row)%Z → wf (set_operations <[id := row]> d).
Proof.
  intros [] Hrow.
  constructor; cbn; try done; rewrite ?dom_insert_L; [by apply map_Forall_insert_2|..];
    (eapply map_Forall_impl; [done|]); cbn; set_solver.
Qed.

Lemma wf_alter_operation d id f :
  wf d → (∀ row, op_attempt (f row) = op_attempt row) → wf (set_operations (alter f id) d).
Proof.
  intros [] Hf. constructor; cbn; try done; rewrite ?dom_alter_L; try done.
  intros id' row. rewrite lookup_alter. case_decide; [|by apply wf_operations0].
  intros (old & Hold & ->)%fmap_Some. rewrite Hf. by eapply wf_operations0.
Qed.

Lemma wf_set_generation d g row :
  wf d → own_operation (gen_owner row) ∈ dom (operations d) →
  (∀ g' r', generations d !! g' = Some r' → gen_rowid r' = gen_rowid row → g' = g) →
  wf (set_generations <[g := row]> d).
Proof.
  intros [] Ho Hid. constructor; cbn; try done; rewrite ?dom_insert_L.
  - by apply map_Forall_insert_2.
  - set_solver.
  - eapply map_Forall_impl; [done|]. cbn. set_solver.
  - intros g1 g2 r1 r2. rewrite !lookup_insert.
    repeat case_decide; naive_solver.
Qed.

Lemma wf_set_objects d f :
  wf d → (∀ p, p ∈ f (generation_objects d) → p.1 ∈ dom (generations d)) →
  wf (set_generation_objects f d).
Proof. intros [] Hf. by constructor. Qed.

Lemma wf_set_lease d l row :
  wf d → lease_generation row ∈ dom (generations d) →
  own_operation (lease_owner row) ∈ dom (operations d) → (1 ≤ lease_expires row)%Z →
  wf (set_leases <[l := row]> d).
Proof. intros [] ???. constructor; try done. by apply map_Forall_insert_2. Qed.

Lemma wf_set_intent d i row :
  wf d → own_operation (int_owner row) ∈ dom (operations d) → (1 ≤ int_target row)%Z →
  wf (set_intents <[i := row]> d).
Proof.
  intros [] ??. constructor; cbn; try done.
  - by apply map_Forall_insert_2.
  - rewrite dom_insert_L. eapply map_Forall_impl; [done|]. cbn. set_solver.
Qed.

Lemma wf_set_candidate d k row :
  wf d → k.1 ∈ dom (gc_intents d) → (1 ≤ cnd_size row)%Z →
  wf (set_candidates <[k := row]> d).
Proof. intros [] ??. constructor; try done. by apply map_Forall_insert_2. Qed.

Lemma wf_insert_candidates d i items :
  wf d → i ∈ dom (gc_intents d) → Forall (λ item, 1 ≤ item.2)%Z items →
  wf (set_candidates (insert_candidates i items) d).
Proof.
  intros Hwf Hi. induction 1 as [|item items Hitem _ IH]; [by destruct d|].
  by apply (wf_set_candidate (set_candidates (insert_candidates i items) d)).
Qed.

Lemma wf_set_derived d k row :
  wf d → own_operation (drv_owner row) ∈ dom (operations d) →
  wf (set_derived <[k := row]> d).
Proof. intros [] ?. constructor; try done. by apply map_Forall_insert_2. Qed.

Lemma wf_filter_derived d (P : string * derived_row → Prop) `{!∀ x, Decision (P x)} :
  wf d → wf (set_derived (filter P) d).
Proof.
  intros []. constructor; try done. cbn.
  intros k r [Hr _]%map_lookup_filter_Some. by eapply wf_derived0.
Qed.

Lemma wf_delete_components d P : wf d → wf (delete_components P d).
Proof.
  intros []. constructor; cbn; try done.
  - intros k r [Hr _]%map_lookup_filter_Some. by eapply wf_components0.
  - intros k r [Hr Hk]%map_lookup_filter_Some. rewrite elem_of_dom.
    destruct (wf_partials0 k r Hr) as (_ & ? & ?). done.
Qed.

Lemma wf_set_reservation d id row :
  wf d → id ∈ dom (operations d) → (0 ≤ rsv_bytes row)%Z →
  wf (set_reservations <[id := row]> d).
Proof. intros [] ??. constructor; try done. by apply map_Forall_insert_2. Qed.

Lemma wf_drop_reservation d id : wf d → wf (set_reservations (delete id) d).
Proof. intros []. constructor; try done. cbn. by apply map_Forall_delete. Qed.

Lemma wf_empty : wf empty_db.
Proof. by constructor; try (intros; set_solver). Qed.

Lemma binding_in_operations b (d : db) row :
  operations d !! operation_id b = Some row → operation_id b ∈ dom (operations d).
Proof. intros H. by apply elem_of_dom_2 in H. Qed.

#[export] Hint Resolve wf_grow_operations wf_alter_operation wf_set_generation wf_set_objects
  wf_set_lease wf_set_intent wf_set_candidate wf_insert_candidates wf_set_derived wf_filter_derived wf_delete_components
  wf_set_reservation wf_drop_reservation binding_in_operations : wf.

Lemma earliest_elem d P p :
  earliest (select_generations d P) = Some p →
  generations d !! p.1 = Some p.2 ∧ P p.1 p.2 = true.
Proof.
  intros H%best_elem. unfold select_generations in H.
  apply list_elem_of_filter in H as [HP Hp]. destruct p. by apply elem_of_map_to_list in Hp.
Qed.

Lemma latest_elem d P p :
  latest (select_generations d P) = Some p →
  generations d !! p.1 = Some p.2 ∧ P p.1 p.2 = true.
Proof.
  intros H%best_elem. unfold select_generations in H.
  apply list_elem_of_filter in H as [HP Hp]. destruct p. by apply elem_of_map_to_list in Hp.
Qed.

(** Rewriting a generation's row under its own [rowid]. *)
Lemma wf_update_generation d g row st b row' :
  wf d → generations d !! g = Some row → operations d !! operation_id b = Some row' →
  wf (set_generations <[g := with_state st b row]> d).
Proof.
  intros Hwf Hg Hb. apply wf_set_generation; [done|by apply binding_in_operations in Hb|].
  intros g' r' Hg' Heq. by eapply (wf_rowids d).
Qed.

#[export] Hint Resolve wf_update_generation : wf.

Lemma check_binding_attempt b u : check_binding b = Ok u → (1 ≤ attempt b)%Z.
Proof. unfold check_binding, check_uuid4. intros H. inv_run_all. bool_facts. lia. Qed.

Lemma begin_operation_wf b phase : preserves wf (begin_operation b phase).
Proof.
  unfold begin_operation. moves_to_commit.
  apply moves_committed; [intros ?; done|]. intros d r d' Hrun Hwf.
  match goal with H : check_binding _ = Ok _ |- _ => apply check_binding_attempt in H end.
  inv_call; subst; auto with wf.
Qed.

Lemma operation_wf b : preserves wf (operation b).
Proof. unfold operation, assert_binding, conflict, ensure_state. solve_moves. Qed.

#[export] Hint Resolve begin_operation_wf operation_wf : py.

(** Open a journal method at its commit, with the facts its guards gave. *)
Ltac open_commit :=
  moves_to_commit; (apply moves_committed; [intros ?; done|]);
  intros d ? d' Hrun Hwf; inv_call; subst;
  unfold check_identifier, check_digest in *; inv_run_all; bool_facts.

Lemma set_phase_wf b phase : preserves wf (set_phase b phase).
Proof. unfold set_phase. open_commit. by apply wf_alter_operation. Qed.

Lemma request_cancel_wf b : preserves wf (request_cancel b).
Proof. unfold request_cancel. open_commit. by apply wf_alter_operation. Qed.

Lemma record_generation_wf b dep gen rel objs st :
  preserves wf (record_generation b dep gen rel objs st).
Proof.
  unfold record_generation. open_commit.
  apply wf_set_objects; [apply wf_set_objects|].
  - destruct (generations d !! gen) as [row|] eqn:Hrow.
    + apply wf_set_generation; [done| |].
      * exact (wf_generations d Hwf gen row Hrow).
      * cbn. intros g' r' Hg' Heq. by eapply (wf_rowids d).
    + apply wf_set_generation; [done|cbn; by eauto with wf|].
      cbn. intros g' r' Hg' Heq. apply next_rowid_fresh in Hg'. lia.
  - cbn. intros p [_ Hp]%elem_of_filter. apply (wf_objects d Hwf) in Hp. set_solver.
  - cbn. intros p [[_ Hp]%elem_of_filter|Hp]%elem_of_union.
    + apply (wf_objects d Hwf) in Hp. set_solver.
    + apply elem_of_list_to_set, list_elem_of_fmap in Hp as (o & -> & _). set_solver.
Qed.

Lemma acquire_lease_wf b lease gen expires : preserves wf (acquire_lease b lease gen expires).
Proof.
  unfold acquire_lease. open_commit; [|done|].
  - match goal with H : leases d !! lease = Some ?l |- _ =>
      destruct (wf_leases d Hwf lease l H) as (?&?&?) end. by apply wf_set_lease.
  - apply wf_set_lease; cbn; eauto with wf. apply elem_of_dom.
    by destruct (generations d !! gen).
Qed.

Lemma transition_generation_wf b gen expected st :
  preserves wf (transition_generation b gen expected st).
Proof. unfold transition_generation. open_commit. eauto with wf. Qed.

Lemma activate_generation_wf b gen : preserves wf (activate_generation b gen).
Proof.
  unfold activate_generation. open_commit; [|by eauto with wf].
  match goal with H : earliest _ = Some _ |- _ => apply earliest_elem in H as [Hp HP] end.
  bool_facts. eapply wf_update_generation; [eauto with wf| |by eauto].
  cbn. by rewrite lookup_insert_ne.
Qed.

Lemma record_gc_intent_wf b intent target dry : preserves wf (record_gc_intent b intent target dry).
Proof. unfold record_gc_intent. open_commit; [done|]. apply wf_set_intent; cbn; eauto with wf. Qed.

Lemma transition_gc_intent_wf b intent expected st :
  preserves wf (transition_gc_intent b intent expected st).
Proof.
  unfold transition_gc_intent. open_commit.
  match goal with H : gc_intents ?d !! intent = Some ?i |- _ =>
    destruct (wf_intents d Hwf intent i H) as (?&?) end. by apply wf_set_intent.
Qed.

Lemma normalize_candidates_sizes cands l :
  normalize_candidates cands = Ok l → Forall (λ item, 1 ≤ item.2)%Z l.
Proof.
  unfold normalize_candidates. intros H. inv_run_all. subst.
  match goal with H : each _ _ = Ok _ |- _ => apply each_ok in H as Hc end.
  rewrite merge_sort_Permutation. eapply Forall_impl; [exact Hc|].
  intros item Hitem. unfold check_candidate, check_digest in Hitem. cbn in Hitem.
  inv_run_all. bool_facts. lia.
Qed.

Lemma plan_gc_candidates_wf b intent cands : preserves wf (plan_gc_candidates b intent cands).
Proof.
  unfold plan_gc_candidates. open_commit; [done|].
  apply wf_insert_candidates; [done| |by eapply normalize_candidates_sizes].
  by eapply elem_of_dom_2.
Qed.

Lemma mark_gc_candidate_wf b intent digest st : preserves wf (mark_gc_candidate b intent digest st).
Proof.
  unfold mark_gc_candidate. open_commit.
  match goal with H : gc_candidates ?d !! _ = Some ?c |- _ =>
    destruct (wf_candidates d Hwf _ c H) as (?&?) end. by apply wf_set_candidate.
Qed.

Lemma record_derived_wf b derivation object : preserves wf (record_derived b derivation object).
Proof. unfold record_derived. open_commit; [done|]. apply wf_set_derived; cbn; eauto with wf. Qed.

Lemma forget_object_wf b object : preserves wf (forget_object b object).
Proof. unfold forget_object. open_commit. auto with wf. Qed.

Lemma reserve_wf capacity available b bytes : preserves wf (reserve capacity available b bytes).
Proof. unfold reserve. open_commit; [done|]. apply wf_set_reservation; cbn; eauto with wf. Qed.

Lemma release_reservation_wf r : preserves wf (release_reservation r).
Proof. unfold release_reservation. open_commit; auto with wf. Qed.

#[export] Hint Resolve set_phase_wf request_cancel_wf record_generation_wf acquire_lease_wf
  transition_generation_wf activate_generation_wf record_gc_intent_wf transition_gc_intent_wf
  plan_gc_candidates_wf mark_gc_candidate_wf record_derived_wf forget_object_wf reserve_wf
  release_reservation_wf : py.

Lemma run_wf c : preserves wf (run c).
Proof. destruct c; cbn [run]; solve_moves. Qed.

(** ** The generation that serves a deployment *)

Definition single_active (d : db) : Prop :=
  ∀ g1 g2 r1 r2, generations d !! g1 = Some r1 → generations d !! g2 = Some r2 →
    gen_state r1 = GActive → gen_state r2 = GActive →
    gen_deployment r1 = gen_deployment r2 → g1 = g2.

Lemma single_active_same d d' :
  generations d' = generations d → single_active d → single_active d'.
Proof. unfold single_active. by intros ->. Qed.

(** A write that does not make a generation active keeps the invariant. *)
Lemma single_active_insert d g row :
  gen_state row ≠ GActive → single_active d → single_active (set_generations <[g := row]> d).
Proof.
  intros Hne Hsa g1 g2 r1 r2. cbn. rewrite !lookup_insert.
  repeat case_decide; naive_solver.
Qed.

(** What a row becomes when [g] is activated for deployment [dep]. *)
Definition after_activation (b : OperationBinding) (g dep g' : string) (r : generation_row)
    : generation_row :=
  if eqb g' g then with_state GActive b r
  else if eqb (gen_state r) GActive && eqb (gen_deployment r) dep then with_state GRetained b r
  else r.

Lemma select_in d P g r :
  (g, r) ∈ select_generations d P ↔ generations d !! g = Some r ∧ P g r = true.
Proof.
  unfold select_generations. rewrite list_elem_of_filter, elem_of_map_to_list. naive_solver.
Qed.

(** The commit of [activate_generation], as a function of the table. *)
Lemma activate_generation_table b g d prev d' :
  activate_generation b g d = (Ok prev, d') → single_active d →
  ∃ row, generations d !! g = Some row
    ∧ gen_state row ∈ [GValidated; GRetained; GActive]
    ∧ generations d' = map_imap (λ g' r, Some (after_activation b g (gen_deployment row) g' r))
                         (generations d)
    ∧ operations d' = operations d ∧ generation_objects d' = generation_objects d
    ∧ leases d' = leases d.
Proof.
  unfold activate_generation. intros Hrun Hsa.
  inv_call; subst; cbn; eexists; (split_and!; [done|done| |done..]);
    apply map_eq; intros g'; rewrite map_lookup_imap; unfold after_activation.
  all: destruct (decide (g' = g)) as [->|Hne];
    [rewrite lookup_insert_eq, Heqo; cbn; by rewrite eqb_refl|].
  all: rewrite lookup_insert_ne by done; rewrite ?(proj2 (eqb_false g' g) Hne).
  - match goal with H : earliest _ = Some _ |- _ => apply earliest_elem in H as [Hp HP] end.
    bool_facts. destruct (decide (g' = p.1)) as [->|Hne'].
    + rewrite lookup_insert_eq, Hp. cbn. rewrite (proj2 (eqb_true _ GActive)) by done.
      by rewrite (proj2 (eqb_true _ _)) by done.
    + rewrite lookup_insert_ne by done. destruct (generations d !! g') as [r|] eqn:Hr; [cbn|done].
      destruct (eqb (gen_state r) GActive && eqb _ _) eqn:Hact; [|done]. bool_facts.
      destruct Hne'. eapply Hsa; [done|exact Hp|done|done|congruence].
  - destruct (generations d !! g') as [r|] eqn:Hr; [cbn|done].
    destruct (eqb (gen_state r) GActive && eqb _ _) eqn:Hact; [|done].
    match goal with H : earliest _ = None |- _ => apply best_None in H as Hn end.
    assert ((g', r) ∈ ([] : list (string * generation_row))) as Hin%elem_of_nil; [|done].
    rewrite <- Hn. apply select_in. split; [done|]. bool_facts.
    rewrite !(proj2 (eqb_true _ _)) by done. by rewrite (proj2 (eqb_false g' g) Hne).
Qed.

Lemma single_active_after_activation b g dep d m :
  single_active d → m = map_imap (λ g' r, Some (after_activation b g dep g' r)) (generations d) →
  (∀ row, generations d !! g = Some row → gen_deployment row = dep) →
  ∀ g1 g2 r1 r2, m !! g1 = Some r1 → m !! g2 = Some r2 →
    gen_state r1 = GActive → gen_state r2 = GActive →
    gen_deployment r1 = gen_deployment r2 → g1 = g2.
Proof.
  intros Hsa -> Hdep.
  assert (∀ g' r, after_activation b g dep g' r = with_state GActive b r ∧ g' = g
    ∨ g' ≠ g ∧ (gen_state (after_activation b g dep g' r) = GRetained
       ∨ after_activation b g dep g' r = r ∧ ¬ (gen_state r = GActive ∧ gen_deployment r = dep)))
    as Hcases.
  { intros g' r. unfold after_activation. destruct (eqb g' g) eqn:Hg; bool_facts; [by left|].
    right. split; [done|]. destruct (eqb _ _ && eqb _ _) eqn:Ha; [by left|right].
    split; [done|]. intros [H1 H2]. by rewrite !(proj2 (eqb_true _ _)) in Ha by done. }
  intros g1 g2 r1 r2. rewrite !map_lookup_imap.
  intros (o1 & Ho1 & [= <-])%bind_Some (o2 & Ho2 & [= <-])%bind_Some.
  destruct (Hcases g1 o1) as [[-> ->]|(Hn1 & [->|[-> Hna1]])],
    (Hcases g2 o2) as [[-> ->]|(Hn2 & [->|[-> Hna2]])]; cbn; try done.
  - intros _ Ha2 Heq. destruct Hna2. split; [done|]. rewrite <- Heq. by apply Hdep.
  - intros Ha1 _ Heq. destruct Hna1. split; [done|]. rewrite Heq. by apply Hdep.
  - intros ???. by eapply (Hsa g1 g2).
Qed.

Lemma activate_generation_atomic b g : atomic (activate_generation b g).
Proof. unfold activate_generation. solve_atomic. Qed.

Lemma activate_generation_single_active b g : preserves single_active (activate_generation b g).
Proof.
  apply moves_atomic; [intros ?; done|apply activate_generation_atomic|].
  intros d prev d' Hrun Hsa.
  destruct (activate_generation_table _ _ _ _ _ Hrun Hsa) as (row & Hrow & _ & Hm & _).
  unfold single_active. eapply single_active_after_activation; [done|exact Hm|].
  intros row' Hrow'. congruence.
Qed.

(** Every other method leaves the table alone or writes an inactive row. *)
Lemma begin_operation_single_active b phase : preserves single_active (begin_operation b phase).
Proof.
  unfold begin_operation. moves_to_commit. open_commit; by eapply single_active_same.
Qed.

Lemma record_generation_single_active b dep gen rel objs st :
  st ≠ GActive → preserves single_active (record_generation b dep gen rel objs st).
Proof.
  intros Hst. unfold record_generation. open_commit.
  eapply single_active_same; [reflexivity|]. cbn.
  apply single_active_insert; [|done]. by destruct (generations d !! gen).
Qed.

Lemma transition_generation_single_active b gen expected st :
  st ≠ GActive → preserves single_active (transition_generation b gen expected st).
Proof.
  intros Hst. unfold transition_generation. open_commit. by apply single_active_insert.
Qed.

#[export] Hint Resolve activate_generation_single_active begin_operation_single_active
  record_generation_single_active transition_generation_single_active : py.

Definition activates_directly (c : call) : bool :=
  match c with
  | CRecordGeneration _ _ _ _ _ st => eqb st GActive
  | CTransition _ _ _ st => eqb st GActive
  | _ => false
  end.

Lemma run_single_active c :
  activates_directly c = false → preserves single_active (run c).
Proof.
  destruct c; cbn -[begin_operation activate_generation]; intros Ha; bool_facts;
    unfold set_phase, request_cancel, acquire_lease, record_gc_intent, transition_gc_intent,
      plan_gc_candidates, mark_gc_candidate, record_derived, forget_object, owned_intent,
      gc_owner, conflict, ensure_state, reserve, release_reservation, operation, assert_binding;
    solve_moves; try (apply moves_modify; intros d0 Hd0; by eapply single_active_same).
Qed.

Lemma steps_fenced d d' : rtc step d d' → fenced d d'.
Proof.
  induction 1 as [|d1 d2 d3 [c d0] _ IH]; [reflexivity|].
  etrans; [apply run_fenced|done].
Qed.

(** ** The store *)

(** The calls of the store that take a binding. *)
Inductive store_call :=
| SJournal (c : call)
| SOperation (b : OperationBinding)
| SIntent (b : OperationBinding) (intent : string)
| SCandidates (b : OperationBinding) (intent : string)
| SDelete (b : OperationBinding) (value : string) (now_ns : Z)
| SRecordDerived (b : OperationBinding) (derivation object : string)
| SForgetCorrupt (b : OperationBinding) (value : string)
| SQuarantine (time_ns : Z) (token : string) (b : OperationBinding) (value : string).

Definition store_binding (c : store_call) : OperationBinding :=
  match c with
  | SJournal c => call_binding c
  | SOperation b | SIntent b _ | SCandidates b _ | SDelete b _ _ | SRecordDerived b _ _ | SForgetCorrupt b _ | SQuarantine _ _ b _ => b
  end.

Definition run_store (c : store_call) : M store unit :=
  match c with
  | SJournal c => journal (run c)
  | SOperation b => journal (operation b);; mret ()
  | SIntent b intent => journal (gc_intent b intent);; mret ()
  | SCandidates b intent => journal (list_gc_candidates b intent);; mret ()
  | SDelete b value now_ns => delete_unreachable b value now_ns;; mret ()
  | SRecordDerived b derivation object => store_record_derived b derivation object
  | SForgetCorrupt b value => forget_corrupt b value
  | SQuarantine time_ns token b value => quarantine_corrupt time_ns token b value;; mret ()
  end.

Inductive store_step : store → store → Prop :=
| store_step_call c s : store_step s (run_store c s).2.

Lemma fails_journal {A} s (m : M db A) : fails (st_db s) m → fails s (journal m).
Proof. intros [e He]. exists e. unfold journal, zoom. rewrite He. by destruct s. Qed.

Lemma fails_read {S A B} (s : S) (m : M S A) (f : A → M S B) : reads m → (∀ a, fails s (f a)) → fails s (m ≫= f).
Proof.
  intros Hm Hf. specialize (Hm s). unfold fails, mbind, M_bind.
  destruct (m s) as [[a|e] s'] eqn:H; cbn in Hm; subst; [apply Hf|by exists e].
Qed.

Lemma fails_error {A} s m : fails s (store_error (A:=A) m).
Proof. by eexists. Qed.

Lemma fails_operation b d : stale b d → fails d (operation b).
Proof. unfold operation. eauto 20 with fencing. Qed.

Lemma fails_forget b object d : stale b d → fails d (forget_object b object).
Proof. exact (stale_fails (CForget b object) d). Qed.

Lemma fails_derived b derivation object d : stale b d → fails d (record_derived b derivation object).
Proof. exact (stale_fails (CRecordDerived b derivation object) d). Qed.

Lemma lookup_object_reads value size : reads (lookup_object value size).
Proof. apply reads_moves. unfold lookup_object. solve_moves. Qed.

#[export] Hint Resolve fails_journal fails_error fails_operation fails_forget fails_derived stale_fails : fencing.
#[local] Hint Resolve fails_read lookup_object_reads reads_get : fencing.

Lemma stale_store_fails c s : stale (store_binding c) (st_db s) → fails s (run_store c).
Proof.
  destruct c; cbn [run_store store_binding]; intros Hst;
    unfold delete_unreachable, store_record_derived, forget_corrupt, quarantine_corrupt, gc_intent, list_gc_candidates, owned_intent;
    try solve [eauto 20 with fencing].
  apply fails_read; [apply lookup_object_reads|]. intros [object'|]; eauto 20 with fencing.
Qed.

(** Attempts only grow in the store, too. *)
Definition store_fenced (s s' : store) : Prop := fenced (st_db s) (st_db s').

#[export] Instance store_fenced_preorder : PreOrder store_fenced.
Proof. split; [intros s; unfold store_fenced; reflexivity|]. intros s1 s2 s3. unfold store_fenced. apply transitivity. Qed.

Lemma journal_fenced {A} (m : M db A) : moves fenced m → moves store_fenced (journal m).
Proof. intros Hm. apply moves_zoom. revert Hm. apply moves_impl. intros d d' Hd s <-. exact Hd. Qed.

Lemma forget_object_fenced b object : moves fenced (forget_object b object).
Proof. exact (run_fenced (CForget b object)). Qed.

Lemma record_derived_fenced b derivation object : moves fenced (record_derived b derivation object).
Proof. exact (run_fenced (CRecordDerived b derivation object)). Qed.

Lemma reachable_objects_fenced now_ns : moves fenced (reachable_objects now_ns).
Proof. unfold reachable_objects. solve_moves. Qed.

Lemma lookup_object_fenced value size : moves store_fenced (lookup_object value size).
Proof. apply moves_reads; [exact _|apply lookup_object_reads]. Qed.

#[local] Hint Resolve journal_fenced forget_object_fenced record_derived_fenced reachable_objects_fenced
  lookup_object_fenced run_fenced : py.

Lemma run_store_fenced c : moves store_fenced (run_store c).
Proof.
  destruct c; cbn [run_store]; unfold delete_unreachable, store_record_derived, quarantine_corrupt, forget_corrupt, store_error;
    try (apply moves_bind; [exact _|apply journal_fenced|intros ?]; unfold gc_intent, list_gc_candidates, owned_intent, gc_owner, conflict);
    solve_moves; apply moves_modify; intros s; unfold store_fenced; cbn; reflexivity.
Qed.

Lemma stale_store_steps b s s' : rtc store_step s s' → stale b (st_db s) → stale b (st_db s').
Proof.
  induction 1 as [|s1 s2 s3 [c s0] _ IH]; [done|]. intros (row & Hrow & Hlt). apply IH.
  destruct (run_store_fenced c s0 _ _ Hrow) as (row' & ? & _ & _ & ? & _). exists row'. split; [done|lia].
Qed.

Lemma single_active_empty : single_active empty_db.
Proof. intros g1 g2 r1 r2 H1. unfold empty_db in H1. cbn [generations] in H1. by rewrite lookup_empty in H1. Qed.

(** ** Theorems *)

(** C12. A superseded binding stays powerless: once the journal holds a later attempt of
    an operation, every call an earlier attempt makes of a method of the journal that takes
    a binding, or of a reservation, deletion, quarantine or derived object of the store,
    after any number of other such calls, raises and changes neither the journal nor the
    files. *)
Theorem superseded_binding_is_refused s s' c row :
  rtc store_step s s' →
  operations (st_db s) !! operation_id (store_binding c) = Some row →
  (attempt (store_binding c) < op_attempt row)%Z →
  ∃ e, run_store c s' = (Err e, s').
Proof. intros Hsteps Hrow Hlt. apply stale_store_fails. eapply stale_store_steps; [done|]. by exists row. Qed.

(** Over any sequence of calls an operation keeps its job and node, its
    attempt never goes back, and within one attempt neither its fence changes
    nor a requested cancellation is lost. *)
Theorem journal_is_fenced d d' :
  rtc step d d' → fenced d d'.
Proof. apply steps_fenced. Qed.

(** Starting from the empty schema, every sequence of calls keeps every
    foreign key, every CHECK constraint and the uniqueness of row ids. *)
Theorem journal_integrity d :
  rtc step empty_db d → wf d.
Proof.
  intros Hsteps. cut (wf empty_db); [|apply wf_empty].
  induction Hsteps as [|d1 d2 d3 [c d0] _ IH]; [done|]. intros Hwf. apply IH, run_wf, Hwf.
Qed.

(** A deployment has at most one active generation, whatever calls are
    made, as long as only [activate_generation] makes generations active. *)
Theorem one_active_generation (cs : list call) :
  Forall (λ c, activates_directly c = false) cs →
  single_active (foldl (λ d c, (run c d).2) empty_db cs).
Proof.
  intros Hcs. pose proof single_active_empty as Hsa. revert Hsa. generalize empty_db as d.
  induction Hcs as [|c cs Hc _ IH]; intros d Hsa; cbn; [done|].
  by apply IH, run_single_active.
Qed.

(** Activating a generation makes it the active one, retains the
    generation it replaces, and leaves every other row of the table as it
    was. *)
Theorem activation_replaces_the_active_generation b g d prev d' :
  activate_generation b g d = (Ok prev, d') → single_active d →
  ∃ row, generations d !! g = Some row
    ∧ gen_state row ∈ [GValidated; GRetained; GActive]
    ∧ (∀ g', generations d' !! g' =
         after_activation b g (gen_deployment row) g' <$> generations d !! g')
    ∧ single_active d'.
Proof.
  intros Hrun Hsa.
  destruct (activate_generation_table _ _ _ _ _ Hrun Hsa) as (row & Hrow & Hst & Hm & _).
  exists row. split_and!; [done..| |].
  - intros g'. rewrite Hm, map_lookup_imap. by destruct (generations d !! g').
  - pose proof (activate_generation_single_active b g d Hsa) as H. by rewrite Hrun in H.
Qed.

(** ** Witnesses *)

Definition sample_binding (n : Z) : OperationBinding :=
  Binding "11111111-1111-4111-8111-111111111111" "22222222-2222-4222-8222-222222222222" n
    "33333333-3333-4333-8333-333333333333" "spk_00000000000000000000000000000000".

Definition sample_digest : string :=
  "00000000000000000000000000000000000000000000000000000000000000aa".

Definition run_calls (d : db) (cs : list call) : db := foldl (λ d c, (run c d).2) d cs.

(** The second attempt of an operation, and two generations of one deployment,
    the older one active. *)
Definition sample_begin : list call :=
  [ CBegin (sample_binding 1) "preflight"; CBegin (sample_binding 2) "fetch" ].
Definition sample_generations : list call :=
  let b := sample_binding 2 in
  [ CRecordGeneration b "chat" "gen-a" sample_digest [sample_digest] GValidated;
    CRecordGeneration b "chat" "gen-b" sample_digest [sample_digest] GValidated;
    CActivate b "gen-a" ].

Definition sample_begun : db := run_calls empty_db sample_begin.
Definition sample_db : db := run_calls sample_begun sample_generations.

Lemma run_calls_steps d cs : rtc step d (run_calls d cs).
Proof.
  revert d. induction cs as [|c cs IH]; intros d; [apply rtc_refl|].
  eapply rtc_l; [apply (step_call c)|apply IH].
Qed.

Definition sample_store (d : db) : store := Store d ∅ [].

Lemma run_calls_store d cs : rtc store_step (sample_store d) (sample_store (run_calls d cs)).
Proof.
  revert d. induction cs as [|c cs IH]; intros d; [apply rtc_refl|].
  eapply rtc_l; [apply (store_step_call (SJournal c))|]. cbn [run_store]. unfold journal, zoom. cbn [run_calls foldl].
  destruct (run c (st_db (sample_store d))) as [r d'] eqn:H. cbn [snd st_db sample_store] in *. rewrite H. cbn [snd]. apply IH.
Qed.

Lemma superseded_binding_is_refused_witness :
  (∃ e, run_store (SJournal (CActivate (sample_binding 1) "gen-b")) (sample_store sample_db) = (Err e, sample_store sample_db))
  ∧ ∃ e, run_store (SDelete (sample_binding 1) sample_digest 5) (sample_store sample_db) = (Err e, sample_store sample_db).
Proof.
  split; (apply (superseded_binding_is_refused (sample_store sample_begun) (sample_store sample_db) _
    (OperationRow "11111111-1111-4111-8111-111111111111" "spk_00000000000000000000000000000000" 2
       "33333333-3333-4333-8333-333333333333" "fetch" false));
    [apply run_calls_store|vm_compute; reflexivity|vm_compute; reflexivity]).
Defined.

Lemma sample_steps : rtc step empty_db sample_db.
Proof. etrans; apply run_calls_steps. Qed.

Lemma journal_is_fenced_witness : fenced empty_db sample_db.
Proof. exact (journal_is_fenced empty_db sample_db sample_steps). Defined.

Lemma journal_integrity_witness : wf sample_db.
Proof. exact (journal_integrity sample_db sample_steps). Defined.

Lemma one_active_generation_witness :
  single_active (foldl (λ d c, (run c d).2) empty_db (sample_begin ++ sample_generations)).
Proof. apply one_active_generation. repeat constructor. Defined.

Lemma single_active_sample : single_active sample_db.
Proof.
  unfold sample_db, sample_begun, run_calls, sample_begin, sample_generations. cbn [foldl].
  repeat (apply run_single_active; [reflexivity|]). apply single_active_empty.
Qed.

Definition sample_activation : result (option GenerationRecord) * db :=
  activate_generation (sample_binding 2) "gen-b" sample_db.

Lemma activation_witness : is_ok sample_activation.1 = true ∧ single_active sample_activation.2.
Proof.
  assert (is_ok sample_activation.1 = true) as Hok by (vm_compute; reflexivity).
  split; [exact Hok|].
  destruct sample_activation as [[prev|e] d'] eqn:H; [|discriminate Hok].
  destruct (activation_replaces_the_active_generation (sample_binding 2) "gen-b" sample_db
    prev d' H single_active_sample) as (row & _ & _ & _ & Hsa).
  exact Hsa.
Defined.
