(* ===== verification/PackageGC.v ===== *)
(** * Garbage collection of the content store ([agent/src/vonk_agent/packages/gc.py])

    [PackageGarbageCollector.collect] with the callbacks its constructor takes:
    [clock_ns n] is the [n]-th reading of the clock, [cancelled n] the answer to
    the [n]-th cancellation poll and [after_delete] the hook called after a
    deletion, which may raise. The world counts the readings and the polls. *)

From S2P Require Import Prelude Identifiers PackageState PackageStore PackageJournal.

Record GarbageCollectionResult := GcResult {
  res_candidate_digests : list string;
  res_reclaimed_bytes : Z;
  res_dry_run : bool;
  res_status : string
}.

Record gc_world := GcWorld { gw_store : store; gw_clock : nat; gw_polls : nat }.

Definition on_store {A} (m : M store A) : M gc_world A :=
  zoom gw_store (λ s w, GcWorld s (gw_clock w) (gw_polls w)) m.
Definition on_journal {A} (m : M db A) : M gc_world A := on_store (journal m).

(** The key that sorts the planned candidates: derived objects first. *)
Definition kind_of (available : list StoreObject) (digest : string) : option string :=
  so_kind <$> head (filter (λ v, so_digest v = digest) available).
Definition candidate_rank (available : list StoreObject) (item : string * Z) : Z :=
  if eqb (kind_of available item.1) (Some "derived") then 0 else 1.
Definition rank_le (available : list StoreObject) (p q : string * Z) : Prop :=
  (candidate_rank available p < candidate_rank available q)%Z
  ∨ candidate_rank available p = candidate_rank available q ∧ String.le p.1 q.1.

#[export] Instance rank_le_dec available : RelDecision (rank_le available).
Proof. intros p q. unfold rank_le. apply _. Defined.

Definition plan_candidates (available : list StoreObject) (reachable : gset string)
    : list (string * Z) :=
  merge_sort (rank_le available)
    ((λ o, (so_digest o, so_size o)) <$> filter (λ o, so_digest o ∉ reachable) available).

Definition deleted_bytes (cs : list GcCandidateRecord) : Z :=
  sum_Z (gc_size <$> filter (λ c, gc_cand_state c = CandDeleted) cs).

Section collector.
Context (clock_ns : nat → Z) (cancelled : nat → bool) (after_delete : string → result unit).

Definition now : M gc_world Z :=
  w ← get;
  modify (λ w, GcWorld (gw_store w) (S (gw_clock w)) (gw_polls w));;
  let value := clock_ns (gw_clock w) in
  lift (ensure (0 <=? value)%Z EGarbageCollection "GC clock returned an invalid value");;
  mret value.

Definition poll_cancelled : M gc_world bool :=
  w ← get;
  modify (λ w, GcWorld (gw_store w) (gw_clock w) (S (gw_polls w)));;
  mret (cancelled (gw_polls w)).

(** One pending candidate: skip it if it became reachable, else delete it. *)
Definition sweep (b : OperationBinding) (intent_id : string) (c : GcCandidateRecord)
    : M gc_world Z :=
  now_ns ← now;
  reachable ← on_journal (reachable_objects now_ns);
  if bool_decide (gc_digest c ∈ reachable) then
    on_journal (mark_gc_candidate b intent_id (gc_digest c) CandSkipped);;
    mret 0%Z
  else
    deleted ← on_store (delete_unreachable b (gc_digest c) now_ns);
    lift (after_delete (gc_digest c));;
    on_journal (mark_gc_candidate b intent_id (gc_digest c) CandDeleted);;
    mret (if (0 <? deleted)%Z then deleted else gc_size c).

Definition finish (b : OperationBinding) (intent_id : string) (expected : list gc_state)
    (state : gc_state) (phase : string) : M gc_world unit :=
  on_journal (transition_gc_intent b intent_id expected state);;
  on_journal (set_phase b phase);;
  mret ().

Fixpoint delete_loop (b : OperationBinding) (intent_id : string) (target_bytes : Z)
    (candidate_digests : list string) (cs : list GcCandidateRecord) (reclaimed : Z)
    : M gc_world GarbageCollectionResult :=
  match cs with
  | [] =>
      finish b intent_id [GcRunning] GcCompleted "completed";;
      mret (GcResult candidate_digests reclaimed false "completed")
  | c :: cs =>
      if negb (eqb (gc_cand_state c) CandPending) || (target_bytes <=? reclaimed)%Z then
        delete_loop b intent_id target_bytes candidate_digests cs reclaimed
      else
        stop ← poll_cancelled;
        if stop : bool then
          finish b intent_id [GcRunning] GcCancelled "cancelled";;
          mret (GcResult candidate_digests reclaimed false "cancelled")
        else
          bytes ← sweep b intent_id c;
          delete_loop b intent_id target_bytes candidate_digests cs (reclaimed + bytes)
  end.

(** The candidates of the intent: the recorded ones, or a new plan. *)
Definition planned (b : OperationBinding) (intent_id : string) : M gc_world (list GcCandidateRecord) :=
  existing ← on_journal (list_gc_candidates b intent_id);
  if nonempty existing then mret existing
  else
    now_ns ← now;
    reachable ← on_journal (reachable_objects now_ns);
    available ← on_store list_objects;
    let candidates := plan_candidates available reachable in
    if nonempty candidates then on_journal (plan_gc_candidates b intent_id candidates)
    else mret existing.

Definition collect (b : OperationBinding) (dry_run : bool) (target_bytes : Z)
    : M gc_world GarbageCollectionResult :=
  lift (ensure (1 <=? target_bytes)%Z EValue "GC request is invalid");;
  on_journal (begin_operation b "gc-plan");;
  let intent_id := operation_id b in
  on_journal (record_gc_intent b intent_id target_bytes dry_run);;
  existing ← planned b intent_id;
  let candidate_digests := gc_digest <$> existing in
  if dry_run || negb (nonempty existing) then
    finish b intent_id [GcPlanned; GcRunning] GcCompleted "completed";;
    mret (GcResult candidate_digests 0 dry_run "completed")
  else
    intent ← on_journal (gc_intent b intent_id);
    match intent with
    | Some record =>
        if eqb (gi_state record) GcPlanned then
          on_journal (transition_gc_intent b intent_id [GcPlanned] GcRunning);; mret ()
        else mret ()
    | None => mret ()
    end;;
    on_journal (set_phase b "gc-delete");;
    let reclaimed := deleted_bytes existing in
    cs ← on_journal (list_gc_candidates b intent_id);
    delete_loop b intent_id target_bytes candidate_digests cs reclaimed.
End collector.

(** ** What a collection may remove *)

(** The tables that decide reachability are as they were. *)
Definition same_roots (d d' : db) : Prop :=
  generations d' = generations d ∧ generation_objects d' = generation_objects d
  ∧ leases d' = leases d.

#[export] Instance same_roots_preorder : PreOrder same_roots.
Proof. split; repeat intros ?; unfold same_roots in *; intuition congruence. Qed.

Lemma reachable_same_roots d d' now_ns :
  same_roots d d' → reachable_set d' now_ns = reachable_set d now_ns.
Proof.
  intros (Hg & Ho & Hl). unfold reachable_set, rooted_generation, live_lease.
  by rewrite Hg, Ho, Hl.
Qed.

Lemma rooted_object_reachable d g row x now_ns :
  generations d !! g = Some row → rooted_state (gen_state row) = true →
  (g, x) ∈ generation_objects d → x ∈ reachable_set d now_ns.
Proof.
  intros Hg Hrow Hx. unfold reachable_set. apply elem_of_map. exists (g, x).
  split; [done|]. apply elem_of_filter. split; [|done].
  unfold rooted_generation. cbn. by rewrite Hg, Hrow.
Qed.

Lemma leased_object_reachable d l lease row x now_ns :
  leases d !! l = Some lease → generations d !! lease_generation lease = Some row →
  (lease_generation lease, x) ∈ generation_objects d →
  (now_ns ≤ lease_expires lease)%Z → x ∈ reachable_set d now_ns.
Proof.
  intros Hl Hg Hx Hlive. unfold reachable_set. apply elem_of_map.
  exists (lease_generation lease, x). split; [done|]. apply elem_of_filter. split; [|done].
  unfold rooted_generation. cbn. rewrite Hg. apply orb_true_iff. right.
  apply existsb_exists. exists (l, lease). split; [by apply list_elem_of_In, elem_of_map_to_list|].
  cbn. rewrite eqb_refl. cbn. by apply Z.leb_le.
Qed.

(** A garbage-collection call writes only the operation and its intent. *)
Definition plan_only (d d' : db) : Prop :=
  same_roots d d' ∧ components d' = components d
  ∧ derived_objects d' = derived_objects d ∧ partials d' = partials d.

#[export] Instance plan_only_preorder : PreOrder plan_only.
Proof.
  split; [intros d; by split_and!|]. intros d1 d2 d3 [??] [??].
  split; [by etrans|]. intuition congruence.
Qed.

Ltac writes_plan :=
  unfold begin_operation, operation, record_gc_intent, list_gc_candidates, plan_gc_candidates,
    transition_gc_intent, set_phase, mark_gc_candidate, gc_intent, reachable_objects,
    owned_intent, gc_owner, conflict, ensure_state, operation, assert_binding;
  solve_moves; apply moves_modify; intros ?; by repeat split.

Lemma begin_operation_plan b phase : moves plan_only (begin_operation b phase).
Proof. writes_plan. Qed.
Lemma operation_plan b : moves plan_only (operation b).
Proof. writes_plan. Qed.
Lemma record_gc_intent_plan b i t dry : moves plan_only (record_gc_intent b i t dry).
Proof. writes_plan. Qed.
Lemma list_gc_candidates_plan b i : moves plan_only (list_gc_candidates b i).
Proof. writes_plan. Qed.
Lemma plan_gc_candidates_plan b i cs : moves plan_only (plan_gc_candidates b i cs).
Proof. writes_plan. Qed.
Lemma transition_gc_intent_plan b i ex st : moves plan_only (transition_gc_intent b i ex st).
Proof. writes_plan. Qed.
Lemma set_phase_plan b phase : moves plan_only (set_phase b phase).
Proof. writes_plan. Qed.
Lemma mark_gc_candidate_plan b i x st : moves plan_only (mark_gc_candidate b i x st).
Proof. writes_plan. Qed.
Lemma gc_intent_plan b i : moves plan_only (gc_intent b i).
Proof. writes_plan. Qed.
Lemma reachable_objects_plan t : moves plan_only (reachable_objects t).
Proof. writes_plan. Qed.

Lemma plan_only_roots {A} (m : M db A) : moves plan_only m → moves same_roots m.
Proof. apply moves_impl. by intros d d' [H _]. Qed.

Lemma forget_object_roots b x : moves same_roots (forget_object b x).
Proof.
  unfold forget_object, assert_binding, conflict, ensure_state.
  solve_moves; apply moves_modify; intros ?; by repeat split.
Qed.

#[export] Hint Resolve begin_operation_plan operation_plan record_gc_intent_plan
  list_gc_candidates_plan plan_gc_candidates_plan transition_gc_intent_plan set_phase_plan
  mark_gc_candidate_plan gc_intent_plan reachable_objects_plan plan_only_roots
  forget_object_roots : py.

(** [spared now_ns s s']: the roots are unchanged, and a file that is gone was
    not reachable at [now_ns]. *)
Definition spared (now_ns : Z) (s s' : store) : Prop :=
  same_roots (st_db s) (st_db s')
  ∧ ∀ x, st_files s' !! x = st_files s !! x
         ∨ st_files s' !! x = None ∧ x ∉ reachable_set (st_db s) now_ns.

#[export] Instance spared_preorder now_ns : PreOrder (spared now_ns).
Proof.
  split.
  - intros s. split; [reflexivity|]. by left.
  - intros s1 s2 s3 [H12 F12] [H23 F23]. split; [by etrans|]. intros x.
    specialize (F12 x). specialize (F23 x).
    rewrite (reachable_same_roots _ _ _ H12) in F23. destruct F12, F23; intuition congruence.
Qed.

Lemma journal_spared {A} now_ns (m : M db A) : moves same_roots m → moves (spared now_ns) (journal m).
Proof.
  intros Hm. apply moves_zoom. intros d s <-. split; [apply Hm|]. by left.
Qed.

Lemma journal_reads {A} (m : M db A) : reads m → reads (journal m).
Proof. apply reads_zoom. by intros []. Qed.

Lemma operation_reads b : reads (operation b).
Proof.
  apply reads_moves. unfold operation, assert_binding, conflict, ensure_state. solve_moves.
Qed.

Lemma reachable_objects_reads t : reads (reachable_objects t).
Proof. apply reads_moves. unfold reachable_objects. solve_moves. Qed.

#[export] Hint Resolve journal_reads operation_reads reachable_objects_reads : reading.

Lemma reachable_objects_ok t d objects d' :
  reachable_objects t d = (Ok objects, d') → objects = reachable_set d t ∧ d' = d.
Proof. unfold reachable_objects. intros H. by inv_run_all. Qed.

Lemma journal_ok {A} (m : M db A) s a s' :
  journal m s = (Ok a, s') → ∃ d', m (st_db s) = (Ok a, d') ∧ s' = set_db d' s.
Proof. apply zoom_ok. Qed.

Lemma delete_unreachable_spared b value now_ns :
  moves (spared now_ns) (delete_unreachable b value now_ns).
Proof.
  intros s. change (moves_at (spared now_ns) s (delete_unreachable b value now_ns)).
  unfold delete_unreachable. do 4 at_read.
  match goal with H : journal (reachable_objects _) _ = _ |- _ =>
    apply journal_ok in H as (d' & [-> _]%reachable_objects_ok & _) end.
  case_bool_decide as Hin; [apply (moves_lift (spared now_ns))|].
  do 2 at_read. match goal with H : get _ = _ |- _ => apply get_ok in H as [-> _] end.
  destruct (st_files s !! a) as [f|] eqn:Hf; [do 2 at_read|].
  - apply moves_at_bind; [exact _| |intros ? s1 _; apply moves_at_moves; solve_moves;
      apply journal_spared; auto with py].
    split; [reflexivity|]. intros x. destruct (decide (x = a)) as [->|Hne]; cbn.
    + right. by rewrite lookup_delete_eq.
    + left. by rewrite lookup_delete_ne.
  - apply moves_at_moves. solve_moves. apply journal_spared; auto with py.
Qed.

(** The same over a stretch of clock readings: [collected w w'] also says at
    which reading a missing file was found unreachable. *)
Definition collected (clock_ns : nat → Z) (w w' : gc_world) : Prop :=
  gw_clock w ≤ gw_clock w'
  ∧ same_roots (st_db (gw_store w)) (st_db (gw_store w'))
  ∧ ∀ x, st_files (gw_store w') !! x = st_files (gw_store w) !! x
         ∨ st_files (gw_store w') !! x = None
           ∧ ∃ k, gw_clock w ≤ k < gw_clock w'
                  ∧ x ∉ reachable_set (st_db (gw_store w)) (clock_ns k).

Section collector_facts.
Context (clock_ns : nat → Z) (cancelled : nat → bool) (after_delete : string → result unit).

#[local] Notation R := (collected clock_ns).

#[export] Instance collected_preorder : PreOrder R.
Proof.
  split.
  - intros w. split_and!; [done|reflexivity|]. by left.
  - intros w1 w2 w3 (C12 & H12 & F12) (C23 & H23 & F23).
    split_and!; [lia|by etrans|]. intros x. specialize (F12 x). specialize (F23 x).
    setoid_rewrite (reachable_same_roots _ _ _ H12) in F23.
    destruct F12 as [E12|(E12 & k & ? & ?)], F23 as [E23|(E23 & k' & ? & ?)];
      [left; congruence|right; (split; [congruence|])..];
      [exists k'|exists k|exists k]; (split; [lia|done]).
Qed.

Lemma on_journal_collected {A} (m : M db A) : moves same_roots m → moves R (on_journal m).
Proof.
  intros Hm. apply moves_zoom. intros s w <-. unfold journal, zoom.
  specialize (Hm (st_db (gw_store w))). destruct (m (st_db (gw_store w))) as [r d'].
  cbn in *. split_and!; [done..|]. by left.
Qed.

Lemma list_objects_reads : reads list_objects.
Proof. apply reads_moves. unfold list_objects. solve_moves. Qed.

Lemma on_store_reads {A} (m : M store A) : reads m → reads (on_store m).
Proof. apply reads_zoom. by intros []. Qed.

Lemma on_journal_reads {A} (m : M db A) : reads m → reads (on_journal m).
Proof. intros H. by apply on_store_reads, journal_reads. Qed.

Lemma now_collected : moves R (now clock_ns).
Proof.
  unfold now. solve_moves. apply moves_modify. intros w.
  split_and!; [cbn; lia|reflexivity|]. by left.
Qed.

Lemma poll_cancelled_collected : moves R (poll_cancelled cancelled).
Proof.
  unfold poll_cancelled. solve_moves. apply moves_modify. intros w.
  split_and!; [done|reflexivity|]. by left.
Qed.

Lemma now_ok w t w' :
  now clock_ns w = (Ok t, w') →
  t = clock_ns (gw_clock w) ∧ w' = GcWorld (gw_store w) (S (gw_clock w)) (gw_polls w).
Proof. unfold now. intros H. inv_run_all. naive_solver. Qed.

#[local] Hint Resolve on_journal_collected now_collected poll_cancelled_collected : py.
#[local] Hint Resolve on_journal_reads on_store_reads list_objects_reads : reading.

(** Between two clock readings. *)
Definition spared_at (t : Z) (w w' : gc_world) : Prop :=
  gw_clock w' = gw_clock w ∧ spared t (gw_store w) (gw_store w').

#[export] Instance spared_at_preorder t : PreOrder (spared_at t).
Proof.
  split; [by intros w|]. intros w1 w2 w3 [? ?] [? ?]. split; [congruence|by etrans].
Qed.

Lemma on_journal_spared_at {A} t (m : M db A) :
  moves same_roots m → moves (spared_at t) (on_journal m).
Proof.
  intros Hm. apply moves_zoom. intros s w <-. split; [done|]. by apply journal_spared.
Qed.

Lemma delete_spared_at b x t : moves (spared_at t) (on_store (delete_unreachable b x t)).
Proof. apply moves_zoom. intros s w <-. split; [done|]. apply delete_unreachable_spared. Qed.

#[local] Hint Resolve on_journal_spared_at delete_spared_at : py.

Lemma sweep_collected b i c : moves R (sweep clock_ns after_delete b i c).
Proof.
  unfold sweep. intros w. destruct (now clock_ns w) as [[t|e] w1] eqn:Hnow;
    [rewrite (M_bind_run _ _ _ _ _ Hnow)|
     pose proof (now_collected w) as H; rewrite Hnow in H;
       by rewrite (M_bind_err _ _ _ _ _ Hnow)].
  apply now_ok in Hnow as [-> ->]. set (t := clock_ns (gw_clock w)).
  match goal with |- R _ (?m ?w1).2 => assert (moves (spared_at t) m) as Hm by solve_moves;
    destruct (Hm w1) as (Hc & Hr & Hf) end.
  split_and!; [rewrite Hc; cbn; lia|done|]. intros x. destruct (Hf x) as [|[? ?]]; [by left|].
  right. split; [done|]. exists (gw_clock w). rewrite Hc. split; [cbn; lia|done].
Qed.

#[local] Hint Resolve sweep_collected : py.

Lemma finish_collected b i ex st phase : moves R (finish b i ex st phase).
Proof. unfold finish. solve_moves. Qed.

#[local] Hint Resolve finish_collected : py.

Lemma delete_loop_collected b i target digests cs reclaimed :
  moves R (delete_loop clock_ns cancelled after_delete b i target digests cs reclaimed).
Proof.
  revert reclaimed. induction cs as [|c cs IH]; intros reclaimed; cbn [delete_loop]; solve_moves;
    apply IH.
Qed.

Lemma planned_collected b i : moves R (planned clock_ns b i).
Proof. unfold planned. solve_moves. Qed.

#[local] Hint Resolve delete_loop_collected planned_collected : py.

Lemma collect_collected b dry target :
  moves R (collect clock_ns cancelled after_delete b dry target).
Proof. unfold collect. solve_moves. Qed.

(** ** A dry run *)

(** Only the operation, its intent and the clock have moved. *)
Definition untouched (w w' : gc_world) : Prop :=
  st_files (gw_store w') = st_files (gw_store w)
  ∧ plan_only (st_db (gw_store w)) (st_db (gw_store w')).

#[export] Instance untouched_preorder : PreOrder untouched.
Proof.
  split; [intros w; by split|]. intros w1 w2 w3 [??] [??]. split; [congruence|by etrans].
Qed.

Lemma on_journal_untouched {A} (m : M db A) : moves plan_only m → moves untouched (on_journal m).
Proof.
  intros Hm. apply moves_zoom. intros s w <-. unfold journal, zoom.
  specialize (Hm (st_db (gw_store w))). by destruct (m (st_db (gw_store w))).
Qed.

#[local] Hint Resolve on_journal_untouched : py.

Lemma planned_untouched b i : moves untouched (planned clock_ns b i).
Proof.
  unfold planned, now. solve_moves; [apply moves_modify; intros w; by split|].
  apply moves_reads; [exact _|]. auto with reading.
Qed.

#[local] Hint Resolve planned_untouched : py.

Lemma dry_run_untouched b target :
  moves untouched (collect clock_ns cancelled after_delete b true target).
Proof. unfold collect, finish. cbn [orb]. solve_moves. Qed.

(** ** Progress through a plan *)

(** The candidates of intent [i] are as before, except that pending ones may
    have been settled. *)
Definition progress (i : string) (d d' : db) : Prop :=
  ∀ x, gc_candidates d' !! (i, x) = gc_candidates d !! (i, x)
       ∨ ∃ r r', gc_candidates d !! (i, x) = Some r ∧ gc_candidates d' !! (i, x) = Some r'
                 ∧ cnd_size r' = cnd_size r ∧ cnd_state r = CandPending
                 ∧ cnd_state r' ≠ CandPending.

#[export] Instance progress_preorder i : PreOrder (progress i).
Proof.
  split; [by left|]. intros d1 d2 d3 H12 H23 x. specialize (H12 x). specialize (H23 x).
  destruct H12 as [E12|(r & r' & E1 & E2 & Hs & Hp & Hn)],
    H23 as [E23|(q & q' & F1 & F2 & Gs & Gp & Gn)].
  - left. congruence.
  - right. exists q, q'. split_and!; congruence.
  - right. exists r, r'. split_and!; congruence.
  - simplify_eq.
Qed.

Definition settled (i : string) (d : db) (x : string) : Prop :=
  ∀ r, gc_candidates d !! (i, x) = Some r → cnd_state r ≠ CandPending.

Lemma settled_progress i d d' x : progress i d d' → settled i d x → settled i d' x.
Proof.
  intros Hp Hs r Hr. destruct (Hp x) as [E|(? & ? & ? & ? & ? & ? & ?)]; [|congruence].
  apply Hs. congruence.
Qed.

Lemma same_candidates_progress i d d' : gc_candidates d' = gc_candidates d → progress i d d'.
Proof. intros H x. left. by rewrite H. Qed.

Ltac keeps_candidates :=
  unfold operation, forget_object, list_gc_candidates, transition_gc_intent, set_phase, gc_intent,
    reachable_objects, owned_intent, gc_owner, conflict, ensure_state, operation, assert_binding;
  solve_moves; apply moves_modify; intros ?; by apply same_candidates_progress.

Lemma operation_progress i b : moves (progress i) (operation b).
Proof. keeps_candidates. Qed.
Lemma forget_object_progress i b x : moves (progress i) (forget_object b x).
Proof. keeps_candidates. Qed.
Lemma transition_gc_intent_progress i b j ex st : moves (progress i) (transition_gc_intent b j ex st).
Proof. keeps_candidates. Qed.
Lemma set_phase_progress i b phase : moves (progress i) (set_phase b phase).
Proof. keeps_candidates. Qed.
Lemma reachable_objects_progress i t : moves (progress i) (reachable_objects t).
Proof. keeps_candidates. Qed.

Lemma mark_gc_candidate_ok b i x st d rec d' :
  mark_gc_candidate b i x st d = (Ok rec, d') →
  ∃ r, gc_candidates d !! (i, x) = Some r ∧ (cnd_state r = st ∨ cnd_state r = CandPending)
    ∧ d' = set_candidates <[(i, x) := CandidateRow (cnd_size r) st]> d.
Proof.
  unfold mark_gc_candidate. intros H. inv_call. subst. eexists. split_and!; [done| |done].
  match goal with H : _ || _ = true |- _ => apply orb_true_iff in H as [?|?] end;
    bool_facts; auto.
Qed.

Lemma mark_gc_candidate_progress i b x st :
  st ≠ CandPending → moves (progress i) (mark_gc_candidate b i x st).
Proof.
  intros Hst. apply moves_atomic; [exact _|unfold mark_gc_candidate; solve_atomic|].
  intros d rec d' (r & Hr & Hs & ->)%mark_gc_candidate_ok y. cbn.
  destruct (decide (y = x)) as [->|Hne]; [|left; rewrite lookup_insert_ne; congruence].
  rewrite lookup_insert_eq, Hr. destruct Hs as [Hs|Hs]; [left|right].
  - destruct r; cbn in *; congruence.
  - by exists r, (CandidateRow (cnd_size r) st).
Qed.

#[local] Hint Resolve operation_progress forget_object_progress transition_gc_intent_progress
  set_phase_progress reachable_objects_progress : py.

Definition on_db (R : relation db) (w w' : gc_world) : Prop :=
  R (st_db (gw_store w)) (st_db (gw_store w')).

#[export] Instance on_db_preorder (Q : relation db) `{!PreOrder Q} : PreOrder (on_db Q).
Proof. split; [intros w; unfold on_db; reflexivity|]. intros w1 w2 w3. unfold on_db. apply transitivity. Qed.

Lemma on_journal_on_db {A} (Q : relation db) (m : M db A) :
  moves Q m → moves (on_db Q) (on_journal m).
Proof.
  intros Hm. apply moves_zoom. intros s w <-. unfold journal, zoom.
  specialize (Hm (st_db (gw_store w))). by destruct (m (st_db (gw_store w))).
Qed.

Lemma now_progress i : moves (on_db (progress i)) (now clock_ns).
Proof. unfold now. solve_moves. apply moves_modify. intros w. unfold on_db. reflexivity. Qed.

Lemma poll_progress i : moves (on_db (progress i)) (poll_cancelled cancelled).
Proof. unfold poll_cancelled. solve_moves. apply moves_modify. intros w. unfold on_db. reflexivity. Qed.

#[local] Hint Resolve on_journal_on_db now_progress poll_progress : py.

Lemma journal_on_store {A} (Q : relation db) (m : M db A) :
  moves Q m → moves (λ s s', Q (st_db s) (st_db s')) (journal m).
Proof. intros Hm. apply moves_zoom. intros d s <-. apply Hm. Qed.

#[local] Hint Resolve journal_on_store : py.

Lemma delete_unreachable_progress i b x t :
  moves (on_db (progress i)) (on_store (delete_unreachable b x t)).
Proof.
  apply moves_zoom. intros s w <-. unfold on_db. cbn.
  assert (PreOrder (λ s s', progress i (st_db s) (st_db s'))).
  { split; [intros ?; reflexivity|intros ???; apply transitivity]. }
  enough (moves (λ s s', progress i (st_db s) (st_db s')) (delete_unreachable b x t)) as Hm
    by apply Hm.
  unfold delete_unreachable, store_error. solve_moves. apply moves_modify. intros ?. reflexivity.
Qed.

#[local] Hint Resolve delete_unreachable_progress mark_gc_candidate_progress : py.

Lemma sweep_progress b i c : moves (on_db (progress i)) (sweep clock_ns after_delete b i c).
Proof.
  unfold sweep. solve_moves. all: apply on_journal_on_db, mark_gc_candidate_progress; done.
Qed.

#[local] Hint Resolve sweep_progress : py.

Lemma finish_progress b i ex st phase : moves (on_db (progress i)) (finish b i ex st phase).
Proof. unfold finish. solve_moves. Qed.

#[local] Hint Resolve finish_progress : py.

Lemma delete_loop_progress b i target digests cs reclaimed :
  moves (on_db (progress i))
    (delete_loop clock_ns cancelled after_delete b i target digests cs reclaimed).
Proof.
  revert reclaimed. induction cs as [|c cs IH]; intros reclaimed; cbn [delete_loop]; solve_moves;
    apply IH.
Qed.

Lemma delete_loop_progress_run b i target digests cs reclaimed w res w' :
  delete_loop clock_ns cancelled after_delete b i target digests cs reclaimed w = (Ok res, w') →
  on_db (progress i) w w'.
Proof.
  intros H. pose proof (delete_loop_progress b i target digests cs reclaimed w) as Hp.
  by rewrite H in Hp.
Qed.

Lemma on_journal_ok {A} (m : M db A) w a w' :
  on_journal m w = (Ok a, w') →
  ∃ d', m (st_db (gw_store w)) = (Ok a, d')
    ∧ w' = GcWorld (set_db d' (gw_store w)) (gw_clock w) (gw_polls w).
Proof.
  unfold on_journal, on_store. intros (s' & (d' & Hd & ->)%journal_ok & ->)%zoom_ok. eauto.
Qed.

Lemma sweep_settles b i c w bytes w' :
  sweep clock_ns after_delete b i c w = (Ok bytes, w') →
  settled i (st_db (gw_store w')) (gc_digest c).
Proof.
  unfold sweep. intros H. inv_run_all. case_bool_decide; inv_run_all;
    match goal with H : on_journal (mark_gc_candidate _ _ _ _) _ = _ |- _ =>
      apply on_journal_ok in H as (d' & (r & Hr & _ & ->)%mark_gc_candidate_ok & ->) end;
    intros r'; cbn; rewrite lookup_insert_eq; by intros [= <-].
Qed.

(** Once the target is reached the loop only finishes the intent. *)
Lemma delete_loop_reached b i target digests cs reclaimed w res w' :
  delete_loop clock_ns cancelled after_delete b i target digests cs reclaimed w = (Ok res, w') →
  (target ≤ reclaimed)%Z → res_reclaimed_bytes res = reclaimed.
Proof.
  intros H Ht. induction cs as [|c cs IH]; cbn [delete_loop] in H.
  - inv_run_all. done.
  - rewrite (proj2 (Z.leb_le _ _) Ht), orb_true_r in H. by apply IH.
Qed.

Lemma delete_loop_complete b i target digests cs reclaimed w res w' :
  delete_loop clock_ns cancelled after_delete b i target digests cs reclaimed w = (Ok res, w') →
  res_status res = "completed" →
  (target ≤ res_reclaimed_bytes res)%Z
  ∨ ∀ c, c ∈ cs → gc_cand_state c = CandPending → settled i (st_db (gw_store w')) (gc_digest c).
Proof.
  revert reclaimed w. induction cs as [|c cs IH]; intros reclaimed w H Hres; [set_solver|].
  cbn [delete_loop] in H. destruct (_ || _) eqn:Hskip.
  - destruct (IH _ _ H Hres) as [?|Hall]; [by left|].
    apply orb_true_iff in Hskip as [Hs|Ht]; bool_facts.
    + right. intros c' [->|?]%elem_of_cons ?; [done|auto].
    + left. by rewrite (delete_loop_reached _ _ _ _ _ _ _ _ _ H).
  - inv_run_all. destruct x; inv_run_all; [by subst|].
    destruct (IH _ _ H Hres) as [?|Hall]; [by left|right].
    intros c' [->|?]%elem_of_cons ?; [|auto].
    eapply settled_progress; [|by eapply sweep_settles].
    by eapply delete_loop_progress_run.
Qed.

Lemma delete_loop_digests b i target digests cs reclaimed w res w' :
  delete_loop clock_ns cancelled after_delete b i target digests cs reclaimed w = (Ok res, w') →
  res_candidate_digests res = digests.
Proof.
  revert reclaimed w. induction cs as [|c cs IH]; intros reclaimed w H; cbn [delete_loop] in H.
  - inv_run_all. by subst.
  - destruct (_ || _); [by eapply IH|]. inv_run_all.
    match goal with H : (if ?b then _ else _) _ = _ |- _ => destruct b end; inv_run_all;
      [by subst|by eapply IH].
Qed.

(** ** The recorded plan *)

Lemma gc_candidate_rows_elem d i x r :
  gc_candidates d !! (i, x) = Some r →
  GcCandidateRec x (cnd_size r) (cnd_state r) ∈ gc_candidate_rows d i.
Proof.
  intros Hr. unfold gc_candidate_rows. rewrite merge_sort_Permutation.
  apply list_elem_of_fmap. exists ((i, x), r). split; [done|].
  apply list_elem_of_filter. split; [done|]. by apply elem_of_map_to_list.
Qed.

Lemma gc_candidate_rows_sorted d i : Sorted String.le (gc_digest <$> gc_candidate_rows d i).
Proof.
  assert (Total candidate_le) by (intros a b; apply (total String.le)).
  assert (Sorted candidate_le (gc_candidate_rows d i)) as Hs by (apply Sorted_merge_sort, _).
  induction Hs as [|c l _ IH Hc]; cbn; constructor; [done|]. destruct Hc; by constructor.
Qed.

Lemma list_gc_candidates_ok b i d cs d' :
  list_gc_candidates b i d = (Ok cs, d') → cs = gc_candidate_rows d i ∧ d' = d.
Proof. unfold list_gc_candidates. intros H. inv_call. naive_solver. Qed.

Lemma plan_gc_candidates_ok b i cands d cs d' :
  plan_gc_candidates b i cands d = (Ok cs, d') → cs = gc_candidate_rows d' i.
Proof. unfold plan_gc_candidates. intros H. inv_call; naive_solver. Qed.

Lemma planned_ok b i w cs w' :
  planned clock_ns b i w = (Ok cs, w') → cs = gc_candidate_rows (st_db (gw_store w')) i.
Proof.
  unfold planned. intros H. inv_run_all.
  match goal with H : on_journal (list_gc_candidates _ _) _ = _ |- _ =>
    apply on_journal_ok in H as (d' & [-> ->]%list_gc_candidates_ok & ->) end.
  destruct (nonempty _); inv_run_all; [done|].
  repeat match goal with
  | H : now _ _ = _ |- _ => apply now_ok in H as [-> ->]
  | H : on_journal (reachable_objects _) _ = _ |- _ =>
      apply on_journal_ok in H as (? & [-> ->]%reachable_objects_ok & ->)
  | H : on_store list_objects _ = _ |- _ =>
      apply (reads_state _ _ _ _ (on_store_reads _ list_objects_reads)) in H as ->
  end.
  destruct (nonempty _); inv_run_all; [|done].
  match goal with H : on_journal _ _ = _ |- _ =>
    apply on_journal_ok in H as (d' & Hd & ->) end. by eapply plan_gc_candidates_ok.
Qed.

Lemma finish_progress_run b i ex st phase w u w' :
  finish b i ex st phase w = (Ok u, w') → on_db (progress i) w w'.
Proof. intros H. pose proof (finish_progress b i ex st phase w) as Hp. by rewrite H in Hp. Qed.

Lemma collect_settles b target w res w' :
  collect clock_ns cancelled after_delete b false target w = (Ok res, w') →
  res_status res = "completed" →
  (target ≤ res_reclaimed_bytes res)%Z
  ∨ ∀ x, settled (operation_id b) (st_db (gw_store w')) x.
Proof.
  unfold collect. intros H Hres. inv_run_all. cbn [orb] in H.
  match goal with H : planned _ _ _ _ = _ |- _ => apply planned_ok in H as -> end.
  destruct (negb _) eqn:Hempty; inv_run_all.
  - right. intros digest. match goal with H : finish _ _ _ _ _ _ = _ |- _ =>
      eapply settled_progress; [by eapply finish_progress_run|] end.
    intros r Hr%gc_candidate_rows_elem. bool_facts.
    destruct (gc_candidate_rows _ _); [by apply elem_of_nil in Hr|done].
  - match goal with H : on_journal (list_gc_candidates _ _) _ = _ |- _ =>
      apply on_journal_ok in H as (d' & [-> ->]%list_gc_candidates_ok & ->) end.
    destruct (delete_loop_complete _ _ _ _ _ _ _ _ _ H Hres) as [?|Hall]; [by left|right].
    intros digest r Hr Hp. pose proof (delete_loop_progress_run _ _ _ _ _ _ _ _ _ H) as Hprog.
    destruct (Hprog digest) as [E|(? & r' & ? & ? & ? & ? & Hn)]; [|congruence].
    cbn in E. rewrite Hr in E. symmetry in E. apply gc_candidate_rows_elem in E as Hin.
    by apply (Hall _ Hin Hp r Hr).
Qed.

Lemma collect_digests b dry target w res w' :
  collect clock_ns cancelled after_delete b dry target w = (Ok res, w') →
  Sorted String.le (res_candidate_digests res).
Proof.
  unfold collect. intros H. inv_run_all.
  match goal with H : planned _ _ _ _ = _ |- _ => apply planned_ok in H as -> end.
  destruct (_ || _); inv_run_all; [subst; cbn; apply gc_candidate_rows_sorted|].
  apply delete_loop_digests in H as ->. apply gc_candidate_rows_sorted.
Qed.
End collector_facts.

(** ** Theorems *)

(** C13. Whatever the clock, the cancellation polls and the hooks do, and
    whether it returns or raises, a collection leaves generations, their
    objects and leases as they were; a store file it removed was outside every
    rooted generation and every live lease at one of the clock readings of
    this collection; the objects of a generation in a rooted state are kept,
    and so are those of a generation whose lease outlives every reading. *)
Theorem collection_spares_reachable_objects clock_ns cancelled after_delete b dry target w :
  let w' := (collect clock_ns cancelled after_delete b dry target w).2 in
  let d := st_db (gw_store w) in
  same_roots d (st_db (gw_store w'))
  ∧ (∀ x, st_files (gw_store w') !! x ≠ st_files (gw_store w) !! x →
       st_files (gw_store w') !! x = None
       ∧ ∃ k, gw_clock w ≤ k < gw_clock w' ∧ x ∉ reachable_set d (clock_ns k))
  ∧ (∀ g row x, generations d !! g = Some row → rooted_state (gen_state row) = true →
       (g, x) ∈ generation_objects d →
       st_files (gw_store w') !! x = st_files (gw_store w) !! x)
  ∧ (∀ l lease row x, leases d !! l = Some lease →
       generations d !! lease_generation lease = Some row →
       (∀ k, gw_clock w ≤ k < gw_clock w' → (clock_ns k ≤ lease_expires lease)%Z) →
       (lease_generation lease, x) ∈ generation_objects d →
       st_files (gw_store w') !! x = st_files (gw_store w) !! x).
Proof.
  intros w' d. destruct (collect_collected clock_ns cancelled after_delete b dry target w)
    as (_ & Hroots & Hfiles). split_and!; [done|..].
  - intros x Hx. destruct (Hfiles x) as [?|?]; [done|]. naive_solver.
  - intros g row x Hg Hrow Hx. destruct (Hfiles x) as [?|(_ & k & _ & Hk)]; [done|].
    destruct Hk. by eapply rooted_object_reachable.
  - intros l lease row x Hl Hg Hlive Hx.
    destruct (Hfiles x) as [?|(_ & k & Hkr & Hk)]; [done|]. destruct Hk.
    eapply leased_object_reachable; [done..|]. by apply Hlive.
Qed.

(** A dry run writes only its operation and its plan: no store file, no
    component, derived object, partial download, generation or lease changes,
    whether it returns or raises. *)
Theorem dry_run_changes_nothing clock_ns cancelled after_delete b target w :
  untouched w (collect clock_ns cancelled after_delete b true target w).2.
Proof. apply dry_run_untouched. Qed.

(** A collection that reports [completed] has reclaimed the target, or has
    settled every candidate of its plan: deleted it, or skipped it because it
    became reachable. *)
Theorem completed_collection_reaches_its_target clock_ns cancelled after_delete b target w res w' :
  collect clock_ns cancelled after_delete b false target w = (Ok res, w') →
  res_status res = "completed" →
  (target ≤ res_reclaimed_bytes res)%Z
  ∨ ∀ x r, gc_candidates (st_db (gw_store w')) !! (operation_id b, x) = Some r →
      cnd_state r ≠ CandPending.
Proof. apply collect_settles. Qed.

(** The candidates of a collection are processed in the order of their
    digests, whatever their kind: the order of [plan_candidates], which puts
    derived objects first, does not survive the journal. *)
Theorem candidates_are_in_digest_order clock_ns cancelled after_delete b dry target w res w' :
  collect clock_ns cancelled after_delete b dry target w = (Ok res, w') →
  Sorted String.le (res_candidate_digests res).
Proof. apply collect_digests. Qed.

(** ** Witnesses *)

Definition derived_digest : string :=
  "00000000000000000000000000000000000000000000000000000000000000bb".

Definition sample_component (digest kind : string) (size : Z) : component_row :=
  ComponentRow "weights" size kind CompComplete (Some (object_name digest)) None.

(** A model object and a derived object that no generation refers to. *)
Definition sample_world : gc_world :=
  GcWorld
    (Store (set_components (λ _,
        {[ sample_digest := sample_component sample_digest "model" 5;
           derived_digest := sample_component derived_digest "derived" 7 ]}) empty_db)
       {[ sample_digest := File FRegular true 5 sample_digest;
          derived_digest := File FRegular true 7 derived_digest ]} [])
    0 0.

Definition sample_collection : result GarbageCollectionResult * gc_world :=
  collect (λ n, 10 + Z.of_nat n)%Z (λ _, false) (λ _, Ok ()) (sample_binding 1) false 1 sample_world.

Lemma completed_collection_witness :
  ∃ res w', sample_collection = (Ok res, w') ∧ res_status res = "completed"
    ∧ ((1 ≤ res_reclaimed_bytes res)%Z
       ∨ ∀ x r, gc_candidates (st_db (gw_store w')) !! (operation_id (sample_binding 1), x) = Some r →
           cnd_state r ≠ CandPending).
Proof.
  assert (match sample_collection.1 with Ok res => eqb (res_status res) "completed"
          | Err _ => false end = true) as Hok by (vm_compute; reflexivity).
  destruct sample_collection as [[res|e] w'] eqn:H; [|discriminate Hok].
  apply (proj1 (eqb_true (res_status res) _)) in Hok. exists res, w'. split; [reflexivity|]. split; [exact Hok|].
  exact (completed_collection_reaches_its_target _ _ _ _ _ _ _ _ H Hok).
Defined.

(** The plan puts the derived object first; the collection deletes the model. *)
Lemma candidates_are_in_digest_order_witness :
  ∃ res w', sample_collection = (Ok res, w')
    ∧ Sorted String.le (res_candidate_digests res)
    ∧ plan_candidates [Stored sample_digest 5 "model" (object_name sample_digest);
                       Stored derived_digest 7 "derived" (object_name derived_digest)] ∅
      = [(derived_digest, 7%Z); (sample_digest, 5%Z)]
    ∧ st_files (gw_store w') !! sample_digest = None
    ∧ st_files (gw_store w') !! derived_digest = Some (File FRegular true 7 derived_digest).
Proof.
  assert (is_ok sample_collection.1 = true) as Hok by (vm_compute; reflexivity).
  assert (st_files (gw_store sample_collection.2) !! sample_digest = None) as Ha
    by (vm_compute; reflexivity).
  assert (st_files (gw_store sample_collection.2) !! derived_digest
          = Some (File FRegular true 7 derived_digest)) as Hb by (vm_compute; reflexivity).
  destruct sample_collection as [[res|e] w'] eqn:H; [|discriminate Hok].
  exists res, w'. split; [reflexivity|]. split; [|split; [vm_compute; reflexivity|split]].
  - exact (candidates_are_in_digest_order _ _ _ _ _ _ _ _ _ H).
  - exact Ha.
  - exact Hb.
Defined.
