(* ===== verification/PackageEngine.v ===== *)
(** * The package engine ([agent/src/vonk_agent/packages/engine.py])

    [PackageEngine] moves workload generations through the journal: prepare,
    activate, roll back, health and stop, remove, repair and garbage
    collection. Its world is the content store with the journal, the pointer
    files, the release locks in memory and on disk, and the generation trees.

    The objects its constructor takes are the class [Services]: trust,
    acquisition, materializer, adapters, preflight, progress, cancellation and
    the crash hook. [ServicesFrame] is the promise the engine relies on: they
    leave the generations and leases of the journal, the owner of the running
    operation and the pointer files alone.

    Directory-handle checks ([_private_directory], symbolic links in the path of
    a root) and failures of [fsync] after a rename are not modelled. *)

From S2P Require Import Prelude Identifiers PackageState PackageStore PackageJournal.
From S2P Require Import PackageGC Canonical Contracts.

Record PackageOperationRequest := Request {
  req_operation : AgentOperation;
  req_deployment_id : option string;
  req_release_digest : option string;
  req_deployment_digest : option string;
  req_dry_run : option bool;
  req_target_bytes : option Z;
  req_deployment : option json;
  req_deployment_config_digest : option string
}.

Inductive AdapterOperation := APrepare | AVerify | AStart | AHealth | AInfer | AStop | AVerifyRelease.

#[export] Instance AdapterOperation_eq_dec : EqDecision AdapterOperation.
Proof. solve_decision. Defined.

Definition adapter_value (o : AdapterOperation) : string :=
  match o with
  | APrepare => "prepare" | AVerify => "verify" | AStart => "start" | AHealth => "health"
  | AInfer => "infer" | AStop => "stop" | AVerifyRelease => "verify-release"
  end.

Record AdapterInvocation := Invocation {
  inv_job_id : string; inv_operation_id : string; inv_attempt : Z; inv_fence : string;
  inv_release_digest : string; inv_generation : string; inv_node_id : string
}.

Definition check_invocation (i : AdapterInvocation) : result unit :=
  ensure (is_uuid4 (inv_job_id i)) EAdapterValidation "job ID is invalid";;
  ensure (is_uuid4 (inv_operation_id i)) EAdapterValidation "operation ID is invalid";;
  ensure (is_uuid4 (inv_fence i)) EAdapterValidation "operation fence is invalid";;
  ensure ((1 <=? inv_attempt i)%Z && (inv_attempt i <=? 2 ^ 31 - 1)%Z) EAdapterValidation
    "attempt is invalid";;
  ensure (is_digest (inv_release_digest i)) EAdapterValidation "release digest is invalid";;
  ensure (is_identifier (inv_generation i)) EAdapterValidation "generation is invalid";;
  ensure (is_node_id (inv_node_id i)) EAdapterValidation "node ID is invalid".

Record descriptor := Descriptor { desc_name : string; desc_digest : string; desc_size : Z }.

(** A release lock; [lock_typed] says that it is a [PackageReleaseLock]. *)
Record lock := Lock {
  lock_digest : string; lock_components : list descriptor; lock_adapter : descriptor;
  lock_canonical : string; lock_typed : bool
}.

Record lock_file := LockFile { lf_bytes : string; lf_links : Z; lf_mode : Z }.

(** An entry of the generation root. *)
Inductive tree := TDirectory (contains_symlink : bool) | TOther.

Record engine_world := EngineWorld {
  ew_gc : gc_world;
  ew_pointers : gmap string string;
  ew_pointer_tmp : gset string;
  ew_locks : gmap string lock;
  ew_lock_files : gmap string lock_file;
  ew_lock_tmp : gset string;
  ew_trees : gmap string tree
}.

Definition ew_db (w : engine_world) : db := st_db (gw_store (ew_gc w)).

Definition set_gc (g : gc_world) (w : engine_world) : engine_world :=
  EngineWorld g (ew_pointers w) (ew_pointer_tmp w) (ew_locks w) (ew_lock_files w)
    (ew_lock_tmp w) (ew_trees w).
Definition set_pointers (p : gmap string string) (t : gset string) (w : engine_world) : engine_world :=
  EngineWorld (ew_gc w) p t (ew_locks w) (ew_lock_files w) (ew_lock_tmp w) (ew_trees w).
Definition set_locks (l : gmap string lock) (w : engine_world) : engine_world :=
  EngineWorld (ew_gc w) (ew_pointers w) (ew_pointer_tmp w) l (ew_lock_files w)
    (ew_lock_tmp w) (ew_trees w).
Definition set_lock_files (f : gmap string lock_file) (t : gset string) (w : engine_world) : engine_world :=
  EngineWorld (ew_gc w) (ew_pointers w) (ew_pointer_tmp w) (ew_locks w) f t (ew_trees w).
Definition set_trees (t : gmap string tree) (w : engine_world) : engine_world :=
  EngineWorld (ew_gc w) (ew_pointers w) (ew_pointer_tmp w) (ew_locks w) (ew_lock_files w)
    (ew_lock_tmp w) t.

Definition on_gc {A} (m : M gc_world A) : M engine_world A := zoom ew_gc set_gc m.
Definition state {A} (m : M db A) : M engine_world A := on_gc (on_journal m).

Definition engine_error {A} (m : string) : M engine_world A := throw EPackageEngine m.

Inductive PackageDisposition := READY | SAFE_TO_RETRY | COMPLETED | COMPENSATE | OPERATOR_INTERVENTION.

#[export] Instance PackageDisposition_eq_dec : EqDecision PackageDisposition.
Proof. solve_decision. Defined.

Record PackageEvidence := Evidence {
  ev_operation : string; ev_deployment_id : string; ev_release_digest : string;
  ev_generation : option string; ev_status : string; ev_digest : string
}.

(** What [execute] returns. *)
Inductive outcome :=
| OEvidence (e : PackageEvidence)
| OCollection (r : GarbageCollectionResult).

(** ** The services of the constructor *)

Class Services := {
  clock_ns : nat → Z;
  cancel_poll : nat → bool;
  after_delete : string → result unit;
  has_collector : bool;
  umask : Z;
  trust_refresh : M engine_world unit;
  trusted_lock : string → M engine_world lock;
  preflight : lock → PackageOperationRequest → OperationBinding → M engine_world unit;
  fetch : descriptor → OperationBinding → Z → M engine_world StoreObject;
  materialize : lock → gmap string StoreObject → M engine_world (list string);
  handle : Type;
  accepts_request : bool;
  adapter_factory : lock → string → string → gmap string StoreObject →
    option PackageOperationRequest → M engine_world handle;
  adapter_execute : handle → AdapterOperation → AdapterInvocation → Z → M engine_world unit;
  crash_hook : string → M engine_world unit;
  parse_lock : string → result lock;
  sys_open : string → M engine_world unit;
  sys_write : string → M engine_world unit;
  sys_sync : string → M engine_world unit
}.

(** ** Identities and evidence *)

Definition release_identity (r : PackageOperationRequest) : result (string * string) :=
  match req_deployment_id r, req_release_digest r with
  | Some deployment, Some release => Ok (deployment, release)
  | _, _ => raise EPackageEngine "release-bound package identity is missing"
  end.

Definition slice (n : nat) (s : string) : string := String.substring 0 n s.

Fixpoint repeat_char (c : Ascii.ascii) (n : nat) : string :=
  match n with O => EmptyString | S n => String c (repeat_char c n) end.

Definition generation_id_of (r : PackageOperationRequest) : result string :=
  identity ← release_identity r;
  let deployment := match req_deployment_digest r with
                    | Some "" | None => repeat_char "0"%char 64
                    | Some digest => digest
                    end in
  mret ("gen-" +:+ slice 24 identity.1 +:+ "-" +:+ slice 12 deployment
        +:+ "-" +:+ slice 24 identity.2).

Definition json_option (o : option string) : json :=
  match o with Some s => JStr s | None => JNull end.

Definition evidence (r : PackageOperationRequest) (generation : option string) (status : string)
    : result PackageEvidence :=
  identity ← release_identity r;
  let body := JObj [("operation", JStr (operation_value (req_operation r)));
                    ("deployment_id", JStr identity.1);
                    ("release_digest", JStr identity.2);
                    ("generation", json_option generation);
                    ("status", JStr status)] in
  mret (Evidence (operation_value (req_operation r)) identity.1 identity.2 generation status
          (document_digest body)).

(** ** Pointer files *)

Definition pointer_body (g : GenerationRecord) (previous : option GenerationRecord)
    : list (string * json) :=
  [("schema_version", JInt 1);
   ("deployment_id", JStr (gr_deployment_id g));
   ("generation", JStr (gr_generation_id g));
   ("release_digest", JStr (gr_release_digest g));
   ("previous_generation", json_option (gr_generation_id <$> previous))].

Definition pointer_document (g : GenerationRecord) (previous : option GenerationRecord) : string :=
  let body := pointer_body g previous in
  canonical (JObj (body ++ [("pointer_digest", JStr (document_digest (JObj body)))])).

#[global] Arguments pointer_document : simpl never.

(** ** Generation trees *)

Definition remove_tree_no_symlinks (name : string) : M engine_world unit :=
  w ← get;
  match ew_trees w !! name with
  | Some (TDirectory false) => modify (λ w, set_trees (delete name (ew_trees w)) w)
  | Some (TDirectory true) => engine_error "generation cleanup tree contains a symlink"
  | Some TOther => engine_error "generation cleanup tree is unsafe"
  | None => throw EOS "No such file or directory"
  end.

Definition tombstone_name (digest : string) : string := "." +:+ digest +:+ ".remove".

Definition is_directory (t : option tree) : bool :=
  match t with Some TOther => false | _ => true end.

Definition remove_generation_tree (digest : string) : M engine_world unit :=
  lift (ensure (is_digest digest) EPackageEngine "release digest is invalid");;
  w ← get;
  let target := ew_trees w !! digest in
  let tombstone := ew_trees w !! tombstone_name digest in
  lift (ensure (is_directory target) EPackageEngine "generation tree is not a directory");;
  lift (ensure (is_directory tombstone) EPackageEngine "generation cleanup tombstone is unsafe");;
  match target, tombstone with
  | Some t, None =>
      modify (λ w, set_trees (<[tombstone_name digest := t]> (delete digest (ew_trees w))) w)
  | Some _, Some _ => engine_error "generation cleanup tombstone already exists"
  | None, _ => mret ()
  end;;
  w ← get;
  match ew_trees w !! tombstone_name digest with
  | None => mret ()
  | Some _ => remove_tree_no_symlinks (tombstone_name digest)
  end.

Section engine.
Context `{Services}.

(** [self._cancelled(binding)] and [time.time_ns()]. *)
Definition cancelled : M engine_world bool := on_gc (poll_cancelled cancel_poll).
Definition time_ns : M engine_world Z := on_gc (
  w ← get;
  modify (λ w, GcWorld (gw_store w) (S (gw_clock w)) (gw_polls w));;
  mret (clock_ns (gw_clock w))).

(** [os.open] of the temporary file made it. *)
Definition with_temporary (name : string) (w : engine_world) : engine_world :=
  set_pointers (ew_pointers w) ({[name]} ∪ ew_pointer_tmp w) w.

(** [_atomic_write] of a pointer: the temporary name is opened with [O_EXCL], which fails
    when it exists or for any reason of the system ([sys_open]); writing, syncing, closing
    or replacing may fail ([sys_write]) while it exists; and opening or syncing the
    directory may fail ([sys_sync]) when the pointer is already in place. *)
Definition atomic_write (name data : string) : M engine_world unit :=
  w ← get;
  if bool_decide (name ∈ ew_pointer_tmp w) then throw EOS "File exists"
  else
    sys_open name;;
    modify (with_temporary name);;
    sys_write name;;
    modify (λ w, set_pointers (<[name := data]> (ew_pointers w)) (ew_pointer_tmp w ∖ {[name]}) w);;
    sys_sync name.

Definition select_pointer (g : GenerationRecord) (previous : option GenerationRecord)
    : M engine_world unit :=
  atomic_write (gr_deployment_id g) (pointer_document g previous).

(** ** Release locks *)

Definition lock_mode_safe (f : lock_file) : bool :=
  (lf_links f =? 1)%Z && (Z.of_nat (String.length (lf_bytes f)) <=? 1024 * 1024)%Z
  && (Z.land (lf_mode f) 127 =? 0)%Z.

Definition unavailable (e : exn) : exn :=
  if among (exn_cls e) [EOS; EType; EValue; EAgentProtocol]
  then Exn EPackageEngine "local release metadata is unavailable" else e.

Definition local_lock (digest : string) : M engine_world lock :=
  w ← get;
  match ew_locks w !! digest with
  | Some l => mret l
  | None =>
      l ← match ew_lock_files w !! digest with
          | None => engine_error "local release metadata is unavailable"
          | Some f =>
              if negb (lock_mode_safe f) then engine_error "local release metadata is unavailable"
              else match parse_lock (lf_bytes f) with
                   | Ok l =>
                       lift (ensure (eqb (lock_digest l) digest && eqb (lock_canonical l) (lf_bytes f))
                         EPackageEngine "local release metadata is inconsistent");;
                       mret l
                   | Err e => rethrow (unavailable e)
                   end
          end;
      modify (λ w, set_locks (<[digest := l]> (ew_locks w)) w);;
      mret l
  end.

(** A lock file is created with mode 0444 under the umask of the process. *)
Definition created_mode : Z := Z.land 292 (Z.lnot umask).

Definition persist_lock (l : lock) : M engine_world unit :=
  if negb (lock_typed l) then mret ()
  else
    w ← get;
    match ew_lock_files w !! lock_digest l with
    | Some f =>
        lift (ensure (eqb (lf_bytes f) (lock_canonical l)) EPackageEngine
          "local release metadata conflicts")
    | None =>
        if bool_decide (lock_digest l ∈ ew_lock_tmp w) then throw EOS "File exists"
        else
          sys_open (lock_digest l);;
          modify (λ w, set_lock_files (ew_lock_files w) ({[lock_digest l]} ∪ ew_lock_tmp w) w);;
          sys_write (lock_digest l);;
          modify (λ w, set_lock_files
            (<[lock_digest l := LockFile (lock_canonical l) 1 created_mode]> (ew_lock_files w))
            (ew_lock_tmp w ∖ {[lock_digest l]}) w);;
          sys_sync (lock_digest l)
    end.

(** ** Adapters *)

Definition adapter (l : lock) (generation : string) (objects : gmap string StoreObject)
    (r : PackageOperationRequest) : M engine_world handle :=
  adapter_factory l generation (lock_digest l) objects
    (if accepts_request then Some r else None).

Definition invoke (a : handle) (o : AdapterOperation) (b : OperationBinding)
    (release generation : string) (deadline : Z) : M engine_world unit :=
  let i := Invocation (job_id b) (operation_id b) (attempt b) (fence b) release generation
             (node_id b) in
  lift (check_invocation i);;
  adapter_execute a o i deadline.

(** ** Operations *)

Definition cancel_preparation (b : OperationBinding) : M engine_world unit :=
  stop ← cancelled;
  if stop : bool then
    state (set_phase b "cancelled");;
    throw EPackageCancelled "package preparation was cancelled"
  else mret ().

Fixpoint fetch_all (b : OperationBinding) (deadline : Z) (ds : list descriptor)
    (objects : gmap string StoreObject) : M engine_world (gmap string StoreObject) :=
  match ds with
  | [] => mret objects
  | d :: ds =>
      cancel_preparation b;;
      stored ← fetch d b deadline;
      fetch_all b deadline ds (<[so_digest stored := stored]> objects)
  end.

Definition prepare (r : PackageOperationRequest) (b : OperationBinding) (deadline : Z)
    : M engine_world PackageEvidence :=
  identity ← lift (release_identity r);
  let release := identity.2 in
  state (begin_operation b "preflight");;
  cancel_preparation b;;
  trust_refresh;;
  l ← trusted_lock release;
  lift (ensure (eqb (lock_digest l) release) EPackageEngine
    "trusted release identity is inconsistent");;
  modify (λ w, set_locks (<[release := l]> (ew_locks w)) w);;
  persist_lock l;;
  preflight l r b;;
  state (set_phase b "fetch");;
  objects ← fetch_all b deadline (lock_components l ++ [lock_adapter l]) ∅;
  state (set_phase b "materialize");;
  digests ← materialize l objects;
  generation ← lift (generation_id_of r);
  state (record_generation b identity.1 generation release
    (py_sorted (remove_dups digests)) GStaging);;
  state (set_phase b "validate");;
  a ← adapter l generation objects r;
  invoke a APrepare b release generation deadline;;
  invoke a AVerify b release generation deadline;;
  invoke a AVerifyRelease b release generation deadline;;
  state (transition_generation b generation [GStaging] GValidated);;
  state (set_phase b "validated");;
  lift (evidence r (Some generation) "validated").

Definition compensate (r : PackageOperationRequest) (b : OperationBinding)
    (target : GenerationRecord) (previous : option GenerationRecord) (deadline : Z)
    (status : string) : M engine_world PackageEvidence :=
  match previous with
  | None =>
      state (transition_generation b (gr_generation_id target) [GActive; GRetained] GFailed);;
      state (set_phase b status);;
      lift (evidence r (Some (gr_generation_id target)) status)
  | Some p =>
      select_pointer p (Some target);;
      state (activate_generation b (gr_generation_id p));;
      l ← local_lock (gr_release_digest p);
      a ← adapter l (gr_generation_id p) ∅ r;
      invoke a AStart b (gr_release_digest p) (gr_generation_id p) deadline;;
      invoke a AHealth b (gr_release_digest p) (gr_generation_id p) deadline;;
      (if eqb status "failed" then
         state (transition_generation b (gr_generation_id target) [GRetained] GFailed);;
         mret ()
       else mret ());;
      state (set_phase b "rolled-back");;
      lift (evidence r (Some (gr_generation_id target)) "rolled-back")
  end.

(** The [try] block of [_activate]: start, poll, health; [Some] is an early return. *)
Definition start_and_check (r : PackageOperationRequest) (b : OperationBinding) (a : handle)
    (target : GenerationRecord) (previous : option GenerationRecord) (release : string)
    (deadline : Z) : M engine_world (option PackageEvidence) :=
  state (set_phase b "start");;
  invoke a AStart b release (gr_generation_id target) deadline;;
  stop ← cancelled;
  if stop : bool then
    ev ← compensate r b target previous deadline "rolled-back";
    mret (Some ev)
  else
    state (set_phase b "health");;
    invoke a AHealth b release (gr_generation_id target) deadline;;
    mret None.

(** [PackageCancelled] is a [PackageEngineError]; [EInterrupted] stands for what
    is not an [Exception]. *)
Definition is_engine_error (e : exn) : bool := among (exn_cls e) [EPackageEngine; EPackageCancelled].
Definition is_exception (e : exn) : bool := negb (eqb (exn_cls e) EInterrupted).

Definition activatable (g : option GenerationRecord) : bool :=
  match g with
  | Some g => among (gr_state g) [GValidated; GRetained; GActive]
  | None => false
  end.

Definition activate (r : PackageOperationRequest) (b : OperationBinding) (deadline : Z)
    : M engine_world PackageEvidence :=
  identity ← lift (release_identity r);
  let release := identity.2 in
  state (begin_operation b "pointer-selecting");;
  found ← state (generation_for_release identity.1 release);
  match found with
  | None => engine_error "release has no validated local generation"
  | Some target =>
      lift (ensure (activatable found) EPackageEngine "release has no validated local generation");;
      previous ← state (active_generation identity.1);
      stop ← cancelled;
      (if stop : bool then
         state (set_phase b "cancelled");;
         throw EPackageCancelled "package activation was cancelled"
       else mret ());;
      state (set_phase b "pointer-selecting");;
      select_pointer target previous;;
      state (set_phase b "pointer-selected");;
      crash_hook "pointer-selected";;
      state (activate_generation b (gr_generation_id target));;
      l ← local_lock release;
      a ← adapter l (gr_generation_id target) ∅ r;
      early ← try_catch (start_and_check r b a target previous release deadline) (λ e,
        if is_engine_error e then rethrow e
        else if is_exception e then
          compensate r b target previous deadline "failed";;
          engine_error "package health verification failed"
        else rethrow e);
      match early with
      | Some ev => mret ev
      | None =>
          state (set_phase b "active");;
          lift (evidence r (Some (gr_generation_id target)) "active")
      end
  end.

Definition rollback (r : PackageOperationRequest) (b : OperationBinding) (deadline : Z)
    : M engine_world PackageEvidence :=
  identity ← lift (release_identity r);
  let release := identity.2 in
  state (begin_operation b "pointer-selecting");;
  found ← state (generation_for_release identity.1 release);
  match found with
  | None => engine_error "rollback generation is not retained locally"
  | Some target =>
      lift (ensure (activatable found) EPackageEngine "rollback generation is not retained locally");;
      previous ← state (active_generation identity.1);
      select_pointer target previous;;
      state (set_phase b "pointer-selected");;
      state (activate_generation b (gr_generation_id target));;
      l ← local_lock release;
      a ← adapter l (gr_generation_id target) ∅ r;
      invoke a AStart b release (gr_generation_id target) deadline;;
      invoke a AHealth b release (gr_generation_id target) deadline;;
      state (set_phase b "rolled-back");;
      lift (evidence r (Some (gr_generation_id target)) "active")
  end.

Definition invoke_existing (r : PackageOperationRequest) (b : OperationBinding) (deadline : Z)
    (o : AdapterOperation) : M engine_world PackageEvidence :=
  identity ← lift (release_identity r);
  let release := identity.2 in
  state (begin_operation b (adapter_value o));;
  found ← state (generation_for_release identity.1 release);
  match found with
  | None => engine_error "package generation is not installed"
  | Some g =>
      l ← local_lock release;
      a ← adapter l (gr_generation_id g) ∅ r;
      invoke a o b release (gr_generation_id g) deadline;;
      state (set_phase b "completed");;
      lift (evidence r (Some (gr_generation_id g)) "ok")
  end.

Definition generation_state_value (s : generation_state) : string :=
  match s with
  | GStaging => "staging" | GValidated => "validated" | GActive => "active"
  | GRetained => "retained" | GFailed => "failed" | GQuarantined => "quarantined"
  | GStaged => "staged" | GRollback => "rollback" | GInactive => "inactive"
  | GPinned => "pinned"
  end.

Definition protected_states : list generation_state :=
  [GActive; GRetained; GStaging; GValidated; GStaged; GRollback; GPinned].

Definition removable_states : list generation_state := [GFailed; GQuarantined; GInactive].

Definition remove (r : PackageOperationRequest) (b : OperationBinding)
    : M engine_world PackageEvidence :=
  identity ← lift (release_identity r);
  let release := identity.2 in
  state (begin_operation b "remove");;
  found ← state (generation_for_release identity.1 release);
  match found with
  | None =>
      state (set_phase b "completed");;
      lift (evidence r None "removed")
  | Some g =>
      lift (ensure (negb (among (gr_state g) protected_states)) EPackageEngine
        ("generation state " +:+ generation_state_value (gr_state g) +:+ " cannot be removed"));;
      t ← time_ns;
      leased ← state (has_live_lease (gr_generation_id g) t);
      lift (ensure (negb leased) EPackageEngine "leased generation cannot be removed");;
      referenced ← state (has_generation_reference release (Some (gr_generation_id g)) t);
      if referenced : bool then
        state (transition_generation b (gr_generation_id g) removable_states GFailed);;
        state (set_phase b "completed");;
        lift (evidence r (Some (gr_generation_id g)) "removed")
      else
        state (transition_generation b (gr_generation_id g) removable_states GFailed);;
        state (set_phase b "cleanup");;
        try_catch (remove_generation_tree release) (λ e,
          if among (exn_cls e) [EOS; EPackageEngine; EPackageCancelled]
          then engine_error "generation cleanup failed safely" else rethrow e);;
        state (set_phase b "completed");;
        lift (evidence r (Some (gr_generation_id g)) "removed")
  end.

Definition repair (r : PackageOperationRequest) (b : OperationBinding) (deadline : Z)
    : M engine_world PackageEvidence :=
  identity ← lift (release_identity r);
  state (begin_operation b "repair");;
  found ← state (generation_for_release identity.1 identity.2);
  match found with
  | None => mret ()
  | Some g =>
      lift (ensure (negb (eqb (gr_state g) GActive)) EPackageEngine
        "active generation must be rolled back before repair");;
      state (transition_generation b (gr_generation_id g) [gr_state g] GQuarantined);;
      mret ()
  end;;
  prepare r b deadline.

Definition default_target : Z := 2 ^ 63 - 1.

Definition gc (r : PackageOperationRequest) (b : OperationBinding)
    : M engine_world GarbageCollectionResult :=
  if negb has_collector then engine_error "package garbage collection is unavailable"
  else
    let target := match req_target_bytes r with
                  | Some 0%Z | None => default_target
                  | Some n => n
                  end in
    on_gc (collect clock_ns cancel_poll after_delete b (default false (req_dry_run r)) target).

Definition execute (r : PackageOperationRequest) (b : OperationBinding) (deadline : Z)
    : M engine_world outcome :=
  match req_operation r with
  | PACKAGE_PREPARE => ev ← prepare r b deadline; mret (OEvidence ev)
  | PACKAGE_ACTIVATE => ev ← activate r b deadline; mret (OEvidence ev)
  | PACKAGE_ROLLBACK => ev ← rollback r b deadline; mret (OEvidence ev)
  | PACKAGE_HEALTH => ev ← invoke_existing r b deadline AHealth; mret (OEvidence ev)
  | PACKAGE_STOP => ev ← invoke_existing r b deadline AStop; mret (OEvidence ev)
  | PACKAGE_REMOVE => ev ← remove r b; mret (OEvidence ev)
  | PACKAGE_REPAIR => ev ← repair r b deadline; mret (OEvidence ev)
  | PACKAGE_GC => res ← gc r b; mret (OCollection res)
  | _ => engine_error "package operation belongs to another engine"
  end.

Definition classify (phase : string) : PackageDisposition :=
  if among phase ["completed"; "validated"; "active"; "rolled-back"] then COMPLETED
  else if among phase ["preflight"; "fetch"; "materialize"; "validate"; "repair"; "cleanup"]
  then SAFE_TO_RETRY
  else if among phase ["pointer-selecting"; "pointer-selected"; "start"; "health"] then COMPENSATE
  else OPERATOR_INTERVENTION.

Definition inspect (b : OperationBinding) : M engine_world PackageDisposition :=
  try_catch (record ← state (operation b); mret (classify (rec_phase record))) (λ e,
    if eqb (exn_cls e) EPackageStateConflict then mret READY else rethrow e).

End engine.

(** ** What the services promise *)

(** The journal's operations, generations and leases and the pointer files are
    as they were. *)
Definition frame (w w' : engine_world) : Prop :=
  same_roots (ew_db w) (ew_db w') ∧ operations (ew_db w') = operations (ew_db w)
  ∧ ew_pointers w' = ew_pointers w ∧ ew_pointer_tmp w' = ew_pointer_tmp w.

#[export] Instance frame_preorder : PreOrder frame.
Proof.
  split; [intros w; by split_and!|]. intros w1 w2 w3 (?&?&?&?) (?&?&?&?).
  split_and!; [by etrans|congruence..].
Qed.

(** No service raises one of the engine's own exceptions. *)
Definition foreign {A} (m : M engine_world A) : Prop :=
  ∀ w e w', m w = (Err e, w') → is_engine_error e = false.

Class ServicesFrame `{Services} : Prop := {
  trust_refresh_frame : moves frame trust_refresh;
  trusted_lock_frame d : moves frame (trusted_lock d);
  preflight_frame l r b : moves frame (preflight l r b);
  fetch_frame d b t : moves frame (fetch d b t);
  materialize_frame l objects : moves frame (materialize l objects);
  adapter_factory_frame l g p objects r : moves frame (adapter_factory l g p objects r);
  adapter_execute_frame a o i t : moves frame (adapter_execute a o i t);
  crash_hook_frame phase : moves frame (crash_hook phase);
  sys_open_frame name : moves frame (sys_open name);
  sys_write_frame name : moves frame (sys_write name);
  sys_sync_frame name : moves frame (sys_sync name);
  sys_sync_locks name w : ew_lock_files (sys_sync name w).2 = ew_lock_files w
}.

Class ServicesForeign `{Services} : Prop := {
  adapter_factory_foreign l g p objects r : foreign (adapter_factory l g p objects r);
  adapter_execute_foreign a o i t : foreign (adapter_execute a o i t);
  crash_hook_foreign phase : foreign (crash_hook phase);
  sys_open_foreign name : foreign (sys_open name);
  sys_write_foreign name : foreign (sys_write name);
  sys_sync_foreign name : foreign (sys_sync name);
  parse_lock_foreign raw e : parse_lock raw = Err e → is_engine_error e = false
}.

Section services.
Context `{ServicesFrame} (R : relation engine_world) (HR : ∀ w w', frame w w' → R w w').

Lemma service_moves {A} (m : M engine_world A) : moves frame m → moves R m.
Proof. by apply moves_impl. Qed.
End services.

#[export] Hint Resolve trust_refresh_frame trusted_lock_frame preflight_frame fetch_frame
  materialize_frame adapter_factory_frame adapter_execute_frame crash_hook_frame
  sys_open_frame sys_write_frame sys_sync_frame : py.

(** A relation on the journal, seen from the engine. *)
Definition on_ew (Q : relation db) (w w' : engine_world) : Prop := Q (ew_db w) (ew_db w').

#[export] Instance on_ew_preorder (Q : relation db) `{!PreOrder Q} : PreOrder (on_ew Q).
Proof. split; [intros w; unfold on_ew; reflexivity|]. intros w1 w2 w3. unfold on_ew. apply transitivity. Qed.

Lemma state_moves {A} (Q : relation db) (m : M db A) : moves Q m → moves (on_ew Q) (state m).
Proof.
  intros Hm. unfold state, on_gc. apply moves_zoom. intros g w <-. unfold on_ew.
  pose proof (on_journal_on_db Q m Hm (ew_gc w)) as H. exact H.
Qed.

Lemma state_ok {A} (m : M db A) w a w' :
  state m w = (Ok a, w') →
  ∃ d', m (ew_db w) = (Ok a, d') ∧ ew_db w' = d'
    ∧ ew_pointers w' = ew_pointers w ∧ ew_pointer_tmp w' = ew_pointer_tmp w
    ∧ ew_locks w' = ew_locks w ∧ ew_lock_files w' = ew_lock_files w ∧ ew_trees w' = ew_trees w.
Proof.
  unfold state, on_gc. intros (g & (d' & Hd & ->)%on_journal_ok & ->)%zoom_ok.
  exists d'. by split_and!.
Qed.
