(* ===== verification/PackageTransitions.v ===== *)
(** * Theorems on the package engine

    What a request does to the generations, the pointer files and the trees,
    for any services that keep the promise of [ServicesFrame]. *)

From S2P Require Import Prelude Identifiers PackageState PackageStore PackageJournal.
From S2P Require Import PackageGC Canonical Contracts PackageEngine.

(** ** Journal calls of the engine *)

Lemma generation_for_release_reads dep rel : reads (generation_for_release dep rel).
Proof. apply reads_moves. unfold generation_for_release. solve_moves. Qed.
Lemma active_generation_reads dep : reads (active_generation dep).
Proof. apply reads_moves. unfold active_generation. solve_moves. Qed.
Lemma has_live_lease_reads g t : reads (has_live_lease g t).
Proof. apply reads_moves. unfold has_live_lease. solve_moves. Qed.
Lemma has_generation_reference_reads rel g t : reads (has_generation_reference rel g t).
Proof. apply reads_moves. unfold has_generation_reference. solve_moves. Qed.

#[export] Hint Resolve generation_for_release_reads active_generation_reads
  has_live_lease_reads has_generation_reference_reads : reading.

Lemma state_reads {A} (m : M db A) : reads m → reads (state m).
Proof. intros Hm. apply reads_zoom; [by intros []|]. by apply on_journal_reads. Qed.

#[export] Hint Resolve state_reads : reading.

(** ** Statements that stay inside the frame *)

Lemma frame_of_parts w w' :
  ew_db w' = ew_db w → ew_pointers w' = ew_pointers w → ew_pointer_tmp w' = ew_pointer_tmp w →
  frame w w'.
Proof. unfold frame, same_roots. by intros -> -> ->. Qed.

Section frames.
Context `{ServicesFrame}.

Lemma cancelled_frame : moves frame cancelled.
Proof. apply moves_zoom. intros g w <-. by apply frame_of_parts. Qed.

Lemma time_ns_frame : moves frame time_ns.
Proof. apply moves_zoom. intros g w <-. by apply frame_of_parts. Qed.

Lemma local_lock_frame d : moves frame (local_lock d).
Proof.
  unfold local_lock, engine_error. solve_moves. apply moves_modify. intros w. by apply frame_of_parts.
Qed.

Lemma persist_lock_frame l : moves frame (persist_lock l).
Proof.
  unfold persist_lock. solve_moves; apply moves_modify; intros w; by apply frame_of_parts.
Qed.

Lemma adapter_frame l g objects r : moves frame (adapter l g objects r).
Proof. unfold adapter. auto with py. Qed.

Lemma invoke_frame a o b rel g t : moves frame (invoke a o b rel g t).
Proof. unfold invoke. solve_moves. Qed.

Lemma state_reads_frame {A} (m : M db A) : reads m → moves frame (state m).
Proof. intros Hm. apply moves_reads; [exact _|]. by apply state_reads. Qed.

Lemma generation_for_release_frame dep rel : moves frame (state (generation_for_release dep rel)).
Proof. apply state_reads_frame; auto with reading. Qed.
Lemma active_generation_frame dep : moves frame (state (active_generation dep)).
Proof. apply state_reads_frame; auto with reading. Qed.
Lemma has_live_lease_frame g t : moves frame (state (has_live_lease g t)).
Proof. apply state_reads_frame; auto with reading. Qed.
Lemma has_generation_reference_frame rel g t : moves frame (state (has_generation_reference rel g t)).
Proof. apply state_reads_frame; auto with reading. Qed.

Lemma remove_generation_tree_frame d : moves frame (remove_generation_tree d).
Proof.
  unfold remove_generation_tree, remove_tree_no_symlinks, engine_error. solve_moves;
    apply moves_modify; intros w; by apply frame_of_parts.
Qed.

Lemma set_lock_cache_frame d l : moves frame (modify (λ w, set_locks (<[d := l]> (ew_locks w)) w)).
Proof. apply moves_modify. intros w. by apply frame_of_parts. Qed.
End frames.

#[export] Hint Resolve cancelled_frame time_ns_frame local_lock_frame persist_lock_frame
  adapter_frame invoke_frame generation_for_release_frame active_generation_frame
  has_live_lease_frame has_generation_reference_frame remove_generation_tree_frame
  set_lock_cache_frame : py.

(** ** One active generation *)

Definition keeps_single (d d' : db) : Prop := single_active d → single_active d'.

#[export] Instance keeps_single_preorder : PreOrder keeps_single.
Proof. split; repeat intros ?; unfold keeps_single in *; naive_solver. Qed.

Lemma same_roots_single d d' : same_roots d d' → keeps_single d d'.
Proof. intros (Hg & _) Hsa. by eapply single_active_same. Qed.

Section single.
Context `{ServicesFrame}.
#[local] Notation R := (on_ew keeps_single).

Lemma frame_single {A} (m : M engine_world A) : moves frame m → moves R m.
Proof. apply moves_impl. intros w w' (Hr & _). by apply same_roots_single. Qed.

Lemma state_single {A} (m : M db A) : moves keeps_single m → moves R (state m).
Proof. apply state_moves. Qed.

Lemma roots_single {A} (m : M db A) : moves same_roots m → moves keeps_single m.
Proof. apply moves_impl, same_roots_single. Qed.

Lemma plan_single {A} (m : M db A) : moves plan_only m → moves keeps_single m.
Proof. intros Hm. by apply roots_single, plan_only_roots. Qed.

Lemma activate_single b g : moves keeps_single (activate_generation b g).
Proof. apply activate_generation_single_active. Qed.

Lemma transition_single b g ex st :
  st ≠ GActive → moves keeps_single (transition_generation b g ex st).
Proof. apply transition_generation_single_active. Qed.

Lemma record_single b dep g rel objs st :
  st ≠ GActive → moves keeps_single (record_generation b dep g rel objs st).
Proof. apply record_generation_single_active. Qed.

Lemma atomic_write_single name data : moves R (atomic_write name data).
Proof.
  unfold atomic_write. solve_moves;
    first [apply moves_modify; intros w; unfold on_ew; by intros ?|apply frame_single; auto with py].
Qed.

#[local] Hint Resolve frame_single state_single plan_single activate_single
  atomic_write_single : py.
#[local] Hint Extern 3 (_ ≠ GActive) => discriminate : py.
#[local] Hint Resolve transition_single record_single : py.

Lemma select_pointer_single g p : moves R (select_pointer g p).
Proof. unfold select_pointer. auto with py. Qed.

#[local] Hint Resolve select_pointer_single : py.

Lemma compensate_single r b target previous t st : moves R (compensate r b target previous t st).
Proof. unfold compensate. solve_moves. Qed.

#[local] Hint Resolve compensate_single : py.

Lemma start_and_check_single r b a target previous rel t :
  moves R (start_and_check r b a target previous rel t).
Proof. unfold start_and_check. solve_moves. Qed.

#[local] Hint Resolve start_and_check_single : py.

Lemma cancel_preparation_single b : moves R (cancel_preparation b).
Proof. unfold cancel_preparation. solve_moves. Qed.

#[local] Hint Resolve cancel_preparation_single : py.

Lemma fetch_all_single b t ds objects : moves R (fetch_all b t ds objects).
Proof.
  revert objects. induction ds as [|d ds IH]; intros objects; cbn [fetch_all]; solve_moves.
Qed.

#[local] Hint Resolve fetch_all_single : py.

Lemma prepare_single r b t : moves R (prepare r b t).
Proof. unfold prepare. solve_moves. Qed.

#[local] Hint Resolve prepare_single : py.

Lemma gc_single r b : moves R (gc r b).
Proof.
  unfold gc, engine_error. solve_moves. apply moves_zoom. intros g w <-. apply same_roots_single.
  apply (collect_collected clock_ns cancel_poll after_delete).
Qed.

#[local] Hint Resolve gc_single : py.

Lemma execute_single r b t : moves R (execute r b t).
Proof.
  unfold execute, activate, rollback, invoke_existing, remove, repair, engine_error.
  solve_moves.
Qed.
End single.

(** ** Statements that keep the served generation *)

Definition kept (w w' : engine_world) : Prop :=
  same_roots (ew_db w) (ew_db w') ∧ ew_pointers w' = ew_pointers w.

#[export] Instance kept_preorder : PreOrder kept.
Proof.
  split; [intros w; by split|]. intros w1 w2 w3 [??] [??]. split; [by etrans|congruence].
Qed.

Lemma frame_kept {A} (m : M engine_world A) : moves frame m → moves kept m.
Proof. apply moves_impl. intros w w' (? & _ & ? & _). by split. Qed.

Lemma state_kept {A} (m : M db A) : moves plan_only m → moves kept (state m).
Proof.
  intros Hm. apply moves_zoom. intros g w <-. split; [|done].
  apply (on_journal_on_db plan_only m Hm (ew_gc w)).
Qed.

#[export] Hint Resolve frame_kept state_kept : py.

(** Note that the runs of the context keep what is served. *)
Ltac note_kept :=
  repeat match goal with
  | H : ?m ?w = (Ok _, ?w') |- _ =>
      lazymatch goal with
      | _ : kept w w' |- _ => fail
      | |- _ => assert (kept w w') by
          (eapply (moves_run kept); [|exact H]; solve [auto 4 with py nocore])
      end
  end.

Ltac keep_chain := solve [repeat (first [done | etrans; [eassumption|]])].

Lemma record_of_ok d P pick r :
  (∀ l p, pick l = Some p → p ∈ l) →
  record_of d (pick (select_generations d P)) = Some r →
  ∃ row, generations d !! gr_generation_id r = Some row ∧ P (gr_generation_id r) row = true
    ∧ r = generation_record d (gr_generation_id r) row.
Proof.
  intros Hpick. unfold record_of. intros ([g row] & Hp & ->)%fmap_Some.
  apply Hpick, select_in in Hp as [Hg HP]. cbn. eauto.
Qed.

Lemma latest_in l p : latest l = Some p → p ∈ l.
Proof. apply best_elem. Qed.

(** [names dep rel r row]: [r] is the record of [row], a generation of the
    release [rel] of deployment [dep]. *)
Definition names (r : GenerationRecord) (row : generation_row) : Prop :=
  gr_deployment_id r = gen_deployment row ∧ gr_release_digest r = gen_release row
  ∧ gr_state r = gen_state row.

Lemma generation_for_release_ok dep rel d r d' :
  generation_for_release dep rel d = (Ok (Some r), d') →
  d' = d ∧ ∃ row, generations d !! gr_generation_id r = Some row ∧ names r row
    ∧ gen_deployment row = dep ∧ gen_release row = rel.
Proof.
  unfold generation_for_release. intros Hr. inv_run_all. split; [done|].
  apply record_of_ok in Hr as (row & Hg & HP & Heq); [|apply latest_in].
  bool_facts. exists row. rewrite Heq. by split_and!.
Qed.

(** [o] is the active generation of deployment [dep], if it has one. *)
Definition was_active (d : db) (dep : string) (o : option GenerationRecord) : Prop :=
  match o with
  | Some r => ∃ row, generations d !! gr_generation_id r = Some row ∧ names r row
               ∧ gen_deployment row = dep ∧ gen_state row = GActive
  | None => ∀ g row, generations d !! g = Some row → gen_deployment row = dep →
               gen_state row ≠ GActive
  end.

Lemma active_generation_ok dep d o d' :
  active_generation dep d = (Ok o, d') → d' = d ∧ was_active d dep o.
Proof.
  unfold active_generation. intros Hr. unfold was_active.
  destruct o as [r|]; inv_run_all; (split; [done|]).
  - apply record_of_ok in Hr as (row & Hg & HP & Heq); [|apply latest_in].
    bool_facts. exists row. rewrite Heq. by split_and!.
  - intros g row Hg Hdep Hst. unfold record_of in Hr. apply fmap_None, best_None in Hr. assert ((g, row) ∈ ([] : list (string * generation_row))) as Hin;
      [|by apply elem_of_nil in Hin].
    rewrite <- Hr. apply select_in. split; [done|]. by rewrite Hdep, Hst, !eqb_refl.
Qed.

(** [serves w g row]: generation [g] is the one active generation of its deployment. *)
Definition serves (w : engine_world) (g : string) (row : generation_row) : Prop :=
  generations (ew_db w) !! g = Some row ∧ gen_state row = GActive ∧ single_active (ew_db w).

Lemma serves_kept w w' g row : kept w w' → serves w g row → serves w' g row.
Proof.
  intros [(Hg & _ & _) _] (Hrow & Hst & Hsa). unfold serves. rewrite Hg.
  split_and!; [done..|]. by eapply single_active_same.
Qed.

(** The pointer file of a deployment selects the generation of record [r]. *)
Definition points_to (w : engine_world) (r : GenerationRecord) (previous : option GenerationRecord)
    : Prop :=
  ew_pointers w !! gr_deployment_id r = Some (pointer_document r previous).

Lemma points_to_kept w w' r p : kept w w' → points_to w r p → points_to w' r p.
Proof. unfold points_to. by intros [_ ->]. Qed.

Section activation.
Context `{ServicesFrame}.

Lemma select_pointer_ok g p w u w' :
  select_pointer g p w = (Ok u, w') →
  same_roots (ew_db w) (ew_db w') ∧ operations (ew_db w') = operations (ew_db w)
  ∧ points_to w' g p.
Proof.
  unfold select_pointer, atomic_write. intros Hr. inv_run_all.
  case_bool_decide; inv_run_all. subst.
  repeat match goal with
    | Hs : sys_open _ _ = _ |- _ => apply (moves_run frame _ _ _ _ (sys_open_frame _)) in Hs as ((? & ? & ?) & ? & _)
    | Hs : sys_write _ _ = _ |- _ => apply (moves_run frame _ _ _ _ (sys_write_frame _)) in Hs as ((? & ? & ?) & ? & _)
    | Hs : sys_sync _ _ = _ |- _ => apply (moves_run frame _ _ _ _ (sys_sync_frame _)) in Hs as ((? & ? & ?) & ? & Hsync & _)
  end.
  unfold same_roots, points_to, ew_db, with_temporary in *. cbn in *. split_and!; [congruence..|]. by rewrite Hsync, lookup_insert_eq.
Qed.

Lemma state_activate_ok b g w prev w' :
  state (activate_generation b g) w = (Ok prev, w') → single_active (ew_db w) →
  ∃ row, generations (ew_db w) !! g = Some row
    ∧ serves w' g (with_state GActive b row)
    ∧ ew_pointers w' = ew_pointers w
    ∧ ∀ g' row', generations (ew_db w) !! g' = Some row' → g' ≠ g →
        gen_state row' = GActive → gen_deployment row' = gen_deployment row →
        generations (ew_db w') !! g' = Some (with_state GRetained b row').
Proof.
  intros (d' & Hd & Hdb & Hp & _)%state_ok Hsa.
  destruct (activate_generation_table _ _ _ _ _ Hd Hsa) as (row & Hrow & _ & Hm & _).
  pose proof (moves_run _ _ _ _ _ (activate_generation_single_active b g) Hd Hsa) as Hsa'.
  exists row. unfold serves. rewrite Hdb, Hm, map_lookup_imap, Hrow. cbn.
  unfold after_activation at 1. rewrite eqb_refl. split_and!; [done..|].
  intros g' row' Hg' Hne Hst Hdep. rewrite map_lookup_imap, Hg'. cbn. unfold after_activation.
  by rewrite (proj2 (eqb_false _ _) Hne), Hst, Hdep, !eqb_refl.
Qed.

(** The statements between the activation and the answer keep what is served. *)
Lemma start_and_check_kept r b a target previous rel t w w' :
  start_and_check r b a target previous rel t w = (Ok None, w') → kept w w'.
Proof.
  unfold start_and_check. intros Hr. inv_run_all.
  match goal with Hs : (if ?stop : bool then _ else _) _ = _ |- _ => destruct stop end;
    inv_run_all; [naive_solver|]. note_kept. keep_chain.
Qed.

Lemma compensate_status r b target previous t w ev w' :
  compensate r b target previous t "rolled-back" w = (Ok ev, w') → ev_status ev = "rolled-back".
Proof.
  unfold compensate, evidence. intros Hr. destruct previous; inv_run_all; subst; done.
Qed.

Definition requests (r : PackageOperationRequest) (row : generation_row) : Prop :=
  req_deployment_id r = Some (gen_deployment row) ∧ req_release_digest r = Some (gen_release row).

Lemma release_identity_ok r dep rel :
  release_identity r = Ok (dep, rel) ↔ req_deployment_id r = Some dep ∧ req_release_digest r = Some rel.
Proof. unfold release_identity. destruct (req_deployment_id r), (req_release_digest r); naive_solver. Qed.

(** Selecting the pointer of a generation and then activating it. *)
Lemma switch_serves b target previous row w1 w2 w3 w4 w5 u p :
  single_active (ew_db w1) → generations (ew_db w1) !! gr_generation_id target = Some row →
  select_pointer target previous w1 = (Ok u, w2) → kept w2 w3 →
  state (activate_generation b (gr_generation_id target)) w3 = (Ok p, w4) → kept w4 w5 →
  serves w5 (gr_generation_id target) (with_state GActive b row) ∧ points_to w5 target previous
  ∧ ∀ g' row', generations (ew_db w1) !! g' = Some row' → g' ≠ gr_generation_id target →
      gen_state row' = GActive → gen_deployment row' = gen_deployment row →
      generations (ew_db w5) !! g' = Some (with_state GRetained b row').
Proof.
  intros Hsa Hrow ((Hg12 & _) & _ & Hp2)%select_pointer_ok [(Hg23 & _) Hp23] Hact Hk45.
  assert (generations (ew_db w3) = generations (ew_db w1)) as Hg by congruence.
  destruct (state_activate_ok _ _ _ _ _ Hact) as (row3 & Hrow3 & Hs & Hp34 & Hret).
  { by eapply single_active_same. }
  rewrite Hg in Hrow3, Hret. simplify_eq. split_and!.
  - by eapply serves_kept.
  - eapply points_to_kept; [done|]. unfold points_to in *. congruence.
  - destruct Hk45 as [(Hg45 & _) _]. rewrite Hg45. auto.
Qed.

(** What is read before the switch. *)
Lemma found_generation r dep rel w w1 target w2 :
  release_identity r = Ok (dep, rel) → kept w w1 →
  state (generation_for_release dep rel) w1 = (Ok (Some target), w2) →
  ∃ row, generations (ew_db w) !! gr_generation_id target = Some row ∧ requests r row
    ∧ names target row.
Proof.
  intros Hid%release_identity_ok [(Hg & _) _] (d' & (_ & row & Hrow & Hn & Hdep & Hrel)%generation_for_release_ok & _)%state_ok.
  rewrite Hg in Hrow. exists row. unfold requests. rewrite Hdep, Hrel. done.
Qed.

Lemma kept_single w w' : kept w w' → single_active (ew_db w) → single_active (ew_db w').
Proof. intros [(Hg & _) _]. by apply single_active_same. Qed.

Lemma kept_generations w w' g : kept w w' → generations (ew_db w') !! g = generations (ew_db w) !! g.
Proof. by intros [(-> & _) _]. Qed.

End activation.

(** ** Where an activation can fail *)

Definition health_failure : exn := Exn EPackageEngine "package health verification failed".
Definition not_health (e : exn) : Prop := e ≠ health_failure.

Lemma foreign_not_health {A} (m : M engine_world A) : foreign m → errs not_health m.
Proof. intros Hm w e w' He%Hm ->. discriminate He. Qed.

Lemma state_errs {A} P (m : M db A) : errs P m → errs P (state m).
Proof. intros Hm. by repeat apply errs_zoom. Qed.

(** The exceptions of a pure guard. *)
Ltac pure_errs :=
  apply errs_lift; intros ? He; intros ->; revert He;
  unfold health_failure, check_binding, check_uuid4, check_invocation, evidence, release_identity, raise, ensure,
    mbind, result_bind, mret, result_ret;
  repeat case_match; intros ?; simplify_eq.

Lemma check_binding_errs {S} b : errs (S:=S) not_health (lift (check_binding b)).
Proof.
  pure_errs.
Qed.

#[local] Hint Resolve check_binding_errs : errors.

Ltac journal_errs :=
  unfold begin_operation, set_phase, generation_for_release, active_generation,
    activate_generation, transition_generation, operation, assert_binding, conflict, ensure_state,
    check_identifier, check_digest, check_phase, check_state_set;
  solve_errs.

Lemma begin_operation_errs b phase : errs not_health (begin_operation b phase).
Proof. journal_errs. Qed.
Lemma set_phase_errs b phase : errs not_health (set_phase b phase).
Proof. journal_errs. Qed.
Lemma generation_for_release_errs dep rel : errs not_health (generation_for_release dep rel).
Proof. journal_errs. Qed.
Lemma active_generation_errs dep : errs not_health (active_generation dep).
Proof. journal_errs. Qed.
Lemma activate_generation_errs b g : errs not_health (activate_generation b g).
Proof. journal_errs. Qed.
Lemma transition_generation_errs b g ex st : errs not_health (transition_generation b g ex st).
Proof. journal_errs. Qed.

#[local] Hint Resolve state_errs foreign_not_health begin_operation_errs set_phase_errs
  generation_for_release_errs active_generation_errs activate_generation_errs
  transition_generation_errs adapter_factory_foreign adapter_execute_foreign crash_hook_foreign
  sys_open_foreign sys_write_foreign sys_sync_foreign : errors.

Section failures.
Context `{ServicesFrame} `{!ServicesForeign}.

Lemma cancelled_errs : errs not_health cancelled.
Proof. apply errs_zoom. unfold poll_cancelled. solve_errs. Qed.

Lemma select_pointer_errs g p : errs not_health (select_pointer g p).
Proof. unfold select_pointer, atomic_write. solve_errs. Qed.

Lemma local_lock_errs d : errs not_health (local_lock d).
Proof.
  unfold local_lock, engine_error. solve_errs.
  match goal with Hp : parse_lock _ = Err _ |- _ => rename Hp into Hparse end.
  apply errs_lift. intros e' [= <-]. unfold unavailable. case_match; [discriminate|].
  intros ->. by apply parse_lock_foreign in Hparse.
Qed.

Lemma adapter_errs l g objects r : errs not_health (adapter l g objects r).
Proof. unfold adapter. auto with errors. Qed.

Lemma invoke_errs a o b rel g t : errs not_health (invoke a o b rel g t).
Proof.
  unfold invoke. apply errs_bind; [|intros ?; auto with errors].
  pure_errs.
Qed.

Lemma release_identity_errs r : errs (S:=engine_world) not_health (lift (release_identity r)).
Proof. pure_errs. Qed.

Lemma evidence_errs r g st : errs (S:=engine_world) not_health (lift (evidence r g st)).
Proof.
  pure_errs.
Qed.

#[local] Hint Resolve cancelled_errs select_pointer_errs local_lock_errs adapter_errs invoke_errs
  release_identity_errs evidence_errs : errors.

Lemma compensate_errs r b target previous t st : errs not_health (compensate r b target previous t st).
Proof. unfold compensate. solve_errs. Qed.

Lemma start_and_check_errs r b a target previous rel t :
  errs not_health (start_and_check r b a target previous rel t).
Proof. unfold start_and_check. pose proof compensate_errs. solve_errs. Qed.

(** The last part of [_activate], from the [try] on. *)
Definition conclude (r : PackageOperationRequest) (b : OperationBinding) (a : handle)
    (target : GenerationRecord) (previous : option GenerationRecord) (rel : string) (t : Z)
    : M engine_world PackageEvidence :=
  early ← try_catch (start_and_check r b a target previous rel t) (λ e,
    if is_engine_error e then rethrow e
    else if is_exception e then
      compensate r b target previous t "failed";;
      engine_error "package health verification failed"
    else rethrow e);
  match early with
  | Some ev => mret ev
  | None =>
      state (set_phase b "active");;
      lift (evidence r (Some (gr_generation_id target)) "active")
  end.

Ltac run_step H :=
  let e := fresh "e" in let He := fresh "He" in let Hm := fresh "Hm" in
  let a := fresh "a" in let s := fresh "w" in let Hrun := fresh "Hrun" in
  apply bind_cases in H as [(e & He & ->)|(a & s & Hrun & H)];
  [left; exists e; split; [reflexivity|];
   match type of He with ?m _ = _ =>
     assert (errs not_health m) as Hm by solve_errs; exact (Hm _ _ _ He) end|].

(** An activation fails for another reason, or gets to its [try] with the new
    generation active, its pointer selected and the old one retained. *)
Lemma activate_reaches r b t w res w' :
  activate r b t w = (res, w') → single_active (ew_db w) →
  (∃ e, res = Err e ∧ not_health e)
  ∨ ∃ target row previous a w1,
      requests r row ∧ names target row
      ∧ generations (ew_db w) !! gr_generation_id target = Some row
      ∧ was_active (ew_db w) (gen_deployment row) previous
      ∧ serves w1 (gr_generation_id target) (with_state GActive b row)
      ∧ points_to w1 target previous
      ∧ (∀ g' row', generations (ew_db w) !! g' = Some row' → g' ≠ gr_generation_id target →
           gen_state row' = GActive → gen_deployment row' = gen_deployment row →
           generations (ew_db w1) !! g' = Some (with_state GRetained b row'))
      ∧ conclude r b a target previous (gen_release row) t w1 = (res, w').
Proof.
  unfold activate. intros Hr Hsa. run_step Hr. apply lift_ok in Hrun as [Hid <-].
  destruct a as [dep rel]. do 2 run_step Hr. destruct a0 as [target|].
  2: { left. eexists. split; [by injection Hr as <- _|done]. }
  do 4 run_step Hr. apply lift_ok in Hrun1 as [_ <-].
  destruct a2; [inv_run_all|apply M_ret_ok in Hrun4 as [_ <-]]. do 7 run_step Hr.
  cbn [fst snd] in *. right. note_kept.
  destruct (found_generation r dep rel w w0 target w1) as (row & Hrow & Hreq & Hn); [done..|].
  assert (gen_deployment row = dep ∧ gen_release row = rel) as [Hdep Hrel].
  { apply release_identity_ok in Hid as [??]. destruct Hreq. split; congruence. }
  exists target, row, a1. eexists _, _. rewrite Hdep, Hrel.
  assert (kept w w1) as Hk1 by keep_chain. assert (kept w w2) as Hk by keep_chain.
  destruct (switch_serves b target a1 row w2 w5 w7 w8 w10 a4 a7) as (Hs & Hp & Hret);
    [by eapply kept_single|by rewrite (kept_generations w)|done|keep_chain|done|keep_chain|].
  apply state_ok in Hrun2 as (d' & [_ Hwas]%active_generation_ok & _).
  split_and!; [done..| |done|done| |done].
  - unfold was_active in *. destruct Hk1 as [(Hg & _) _]. by rewrite Hg in Hwas.
  - intros g' row' Hg'. rewrite <- Hdep. apply Hret. by rewrite (kept_generations w).
Qed.

(** ** Compensation *)

Lemma state_transition_ok b g ex st w rec w' :
  state (transition_generation b g ex st) w = (Ok rec, w') →
  ∃ row, generations (ew_db w) !! g = Some row ∧ (gen_state row = st ∨ gen_state row ∈ ex)
    ∧ generations (ew_db w') = <[g := with_state st b row]> (generations (ew_db w))
    ∧ ew_pointers w' = ew_pointers w.
Proof.
  intros (d' & Hd & Hdb & Hp & _)%state_ok. rewrite Hdb. clear Hdb.
  unfold transition_generation in Hd. inv_call. subst. eexists. split_and!; [done| |done|done].
  match goal with Ho : _ || _ = true |- _ => apply orb_true_iff in Ho as [?|?] end;
    bool_facts; auto.
Qed.

(** A generation of deployment [dep] failed and the one it replaced, if any,
    serves again. *)
Definition compensated (w' : engine_world) (target : GenerationRecord) (row : generation_row)
    (previous : option GenerationRecord) : Prop :=
  (∃ trow, generations (ew_db w') !! gr_generation_id target = Some trow ∧ gen_state trow = GFailed
     ∧ gen_deployment trow = gen_deployment row ∧ gen_release trow = gen_release row)
  ∧ match previous with
    | None => ∀ g grow, generations (ew_db w') !! g = Some grow →
                gen_deployment grow = gen_deployment row → gen_state grow ≠ GActive
    | Some p => gr_generation_id p ≠ gr_generation_id target
        ∧ points_to w' p (Some target)
        ∧ ∃ prow, serves w' (gr_generation_id p) prow ∧ gen_deployment prow = gen_deployment row
    end.

Lemma transition_keeps_single b g ex st w rec w' :
  state (transition_generation b g ex st) w = (Ok rec, w') → st ≠ GActive →
  single_active (ew_db w) → single_active (ew_db w').
Proof.
  intros Hr Hst. eapply (moves_run (on_ew keeps_single)); [|exact Hr].
  by apply state_single, transition_single.
Qed.

(** Generations stay those of their deployment and release. *)
Definition tracks (d d' : db) : Prop :=
  single_active d → single_active d' ∧
  ∀ g row, generations d !! g = Some row → ∃ row', generations d' !! g = Some row'
    ∧ gen_deployment row' = gen_deployment row ∧ gen_release row' = gen_release row.

#[export] Instance tracks_preorder : PreOrder tracks.
Proof.
  split; [intros d Hsa; split; [done|]; eauto|]. intros d1 d2 d3 H12 H23 Hsa.
  destruct (H12 Hsa) as [Hsa2 T12]. destruct (H23 Hsa2) as [Hsa3 T23]. split; [done|].
  intros g row (row2 & Hg2 & ? & ?)%T12. destruct (T23 _ _ Hg2) as (row3 & ? & ? & ?).
  exists row3. split_and!; congruence.
Qed.

Lemma same_roots_tracks d d' : same_roots d d' → tracks d d'.
Proof. intros (Hg & _) Hsa. split; [by eapply single_active_same|]. rewrite Hg. eauto. Qed.

Lemma activate_generation_tracks b g : moves tracks (activate_generation b g).
Proof.
  apply moves_atomic; [exact _|apply activate_generation_atomic|]. intros d prev d' Hd Hsa.
  split; [by eapply (moves_run _ _ _ _ _ (activate_generation_single_active b g))|].
  destruct (activate_generation_table _ _ _ _ _ Hd Hsa) as (row & _ & _ & Hm & _).
  intros g' row' Hg'. rewrite Hm, map_lookup_imap, Hg'. cbn. eexists. split; [done|].
  unfold after_activation. by repeat case_match.
Qed.

Lemma transition_generation_tracks b g ex st :
  st ≠ GActive → moves tracks (transition_generation b g ex st).
Proof.
  intros Hst. apply moves_atomic; [exact _|unfold transition_generation; solve_atomic|].
  intros d rec d' Hd Hsa. split; [by eapply (moves_run _ _ _ _ _ (transition_generation_single_active b g ex st Hst))|].
  intros g' row' Hg'. unfold transition_generation in Hd. inv_call. subst. cbn.
  destruct (decide (g' = g)) as [->|Hne].
  - rewrite lookup_insert_eq. simplify_eq. by eexists.
  - rewrite lookup_insert_ne by done. by exists row'.
Qed.

Lemma kept_tracks {A} (m : M engine_world A) : moves kept m → moves (on_ew tracks) m.
Proof. apply moves_impl. intros w w' [Hr _]. by apply same_roots_tracks. Qed.

Lemma frame_tracks {A} (m : M engine_world A) : moves frame m → moves (on_ew tracks) m.
Proof. intros Hm. by apply kept_tracks, frame_kept. Qed.

Lemma select_pointer_tracks g p : moves (on_ew tracks) (select_pointer g p).
Proof.
  unfold select_pointer, atomic_write. solve_moves;
    first [apply moves_modify; intros w; by apply same_roots_tracks|apply frame_tracks; auto with py].
Qed.

#[local] Hint Resolve state_moves activate_generation_tracks transition_generation_tracks
  kept_tracks frame_tracks select_pointer_tracks : py.
#[local] Hint Extern 3 (_ ≠ GActive) => discriminate : py.

Lemma compensate_tracks r b target previous t st :
  moves (on_ew tracks) (compensate r b target previous t st).
Proof. unfold compensate. solve_moves. Qed.

#[local] Hint Resolve compensate_tracks : py.

Lemma start_and_check_tracks r b a target previous rel t :
  moves (on_ew tracks) (start_and_check r b a target previous rel t).
Proof. unfold start_and_check. solve_moves. Qed.

(** Without a previous generation a compensation makes nothing active. *)
Definition no_new_active (d d' : db) : Prop :=
  ∀ g row', generations d' !! g = Some row' → gen_state row' = GActive →
    generations d !! g = Some row'.

#[export] Instance no_new_active_preorder : PreOrder no_new_active.
Proof. split; [by intros d g row'|]. intros d1 d2 d3 H12 H23 g row' Hg Ha. auto. Qed.

Lemma transition_no_new_active b g ex st :
  st ≠ GActive → moves no_new_active (transition_generation b g ex st).
Proof.
  intros Hst. apply moves_atomic; [exact _|unfold transition_generation; solve_atomic|].
  intros d rec d' Hd g' row'. unfold transition_generation in Hd. inv_call. subst. cbn.
  rewrite lookup_insert. case_decide; [|done]. by intros [= <-].
Qed.

Lemma kept_no_new_active {A} (m : M engine_world A) :
  moves kept m → moves (on_ew no_new_active) m.
Proof. apply moves_impl. intros w w' [(Hg & _) _] g row'. by rewrite Hg. Qed.

Lemma frame_no_new_active {A} (m : M engine_world A) :
  moves frame m → moves (on_ew no_new_active) m.
Proof. intros Hm. by apply kept_no_new_active, frame_kept. Qed.

#[local] Hint Resolve transition_no_new_active kept_no_new_active frame_no_new_active : py.

Lemma start_and_check_no_new_active r b a target rel t :
  moves (on_ew no_new_active) (start_and_check r b a target None rel t).
Proof. unfold start_and_check, compensate. solve_moves. Qed.

Lemma compensate_fails_target r b target row previous t w ev w' :
  compensate r b target previous t "failed" w = (Ok ev, w') →
  single_active (ew_db w) →
  (∃ trow, generations (ew_db w) !! gr_generation_id target = Some trow
     ∧ gen_deployment trow = gen_deployment row ∧ gen_release trow = gen_release row) →
  match previous with
  | Some p => ∃ prow, generations (ew_db w) !! gr_generation_id p = Some prow
                ∧ gen_deployment prow = gen_deployment row
  | None => ∀ g grow, generations (ew_db w) !! g = Some grow →
                gen_deployment grow = gen_deployment row → gen_state grow = GActive →
                g = gr_generation_id target
  end →
  compensated w' target row previous.
Proof.
  unfold compensate. intros Hr Hsa (trow0 & Ht0 & Hd0 & Hr0) Hprev. destruct previous as [p|].
  - destruct Hprev as (prow & Hprow & Hpdep). inv_run_all.
    match goal with Hi : (if eqb _ _ then _ else _) _ = _ |- _ => rewrite eqb_refl in Hi end.
    inv_run_all. note_kept.
    destruct (switch_serves b p (Some target) prow w x0 x0 x2 x10 x x1) as (Hs & Hp & _);
      [done..|keep_chain|].
    assert (on_ew tracks w x10) as Htr.
    { etrans; [by eapply (moves_run (on_ew tracks)); [|exact H2]; apply select_pointer_tracks|].
      etrans; [eapply (moves_run (on_ew tracks)); [|exact H3]; auto with py|].
      apply same_roots_tracks. assert (kept x2 x10) as [? _] by keep_chain. done. }
    destruct (Htr Hsa) as [_ Hnames]. destruct (Hnames _ _ Ht0) as (trow1 & Ht1 & ? & ?).
    match goal with Hst : state (transition_generation _ _ _ _) _ = _ |- _ =>
      pose proof (transition_keeps_single _ _ _ _ _ _ _ Hst ltac:(done) (proj2 (proj2 Hs))) as Hsa';
      apply state_transition_ok in Hst as (trow & Ht & Htst & Hg & Hpt) end.
    assert (gr_generation_id p ≠ gr_generation_id target) as Hne.
    { intros Heq. destruct Hs as (Hs & _). rewrite Heq, Ht in Hs. simplify_eq.
      destruct Htst as [|Hin]; [done|]. apply list_elem_of_singleton in Hin. done. }
    simplify_eq. split; [|split_and!; [done| |]].
    + exists (with_state GFailed b trow). erewrite kept_generations by eassumption.
      rewrite Hg, lookup_insert_eq. cbn. split_and!; congruence.
    + eapply points_to_kept; [done|]. unfold points_to in *. by rewrite Hpt.
    + exists (with_state GActive b prow). split; [eapply serves_kept; [done|]|done].
      destruct Hs as (Hs & _). split_and!; [by rewrite Hg, lookup_insert_ne by done|done|done].
  - inv_run_all. note_kept.
    match goal with Hst : state (transition_generation _ _ _ _) _ = _ |- _ =>
      apply state_transition_ok in Hst as (trow & Ht & _ & Hg & Hpt) end.
    simplify_eq. split.
    + exists (with_state GFailed b trow). erewrite kept_generations by eassumption.
      rewrite Hg, lookup_insert_eq. done.
    + intros g grow. erewrite kept_generations by eassumption. rewrite Hg, lookup_insert.
      case_decide as Hgt; [by intros [= <-]|]. intros Hgr Hdep Hga. destruct Hgt. symmetry. eauto.
Qed.

(** A failed health check leaves the deployment as it was served before. *)
Lemma activate_failure r b t w w' :
  activate r b t w = (Err health_failure, w') → single_active (ew_db w) →
  ∃ target row previous, requests r row ∧ names target row
    ∧ generations (ew_db w) !! gr_generation_id target = Some row
    ∧ was_active (ew_db w) (gen_deployment row) previous
    ∧ compensated w' target row previous.
Proof.
  intros Hr Hsa. destruct (activate_reaches _ _ _ _ _ _ Hr Hsa)
    as [(e & [= <-] & Hn)|(target & row & previous & a & w1 & Hreq & Hn & Hrow & Hwas & Hs & Hp & Hret & Hc)];
    [done|].
  exists target, row, previous. split_and!; [done..|]. unfold conclude in Hc.
  apply bind_cases in Hc as [(e & Hc & [= <-])|(early & w2 & _ & Hc)].
  2: { exfalso. revert Hc. destruct early; [done|]. intros Hc.
       assert (errs not_health (state (set_phase b "active");;
         lift (evidence r (Some (gr_generation_id target)) "active"))) as He by solve_errs.
       by apply (He _ _ _ Hc). }
  unfold try_catch in Hc. destruct (start_and_check _ _ _ _ _ _ _ w1) as [[?|e] w2] eqn:Hchk; [done|].
  pose proof (start_and_check_errs _ _ _ _ _ _ _ _ _ _ Hchk) as Hnh.
  destruct (is_engine_error e); [injection Hc as -> _; done|].
  destruct (is_exception e); [|injection Hc as -> _; done].
  apply bind_cases in Hc as [(e' & Hc & [= <-])|(ev & w3 & Hc & Ht)];
    [by apply compensate_errs in Hc|]. injection Ht as <-.
  destruct Hs as (Hs & _ & Hsa1).
  destruct (moves_run _ _ _ _ _ (start_and_check_tracks _ _ _ _ _ _ _) Hchk Hsa1) as [Hsa2 Hnames].
  destruct (Hnames _ _ Hs) as (trow & Ht & Htd & Htr).
  eapply compensate_fails_target; [exact Hc|done|by exists trow|]. destruct previous as [p|].
  - destruct Hwas as (prow & Hprow & _ & Hpdep & Hpact).
    destruct (decide (gr_generation_id p = gr_generation_id target)) as [->|Hne].
    + exists trow. done.
    + destruct (Hnames _ _ (Hret _ _ Hprow Hne Hpact Hpdep)) as (prow' & ? & Hd' & _).
      exists prow'. split; [done|]. by rewrite Hd'.
  - intros g grow Hg Hdep Hact.
    pose proof (moves_run _ _ _ _ _ (start_and_check_no_new_active _ _ _ _ _ _) Hchk) as Hno.
    eapply (Hsa1 g); [by apply Hno|exact Hs|done..].
Qed.

(** A successful activation serves the requested release. *)
Lemma activate_serves r b t w ev w' :
  activate r b t w = (Ok ev, w') → single_active (ew_db w) → ev_status ev = "active" →
  ∃ target row previous, ev_generation ev = Some (gr_generation_id target)
    ∧ requests r row ∧ names target row ∧ serves w' (gr_generation_id target) (with_state GActive b row)
    ∧ points_to w' target previous.
Proof.
  intros Hr Hsa Hst. destruct (activate_reaches _ _ _ _ _ _ Hr Hsa)
    as [(e & [=] & _)|(target & row & previous & a & w1 & Hreq & Hn & _ & _ & Hs & Hp & _ & Hc)].
  unfold conclude in Hc. apply M_bind_ok in Hc as (early & w2 & Hc & Hr2).
  apply try_catch_ok in Hc as [Hc|(e & w3 & _ & Hc)].
  2: { destruct (is_engine_error e), (is_exception e); unfold engine_error in Hc; inv_run_all. }
  destruct early as [ev'|].
  - apply M_ret_ok in Hr2 as [<- <-]. unfold start_and_check in Hc. inv_run_all.
    match goal with Hi : (if ?stop : bool then _ else _) _ = _ |- _ => destruct stop end;
      inv_run_all; [|done]. simplify_eq.
    match goal with Hcomp : compensate _ _ _ _ _ _ _ = _ |- _ => apply compensate_status in Hcomp end.
    congruence.
  - apply start_and_check_kept in Hc. inv_run_all. note_kept.
    exists target, row, previous. split_and!; [|done..| |].
    + unfold evidence in *. inv_run_all. by subst.
    + eapply serves_kept; [|exact Hs]. by etrans.
    + eapply points_to_kept; [|exact Hp]. by etrans.
Qed.
End failures.

(** ** Removal *)

(** Neither generations, pointers nor trees have changed. *)
Definition still (w w' : engine_world) : Prop := kept w w' ∧ ew_trees w' = ew_trees w.

#[export] Instance still_preorder : PreOrder still.
Proof. split; [intros w; by split|]. intros w1 w2 w3 [??] [??]. split; [by etrans|congruence]. Qed.

Lemma state_still {A} (m : M db A) : moves plan_only m → moves still (state m).
Proof.
  intros Hm. apply moves_zoom. intros g w <-. split; [|done]. split; [|done].
  apply (on_journal_on_db plan_only m Hm (ew_gc w)).
Qed.

Lemma state_read_still {A} (m : M db A) : reads m → moves still (state m).
Proof. intros Hm. apply moves_reads; [exact _|]. by apply state_reads. Qed.

#[export] Hint Resolve state_still state_read_still : py.
#[export] Hint Resolve generation_for_release_reads active_generation_reads
  has_live_lease_reads has_generation_reference_reads : py.

Lemma still_facts w w' :
  still w w' → generations (ew_db w') = generations (ew_db w) ∧ leases (ew_db w') = leases (ew_db w)
  ∧ ew_pointers w' = ew_pointers w ∧ ew_trees w' = ew_trees w.
Proof. by intros [[(? & ? & ?) ?] ?]. Qed.

Lemma state_clock {A} (m : M db A) w r w' :
  state m w = (r, w') → gw_clock (ew_gc w') = gw_clock (ew_gc w).
Proof.
  unfold state, on_gc, on_journal, on_store, journal, zoom.
  destruct (m _) as [r' d']. by intros [= <- <-].
Qed.

Lemma atomic_transition b g ex st : atomic (transition_generation b g ex st).
Proof. unfold transition_generation. solve_atomic. Qed.

Section removal.
Context `{Services}.

Lemma time_ns_still : moves still time_ns.
Proof. apply moves_zoom. intros g w <-. by split. Qed.

Lemma time_ns_ok w t w' : time_ns w = (Ok t, w') → t = clock_ns (gw_clock (ew_gc w)).
Proof. unfold time_ns, on_gc. intros (g & Hg & _)%zoom_ok. by inv_run_all. Qed.

#[local] Hint Resolve time_ns_still : py.

(** What a removal changed: nothing, or one unprotected generation. *)
Definition removed (b : OperationBinding) (w w' : engine_world) : Prop :=
  ∃ g row, generations (ew_db w) !! g = Some row ∧ gen_state row ∉ protected_states
    ∧ live_lease (ew_db w) g (clock_ns (gw_clock (ew_gc w))) = false
    ∧ ew_pointers w' = ew_pointers w
    ∧ generations (ew_db w') = <[g := with_state GFailed b row]> (generations (ew_db w))
    ∧ ∀ name, ew_trees w' !! name = ew_trees w !! name
        ∨ (name = gen_release row ∨ name = tombstone_name (gen_release row))
          ∧ ∀ g' row', generations (ew_db w) !! g' = Some row' → g' ≠ g →
              gen_release row' = gen_release row →
              gen_state row' ∉ protected_states
              ∧ live_lease (ew_db w) g' (clock_ns (gw_clock (ew_gc w))) = false.

Ltac still_step H :=
  let e := fresh "e" in let He := fresh "He" in
  let a := fresh "a" in let s := fresh "w" in let Hrun := fresh "Hrun" in
  apply bind_cases in H as [(e & He & ->)|(a & s & Hrun & H)];
  [left; repeat (first [ eassumption | etrans; [eassumption|] ]);
   eapply (moves_run still); [|exact He]; solve [solve_moves]|
   try (assert (still _ _) by (eapply (moves_run still); [|exact Hrun]; solve [solve_moves]))].

Lemma live_lease_same d d' g t : leases d' = leases d → live_lease d' g t = live_lease d g t.
Proof. unfold live_lease. by intros ->. Qed.

Lemma has_live_lease_ok g t d v d' : has_live_lease g t d = (Ok v, d') → v = live_lease d g t.
Proof. unfold has_live_lease. intros Hr. by inv_run_all. Qed.

Lemma unreferenced rel g t d d' :
  has_generation_reference rel (Some g) t d = (Ok false, d') →
  ∀ g' row', generations d !! g' = Some row' → g' ≠ g → gen_release row' = rel →
    gen_state row' ∉ protected_states ∧ live_lease d g' t = false.
Proof.
  unfold has_generation_reference. intros Hr g' row' Hg' Hne Hrel. inv_run_all.
  destruct (select_generations _ _) as [|p l] eqn:Hl; [|done].
  destruct (decide (gen_state row' ∉ protected_states ∧ live_lease d g' t = false))
    as [|Hno]; [done|].
  assert ((g', row') ∈ ([] : list (string * generation_row))) as Hin; [|by apply elem_of_nil in Hin].
  rewrite <- Hl. apply select_in. split; [done|]. rewrite Hrel, eqb_refl.
  rewrite (proj2 (eqb_false _ _) Hne). cbn [negb andb]. apply orb_true_iff.
  destruct (live_lease d g' t); [by right|left]. apply negb_true_iff. unfold among.
  apply bool_decide_eq_false. intros Hs. destruct Hno. split; [|done].
  destruct (gen_state row'); set_solver.
Qed.

Definition cleaned (rel : string) (w w' : engine_world) : Prop :=
  kept w w' ∧ ∀ name, name ≠ rel → name ≠ tombstone_name rel →
    ew_trees w' !! name = ew_trees w !! name.

#[export] Instance cleaned_preorder rel : PreOrder (cleaned rel).
Proof.
  split; [intros w; by split|]. intros w1 w2 w3 [? T12] [? T23]. split; [by etrans|].
  intros name ??. by rewrite T23, T12.
Qed.

Lemma still_cleaned {A} rel (m : M engine_world A) : moves still m → moves (cleaned rel) m.
Proof. apply moves_impl. intros w w' [? Ht]. split; [done|]. by intros ? _ _; rewrite Ht. Qed.

Lemma remove_generation_tree_cleaned rel : moves (cleaned rel) (remove_generation_tree rel).
Proof.
  unfold remove_generation_tree, remove_tree_no_symlinks, engine_error.
  solve_moves; apply moves_modify; intros w; (split; [by repeat split|]); intros name ??; cbn;
    by rewrite ?lookup_insert_ne, ?lookup_delete_ne by done.
Qed.

#[local] Hint Resolve still_cleaned remove_generation_tree_cleaned : py.

Lemma state_transition_still b g ex st w e w' :
  state (transition_generation b g ex st) w = (Err e, w') → still w w'.
Proof.
  unfold state, on_gc, on_journal, on_store, journal, zoom.
  destruct (transition_generation b g ex st _) as [r d'] eqn:Hd. intros [= -> <-].
  assert (d' = ew_db w) as ->; [|by destruct w as [[[]]]].
  revert Hd. apply (atomic_transition b g ex st).
Qed.

Lemma transition_then {A} (Q : relation engine_world) b g row ex
    (rest : GenerationRecord → M engine_world A) w res w' :
  (state (transition_generation b g ex GFailed) ≫= rest) w = (res, w') →
  (∀ rec, moves Q (rest rec)) → generations (ew_db w) !! g = Some row →
  still w w' ∨ ∃ w1, Q w1 w' ∧ ew_trees w1 = ew_trees w ∧ ew_pointers w1 = ew_pointers w
    ∧ generations (ew_db w1) = <[g := with_state GFailed b row]> (generations (ew_db w)).
Proof.
  intros [(e & He & ->)|(rec & w1 & Hrun & Hrest)]%bind_cases HQ Hrow;
    [left; by eapply state_transition_still|right].
  exists w1. apply state_ok in Hrun as Hok. destruct Hok as (d' & _ & _ & _ & _ & _ & _ & Htr).
  apply state_transition_ok in Hrun as (row' & Hrow' & _ & Hg & Hp). simplify_eq.
  split_and!; [|done..]. by eapply moves_run.
Qed.

Lemma remove_cases r b w res w' : remove r b w = (res, w') → still w w' ∨ removed b w w'.
Proof.
  unfold remove. intros Hr. do 3 still_step Hr. destruct a1 as [g|].
  2: { left. repeat (etrans; [eassumption|]). eapply (moves_run still); [|exact Hr]. solve_moves. }
  do 5 still_step Hr.
  assert (still w w1) as S1 by keep_chain. assert (still w w4) as S4 by keep_chain.
  assert (still w w6) as S6 by keep_chain. assert (still w w7) as S7 by keep_chain.
  pose proof S7 as S7'.
  apply still_facts in S1 as (G1 & _), S4 as (G4 & L4 & _), S6 as (G6 & L6 & _),
    S7 as (G7 & _ & P7 & T7).
  apply lift_ok in Hrun as [_ <-]. apply lift_ok in Hrun2 as [Hprot%ensure_ok <-].
  apply lift_ok in Hrun5 as [Hlease%ensure_ok <-]. bool_facts. subst a3.
  apply time_ns_ok in Hrun3 as Ht. rewrite (state_clock _ _ _ _ Hrun1), (state_clock _ _ _ _ Hrun0) in Ht.
  subst a2. apply state_ok in Hrun1 as (? & (_ & row & Hrow & Hn & _ & Hrel)%generation_for_release_ok & _).
  rewrite G1 in Hrow.
  apply state_ok in Hrun4 as (? & Hll%has_live_lease_ok & _).
  apply state_ok in Hrun6 as (? & Href & _).
  assert (gen_state row ∉ protected_states) as Hunprot.
  { destruct Hn as (_ & _ & <-). unfold among in Hprot. by apply bool_decide_eq_false in Hprot. }
  rewrite (live_lease_same _ _ _ _ L4) in Hll. rewrite <- G7 in Hrow.
  destruct a5.
  - eapply (transition_then still) in Hr as [?|(w8 & S8 & T8 & P8 & G8)];
      [left; by etrans| |intros ?; solve_moves|exact Hrow].
    right. apply still_facts in S8 as (? & _ & ? & ?). exists (gr_generation_id g), row.
    split_and!; [congruence|done|done|congruence|congruence|]. left. congruence.
  - eapply (transition_then (cleaned a.2)) in Hr as [?|(w8 & [[(K & _) KP] Htrees] & T8 & P8 & G8)];
      [left; by etrans| |intros ?; solve_moves|exact Hrow].
    right. exists (gr_generation_id g), row.
    split_and!; [congruence|done|done|congruence|congruence|]. intros name. rewrite Hrel.
    destruct (decide (name = a.2 ∨ name = tombstone_name a.2)) as [Hname|Hname].
    + right. split; [done|]. intros g' row' Hg' Hne Hrel'. rewrite <- G6 in Hg'.
      destruct (unreferenced _ _ _ _ _ Href g' row') as [? Hl]; [done..|].
      split; [done|]. by rewrite (live_lease_same _ _ _ _ L6) in Hl.
    + left. rewrite Htrees by tauto. congruence.
Qed.

Lemma tombstone_not_digest d d' : is_digest d' = true → d' ≠ tombstone_name d.
Proof.
  intros Hd ->. unfold is_digest, is_hex_of in Hd. apply andb_true_iff in Hd as [_ Hd].
  cbn in Hd. discriminate Hd.
Qed.
End removal.

(** ** Preparation *)

Ltac kept_step H tac :=
  let e := fresh "e" in let He := fresh "He" in
  let a := fresh "a" in let s := fresh "w" in let Hrun := fresh "Hrun" in
  apply bind_cases in H as [(e & He & ->)|(a & s & Hrun & H)];
  [assert (kept _ _) by (eapply (moves_run kept); [|exact He]; solve [solve_moves]); tac|
   try (assert (kept _ _) by (eapply (moves_run kept); [|exact Hrun]; solve [solve_moves]))].

Section preparation.
Context `{ServicesFrame}.

Lemma cancel_preparation_kept b : moves kept (cancel_preparation b).
Proof. unfold cancel_preparation. solve_moves. Qed.

#[local] Hint Resolve cancel_preparation_kept : py.

Lemma fetch_all_kept b t ds objects : moves kept (fetch_all b t ds objects).
Proof.
  revert objects. induction ds as [|d ds IH]; intros objects; cbn [fetch_all]; solve_moves.
Qed.

#[local] Hint Resolve fetch_all_kept : py.

Lemma state_atomic_still {A} (m : M db A) w e w' :
  atomic m → state m w = (Err e, w') → still w w'.
Proof.
  unfold state, on_gc, on_journal, on_store, journal, zoom. intros Hm.
  destruct (m _) as [r d'] eqn:Hd. intros [= -> <-].
  assert (d' = ew_db w) as ->; [|by destruct w as [[[]]]]. by eapply Hm.
Qed.

(** The commit of [record_generation]. *)
Lemma state_record_ok b dep g rel objs st w u w' :
  state (record_generation b dep g rel objs st) w = (Ok u, w') →
  ∃ row, generations (ew_db w') = <[g := row]> (generations (ew_db w))
    ∧ gen_owner row = owner_of b ∧ gen_state row = st ∧ gen_deployment row = dep
    ∧ gen_release row = rel
    ∧ (∀ old, generations (ew_db w) !! g = Some old → gen_owner old = owner_of b)
    ∧ ew_pointers w' = ew_pointers w.
Proof.
  intros (d' & Hd & Hdb & Hp & _)%state_ok. rewrite Hdb. clear Hdb.
  unfold record_generation in Hd. inv_call. subst.
  destruct (generations (ew_db w) !! g) as [old|] eqn:Hold; bool_facts; cbn; eexists;
    (split_and!; [done|done|done|done|done| |done]); [|done]. by intros ? [= <-].
Qed.

Definition prepared (r : PackageOperationRequest) (b : OperationBinding) (w w' : engine_world)
    (ok : bool) : Prop :=
  ∃ g row, generation_id_of r = Ok g ∧ requests r row
    ∧ generations (ew_db w') = <[g := row]> (generations (ew_db w))
    ∧ gen_owner row = owner_of b ∧ gen_state row = (if ok then GValidated else gen_state row)
    ∧ gen_state row ∈ [GStaging; GValidated]
    ∧ (∀ old, generations (ew_db w) !! g = Some old → gen_owner old = owner_of b)
    ∧ ew_pointers w' = ew_pointers w.

Lemma prepare_cases r b t w res w' :
  prepare r b t w = (res, w') → kept w w' ∧ is_ok res = false ∨ prepared r b w w' (is_ok res).
Proof.
  unfold prepare. intros Hr.
  do 14 kept_step Hr ltac:(left; split; [keep_chain|done]).
  assert (kept w w13) as Hk by keep_chain.
  apply lift_ok in Hrun as [Hid _]. apply lift_ok in Hrun12 as [Hgen _].
  destruct a as [dep rel]. apply release_identity_ok in Hid as Hreq. cbn [fst snd] in *.
  apply bind_cases in Hr as [(e & He & ->)|([] & w14 & Hrec & Hr)].
  { left. split; [|done]. etrans; [exact Hk|].
    apply state_atomic_still in He as [? _]; [done|]. unfold record_generation. solve_atomic. }
  right. clear H1 H2 H3 H4 H5 H6 H7 H8 H9 H10 H11 H12 H13 H14.
  apply state_record_ok in Hrec as (row & Hg & Hown & Hst & Hdep & Hrel & Hold & Hp).
  destruct Hk as [(HkG & _) HkP]. rewrite HkG in Hg, Hold.
  assert (∀ st res', (st = GStaging ∨ st = GValidated) →
    generations (ew_db w') = <[a12 := with_state st b row]> (generations (ew_db w)) →
    ew_pointers w' = ew_pointers w14 → (@is_ok PackageEvidence res' = true → st = GValidated) →
    prepared r b w w' (is_ok res')) as Hdone.
  { intros st res' Hstate Hg2 Hp2 Hok. exists a12, (with_state st b row). destruct Hreq as [Hq1 Hq2].
    split_and!; [done|split; cbn; congruence|done|done| |cbn; set_solver|done|congruence].
    cbn. destruct (is_ok res'); auto. }
  assert (with_state GStaging b row = row) as Hsame
    by (destruct row; cbn in *; unfold with_state; cbn; congruence).
  do 5 kept_step Hr ltac:(apply (Hdone GStaging);
    [by left|rewrite Hsame, <- Hg; assert (kept w14 w') as [[-> _] _] by keep_chain; done
    |assert (kept w14 w') as [_ ->] by keep_chain; done|done]).
  assert (kept w14 w19) as [(Hgk & _) HPk] by keep_chain.
  apply bind_cases in Hr as [(e & He & ->)|(rec & wt & Htr & Hr)].
  - apply state_atomic_still in He as [[(Hge & _) HPe] _]; [|apply atomic_transition].
    apply (Hdone GStaging); [by left|rewrite Hsame; congruence|congruence|done].
  - apply state_transition_ok in Htr as (row' & Hrow' & _ & Hgt & Hpt).
    rewrite Hgk, Hg, lookup_insert_eq in Hrow'. injection Hrow' as <-.
    apply (moves_run kept) in Hr as [(Hge & _) HPe]; [|solve_moves].
    apply (Hdone GValidated); [by right| |congruence|done].
    rewrite Hge, Hgt, Hgk, Hg. apply insert_insert_eq.
Qed.
End preparation.

(** ** Inspection of a finished operation *)

Definition phase_is (b : OperationBinding) (phase : string) (d : db) : Prop :=
  check_binding b = Ok () ∧ ∃ row, operations d !! operation_id b = Some row ∧ owns b row
    ∧ op_phase row = phase.

Lemma set_phase_phase b phase d rec d' : set_phase b phase d = (Ok rec, d') → phase_is b phase d'.
Proof.
  unfold set_phase. intros Hr. inv_call. subst. match goal with
    H1 : operations (set_operations _ _) !! _ = Some ?r, H2 : owns b ?r |- _ =>
      split; [by destruct x|]; exists r; split_and!; [done|done|] end.
  cbn in *. rewrite lookup_alter_eq in *. destruct (operations d !! _); by simplify_eq/=.
Qed.

Lemma operation_phase b phase d :
  phase_is b phase d → ∃ rec, operation b d = (Ok rec, d) ∧ rec_phase rec = phase.
Proof.
  intros (Hb & row & Hrow & (Hj & Hn & Ha & Hf) & <-). exists (operation_record (operation_id b) row).
  split; [|done]. unfold operation, assert_binding, ensure_state, mbind, M_bind, lift, get.
  rewrite Hb, Hrow, Hj, Hn, Ha, Hf, !eqb_refl, Z.ltb_irrefl, Z.eqb_refl. done.
Qed.

Section inspection.
Context `{Services}.

Lemma inspect_phase b phase w :
  phase_is b phase (ew_db w) → inspect b w = (Ok (classify phase), w).
Proof.
  intros (rec & Hrec & <-)%operation_phase. unfold inspect, try_catch.
  assert (state (operation b) w = (Ok rec, w)) as Hs.
  { unfold state, on_gc, on_journal, on_store, journal, zoom. fold (ew_db w). rewrite Hrec.
    by destruct w as [[[]]]. }
  by rewrite (M_bind_run _ _ _ _ _ Hs).
Qed.

(** [finishes b m]: after [m] returned, the operation is seen as completed. *)
Definition finishes {A} (b : OperationBinding) (m : M engine_world A) : Prop :=
  ∀ w a w', m w = (Ok a, w') → inspect b w' = (Ok COMPLETED, w').

Lemma finishes_bind {A B} b (m : M engine_world A) (f : A → M engine_world B) :
  (∀ a, finishes b (f a)) → finishes b (m ≫= f).
Proof. intros Hf w a w' (x & w1 & _ & Hr)%M_bind_ok. by eapply Hf. Qed.

Lemma finishes_throw {A} b c m : finishes b (throw (A:=A) c m).
Proof. intros w a w' Hr. by apply throw_ok in Hr. Qed.

Lemma finishes_phase {A} b phase (r : result A) :
  classify phase = COMPLETED → finishes b (state (set_phase b phase) ≫= λ _, lift r).
Proof.
  intros Hc w a w' (rec & w1 & (d' & Hd & Hdb & _)%state_ok & [_ <-]%lift_ok)%M_bind_ok.
  apply set_phase_phase in Hd. rewrite <- Hdb in Hd. rewrite (inspect_phase _ _ _ Hd), Hc. done.
Qed.

Ltac solve_finishes :=
  repeat first
    [ apply finishes_phase; reflexivity
    | apply finishes_throw
    | apply finishes_bind; intros ?
    | match goal with |- finishes _ (match ?x with _ => _ end) => destruct x end ].

Lemma compensate_finishes r b target previous t :
  finishes b (compensate r b target previous t "rolled-back").
Proof. unfold compensate. solve_finishes. Qed.

Lemma start_and_check_finishes r b a target previous rel t w ev w' :
  start_and_check r b a target previous rel t w = (Ok (Some ev), w') →
  inspect b w' = (Ok COMPLETED, w').
Proof.
  unfold start_and_check. intros Hr. inv_run_all.
  match goal with Hi : (if ?stop : bool then _ else _) _ = _ |- _ => destruct stop end;
    inv_run_all; [|done]. by eapply compensate_finishes.
Qed.

Lemma activate_finishes r b t : finishes b (activate r b t).
Proof.
  unfold activate, engine_error. do 3 (apply finishes_bind; intros ?).
  match goal with |- finishes _ (match ?x with _ => _ end) => destruct x end;
    [|apply finishes_throw].
  do 11 (apply finishes_bind; intros ?). intros w ev w' (early & w1 & Hc & Hr)%M_bind_ok.
  apply try_catch_ok in Hc as [Hc|(e & w3 & _ & Hc)].
  2: { destruct (is_engine_error e), (is_exception e); inv_run_all. }
  destruct early as [ev'|]; [|by eapply (finishes_phase b "active")].
  apply M_ret_ok in Hr as [<- <-]. by eapply start_and_check_finishes.
Qed.

Lemma finishes_evidence b m : finishes b m → finishes b (ev ← m; mret (OEvidence ev)).
Proof. intros Hm w a w' (ev & w1 & Hr & [_ <-]%M_ret_ok)%M_bind_ok. by eapply Hm. Qed.

Lemma execute_finishes r b t w ev w' :
  execute r b t w = (Ok (OEvidence ev), w') → inspect b w' = (Ok COMPLETED, w').
Proof.
  unfold execute. intros Hr. destruct (req_operation r); try (by apply throw_ok in Hr);
    try (revert Hr; apply finishes_evidence);
    [..|by inv_run_all].
  all: lazymatch goal with |- finishes _ (activate _ _ _) => apply activate_finishes | |- _ => idtac end.
  all: unfold prepare, rollback, invoke_existing, remove, repair, engine_error; solve_finishes.
Qed.
End inspection.

(** ** Temporary pointer files *)

Definition tmp_grows (w w' : engine_world) : Prop := ew_pointer_tmp w ⊆ ew_pointer_tmp w'.

#[export] Instance tmp_grows_preorder : PreOrder tmp_grows.
Proof. unfold tmp_grows. split; repeat intros ?; set_solver. Qed.

Section temporaries.
Context `{ServicesFrame}.

Lemma state_tmp {A} (m : M db A) : moves tmp_grows (state m).
Proof. apply moves_zoom. intros g w <-. unfold tmp_grows. done. Qed.

Lemma frame_tmp {A} (m : M engine_world A) : moves frame m → moves tmp_grows m.
Proof. apply moves_impl. intros w w' (_ & _ & _ & Ht). unfold tmp_grows. by rewrite Ht. Qed.

Lemma atomic_write_tmp name data : moves tmp_grows (atomic_write name data).
Proof.
  intros w. destruct (atomic_write name data w) as [res w'] eqn:Hr. cbn. unfold atomic_write in Hr.
  apply bind_cases in Hr as [(? & [=] & _)|(w1 & ? & [-> ->]%get_ok & Hr)].
  case_bool_decide as Hin; [by injection Hr as _ <-|].
  apply bind_cases in Hr as [(? & Ho & _)|(? & w1 & Ho & Hr)];
    apply (moves_run frame _ _ _ _ (sys_open_frame _)) in Ho as (_ & _ & _ & Ho); [unfold tmp_grows; by rewrite Ho|].
  apply bind_cases in Hr as [(? & [=] & _)|(? & w2 & ->%modify_ok & Hr)].
  apply bind_cases in Hr as [(? & Hs & _)|(? & w3 & Hs & Hr)];
    apply (moves_run frame _ _ _ _ (sys_write_frame _)) in Hs as (_ & _ & _ & Ht); cbn in Ht.
  - unfold tmp_grows. rewrite Ht, Ho. set_solver.
  - apply bind_cases in Hr as [(? & [=] & _)|(? & w4 & ->%modify_ok & Hr)].
    apply (moves_run frame _ _ _ _ (sys_sync_frame _)) in Hr as (_ & _ & _ & Hr).
    unfold tmp_grows. rewrite Hr. cbn. rewrite Ht, Ho. set_solver.
Qed.

#[local] Hint Resolve state_tmp frame_tmp atomic_write_tmp : py.

Lemma select_pointer_tmp g p : moves tmp_grows (select_pointer g p).
Proof. unfold select_pointer. auto with py. Qed.

#[local] Hint Resolve select_pointer_tmp : py.

Lemma compensate_tmp r b target previous t st : moves tmp_grows (compensate r b target previous t st).
Proof. unfold compensate. solve_moves. Qed.

#[local] Hint Resolve compensate_tmp : py.

Lemma start_and_check_tmp r b a target previous rel t :
  moves tmp_grows (start_and_check r b a target previous rel t).
Proof. unfold start_and_check. solve_moves. Qed.

Lemma cancel_preparation_tmp b : moves tmp_grows (cancel_preparation b).
Proof. unfold cancel_preparation. solve_moves. Qed.

#[local] Hint Resolve start_and_check_tmp cancel_preparation_tmp : py.

Lemma fetch_all_tmp b t ds objects : moves tmp_grows (fetch_all b t ds objects).
Proof. revert objects. induction ds as [|d ds IH]; intros objects; cbn [fetch_all]; solve_moves. Qed.

#[local] Hint Resolve fetch_all_tmp : py.

Lemma prepare_tmp r b t : moves tmp_grows (prepare r b t).
Proof. unfold prepare. solve_moves. Qed.

#[local] Hint Resolve prepare_tmp : py.

Lemma execute_tmp r b t : moves tmp_grows (execute r b t).
Proof.
  unfold execute, activate, rollback, invoke_existing, remove, repair, gc, engine_error.
  solve_moves. apply moves_zoom. intros g w <-. unfold tmp_grows. done.
Qed.

Lemma select_pointer_blocked g p w :
  gr_deployment_id g ∈ ew_pointer_tmp w → select_pointer g p w = (Err (Exn EOS "File exists"), w).
Proof.
  intros Hin. unfold select_pointer, atomic_write, mbind, M_bind, get.
  by rewrite bool_decide_eq_true_2.
Qed.

Lemma select_pointer_failed g p w w0 e w1 :
  gr_deployment_id g ∉ ew_pointer_tmp w → sys_open (gr_deployment_id g) w = (Ok (), w0) →
  sys_write (gr_deployment_id g) (with_temporary (gr_deployment_id g) w0) = (Err e, w1) →
  select_pointer g p w = (Err e, w1) ∧ gr_deployment_id g ∈ ew_pointer_tmp w1.
Proof.
  intros Hnew Ho Hs. split.
  - unfold select_pointer, atomic_write. rewrite (M_bind_run _ _ _ w w) by done. rewrite bool_decide_eq_false_2 by done.
    rewrite (M_bind_run _ _ _ _ _ Ho), (M_bind_run _ _ _ () (with_temporary (gr_deployment_id g) w0)) by done.
    by apply M_bind_err.
  - apply (moves_run frame _ _ _ _ (sys_write_frame _)) in Hs as (_ & _ & _ & ->). cbn. set_solver.
Qed.

(** A switch needs the temporary name of its pointer. *)
Ltac push_tmp Hin Hrun :=
  eapply (moves_run tmp_grows) in Hrun; [|solve [solve_moves]]; apply Hrun in Hin.

Lemma found_pointer r p w target w1 dep :
  release_identity r = Ok p → req_deployment_id r = Some dep →
  state (generation_for_release p.1 p.2) w = (Ok (Some target), w1) → gr_deployment_id target = dep.
Proof.
  destruct p as [d rel]. intros [? _]%release_identity_ok Hdep
    (? & (_ & row & _ & (Hn & _) & Hd & _)%generation_for_release_ok & _)%state_ok.
  cbn in Hd. congruence.
Qed.

Lemma activate_blocked r b t w ev w' dep :
  activate r b t w = (Ok ev, w') → req_deployment_id r = Some dep → dep ∉ ew_pointer_tmp w.
Proof.
  unfold activate, engine_error. intros Hr Hdep Hin. inv_run_all.
  destruct x3 as [target|]; inv_run_all.
  assert (gr_deployment_id target = dep) as <- by (by eapply found_pointer).
  push_tmp Hin H2. push_tmp Hin H3. push_tmp Hin H5. push_tmp Hin H6. push_tmp Hin H7.
  push_tmp Hin H8. by rewrite select_pointer_blocked in H9.
Qed.

Lemma rollback_blocked r b t w ev w' dep :
  rollback r b t w = (Ok ev, w') → req_deployment_id r = Some dep → dep ∉ ew_pointer_tmp w.
Proof.
  unfold rollback, engine_error. intros Hr Hdep Hin. inv_run_all.
  destruct x3 as [target|]; inv_run_all.
  assert (gr_deployment_id target = dep) as <- by (by eapply found_pointer).
  push_tmp Hin H2. push_tmp Hin H3. push_tmp Hin H5. by rewrite select_pointer_blocked in H6.
Qed.
End temporaries.

(** ** Release locks across a restart *)

(** A new process starts with an empty lock cache. *)
Definition restart (w : engine_world) : engine_world := set_locks ∅ w.

Lemma created_mode_safe `{Services} :
  (Z.land created_mode 127 =? 0)%Z = (Z.land umask 36 =? 36)%Z.
Proof.
  unfold created_mode. rewrite <- Z.land_assoc, (Z.land_comm (Z.lnot umask)), Z.land_assoc.
  change (Z.land 292 127) with 36%Z. rewrite Z.land_comm, (Z.land_comm (Z.lnot umask)), <- Z.ldiff_land.
  pose proof (Z.lor_ldiff_and 36 umask) as Hor. rewrite (Z.land_comm umask 36).
  destruct (Z.eqb_spec (Z.ldiff 36 umask) 0) as [H0|H0];
    destruct (Z.eqb_spec (Z.land 36 umask) 36) as [H1|H1]; try done.
  - rewrite H0, Z.lor_0_l in Hor. done.
  - destruct H0. apply Z.bits_inj'. intros n Hn. rewrite Z.ldiff_spec, Z.bits_0.
    rewrite <- H1, Z.land_spec. destruct (Z.testbit 36 n), (Z.testbit umask n); done.
Qed.

Lemma persist_lock_ok `{ServicesFrame} l w u w' :
  persist_lock l w = (Ok u, w') → lock_typed l = true → ew_lock_files w !! lock_digest l = None →
  ew_lock_files w' !! lock_digest l = Some (LockFile (lock_canonical l) 1 created_mode).
Proof.
  unfold persist_lock. intros Hr Ht Hnone. rewrite Ht in Hr. cbn [negb] in Hr. inv_run_all. rewrite Hnone in Hr.
  case_bool_decide; inv_run_all.
  match goal with Hs : sys_sync _ ?v = _ |- _ =>
    pose proof (sys_sync_locks (lock_digest l) v) as Hl; rewrite Hs in Hl; cbn [snd] in Hl; rewrite Hl end.
  cbn. by rewrite lookup_insert_eq.
Qed.

(** ** Theorems *)

(** Any sequence of requests the engine serves. *)
Inductive engine_step `{Services} : engine_world → engine_world → Prop :=
| engine_request r b t w : engine_step w (execute r b t w).2.

Lemma steps_tmp `{ServicesFrame} w w' : rtc engine_step w w' → tmp_grows w w'.
Proof.
  induction 1 as [w|w1 w2 w3 [r b t w] _ IH]; [reflexivity|]. etrans; [apply execute_tmp|done].
Qed.

Lemma steps_single `{ServicesFrame} w w' :
  rtc engine_step w w' → single_active (ew_db w) → single_active (ew_db w').
Proof.
  induction 1 as [w|w1 w2 w3 [r b t w] _ IH]; [done|]. intros Hsa. by apply IH, execute_single.
Qed.

(** A generation nobody may take away now: its state is protected, or a lease
    on it outlives the next reading of the clock. *)
Definition in_use `{Services} (w : engine_world) (g : string) (row : generation_row) : Prop :=
  gen_state row ∈ protected_states
  ∨ live_lease (ew_db w) g (clock_ns (gw_clock (ew_gc w))) = true.

(** Inspecting the operation of [b] answers [d] and changes nothing. *)
Definition seen_as `{Services} (b : OperationBinding) (d : PackageDisposition) (w : engine_world)
    : Prop :=
  inspect b w = (Ok d, w).

Section theorems.
Context `{ServicesFrame}.

(** C11. However many requests the engine serves, and whatever its services,
    the network and the adapters do, no deployment ever has two active
    generations. *)
Theorem engine_keeps_one_active_generation w w' :
  rtc engine_step w w' → single_active (ew_db w) → single_active (ew_db w').
Proof. apply steps_single. Qed.

(** C31. An activation that reports [active] serves the requested release: its
    generation is the only active one of the deployment, and the pointer file
    of the deployment selects it. *)
Theorem activation_serves_the_release `{!ServicesForeign} r b t w ev w' :
  activate r b t w = (Ok ev, w') → single_active (ew_db w) → ev_status ev = "active" →
  ∃ target row previous, ev_generation ev = Some (gr_generation_id target)
    ∧ requests r row ∧ names target row
    ∧ serves w' (gr_generation_id target) (with_state GActive b row)
    ∧ points_to w' target previous.
Proof. apply activate_serves. Qed.

(** C32. When an activation raises the health failure, which it does when starting or
    checking the new generation failed and the compensation returned, the generation that
    served before serves again and the pointer file selects it; without one the deployment
    is left with no active generation. The new generation is marked failed in both cases.
    (A compensation that raises itself, as when the earlier generation cannot be started
    again, raises its own exception instead.) *)
Theorem failed_activation_is_compensated `{!ServicesForeign} r b t w w' :
  activate r b t w = (Err health_failure, w') → single_active (ew_db w) →
  ∃ target row previous, requests r row ∧ names target row
    ∧ generations (ew_db w) !! gr_generation_id target = Some row
    ∧ was_active (ew_db w) (gen_deployment row) previous
    ∧ compensated w' target row previous.
Proof. apply activate_failure. Qed.

(** A removal never interrupts what is in use: whether it returns or
    raises, no pointer file changes, a generation that is active, retained,
    staged, validated or pinned, or that a live lease protects, keeps its row,
    and so does the tree of its release. *)
Theorem removal_spares_generations_in_use r b w :
  let w' := (remove r b w).2 in
  ew_pointers w' = ew_pointers w
  ∧ ∀ g row, generations (ew_db w) !! g = Some row → in_use w g row →
      generations (ew_db w') !! g = Some row
      ∧ (is_digest (gen_release row) = true →
         ew_trees w' !! gen_release row = ew_trees w !! gen_release row).
Proof.
  intros w'. destruct (remove r b w) as [res w''] eqn:Hr. subst w'. cbn.
  destruct (remove_cases _ _ _ _ _ Hr) as [S|(g & row & Hrow & Hunp & Hll & Hp & Hg & Htrees)].
  - apply still_facts in S as (-> & _ & -> & ->). done.
  - split; [done|]. intros g' row' Hg' Huse.
    assert (g' ≠ g) as Hne by (intros ->; simplify_eq; destruct Huse; congruence).
    rewrite Hg, lookup_insert_ne by done. split; [done|]. intros Hd.
    destruct (Htrees (gen_release row')) as [?|[[Hn|Hn] Hother]]; [done| |].
    + destruct (Hother _ _ Hg' Hne Hn) as [Hu Hl]. destruct Huse; congruence.
    + by apply tombstone_not_digest in Hn.
Qed.

(** A preparation writes one generation at most, the one its request names:
    it leaves every pointer file and every generation of another operation
    alone, so it never takes over or demotes what another operation validated
    or activated; when it returns, its generation is validated. *)
Theorem preparation_writes_only_its_generation r b t w res w' :
  prepare r b t w = (res, w') →
  (∀ g row, generations (ew_db w) !! g = Some row → gen_owner row ≠ owner_of b →
     generations (ew_db w') !! g = Some row)
  ∧ ew_pointers w' = ew_pointers w
  ∧ (is_ok res = true → ∃ g row, generation_id_of r = Ok g ∧ requests r row
       ∧ generations (ew_db w') !! g = Some row ∧ gen_state row = GValidated).
Proof.
  intros [[K Hok]|(g & row & Hid & Hreq & Hg & Hown & Hst & _ & Hold & Hp)]%prepare_cases.
  - destruct K as [(Hg & _) Hp]. rewrite Hg. split_and!; [done..|]. by rewrite Hok.
  - split_and!; [|done|].
    + intros g' row' Hg' Hne. rewrite Hg, lookup_insert_ne; [done|]. intros ->. by apply Hold in Hg'.
    + intros Hok. rewrite Hok in Hst. exists g, row. rewrite Hg, lookup_insert_eq. done.
Qed.

(** Once an operation has returned its evidence, inspecting it again
    answers [completed], whichever way it ended. *)
Theorem finished_operation_is_completed r b t w ev w' :
  execute r b t w = (Ok (OEvidence ev), w') → seen_as b COMPLETED w'.
Proof. apply execute_finishes. Qed.

(** C33. A pointer write that fails between the creation of its temporary file and the
    replacement of the pointer leaves that file behind, and from then on no activation and
    no rollback of that deployment succeeds, whatever requests the engine serves in
    between. *)
Theorem failed_pointer_write_blocks_the_deployment g p w w0 e w1 :
  gr_deployment_id g ∉ ew_pointer_tmp w → sys_open (gr_deployment_id g) w = (Ok (), w0) →
  sys_write (gr_deployment_id g) (with_temporary (gr_deployment_id g) w0) = (Err e, w1) →
  select_pointer g p w = (Err e, w1) ∧
  ∀ w2 r b t ev w3, rtc engine_step w1 w2 → req_deployment_id r = Some (gr_deployment_id g) →
    activate r b t w2 ≠ (Ok ev, w3) ∧ rollback r b t w2 ≠ (Ok ev, w3).
Proof.
  intros Hnew Ho Hs. destruct (select_pointer_failed _ p _ _ _ _ Hnew Ho Hs) as [Hsel Hin]. split; [done|].
  intros w2 r b t ev w3 Hsteps%steps_tmp Hdep. apply Hsteps in Hin.
  split; intros Hr; [by eapply activate_blocked|by eapply rollback_blocked].
Qed.

(** A release lock that was written to disk is found again by a new
    process exactly when the umask of the process that wrote it took the group
    and other read bits away; otherwise it is refused as unsafe. *)
Theorem persisted_lock_survives_restart l w u w' :
  persist_lock l w = (Ok u, w') → lock_typed l = true →
  ew_lock_files w !! lock_digest l = None →
  parse_lock (lock_canonical l) = Ok l →
  (Z.of_nat (String.length (lock_canonical l)) ≤ 1024 * 1024)%Z →
  (local_lock (lock_digest l) (restart w')).1
  = if (Z.land umask 36 =? 36)%Z then Ok l
    else Err (Exn EPackageEngine "local release metadata is unavailable").
Proof.
  intros Hr Ht Hnone Hparse Hlen. pose proof (persist_lock_ok _ _ _ _ Hr Ht Hnone) as Hf.
  unfold local_lock, mbind, M_bind, get, restart. cbn [ew_locks ew_lock_files set_locks].
  rewrite lookup_empty, Hf. unfold lock_mode_safe. cbn [lf_links lf_bytes lf_mode].
  rewrite (proj2 (Z.leb_le _ _) Hlen), created_mode_safe. cbn [andb].
  change ((1 =? 1)%Z) with true. cbn [andb].
  destruct (Z.land umask 36 =? 36)%Z; cbn [negb]; [|done].
  rewrite Hparse, !eqb_refl. done.
Qed.
End theorems.

(** ** Witnesses *)

Definition demo_lock : lock :=
  Lock sample_digest [] (Descriptor "adapter" sample_digest 4) "{}" true.

(** Services that answer at once: [write_fails] makes the first pointer write
    fail, and [sick] is the generation whose health check fails. *)
Definition demo_services (write_fails : bool) (sick : string) (mask : Z) : Services := {|
  clock_ns := λ n, (10 + Z.of_nat n)%Z;
  cancel_poll := λ _, false;
  after_delete := λ _, Ok ();
  has_collector := true;
  umask := mask;
  trust_refresh := mret ();
  trusted_lock := λ _, mret demo_lock;
  preflight := λ _ _ _, mret ();
  fetch := λ d _ _, mret (Stored (desc_digest d) (desc_size d) "adapter" (object_name (desc_digest d)));
  materialize := λ _ objects, mret (elements (dom objects));
  handle := unit;
  accepts_request := true;
  adapter_factory := λ _ _ _ _ _, mret ();
  adapter_execute := λ _ o i _,
    if eqb o AHealth && eqb (inv_generation i) sick then throw EExternal "unhealthy" else mret ();
  crash_hook := λ _, mret ();
  parse_lock := λ _, Ok demo_lock;
  sys_open := λ _, mret ();
  sys_write := λ _, if write_fails then throw EOS "No space left on device" else mret ();
  sys_sync := λ _, mret ()
|}.

#[export] Instance demo_frame write_fails sick mask : ServicesFrame (H := demo_services write_fails sick mask).
Proof.
  constructor; intros; cbn; try (apply (moves_ret frame)); try done.
  - destruct (_ && _); [apply (moves_throw frame)|apply (moves_ret frame)].
  - destruct write_fails; [apply (moves_throw frame)|apply (moves_ret frame)].
Qed.

#[export] Instance demo_foreign write_fails sick mask :
  ServicesForeign (H := demo_services write_fails sick mask).
Proof.
  constructor; intros; cbn in *; try done; repeat intros ?; cbn in *.
  - destruct (_ && _); [|done]. by match goal with H : throw _ _ _ = _ |- _ => injection H as <- _ end.
  - destruct write_fails; [|done]. by match goal with H : throw _ _ _ = _ |- _ => injection H as <- _ end.
Qed.

Definition demo_world (d : db) : engine_world :=
  EngineWorld (GcWorld (Store d ∅ []) 0 0) ∅ ∅ {[sample_digest := demo_lock]} ∅ ∅ ∅.

Definition demo_request (o : AgentOperation) : PackageOperationRequest :=
  Request o (Some "chat") (Some sample_digest) (Some sample_digest) None None None None.

(** A successful activation of the second generation of [sample_db]. *)
Definition demo_activation : result PackageEvidence * engine_world :=
  activate (H := demo_services false "" 63) (demo_request PACKAGE_ACTIVATE) (sample_binding 2) 0
    (demo_world sample_db).

Lemma activation_serves_the_release_witness :
  ∃ ev w', demo_activation = (Ok ev, w') ∧ ev_generation ev = Some "gen-b"
    ∧ ∃ target row previous, ev_generation ev = Some (gr_generation_id target)
      ∧ requests (demo_request PACKAGE_ACTIVATE) row ∧ names target row
      ∧ serves w' (gr_generation_id target) (with_state GActive (sample_binding 2) row)
      ∧ points_to w' target previous.
Proof.
  assert (match demo_activation.1 with
          | Ok ev => eqb (ev_status ev) "active" && eqb (ev_generation ev) (Some "gen-b")
          | Err _ => false end = true) as Hok by (vm_compute; reflexivity).
  destruct demo_activation as [[ev|e] w'] eqn:H; [|discriminate Hok].
  apply andb_true_iff in Hok as [Hst Hgen].
  apply (proj1 (eqb_true (ev_status ev) _)) in Hst. apply (proj1 (eqb_true (ev_generation ev) _)) in Hgen.
  exists ev, w'. split; [reflexivity|]. split; [exact Hgen|].
  exact (activation_serves_the_release (H := demo_services false "" 63) _ _ _ _ _ _ H
    single_active_sample Hst).
Defined.

(** The same activation when the second generation is not healthy. *)
Definition demo_failure : result PackageEvidence * engine_world :=
  activate (H := demo_services false "gen-b" 63) (demo_request PACKAGE_ACTIVATE) (sample_binding 2) 0
    (demo_world sample_db).

Lemma failed_activation_is_compensated_witness :
  ∃ w', demo_failure = (Err health_failure, w')
    ∧ ∃ target row previous, requests (demo_request PACKAGE_ACTIVATE) row ∧ names target row
      ∧ generations sample_db !! gr_generation_id target = Some row
      ∧ was_active sample_db (gen_deployment row) previous
      ∧ compensated w' target row previous.
Proof.
  assert (match demo_failure.1 with Ok _ => false | Err e => eqb e health_failure end = true) as Hok
    by (vm_compute; reflexivity).
  destruct demo_failure as [[ev|e] w'] eqn:H; [discriminate Hok|].
  apply (proj1 (eqb_true e _)) in Hok. subst e. exists w'. split; [reflexivity|].
  exact (failed_activation_is_compensated (H := demo_services false "gen-b" 63) _ _ _ _ _ H
    single_active_sample).
Defined.

Lemma engine_keeps_one_active_generation_witness : single_active (ew_db demo_activation.2).
Proof.
  pose proof (engine_keeps_one_active_generation (H := demo_services false "" 63)
    (demo_world sample_db) _ (rtc_once _ _ (engine_request (demo_request PACKAGE_ACTIVATE)
      (sample_binding 2) 0 (demo_world sample_db))) single_active_sample) as Hsa.
  unfold execute, mbind, M_bind in Hsa. cbn [req_operation demo_request] in Hsa.
  fold demo_activation in Hsa. destruct demo_activation as [[ev|e] w']; exact Hsa.
Defined.

(** Preparing the release anew, for an operation that begins. *)
Definition demo_preparation : result PackageEvidence * engine_world :=
  prepare (H := demo_services false "" 63) (demo_request PACKAGE_PREPARE) (sample_binding 1) 0
    (demo_world empty_db).

Lemma preparation_writes_only_its_generation_witness :
  is_ok demo_preparation.1 = true
  ∧ ∃ g row, generation_id_of (demo_request PACKAGE_PREPARE) = Ok g
      ∧ generations (ew_db demo_preparation.2) !! g = Some row ∧ gen_state row = GValidated.
Proof.
  assert (is_ok demo_preparation.1 = true) as Hok by (vm_compute; reflexivity).
  destruct demo_preparation as [res w'] eqn:H. split; [exact Hok|].
  destruct (preparation_writes_only_its_generation (H := demo_services false "" 63)
    _ _ _ _ _ _ H) as (_ & _ & Hval).
  destruct (Hval Hok) as (g & row & Hid & _ & Hg & Hst). exists g, row.
  split; [exact Hid|]. split; [exact Hg|exact Hst].
Defined.

Lemma finished_operation_is_completed_witness :
  ∃ ev w', execute (H := demo_services false "" 63) (demo_request PACKAGE_ACTIVATE)
      (sample_binding 2) 0 (demo_world sample_db) = (Ok (OEvidence ev), w')
    ∧ seen_as (H := demo_services false "" 63) (sample_binding 2) COMPLETED w'.
Proof.
  assert (is_ok demo_activation.1 = true) as Hok by (vm_compute; reflexivity).
  destruct demo_activation as [[ev|e] w'] eqn:H; [|discriminate Hok].
  assert (execute (H := demo_services false "" 63) (demo_request PACKAGE_ACTIVATE)
    (sample_binding 2) 0 (demo_world sample_db) = (Ok (OEvidence ev), w')) as He.
  { unfold execute, mbind, M_bind. cbn [req_operation demo_request].
    fold demo_activation. rewrite H. reflexivity. }
  exists ev, w'. split; [exact He|].
  exact (finished_operation_is_completed (H := demo_services false "" 63) _ _ _ _ _ _ He).
Defined.

Definition demo_target : GenerationRecord :=
  GenerationRec "gen-b" "chat" sample_digest GValidated [sample_digest].

(** A full disk during one pointer write. *)
Definition demo_write : result unit * engine_world :=
  select_pointer (H := demo_services true "" 63) demo_target None (demo_world sample_db).

Lemma failed_pointer_write_blocks_the_deployment_witness :
  is_ok demo_write.1 = false
  ∧ ∀ ev w3, activate (H := demo_services true "" 63) (demo_request PACKAGE_ACTIVATE)
      (sample_binding 2) 0 demo_write.2 ≠ (Ok ev, w3).
Proof.
  destruct (failed_pointer_write_blocks_the_deployment (H := demo_services true "" 63) demo_target None
    (demo_world sample_db) (demo_world sample_db) (Exn EOS "No space left on device")
    (with_temporary "chat" (demo_world sample_db))) as [Hsel Hblocked].
  - apply not_elem_of_empty.
  - reflexivity.
  - reflexivity.
  - unfold demo_write. rewrite Hsel. split; [reflexivity|]. intros ev w3.
    exact (proj1 (Hblocked _ (demo_request PACKAGE_ACTIVATE) (sample_binding 2) 0%Z ev w3 (rtc_refl _ _) eq_refl)).
Defined.

Definition demo_persist (mask : Z) : result unit * engine_world :=
  persist_lock (H := demo_services false "" mask) demo_lock (demo_world empty_db).

(** Under the service's umask 077 the lock is found; under 022 it is not. *)
Lemma persisted_lock_survives_restart_witness :
  (∃ w', demo_persist 63 = (Ok (), w')
    ∧ (local_lock (H := demo_services false "" 63) sample_digest (restart w')).1 = Ok demo_lock)
  ∧ (∃ w', demo_persist 18 = (Ok (), w')
    ∧ (local_lock (H := demo_services false "" 18) sample_digest (restart w')).1
      = Err (Exn EPackageEngine "local release metadata is unavailable")).
Proof.
  assert (is_ok (demo_persist 63).1 = true) as H1 by (vm_compute; reflexivity).
  assert (is_ok (demo_persist 18).1 = true) as H2 by (vm_compute; reflexivity).
  destruct (demo_persist 63) as [[[]|e] w1] eqn:E1; [|discriminate H1].
  destruct (demo_persist 18) as [[[]|e] w2] eqn:E2; [|discriminate H2].
  split; [exists w1|exists w2]; (split; [reflexivity|]).
  - refine (persisted_lock_survives_restart (H := demo_services false "" 63) demo_lock
      _ () w1 E1 eq_refl eq_refl eq_refl _). cbn. lia.
  - refine (persisted_lock_survives_restart (H := demo_services false "" 18) demo_lock
      _ () w2 E2 eq_refl eq_refl eq_refl _). cbn. lia.
Defined.
