(* ===== verification/NodeLeases.v ===== *)
(** * Node mutation leases ([control/src/vonk_control/node_leases.py])

    The control plane's exclusive ownership of nodes. The session is the table
    of leases, keyed by node, and the set of known nodes. [others] is what other
    transactions commit between the reads of [acquire_in_session] and its
    insertion, [new_fence] the UUID it draws and [now] the clock. The check for
    the database dialect is not modelled. *)

From S2P Require Import Prelude Identifiers.

Record mutation_lease := MutationLease {
  ml_owner_kind : string; ml_owner_id : string; ml_fence : string; ml_state : string;
  ml_acquired_at : Z; ml_updated_at : Z
}.

#[export] Instance mutation_lease_eq_dec : EqDecision mutation_lease.
Proof. solve_decision. Defined.

Record session := Session {
  mutation_leases : gmap string mutation_lease;
  agent_nodes : gset string
}.

Definition set_mutation_leases (f : gmap string mutation_lease → gmap string mutation_lease) (s : session)
    : session := Session (f (mutation_leases s)) (agent_nodes s).

Record NodeLeaseGrant := Grant {
  grant_owner_kind : string; grant_owner_id : string; grant_fence : string;
  grant_node_ids : list string; grant_state : string
}.

#[export] Instance NodeLeaseGrant_eq_dec : EqDecision NodeLeaseGrant.
Proof. solve_decision. Defined.

Fixpoint join_names (l : list string) : string :=
  match l with
  | [] => ""
  | [x] => x
  | x :: l => x +:+ ", " +:+ join_names l
  end.

Definition lease_conflict {A} (node_ids : list string) : M session A :=
  throw ENodeLeaseConflict
    ("node mutation lease conflict: " +:+ join_names (py_sorted (remove_dups node_ids))).

(** ** Arguments *)

Definition lease_nodes (values : list string) : result (list string) :=
  let nodes := py_sorted values in
  ensure (nonempty nodes && distinct nodes && forallb (λ v, negb (eqb v "")) nodes) EValue
    "node mutation lease targets are invalid";;
  mret nodes.

Definition check_lease_uuid (value name : string) : result unit :=
  ensure (is_uuid value) EValue (name +:+ " is invalid").

Definition check_owner (kind owner_id : string) : result unit :=
  ensure (among kind ["reconciliation"; "update-rollout"]) EValue
    "node mutation lease owner kind is invalid";;
  check_lease_uuid owner_id "node mutation lease owner".

(** ** Queries *)

(** The rows of [nodes], which are sorted, in the order of the query. *)
Definition lease_rows (s : session) (nodes : list string) : list (string * mutation_lease) :=
  omap (λ node, (λ row, (node, row)) <$> mutation_leases s !! node) nodes.

Definition owned_by (kind owner_id : string) (row : mutation_lease) : bool :=
  eqb (ml_owner_kind row) kind && eqb (ml_owner_id row) owner_id.

Definition one_of (l : list string) : option string :=
  match remove_dups l with [x] => Some x | _ => None end.

Definition matching_grant (rows : list (string * mutation_lease)) (nodes : list string)
    (kind owner_id : string) : option NodeLeaseGrant :=
  match one_of (ml_fence ∘ snd <$> rows) with
  | Some fence =>
      if bool_decide (length rows = length nodes) && bool_decide (rows.*1 = nodes)
         && forallb (λ p, owned_by kind owner_id p.2 && eqb (ml_state p.2) "held") rows
      then Some (Grant kind owner_id fence nodes "held") else None
  | None => None
  end.

(** ** Operations *)

(** [INSERT ... ON CONFLICT DO NOTHING RETURNING]: the nodes that had no row. *)
Definition free_nodes (m : gmap string mutation_lease) (nodes : list string) : list string :=
  filter (λ node, m !! node = None) nodes.

Definition insert_leases (row : mutation_lease) (nodes : list string) (m : gmap string mutation_lease)
    : gmap string mutation_lease :=
  foldr (λ node m, <[node := row]> m) m nodes.

Definition delete_leases (fence : string) (nodes : list string) (m : gmap string mutation_lease)
    : gmap string mutation_lease :=
  filter (λ p : string * mutation_lease, ¬ (ml_fence p.2 = fence ∧ p.1 ∈ nodes)) m.

Definition acquire_in_session (others : gmap string mutation_lease → gmap string mutation_lease)
    (new_fence : string) (now : Z) (node_ids : list string) (kind owner_id : string)
    : M session NodeLeaseGrant :=
  nodes ← lift (lease_nodes node_ids);
  lift (check_owner kind owner_id);;
  s ← get;
  let existing := lease_rows s nodes in
  match matching_grant existing nodes kind owner_id with
  | Some grant => mret grant
  | None =>
      if nonempty existing then lease_conflict (existing.*1)
      else
        let known := filter (λ node, node ∈ agent_nodes s) nodes in
        if negb (bool_decide (known = nodes)) then
          throw EKey (join_names (filter (λ node, node ∉ agent_nodes s) nodes))
        else
          modify (set_mutation_leases others);;
          s ← get;
          let inserted := free_nodes (mutation_leases s) nodes in
          let row := MutationLease kind owner_id new_fence "held" now now in
          modify (set_mutation_leases (insert_leases row inserted));;
          if bool_decide (length inserted = length nodes)
          then mret (Grant kind owner_id new_fence nodes "held")
          else
            (if nonempty inserted
             then modify (set_mutation_leases (delete_leases new_fence inserted))
             else mret ());;
            s ← get;
            let conflicts := (lease_rows s nodes).*1 in
            lease_conflict (if nonempty conflicts then conflicts else nodes)
  end.

Definition owned_grant_in_session (node_ids : list string) (kind owner_id : string)
    : M session (option NodeLeaseGrant) :=
  nodes ← lift (lease_nodes node_ids);
  lift (check_owner kind owner_id);;
  s ← get;
  let rows := lease_rows s nodes in
  if negb (nonempty rows) then mret None
  else
    match one_of (ml_fence ∘ snd <$> rows), one_of (ml_state ∘ snd <$> rows) with
    | Some fence, Some state =>
        if bool_decide (length rows = length nodes) && bool_decide (rows.*1 = nodes)
           && forallb (λ p, owned_by kind owner_id p.2) rows
        then mret (Some (Grant kind owner_id fence nodes state))
        else lease_conflict (rows.*1)
    | _, _ => lease_conflict (rows.*1)
    end.

Definition grant_rows (g : NodeLeaseGrant) : M session (list (string * mutation_lease)) :=
  lift (check_owner (grant_owner_kind g) (grant_owner_id g));;
  nodes ← lift (lease_nodes (grant_node_ids g));
  lift (check_lease_uuid (grant_fence g) "node mutation lease fence");;
  s ← get;
  let rows := lease_rows s nodes in
  if bool_decide (length rows = length nodes)
     && forallb (λ p, owned_by (grant_owner_kind g) (grant_owner_id g) p.2
                      && eqb (ml_fence p.2) (grant_fence g)) rows
  then mret rows else lease_conflict nodes.

Definition releasing (now : Z) (row : mutation_lease) : mutation_lease :=
  MutationLease (ml_owner_kind row) (ml_owner_id row) (ml_fence row) "releasing"
    (ml_acquired_at row) now.

Definition mark_releasing_in_session (now : Z) (g : NodeLeaseGrant) : M session unit :=
  rows ← grant_rows g;
  if existsb (λ p, negb (among (ml_state p.2) ["held"; "releasing"])) rows
  then lease_conflict (grant_node_ids g)
  else eachM (λ p, modify (set_mutation_leases (alter (releasing now) p.1))) rows.

Definition release_in_session (g : NodeLeaseGrant) : M session unit :=
  rows ← grant_rows g;
  if existsb (λ p, negb (eqb (ml_state p.2) "releasing")) rows
  then lease_conflict (grant_node_ids g)
  else eachM (λ p, modify (set_mutation_leases (delete p.1))) rows.

(** ** Rows of a query *)

Lemma lease_rows_elem s nodes node row :
  (node, row) ∈ lease_rows s nodes ↔ node ∈ nodes ∧ mutation_leases s !! node = Some row.
Proof.
  unfold lease_rows. rewrite list_elem_of_omap. split.
  - intros (x & Hx & (r & Hr & [= -> ->])%fmap_Some). done.
  - intros [Hn Hr]. exists node. by rewrite Hr.
Qed.

Lemma lease_rows_names s nodes : (lease_rows s nodes).*1 = filter (λ n, is_Some (mutation_leases s !! n)) nodes.
Proof.
  unfold lease_rows. induction nodes as [|n nodes IH]; [done|]. rewrite filter_cons. cbn.
  destruct (mutation_leases s !! n) as [row|] eqn:Hn; cbn.
  - rewrite decide_True by done. by rewrite IH.
  - rewrite decide_False by (by intros [? ?]). done.
Qed.

(** All rows are there exactly when every node has one. *)
Lemma lease_rows_full s nodes :
  length (lease_rows s nodes) = length nodes ↔ Forall (λ n, is_Some (mutation_leases s !! n)) nodes.
Proof.
  rewrite <- (length_fmap fst), lease_rows_names. apply filter_full_length.
Qed.

Lemma lease_rows_full_names s nodes :
  Forall (λ n, is_Some (mutation_leases s !! n)) nodes → (lease_rows s nodes).*1 = nodes.
Proof. intros Hall. rewrite lease_rows_names. by apply filter_full. Qed.

Lemma one_of_all l x : l ≠ [] → Forall (λ y, y = x) l → one_of l = Some x.
Proof.
  intros Hne Hall. unfold one_of.
  enough (remove_dups l = [x]) as -> by done.
  induction Hall as [|y l -> Hall IH]; [done|]. cbn. destruct l as [|z l]; [done|].
  destruct (decide_rel elem_of x (z :: l)) as [_|Hno]; [by apply IH|].
  destruct Hno. inversion_clear Hall. subst. left.
Qed.

Lemma one_of_some l x : one_of l = Some x → Forall (λ y, y = x) l.
Proof.
  unfold one_of. destruct (remove_dups l) as [|y [|]] eqn:Hl; try done. intros [= ->].
  apply Forall_forall. intros z Hz. apply elem_of_remove_dups in Hz. rewrite Hl in Hz.
  by apply list_elem_of_singleton in Hz.
Qed.

Lemma Permutation_nil_iff_ne (l : list string) : py_sorted l ≠ [] ↔ l ≠ [].
Proof.
  split; intros Hne Heq; destruct Hne; [by rewrite Heq|].
  apply Permutation_nil_r. by rewrite <- (py_sorted_perm l), Heq.
Qed.

Lemma lease_nodes_ok ids nodes :
  lease_nodes ids = Ok nodes ↔
  nodes = py_sorted ids ∧ ids ≠ [] ∧ NoDup ids ∧ Forall (λ v, v ≠ "") ids.
Proof.
  unfold lease_nodes. rewrite result_bind_ok.
  assert (nonempty (py_sorted ids) && distinct (py_sorted ids)
          && forallb (λ v, negb (eqb v "")) (py_sorted ids) = true
          ↔ ids ≠ [] ∧ NoDup ids ∧ Forall (λ v, v ≠ "") ids) as Hiff.
  { rewrite !andb_true_iff, nonempty_true, distinct_true, forallb_forall.
    rewrite (Permutation_nil_iff_ne ids), (py_sorted_perm ids), Forall_forall.
    setoid_rewrite negb_true_iff. setoid_rewrite eqb_false. setoid_rewrite <- list_elem_of_In.
    setoid_rewrite py_sorted_elem_of. tauto. }
  split.
  - intros ([] & H%ensure_ok & [= <-]). apply Hiff in H. tauto.
  - intros (-> & H). exists (). split; [by apply ensure_ok, Hiff|done].
Qed.

(** Every node of [nodes] is leased to the owner under one fence and state. *)
Definition held_by (m : gmap string mutation_lease) (kind owner_id fence state : string)
    (nodes : list string) : Prop :=
  Forall (λ node, ∃ row, m !! node = Some row ∧ owned_by kind owner_id row = true
            ∧ ml_fence row = fence ∧ ml_state row = state) nodes.

Lemma held_by_full s kind owner_id fence state nodes :
  held_by (mutation_leases s) kind owner_id fence state nodes →
  Forall (λ n, is_Some (mutation_leases s !! n)) nodes.
Proof. intros Hall. eapply Forall_impl; [exact Hall|]. intros n (row & Hrow & _). eauto. Qed.

Lemma held_by_rows s kind owner_id fence state nodes :
  held_by (mutation_leases s) kind owner_id fence state nodes →
  Forall (λ p, owned_by kind owner_id p.2 = true ∧ ml_fence p.2 = fence ∧ ml_state p.2 = state)
    (lease_rows s nodes).
Proof.
  intros Hall. apply Forall_forall. intros [n row] [Hn Hrow]%lease_rows_elem.
  unfold held_by in Hall. rewrite Forall_forall in Hall.
  destruct (Hall n Hn) as (row' & Hrow' & ?). naive_solver.
Qed.

Lemma held_by_perm m kind owner_id fence state l1 l2 :
  l1 ≡ₚ l2 → held_by m kind owner_id fence state l1 → held_by m kind owner_id fence state l2.
Proof. unfold held_by. by intros ->. Qed.

Lemma lease_rows_nonempty s nodes :
  nodes ≠ [] → Forall (λ n, is_Some (mutation_leases s !! n)) nodes → lease_rows s nodes ≠ [].
Proof.
  intros Hne Hall Hnil. apply lease_rows_full_names in Hall. rewrite Hnil in Hall. by destruct nodes.
Qed.

Lemma one_of_rows s nodes (f : mutation_lease → string) x :
  nodes ≠ [] → Forall (λ n, is_Some (mutation_leases s !! n)) nodes →
  Forall (λ p, f p.2 = x) (lease_rows s nodes) → one_of (f ∘ snd <$> lease_rows s nodes) = Some x.
Proof.
  intros Hne Hfull Hall. apply one_of_all.
  - intros Hnil%fmap_nil_inv. by apply (lease_rows_nonempty s nodes).
  - apply Forall_fmap. eapply Forall_impl; [exact Hall|]. done.
Qed.

Lemma forallb_Forall {A} (f : A → bool) l : forallb f l = true ↔ Forall (λ x, f x = true) l.
Proof. induction l as [|x l IH]; cbn; [done|]. by rewrite andb_true_iff, Forall_cons, IH. Qed.

Lemma rows_held s nodes kind owner_id fence state :
  length (lease_rows s nodes) = length nodes →
  Forall (λ p, owned_by kind owner_id p.2 = true ∧ ml_fence p.2 = fence ∧ ml_state p.2 = state)
    (lease_rows s nodes) →
  held_by (mutation_leases s) kind owner_id fence state nodes.
Proof.
  intros Hlen%lease_rows_full Hall. apply Forall_forall. intros n Hn.
  rewrite Forall_forall in Hlen. rewrite Forall_forall in Hall.
  destruct (Hlen n Hn) as [row Hrow]. exists row.
  destruct (Hall (n, row)) as (? & ? & ?); [by apply lease_rows_elem|done].
Qed.

Lemma matching_grant_ok s nodes kind owner_id g :
  nodes ≠ [] →
  matching_grant (lease_rows s nodes) nodes kind owner_id = Some g ↔
  ∃ fence, g = Grant kind owner_id fence nodes "held"
    ∧ held_by (mutation_leases s) kind owner_id fence "held" nodes.
Proof.
  intros Hne. unfold matching_grant. split.
  - destruct (one_of _) as [fence|] eqn:Hone; [|done]. case_match eqn:Hc; [|done]. intros [= <-].
    apply andb_true_iff in Hc as [[Hlen%bool_decide_eq_true_1 _]%andb_true_iff Hall%forallb_Forall].
    exists fence. split; [done|]. apply rows_held; [done|].
    apply one_of_some in Hone. rewrite Forall_fmap in Hone.
    rewrite Forall_forall in Hone. rewrite Forall_forall in Hall. apply Forall_forall.
    intros p Hp. specialize (Hall p Hp). specialize (Hone p Hp).
    bool_facts. by split_and!.
  - intros (fence & -> & Hheld). pose proof (held_by_full _ _ _ _ _ _ Hheld) as Hfull.
    pose proof (held_by_rows _ _ _ _ _ _ Hheld) as Hrows.
    rewrite (one_of_rows s nodes ml_fence fence);
      [|done|done|eapply Forall_impl; [exact Hrows|naive_solver]].
    rewrite bool_decide_eq_true_2 by (by apply lease_rows_full).
    rewrite bool_decide_eq_true_2 by (by apply lease_rows_full_names).
    cbn. rewrite (proj2 (forallb_Forall _ _)); [done|].
    eapply Forall_impl; [exact Hrows|]. intros p (-> & _ & ->). by rewrite eqb_refl.
Qed.

Lemma insert_leases_lookup row l m n :
  insert_leases row l m !! n = if bool_decide (n ∈ l) then Some row else m !! n.
Proof.
  unfold insert_leases in *. induction l as [|x l IH]; cbn; [done|]. rewrite lookup_insert, IH.
  repeat case_decide; repeat case_bool_decide; set_solver.
Qed.

Lemma delete_inserted row l m :
  Forall (λ n, m !! n = None) l → delete_leases (ml_fence row) l (insert_leases row l m) = m.
Proof.
  intros Hfree. apply map_eq. intros n. unfold delete_leases.
  rewrite map_lookup_filter, insert_leases_lookup. case_bool_decide as Hn; cbn.
  - rewrite option_guard_False by (cbn; tauto). rewrite Forall_forall in Hfree. by rewrite Hfree.
  - destruct (m !! n) as [r|]; [|done]. cbn. by rewrite option_guard_True by (cbn; tauto).
Qed.

(** ** Acquisition *)

Lemma acquire_cases others fence now ids kind owner_id s r s' :
  acquire_in_session others fence now ids kind owner_id s = (r, s') →
  (∃ e, r = Err e ∧ (s' = s ∨ s' = set_mutation_leases others s))
  ∨ ∃ g base, r = Ok g ∧ g = Grant kind owner_id (grant_fence g) (py_sorted ids) "held"
      ∧ ids ≠ [] ∧ lease_nodes ids = Ok (py_sorted ids) ∧ check_owner kind owner_id = Ok ()
      ∧ (base = s ∨ base = set_mutation_leases others s) ∧ agent_nodes s' = agent_nodes s
      ∧ held_by (mutation_leases s') kind owner_id (grant_fence g) "held" ids
      ∧ mutation_leases base ⊆ mutation_leases s'
      ∧ ∀ n, n ∉ ids → mutation_leases s' !! n = mutation_leases base !! n.
Proof.
  unfold acquire_in_session, lease_conflict. intros H.
  apply bind_cases in H as [(e & He & ->)|(nodes & s1 & [Hn <-]%lift_ok & H)];
    [left; injection He as _ <-; eauto|].
  apply lease_nodes_ok in Hn as Hn'. destruct Hn' as (-> & Hne & Hnd & _).
  apply bind_cases in H as [(e & He & ->)|([] & s1 & [Ho <-]%lift_ok & H)];
    [left; injection He as _ <-; eauto|].
  apply bind_cases in H as [(e & [=] & _)|(? & s1 & [-> ->]%get_ok & H)].
  destruct (matching_grant _ _ _ _) as [g|] eqn:Hg.
  { injection H as <- <-. right. apply matching_grant_ok in Hg as (f & -> & Hheld);
      [|by apply Permutation_nil_iff_ne].
    eexists _, s. split_and!; [done|done|done|done|done|by left|done| |done|done].
    eapply held_by_perm; [apply py_sorted_perm|done]. }
  destruct (nonempty _); [injection H as <- <-; eauto|].
  destruct (negb _); [injection H as <- <-; eauto|].
  apply bind_cases in H as [(e & [=] & _)|(? & s1 & ->%modify_ok & H)].
  apply bind_cases in H as [(e & [=] & _)|(? & s1 & [-> ->]%get_ok & H)].
  apply bind_cases in H as [(e & [=] & _)|(? & s1 & ->%modify_ok & H)].
  set (base := set_mutation_leases others s) in *.
  set (inserted := free_nodes (mutation_leases base) (py_sorted ids)) in *.
  set (row := MutationLease kind owner_id fence "held" now now) in *.
  case_bool_decide as Hlen.
  - injection H as <- <-. right. eexists _, base.
    assert (inserted = py_sorted ids) as Hins.
    { apply filter_full, (filter_full_length (λ n, mutation_leases base !! n = None)). exact Hlen. }
    assert (∀ n, n ∈ inserted ↔ n ∈ ids) as Hel by (intros n; by rewrite Hins, py_sorted_elem_of).
    split_and!; [done|done|done|done|done|by right|done|..].
    + apply Forall_forall. intros n Hin. exists row. cbn.
      rewrite insert_leases_lookup, bool_decide_eq_true_2 by (by apply Hel).
      unfold owned_by. cbn. by rewrite !eqb_refl.
    + apply map_subseteq_spec. intros n r Hr. cbn. rewrite insert_leases_lookup.
      case_bool_decide as Hin; [|done]. apply list_elem_of_filter in Hin as [Hin _]. cbn in *. congruence.
    + intros n Hin. cbn. rewrite insert_leases_lookup, bool_decide_eq_false_2; [done|].
      by rewrite Hel.
  - left. apply bind_cases in H as [(e & He & _)|([] & s2 & Hdel & H)];
      [by destruct (nonempty inserted)|].
    assert (s2 = base) as ->.
    { destruct (nonempty inserted) eqn:Hne'.
      - apply modify_ok in Hdel as ->. unfold set_mutation_leases at 1 2. cbn [mutation_leases agent_nodes].
        assert (delete_leases fence inserted (insert_leases row inserted (mutation_leases base))
                = mutation_leases base) as ->; [|by destruct base].
        apply (delete_inserted row). apply Forall_forall.
        by intros n [? _]%list_elem_of_filter.
      - apply M_ret_ok in Hdel as [_ <-]. destruct inserted; [|done]. by destruct base. }
    apply bind_cases in H as [(e & [=] & _)|(? & s1 & [-> ->]%get_ok & H)].
    injection H as <- <-. eexists. split; [done|]. by right.
Qed.

(** ** Grants *)

Lemma grant_rows_reads g : reads (grant_rows g).
Proof. apply reads_moves. unfold grant_rows, lease_conflict. solve_moves. Qed.

(** The rows of a grant are found when its nodes are still leased to it. *)
Lemma grant_rows_ok g s rows s' :
  grant_rows g s = (Ok rows, s') →
  s' = s ∧ rows = lease_rows s (py_sorted (grant_node_ids g)) ∧ grant_node_ids g ≠ []
  ∧ ∀ n, n ∈ grant_node_ids g → ∃ row, mutation_leases s !! n = Some row
      ∧ owned_by (grant_owner_kind g) (grant_owner_id g) row = true ∧ ml_fence row = grant_fence g.
Proof.
  unfold grant_rows, lease_conflict. intros H. inv_run_all.
  match goal with Hn : lease_nodes _ = Ok _ |- _ => apply lease_nodes_ok in Hn as (-> & Hne & _) end.
  destruct (_ && _) eqn:Hc; inv_run_all. split_and!; [done..|]. intros n Hn.
  apply andb_true_iff in Hc as [Hlen%bool_decide_eq_true_1%lease_rows_full Hall%forallb_Forall].
  rewrite Forall_forall in Hlen. rewrite Forall_forall in Hall.
  destruct (Hlen n) as [row Hrow]; [by apply py_sorted_elem_of|]. exists row. split; [done|].
  specialize (Hall (n, row)). cbn in Hall. destruct (andb_prop _ _ (Hall ltac:(apply lease_rows_elem; by rewrite py_sorted_elem_of))).
  bool_facts. done.
Qed.

Lemma grant_rows_run g s state :
  lease_nodes (grant_node_ids g) = Ok (py_sorted (grant_node_ids g)) →
  check_owner (grant_owner_kind g) (grant_owner_id g) = Ok () → is_uuid (grant_fence g) = true →
  held_by (mutation_leases s) (grant_owner_kind g) (grant_owner_id g) (grant_fence g) state
    (grant_node_ids g) →
  grant_rows g s = (Ok (lease_rows s (py_sorted (grant_node_ids g))), s).
Proof.
  intros Hn Ho Hf Hheld. unfold grant_rows, mbind, M_bind, lift, get. rewrite Ho, Hn.
  unfold check_lease_uuid. rewrite Hf. cbn [ensure].
  assert (held_by (mutation_leases s) (grant_owner_kind g) (grant_owner_id g) (grant_fence g) state
    (py_sorted (grant_node_ids g))) as Hheld'.
  { eapply held_by_perm; [symmetry; apply py_sorted_perm|done]. }
  rewrite bool_decide_eq_true_2 by (eapply lease_rows_full, held_by_full; exact Hheld').
  cbn [andb]. rewrite (proj2 (forallb_Forall _ _)); [done|].
  eapply Forall_impl; [eapply held_by_rows; exact Hheld'|].
  intros p (-> & -> & _). by rewrite eqb_refl.
Qed.

(** ** Writes over the rows of a grant *)

Lemma eachM_rows (f : string → gmap string mutation_lease → gmap string mutation_lease) rows s :
  eachM (λ p : string * mutation_lease, modify (set_mutation_leases (f p.1))) rows s
  = (Ok (), set_mutation_leases (λ m, foldl (λ m n, f n m) m rows.*1) s).
Proof.
  revert s. induction rows as [|p rows IH]; intros s; cbn; [by destruct s|].
  unfold mbind, M_bind, modify. rewrite IH. done.
Qed.

Lemma foldl_alter_lookup now l (m : gmap string mutation_lease) n :
  foldl (λ m n, alter (releasing now) n m) m l !! n
  = if bool_decide (n ∈ l) then releasing now <$> m !! n else m !! n.
Proof.
  revert m. induction l as [|x l IH]; intros m; cbn; [done|]. rewrite IH, lookup_alter.
  repeat case_bool_decide; repeat case_decide; subst; try set_solver.
  by destruct (m !! n).
Qed.

Lemma foldl_delete_lookup l (m : gmap string mutation_lease) n :
  foldl (λ m n, delete n m) m l !! n = if bool_decide (n ∈ l) then None else m !! n.
Proof.
  revert m. induction l as [|x l IH]; intros m; cbn; [done|]. rewrite IH, lookup_delete.
  repeat case_bool_decide; repeat case_decide; subst; set_solver.
Qed.

Section grants.
Context (g : NodeLeaseGrant) (s : session).

(** [g] is a well-formed grant whose nodes are leased to it in [state]. *)
Definition live (m : gmap string mutation_lease) (state : string) : Prop :=
  lease_nodes (grant_node_ids g) = Ok (py_sorted (grant_node_ids g))
  ∧ check_owner (grant_owner_kind g) (grant_owner_id g) = Ok ()
  ∧ is_uuid (grant_fence g) = true
  ∧ held_by m (grant_owner_kind g) (grant_owner_id g) (grant_fence g) state (grant_node_ids g).

Lemma live_rows state :
  live (mutation_leases s) state →
  ∃ rows, grant_rows g s = (Ok rows, s) ∧ rows ≠ [] ∧ rows.*1 = py_sorted (grant_node_ids g)
    ∧ Forall (λ p, ml_state p.2 = state) rows.
Proof.
  intros (Hn & Ho & Hf & Hheld). eexists. split; [by eapply grant_rows_run|].
  apply lease_nodes_ok in Hn as (_ & Hne & _).
  assert (held_by (mutation_leases s) (grant_owner_kind g) (grant_owner_id g) (grant_fence g) state
    (py_sorted (grant_node_ids g))) as Hheld'.
  { eapply held_by_perm; [symmetry; apply py_sorted_perm|done]. }
  pose proof (held_by_full _ _ _ _ _ _ Hheld') as Hfull. split_and!.
  - apply lease_rows_nonempty; [by apply Permutation_nil_iff_ne|done].
  - by apply lease_rows_full_names.
  - eapply Forall_impl; [by eapply held_by_rows|]. naive_solver.
Qed.

Lemma release_held :
  live (mutation_leases s) "held" → ∃ e, release_in_session g s = (Err e, s).
Proof.
  intros (rows & Hrows & Hne & _ & Hst)%live_rows. unfold release_in_session.
  rewrite (M_bind_run _ _ _ _ _ Hrows). destruct rows as [|p rows]; [done|].
  inversion_clear Hst as [|?? Hp _]. cbn. rewrite Hp. eexists. done.
Qed.

Lemma mark_live state now :
  live (mutation_leases s) state → state = "held" ∨ state = "releasing" →
  ∃ s', mark_releasing_in_session now g s = (Ok (), s') ∧ live (mutation_leases s') "releasing"
    ∧ agent_nodes s' = agent_nodes s
    ∧ ∀ n, n ∉ grant_node_ids g → mutation_leases s' !! n = mutation_leases s !! n.
Proof.
  intros Hlive Hstate. pose proof Hlive as (Hn & Ho & Hf & Hheld).
  apply live_rows in Hlive as (rows & Hrows & _ & Hnames & Hst). unfold mark_releasing_in_session.
  rewrite (M_bind_run _ _ _ _ _ Hrows).
  assert (existsb (λ p, negb (among (ml_state p.2) ["held"; "releasing"])) rows = false) as ->.
  { apply not_true_iff_false. intros ([n row] & Hp%list_elem_of_In & Hno)%existsb_exists.
    rewrite Forall_forall in Hst. specialize (Hst _ Hp). cbn in *. rewrite Hst in Hno.
    by destruct Hstate as [-> | ->]. }
  rewrite eachM_rows, Hnames. eexists. split_and!; [done|split_and!; [done..|]|done|]; cbn.
  - unfold held_by in *. rewrite Forall_forall in Hheld. apply Forall_forall. intros n Hn'.
    destruct (Hheld n Hn') as (row & Hrow & Hown & Hfence & _).
    exists (releasing now row). rewrite foldl_alter_lookup, bool_decide_eq_true_2, Hrow
      by (by apply py_sorted_elem_of). by split_and!.
  - intros n Hn'. rewrite foldl_alter_lookup, bool_decide_eq_false_2; [done|].
    by rewrite py_sorted_elem_of.
Qed.

Lemma release_live :
  live (mutation_leases s) "releasing" →
  ∃ s', release_in_session g s = (Ok (), s') ∧ agent_nodes s' = agent_nodes s
    ∧ ∀ n, mutation_leases s' !! n
           = if bool_decide (n ∈ grant_node_ids g) then None else mutation_leases s !! n.
Proof.
  intros (rows & Hrows & _ & Hnames & Hst)%live_rows. unfold release_in_session.
  rewrite (M_bind_run _ _ _ _ _ Hrows).
  assert (existsb (λ p, negb (eqb (ml_state p.2) "releasing")) rows = false) as ->.
  { apply not_true_iff_false. intros ([n row] & Hp%list_elem_of_In & Hno)%existsb_exists.
    rewrite Forall_forall in Hst. specialize (Hst _ Hp). cbn in *. by rewrite Hst in Hno. }
  rewrite eachM_rows, Hnames. eexists. split_and!; [done|done|]. intros n. cbn.
  rewrite foldl_delete_lookup. by rewrite (bool_decide_ext _ _ (py_sorted_elem_of _ n)).
Qed.
End grants.

Lemma reacquire others fence now ids kind owner_id s g :
  lease_nodes ids = Ok (py_sorted ids) → check_owner kind owner_id = Ok () → ids ≠ [] →
  g = Grant kind owner_id (grant_fence g) (py_sorted ids) "held" →
  held_by (mutation_leases s) kind owner_id (grant_fence g) "held" ids →
  acquire_in_session others fence now ids kind owner_id s = (Ok g, s).
Proof.
  intros Hn Ho Hne Hg Hheld. unfold acquire_in_session, mbind, M_bind, lift, get. rewrite Hn, Ho.
  assert (py_sorted ids ≠ []) as Hne' by (by apply Permutation_nil_iff_ne).
  rewrite (proj2 (matching_grant_ok s (py_sorted ids) kind owner_id g Hne')); [done|].
  exists (grant_fence g). split; [done|]. eapply held_by_perm; [symmetry; apply py_sorted_perm|done].
Qed.

Lemma lease_nodes_perm ids ids' :
  ids ≡ₚ ids' → lease_nodes ids = Ok (py_sorted ids) → lease_nodes ids' = Ok (py_sorted ids').
Proof.
  intros Hp (_ & Hne & Hnd & Hall)%lease_nodes_ok. apply lease_nodes_ok. split_and!; [done|..].
  - intros ->. by apply Permutation_nil_r in Hp.
  - by rewrite <- Hp.
  - by rewrite <- Hp.
Qed.

Lemma superseded_rows g s n :
  n ∈ grant_node_ids g →
  (∀ row, mutation_leases s !! n = Some row →
     owned_by (grant_owner_kind g) (grant_owner_id g) row = false ∨ ml_fence row ≠ grant_fence g) →
  ∃ e, grant_rows g s = (Err e, s).
Proof.
  intros Hn Hrow. destruct (grant_rows g s) as [[rows|e] s'] eqn:H.
  - apply grant_rows_ok in H as (-> & _ & _ & Hall). destruct (Hall n Hn) as (row & Hr & Ho & Hf).
    destruct (Hrow row Hr); congruence.
  - exists e. by rewrite (reads_state _ _ _ _ (grant_rows_reads g) H).
Qed.

(** ** Theorems *)

(** C34. An acquisition takes all of its nodes or none: when it returns, every
    node is leased to the owner under the fence of the grant and no lease of
    another owner, committed before or during the call, was overwritten; when
    it raises, the table holds what other transactions committed and nothing
    else. *)
Theorem acquisition_is_all_or_nothing others fence now ids kind owner_id s r s' :
  acquire_in_session others fence now ids kind owner_id s = (r, s') →
  match r with
  | Ok g => ∃ base, (base = s ∨ base = set_mutation_leases others s)
      ∧ held_by (mutation_leases s') kind owner_id (grant_fence g) "held" ids
      ∧ mutation_leases base ⊆ mutation_leases s'
      ∧ ∀ n, n ∉ ids → mutation_leases s' !! n = mutation_leases base !! n
  | Err _ => s' = s ∨ s' = set_mutation_leases others s
  end.
Proof.
  intros [(e & -> & ?)|(g & base & -> & _ & _ & _ & _ & ? & _ & ? & ? & ?)]%acquire_cases; [done|].
  by exists base.
Qed.

(** A grant lives from its acquisition to its release: acquiring the same
    nodes again, in any order, returns the same grant and writes nothing; a
    held grant cannot be released; once marked as releasing it can, and that
    deletes its leases and no others. *)
Theorem lease_lifecycle others fence now ids kind owner_id s g s1 :
  acquire_in_session others fence now ids kind owner_id s = (Ok g, s1) →
  is_uuid (grant_fence g) = true →
  (∀ others' fence' now' ids', ids' ≡ₚ ids →
     acquire_in_session others' fence' now' ids' kind owner_id s1 = (Ok g, s1))
  ∧ (∃ e, release_in_session g s1 = (Err e, s1))
  ∧ ∀ now', ∃ s2 s3, mark_releasing_in_session now' g s1 = (Ok (), s2)
      ∧ release_in_session g s2 = (Ok (), s3)
      ∧ ∀ n, mutation_leases s3 !! n
             = if bool_decide (n ∈ ids) then None else mutation_leases s1 !! n.
Proof.
  intros [(e & [=] & _)|(g' & base & [= <-] & Hg & Hne & Hn & Ho & _ & _ & Hheld & _)]%acquire_cases Hf.
  assert (∀ n, n ∈ grant_node_ids g ↔ n ∈ ids) as Hids
    by (intros n; rewrite Hg; apply py_sorted_elem_of).
  assert (live g (mutation_leases s1) "held") as Hlive.
  { rewrite Hg. split_and!; cbn; [|done|done|].
    - eapply lease_nodes_perm; [symmetry; apply py_sorted_perm|done].
    - eapply held_by_perm; [symmetry; apply py_sorted_perm|done]. }
  split_and!.
  - intros others' fence' now' ids' Hp. apply reacquire; [|done| | |].
    + by eapply lease_nodes_perm.
    + intros ->. by apply Permutation_nil_l in Hp.
    + by rewrite (py_sorted_unique ids' ids).
    + by eapply held_by_perm.
  - by apply release_held.
  - intros now'. destruct (mark_live g s1 "held" now' Hlive) as (s2 & Hm & Hl2 & _ & Ho2); [by left|].
    destruct (release_live g s2 Hl2) as (s3 & Hr & _ & Hdel). exists s2, s3. split_and!; [done..|].
    intros n. rewrite Hdel, (bool_decide_ext _ _ (Hids n)). case_bool_decide as Hin; [done|].
    apply Ho2. by rewrite Hids.
Qed.

(** A grant that lost one of its nodes, to another owner, another fence or
    a release, can neither be marked nor released: the calls raise and write
    nothing. *)
Theorem superseded_grant_is_refused g s n now :
  n ∈ grant_node_ids g →
  (∀ row, mutation_leases s !! n = Some row →
     owned_by (grant_owner_kind g) (grant_owner_id g) row = false ∨ ml_fence row ≠ grant_fence g) →
  (∃ e, mark_releasing_in_session now g s = (Err e, s))
  ∧ (∃ e, release_in_session g s = (Err e, s)).
Proof.
  intros Hn Hrow. destruct (superseded_rows g s n Hn Hrow) as [e He].
  split; exists e; by apply M_bind_err.
Qed.

(** ** Witnesses *)

Definition demo_owner : string := "11111111-1111-4111-8111-111111111111".
Definition demo_fence : string := "22222222-2222-4222-8222-222222222222".

Definition demo_session : session := Session ∅ {["node-a"; "node-b"; "node-c"]}.

(** Another transaction takes the second node while the call runs. *)
Definition demo_other (m : gmap string mutation_lease) : gmap string mutation_lease :=
  <["node-b" := MutationLease "update-rollout" demo_fence demo_owner "held" 5 5]> m.

Definition demo_race : result NodeLeaseGrant * session :=
  acquire_in_session demo_other demo_fence 7 ["node-b"; "node-a"] "reconciliation" demo_owner
    demo_session.

Definition demo_grant : result NodeLeaseGrant * session :=
  acquire_in_session (λ m, m) demo_fence 7 ["node-b"; "node-a"] "reconciliation" demo_owner
    demo_session.

Lemma acquisition_is_all_or_nothing_witness :
  is_ok demo_race.1 = false
  ∧ (demo_race.2 = demo_session ∨ demo_race.2 = set_mutation_leases demo_other demo_session).
Proof.
  assert (is_ok demo_race.1 = false) as Hok by (vm_compute; reflexivity). split; [exact Hok|].
  destruct demo_race as [[g|e] s'] eqn:H; [discriminate Hok|].
  exact (acquisition_is_all_or_nothing _ _ _ _ _ _ _ _ _ H).
Defined.

Lemma lease_lifecycle_witness :
  ∃ g s1, demo_grant = (Ok g, s1) ∧ grant_node_ids g = ["node-a"; "node-b"]
    ∧ ∃ e, release_in_session g s1 = (Err e, s1).
Proof.
  assert (match demo_grant.1 with
          | Ok g => is_uuid (grant_fence g) && eqb (grant_node_ids g) ["node-a"; "node-b"]
          | Err _ => false end = true) as Hok by (vm_compute; reflexivity).
  destruct demo_grant as [[g|e] s1] eqn:H; [|discriminate Hok].
  apply andb_true_iff in Hok as [Hf Hids]. apply (proj1 (eqb_true (grant_node_ids g) _)) in Hids.
  exists g, s1. split; [reflexivity|]. split; [exact Hids|].
  exact (proj1 (proj2 (lease_lifecycle _ _ _ _ _ _ _ _ _ H Hf))).
Defined.

Lemma superseded_grant_is_refused_witness :
  ∃ e, release_in_session (Grant "reconciliation" demo_owner demo_fence ["node-a"] "held")
         demo_session = (Err e, demo_session).
Proof.
  refine (proj2 (superseded_grant_is_refused _ demo_session "node-a" 0 _ _)).
  - cbn. left.
  - cbn. intros row Hrow. discriminate Hrow.
Defined.
