(* ===== verification/Protocol.v ===== *)
(** * Package operation requests on the wire
    ([agent_protocol/src/vonk_agent_protocol/package_operations.py])

    [PackageOperationRequest.parse]: the closed request a control plane sends to
    an agent, with the deployment projection that is bound to it by digest. *)

From S2P Require Import Prelude Identifiers Canonical Contracts PackageState PackageEngine.

(** ** Patterns *)

(** [[a-z0-9](?:[a-z0-9-]{0,61}[a-z0-9])?]. *)
Definition is_deployment_id (s : string) : bool :=
  fits 1 63 s && char_is is_lower_digit (first_char s) && char_is is_lower_digit (last_char s)
  && all_chars (λ c, is_lower_digit c || eqb c "-"%char) s.

(** [[a-z][a-z0-9]*(?:[._-][a-z0-9]+)*]. *)
Fixpoint dotted (after_separator : bool) (s : string) : bool :=
  match s with
  | EmptyString => negb after_separator
  | String c s =>
      if is_lower_digit c then dotted false s
      else is_dot_dash c && negb after_separator && dotted true s
  end.
Definition is_dotted (s : string) : bool := char_is is_lower (first_char s) && dotted false s.

(** ** Values *)

Definition is_str (p : string → bool) (v : json) : bool :=
  match v with JStr s => p s | _ => false end.
Definition is_int (p : Z → bool) (v : json) : bool :=
  match v with JInt n => p n | _ => false end.
Definition is_array (p : list json → bool) (v : json) : bool :=
  match v with JArr l => p l | _ => false end.
Definition is_object (p : list (string * json) → bool) (v : json) : bool :=
  match v with JObj l => p l | _ => false end.

Definition opt (p : json → bool) (v : option json) : bool :=
  match v with Some v => p v | None => false end.

(** [value["key"]] of a mapping whose fields were checked. *)
Definition field (items : list (string * json)) (key : string) : json :=
  default JNull (lookup_key items key).

Definition check_fields (items : list (string * json)) (required : list string) : result unit :=
  let missing := py_sorted (filter (λ f, f ∉ items.*1) required) in
  let unknown := py_sorted (remove_dups (filter (λ k, k ∉ required) items.*1)) in
  protocol_check (same_keys items required)
    (if nonempty missing then "missing fields: " +:+ join ", " missing
     else "unknown fields: " +:+ join ", " unknown).

Definition check_version (v : json) : result unit :=
  protocol_check (is_int (Z.eqb 1) v) "unsupported schema_version".

Definition check_wire_digest (v : option json) (name : string) : result string :=
  match v with
  | Some (JStr s) =>
      protocol_check (is_digest s) (name +:+ " must be a lowercase SHA-256");; mret s
  | _ => protocol_error (name +:+ " must be a lowercase SHA-256")
  end.

(** ** The deployment projection *)

Definition is_argument (v : json) : bool :=
  is_str (λ s, fits 0 4096 s
    && all_chars (λ c, negb ((code c <? 32)%N || (code c =? 127)%N)) s) v.

Definition is_port_item (p : string * json) : bool :=
  is_dotted p.1 && is_int (λ n, (1024 <=? n)%Z && (n <? 65536)%Z) p.2.

Definition is_secret_item (p : string * json) : bool :=
  is_dotted p.1 && is_str (String.prefix "secret://") p.2.

Definition is_mount (v : json) : bool :=
  is_object (λ items, same_keys items ["object_digest"; "target"; "read_only"]
    && is_str is_digest (field items "object_digest")
    && is_str (λ s, negb (eqb s "")) (field items "target")
    && match field items "read_only" with JBool b => b | _ => false end) v.

(** [x in {...}] raises for an unhashable [x]. *)
Definition hashable (v : json) : bool :=
  match v with JArr _ | JObj _ => false | _ => true end.

Definition newline : string := String (Ascii.ascii_of_N 10) EmptyString.

Definition max_deployment_bytes : Z := 1024 * 1024.

Definition deployment_fields : list string :=
  ["schema_version"; "deployment_id"; "family_id"; "release_digest"; "selector"; "secrets";
   "ports"; "arguments"; "routing"; "resources"].
Definition optional_fields : list string := ["mounts"; "devices"; "network"].

Definition parse_deployment (value : json) (deployment_id config_digest : string) : result json :=
  match value with
  | JObj v =>
      protocol_check (forallb (λ p, among p.1 (deployment_fields ++ optional_fields)) v
                      && forallb (λ f, among f v.*1) deployment_fields)
        "deployment fields are invalid";;
      protocol_check (is_int (Z.eqb 1) (field v "schema_version"))
        "deployment schema_version is invalid";;
      protocol_check (is_str (λ s, eqb s deployment_id && is_deployment_id s) (field v "deployment_id"))
        "deployment identity does not match operation";;
      protocol_check (is_str is_digest (field v "release_digest"))
        "deployment release identity is invalid";;
      protocol_check (is_str is_dotted (field v "family_id")) "deployment family_id is invalid";;
      protocol_check (is_object (λ _, true) (field v "selector")) "deployment selector is invalid";;
      protocol_check (is_array (λ l, (length l <=? 128)%nat && forallb is_argument l)
                        (field v "arguments")) "deployment arguments are invalid";;
      protocol_check (is_object (λ l, (length l <=? 32)%nat && forallb is_port_item l)
                        (field v "ports")) "deployment ports are invalid";;
      let ports := match field v "ports" with JObj l => l.*1 | _ => [] end in
      match field v "routing" with
      | JObj routing =>
          protocol_check (same_keys routing ["alias"; "port"]) "deployment routing is invalid";;
          ensure (hashable (field routing "port")) EType "unhashable type";;
          protocol_check (is_str (λ s, among s ports) (field routing "port"))
            "deployment routing is invalid"
      | _ => protocol_error "deployment routing is invalid"
      end;;
      protocol_check (is_object (λ l, forallb (λ key,
          opt (is_int (Z.leb 0)) (lookup_key l key)) ["memory_bytes"; "storage_bytes"; "gpu_count"])
          (field v "resources")) "deployment resources are invalid";;
      protocol_check (is_object (λ l, (length l <=? 32)%nat && forallb is_secret_item l)
                        (field v "secrets")) "deployment secret references are invalid";;
      protocol_check (is_array (λ l, (length l <=? 64)%nat && forallb is_mount l)
                        (default (JArr []) (lookup_key v "mounts"))) "deployment mounts are invalid";;
      protocol_check (is_array (λ l, (length l <=? 32)%nat && forallb (is_str is_dotted) l)
                        (default (JArr []) (lookup_key v "devices"))) "deployment devices are invalid";;
      match default (JObj [("mode", JStr "none"); ("egress", JArr [])]) (lookup_key v "network") with
      | JObj network =>
          protocol_check (same_keys network ["mode"; "egress"])
            "deployment network policy is invalid";;
          ensure (hashable (field network "mode")) EType "unhashable type";;
          protocol_check (is_str (λ s, among s ["none"; "restricted"]) (field network "mode")
                          && is_array (λ _, true) (field network "egress"))
            "deployment network policy is invalid"
      | _ => protocol_error "deployment network policy is invalid"
      end;;
      let raw := canonical_utf8 value +:+ newline in
      protocol_check (Z.of_nat (String.length raw) <=? max_deployment_bytes)%Z "deployment is too large";;
      protocol_check (eqb (Sha256.hexdigest raw) config_digest)
        "deployment digest does not match operation";;
      mret value
  | _ => protocol_error "deployment must be an object"
  end.

(** ** Requests *)

Definition release_bound (o : AgentOperation) : bool :=
  match o with
  | PACKAGE_PREPARE | PACKAGE_ACTIVATE | PACKAGE_HEALTH | PACKAGE_STOP
  | PACKAGE_ROLLBACK | PACKAGE_REMOVE | PACKAGE_REPAIR => true
  | _ => false
  end.

Definition max_target_bytes : Z := 16 * 1024 ^ 4.

(** The projection a request may carry, with the digest it must hash to. *)
Definition optional_deployment (v : list (string * json)) (deployment_id : string)
    : result (option json * option string) :=
  match lookup_key v "deployment" with
  | None | Some JNull =>
      mret (None, match lookup_key v "deployment_config_digest" with Some (JStr s) => Some s | _ => None end)
  | Some deployment =>
      config ← check_wire_digest (lookup_key v "deployment_config_digest") "deployment_config_digest";
      parsed ← parse_deployment deployment deployment_id config;
      mret (Some parsed, Some config)
  end.

Definition parse_release_bound (o : AgentOperation) (v : list (string * json))
    : result PackageOperationRequest :=
  check_fields v (["schema_version"; "deployment_id"; "release_digest"; "deployment_digest"]
    ++ (if among "deployment" v.*1 then ["deployment"; "deployment_config_digest"] else []));;
  check_version (field v "schema_version");;
  deployment_id ← match field v "deployment_id" with
                  | JStr s => protocol_check (is_deployment_id s) "deployment_id is invalid";; mret s
                  | _ => protocol_error "deployment_id is invalid"
                  end;
  release ← check_wire_digest (lookup_key v "release_digest") "release_digest";
  deployment_digest ← check_wire_digest (lookup_key v "deployment_digest") "deployment_digest";
  '(deployment, config) ← optional_deployment v deployment_id;
  mret (Request o (Some deployment_id) (Some release) (Some deployment_digest) None None
          deployment config).

Definition parse_gc (v : list (string * json)) : result PackageOperationRequest :=
  check_fields v (["schema_version"; "dry_run"]
    ++ (if among "target_bytes" v.*1 then ["target_bytes"] else []));;
  check_version (field v "schema_version");;
  dry_run ← match field v "dry_run" with
            | JBool b => mret b
            | _ => protocol_error "package operation fields do not match operation"
            end;
  target ← match lookup_key v "target_bytes" with
           | None | Some JNull => mret None
           | Some (JInt n) =>
               protocol_check ((1 <=? n)%Z && (n <=? max_target_bytes)%Z)
                 "target_bytes must be a bounded positive integer";;
               mret (Some n)
           | Some _ => protocol_error "target_bytes must be a bounded positive integer"
           end;
  mret (Request PACKAGE_GC None None None (Some dry_run) target None None).

Definition parse_package_request (o : AgentOperation) (payload : json)
    : result PackageOperationRequest :=
  protocol_check (release_bound o || match o with PACKAGE_GC => true | _ => false end)
    "package operation is not supported";;
  match payload with
  | JObj v => if release_bound o then parse_release_bound o v else parse_gc v
  | _ => protocol_error "message must be a JSON object"
  end.

(** ** Theorems *)

(** What a parsed request guarantees to the engine. *)
Definition bound (o : AgentOperation) (r : PackageOperationRequest) : Prop :=
  req_operation r = o ∧
  if release_bound o then
    ∃ deployment release digest,
      release_identity r = Ok (deployment, release)
      ∧ is_deployment_id deployment = true ∧ is_digest release = true
      ∧ req_deployment_digest r = Some digest ∧ is_digest digest = true
      ∧ req_dry_run r = None ∧ req_target_bytes r = None
      ∧ ∀ v, req_deployment r = Some v → ∃ config, req_deployment_config_digest r = Some config
          ∧ Sha256.hexdigest (canonical_utf8 v +:+ newline) = config
          ∧ ∃ items, v = JObj items ∧ field items "deployment_id" = JStr deployment
  else
    o = PACKAGE_GC ∧ is_Some (req_dry_run r) ∧ req_deployment_id r = None
    ∧ req_release_digest r = None
    ∧ ∀ n, req_target_bytes r = Some n → (1 ≤ n ≤ max_target_bytes)%Z.

Lemma check_wire_digest_ok v name s : check_wire_digest v name = Ok s → is_digest s = true.
Proof. unfold check_wire_digest, protocol_check, protocol_error. intros H. repeat case_match; inv_run_all; by subst. Qed.

Lemma parse_deployment_ok v deployment config v' :
  parse_deployment v deployment config = Ok v' →
  v' = v ∧ Sha256.hexdigest (canonical_utf8 v +:+ newline) = config
  ∧ ∃ items, v = JObj items ∧ field items "deployment_id" = JStr deployment.
Proof.
  unfold parse_deployment, protocol_check, protocol_error. intros H.
  destruct v as [| | | | |items]; try discriminate H. inv_run_all. subst v'. bool_facts.
  split_and!; [done|done|]. exists items. split; [done|].
  match goal with Hid : is_str _ (field items "deployment_id") = true |- _ =>
    destruct (field items "deployment_id"); try discriminate Hid; cbn in Hid end.
  bool_facts. by subst.
Qed.

Lemma optional_deployment_ok v deployment d config :
  optional_deployment v deployment = Ok (d, config) →
  ∀ v', d = Some v' → ∃ c, config = Some c
    ∧ Sha256.hexdigest (canonical_utf8 v' +:+ newline) = c
    ∧ ∃ items, v' = JObj items ∧ field items "deployment_id" = JStr deployment.
Proof.
  unfold optional_deployment. intros H v' ->.
  repeat case_match; inv_run_all; simplify_eq; eexists; (split; [done|]);
    match goal with H : parse_deployment _ _ _ = Ok _ |- _ =>
      apply parse_deployment_ok in H; destruct H as (-> & H & ?) end; done.
Qed.

Lemma parse_bound o payload r : parse_package_request o payload = Ok r → bound o r.
Proof.
  unfold parse_package_request, protocol_check, protocol_error. intros H. inv_run_all.
  destruct payload as [| | | | |v]; try discriminate H. unfold bound.
  destruct (release_bound o) eqn:Ho.
  - unfold parse_release_bound, protocol_check, protocol_error in H. inv_run_all.
    destruct x5 as [dep config]. injection H as <-. cbn.
    split; [done|]. do 3 eexists. split; [done|].
    repeat match goal with H : check_wire_digest _ _ = Ok _ |- _ => apply check_wire_digest_ok in H end.
    case_match; try discriminate. inv_run_all. simplify_eq.
    split_and!; try done. by eapply optional_deployment_ok.
  - unfold parse_gc, protocol_check, protocol_error in H. inv_run_all.
    destruct o; try discriminate; cbn in *. inv_run_all.
    subst r. cbn. split_and!; try done. intros n ->.
    repeat (case_match; try discriminate); inv_run_all; bool_facts; simplify_eq; lia.
Qed.

(** A payload accepted for a release-bound operation names a well-formed
    deployment and two lowercase digests, carries no collection fields, and the
    projection it carries, if any, names the same deployment and hashes to the
    digest it was sent with; a payload accepted for a collection carries a dry-run
    flag, no deployment, and a target between one byte and 16 TiB. *)
Theorem parsed_request_is_bound o payload r :
  parse_package_request o payload = Ok r → bound o r.
Proof. apply parse_bound. Qed.

(** A complete request for an activation. *)
Definition sample_projection : json :=
  JObj [("arguments", JArr [JStr "--port"; JStr "8000"]);
        ("deployment_id", JStr "chat");
        ("family_id", JStr "llm.chat");
        ("network", JObj [("egress", JArr []); ("mode", JStr "none")]);
        ("ports", JObj [("http", JInt 8000)]);
        ("release_digest", JStr (Sha256.hexdigest "release"));
        ("resources", JObj [("gpu_count", JInt 1); ("memory_bytes", JInt 1024); ("storage_bytes", JInt 0)]);
        ("routing", JObj [("alias", JStr "chat"); ("port", JStr "http")]);
        ("schema_version", JInt 1);
        ("secrets", JObj [("token", JStr "secret://chat/token")]);
        ("selector", JObj [])].
Definition sample_payload : json :=
  JObj [("schema_version", JInt 1); ("deployment_id", JStr "chat");
        ("release_digest", JStr (Sha256.hexdigest "release"));
        ("deployment_digest", JStr (Sha256.hexdigest (canonical_utf8 sample_projection +:+ newline)));
        ("deployment", sample_projection);
        ("deployment_config_digest",
          JStr (Sha256.hexdigest (canonical_utf8 sample_projection +:+ newline)))].

Lemma parsed_request_is_bound_witness :
  ∃ r, parse_package_request PACKAGE_ACTIVATE sample_payload = Ok r ∧ bound PACKAGE_ACTIVATE r
       ∧ req_deployment r = Some sample_projection.
Proof.
  eexists. split; [vm_compute; reflexivity|]. split.
  - apply (parsed_request_is_bound PACKAGE_ACTIVATE sample_payload). vm_compute. reflexivity.
  - vm_compute. reflexivity.
Defined.
