(* ===== verification/Messages.v ===== *)
(** * Messages on the wire

    The canonical text of the messages of an attempt ([canonical_message]) and the
    [parse] methods of [agent_protocol/src/vonk_agent_protocol/contracts.py] and
    [package_operations.py]. A timestamp is read in the form it is printed in. *)

From S2P Require Import Prelude Identifiers Canonical Documents JsonText Datetimes Contracts PackageEngine Protocol.

Lemma field_sort items key :
  NoDup items.*1 → field (merge_sort key_le (map (on_values sort_json) items)) key = sort_json (field items key).
Proof. intros Hnd. unfold field. rewrite lookup_key_sort by done. by destruct (lookup_key items key). Qed.

Lemma dict_keys_field items key : dict_keys (JObj items) = true → dict_keys (field items key) = true.
Proof.
  rewrite dict_keys_object. intros [Hnd Hl]. unfold field.
  destruct (lookup_key items key) as [v|] eqn:E; [|done]. apply lookup_key_Some in E; [|done].
  rewrite Forall_forall in Hl. apply (Hl _ E).
Qed.

(** ** Directives *)

Record AgentDirective := MkDirective { directive_identity : attempt_identity; directive_cancel : bool }.

Definition agent_directive (i : attempt_identity) (cancel : bool) : result AgentDirective :=
  check_attempt_identity i;;
  mret (MkDirective i cancel).

(** ** Documents of messages *)

Definition identity_items (i : attempt_identity) : list (string * json) :=
  [("schema_version", JInt 1); ("job_id", JStr (id_job i)); ("operation_id", JStr (id_operation i));
   ("attempt", JInt (id_attempt i)); ("fence", JStr (id_fence i)); ("node_id", JStr (id_node i));
   ("deadline", JStr (isoformat (id_deadline i)))].

Definition claim_wire (c : AgentClaim) : json :=
  JObj (identity_items (claim_identity c)
        ++ [("operation", JStr (claim_operation c)); ("base_commit", JStr (claim_base_commit c));
            ("payload_digest", JStr (claim_payload_digest c)); ("payload", claim_payload c)]).
Definition progress_wire (p : AgentProgress) : json :=
  JObj (identity_items (progress_identity p) ++ [("progress", progress_document p)]).
Definition result_wire (r : AgentResult) : json :=
  JObj (identity_items (result_identity r)
        ++ [("state", JStr (result_state r)); ("result", result_document r)]).

Definition directive_wire (d : AgentDirective) : json :=
  JObj (identity_items (directive_identity d) ++ [("cancel_requested", JBool (directive_cancel d))]).

(** ** Parsing *)

Definition parse_identifier (valid : string → bool) (v : json) (m : string) : result string :=
  match v with
  | JStr s => protocol_check (valid s) m;; mret s
  | _ => protocol_error m
  end.

Definition parse_deadline (v : json) : result Z :=
  match v with
  | JStr s =>
      match fromisoformat s with
      | Some t => mret t
      | None => protocol_error "deadline must be an ISO-8601 UTC timestamp"
      end
  | _ => protocol_error "deadline must be an ISO-8601 UTC timestamp"
  end.

Definition parse_attempt (v : json) : result Z :=
  match v with
  | JInt n => protocol_check (1 <=? n)%Z "attempt must be a positive integer";; mret n
  | _ => protocol_error "attempt must be a positive integer"
  end.

Definition attempt_fields (value : list (string * json)) : result attempt_identity :=
  check_version (field value "schema_version");;
  job ← parse_identifier is_uuid (field value "job_id") "job_id must be a canonical UUID";
  operation ← parse_identifier is_uuid (field value "operation_id") "operation_id must be a canonical UUID";
  attempt ← parse_attempt (field value "attempt");
  fence ← parse_identifier is_uuid (field value "fence") "fence must be a canonical UUID";
  node ← parse_identifier is_node_id (field value "node_id") "node_id must match spk_[0-9a-f]{32}";
  deadline ← parse_deadline (field value "deadline");
  mret (Identity job operation attempt fence node deadline).

Definition identity_keys : list string :=
  ["schema_version"; "job_id"; "operation_id"; "attempt"; "fence"; "node_id"; "deadline"].

Definition parse_operation (v : json) : result AgentOperation :=
  match v with
  | JStr s => match operation_of_value s with
              | Ok o => mret o
              | Err _ => protocol_error "operation is not supported"
              end
  | _ => protocol_error "operation is not supported"
  end.

Definition parse_claim (raw : json) : result AgentClaim :=
  match raw with
  | JObj value =>
      check_fields value (identity_keys ++ ["operation"; "base_commit"; "payload_digest"; "payload"]);;
      operation ← parse_operation (field value "operation");
      base_commit ← parse_identifier is_commit (field value "base_commit")
                      "base_commit must be a 40-character lowercase SHA-1";
      payload_digest ← parse_identifier is_digest (field value "payload_digest")
                         "payload_digest must be a lowercase SHA-256";
      i ← attempt_fields value;
      agent_claim i operation base_commit payload_digest (field value "payload")
  | _ => protocol_error "message must be a JSON object"
  end.

Definition parse_progress (raw : json) : result AgentProgress :=
  match raw with
  | JObj value =>
      check_fields value (identity_keys ++ ["progress"]);;
      i ← attempt_fields value;
      agent_progress i (field value "progress")
  | _ => protocol_error "message must be a JSON object"
  end.

(** An unhashable state raises a [TypeError] inside the constructor. *)
Definition parse_result (raw : json) : result AgentResult :=
  match raw with
  | JObj value =>
      check_fields value (identity_keys ++ ["state"; "result"]);;
      i ← attempt_fields value;
      match field value "state" with
      | JStr state => agent_result i state (field value "result")
      | JArr _ | JObj _ => raise EType "unhashable type"
      | _ => protocol_error "result state is not supported"
      end
  | _ => protocol_error "message must be a JSON object"
  end.

Definition parse_directive (raw : json) : result AgentDirective :=
  match raw with
  | JObj value =>
      check_fields value (identity_keys ++ ["cancel_requested"]);;
      i ← attempt_fields value;
      match field value "cancel_requested" with
      | JBool cancel => agent_directive i cancel
      | _ => protocol_error "cancel_requested must be a boolean"
      end
  | _ => protocol_error "message must be a JSON object"
  end.

(** ** A message and its text

    What the parts of the program rely on when they exchange a message as bytes:
    the text of a message that its constructor accepts is read back as the same
    message, and whatever is read is one that the constructor accepts. *)

Class Message (A : Type) := {
  identity : A → attempt_identity;
  wire : A → json;
  parse : json → result A;
  valid : A → Prop;
  wire_dict a : valid a → dict_keys (wire a) = true;
  parse_wire a : valid a → parse (sort_json (wire a)) = Ok a;
  parse_valid v a : dict_keys v = true → parse v = Ok a → valid a
}.

Definition canonical_message `{Message A} (a : A) : string := canonical_utf8 (wire a).
Definition read_message `{Message A} (s : string) : result A := loads s ≫= parse.

Section message.
Context `{Message A}.
Implicit Types a b : A.

Lemma read_canonical a : valid a → read_message (canonical_message a) = Ok a.
Proof.
  intros Ha. unfold read_message, canonical_message. rewrite loads_canonical by by apply wire_dict.
  by apply parse_wire.
Qed.

Lemma canonical_message_inj a b : valid a → valid b → canonical_message a = canonical_message b → a = b.
Proof. intros Ha Hb E. apply read_canonical in Ha, Hb. rewrite E in Ha. congruence. Qed.

Lemma read_valid s a : read_message s = Ok a → valid a.
Proof.
  unfold read_message. intros (v & Hv & Ha)%result_bind_ok. eapply parse_valid; [|done]. by eapply loads_dict.
Qed.

(** The bytes that stand for a message in a database. *)
Definition text_of (s : string) (a : A) : Prop := valid a ∧ s = canonical_message a.

Lemma text_of_read s a : text_of s a ↔ read_message s = Ok a ∧ canonical_message a = s.
Proof.
  split; [intros [Ha ->]; split; [by apply read_canonical|done]|]. intros [Hr <-]. split; [by eapply read_valid|done].
Qed.
End message.

(** ** Documents that the constructors accept *)

Definition safe_item (field_name : option string) (allow : bool) (p : string * json) : Prop :=
  is_path_key p.1 = false
  ∧ negb (is_unsafe_key p.1) || allow && (eqb p.1 "secrets" || eqb field_name (Some "secrets")) = true
  ∧ validate_safe_keys (Some p.1) (allow || eqb p.1 "deployment") (eqb field_name (Some "secrets")) p.2 = Ok ().

Lemma safe_object f allow secret items :
  validate_safe_keys f allow secret (JObj items) = Ok () ↔ Forall (safe_item f allow) items.
Proof.
  induction items as [|[key v] items IH]; [by split; [constructor|]|]. rewrite Forall_cons, <- IH.
  unfold safe_item. cbn [fst snd].
  match goal with |- ?l = Ok () ↔ _ => change l with
    (protocol_check (negb (is_path_key key)) ("filesystem path key is not allowed: " +:+ key);;
     protocol_check (negb (is_unsafe_key key) || allow && (eqb key "secrets" || eqb f (Some "secrets")))
       ("unsafe protocol key: " +:+ key);;
     validate_safe_keys (Some key) (allow || eqb key "deployment") (eqb f (Some "secrets")) v;;
     validate_safe_keys f allow secret (JObj items)) end.
  split.
  - intros H. unfold protocol_check in H. inv_run_all. bool_facts.
    repeat match goal with u : unit |- _ => destruct u end. done.
  - intros [(H1 & H2 & H3) H4]. unfold protocol_check, ensure. by rewrite H1, H2, H3.
Qed.

Lemma safe_array f allow secret items :
  validate_safe_keys f allow secret (JArr items) = Ok ()
  ↔ Forall (λ v, validate_safe_keys None allow secret v = Ok ()) items.
Proof.
  induction items as [|v items IH]; [by split; [constructor|]|]. rewrite Forall_cons, <- IH. cbn.
  destruct (validate_safe_keys None _ _ v) as [[]|]; cbn; naive_solver.
Qed.

Lemma safe_sort v f allow secret :
  validate_safe_keys f allow secret v = Ok () → validate_safe_keys f allow secret (sort_json v) = Ok ().
Proof.
  revert f allow secret. induction v as [| | | |l IH|l IH] using json_nested_ind; intros f allow secret; try done.
  - change (sort_json (JArr l)) with (JArr (map sort_json l)). rewrite !safe_array, Forall_fmap.
    intros Hl. eapply Forall_impl; [apply Forall_and; split; [exact IH|exact Hl]|]. intros v [H1 H2]. by apply H1.
  - rewrite sort_json_object, !safe_object. intros Hl. rewrite key_sort_perm, Forall_fmap.
    eapply Forall_impl; [apply Forall_and; split; [exact IH|exact Hl]|]. intros [k v] [H1 (? & ? & H2)].
    split_and!; [done..|]. by apply H1.
Qed.

Lemma dict_keys_sort v : dict_keys v = true → dict_keys (sort_json v) = true.
Proof.
  induction v as [| | | |l IH|l IH] using json_nested_ind; try done.
  - change (sort_json (JArr l)) with (JArr (map sort_json l)). rewrite !dict_keys_array, Forall_fmap. intros Hl.
    eapply Forall_impl; [apply Forall_and; split; [exact IH|exact Hl]|]. intros v [H1 H2]. by apply H1.
  - rewrite sort_json_object, !dict_keys_object. intros [Hnd Hl]. split; [by apply sorted_keys|].
    rewrite key_sort_perm, Forall_fmap. eapply Forall_impl; [apply Forall_and; split; [exact IH|exact Hl]|].
    intros v [H1 H2]. by apply H1.
Qed.

Lemma bounded_document_sorted v name w : validate_bounded_document v name = Ok w → w = sort_json v.
Proof. destruct v; cbn [validate_bounded_document]; try done. intros H. inv_run_all. done. Qed.

(** A document that was accepted is accepted again, unchanged. *)
Lemma bounded_document_idemp v name w : dict_keys v = true →
  validate_bounded_document v name = Ok w → sort_json w = w ∧ validate_bounded_document w name = Ok w.
Proof.
  intros Hk H. pose proof (bounded_document_sorted _ _ _ H) as ->. split; [by apply sort_json_idemp|].
  destruct v as [| | | | |items]; try done. cbn [validate_bounded_document] in H. inv_run_all.
  match goal with
  | H1 : validate_safe_keys _ _ _ _ = Ok ?u, H2 : protocol_check _ _ = Ok ?w |- _ =>
      destruct u, w; pose proof (safe_sort _ _ _ _ H1) as Hs; rename H2 into Hl
  end.
  rewrite sort_json_object in *. cbn [validate_bounded_document]. rewrite Hs.
  rewrite <- sort_json_object in *. rewrite sort_json_idemp by done. by rewrite Hl.
Qed.

(** ** The identity of a message *)

Definition valid_identity (i : attempt_identity) : Prop :=
  check_attempt_identity i = Ok () ∧ in_range_of_years (id_deadline i) = true.

Lemma attempt_fields_read items i : valid_identity i →
  (∀ key, key ∈ identity_keys → field items key = sort_json (field (identity_items i) key)) →
  attempt_fields items = Ok i.
Proof.
  intros [Hi Hd] Hf. unfold attempt_fields. rewrite !Hf by (apply among_true; reflexivity).
  change (field (identity_items i) "schema_version") with (JInt 1).
  change (field (identity_items i) "job_id") with (JStr (id_job i)).
  change (field (identity_items i) "operation_id") with (JStr (id_operation i)).
  change (field (identity_items i) "attempt") with (JInt (id_attempt i)).
  change (field (identity_items i) "fence") with (JStr (id_fence i)).
  change (field (identity_items i) "node_id") with (JStr (id_node i)).
  change (field (identity_items i) "deadline") with (JStr (isoformat (id_deadline i))).
  unfold check_attempt_identity, protocol_check in Hi. inv_run_all.
  cbn [sort_json]. unfold parse_identifier, parse_attempt, parse_deadline, protocol_check, ensure, check_version.
  repeat match goal with H : ?b = true |- context [?b] => rewrite H end.
  rewrite fromisoformat_isoformat by done. by destruct i.
Qed.

(** The items of the sorted copy of a message. *)
Definition sorted_items (items : list (string * json)) : list (string * json) :=
  merge_sort key_le (map (on_values sort_json) items).

Lemma check_fields_sorted items required :
  items.*1 = required → check_fields (sorted_items items) required = Ok ().
Proof.
  intros <-. apply ensure_ok, same_keys_spec. intros key. unfold sorted_items.
  by rewrite key_sort_perm, on_values_keys.
Qed.

Lemma sorted_field items key : NoDup items.*1 → field (sorted_items items) key = sort_json (field items key).
Proof. apply field_sort. Qed.

Lemma identity_items_field i rest key :
  key ∈ identity_keys → field (identity_items i ++ rest) key = field (identity_items i) key.
Proof. unfold identity_keys. rewrite !elem_of_cons, elem_of_nil. intros Hk. by destruct_or? Hk; subst. Qed.

Lemma identity_read i rest : valid_identity i → NoDup (identity_items i ++ rest).*1 →
  attempt_fields (sorted_items (identity_items i ++ rest)) = Ok i.
Proof.
  intros Hi Hnd. apply attempt_fields_read; [done|]. intros key Hk.
  by rewrite sorted_field, identity_items_field.
Qed.

Lemma identity_dict i rest : distinct (identity_keys ++ rest.*1) = true →
  Forall (λ p, dict_keys p.2 = true) rest → dict_keys (JObj (identity_items i ++ rest)) = true.
Proof.
  intros Hnd Hr. apply dict_keys_object. split; [by apply distinct_true in Hnd|].
  rewrite Forall_app. split; [by repeat constructor|done].
Qed.

Lemma parse_identifier_ok (p : string → bool) s m : p s = true → parse_identifier p (JStr s) m = Ok s.
Proof. intros H. cbn. by rewrite H. Qed.

Lemma operation_of_own_value o : operation_of_value (operation_value o) = Ok o.
Proof. by destruct o. Qed.

(** ** Valid messages: what the constructors return *)

Definition valid_claim (c : AgentClaim) : Prop :=
  agent_claim (claim_identity c) (claim_operation c) (claim_base_commit c) (claim_payload_digest c)
    (claim_payload c) = Ok c
  ∧ in_range_of_years (id_deadline (claim_identity c)) = true ∧ dict_keys (claim_payload c) = true.
Definition valid_progress (p : AgentProgress) : Prop :=
  agent_progress (progress_identity p) (progress_document p) = Ok p
  ∧ in_range_of_years (id_deadline (progress_identity p)) = true ∧ dict_keys (progress_document p) = true.
Definition valid_result (r : AgentResult) : Prop :=
  agent_result (result_identity r) (result_state r) (result_document r) = Ok r
  ∧ in_range_of_years (id_deadline (result_identity r)) = true ∧ dict_keys (result_document r) = true.
Definition valid_directive (d : AgentDirective) : Prop := valid_identity (directive_identity d).

Ltac unit_facts := repeat match goal with u : unit |- _ => destruct u end.
Ltac open_run H := unfold protocol_check in H; inv_run_all; bool_facts; unit_facts.

Lemma bounded_document_fixed v name : validate_bounded_document v name = Ok v → sort_json v = v.
Proof. by intros <-%bounded_document_sorted. Qed.

Lemma made_claim i o base digest payload c :
  agent_claim i o base digest payload = Ok c ↔
  check_attempt_identity i = Ok () ∧ is_commit base = true ∧ is_digest digest = true
  ∧ ∃ document, validate_bounded_document payload "payload" = Ok document
    ∧ utf8_digest document = digest ∧ c = MkClaim i o base digest document.
Proof.
  unfold agent_claim. split.
  - intros H. open_run H. naive_solver.
  - intros (H1 & H2 & H3 & doc & H4 & H5 & ->). unfold protocol_check, ensure. rewrite H1, H2, H3, H4.
    cbn [mbind result_bind]. by rewrite H5, eqb_refl.
Qed.

Lemma made_progress i document p :
  agent_progress i document = Ok p ↔
  check_attempt_identity i = Ok () ∧ ∃ d, validate_bounded_document document "progress" = Ok d ∧ p = MkProgress i d.
Proof.
  unfold agent_progress. split.
  - intros H. inv_run_all. unit_facts. naive_solver.
  - intros (H1 & d & H2 & ->). by rewrite H1, H2.
Qed.

Lemma made_result i state value r :
  agent_result i state value = Ok r ↔
  check_attempt_identity i = Ok () ∧ state ∈ result_states
  ∧ ∃ d, validate_bounded_document value "result" = Ok d ∧ r = MkResult i state d.
Proof.
  unfold agent_result. split.
  - intros H. open_run H. naive_solver.
  - intros (H1 & H2%among_true & d & H3 & ->). unfold protocol_check, ensure. by rewrite H1, H2, H3.
Qed.

Lemma claim_is_valid i o base digest payload c : agent_claim i o base digest payload = Ok c →
  dict_keys payload = true → in_range_of_years (id_deadline i) = true → valid_claim c.
Proof.
  intros (H1 & H2 & H3 & doc & H4 & H5 & ->)%made_claim Hk Hd.
  pose proof (bounded_document_sorted _ _ _ H4) as E. apply bounded_document_idemp in H4 as [_ H4]; [|done].
  split_and!; [|done|subst; by apply dict_keys_sort]. apply made_claim. naive_solver.
Qed.

Lemma progress_is_valid i document p : agent_progress i document = Ok p →
  dict_keys document = true → in_range_of_years (id_deadline i) = true → valid_progress p.
Proof.
  intros (H1 & d & H2 & ->)%made_progress Hk Hd.
  pose proof (bounded_document_sorted _ _ _ H2) as E. apply bounded_document_idemp in H2 as [_ H2]; [|done].
  split_and!; [|done|subst; by apply dict_keys_sort]. apply made_progress. naive_solver.
Qed.

Lemma result_is_valid i state value r : agent_result i state value = Ok r →
  dict_keys value = true → in_range_of_years (id_deadline i) = true → valid_result r.
Proof.
  intros (H1 & Hs & d & H2 & ->)%made_result Hk Hd.
  pose proof (bounded_document_sorted _ _ _ H2) as E. apply bounded_document_idemp in H2 as [_ H2]; [|done].
  split_and!; [|done|subst; by apply dict_keys_sort]. apply made_result. naive_solver.
Qed.

(** ** The messages of the protocol *)

Lemma claim_wire_dict c : valid_claim c → dict_keys (claim_wire c) = true.
Proof. intros (_ & _ & Hk). apply identity_dict; [done|]. by repeat constructor. Qed.

Lemma valid_claim_facts c : valid_claim c →
  valid_identity (claim_identity c) ∧ is_commit (claim_base_commit c) = true
  ∧ is_digest (claim_payload_digest c) = true ∧ sort_json (claim_payload c) = claim_payload c.
Proof.
  intros ((Hi & Hb & Hg & doc & Hp & _ & E)%made_claim & Hd & _). split_and!; try done.
  destruct c; cbn in *. injection E as ->. by eapply bounded_document_fixed.
Qed.

Lemma valid_progress_facts p : valid_progress p →
  valid_identity (progress_identity p) ∧ sort_json (progress_document p) = progress_document p.
Proof.
  intros ((Hi & d & Hp & E)%made_progress & Hd & _). split; [done|].
  destruct p; cbn in *. injection E as ->. by eapply bounded_document_fixed.
Qed.

Lemma valid_result_facts r : valid_result r →
  valid_identity (result_identity r) ∧ sort_json (result_document r) = result_document r.
Proof.
  intros ((Hi & _ & d & Hp & E)%made_result & Hd & _). split; [done|].
  destruct r; cbn in *. injection E as ->. by eapply bounded_document_fixed.
Qed.

(** The keys of the sorted copy of a message are known, and its fields are the
    sorted copies of the fields. *)
Ltac read_wire Hv dict :=
  let Hnd := fresh "Hnd" in
  pose proof (proj1 (proj1 (dict_keys_object _) (dict _ Hv))) as Hnd;
  match goal with |- ?parser (sort_json (?w ?a)) = _ => unfold parser, w end;
  rewrite sort_json_object;
  match goal with |- context [merge_sort key_le (map (on_values sort_json) ?l)] =>
    change (merge_sort key_le (map (on_values sort_json) l)) with (sorted_items l) end;
  rewrite check_fields_sorted by done; rewrite !sorted_field by done.

Lemma parse_claim_wire c : valid_claim c → parse_claim (sort_json (claim_wire c)) = Ok c.
Proof.
  intros Hv. read_wire Hv claim_wire_dict. apply valid_claim_facts in Hv as Hf.
  destruct Hf as (Hi & Hb & Hg & Hp), Hv as (Hc & _ & _).
  change (field (_ ++ _) "operation") with (JStr (claim_operation c)).
  change (field (_ ++ _) "base_commit") with (JStr (claim_base_commit c)).
  change (field (_ ++ _) "payload_digest") with (JStr (claim_payload_digest c)).
  change (field (_ ++ _) "payload") with (claim_payload c).
  cbn [sort_json parse_operation]. rewrite operation_of_own_value, !parse_identifier_ok by done.
  cbn [mbind result_bind mret result_ret]. rewrite identity_read by done. cbn [mbind result_bind]. by rewrite Hp.
Qed.

Lemma progress_wire_dict p : valid_progress p → dict_keys (progress_wire p) = true.
Proof. intros (_ & _ & Hk). apply identity_dict; [done|]. by repeat constructor. Qed.

Lemma parse_progress_wire p : valid_progress p → parse_progress (sort_json (progress_wire p)) = Ok p.
Proof.
  intros Hv. read_wire Hv progress_wire_dict. apply valid_progress_facts in Hv as Hf.
  destruct Hf as (Hi & Hp), Hv as (Hc & _ & _).
  change (field (_ ++ _) "progress") with (progress_document p).
  cbn [mbind result_bind]. rewrite identity_read by done. cbn [mbind result_bind]. by rewrite Hp.
Qed.

Lemma result_wire_dict r : valid_result r → dict_keys (result_wire r) = true.
Proof. intros (_ & _ & Hk). apply identity_dict; [done|]. by repeat constructor. Qed.

Lemma parse_result_wire r : valid_result r → parse_result (sort_json (result_wire r)) = Ok r.
Proof.
  intros Hv. read_wire Hv result_wire_dict. apply valid_result_facts in Hv as Hf.
  destruct Hf as (Hi & Hp), Hv as (Hc & _ & _).
  change (field (_ ++ _) "state") with (JStr (result_state r)).
  change (field (_ ++ _) "result") with (result_document r).
  cbn [mbind result_bind sort_json]. rewrite identity_read by done. cbn [mbind result_bind]. by rewrite Hp.
Qed.

Lemma directive_wire_dict d : valid_directive d → dict_keys (directive_wire d) = true.
Proof. intros _. apply identity_dict; [done|]. by repeat constructor. Qed.

Lemma parse_directive_wire d : valid_directive d → parse_directive (sort_json (directive_wire d)) = Ok d.
Proof.
  intros Hv. read_wire Hv directive_wire_dict.
  change (field (_ ++ _) "cancel_requested") with (JBool (directive_cancel d)).
  cbn [mbind result_bind sort_json]. rewrite identity_read by done. cbn [mbind result_bind].
  unfold agent_directive. rewrite (proj1 Hv). by destruct d.
Qed.

Lemma parse_deadline_range v t : parse_deadline v = Ok t → in_range_of_years t = true.
Proof.
  destruct v; cbn [parse_deadline]; try done. destruct (fromisoformat _) as [t'|] eqn:E; [|done].
  intros [= <-]. by eapply fromisoformat_range.
Qed.

Lemma attempt_fields_range value i : attempt_fields value = Ok i → in_range_of_years (id_deadline i) = true.
Proof.
  unfold attempt_fields. intros H. inv_run_all. subst i.
  match goal with H : parse_deadline _ = Ok _ |- _ => by apply parse_deadline_range in H end.
Qed.

Lemma parse_claim_valid v c : dict_keys v = true → parse_claim v = Ok c → valid_claim c.
Proof.
  intros Hk H. destruct v; cbn [parse_claim] in H; try done. inv_run_all.
  eapply claim_is_valid; [done|by apply dict_keys_field|by eapply attempt_fields_range].
Qed.

Lemma parse_progress_valid v p : dict_keys v = true → parse_progress v = Ok p → valid_progress p.
Proof.
  intros Hk H. destruct v; cbn [parse_progress] in H; try done. inv_run_all.
  eapply progress_is_valid; [done|by apply dict_keys_field|by eapply attempt_fields_range].
Qed.

Lemma parse_result_valid v r : dict_keys v = true → parse_result v = Ok r → valid_result r.
Proof.
  intros Hk H. destruct v as [| | | | |items]; cbn [parse_result] in H; try done. inv_run_all.
  destruct (field items "state"); try done.
  eapply result_is_valid; [done|by apply dict_keys_field|by eapply attempt_fields_range].
Qed.

Lemma parse_directive_valid v d : dict_keys v = true → parse_directive v = Ok d → valid_directive d.
Proof.
  intros Hk H. destruct v as [| | | | |items]; cbn [parse_directive] in H; try done. inv_run_all.
  destruct (field items "cancel_requested"); try done. unfold agent_directive in H. inv_run_all. subst d.
  unit_facts. split; [done|by eapply attempt_fields_range].
Qed.

#[export] Instance claim_message : Message AgentClaim := {|
  identity := claim_identity; wire := claim_wire; parse := parse_claim; valid := valid_claim;
  wire_dict := claim_wire_dict; parse_wire := parse_claim_wire;
  parse_valid := parse_claim_valid |}.
#[export] Instance progress_message : Message AgentProgress := {|
  identity := progress_identity; wire := progress_wire; parse := parse_progress; valid := valid_progress;
  wire_dict := progress_wire_dict; parse_wire := parse_progress_wire;
  parse_valid := parse_progress_valid |}.
#[export] Instance result_message : Message AgentResult := {|
  identity := result_identity; wire := result_wire; parse := parse_result; valid := valid_result;
  wire_dict := result_wire_dict; parse_wire := parse_result_wire;
  parse_valid := parse_result_valid |}.
#[export] Instance directive_message : Message AgentDirective := {|
  identity := directive_identity; wire := directive_wire; parse := parse_directive; valid := valid_directive;
  wire_dict := directive_wire_dict; parse_wire := parse_directive_wire;
  parse_valid := parse_directive_valid |}.

(** C40. Every message of an attempt that a constructor accepted, with a payload that
    is a Python document and a deadline within the calendar, is read back from its
    canonical text: the claim an agent reads is the claim that was sent, whatever
    the payload, and so are progress, results and directives. *)
Theorem message_round_trip i :
  in_range_of_years (id_deadline i) = true →
  (∀ o base digest payload c, agent_claim i o base digest payload = Ok c → dict_keys payload = true →
     read_message (canonical_message c) = Ok c)
  ∧ (∀ document p, agent_progress i document = Ok p → dict_keys document = true → read_message (canonical_message p) = Ok p)
  ∧ (∀ state document r, agent_result i state document = Ok r → dict_keys document = true →
       read_message (canonical_message r) = Ok r)
  ∧ (∀ cancel d, agent_directive i cancel = Ok d → read_message (canonical_message d) = Ok d).
Proof.
  intros Hd. split_and!.
  - intros o base digest payload c Hc Hk. apply read_canonical. by eapply claim_is_valid.
  - intros document p Hp Hk. apply read_canonical. by eapply progress_is_valid.
  - intros state document r Hr Hk. apply read_canonical. by eapply result_is_valid.
  - intros cancel d H. apply read_canonical. unfold agent_directive in H. inv_run_all. subst d. unit_facts. by split.
Qed.

Definition wire_identity : attempt_identity :=
  Identity "11111111-1111-4111-8111-111111111111" "22222222-2222-4222-8222-222222222222" 1
    "33333333-3333-4333-8333-333333333333" "spk_0123456789abcdef0123456789abcdef" 1700000000250000.

Lemma message_round_trip_witness :
  ∃ p, agent_progress wire_identity (JObj [("phase", JStr "running"); ("note", JStr "a b")]) = Ok p
    ∧ read_message (canonical_message p) = Ok p.
Proof.
  eexists. split; [vm_compute; reflexivity|].
  apply (message_round_trip wire_identity) with (document := JObj [("phase", JStr "running"); ("note", JStr "a b")]);
    vm_compute; reflexivity.
Defined.
