(* ===== verification/AttemptStore.v ===== *)
(** * The operation journal of an agent ([agent/src/vonk_agent/state.py])

    The SQLite table in which an agent keeps the attempts it was given: the claim,
    the latest progress and the result of each as the canonical bytes of the
    message, under the constraints of the table. An operation reads the row, checks
    it ([_record] parses and cross-checks every column) and writes in one
    transaction. The time of a call is an argument; the rows are in the order of
    their insertion. Opening the database, its locks, file modes and the check of its
    schema are not modelled. Every message carries schema version 1, so the
    comparisons of versions always hold. *)

From S2P Require Import Prelude Identifiers Canonical Documents JsonText Datetimes Contracts PackageEngine Protocol Messages.

(** ** The table *)

Record attempt_row := Row {
  at_node : string; at_job : string; at_operation : string; at_attempt : Z; at_fence : string;
  at_state : string; at_claim : string; at_sequence : Z; at_progress : option string;
  at_result : option string; at_created : string; at_updated : string;
  at_finished : option string; at_acknowledged : option string
}.

Definition attempt_key : Type := string * string * string * Z.

Definition row_key (r : attempt_row) : attempt_key := (at_node r, at_job r, at_operation r, at_attempt r).

(** [_identity]. *)
Definition message_key (i : attempt_identity) : attempt_key := (id_node i, id_job i, id_operation i, id_attempt i).

Definition attempt_states : list string := ["active"; "succeeded"; "failed"; "waiting-for-operator"].

Definition is_active (r : attempt_row) : bool := eqb (at_state r) "active".

(** The [CHECK] constraints of a row. *)
Definition row_constraints (r : attempt_row) : bool :=
  among (at_state r) attempt_states
  && (0 <=? at_sequence r)%Z
  && ((at_sequence r =? 0)%Z && is_None_b (at_progress r) || (0 <? at_sequence r)%Z && is_Some_b (at_progress r))
  && (is_active r && is_None_b (at_result r) && is_None_b (at_finished r) && is_None_b (at_acknowledged r)
      || negb (is_active r) && is_Some_b (at_result r) && is_Some_b (at_finished r)).

(** The predicate of the index [one_unresolved_attempt]. *)
Definition is_unresolved (r : attempt_row) : bool := is_active r || is_None_b (at_acknowledged r).

Definition table_constraints (t : list attempt_row) : bool :=
  forallb row_constraints t && distinct (map row_key t) && distinct (map at_fence t)
  && (Z.of_nat (length (filter (λ r, is_unresolved r = true) t)) <=? 1)%Z.

(** The table before and after a statement; one that would break a constraint
    raises [IntegrityError]. *)
Definition write_table (t : list attempt_row) : M (list attempt_row) unit :=
  lift (ensure (table_constraints t) EIntegrity "constraint failed");; modify (λ _, t).

Definition find_rows (p : attempt_row → bool) : M (list attempt_row) (list attempt_row) :=
  t ← get; mret (filter (λ r, p r = true) t).

(** A query by the identity of a message binds the attempt as an SQLite integer. *)
Definition keyed_rows (i : attempt_identity) (p : attempt_row → bool) : M (list attempt_row) (list attempt_row) :=
  lift (sqlite_int (id_attempt i));;
  find_rows (λ r, eqb (row_key r) (message_key i) && p r).

(** [except sqlite3.Error]. *)
Definition state_operation {A} (m : M (list attempt_row) A) : M (list attempt_row) A :=
  try_catch (transaction m) (λ e,
    if eqb (exn_cls e) EIntegrity then throw EAgentState "state operation failed" else rethrow e).

(** ** Records *)

Record AgentAttemptRecord := Attempt {
  ar_claim : AgentClaim; ar_fence : string; ar_state : string; ar_sequence : Z;
  ar_progress : option AgentProgress; ar_result : option AgentResult;
  ar_created : string; ar_updated : string; ar_finished : option string; ar_acknowledged : option string;
  ar_canonical_claim : string; ar_canonical_progress : option string; ar_canonical_result : option string
}.

Definition conflict {A} (m : string) : result A := raise EAgentStateConflict m.
Definition state_check (b : bool) (m : string) : result unit := ensure b EAgentState m.
Definition conflict_check (b : bool) (m : string) : result unit := ensure b EAgentStateConflict m.

Definition parse_time (value : string) : result Z :=
  match fromisoformat value with
  | Some t => mret t
  | None => raise EAgentState "stored timestamp is invalid"
  end.

(** [_nondecreasing_timestamp], at the time [now]. *)
Definition nondecreasing_timestamp (now : Z) (previous : string) : result string :=
  previous_time ← parse_time previous;
  candidate ← parse_time (isoformat now);
  mret (isoformat (Z.max previous_time candidate)).

Definition require_protocol_identity (claim message : attempt_identity) : result unit :=
  conflict_check (eqb (message_key claim) (message_key message) && eqb (id_fence claim) (id_fence message))
    "protocol message does not match persisted claim".

(** [progress.get("cancel_requested") is True]. *)
Definition wants_cancel (p : AgentProgress) : bool :=
  match progress_document p with
  | JObj items => eqb (field items "cancel_requested") (JBool true)
  | _ => false
  end.

Definition require_progress_match (claim : AgentClaim) (latest : option AgentProgress) (progress : AgentProgress)
    : result unit :=
  require_protocol_identity (claim_identity claim) (progress_identity progress);;
  (let earliest := match latest with
                   | None => id_deadline (claim_identity claim)
                   | Some l => id_deadline (progress_identity l)
                   end in
   conflict_check (negb (id_deadline (progress_identity progress) <? earliest)%Z) "heartbeat deadline moved backwards");;
  conflict_check
    (match latest with Some l => negb (wants_cancel l && negb (wants_cancel progress)) | None => true end)
    "heartbeat cancellation intent moved backwards".

Definition require_protocol_match (claim message : attempt_identity) : result unit :=
  require_protocol_identity claim message;;
  conflict_check (id_deadline claim =? id_deadline message)%Z "protocol message does not match persisted claim".

(** [_require_stored_protocol_match]. *)
Definition stored_match (r : result unit) : result unit :=
  match r with
  | Err (Exn EAgentStateConflict _) => raise EAgentState "stored protocol identity is invalid"
  | r => r
  end.

(** The [except] clauses of [_record]. *)
Definition stored {A} (r : result A) : result A :=
  match r with
  | Err (Exn (EAgentProtocol | EValue | EType | EKey) _) => raise EAgentState "stored state is invalid"
  | r => r
  end.

Definition optional {A B} (f : A → result B) (o : option A) : result (option B) :=
  match o with None => mret None | Some a => b ← f a; mret (Some b) end.

Definition unless_None {A} (o : option A) (f : A → result unit) : result unit :=
  match o with None => mret () | Some a => f a end.

Definition record (row : attempt_row) : result AgentAttemptRecord :=
  stored (
    claim ← (read_message (at_claim row) : result AgentClaim);
    progress ← (optional read_message (at_progress row) : result (option AgentProgress));
    value ← (optional read_message (at_result row) : result (option AgentResult));
    state_check (eqb (canonical_message claim) (at_claim row)) "stored claim is not canonical";;
    unless_None progress (λ p, state_check (eqb (Some (canonical_message p)) (at_progress row))
                                 "stored progress is not canonical");;
    unless_None value (λ v, state_check (eqb (Some (canonical_message v)) (at_result row))
                              "stored result is not canonical");;
    state_check (eqb (message_key (claim_identity claim)) (row_key row)
                 && eqb (id_fence (claim_identity claim)) (at_fence row))
      "stored claim identity is invalid";;
    unless_None progress (λ p, stored_match (require_progress_match claim None p));;
    unless_None value (λ v, stored_match (require_protocol_match (claim_identity claim) (result_identity v)));;
    created ← parse_time (at_created row);
    updated ← parse_time (at_updated row);
    finished ← optional parse_time (at_finished row);
    acknowledged ← optional parse_time (at_acknowledged row);
    state_check (negb (at_sequence row <? 0)%Z) "stored progress sequence is invalid";;
    state_check (eqb (at_sequence row =? 0)%Z (is_None_b progress)) "stored progress is incoherent";;
    state_check (negb (updated <? created)%Z) "stored timestamps are incoherent";;
    state_check (match finished with
                 | Some f => negb ((f <? created)%Z || (updated <? f)%Z)
                 | None => true
                 end) "stored timestamps are incoherent";;
    state_check (match acknowledged, finished with
                 | None, _ => true
                 | Some a, Some f => negb ((a <? f)%Z || (updated <? a)%Z)
                 | Some _, None => false
                 end) "stored timestamps are incoherent";;
    state_check (negb (is_active row && (is_Some_b value || is_Some_b finished || is_Some_b acknowledged)))
      "active attempt is incoherent";;
    state_check (is_active row
                 || match value with
                    | Some v => is_Some_b finished && eqb (result_state v) (at_state row)
                    | None => false
                    end) "terminal attempt is incoherent";;
    mret (Attempt claim (at_fence row) (at_state row) (at_sequence row) progress value (at_created row)
            (at_updated row) (at_finished row) (at_acknowledged row) (at_claim row) (at_progress row)
            (at_result row))).

(** [_matching_row]. *)
Definition matching_row (i : attempt_identity) : M (list attempt_row) attempt_row :=
  rows ← keyed_rows i (λ r, eqb (at_fence r) (id_fence i));
  match rows with
  | row :: _ => mret row
  | [] => throw EAgentStateConflict "attempt identity or fence does not match"
  end.

(** [UPDATE attempts SET ... WHERE] the identity, the fence and a condition. *)
Definition update_rows (i : attempt_identity) (p : attempt_row → bool) (f : attempt_row → attempt_row)
    : M (list attempt_row) unit :=
  t ← get;
  write_table (map (λ r, if eqb (row_key r) (message_key i) && eqb (at_fence r) (id_fence i) && p r
                         then f r else r) t).

(** ** Operations *)

Definition new_row (claim : AgentClaim) (now : Z) : attempt_row :=
  let i := claim_identity claim in
  Row (id_node i) (id_job i) (id_operation i) (id_attempt i) (id_fence i) "active" (canonical_message claim)
    0 None None (isoformat now) (isoformat now) None None.

(** [SELECT MAX(attempt)] over the attempts of the operation. *)
Definition highest_attempt (t : list attempt_row) (i : attempt_identity) : option Z :=
  foldr (λ r m, if eqb (at_node r, at_job r, at_operation r) (id_node i, id_job i, id_operation i)
                then Some (match m with Some m => Z.max (at_attempt r) m | None => at_attempt r end)
                else m) None t.

Definition begin (now : Z) (claim : AgentClaim) : M (list attempt_row) AgentAttemptRecord :=
  let i := claim_identity claim in
  try_catch (transaction (
    existing ← keyed_rows i (λ _, true);
    match existing with
    | row :: _ =>
        current ← lift (record row);
        if eqb (ar_fence current) (id_fence i) && eqb (ar_canonical_claim current) (canonical_message claim)
        then mret current
        else throw EAgentStateConflict "attempt conflicts with persisted state"
    | [] =>
        used ← find_rows (λ r, eqb (at_fence r) (id_fence i));
        lift (conflict_check (negb (nonempty used)) "fence was already used");;
        t ← get;
        lift (conflict_check (match highest_attempt t i with
                              | Some h => negb (id_attempt i <=? h)%Z
                              | None => true
                              end) "attempt is stale");;
        unresolved ← find_rows is_unresolved;
        lift (conflict_check (negb (nonempty unresolved)) "an attempt delivery is unresolved");;
        write_table (t ++ [new_row claim now]);;
        rows ← keyed_rows i (λ _, true);
        match rows with
        | row :: _ => lift (record row)
        | [] => throw EAgentState "stored state is invalid"
        end
    end))
    (λ e, if eqb (exn_cls e) EIntegrity then throw EAgentStateConflict "attempt conflicts with persisted state"
          else rethrow e).

Definition with_progress (text now : string) (r : attempt_row) : attempt_row :=
  Row (at_node r) (at_job r) (at_operation r) (at_attempt r) (at_fence r) (at_state r) (at_claim r)
    (at_sequence r + 1) (Some text) (at_result r) (at_created r) now (at_finished r) (at_acknowledged r).

Definition with_result (state text now : string) (r : attempt_row) : attempt_row :=
  Row (at_node r) (at_job r) (at_operation r) (at_attempt r) (at_fence r) state (at_claim r)
    (at_sequence r) (at_progress r) (Some text) (at_created r) now (Some now) (at_acknowledged r).

Definition with_acknowledgement (now : string) (r : attempt_row) : attempt_row :=
  Row (at_node r) (at_job r) (at_operation r) (at_attempt r) (at_fence r) (at_state r) (at_claim r)
    (at_sequence r) (at_progress r) (at_result r) (at_created r) now (at_finished r) (Some now).

Definition heartbeat (now : Z) (progress : AgentProgress) (allow_terminal_race : bool)
    : M (list attempt_row) AgentAttemptRecord :=
  let i := progress_identity progress in
  state_operation (
    row ← matching_row i;
    current ← lift (record row);
    lift (require_progress_match (ar_claim current) (ar_progress current) progress);;
    if negb (eqb (ar_state current) "active") then
      if allow_terminal_race && is_Some_b (ar_result current) then mret current
      else throw EAgentStateConflict "attempt is not active"
    else
      stamp ← lift (nondecreasing_timestamp now (ar_updated current));
      update_rows i is_active (with_progress (canonical_message progress) stamp);;
      row ← matching_row i;
      lift (record row)).

(** The document of a progress with the intent of a directive. *)
Definition with_cancel (document : json) (cancel : bool) : json :=
  match document with
  | JObj items => JObj (put_item items "cancel_requested" (JBool cancel))
  | v => v
  end.

Definition at_deadline (i : attempt_identity) (deadline : Z) : attempt_identity :=
  Identity (id_job i) (id_operation i) (id_attempt i) (id_fence i) (id_node i) deadline.

Definition apply_directive (now : Z) (progress : AgentProgress) (directive : AgentDirective)
    (allow_terminal_race : bool) : M (list attempt_row) AgentAttemptRecord :=
  let i := progress_identity progress in
  let d := directive_identity directive in
  lift (conflict_check (eqb (message_key i) (message_key d) && eqb (id_fence i) (id_fence d)
                        && negb (id_deadline d <? id_deadline i)%Z)
          "heartbeat directive does not match request");;
  durable ← lift (agent_progress (at_deadline i (id_deadline d))
                    (with_cancel (progress_document progress) (directive_cancel directive)));
  heartbeat now durable allow_terminal_race.

Definition lookup_exact (claim : AgentClaim) : M (list attempt_row) (option AgentAttemptRecord) :=
  rows ← keyed_rows (claim_identity claim) (λ _, true);
  match rows with
  | [] => mret None
  | row :: _ =>
      current ← lift (record row);
      lift (conflict_check (eqb (ar_fence current) (id_fence (claim_identity claim))
                            && eqb (ar_canonical_claim current) (canonical_message claim))
              "attempt conflicts with persisted state");;
      mret (Some current)
  end.

Definition cancellation_requested (claim : AgentClaim) : M (list attempt_row) bool :=
  found ← lookup_exact claim;
  mret (match found with
        | Some current => match ar_progress current with Some p => wants_cancel p | None => false end
        | None => false
        end).

Definition finish (now : Z) (value : AgentResult) : M (list attempt_row) AgentAttemptRecord :=
  let i := result_identity value in
  state_operation (
    row ← matching_row i;
    current ← lift (record row);
    lift (require_protocol_match (claim_identity (ar_claim current)) i);;
    if negb (eqb (ar_state current) "active") then
      if eqb (ar_canonical_result current) (Some (canonical_message value)) then mret current
      else throw EAgentStateConflict "terminal result conflicts with persisted state"
    else
      stamp ← lift (nondecreasing_timestamp now (ar_updated current));
      update_rows i is_active (with_result (result_state value) (canonical_message value) stamp);;
      row ← matching_row i;
      lift (record row)).

Definition acknowledge (now : Z) (value : AgentResult) : M (list attempt_row) AgentAttemptRecord :=
  let i := result_identity value in
  state_operation (
    row ← matching_row i;
    current ← lift (record row);
    lift (require_protocol_match (claim_identity (ar_claim current)) i);;
    lift (conflict_check (negb (eqb (ar_state current) "active")
                          && eqb (ar_canonical_result current) (Some (canonical_message value)))
            "terminal result conflicts with persisted state");;
    if is_None_b (ar_acknowledged current) then
      stamp ← lift (nondecreasing_timestamp now (ar_updated current));
      update_rows i (λ r, is_None_b (at_acknowledged r)) (with_acknowledgement stamp);;
      row ← matching_row i;
      lift (record row)
    else mret current).

(** [_recover]. *)
Definition recover (p : attempt_row → bool) : M (list attempt_row) (option AgentAttemptRecord) :=
  rows ← find_rows p;
  match rows with
  | [] => mret None
  | [row] => current ← lift (record row); mret (Some current)
  | _ => throw EAgentState "state has multiple unresolved attempts"
  end.

Definition recover_active : M (list attempt_row) (option AgentAttemptRecord) := recover is_active.
Definition recover_pending : M (list attempt_row) (option AgentAttemptRecord) :=
  recover (λ r, negb (is_active r) && is_None_b (at_acknowledged r)).

(** ** What a record says of its row *)

Definition same_attempt (i j : attempt_identity) : Prop := message_key i = message_key j ∧ id_fence i = id_fence j.

(** The clock readings of a row, in order. *)
Record row_times (r : attempt_row) (created updated : Z) (finished acknowledged : option Z) : Prop := {
  rt_created : fromisoformat (at_created r) = Some created;
  rt_updated : fromisoformat (at_updated r) = Some updated;
  rt_finished : option_Forall2 (λ s t, fromisoformat s = Some t) (at_finished r) finished;
  rt_acknowledged : option_Forall2 (λ s t, fromisoformat s = Some t) (at_acknowledged r) acknowledged;
  rt_forward : (created <= updated)%Z;
  rt_finish : ∀ f, finished = Some f → (created <= f <= updated)%Z;
  rt_acknowledge : ∀ a, acknowledged = Some a → ∃ f, finished = Some f ∧ (f <= a <= updated)%Z
}.

Record coherent (r : attempt_row) (a : AgentAttemptRecord) : Prop := {
  co_copy : a = Attempt (ar_claim a) (at_fence r) (at_state r) (at_sequence r) (ar_progress a) (ar_result a)
                  (at_created r) (at_updated r) (at_finished r) (at_acknowledged r) (at_claim r) (at_progress r)
                  (at_result r);
  co_claim : text_of (at_claim r) (ar_claim a);
  co_progress : option_Forall2 text_of (at_progress r) (ar_progress a);
  co_result : option_Forall2 text_of (at_result r) (ar_result a);
  co_key : message_key (claim_identity (ar_claim a)) = row_key r;
  co_fence : id_fence (claim_identity (ar_claim a)) = at_fence r;
  co_progress_match p : ar_progress a = Some p →
    same_attempt (claim_identity (ar_claim a)) (progress_identity p)
    ∧ (id_deadline (claim_identity (ar_claim a)) <= id_deadline (progress_identity p))%Z;
  co_result_match v : ar_result a = Some v →
    same_attempt (claim_identity (ar_claim a)) (result_identity v)
    ∧ id_deadline (claim_identity (ar_claim a)) = id_deadline (result_identity v);
  co_times : ∃ created updated finished acknowledged, row_times r created updated finished acknowledged;
  co_sequence : (0 <= at_sequence r)%Z ∧ (at_sequence r = 0%Z ↔ at_progress r = None);
  co_active : at_state r = "active" → at_result r = None ∧ at_finished r = None ∧ at_acknowledged r = None;
  co_terminal : at_state r ≠ "active" →
    is_Some (at_finished r) ∧ ∃ v, ar_result a = Some v ∧ result_state v = at_state r
}.

Lemma optional_ok {A B} (f : A → result B) o x :
  optional f o = Ok x ↔ option_Forall2 (λ a b, f a = Ok b) o x.
Proof.
  destruct o as [a|], x as [b|]; cbn.
  - split; [intros H; inv_run_all; constructor; congruence|]. intros H. inversion H; subst.
    match goal with E : f a = _ |- _ => by rewrite E end.
  - split; [intros H; inv_run_all; done|inversion 1].
  - split; [done|inversion 1].
  - split; [constructor|done].
Qed.

Lemma unless_None_ok {A} (o : option A) f u : unless_None o f = Ok u ↔ ∀ a, o = Some a → f a = Ok ().
Proof. destruct o as [a|], u; cbn; (split; [by intros H ? [= <-]|by intros H; rewrite ?(H _ eq_refl)]). Qed.

Lemma stored_value_ok {A} (r : result A) a : stored r = Ok a ↔ r = Ok a.
Proof. destruct r as [b|[c m]]; cbn; [done|]. by destruct c. Qed.

Lemma stored_match_ok r u : stored_match r = Ok u ↔ r = Ok u.
Proof. destruct r as [b|[c m]]; cbn; [done|]. by destruct c. Qed.

Lemma protocol_identity_ok i j u : require_protocol_identity i j = Ok u ↔ same_attempt i j.
Proof. unfold require_protocol_identity, conflict_check. by rewrite ensure_ok, andb_true_iff, !eqb_true. Qed.

Lemma parse_time_ok s t : parse_time s = Ok t ↔ fromisoformat s = Some t.
Proof. unfold parse_time. destruct (fromisoformat s); split; (done || by intros [= <-]). Qed.

Lemma require_progress_ok claim latest progress u :
  require_progress_match claim latest progress = Ok u ↔
  same_attempt (claim_identity claim) (progress_identity progress)
  ∧ (match latest with Some l => id_deadline (progress_identity l) | None => id_deadline (claim_identity claim) end
     <= id_deadline (progress_identity progress))%Z
  ∧ ∀ l, latest = Some l → wants_cancel l = true → wants_cancel progress = true.
Proof.
  destruct u. unfold require_progress_match, conflict_check. split.
  - intros H. inv_run_all. match goal with H : require_protocol_identity _ _ = Ok ?u |- _ => apply protocol_identity_ok in H end.
    bool_facts. split_and!; [done|by destruct latest|]. intros l -> Hl. rewrite Hl in *. by destruct (wants_cancel progress).
  - intros (H1 & H2 & H3). rewrite (proj2 (protocol_identity_ok _ _ ()) H1). cbn [mbind result_bind].
    unfold ensure. rewrite (proj2 (Z.ltb_ge _ _)) by by destruct latest. cbn [negb].
    destruct latest as [l|]; cbn [mbind result_bind]; [|done]. destruct (wants_cancel l) eqn:El; [|done]. by rewrite (H3 _ eq_refl).
Qed.

Lemma require_match_ok i j u :
  require_protocol_match i j = Ok u ↔ same_attempt i j ∧ id_deadline i = id_deadline j.
Proof.
  destruct u. unfold require_protocol_match, conflict_check. split.
  - intros H. inv_run_all. bool_facts. split; [by eapply protocol_identity_ok|done].
  - intros [H1 H2]. rewrite (proj2 (protocol_identity_ok _ _ ()) H1). cbn [mbind result_bind]. by rewrite H2, Z.eqb_refl.
Qed.

Lemma optional_text `{Message A} (o : option string) (x : option A) m :
  option_Forall2 text_of o x ↔
  optional read_message o = Ok x ∧ unless_None x (λ a, state_check (eqb (Some (canonical_message a)) o) m) = Ok ().
Proof.
  rewrite optional_ok. unfold state_check. split.
  - intros Hx. destruct Hx as [s a Ht|]; [|by split; [constructor|]]. apply text_of_read in Ht as [Hr <-].
    split; [by constructor|]. cbn. by rewrite eqb_refl.
  - intros [Hx Hu]. destruct Hx as [s a Ht|]; constructor. cbn in Hu. apply ensure_ok in Hu. bool_facts.
    apply text_of_read. split; [done|congruence].
Qed.

Lemma optional_time o x : option_Forall2 (λ s t, fromisoformat s = Some t) o x ↔ optional parse_time o = Ok x.
Proof.
  rewrite optional_ok. split; (destruct 1 as [s t Ht|]; constructor; by apply parse_time_ok).
Qed.

Lemma option_Forall2_None {A B} (P : A → B → Prop) o x : option_Forall2 P o x → is_None_b o = is_None_b x.
Proof. by destruct 1. Qed.

Lemma option_Forall2_Some {A B} (P : A → B → Prop) o x : option_Forall2 P o x → is_Some_b o = is_Some_b x.
Proof. by destruct 1. Qed.

Lemma is_Some_b_true {A} (o : option A) : is_Some_b o = true ↔ is_Some o.
Proof. destruct o; (split; [by eauto|]); [done|by intros [? [=]]]. Qed.

Lemma is_Some_b_false {A} (o : option A) : is_Some_b o = false ↔ o = None.
Proof. by destruct o. Qed.

Tactic Notation "peel" ident(H) ident(x) ident(Hx) := apply result_bind_ok in H as (x & Hx & H).

Lemma record_coherent r a : record r = Ok a → coherent r a.
Proof.
  unfold record. rewrite stored_value_ok. intros H.
  peel H claim Hc. peel H progress Hp. peel H value Hv. peel H u1 Hc'. peel H u2 Hp'. peel H u3 Hv'.
  peel H u4 Hi. peel H u5 Hpm. peel H u6 Hvm. peel H created Ht. peel H updated Hu. peel H finished Hf.
  peel H acknowledged Hk. unfold state_check in H, Hc', Hi. inv_run_all. subst a. repeat match goal with u : unit |- _ => destruct u end.
  assert (option_Forall2 text_of (at_progress r) progress) as Hp2 by (apply (optional_text _ _ "stored progress is not canonical"); done).
  assert (option_Forall2 text_of (at_result r) value) as Hv2 by (apply (optional_text _ _ "stored result is not canonical"); done).
  apply optional_time in Hf, Hk. apply parse_time_ok in Ht, Hu. rewrite unless_None_ok in Hpm. rewrite unless_None_ok in Hvm.
  pose proof (option_Forall2_None _ _ _ Hp2) as Ep. pose proof (option_Forall2_Some _ _ _ Hv2) as Ev.
  pose proof (option_Forall2_Some _ _ _ Hf) as Ef. pose proof (option_Forall2_Some _ _ _ Hk) as Ek. bool_facts.
  constructor; cbn; try done.
  - apply text_of_read. by split.
  - intros p Hpe. specialize (Hpm _ Hpe). apply stored_match_ok, require_progress_ok in Hpm. naive_solver.
  - intros v Hve. specialize (Hvm _ Hve). by apply stored_match_ok, require_match_ok in Hvm.
  - eexists _, _, _, _. constructor; [done..| |].
    + intros f ->. bool_facts. lia.
    + intros k ->. destruct finished as [f|]; [|done]. bool_facts. exists f. split; [done|lia].
  - split; [done|]. rewrite <- is_None_b_true, Ep, <- Z.eqb_eq. by rewrite <- H1.
  - intros Ha. unfold is_active in *. rewrite Ha, eqb_refl in *. cbn in *. bool_facts.
    rewrite <- !is_Some_b_false. split_and!; congruence.
  - intros Ha. unfold is_active in *. rewrite (proj2 (eqb_false _ _) Ha) in *. cbn in *.
    destruct value as [v|]; [|done]. bool_facts. split; [apply is_Some_b_true; congruence|by eauto].
Qed.

Lemma ensure_step {A} b c m (k : result A) x : b = true → k = Ok x → (ensure b c m;; k) = Ok x.
Proof. by intros -> ->. Qed.

Lemma coherent_record r a : coherent r a → record r = Ok a.
Proof.
  intros [Ecopy Hc Hp Hv Hkey Hfence Hpm Hvm (created & updated & finished & acknowledged & Ht) Hseq Hact Hterm].
  apply text_of_read in Hc as [Hc1 Hc2].
  apply (optional_text _ _ "stored progress is not canonical") in Hp as Hp'. destruct Hp' as [Hp1 Hp2].
  apply (optional_text _ _ "stored result is not canonical") in Hv as Hv'. destruct Hv' as [Hv1 Hv2].
  destruct Ht as [Htc Htu Htf Hta Hfw Hfin Hack].
  assert (unless_None (ar_progress a) (λ p, stored_match (require_progress_match (ar_claim a) None p)) = Ok ()) as Hpm'.
  { apply unless_None_ok. intros p Hpe. apply stored_match_ok, require_progress_ok. destruct (Hpm _ Hpe). naive_solver. }
  assert (unless_None (ar_result a) (λ v, stored_match (require_protocol_match (claim_identity (ar_claim a)) (result_identity v))) = Ok ()) as Hvm'.
  { apply unless_None_ok. intros v Hve. apply stored_match_ok, require_match_ok. by apply Hvm. }
  unfold record. apply stored_value_ok. rewrite Hc1. cbn [mbind result_bind]. rewrite Hp1. cbn [mbind result_bind].
  rewrite Hv1. cbn [mbind result_bind]. rewrite Hc2, eqb_refl. unfold state_check at 1. cbn [ensure mbind result_bind].
  rewrite Hp2. cbn [mbind result_bind]. rewrite Hv2. cbn [mbind result_bind].
  rewrite Hkey, Hfence, !eqb_refl. unfold state_check at 1. cbn [andb ensure mbind result_bind].
  rewrite Hpm'. cbn [mbind result_bind]. rewrite Hvm'. cbn [mbind result_bind].
  rewrite (proj2 (parse_time_ok _ _) Htc). cbn [mbind result_bind]. rewrite (proj2 (parse_time_ok _ _) Htu). cbn [mbind result_bind].
  rewrite (proj1 (optional_time _ _) Htf). cbn [mbind result_bind]. rewrite (proj1 (optional_time _ _) Hta). cbn [mbind result_bind].
  pose proof (option_Forall2_None _ _ _ Hp) as Ep. pose proof (option_Forall2_Some _ _ _ Hv) as Ev.
  pose proof (option_Forall2_Some _ _ _ Htf) as Ef. pose proof (option_Forall2_Some _ _ _ Hta) as Ek.
  unfold state_check. repeat apply ensure_step; [done|done|..|by rewrite <- Ecopy].
  - apply negb_true_iff, Z.ltb_ge, Hseq.
  - apply eqb_true. rewrite <- Ep. apply eq_true_iff_eq. rewrite Z.eqb_eq, is_None_b_true. apply Hseq.
  - apply negb_true_iff, Z.ltb_ge, Hfw.
  - destruct finished as [f|]; [|done]. destruct (Hfin _ eq_refl). apply negb_true_iff, orb_false_iff. by rewrite !Z.ltb_ge.
  - destruct acknowledged as [k|]; [|done]. destruct (Hack _ eq_refl) as (f & -> & ? & ?).
    apply negb_true_iff, orb_false_iff. by rewrite !Z.ltb_ge.
  - unfold is_active. destruct (eqb (at_state r) "active") eqn:E; [|done]. bool_facts. destruct (Hact E) as (E1 & E2 & E3).
    rewrite <- Ev, <- Ef, <- Ek, E1, E2, E3. done.
  - unfold is_active. destruct (eqb (at_state r) "active") eqn:E; [done|]. bool_facts.
    destruct (Hterm E) as (Hf & v & -> & ->). rewrite <- Ef, (proj2 (is_Some_b_true _) Hf), eqb_refl. done.
Qed.

Lemma record_spec r a : record r = Ok a ↔ coherent r a.
Proof. split; [apply record_coherent|apply coherent_record]. Qed.
