(* ===== verification/AttemptFacts.v ===== *)
(** * Facts about the operation journal of an agent

    [journal]: the constraints of the table hold and every row reads back. Every
    call keeps it, moves every attempt forward only, and is a step of a single slot
    that runs one claim, then reports its result, then is free. *)

From S2P Require Import Prelude Identifiers Canonical Documents JsonText Datetimes Contracts PackageEngine Protocol Messages.
From S2P Require Import AttemptStore.

#[local] Opaque isoformat fromisoformat canonical_message.

(** ** Journals *)

Definition readable (r : attempt_row) : Prop := ∃ a, record r = Ok a.

Record journal (t : list attempt_row) : Prop := {
  jo_constraints : table_constraints t = true;
  jo_readable : Forall readable t
}.

Lemma constraints_facts t : table_constraints t = true ↔
  Forall (λ r, row_constraints r = true) t ∧ NoDup (map row_key t) ∧ NoDup (map at_fence t)
  ∧ (length (filter (λ r, is_unresolved r = true) t) <= 1)%nat.
Proof.
  unfold table_constraints. rewrite !andb_true_iff, !distinct_true, forallb_forall, Z.leb_le, Forall_forall.
  setoid_rewrite list_elem_of_In. split; intros; destruct_and!; split_and!; (done || lia).
Qed.

(** A key names one row. *)
Lemma key_names_row t r s : journal t → r ∈ t → s ∈ t → row_key r = row_key s → r = s.
Proof.
  intros [(_ & Hnd & _)%constraints_facts _] Hr Hs E. apply list_elem_of_lookup in Hr as [i Hi], Hs as [j Hj].
  assert (i = j) as ->; [|congruence]. eapply NoDup_lookup; [exact Hnd| |]; rewrite list_lookup_fmap.
  - by rewrite Hi.
  - rewrite Hj. cbn. by f_equal.
Qed.

Definition names (i : attempt_identity) (r : attempt_row) : Prop :=
  row_key r = message_key i ∧ at_fence r = id_fence i.

Lemma find_rows_ok p t rows t' : find_rows p t = (Ok rows, t') → rows = filter (λ r, p r = true) t ∧ t' = t.
Proof. unfold find_rows. intros H. inv_run_all. by subst. Qed.

Lemma keyed_rows_ok i p t rows t' : keyed_rows i p t = (Ok rows, t') →
  rows = filter (λ r, eqb (row_key r) (message_key i) && p r = true) t ∧ t' = t.
Proof. unfold keyed_rows. intros H. inv_run_all. by apply find_rows_ok in H. Qed.

Lemma matching_row_ok i t row t' : matching_row i t = (Ok row, t') → t' = t ∧ row ∈ t ∧ names i row.
Proof.
  unfold matching_row. intros H. inv_run_all.
  match goal with H : keyed_rows _ _ _ = _ |- _ => apply keyed_rows_ok in H as [E ->] end.
  destruct (filter _ t) as [|r0 l] eqn:Ef; subst; [by inv_run_all|]. inv_run_all.
  assert (r0 ∈ filter (λ r, eqb (row_key r) (message_key i) && eqb (at_fence r) (id_fence i) = true) t) as Hin
    by (rewrite Ef; left).
  apply list_elem_of_filter in Hin as [Hk Hin]. bool_facts. done.
Qed.

(** An update by the identity of a message writes one row. *)
Lemma update_one t row i p f : journal t → row ∈ t → names i row → p row = true →
  ∃ l k, t = l ++ row :: k
    ∧ map (λ r, if eqb (row_key r) (message_key i) && eqb (at_fence r) (id_fence i) && p r then f r else r) t
      = l ++ f row :: k.
Proof.
  intros Hj Hin [Hk Hf] Hp. apply list_elem_of_split in Hin as (l & k & ->). exists l, k. split; [done|].
  rewrite map_app, map_cons, Hk, Hf, !eqb_refl, Hp. cbn [andb].
  destruct Hj as [(_ & Hnd & _)%constraints_facts _]. rewrite map_app, map_cons, NoDup_app, NoDup_cons in Hnd.
  destruct Hnd as (_ & Hl & Hk' & _).
  assert (∀ r, r ∈ l ∨ r ∈ k → row_key r ≠ message_key i) as Hother.
  { rewrite <- Hk. intros r [Hr|Hr] E.
    - destruct (Hl (row_key r)); [by apply list_elem_of_fmap_2|]. rewrite E. left.
    - destruct Hk'. rewrite <- E. by apply list_elem_of_fmap_2. }
  assert (∀ m, (∀ r, r ∈ m → row_key r ≠ message_key i) →
            map (λ r, if eqb (row_key r) (message_key i) && eqb (at_fence r) (id_fence i) && p r then f r else r) m = m) as Hm.
  { intros m Hm. etrans; [|apply map_id]. apply map_ext_in. intros r Hr%list_elem_of_In.
    by rewrite (proj2 (eqb_false _ _) (Hm r Hr)). }
  rewrite !Hm by auto. done.
Qed.

(** A committed update: the row it wrote reads back. *)
Lemma update_committed t row i p f a t' : journal t → row ∈ t → names i row → p row = true →
  row_key (f row) = row_key row → at_fence (f row) = at_fence row →
  (update_rows i p f;; r ← matching_row i; lift (record r)) t = (Ok a, t') →
  ∃ l k, t = l ++ row :: k ∧ t' = l ++ f row :: k ∧ record (f row) = Ok a ∧ journal t'.
Proof.
  intros Hj Hin Hn Hp Hk Hf H. destruct (update_one t row i p f Hj Hin Hn Hp) as (l & k & El & Em).
  pose proof (jo_readable _ Hj) as Hread. rewrite El, Forall_app, Forall_cons in Hread. destruct Hread as (Hl & _ & Hk').
  unfold update_rows, write_table in H. inv_run_all. rewrite Em in *.
  match goal with H : matching_row _ _ = _ |- _ => apply matching_row_ok in H as (-> & Hr & Hr') end.
  match goal with H : table_constraints _ = true |- _ => rename H into Hc end.
  assert (∀ r, r ∈ l ++ f row :: k → names i r → r = f row) as Huniq.
  { intros r Hr1 [Hr2 _]. pose proof (proj1 (proj2 (proj1 (constraints_facts _) Hc))) as Hnd.
    apply list_elem_of_lookup in Hr1 as [n Hn1].
    assert ((l ++ f row :: k) !! length l = Some (f row)) as Hn2 by by apply list_lookup_middle.
    assert (n = length l) as ->; [|congruence]. eapply NoDup_lookup; [exact Hnd| |]; rewrite list_lookup_fmap.
    - by rewrite Hn1.
    - rewrite Hn2. cbn. by rewrite Hk, (proj1 Hn), Hr2. }
  rewrite (Huniq _ Hr Hr') in H. exists l, k. split_and!; [done..|]. constructor; [done|].
  rewrite Forall_app, Forall_cons. split_and!; [done| |done]. by eexists.
Qed.

(** ** Committed calls *)

Lemma state_operation_ok {A} (m : M (list attempt_row) A) t a t' :
  state_operation m t = (Ok a, t') → m t = (Ok a, t').
Proof.
  unfold state_operation. intros [H|(e & s & _ & H)]%try_catch_ok; [by inv_run_all|].
  destruct (eqb _ _); by inv_run_all.
Qed.

Lemma attempt_heartbeat_ok t now p race a t' : journal t → heartbeat now p race t = (Ok a, t') →
  ∃ row current, row ∈ t ∧ names (progress_identity p) row ∧ record row = Ok current
    ∧ require_progress_match (ar_claim current) (ar_progress current) p = Ok ()
    ∧ (at_state row ≠ "active" ∧ t' = t
       ∨ at_state row = "active" ∧ ∃ l k stamp, nondecreasing_timestamp now (at_updated row) = Ok stamp
           ∧ t = l ++ row :: k ∧ t' = l ++ with_progress (canonical_message p) stamp row :: k
           ∧ record (with_progress (canonical_message p) stamp row) = Ok a ∧ journal t').
Proof.
  intros Hj H%state_operation_ok. apply M_bind_ok in H as (row & t1 & (-> & Hin & Hn)%matching_row_ok & H).
  apply M_bind_ok in H as (current & t2 & [Hr <-]%lift_ok & H). apply M_bind_ok in H as ([] & t3 & [Hm <-]%lift_ok & H).
  pose proof (record_coherent _ _ Hr) as Hc. rewrite (co_copy _ _ Hc) in H. cbn [ar_state ar_updated ar_result ar_claim] in H.
  exists row, current. split_and!; [done..|]. destruct (eqb (at_state row) "active") eqn:E; cbn [negb] in H; bool_facts.
  - right. split; [done|]. apply M_bind_ok in H as (stamp & t3 & [Hs <-]%lift_ok & H).
    apply update_committed with (row := row) in H as (l & k & -> & -> & ? & ?); [|first [done|by apply eqb_true]..].
    by exists l, k, stamp.
  - left. split; [done|]. destruct (race && _); by inv_run_all.
Qed.

Lemma finish_ok t now v a t' : journal t → finish now v t = (Ok a, t') →
  ∃ row current, row ∈ t ∧ names (result_identity v) row ∧ record row = Ok current
    ∧ require_protocol_match (claim_identity (ar_claim current)) (result_identity v) = Ok ()
    ∧ (at_state row ≠ "active" ∧ t' = t ∧ a = current ∧ at_result row = Some (canonical_message v)
       ∨ at_state row = "active" ∧ ∃ l k stamp, nondecreasing_timestamp now (at_updated row) = Ok stamp
           ∧ t = l ++ row :: k ∧ t' = l ++ with_result (result_state v) (canonical_message v) stamp row :: k
           ∧ record (with_result (result_state v) (canonical_message v) stamp row) = Ok a ∧ journal t').
Proof.
  intros Hj H%state_operation_ok. apply M_bind_ok in H as (row & t1 & (-> & Hin & Hn)%matching_row_ok & H).
  apply M_bind_ok in H as (current & t2 & [Hr <-]%lift_ok & H). apply M_bind_ok in H as ([] & t3 & [Hm <-]%lift_ok & H).
  pose proof (record_coherent _ _ Hr) as Hc. rewrite (co_copy _ _ Hc) in H. cbn [ar_state ar_updated ar_canonical_result] in H.
  exists row, current. split_and!; [done..|]. destruct (eqb (at_state row) "active") eqn:E; cbn [negb] in H; bool_facts.
  - right. split; [done|]. apply M_bind_ok in H as (stamp & t3 & [Hs <-]%lift_ok & H).
    apply update_committed with (row := row) in H as (l & k & -> & -> & ? & ?); [|first [done|by apply eqb_true]..].
    by exists l, k, stamp.
  - left. destruct (eqb (at_result row) _) eqn:Er; bool_facts; inv_run_all. split_and!; [done..| |done].
    by rewrite <- (co_copy _ _ Hc) in *.
Qed.

Lemma acknowledge_ok t now v a t' : journal t → acknowledge now v t = (Ok a, t') →
  ∃ row current, row ∈ t ∧ names (result_identity v) row ∧ record row = Ok current
    ∧ require_protocol_match (claim_identity (ar_claim current)) (result_identity v) = Ok ()
    ∧ at_state row ≠ "active" ∧ at_result row = Some (canonical_message v)
    ∧ (is_Some (at_acknowledged row) ∧ t' = t
       ∨ at_acknowledged row = None ∧ ∃ l k stamp, nondecreasing_timestamp now (at_updated row) = Ok stamp
           ∧ t = l ++ row :: k ∧ t' = l ++ with_acknowledgement stamp row :: k
           ∧ record (with_acknowledgement stamp row) = Ok a ∧ journal t').
Proof.
  intros Hj H%state_operation_ok. apply M_bind_ok in H as (row & t1 & (-> & Hin & Hn)%matching_row_ok & H).
  apply M_bind_ok in H as (current & t2 & [Hr <-]%lift_ok & H). apply M_bind_ok in H as ([] & t3 & [Hm <-]%lift_ok & H).
  apply M_bind_ok in H as ([] & t4 & [Hs <-]%lift_ok & H). apply ensure_ok in Hs.
  pose proof (record_coherent _ _ Hr) as Hc. rewrite (co_copy _ _ Hc) in H, Hs.
  cbn [ar_state ar_updated ar_canonical_result ar_acknowledged] in H, Hs. bool_facts.
  exists row, current. split_and!; [done..|]. destruct (at_acknowledged row) as [s|] eqn:E; cbn [is_None_b] in H.
  - left. split; [done|]. by inv_run_all.
  - right. split; [done|]. apply M_bind_ok in H as (stamp & t3 & [Ht <-]%lift_ok & H).
    apply update_committed with (row := row) in H as (l & k & -> & -> & ? & ?); [|first [done|by apply is_None_b_true]..].
    by exists l, k, stamp.
Qed.

(** What [begin] requires of a claim it has not seen. *)
Record admits (t : list attempt_row) (i : attempt_identity) : Prop := {
  ad_key : message_key i ∉ map row_key t;
  ad_fence : id_fence i ∉ map at_fence t;
  ad_newest : ∀ h, highest_attempt t i = Some h → (h < id_attempt i)%Z;
  ad_resolved : ∀ r, r ∈ t → is_unresolved r = false
}.

Lemma filter_none {A} (p : A → bool) l : filter (λ x, p x = true) l = [] ↔ ∀ x, x ∈ l → p x = false.
Proof.
  split.
  - intros H x Hx. destruct (p x) eqn:E; [|done]. assert (x ∈ filter (λ x, p x = true) l) as Hin by by apply list_elem_of_filter.
    rewrite H in Hin. by apply elem_of_nil in Hin.
  - intros H. destruct (filter _ l) as [|x k] eqn:E; [done|]. assert (x ∈ filter (λ x, p x = true) l) as Hin by (rewrite E; left).
    apply list_elem_of_filter in Hin as [Hp Hin]. by rewrite H in Hp.
Qed.

Lemma not_in_map {A B} `{EqDecision B} (f : A → B) (b : B) l : b ∉ map f l ↔ ∀ x, x ∈ l → eqb (f x) b = false.
Proof.
  setoid_rewrite eqb_false. split; [intros H x Hx E; apply H; subst; by apply list_elem_of_fmap_2|].
  intros H (x & E & Hx)%list_elem_of_fmap. by apply (H x).
Qed.

Lemma nonempty_false {A} (l : list A) : negb (nonempty l) = true ↔ l = [].
Proof. by destruct l. Qed.

Lemma begin_ok t now claim a t' : journal t → begin now claim t = (Ok a, t') →
  (∃ row, row ∈ t ∧ names (claim_identity claim) row ∧ at_claim row = canonical_message claim ∧ record row = Ok a ∧ t' = t)
  ∨ (admits t (claim_identity claim) ∧ t' = t ++ [new_row claim now] ∧ record (new_row claim now) = Ok a ∧ journal t').
Proof.
  intros Hj H. unfold begin in H. apply try_catch_ok in H as [H|(e & s & _ & H)]; [|destruct (eqb _ _); by inv_run_all].
  apply (proj1 (transaction_ok _ _ _ _)) in H. apply M_bind_ok in H as (rows & t1 & [-> ->]%keyed_rows_ok & H).
  destruct (filter _ t) as [|row l] eqn:Ef.
  - right. apply M_bind_ok in H as (used & t2 & [-> ->]%find_rows_ok & H).
    apply M_bind_ok in H as ([] & t3 & [Hf <-]%lift_ok & H). apply M_bind_ok in H as (t4 & t5 & [-> ->]%get_ok & H).
    apply M_bind_ok in H as ([] & t3 & [Hh <-]%lift_ok & H). apply M_bind_ok in H as (rows & t6 & [-> ->]%find_rows_ok & H).
    apply M_bind_ok in H as ([] & t3 & [Hu <-]%lift_ok & H). apply M_bind_ok in H as ([] & t7 & Hw & H).
    unfold write_table in Hw. inv_run_all. match goal with H : keyed_rows _ _ _ = _ |- _ => apply keyed_rows_ok in H as [E ->] end.
    apply ensure_ok in Hf, Hh, Hu. rewrite nonempty_false in Hf, Hu. rewrite filter_none in Hf. rewrite filter_none in Hu. rewrite filter_none in Ef.
    rewrite filter_app in E. rewrite (proj2 (filter_none _ _) Ef) in E. rewrite filter_cons_True in E by by rewrite !eqb_refl.
    subst. cbn [app] in H. inv_run_all. split_and!; [|done..|].
    + constructor.
      * apply not_in_map. intros r Hr. specialize (Ef _ Hr). by rewrite andb_true_r in Ef.
      * by apply not_in_map.
      * intros h Hh'. rewrite Hh' in Hh. bool_facts. lia.
      * done.
    + constructor; [done|]. rewrite Forall_app. split; [apply Hj|]. constructor; [by eexists|done].
  - left. assert (row ∈ filter (λ r, eqb (row_key r) (message_key (claim_identity claim)) && true = true) t) as Hin
      by (rewrite Ef; left). apply list_elem_of_filter in Hin as [Hk Hin]. rewrite andb_true_r in Hk. bool_facts.
    apply M_bind_ok in H as (current & t2 & [Hr <-]%lift_ok & H). pose proof (record_coherent _ _ Hr) as Hc.
    destruct (eqb (ar_fence current) _ && _) eqn:E; inv_run_all. bool_facts. rewrite (co_copy _ _ Hc) in *. cbn in *.
    exists row. by split_and!.
Qed.

(** ** Attempts move forward *)

Definition reported {B} (f : AgentAttemptRecord → B) (d : B) (r : attempt_row) : B :=
  match record r with Ok a => f a | Err _ => d end.

(** The deadline and the intent to cancel that the agent knows of. *)
Definition latest_deadline (a : AgentAttemptRecord) : Z :=
  match ar_progress a with
  | Some p => id_deadline (progress_identity p)
  | None => id_deadline (claim_identity (ar_claim a))
  end.
Definition cancel_known (a : AgentAttemptRecord) : bool :=
  match ar_progress a with Some p => wants_cancel p | None => false end.
Definition updated_at (r : attempt_row) : Z := default 0%Z (fromisoformat (at_updated r)).

Record row_advances (r r' : attempt_row) : Prop := {
  ra_key : row_key r' = row_key r;
  ra_fence : at_fence r' = at_fence r;
  ra_claim : at_claim r' = at_claim r;
  ra_created : at_created r' = at_created r;
  ra_sequence : (at_sequence r <= at_sequence r')%Z;
  ra_deadline : (reported latest_deadline 0 r <= reported latest_deadline 0 r')%Z;
  ra_cancel : reported cancel_known false r = true → reported cancel_known false r' = true;
  ra_updated : (updated_at r <= updated_at r')%Z;
  ra_result : at_state r ≠ "active" → at_state r' = at_state r ∧ at_result r' = at_result r
    ∧ at_finished r' = at_finished r ∧ at_progress r' = at_progress r;
  ra_acknowledged : is_Some (at_acknowledged r) → r' = r
}.

#[export] Instance row_advances_preorder : PreOrder row_advances.
Proof.
  split.
  - intros r. by constructor.
  - intros r s u [] []. constructor; try (congruence || lia || auto).
    + intros Ha. destruct (ra_result0 Ha) as (? & ? & ? & ?), ra_result1 as (? & ? & ? & ?); [congruence|]. split_and!; congruence.
    + intros Ha. by rewrite (ra_acknowledged1 ltac:(by rewrite (ra_acknowledged0 Ha))), (ra_acknowledged0 Ha).
Qed.

(** The attempts of the table stay, in order, and new ones are added at its end. *)
Definition table_advances (t t' : list attempt_row) : Prop :=
  ∃ kept new, t' = kept ++ new ∧ Forall2 row_advances t kept.

#[export] Instance table_advances_preorder : PreOrder table_advances.
Proof.
  split.
  - intros t. exists t, []. split; [by rewrite app_nil_r|]. by apply Forall_Forall2_diag, Forall_true.
  - intros t u v (ku & nu & -> & Hu) (kv & nv & -> & Hv).
    apply Forall2_app_inv_l in Hv as (k1 & k2 & H1 & H2 & ->). exists k1, (k2 ++ nv). split; [by rewrite (assoc_L (++))|].
    by transitivity ku.
Qed.

Lemma replace_advances l r r' k : row_advances r r' → table_advances (l ++ r :: k) (l ++ r' :: k).
Proof.
  intros Hr. exists (l ++ r' :: k), []. split; [by rewrite app_nil_r|]. apply Forall2_app; [|constructor; [done|]];
    by apply Forall_Forall2_diag, Forall_true.
Qed.

Lemma append_advances t r : table_advances t (t ++ [r]).
Proof. exists t, [r]. split; [done|]. by apply Forall_Forall2_diag, Forall_true. Qed.

Lemma timestamp_forward now previous stamp : nondecreasing_timestamp now previous = Ok stamp →
  ∃ t u, fromisoformat previous = Some t ∧ fromisoformat stamp = Some u ∧ (t <= u)%Z.
Proof.
  unfold nondecreasing_timestamp. intros (t & Ht%parse_time_ok & (c & Hc%parse_time_ok & [= <-])%result_bind_ok)%result_bind_ok.
  exists t, (Z.max t c). split_and!; [done| |lia]. apply fromisoformat_isoformat.
  destruct (Z.max_spec t c) as [[_ ->]|[_ ->]]; by eapply fromisoformat_range.
Qed.

Lemma reported_ok {B} (f : AgentAttemptRecord → B) d r a : record r = Ok a → reported f d r = f a.
Proof. unfold reported. by intros ->. Qed.

Lemma updated_forward r now stamp : nondecreasing_timestamp now (at_updated r) = Ok stamp →
  (updated_at r <= default 0%Z (fromisoformat stamp))%Z.
Proof. unfold updated_at. by intros (t & u & -> & -> & ?)%timestamp_forward. Qed.

(** The messages of a record are those its texts stand for. *)
Lemma record_progress r a p : record r = Ok a → at_progress r = Some (canonical_message p) → valid p → ar_progress a = Some p.
Proof.
  intros Hc%record_coherent E Hp. pose proof (co_progress _ _ Hc) as H. rewrite E in H. inversion H as [? q [Hq Et] |]; subst.
  f_equal. by apply canonical_message_inj.
Qed.

Lemma record_result r a v : record r = Ok a → at_result r = Some (canonical_message v) → valid v → ar_result a = Some v.
Proof.
  intros Hc%record_coherent E Hv. pose proof (co_result _ _ Hc) as H. rewrite E in H. inversion H as [? q [Hq Et] |]; subst.
  f_equal. by apply canonical_message_inj.
Qed.

Lemma record_claim r a c : record r = Ok a → at_claim r = canonical_message c → valid c → ar_claim a = c.
Proof.
  intros Hc%record_coherent E Hv. destruct (co_claim _ _ Hc) as [H1 H2]. symmetry. apply canonical_message_inj; [done..|congruence].
Qed.

(** Records of one claim and one progress text agree on both. *)
Lemma record_same_claim r r' a a' : record r = Ok a → record r' = Ok a' → at_claim r = at_claim r' → ar_claim a = ar_claim a'.
Proof.
  intros Ha Ha' E. pose proof (co_claim _ _ (record_coherent _ _ Ha')) as [Hv Ht]. eapply record_claim; [done|congruence|done].
Qed.

Lemma record_same_progress r r' a a' : record r = Ok a → record r' = Ok a' → at_progress r = at_progress r' →
  ar_progress a = ar_progress a'.
Proof.
  intros Ha Ha' E. pose proof (co_progress _ _ (record_coherent _ _ Ha')) as H.
  destruct (at_progress r') as [s|] eqn:Es; inversion H as [? p [Hp ->]|]; subst.
  - by eapply record_progress.
  - pose proof (co_progress _ _ (record_coherent _ _ Ha)) as H'. rewrite E in H'. by inversion H'.
Qed.

Lemma progress_advances r a a' p now stamp : record r = Ok a → at_state r = "active" → valid p →
  require_progress_match (ar_claim a) (ar_progress a) p = Ok () →
  nondecreasing_timestamp now (at_updated r) = Ok stamp →
  record (with_progress (canonical_message p) stamp r) = Ok a' →
  row_advances r (with_progress (canonical_message p) stamp r).
Proof.
  intros Ha Hact Hp Hm Hs Ha'. set (r' := with_progress _ _ _) in *.
  pose proof (record_progress r' _ p Ha' eq_refl Hp) as Ep.
  apply require_progress_ok in Hm as (_ & Hd & Hk). pose proof (record_coherent _ _ Ha) as Hc.
  constructor; try done.
  - cbn. lia.
  - rewrite (reported_ok _ _ _ _ Ha), (reported_ok _ _ _ _ Ha'). unfold latest_deadline. rewrite Ep. by destruct (ar_progress a).
  - rewrite (reported_ok _ _ _ _ Ha), (reported_ok _ _ _ _ Ha'). unfold cancel_known. rewrite Ep.
    destruct (ar_progress a); [by apply Hk|done].
  - by apply updated_forward in Hs.
  - destruct (co_active _ _ Hc Hact) as (_ & _ & ->). by intros [? ?].
Qed.

(** A write that keeps the progress keeps what is known from it. *)
Lemma same_reports r r' a a' : record r = Ok a → record r' = Ok a' → at_claim r = at_claim r' → at_progress r = at_progress r' →
  reported latest_deadline 0%Z r = reported latest_deadline 0%Z r'
  ∧ reported cancel_known false r = reported cancel_known false r'.
Proof.
  intros Ha Ha' Hc Hp. rewrite !(reported_ok _ _ _ _ Ha), !(reported_ok _ _ _ _ Ha'). unfold latest_deadline, cancel_known.
  by rewrite (record_same_claim _ _ _ _ Ha Ha' Hc), (record_same_progress _ _ _ _ Ha Ha' Hp).
Qed.

Lemma result_advances r a a' v now stamp : record r = Ok a → at_state r = "active" →
  nondecreasing_timestamp now (at_updated r) = Ok stamp →
  record (with_result (result_state v) (canonical_message v) stamp r) = Ok a' →
  row_advances r (with_result (result_state v) (canonical_message v) stamp r).
Proof.
  intros Ha Hact Hs Ha'. destruct (same_reports _ _ _ _ Ha Ha' eq_refl eq_refl) as [E1 E2].
  constructor; try done; [by rewrite E1|by rewrite E2|by apply updated_forward in Hs|].
  destruct (co_active _ _ (record_coherent _ _ Ha) Hact) as (_ & _ & ->). by intros [? ?].
Qed.

Lemma acknowledgement_advances r a a' now stamp : record r = Ok a → at_acknowledged r = None →
  nondecreasing_timestamp now (at_updated r) = Ok stamp →
  record (with_acknowledgement stamp r) = Ok a' → row_advances r (with_acknowledgement stamp r).
Proof.
  intros Ha Hk Hs Ha'. destruct (same_reports _ _ _ _ Ha Ha' eq_refl eq_refl) as [E1 E2].
  constructor; try done; [by rewrite E1|by rewrite E2|by apply updated_forward in Hs|]. rewrite Hk. by intros [? ?].
Qed.

(** ** Calls *)

Inductive store_call :=
| CallBegin (now : Z) (claim : AgentClaim)
| CallHeartbeat (now : Z) (progress : AgentProgress) (allow_terminal_race : bool)
| CallDirective (now : Z) (progress : AgentProgress) (directive : AgentDirective) (allow_terminal_race : bool)
| CallFinish (now : Z) (value : AgentResult)
| CallAcknowledge (now : Z) (value : AgentResult).

Definition run_call (c : store_call) : M (list attempt_row) AgentAttemptRecord :=
  match c with
  | CallBegin now claim => begin now claim
  | CallHeartbeat now progress race => heartbeat now progress race
  | CallDirective now progress directive race => apply_directive now progress directive race
  | CallFinish now value => finish now value
  | CallAcknowledge now value => acknowledge now value
  end.

(** The arguments are messages that their constructors returned. *)
Definition valid_call (c : store_call) : Prop :=
  match c with
  | CallBegin _ claim => valid claim
  | CallHeartbeat _ progress _ => valid progress
  | CallDirective _ progress directive _ => valid progress ∧ valid directive
  | CallFinish _ value | CallAcknowledge _ value => valid value
  end.

Lemma with_cancel_dict document cancel : dict_keys document = true → dict_keys (with_cancel document cancel) = true.
Proof. intros H. destruct document; try done. by apply put_item_dict. Qed.

Lemma durable_valid p d durable : valid p → valid d →
  agent_progress (at_deadline (progress_identity p) (id_deadline (directive_identity d)))
    (with_cancel (progress_document p) (directive_cancel d)) = Ok durable → valid durable.
Proof.
  intros (_ & _ & Hk) (_ & Hd) H. eapply progress_is_valid; [exact H|by apply with_cancel_dict|done].
Qed.

Lemma atomic_try {S A} (m : M S A) (h : exn → M S A) :
  (∀ e s r s', h e s = (r, s') → s' = s) → atomic m → atomic (try_catch m h).
Proof.
  intros Hh Hm s e s'. unfold try_catch. destruct (m s) as [[a|e'] s1] eqn:E; [done|]. intros H.
  rewrite (Hh _ _ _ _ H). by eapply Hm.
Qed.

Lemma state_operation_atomic {A} (m : M (list attempt_row) A) : atomic (state_operation m).
Proof. apply atomic_try; [|apply atomic_transaction]. intros e s r s'. destruct (eqb _ _); by intros [= _ <-]. Qed.

(** A call that raises has written nothing. *)
Lemma run_call_atomic c : atomic (run_call c).
Proof.
  destruct c; cbn [run_call]; try apply state_operation_atomic.
  - apply atomic_try; [|apply atomic_transaction]. intros e s r s'. destruct (eqb _ _); by intros [= _ <-].
  - unfold apply_directive. repeat (apply atomic_lift_bind; intros ? ?). apply state_operation_atomic.
Qed.

(** ** The slot *)

Inductive slot :=
| Idle
| Running (claim : AgentClaim)
| Reporting (claim : AgentClaim) (value : AgentResult).

Inductive slot_step : slot → slot → Prop :=
| slot_begin claim : slot_step Idle (Running claim)
| slot_finish claim value :
    same_attempt (claim_identity claim) (result_identity value) →
    id_deadline (claim_identity claim) = id_deadline (result_identity value) →
    slot_step (Running claim) (Reporting claim value)
| slot_acknowledge claim value : slot_step (Reporting claim value) Idle.

Definition record_slot (a : AgentAttemptRecord) : slot :=
  match ar_result a with
  | None => Running (ar_claim a)
  | Some value => Reporting (ar_claim a) value
  end.

Definition slot_of (t : list attempt_row) : slot :=
  match filter (λ r, is_unresolved r = true) t with
  | [] => Idle
  | r :: _ => reported record_slot Idle r
  end.

Lemma slot_idle t : (∀ r, r ∈ t → is_unresolved r = false) → slot_of t = Idle.
Proof. intros H. unfold slot_of. by rewrite (proj2 (filter_none _ _) H). Qed.

(** The unresolved row of a table is alone. *)
Lemma unresolved_alone l r k : table_constraints (l ++ r :: k) = true → is_unresolved r = true →
  (∀ s, s ∈ l → is_unresolved s = false) ∧ (∀ s, s ∈ k → is_unresolved s = false).
Proof.
  intros (_ & _ & _ & Hlen)%constraints_facts Hr. rewrite filter_app, filter_cons_True, length_app in Hlen by done.
  cbn [length] in Hlen. split; apply filter_none, nil_length_inv; lia.
Qed.

Lemma slot_middle l r k a : table_constraints (l ++ r :: k) = true → is_unresolved r = true → record r = Ok a →
  slot_of (l ++ r :: k) = record_slot a.
Proof.
  intros Hc Hr Ha. destruct (unresolved_alone l r k Hc Hr) as [Hl%filter_none Hk%filter_none]. unfold slot_of.
  rewrite filter_app, filter_cons_True by done. rewrite Hl. by apply reported_ok.
Qed.

Lemma slot_resolved l r k : table_constraints (l ++ r :: k) = true → is_unresolved r = true →
  ∀ r', is_unresolved r' = false → slot_of (l ++ r' :: k) = Idle.
Proof.
  intros Hc Hr r' Hr'. destruct (unresolved_alone l r k Hc Hr) as [Hl Hk]. apply slot_idle.
  intros s [Hs|[->|Hs]%elem_of_cons]%elem_of_app; auto.
Qed.

Lemma active_unresolved r : at_state r = "active" → is_unresolved r = true.
Proof. intros E. unfold is_unresolved, is_active. by rewrite E. Qed.

(** What a call does to the journal. *)
Definition journal_moves (t t' : list attempt_row) : Prop :=
  journal t → journal t' ∧ table_advances t t' ∧ (slot_of t' = slot_of t ∨ slot_step (slot_of t) (slot_of t')).

#[export] Instance journal_moves_refl : Reflexive journal_moves.
Proof. intros t Ht. split_and!; [done|reflexivity|by left]. Qed.

Lemma begin_moves t now claim a t' : begin now claim t = (Ok a, t') → journal_moves t t'.
Proof.
  intros H Hj. destruct (begin_ok _ _ _ _ _ Hj H) as [(row & _ & _ & _ & _ & ->)|(Ha & -> & Hr & Hj')]; [by apply journal_moves_refl|].
  split_and!; [done|apply append_advances|]. right. rewrite slot_idle by apply Ha.
  rewrite (slot_middle t _ [] a) by (done || apply Hj'). unfold record_slot.
  pose proof (co_result _ _ (record_coherent _ _ Hr)) as Hn. inversion Hn. constructor.
Qed.

(** An active attempt has no result. *)
Lemma active_result r a : record r = Ok a → at_state r = "active" → ar_result a = None.
Proof.
  intros Hc%record_coherent Hact. pose proof (co_result _ _ Hc) as Hn. rewrite (proj1 (co_active _ _ Hc Hact)) in Hn. by inversion Hn.
Qed.

(** A heartbeat keeps the slot. *)
Definition beat_moves (t t' : list attempt_row) : Prop :=
  journal t → journal t' ∧ table_advances t t' ∧ slot_of t' = slot_of t.

#[export] Instance beat_moves_preorder : PreOrder beat_moves.
Proof.
  split; [intros t Ht; split_and!; [done|reflexivity|done]|].
  intros t u v H1 H2 Ht. destruct (H1 Ht) as (Hu & A1 & E1), (H2 Hu) as (Hv & A2 & E2).
  split_and!; [done|by etrans|congruence].
Qed.

Lemma heartbeat_beats t now p race a t' : valid p → heartbeat now p race t = (Ok a, t') → beat_moves t t'.
Proof.
  intros Hp H Hj. destruct (attempt_heartbeat_ok _ _ _ _ _ _ Hj H) as
    (row & cur & _ & _ & Hr & Hm & [[_ ->]|(Hact & l & k & stamp & Hs & -> & -> & Ha & Hj')]); [by apply beat_moves_preorder|].
  split_and!; [done|by eapply replace_advances, progress_advances|].
  rewrite (slot_middle l row k cur), (slot_middle l _ k a) by (done || apply Hj || apply Hj' || by apply active_unresolved).
  unfold record_slot. by rewrite (record_same_claim _ _ _ _ Hr Ha eq_refl), (active_result _ _ Hr Hact), (active_result _ _ Ha Hact).
Qed.

Lemma heartbeat_moves t now p race a t' : valid p → heartbeat now p race t = (Ok a, t') → journal_moves t t'.
Proof. intros Hp H Hj. destruct (heartbeat_beats _ _ _ _ _ _ Hp H Hj) as (? & ? & E). split_and!; [done..|by left]. Qed.

Lemma directive_beats now p d race : valid p → valid d → moves beat_moves (apply_directive now p d race).
Proof.
  intros Hp Hd. apply moves_atomic; [apply _|apply (run_call_atomic (CallDirective now p d race))|]. intros t a t' H.
  unfold apply_directive in H. inv_run_all. eapply heartbeat_beats; [|exact H]. by eapply durable_valid.
Qed.

Lemma terminal_unresolved r : at_acknowledged r = None → is_unresolved r = true.
Proof. intros E. unfold is_unresolved. rewrite E. apply orb_true_r. Qed.

Lemma finish_moves t now v a t' : valid v → finish now v t = (Ok a, t') → journal_moves t t'.
Proof.
  intros Hv H Hj. destruct (finish_ok _ _ _ _ _ Hj H) as
    (row & cur & _ & _ & Hr & Hm & [(_ & -> & _)|(Hact & l & k & stamp & Hs & -> & -> & Ha & Hj')]); [by apply journal_moves_refl|].
  split_and!; [done|by eapply replace_advances, result_advances|]. right.
  pose proof (co_active _ _ (record_coherent _ _ Hr) Hact) as (_ & _ & Hack).
  rewrite (slot_middle l row k cur) by (done || apply Hj || by apply active_unresolved).
  rewrite (slot_middle l _ k a) by (done || apply Hj' || by apply terminal_unresolved).
  unfold record_slot. rewrite <- (record_same_claim _ _ _ _ Hr Ha eq_refl), (active_result _ _ Hr Hact).
  rewrite (record_result _ _ v Ha eq_refl Hv). apply require_match_ok in Hm as [??]. by constructor.
Qed.

Lemma acknowledge_moves t now v a t' : acknowledge now v t = (Ok a, t') → journal_moves t t'.
Proof.
  intros H Hj. destruct (acknowledge_ok _ _ _ _ _ Hj H) as
    (row & cur & _ & _ & Hr & Hm & Hst & Hres & [[_ ->]|(Hack & l & k & stamp & Hs & -> & -> & Ha & Hj')]); [by apply journal_moves_refl|].
  split_and!; [done|by eapply replace_advances, acknowledgement_advances|]. right.
  rewrite (slot_middle l row k cur) by (done || apply Hj || by apply terminal_unresolved).
  rewrite (slot_resolved l row k); [|apply Hj|by apply terminal_unresolved|].
  - unfold record_slot. destruct (co_terminal _ _ (record_coherent _ _ Hr) Hst) as (_ & w & -> & _). constructor.
  - unfold is_unresolved, is_active. cbn. by rewrite (proj2 (eqb_false _ _) Hst).
Qed.

Lemma call_moves c : valid_call c → moves journal_moves (run_call c).
Proof.
  intros Hc. apply moves_atomic; [apply _|apply run_call_atomic|]. intros t a t' H. destruct c; cbn [valid_call run_call] in *.
  - by eapply begin_moves.
  - by eapply heartbeat_moves.
  - unfold apply_directive in H. inv_run_all. eapply heartbeat_moves; [|exact H]. destruct Hc. by eapply durable_valid.
  - by eapply finish_moves.
  - by eapply acknowledge_moves.
Qed.

(** ** Runs *)

Definition store_step (t t' : list attempt_row) : Prop := ∃ c r, valid_call c ∧ run_call c t = (r, t').

Lemma empty_journal : journal [].
Proof. by constructor. Qed.

Lemma step_moves t t' : store_step t t' → journal_moves t t'.
Proof. intros (c & r & Hc & H). by eapply moves_run; [apply call_moves|]. Qed.

Lemma run_journal t t' : rtc store_step t t' → journal t → journal t'.
Proof. induction 1 as [|t u t' Hs _ IH]; [done|]. intros Hj. by apply IH, (step_moves _ _ Hs Hj). Qed.

(** The journal of an agent refines a slot that runs one claim at a time: along
    any calls from any journal, committed or refused, the slot only begins a claim
    when it is idle, then reports one result of that very attempt (the same
    identity, fence and deadline), and is idle again only after that result was
    acknowledged. *)
Theorem journal_refines_slot t t' :
  rtc store_step t t' → journal t → rtc slot_step (slot_of t) (slot_of t').
Proof.
  induction 1 as [|t u t' Hs _ IH]; [done|]. intros Hj. destruct (step_moves _ _ Hs Hj) as (Hu & _ & [E|Hstep]).
  - rewrite <- E. by apply IH.
  - eapply rtc_l; [exact Hstep|]. by apply IH.
Qed.

(** Attempts are only ever added, and each only moves forward: its identity,
    fence and claim never change, its known deadline, its heartbeat counter and its
    timestamps never decrease, a requested cancellation is never forgotten, a result
    is never replaced, and an acknowledged attempt never changes at all. *)
Theorem attempts_only_advance t t' : rtc store_step t t' → journal t → table_advances t t'.
Proof.
  induction 1 as [|t u t' Hs _ IH]; [done|]. intros Hj. destruct (step_moves _ _ Hs Hj) as (Hu & Ha & _).
  etrans; [exact Ha|]. by apply IH.
Qed.

(** ** Calls that succeed *)

Lemma filter_singleton {A} (P : A → Prop) `{!∀ x, Decision (P x)} l x k :
  P x → (∀ y, y ∈ l → ¬ P y) → (∀ y, y ∈ k → ¬ P y) → filter P (l ++ x :: k) = [x].
Proof.
  assert (∀ m, (∀ y, y ∈ m → ¬ P y) → filter P m = []) as Hnil.
  { intros m Hm. destruct (filter P m) as [|y n] eqn:E; [done|]. assert (y ∈ filter P m) as Hy by (rewrite E; left).
    apply list_elem_of_filter in Hy as [Hy Hin]. by destruct (Hm _ Hin). }
  intros Hx Hl Hk. rewrite filter_app, filter_cons_True by done. by rewrite !Hnil.
Qed.

Lemma row_alone t l row k i : journal t → t = l ++ row :: k → row_key row = message_key i →
  ∀ y, y ∈ l ∨ y ∈ k → row_key y ≠ message_key i.
Proof.
  intros [(_ & Hnd & _)%constraints_facts _] -> Hi y Hy E. rewrite map_app, map_cons, NoDup_app, NoDup_cons in Hnd.
  destruct Hnd as (_ & Hl & Hk & _). rewrite Hi, <- E in Hl, Hk. destruct Hy as [Hy|Hy].
  - destruct (Hl (row_key y)); [by apply list_elem_of_fmap_2|left].
  - destruct Hk. by apply list_elem_of_fmap_2.
Qed.

Lemma matching_row_run i t row : journal t → sqlite_int (id_attempt i) = Ok () → row ∈ t → names i row →
  matching_row i t = (Ok row, t).
Proof.
  intros Hj Hi Hin [Hk Hf]. apply list_elem_of_split in Hin as (l & k & E). pose proof (row_alone t l row k i Hj E Hk) as Ho.
  unfold matching_row. erewrite M_bind_run; [|unfold keyed_rows; rewrite Hi; reflexivity]. rewrite E.
  rewrite filter_singleton; [done|by rewrite Hk, Hf, !eqb_refl|..];
    (intros y Hy; assert (row_key y ≠ message_key i) as ->%eqb_false by auto; done).
Qed.

Lemma constraints_replace l row k row' : table_constraints (l ++ row :: k) = true →
  row_key row' = row_key row → at_fence row' = at_fence row → row_constraints row' = true →
  (is_unresolved row' = true → is_unresolved row = true) → table_constraints (l ++ row' :: k) = true.
Proof.
  rewrite !constraints_facts, !map_app, !map_cons, !Forall_app, !Forall_cons, !filter_app, !length_app, !filter_cons.
  intros ((Hl & _ & Hk) & Hnd & Hnf & Hlen) -> -> Hc Hu. split_and!; try done.
  repeat case_decide; cbn [length] in *; naive_solver lia.
Qed.

Lemma update_run t row i p f a : journal t → sqlite_int (id_attempt i) = Ok () → row ∈ t → names i row → p row = true →
  row_key (f row) = row_key row → at_fence (f row) = at_fence row → row_constraints (f row) = true →
  (is_unresolved (f row) = true → is_unresolved row = true) → record (f row) = Ok a →
  ∃ l k, t = l ++ row :: k ∧ (update_rows i p f;; r ← matching_row i; lift (record r)) t = (Ok a, l ++ f row :: k)
    ∧ journal (l ++ f row :: k).
Proof.
  intros Hj Hi Hin Hn Hp Hk Hf Hc Hu Ha. destruct (update_one t row i p f Hj Hin Hn Hp) as (l & k & E & Em).
  exists l, k. split; [done|].
  assert (table_constraints (l ++ f row :: k) = true) as Htc.
  { eapply constraints_replace; [|done..]. rewrite <- E. apply Hj. }
  assert (journal (l ++ f row :: k)) as Hj'.
  { constructor; [done|]. pose proof (jo_readable _ Hj) as Hr. rewrite E in Hr. rewrite Forall_app, Forall_cons in *.
    destruct Hr as (? & _ & ?). split_and!; [done|by eexists|done]. }
  assert (update_rows i p f t = (Ok (), l ++ f row :: k)) as Hup.
  { unfold update_rows. rewrite (M_bind_run _ _ _ t t) by done. rewrite Em. unfold write_table. by rewrite Htc. }
  split; [|done]. rewrite (M_bind_run _ _ _ _ _ Hup).
  erewrite M_bind_run; [|apply matching_row_run; [done..|by apply elem_of_app; right; left|by split; rewrite ?Hk, ?Hf; apply Hn]].
  by rewrite Ha.
Qed.

Lemma timestamp_run now previous t : in_range_of_years now = true → fromisoformat previous = Some t →
  nondecreasing_timestamp now previous = Ok (isoformat (Z.max t now)) ∧ fromisoformat (isoformat (Z.max t now)) = Some (Z.max t now).
Proof.
  intros Hn Ht. split.
  - unfold nondecreasing_timestamp. rewrite (proj2 (parse_time_ok _ _) Ht). cbn [mbind result_bind].
    by rewrite (proj2 (parse_time_ok _ now)) by by apply fromisoformat_isoformat.
  - apply fromisoformat_isoformat. destruct (Z.max_spec t now) as [[_ ->]|[_ ->]]; [done|]. by eapply fromisoformat_range.
Qed.

Definition new_record (claim : AgentClaim) (now : Z) : AgentAttemptRecord :=
  Attempt claim (id_fence (claim_identity claim)) "active" 0 None None (isoformat now) (isoformat now) None None
    (canonical_message claim) None None.

Lemma new_row_record claim now : valid claim → in_range_of_years now = true →
  record (new_row claim now) = Ok (new_record claim now).
Proof.
  intros Hv Hn. apply coherent_record. constructor; cbn; try done; try by constructor.
  exists now, now, None, None. constructor; cbn; [by apply fromisoformat_isoformat..| | |lia|done|done]; constructor.
Qed.

Definition finished_record (a : AgentAttemptRecord) (v : AgentResult) (stamp : string) : AgentAttemptRecord :=
  Attempt (ar_claim a) (ar_fence a) (result_state v) (ar_sequence a) (ar_progress a) (Some v) (ar_created a) stamp
    (Some stamp) (ar_acknowledged a) (ar_canonical_claim a) (ar_canonical_progress a) (Some (canonical_message v)).

Lemma valid_result_state v : valid_result v → result_state v ∈ result_states.
Proof. by intros ((_ & Hs & _)%made_result & _). Qed.

Lemma result_state_terminal v : valid_result v → result_state v ≠ "active".
Proof. intros Hv%valid_result_state E. rewrite E in Hv. unfold result_states in Hv. rewrite !elem_of_cons, elem_of_nil in Hv. naive_solver. Qed.

Lemma finished_row_record r a v stamp t u : record r = Ok a → at_state r = "active" → valid v →
  same_attempt (claim_identity (ar_claim a)) (result_identity v) →
  id_deadline (claim_identity (ar_claim a)) = id_deadline (result_identity v) →
  fromisoformat (at_updated r) = Some t → fromisoformat stamp = Some u → (t <= u)%Z →
  record (with_result (result_state v) (canonical_message v) stamp r) = Ok (finished_record a v stamp).
Proof.
  intros Ha Hact Hv Hs Hd Ht Hu Htu. pose proof (record_coherent _ _ Ha) as Hc. pose proof (result_state_terminal _ Hv) as Hst.
  destruct (co_active _ _ Hc Hact) as (_ & Ef & Ek). pose proof (co_times _ _ Hc) as (tc & tu & tf & tk & [? Hu' ? Hk' ? ? ?]).
  assert (tu = t) as -> by congruence. rewrite Ek in Hk'.
  apply coherent_record. pose proof (co_copy _ _ Hc) as Ecopy. rewrite Ecopy. destruct Hc.
  constructor; cbn; try done; [by constructor|by intros ? [= <-]| |by eauto].
  exists tc, u, (Some u), tk. constructor; cbn; [done|done|by constructor| |lia|intros f [= <-]; lia|].
  - by rewrite Ek.
  - inversion Hk'; subst. done.
Qed.

Definition acknowledged_record (a : AgentAttemptRecord) (stamp : string) : AgentAttemptRecord :=
  Attempt (ar_claim a) (ar_fence a) (ar_state a) (ar_sequence a) (ar_progress a) (ar_result a) (ar_created a) stamp
    (ar_finished a) (Some stamp) (ar_canonical_claim a) (ar_canonical_progress a) (ar_canonical_result a).

Lemma acknowledged_row_record r a stamp t u : record r = Ok a → at_state r ≠ "active" → at_acknowledged r = None →
  fromisoformat (at_updated r) = Some t → fromisoformat stamp = Some u → (t <= u)%Z →
  record (with_acknowledgement stamp r) = Ok (acknowledged_record a stamp).
Proof.
  intros Ha Hst Hk Ht Hu Htu. pose proof (record_coherent _ _ Ha) as Hc.
  destruct (co_terminal _ _ Hc Hst) as ([sf Hsf] & _).
  pose proof (co_times _ _ Hc) as (tc & tu & tf & tk & [? Hu' Hf ? ? Hfin ?]). assert (tu = t) as -> by congruence.
  rewrite Hsf in Hf. inversion Hf as [? f Hff|]; subst. pose proof (Hfin _ eq_refl).
  apply coherent_record. pose proof (co_copy _ _ Hc) as Ecopy. rewrite Ecopy. destruct Hc. constructor; cbn; try done.
  exists tc, u, (Some f), (Some u). constructor; cbn; [done|done|by rewrite Hsf|by constructor|lia|intros ? [= <-]; lia|].
  intros ? [= <-]. exists f. split; [done|lia].
Qed.

(** ** Outcomes *)

(** The unresolved row, if any, and the rest. *)
Lemma slot_cases t : journal t →
  (∀ r, r ∈ t → is_unresolved r = false) ∧ slot_of t = Idle
  ∨ ∃ l r k a, t = l ++ r :: k ∧ is_unresolved r = true ∧ record r = Ok a ∧ slot_of t = record_slot a
      ∧ ∀ s, s ∈ l ∨ s ∈ k → is_unresolved s = false.
Proof.
  intros Hj. destruct (filter (λ r, is_unresolved r = true) t) as [|r f] eqn:Ef.
  - left. split; [by apply filter_none|]. apply slot_idle. by apply filter_none.
  - right. assert (r ∈ filter (λ r, is_unresolved r = true) t) as Hin by (rewrite Ef; left).
    apply list_elem_of_filter in Hin as [Hr (l & k & ->)%list_elem_of_split].
    pose proof (jo_readable _ Hj) as Hread. rewrite Forall_app, Forall_cons in Hread. destruct Hread as (_ & [a Ha] & _).
    destruct (unresolved_alone l r k (jo_constraints _ Hj) Hr). exists l, r, k, a.
    split_and!; [done..|apply slot_middle; [apply Hj|done..]|naive_solver].
Qed.

Lemma recover_none p t : (∀ r, r ∈ t → p r = false) → recover p t = (Ok None, t).
Proof.
  intros H%filter_none. unfold recover. rewrite (M_bind_run _ _ _ [] t); [done|].
  unfold find_rows. rewrite (M_bind_run _ _ _ t t) by done. by rewrite H.
Qed.

Lemma recover_one p l r k a : p r = true → (∀ s, s ∈ l ∨ s ∈ k → p s = false) → record r = Ok a →
  recover p (l ++ r :: k) = (Ok (Some a), l ++ r :: k).
Proof.
  intros Hp Ho Ha. unfold recover. rewrite (M_bind_run _ _ _ [r] (l ++ r :: k)).
  - rewrite (M_bind_run _ _ _ a (l ++ r :: k)) by by rewrite Ha. done.
  - unfold find_rows. rewrite (M_bind_run _ _ _ (l ++ r :: k) (l ++ r :: k)) by done. unfold mret, M_ret. do 2 f_equal.
    apply filter_singleton; [done|..]; intros y Hy; rewrite Ho by auto; done.
Qed.

Lemma resolved_not_active r : is_unresolved r = false → is_active r = false.
Proof. unfold is_unresolved. by intros [??]%orb_false_iff. Qed.
Lemma resolved_not_pending r : is_unresolved r = false → negb (is_active r) && is_None_b (at_acknowledged r) = false.
Proof. unfold is_unresolved. intros [-> ->]%orb_false_iff. done. Qed.

Lemma recovery_of_journal t : journal t →
  match slot_of t with
  | Idle => recover_active t = (Ok None, t) ∧ recover_pending t = (Ok None, t)
  | Running claim => ∃ a, recover_active t = (Ok (Some a), t) ∧ recover_pending t = (Ok None, t)
                          ∧ ar_claim a = claim ∧ ar_result a = None
  | Reporting claim value => ∃ a, recover_active t = (Ok None, t) ∧ recover_pending t = (Ok (Some a), t)
                                  ∧ ar_claim a = claim ∧ ar_result a = Some value
  end.
Proof.
  intros Hj.
  destruct (slot_cases t Hj) as [[Hu ->]|(l & r & k & a & -> & Hr & Ha & -> & Ho)].
  - split; apply recover_none; intros r Hr; [by apply resolved_not_active, Hu|by apply resolved_not_pending, Hu].
  - pose proof (record_coherent _ _ Ha) as Hc. unfold record_slot. destruct (is_active r) eqn:Eact.
    + rewrite (active_result _ _ Ha (proj1 (eqb_true _ _) Eact)). exists a.
      split_and!; [|apply recover_none|done|by apply (active_result _ _ Ha), eqb_true].
      * apply recover_one; [done| |done]. intros s Hs. by apply resolved_not_active, Ho.
      * intros s [Hs|[->|Hs]%elem_of_cons]%elem_of_app; [apply resolved_not_pending; auto|by rewrite Eact|apply resolved_not_pending; auto].
    + destruct (co_terminal _ _ Hc (proj1 (eqb_false _ _) Eact)) as (_ & v & Ev & _). rewrite Ev. exists a.
      unfold is_unresolved in Hr. rewrite Eact in Hr. cbn in Hr. split_and!; [apply recover_none| |done..].
      * intros s [Hs|[->|Hs]%elem_of_cons]%elem_of_app; [apply resolved_not_active; auto|done|apply resolved_not_active; auto].
      * apply recover_one; [by rewrite Eact, Hr| |done]. intros s Hs. by apply resolved_not_pending, Ho.
Qed.

(** After a crash at any point, recovery succeeds and finds exactly what the
    agent still owes: nothing when the slot is idle, the interrupted claim when one
    was running, and the claim with its unacknowledged result when one was being
    reported. *)
Theorem recovery_finds_the_slot t : rtc store_step [] t →
  match slot_of t with
  | Idle => recover_active t = (Ok None, t) ∧ recover_pending t = (Ok None, t)
  | Running claim => ∃ a, recover_active t = (Ok (Some a), t) ∧ recover_pending t = (Ok None, t)
                          ∧ ar_claim a = claim ∧ ar_result a = None
  | Reporting claim value => ∃ a, recover_active t = (Ok None, t) ∧ recover_pending t = (Ok (Some a), t)
                                  ∧ ar_claim a = claim ∧ ar_result a = Some value
  end.
Proof. intros Hj%run_journal; [|apply empty_journal]. by apply recovery_of_journal. Qed.

Lemma state_operation_run {A} (m : M (list attempt_row) A) t a t' :
  m t = (Ok a, t') → state_operation m t = (Ok a, t').
Proof. intros H. unfold state_operation, try_catch, transaction. by rewrite H. Qed.

Lemma finished_constraints r a v stamp : record r = Ok a → row_constraints r = true → at_state r = "active" → valid_result v →
  row_constraints (with_result (result_state v) (canonical_message v) stamp r) = true.
Proof.
  intros Ha Hr Hact Hv. unfold row_constraints, is_active in *. cbn. rewrite !andb_true_iff in *.
  rewrite (proj2 (eqb_false _ _) (result_state_terminal _ Hv)). destruct Hr as [[[_ H1] H2] _]. split_and!; [|done..].
  apply among_true. right. by apply valid_result_state.
Qed.

Lemma acknowledged_constraints r stamp : row_constraints r = true → at_state r ≠ "active" →
  row_constraints (with_acknowledgement stamp r) = true.
Proof.
  intros Hr Hst%eqb_false. unfold row_constraints, is_active in *. cbn. rewrite Hst in *. cbn in *. by rewrite !andb_true_iff in *.
Qed.

Lemma journal_row t r : journal t → r ∈ t → row_constraints r = true.
Proof. intros [(H & _)%constraints_facts _]. rewrite Forall_forall in H. apply H. Qed.

Lemma row_updated r a : record r = Ok a → ∃ t, fromisoformat (at_updated r) = Some t.
Proof. intros Hc%record_coherent. destruct (co_times _ _ Hc) as (? & u & ? & ? & [? Hu ? ? ? ? ?]). by exists u. Qed.

Lemma claim_names r a : record r = Ok a → names (claim_identity (ar_claim a)) r.
Proof. intros Hc%record_coherent. split; [by rewrite (co_key _ _ Hc)|by rewrite (co_fence _ _ Hc)]. Qed.

Lemma finish_run t now v r a : journal t → r ∈ t → record r = Ok a → at_state r = "active" → valid v →
  result_identity v = claim_identity (ar_claim a) → in_range_of_years now = true →
  sqlite_int (id_attempt (claim_identity (ar_claim a))) = Ok () →
  ∃ b l k stamp, finish now v t = (Ok b, l ++ with_result (result_state v) (canonical_message v) stamp r :: k)
    ∧ t = l ++ r :: k ∧ record (with_result (result_state v) (canonical_message v) stamp r) = Ok b
    ∧ b = finished_record a v stamp ∧ journal (l ++ with_result (result_state v) (canonical_message v) stamp r :: k).
Proof.
  intros Hj Hin Ha Hact Hv Hi Hn Hsql. destruct (row_updated _ _ Ha) as [u Hu].
  destruct (timestamp_run now _ _ Hn Hu) as [Hs1 Hs2]. set (stamp := isoformat (Z.max u now)) in *.
  assert (record (with_result (result_state v) (canonical_message v) stamp r) = Ok (finished_record a v stamp)) as Hr.
  { eapply finished_row_record; [done..| | |exact Hu|exact Hs2|lia]; by rewrite Hi. }
  assert (names (result_identity v) r) as Hnm by (rewrite Hi; by eapply claim_names).
  rewrite <- Hi in Hsql.
  destruct (update_run t r (result_identity v) is_active (with_result (result_state v) (canonical_message v) stamp)
              (finished_record a v stamp)) as (l & k & E & Hrun & Hj'); try done.
  { by apply eqb_true. }
  { eapply finished_constraints; [done| |done..]. by eapply journal_row. }
  { intros _. by apply active_unresolved. }
  exists (finished_record a v stamp), l, k, stamp. split_and!; [|done..]. apply state_operation_run.
  rewrite (M_bind_run _ _ _ r t) by by apply matching_row_run. rewrite (M_bind_run _ _ _ a t) by by rewrite Ha.
  rewrite (M_bind_run _ _ _ () t) by (unfold lift; f_equal; apply require_match_ok; by rewrite Hi).
  pose proof (co_copy _ _ (record_coherent _ _ Ha)) as Ec. assert (ar_state a = "active") as -> by (rewrite Ec; done).
  assert (ar_updated a = at_updated r) as -> by (by rewrite Ec). cbn [negb]. rewrite eqb_refl. cbn [negb].
  rewrite (M_bind_run _ _ _ stamp t) by by rewrite Hs1. exact Hrun.
Qed.

Lemma acknowledge_run t now v r a : journal t → r ∈ t → record r = Ok a → at_state r ≠ "active" → valid v →
  ar_result a = Some v → at_acknowledged r = None → result_identity v = claim_identity (ar_claim a) →
  in_range_of_years now = true → sqlite_int (id_attempt (claim_identity (ar_claim a))) = Ok () →
  ∃ b l k stamp, acknowledge now v t = (Ok b, l ++ with_acknowledgement stamp r :: k) ∧ t = l ++ r :: k
    ∧ journal (l ++ with_acknowledgement stamp r :: k).
Proof.
  intros Hj Hin Ha Hst Hv Hres Hack Hi Hn Hsql. destruct (row_updated _ _ Ha) as [u Hu].
  destruct (timestamp_run now _ _ Hn Hu) as [Hs1 Hs2]. set (stamp := isoformat (Z.max u now)) in *.
  assert (record (with_acknowledgement stamp r) = Ok (acknowledged_record a stamp)) as Hr.
  { eapply acknowledged_row_record; [done..|exact Hu|exact Hs2|lia]. }
  assert (names (result_identity v) r) as Hnm by (rewrite Hi; by eapply claim_names). rewrite <- Hi in Hsql.
  destruct (update_run t r (result_identity v) (λ r, is_None_b (at_acknowledged r)) (with_acknowledgement stamp)
              (acknowledged_record a stamp)) as (l & k & E & Hrun & Hj'); try done.
  { by apply is_None_b_true. }
  { apply acknowledged_constraints; [by eapply journal_row|done]. }
  { intros _. by apply terminal_unresolved. }
  exists (acknowledged_record a stamp), l, k, stamp. split_and!; [|done..]. apply state_operation_run.
  rewrite (M_bind_run _ _ _ r t) by by apply matching_row_run. rewrite (M_bind_run _ _ _ a t) by by rewrite Ha.
  rewrite (M_bind_run _ _ _ () t) by (unfold lift; f_equal; apply require_match_ok; by rewrite Hi).
  pose proof (record_coherent _ _ Ha) as Hc. pose proof (co_copy _ _ Hc) as Ec.
  assert (at_result r = Some (canonical_message v)) as Hres'.
  { pose proof (co_result _ _ Hc) as H. rewrite Hres in H. inversion H as [? ? [_ ->]|]; done. }
  rewrite (M_bind_run _ _ _ () t); last first.
  { unfold lift. f_equal. apply ensure_ok. rewrite Ec. cbn [ar_state ar_canonical_result].
    by rewrite Hres', eqb_refl, (proj2 (eqb_false _ _) Hst). }
  assert (ar_acknowledged a = None) as -> by (rewrite Ec; done). assert (ar_updated a = at_updated r) as -> by (by rewrite Ec).
  cbn [is_None_b]. rewrite (M_bind_run _ _ _ stamp t) by by rewrite Hs1. exact Hrun.
Qed.

Lemma running_row t claim : journal t → slot_of t = Running claim →
  ∃ r a, r ∈ t ∧ record r = Ok a ∧ ar_claim a = claim ∧ at_state r = "active" ∧ ar_result a = None.
Proof.
  intros Hj Hslot. destruct (slot_cases t Hj) as [[_ E]|(l & r & k & a & -> & Hr & Ha & E & Ho)]; [congruence|].
  rewrite E in Hslot. unfold record_slot in Hslot. destruct (ar_result a) eqn:Er; [done|]. injection Hslot as <-.
  exists r, a. split_and!; [apply elem_of_app; right; left|done..| |done].
  destruct (decide (at_state r = "active")) as [?|Hst]; [done|].
  destruct (co_terminal _ _ (record_coherent _ _ Ha) Hst) as (_ & ? & ? & _). congruence.
Qed.

Lemma finish_running t claim v now : journal t → slot_of t = Running claim → valid v → result_identity v = claim_identity claim →
  in_range_of_years now = true → sqlite_int (id_attempt (claim_identity claim)) = Ok () →
  ∃ a t1, finish now v t = (Ok a, t1) ∧ journal t1 ∧ slot_of t1 = Reporting claim v
    ∧ ar_result a = Some v ∧ ar_canonical_result a = Some (canonical_message v).
Proof.
  intros Hj Hslot Hv Hi Hn Hsql. destruct (running_row t claim Hj Hslot) as (r & a & Hin & Ha & <- & Hact & Er).
  destruct (finish_run t now v r a) as (b & l & k & stamp & Hf & Et & Hb & -> & Hj1); try done.
  eexists _, _. split_and!; [exact Hf|done| |done..].
  assert (at_acknowledged (with_result (result_state v) (canonical_message v) stamp r) = None) as Hack
    by by destruct (co_active _ _ (record_coherent _ _ Ha) Hact) as (_ & _ & ?).
  by rewrite (slot_middle _ _ _ _ (jo_constraints _ Hj1) (terminal_unresolved _ Hack) Hb).
Qed.

Lemma acknowledge_reporting t claim v now : journal t → slot_of t = Reporting claim v → valid v →
  result_identity v = claim_identity claim → in_range_of_years now = true →
  sqlite_int (id_attempt (claim_identity claim)) = Ok () →
  ∃ a t1, acknowledge now v t = (Ok a, t1) ∧ journal t1 ∧ slot_of t1 = Idle.
Proof.
  intros Hj Hslot Hv Hi Hn Hsql. destruct (slot_cases t Hj) as [[_ E]|(l & r & k & a & -> & Hr & Ha & E & Ho)]; [congruence|].
  rewrite E in Hslot. unfold record_slot in Hslot. destruct (ar_result a) as [w|] eqn:Er; [|done]. injection Hslot as <- ->.
  assert (at_state r ≠ "active") as Hst by (intros Hact; by rewrite (active_result _ _ Ha Hact) in Er).
  assert (at_acknowledged r = None) as Hack.
  { unfold is_unresolved, is_active in Hr. rewrite (proj2 (eqb_false _ _) Hst) in Hr. by apply is_None_b_true. }
  destruct (acknowledge_run (l ++ r :: k) now v r a) as (b & l1 & k1 & stamp & Hk & Et & Hj1); try done.
  { apply elem_of_app. right. left. }
  eexists _, _. split_and!; [exact Hk|done|]. rewrite Et in Hj.
  eapply (slot_resolved l1 r k1); [apply Hj|by apply terminal_unresolved|].
  unfold is_unresolved, is_active. cbn. by rewrite (proj2 (eqb_false _ _) Hst).
Qed.

(** A running attempt can always be delivered: whatever the clock reads, and
    even if it runs backwards, a valid result of the attempt is stored and the slot
    reports it, and acknowledging that result frees the slot for the next claim. *)
Theorem running_attempt_can_be_delivered t claim v now later :
  journal t → slot_of t = Running claim → valid v → result_identity v = claim_identity claim →
  in_range_of_years now = true → in_range_of_years later = true → sqlite_int (id_attempt (claim_identity claim)) = Ok () →
  ∃ a t1 b t2, finish now v t = (Ok a, t1) ∧ slot_of t1 = Reporting claim v
    ∧ acknowledge later v t1 = (Ok b, t2) ∧ slot_of t2 = Idle.
Proof.
  intros Hj Hslot Hv Hi Hn Hl Hsql.
  destruct (finish_running t claim v now) as (a & t1 & Hf & Hj1 & Hs1 & _); try done.
  destruct (acknowledge_reporting t1 claim v later) as (b & t2 & Hk & _ & Hs2); try done. by exists a, t1, b, t2.
Qed.

Lemma begin_constraints t claim now : journal t → admits t (claim_identity claim) →
  table_constraints (t ++ [new_row claim now]) = true.
Proof.
  intros [Hc _] [Hkey Hfence _ Hres]. apply constraints_facts in Hc as (H1 & H2 & H3 & H4). apply constraints_facts.
  rewrite !map_app, Forall_app, filter_app, length_app, (proj2 (filter_none _ _) Hres). split_and!.
  - done.
  - repeat constructor.
  - apply NoDup_app. split_and!; [done| |apply NoDup_singleton]. by intros x Hx ->%list_elem_of_singleton.
  - apply NoDup_app. split_and!; [done| |apply NoDup_singleton]. by intros x Hx ->%list_elem_of_singleton.
  - cbn. by case_decide; cbn; lia.
Qed.

Lemma keyed_rows_run i p t : sqlite_int (id_attempt i) = Ok () →
  keyed_rows i p t = (Ok (filter (λ r, eqb (row_key r) (message_key i) && p r = true) t), t).
Proof. intros H. unfold keyed_rows. by rewrite H. Qed.

(** The claim was already accepted: the same key, fence and bytes. *)
Definition holds (t : list attempt_row) (claim : AgentClaim) : Prop :=
  ∃ row, row ∈ t ∧ names (claim_identity claim) row ∧ at_claim row = canonical_message claim.

Definition refuses_claim (t : list attempt_row) (now : Z) (claim : AgentClaim) : Prop :=
  ∃ m, begin now claim t = (Err (Exn EAgentStateConflict m), t).

Lemma begin_known t now claim row : journal t → sqlite_int (id_attempt (claim_identity claim)) = Ok () →
  row ∈ t → row_key row = message_key (claim_identity claim) →
  (at_fence row = id_fence (claim_identity claim) ∧ at_claim row = canonical_message claim
   ∧ ∃ a, record row = Ok a ∧ begin now claim t = (Ok a, t))
  ∨ ¬ holds t claim ∧ refuses_claim t now claim.
Proof.
  intros Hj Hsql Hin Hk. apply list_elem_of_split in Hin as (l & k & ->).
  pose proof (row_alone _ l row k _ Hj eq_refl Hk) as Ho.
  pose proof (jo_readable _ Hj) as Hread. rewrite Forall_app, Forall_cons in Hread. destruct Hread as (_ & [a Ha] & _).
  pose proof (co_copy _ _ (record_coherent _ _ Ha)) as Ec.
  assert (filter (λ r, eqb (row_key r) (message_key (claim_identity claim)) && true = true) (l ++ row :: k) = [row]) as Ef.
  { apply filter_singleton; [by rewrite Hk, eqb_refl|..]; intros y Hy;
      (assert (row_key y ≠ message_key (claim_identity claim)) as ->%eqb_false by auto); done. }
  assert (begin now claim (l ++ row :: k) =
    if eqb (at_fence row) (id_fence (claim_identity claim)) && eqb (at_claim row) (canonical_message claim)
    then (Ok a, l ++ row :: k)
    else (Err (Exn EAgentStateConflict "attempt conflicts with persisted state"), l ++ row :: k)) as Hb.
  { unfold begin, try_catch, transaction. rewrite (M_bind_run _ _ _ _ _ (keyed_rows_run _ _ _ Hsql)), Ef.
    rewrite (M_bind_run _ _ _ a (l ++ row :: k)) by by rewrite Ha.
    assert (ar_fence a = at_fence row) as -> by by rewrite Ec. assert (ar_canonical_claim a = at_claim row) as -> by by rewrite Ec.
    by destruct (_ && _). }
  destruct (eqb (at_fence row) _ && _) eqn:E.
  - left. bool_facts. split_and!; [done..|]. by exists a.
  - right. split; [|by eexists]. intros (r & Hr & [Hrk Hrf] & Hrc).
    assert (r = row) as -> by (eapply key_names_row; [done|done|by apply elem_of_app; right; left|congruence]).
    by rewrite Hrf, Hrc, !eqb_refl in E.
Qed.

Lemma begin_new t now claim : journal t → valid claim → in_range_of_years now = true →
  sqlite_int (id_attempt (claim_identity claim)) = Ok () → message_key (claim_identity claim) ∉ map row_key t →
  (admits t (claim_identity claim) ∧ begin now claim t = (Ok (new_record claim now), t ++ [new_row claim now]))
  ∨ ¬ admits t (claim_identity claim) ∧ refuses_claim t now claim.
Proof.
  intros Hj Hv Hn Hsql Hnew. pose proof (proj1 (not_in_map row_key _ t) Hnew) as Hnk. set (i := claim_identity claim) in *.
  assert (filter (λ r, eqb (row_key r) (message_key i) && true = true) t = []) as Ef.
  { apply filter_none. intros r Hr. by rewrite Hnk. }
  unfold refuses_claim, begin, try_catch, transaction. fold i. rewrite (M_bind_run _ _ _ _ _ (keyed_rows_run _ _ _ Hsql)), Ef.
  rewrite (M_bind_run _ _ _ (filter (λ r, eqb (at_fence r) (id_fence i) = true) t) t) by done.
  destruct (nonempty (filter (λ r, eqb (at_fence r) (id_fence i) = true) t)) eqn:Eused.
  { right. split; [|by eexists]. intros [_ Hf _ _]. rewrite not_in_map in Hf. by rewrite (proj2 (filter_none _ _) Hf) in Eused. }
  rewrite (M_bind_run _ _ _ () t) by done. rewrite (M_bind_run _ _ _ t t) by done.
  destruct (match highest_attempt t i with Some h => negb (id_attempt i <=? h)%Z | None => true end) eqn:Eh.
  2: { right. split; [|by eexists]. intros [_ _ Hh _]. destruct (highest_attempt t i) as [h|]; [|done].
       specialize (Hh _ eq_refl). bool_facts. lia. }
  rewrite (M_bind_run _ _ _ () t) by done. rewrite (M_bind_run _ _ _ (filter (λ r, is_unresolved r = true) t) t) by done.
  destruct (nonempty (filter (λ r, is_unresolved r = true) t)) eqn:Eun.
  { right. split; [|by eexists]. intros [_ _ _ Hu%filter_none]. by rewrite Hu in Eun. }
  assert (admits t i) as Had.
  { constructor; [done| | |].
    - apply not_in_map, filter_none, nonempty_false. by rewrite Eused.
    - intros h Hh. rewrite Hh in Eh. bool_facts. lia.
    - apply filter_none, nonempty_false. by rewrite Eun. }
  left. split; [done|]. rewrite (M_bind_run _ _ _ () t) by done.
  rewrite (M_bind_run _ _ _ () (t ++ [new_row claim now])) by (unfold write_table; by rewrite begin_constraints).
  rewrite (M_bind_run _ _ _ _ _ (keyed_rows_run _ _ _ Hsql)), filter_app, Ef, filter_cons_True by by rewrite eqb_refl.
  cbn [app]. by rewrite new_row_record.
Qed.

(** What [begin] does with a valid claim: an attempt that was accepted before,
    with the same fence and the same bytes, returns its record and writes nothing; a
    new attempt is accepted exactly when its fence is unused, it is newer than every
    attempt of its operation and nothing is unresolved; every other claim is refused
    as a conflict and writes nothing. *)
Theorem begin_accepts_new_attempts t now claim :
  journal t → valid claim → in_range_of_years now = true → sqlite_int (id_attempt (claim_identity claim)) = Ok () →
  (holds t claim ∧ ∃ a, ar_claim a = claim ∧ begin now claim t = (Ok a, t))
  ∨ (admits t (claim_identity claim) ∧ begin now claim t = (Ok (new_record claim now), t ++ [new_row claim now]))
  ∨ (¬ holds t claim ∧ ¬ admits t (claim_identity claim) ∧ refuses_claim t now claim).
Proof.
  intros Hj Hv Hn Hsql. destruct (decide (message_key (claim_identity claim) ∈ map row_key t)) as [Hin|Hnew].
  - pose proof Hin as (row & Hk & Hr)%list_elem_of_fmap.
    destruct (begin_known t now claim row Hj Hsql Hr (eq_sym Hk)) as [(Hf & Hc & a & Ha & Hb)|[Hh Hb]].
    + left. split; [by exists row|]. exists a. split; [by eapply record_claim|done].
    + right. right. split_and!; [done| |done]. by intros [? _ _ _].
  - destruct (begin_new t now claim) as [?|[Ha Hb]]; try done; [auto|]. right. right. split_and!; [|done..].
    intros (row & Hr & [Hk _] & _). apply Hnew. rewrite <- Hk. by apply list_elem_of_fmap_2.
Qed.

(** ** A run *)

Definition run_calls (calls : list store_call) (t : list attempt_row) : list attempt_row :=
  foldl (λ t c, (run_call c t).2) t calls.

Lemma store_calls_steps calls t : Forall valid_call calls → rtc store_step t (run_calls calls t).
Proof.
  intros Hc. induction Hc as [|c calls Hc _ IH] in t |- *; [done|]. cbn. eapply rtc_l; [|apply IH].
  exists c, (run_call c t).1. split; [done|]. by destruct (run_call c t).
Qed.

Module Sample.

Definition sample_identity : attempt_identity :=
  Identity "11111111-1111-4111-8111-111111111111" "22222222-2222-4222-8222-222222222222" 1
    "33333333-3333-4333-8333-333333333333" "spk_0123456789abcdef0123456789abcdef" 1700000000000000.
Definition probe_claim : AgentClaim :=
  MkClaim sample_identity NODE_PROBE "0123456789abcdef0123456789abcdef01234567"
    "44136fa355b3678a1146ad16f7e8649e94fb4fc21fe77e8310c060f61caaff8a" (JObj []).
Definition probe_progress : AgentProgress := MkProgress sample_identity (JObj [("phase", JStr "running")]).
Definition probe_directive : AgentDirective := MkDirective (at_deadline sample_identity 1700000060000000) true.
Definition probe_result : AgentResult :=
  MkResult sample_identity "succeeded" (JObj [("evidence", JObj []); ("status", JStr "ok")]).

Lemma valid_probe_claim : valid probe_claim.
Proof. split_and!; vm_compute; reflexivity. Qed.
Lemma valid_probe_progress : valid probe_progress.
Proof. split_and!; vm_compute; reflexivity. Qed.
Lemma valid_probe_directive : valid probe_directive.
Proof. split; vm_compute; reflexivity. Qed.
Lemma valid_probe_result : valid probe_result.
Proof. split_and!; vm_compute; reflexivity. Qed.

(** The clock runs backwards between the heartbeat and the result. *)
Definition begun : list store_call :=
  [CallBegin 1699999990000000 probe_claim; CallDirective 1699999995000000 probe_progress probe_directive false].
Definition delivered : list store_call :=
  begun ++ [CallFinish 1699999980000000 probe_result; CallAcknowledge 1699999981000000 probe_result].

Lemma begun_steps : rtc store_step [] (run_calls begun []).
Proof. apply store_calls_steps. repeat constructor; apply valid_probe_claim || apply valid_probe_progress || apply valid_probe_directive. Qed.
Lemma delivered_steps : rtc store_step [] (run_calls delivered []).
Proof.
  apply store_calls_steps. repeat constructor;
    apply valid_probe_claim || apply valid_probe_progress || apply valid_probe_directive || apply valid_probe_result.
Qed.

Example begun_is_running : slot_of (run_calls begun []) = Running probe_claim.
Proof. vm_compute. reflexivity. Qed.
Example delivered_is_idle :
  slot_of (run_calls delivered []) = Idle ∧ map at_updated (run_calls delivered []) = ["2023-11-14T22:13:15+00:00"].
Proof. split; vm_compute; reflexivity. Qed.

End Sample.
Import Sample.

Lemma journal_refines_slot_witness :
  rtc slot_step (slot_of []) (slot_of (run_calls delivered [])).
Proof. apply (journal_refines_slot [] (run_calls delivered [])); [exact delivered_steps|exact empty_journal]. Defined.

Lemma attempts_only_advance_witness : table_advances [] (run_calls delivered []).
Proof. apply (attempts_only_advance [] (run_calls delivered [])); [exact delivered_steps|exact empty_journal]. Defined.

Lemma recovery_finds_the_slot_witness :
  ∃ a, recover_active (run_calls begun []) = (Ok (Some a), run_calls begun []) ∧ ar_claim a = probe_claim.
Proof.
  pose proof (recovery_finds_the_slot (run_calls begun []) begun_steps) as H. rewrite begun_is_running in H.
  destruct H as (a & H1 & _ & H2 & _). exists a. split; [exact H1|exact H2].
Defined.

Lemma running_attempt_can_be_delivered_witness :
  ∃ a t1 b t2, finish 0 probe_result (run_calls begun []) = (Ok a, t1) ∧ slot_of t1 = Reporting probe_claim probe_result
    ∧ acknowledge 0 probe_result t1 = (Ok b, t2) ∧ slot_of t2 = Idle.
Proof.
  apply (running_attempt_can_be_delivered (run_calls begun []) probe_claim probe_result 0 0);
    [exact (run_journal _ _ begun_steps empty_journal)|exact begun_is_running|exact valid_probe_result|reflexivity..].
Defined.

Lemma begin_accepts_new_attempts_witness :
  (holds [] probe_claim ∧ ∃ a, ar_claim a = probe_claim ∧ begin 0 probe_claim [] = (Ok a, []))
  ∨ (admits [] (claim_identity probe_claim) ∧ begin 0 probe_claim [] = (Ok (new_record probe_claim 0), [] ++ [new_row probe_claim 0]))
  ∨ (¬ holds [] probe_claim ∧ ¬ admits [] (claim_identity probe_claim) ∧ refuses_claim [] 0 probe_claim).
Proof. apply (begin_accepts_new_attempts [] 0 probe_claim); [exact empty_journal|exact valid_probe_claim|reflexivity..]. Defined.
