(* ===== verification/Requests.v ===== *)
(** * Requests an agent executes

    The payloads of claims as the agent reads them: releases
    ([agent/src/vonk_agent/releases.py]), workloads ([workloads.py]), agent updates
    and operator rollbacks ([update.py]). The checks of an update command run in the
    order of the code; one of a value of the wrong type raises a [TypeError], which
    the parser turns into an update error. Package requests are in [Protocol]. *)

From S2P Require Import Prelude Identifiers Canonical Documents JsonText Datetimes Contracts PackageEngine Protocol Messages.

Definition is_prefixed_digest (s : string) : bool := String.prefix "sha256:" s && is_digest (drop_chars 7 s).

(** A mapping with exactly these fields. *)
Definition mapping_of (v : json) (fields : list string) (c : exn_class) (m : string)
    : result (list (string * json)) :=
  match v with
  | JObj items => ensure (same_keys items fields) c m;; mret items
  | _ => raise c m
  end.

Definition text_field (p : string → bool) (v : json) (c : exn_class) (m : string) : result string :=
  match v with
  | JStr s => ensure (p s) c m;; mret s
  | _ => raise c m
  end.

(** ** Releases *)

Record ReleaseRequest := MkRelease {
  rel_target_name : string; rel_manifest_digest : string; rel_target_digest : string;
  rel_provenance_digest : string; rel_adapter_id : string
}.

Definition release_fields : list string :=
  ["schema_version"; "target_name"; "oci_manifest_digest"; "target_digest"; "provenance_digest"; "adapter_id"].

Definition parse_release_request (document : json) : result ReleaseRequest :=
  items ← mapping_of document release_fields EReleaseValidation "release request fields are invalid";
  ensure (is_int (Z.eqb 1) (field items "schema_version")) EReleaseValidation "release request version is invalid";;
  target_name ← text_field is_identifier (field items "target_name") EReleaseValidation "target name is invalid";
  adapter_id ← text_field is_identifier (field items "adapter_id") EReleaseValidation "adapter ID is invalid";
  manifest ← text_field is_prefixed_digest (field items "oci_manifest_digest") EReleaseValidation
               "OCI manifest digest is invalid";
  target ← text_field is_digest (field items "target_digest") EReleaseValidation "target digest is invalid";
  provenance ← text_field is_digest (field items "provenance_digest") EReleaseValidation
                 "provenance digest is invalid";
  mret (MkRelease target_name manifest target provenance adapter_id).

(** ** Workloads *)

Inductive WorkloadAction := WorkloadPrepare | WorkloadStart | WorkloadStop | WorkloadHealth | WorkloadVerify.

#[export] Instance WorkloadAction_eq_dec : EqDecision WorkloadAction.
Proof. solve_decision. Defined.

Record WorkloadRequest := MkWorkload {
  wl_action : WorkloadAction; wl_workload_id : string; wl_release_digest : string; wl_adapter_id : string;
  wl_operation_digest : option string
}.

Definition action_field (a : WorkloadAction) : option string :=
  match a with
  | WorkloadPrepare => Some "profile_digest"
  | WorkloadStart => Some "preparation_digest"
  | WorkloadStop | WorkloadHealth => None
  | WorkloadVerify => Some "expected_digest"
  end.

Definition workload_fields (a : WorkloadAction) : list string :=
  ["schema_version"; "workload_id"; "release_digest"; "adapter_id"]
  ++ match action_field a with Some f => [f] | None => [] end.

(** [text.replace("_", " ")]. *)
Fixpoint spaced (s : string) : string :=
  match s with
  | EmptyString => EmptyString
  | String c s => String (if eqb c "_"%char then " "%char else c) (spaced s)
  end.

Definition parse_workload_request (a : WorkloadAction) (document : json) : result WorkloadRequest :=
  items ← mapping_of document (workload_fields a) EWorkloadValidation
            (match document with
             | JObj _ => "workload request fields are invalid"
             | _ => "workload action is invalid"
             end);
  ensure (is_int (Z.eqb 1) (field items "schema_version")) EWorkloadValidation "workload request version is invalid";;
  workload ← text_field is_identifier (field items "workload_id") EWorkloadValidation "workload ID is invalid";
  adapter ← text_field is_identifier (field items "adapter_id") EWorkloadValidation "adapter ID is invalid";
  release ← text_field is_digest (field items "release_digest") EWorkloadValidation "release digest is invalid";
  match action_field a with
  | Some f =>
      digest ← text_field is_digest (field items f) EWorkloadValidation (spaced f +:+ " is invalid");
      mret (MkWorkload a workload release adapter (Some digest))
  | None => mret (MkWorkload a workload release adapter None)
  end.

(** ** Conditions of update commands *)

(** [pattern.fullmatch(value)]: a value that is not a string raises. *)
Definition fullmatch (p : string → bool) (v : json) : result bool :=
  match v with JStr s => mret (p s) | _ => raise EType "expected string or bytes-like object" end.

(** [value in {...}]: an unhashable value raises. *)
Definition member_of (l : list string) (v : json) : result bool :=
  match v with
  | JStr s => mret (among s l)
  | JArr _ | JObj _ => raise EType "unhashable type"
  | _ => mret false
  end.

(** An integer, not a boolean, within bounds. *)
Definition bounded (lo hi : Z) (v : json) : result bool := mret (is_int (λ n, (lo <=? n)%Z && (n <=? hi)%Z) v).

(** [if not a or not b ...: raise]: the first condition that fails or raises. *)
Fixpoint require_all (conditions : list (result bool)) (m : string) : result unit :=
  match conditions with
  | [] => mret ()
  | Ok true :: conditions => require_all conditions m
  | Ok false :: _ => raise EAgentUpdate m
  | Err e :: _ => Err e
  end.

Definition as_str (v : json) : string := match v with JStr s => s | _ => "" end.
Definition as_int (v : json) : Z := match v with JInt n => n | _ => 0%Z end.

Definition architectures : list string := ["linux-x86_64"; "linux-arm64"].
Definition max_artifact_bytes : Z := 256 * 1024 * 1024.
Definition max_targets_version : Z := 2147483647.
Definition max_generation : Z := 999999999.
Definition max_expiry : Z := 9007199254740991.

(** ** Update commands *)

Record AgentArtifact := MkArtifact {
  af_architecture : string; af_manifest_digest : string; af_payload_name : string; af_payload_sha256 : string;
  af_payload_size : Z
}.

Definition agent_artifact (items : list (string * json)) : result AgentArtifact :=
  require_all [member_of architectures (field items "architecture")] "agent artifact architecture is invalid";;
  require_all [fullmatch is_prefixed_digest (field items "oci_manifest_digest")] "agent artifact OCI digest is invalid";;
  require_all [fullmatch is_identifier (field items "payload_name")] "agent payload name is invalid";;
  require_all [fullmatch is_digest (field items "payload_sha256")] "agent payload digest is invalid";;
  require_all [bounded 64 max_artifact_bytes (field items "payload_size")] "agent payload size is invalid";;
  mret (MkArtifact (as_str (field items "architecture")) (as_str (field items "oci_manifest_digest"))
          (as_str (field items "payload_name")) (as_str (field items "payload_sha256"))
          (as_int (field items "payload_size"))).

Record AgentReleaseIdentity := MkReleaseIdentity {
  ri_platform_version : string; ri_build_digest : string; ri_protocol_minimum : Z; ri_protocol_maximum : Z
}.

Definition agent_release_identity (items : list (string * json)) : result AgentReleaseIdentity :=
  require_all [fullmatch is_version (field items "platform_version")] "platform version is invalid";;
  require_all [fullmatch is_prefixed_digest (field items "build_digest")] "platform build digest is invalid";;
  require_all [mret (is_int (λ _, true) (field items "protocol_minimum") && is_int (λ _, true) (field items "protocol_maximum")
                     && (1 <=? as_int (field items "protocol_minimum"))%Z
                     && (as_int (field items "protocol_minimum") <=? as_int (field items "protocol_maximum"))%Z
                     && (as_int (field items "protocol_maximum") <=? 65535)%Z)]
    "agent protocol range is invalid";;
  mret (MkReleaseIdentity (as_str (field items "platform_version")) (as_str (field items "build_digest"))
          (as_int (field items "protocol_minimum")) (as_int (field items "protocol_maximum"))).

(** [_platform_target_matches]. *)
Definition platform_target_matches (name version sha256 : json) : bool :=
  match name, version, sha256 with
  | JStr name, JStr version, JStr sha256 =>
      is_platform_target name
      && eqb name ("platform/releases/" +:+ version +:+ "/" +:+ sha256 +:+ ".json")
      && is_version version && is_digest sha256
  | _, _, _ => false
  end.

Record ActivationAuthorization := MkActivation {
  aa_architecture : string; aa_manifest_digest : string; aa_payload_name : string; aa_payload_sha256 : string;
  aa_payload_size : Z; aa_platform_version : string; aa_build_digest : string; aa_target_name : string;
  aa_target_sha256 : string; aa_targets_version : Z; aa_previous_slot : string; aa_previous_sha256 : string;
  aa_target_slot : string; aa_node_id : string; aa_attempt : Z; aa_claim_deadline : Z;
  aa_previous_generation : Z; aa_operation_id : string; aa_fence : string; aa_expires_at : Z
}.

Definition activation_fields : list string :=
  ["architecture"; "attempt"; "build_digest"; "claim_deadline"; "expires_at"; "fence"; "node_id";
   "oci_manifest_digest"; "operation_id"; "payload_name"; "platform_target_name"; "platform_target_sha256";
   "platform_version"; "previous_sha256"; "previous_generation"; "previous_slot"; "sha256"; "size"; "target_slot";
   "tuf_targets_version"].

Definition slots : list string := ["A"; "B"].

Definition activation_authorization (items : list (string * json)) : result ActivationAuthorization :=
  let f := field items in
  require_all
    [member_of architectures (f "architecture"); fullmatch is_prefixed_digest (f "oci_manifest_digest");
     fullmatch is_identifier (f "payload_name"); fullmatch is_digest (f "sha256");
     bounded 64 max_artifact_bytes (f "size"); fullmatch is_version (f "platform_version");
     fullmatch is_prefixed_digest (f "build_digest"); fullmatch is_digest (f "platform_target_sha256");
     mret (platform_target_matches (f "platform_target_name") (f "platform_version") (f "platform_target_sha256"));
     bounded 1 max_targets_version (f "tuf_targets_version"); member_of slots (f "previous_slot");
     member_of slots (f "target_slot"); mret (negb (py_eqb (f "previous_slot") (f "target_slot")));
     fullmatch is_digest (f "previous_sha256"); fullmatch is_node_id (f "node_id");
     mret (is_int (Z.eqb 1) (f "attempt")); mret (is_int (λ _, true) (f "claim_deadline"));
     bounded 1 max_generation (f "previous_generation"); mret (py_eqb (f "claim_deadline") (f "expires_at"));
     fullmatch is_uuid4 (f "operation_id"); fullmatch is_uuid4 (f "fence"); bounded 1 max_expiry (f "expires_at")]
    "activation authorization is invalid";;
  mret (MkActivation (as_str (f "architecture")) (as_str (f "oci_manifest_digest")) (as_str (f "payload_name"))
          (as_str (f "sha256")) (as_int (f "size")) (as_str (f "platform_version")) (as_str (f "build_digest"))
          (as_str (f "platform_target_name")) (as_str (f "platform_target_sha256")) (as_int (f "tuf_targets_version"))
          (as_str (f "previous_slot")) (as_str (f "previous_sha256")) (as_str (f "target_slot")) (as_str (f "node_id"))
          (as_int (f "attempt")) (as_int (f "claim_deadline")) (as_int (f "previous_generation"))
          (as_str (f "operation_id")) (as_str (f "fence")) (as_int (f "expires_at"))).

Record AuthorizationSignature := MkSignature { sg_key_id : string; sg_value : string }.

Definition authorization_signature (items : list (string * json)) : result AuthorizationSignature :=
  require_all [mret (py_eqb (field items "algorithm") (JStr "ed25519")); fullmatch is_digest (field items "key_id");
               fullmatch (is_hex_of 128) (field items "value")]
    "activation authorization signature is invalid";;
  mret (MkSignature (as_str (field items "key_id")) (as_str (field items "value"))).

Record RollbackAuthorization := MkRollback {
  rb_node_id : string; rb_attempt : Z; rb_claim_deadline : Z; rb_current_generation : Z; rb_current_slot : string;
  rb_current_sha256 : string; rb_operation_id : string; rb_fence : string; rb_expires_at : Z
}.

Definition rollback_fields : list string :=
  ["action"; "attempt"; "claim_deadline"; "current_generation"; "current_sha256"; "current_slot"; "expires_at";
   "fence"; "node_id"; "operation_id"].

Definition rollback_authorization (items : list (string * json)) : result RollbackAuthorization :=
  let f := field items in
  require_all
    [mret (py_eqb (f "action") (JStr "operator-rollback")); fullmatch is_node_id (f "node_id");
     mret (is_int (Z.eqb 1) (f "attempt")); mret (is_int (λ _, true) (f "claim_deadline"));
     mret (py_eqb (f "claim_deadline") (f "expires_at")); bounded 1 max_generation (f "current_generation");
     member_of slots (f "current_slot"); fullmatch is_digest (f "current_sha256"); fullmatch is_uuid4 (f "operation_id");
     fullmatch is_uuid4 (f "fence"); bounded 1 max_expiry (f "expires_at")]
    "rollback authorization is invalid";;
  mret (MkRollback (as_str (f "node_id")) (as_int (f "attempt")) (as_int (f "claim_deadline"))
          (as_int (f "current_generation")) (as_str (f "current_slot")) (as_str (f "current_sha256"))
          (as_str (f "operation_id")) (as_str (f "fence")) (as_int (f "expires_at"))).

(** [except TypeError]. *)
Definition typed {A} (r : result A) (m : string) : result A :=
  match r with
  | Err (Exn EType _) => raise EAgentUpdate m
  | r => r
  end.

Record AgentUpdateCommand := MkUpdateCommand {
  uc_artifact : AgentArtifact; uc_release : AgentReleaseIdentity; uc_authorization : ActivationAuthorization;
  uc_signature : AuthorizationSignature
}.

Definition parse_update_command (value : json) : result AgentUpdateCommand :=
  items ← mapping_of value ["artifact"; "receipt"; "release"; "signature"] EAgentUpdate
            "agent update payload fields are invalid";
  artifact ← mapping_of (field items "artifact")
               ["architecture"; "oci_manifest_digest"; "payload_name"; "payload_sha256"; "payload_size"]
               EAgentUpdate "agent artifact payload is invalid";
  release ← mapping_of (field items "release")
              ["build_digest"; "platform_version"; "protocol_maximum"; "protocol_minimum"]
              EAgentUpdate "agent release payload is invalid";
  receipt ← mapping_of (field items "receipt") activation_fields EAgentUpdate
              "agent activation authorization is invalid";
  signature ← mapping_of (field items "signature") ["algorithm"; "key_id"; "value"] EAgentUpdate
                "agent activation signature is invalid";
  typed (a ← agent_artifact artifact; r ← agent_release_identity release; auth ← activation_authorization receipt;
         s ← authorization_signature signature; mret (MkUpdateCommand a r auth s))
    "agent update payload types are invalid".

Record AgentRollbackCommand := MkRollbackCommand {
  rc_authorization : RollbackAuthorization; rc_signature : AuthorizationSignature
}.

Definition parse_rollback_command (value : json) : result AgentRollbackCommand :=
  items ← mapping_of value ["receipt"; "signature"] EAgentUpdate "agent rollback payload fields are invalid";
  receipt ← mapping_of (field items "receipt") rollback_fields EAgentUpdate "agent rollback authorization is invalid";
  signature ← mapping_of (field items "signature") ["algorithm"; "key_id"; "value"] EAgentUpdate
                "agent rollback signature is invalid";
  typed (auth ← rollback_authorization receipt; s ← authorization_signature signature; mret (MkRollbackCommand auth s))
    "agent rollback payload types are invalid".
