(* ===== verification/Registry.v ===== *)
(** * The operation registry of an agent
    ([agent/src/vonk_agent/operations.py], [deadlines.py])

    The dispatch of a claim: its payload is validated, a finished attempt is
    replayed, an interrupted one is inspected, and a new one is recorded in the
    journal before its handler runs; whatever the handler does, its result is
    recorded. The handlers are the boundary classes of the module: parameters
    over the world [W] they act on. What the heartbeat thread does to the journal
    while a handler runs is a parameter as well. A monotonic clock is read in
    microseconds. *)

From S2P Require Import Prelude Identifiers Canonical Documents JsonText Datetimes Contracts PackageState PackageEngine Protocol.
From S2P Require Import Messages AttemptStore Requests.

(** ** Deadlines on the monotonic clock *)

Record MonotonicDeadline := Deadline { wall_deadline : Z; absolute_monotonic : Z }.

(** [MonotonicDeadline.bind], at a reading of both clocks. *)
Definition bind_deadline (wall_now monotonic_now value : Z) : result MonotonicDeadline :=
  ensure (0 <? value - wall_now)%Z EDeadlineBinding "deadline has elapsed";;
  mret (Deadline value (monotonic_now + (value - wall_now))).

Definition check_deadline (monotonic_now : Z) (d : MonotonicDeadline) : result unit :=
  ensure (0 <? absolute_monotonic d - monotonic_now)%Z EDeadlineBinding "deadline has elapsed".

Definition extend_deadline (wall_now monotonic_now value : Z) (d : MonotonicDeadline) : result MonotonicDeadline :=
  candidate ← bind_deadline wall_now monotonic_now value;
  ensure (negb (value <? wall_deadline d)%Z) EDeadlineBinding "deadline moved backwards";;
  if (value =? wall_deadline d)%Z then mret d
  else mret (Deadline value (Z.max (absolute_monotonic d) (absolute_monotonic candidate))).

(** ** Boundaries *)

Inductive ReleaseDisposition := ReleaseReady | ReleaseSafeToResume | ReleaseCompleted | ReleaseOperatorIntervention.
Inductive WorkloadDisposition :=
| WorkloadReady | WorkloadSafeToRetry | WorkloadCompleted | WorkloadCompensate | WorkloadOperatorIntervention.

Record ReleaseInstallerBoundary (W : Type) := MkReleaseBoundary {
  release_install : ReleaseRequest → MonotonicDeadline → M W json;
  release_inspect : ReleaseRequest → MonotonicDeadline → M W (ReleaseDisposition * option json)
}.
Record WorkloadOperationsBoundary (W : Type) := MkWorkloadBoundary {
  workload_execute : WorkloadRequest → MonotonicDeadline → OperationBinding → M W json;
  workload_inspect : WorkloadRequest → MonotonicDeadline → OperationBinding → M W (WorkloadDisposition * option json)
}.
Record AgentUpdateOperationsBoundary (W : Type) := MkUpdateBoundary {
  update_execute : AgentUpdateCommand → MonotonicDeadline → string → string → M W json;
  update_rollback : AgentRollbackCommand → MonotonicDeadline → string → string → M W json
}.
Record PackageOperationsBoundary (W : Type) := MkPackageBoundary {
  package_execute : PackageOperationRequest → OperationBinding → MonotonicDeadline → M W json;
  package_inspect : PackageOperationRequest → OperationBinding → MonotonicDeadline → M W (PackageDisposition * option json)
}.
Arguments release_install {W}. Arguments release_inspect {W}. Arguments workload_execute {W}. Arguments workload_inspect {W}.
Arguments update_execute {W}. Arguments update_rollback {W}. Arguments package_execute {W}. Arguments package_inspect {W}.

Record OperationContext (W : Type) := MkContext {
  ctx_node_id : string;
  ctx_probe : MonotonicDeadline → M W json;
  ctx_releases : option (ReleaseInstallerBoundary W);
  ctx_workloads : option (WorkloadOperationsBoundary W);
  ctx_updates : option (AgentUpdateOperationsBoundary W);
  ctx_packages : option (PackageOperationsBoundary W)
}.
Arguments ctx_node_id {W}. Arguments ctx_probe {W}. Arguments ctx_releases {W}. Arguments ctx_workloads {W}.
Arguments ctx_updates {W}. Arguments ctx_packages {W}.

(** ** Validation *)

Inductive operation_request :=
| ProbeRequest (require_zero_compute : bool)
| ReleaseOperation (r : ReleaseRequest)
| UpdateOperation (c : AgentUpdateCommand)
| RollbackOperation (c : AgentRollbackCommand)
| PackageOperation (r : PackageOperationRequest)
| WorkloadOperation (r : WorkloadRequest).

Definition workload_action (o : AgentOperation) : option WorkloadAction :=
  match o with
  | WORKLOAD_PREPARE => Some WorkloadPrepare
  | WORKLOAD_START => Some WorkloadStart
  | WORKLOAD_STOP => Some WorkloadStop
  | WORKLOAD_HEALTH => Some WorkloadHealth
  | WORKLOAD_VERIFY => Some WorkloadVerify
  | _ => None
  end.

(** [operation in PACKAGE_OPERATIONS]. *)
Definition is_package_operation (o : AgentOperation) : bool := release_bound o || eqb o PACKAGE_GC.

(** [except E: raise AgentProtocolError(m)]. *)
Definition as_protocol_error {A} (c : exn_class) (m : string) (r : result A) : result A :=
  match r with
  | Err e => if eqb (exn_cls e) c then raise EAgentProtocol m else Err e
  | r => r
  end.

Definition zero_compute : json := JObj [("require_active_nvidia_compute_processes", JInt 0)].

Definition unsupported {A} (m : string) : result A := raise EUnsupportedOperation m.

Section registry.
Context {W : Type}.
Implicit Types (ctx : OperationContext W) (claim : AgentClaim).

Definition validate_claim claim ctx : result operation_request :=
  ensure (eqb (id_node (claim_identity claim)) (ctx_node_id ctx)) EAgentProtocol "claim node does not match this agent";;
  let payload := claim_payload claim in
  match claim_operation claim with
  | NODE_PROBE =>
      if py_eqb payload (JObj []) then mret (ProbeRequest false)
      else if py_eqb payload zero_compute then mret (ProbeRequest true)
      else raise EAgentProtocol "node probe payload is invalid"
  | RELEASE_INSTALL =>
      match ctx_releases ctx with
      | None => unsupported "release installation is unavailable"
      | Some _ => r ← as_protocol_error EReleaseValidation "release payload is invalid" (parse_release_request payload);
                  mret (ReleaseOperation r)
      end
  | AGENT_UPDATE =>
      match ctx_updates ctx with
      | None => unsupported "agent update is unavailable"
      | Some _ => c ← as_protocol_error EAgentUpdate "agent update payload is invalid" (parse_update_command payload);
                  mret (UpdateOperation c)
      end
  | AGENT_ROLLBACK =>
      match ctx_updates ctx with
      | None => unsupported "agent rollback is unavailable"
      | Some _ => c ← as_protocol_error EAgentUpdate "agent rollback payload is invalid" (parse_rollback_command payload);
                  mret (RollbackOperation c)
      end
  | o =>
      if is_package_operation o then
        match ctx_packages ctx with
        | None => unsupported "package operations are unavailable"
        | Some _ => r ← parse_package_request o payload; mret (PackageOperation r)
        end
      else match workload_action o with
           | Some action =>
               match ctx_workloads ctx with
               | None => unsupported "workload operations are unavailable"
               | Some _ => r ← as_protocol_error EWorkloadValidation "workload payload is invalid"
                                 (parse_workload_request action payload);
                           mret (WorkloadOperation r)
               end
           | None => unsupported "operation is not compiled into this agent"
           end
  end.

(** ** Handlers *)

(** [OperationBinding.from_claim]; workload handlers receive the same identity
    without the node. *)
Definition binding_of claim : OperationBinding :=
  let i := claim_identity claim in Binding (id_job i) (id_operation i) (id_attempt i) (id_fence i) (id_node i).

(** [mapping.get(key)] of a value that may not be a mapping. *)
Definition get_item (v : json) (key : string) : json :=
  match v with JObj items => field items key | _ => JNull end.

Definition assert_boundary {B} (o : option B) : M W B :=
  match o with Some b => mret b | None => throw EAssertion "boundary" end.

(** [int(claim.deadline.timestamp())]. *)
Definition lease_matches claim (node_id : string) (attempt claim_deadline : Z) : bool :=
  let i := claim_identity claim in
  eqb node_id (id_node i) && (attempt =? id_attempt i)%Z && (claim_deadline =? Z.quot (id_deadline i) microsecond)%Z.

Definition execute_request claim (request : operation_request) ctx (deadline : MonotonicDeadline) : M W json :=
  let i := claim_identity claim in
  match request with
  | ProbeRequest require_zero_compute =>
      evidence ← ctx_probe ctx deadline;
      if require_zero_compute then
        let count := get_item (get_item (get_item evidence "vonk_forge") "accelerator") "active_nvidia_compute_processes" in
        lift (ensure (is_int (Z.eqb 0) count) (EProbe "probe_failed") "node compute occupancy is not clean");;
        mret evidence
      else mret evidence
  | ReleaseOperation r => b ← assert_boundary (ctx_releases ctx); release_install b r deadline
  | UpdateOperation c =>
      b ← assert_boundary (ctx_updates ctx);
      let a := uc_authorization c in
      lift (ensure (lease_matches claim (aa_node_id a) (aa_attempt a) (aa_claim_deadline a)) EAgentUpdate
              "activation authorization does not match the claimed node lease");;
      update_execute b c deadline (id_operation i) (id_fence i)
  | RollbackOperation c =>
      b ← assert_boundary (ctx_updates ctx);
      let a := rc_authorization c in
      lift (ensure (lease_matches claim (rb_node_id a) (rb_attempt a) (rb_claim_deadline a)) EAgentUpdate
              "rollback authorization does not match the claimed node lease");;
      update_rollback b c deadline (id_operation i) (id_fence i)
  | PackageOperation r => b ← assert_boundary (ctx_packages ctx); package_execute b r (binding_of claim) deadline
  | WorkloadOperation r => b ← assert_boundary (ctx_workloads ctx); workload_execute b r deadline (binding_of claim)
  end.

(** ** Inspection *)

Inductive InspectionDisposition :=
| InspectReady | InspectSafeToRetry | InspectCompleted | InspectCompensate | InspectOperatorIntervention.

Record OperationInspection := Inspection {
  oi_disposition : InspectionDisposition; oi_result : option AgentResult; oi_canonical_result : option string;
  oi_evidence : option json
}.

Definition inspected (d : InspectionDisposition) (evidence : option json) : OperationInspection :=
  Inspection d None None evidence.

Definition package_inspection (d : PackageDisposition) : InspectionDisposition :=
  match d with
  | READY => InspectOperatorIntervention
  | SAFE_TO_RETRY => InspectSafeToRetry
  | COMPLETED => InspectCompleted
  | COMPENSATE => InspectCompensate
  | OPERATOR_INTERVENTION => InspectOperatorIntervention
  end.
Definition release_inspection (d : ReleaseDisposition) : InspectionDisposition :=
  match d with
  | ReleaseReady => InspectOperatorIntervention
  | ReleaseSafeToResume => InspectSafeToRetry
  | ReleaseCompleted => InspectCompleted
  | ReleaseOperatorIntervention => InspectOperatorIntervention
  end.
Definition workload_inspection (d : WorkloadDisposition) : InspectionDisposition :=
  match d with
  | WorkloadReady => InspectOperatorIntervention
  | WorkloadSafeToRetry => InspectSafeToRetry
  | WorkloadCompleted => InspectCompleted
  | WorkloadCompensate => InspectCompensate
  | WorkloadOperatorIntervention => InspectOperatorIntervention
  end.

(** The readings of the clocks during one call, in microseconds. *)
Record readings := Readings {
  rd_recovery : Z; rd_recovery_wall : Z; rd_recovery_monotonic : Z;
  rd_wall : Z; rd_monotonic : Z; rd_begin : Z; rd_finish : Z
}.

(** [_recovery_deadline]. *)
Definition recovery_deadline (t : readings) : result MonotonicDeadline :=
  bind_deadline (rd_recovery_wall t) (rd_recovery_monotonic t) (rd_recovery t + 15 * microsecond).

Definition inspect_request (t : readings) claim (request : operation_request) ctx : M W OperationInspection :=
  match request with
  | PackageOperation r =>
      b ← assert_boundary (ctx_packages ctx);
      d ← lift (recovery_deadline t);
      '(disposition, evidence) ← package_inspect b r (binding_of claim) d;
      mret (inspected (package_inspection disposition) evidence)
  | ProbeRequest _ => mret (inspected InspectSafeToRetry None)
  | UpdateOperation _ | RollbackOperation _ => mret (inspected InspectOperatorIntervention None)
  | ReleaseOperation r =>
      b ← assert_boundary (ctx_releases ctx);
      d ← lift (recovery_deadline t);
      '(disposition, evidence) ← release_inspect b r d;
      mret (inspected (release_inspection disposition) evidence)
  | WorkloadOperation r =>
      if among (claim_operation claim) [WORKLOAD_HEALTH; WORKLOAD_VERIFY]
      then mret (inspected InspectSafeToRetry None)
      else
        b ← assert_boundary (ctx_workloads ctx);
        d ← lift (recovery_deadline t);
        '(disposition, evidence) ← workload_inspect b r d (binding_of claim);
        mret (inspected (workload_inspection disposition) evidence)
  end.

(** ** Results *)

Definition result_of claim (state : string) (evidence : json) : result AgentResult :=
  agent_result (claim_identity claim) state evidence.

Definition probe_error_codes : list string :=
  ["probe_failed"; "probe_timeout"; "probe_output_limit"; "probe_result_limit"; "probe_collector_failed";
   "probe_security_failure"].

(** [_stable_error_code]; the error code of a [ProbeError] is that of its class. *)
Definition stable_error_code (e : exn) (o : AgentOperation) : string :=
  if is_package_operation o then "package_operation_failed"
  else if eqb o AGENT_UPDATE then "agent_update_failed"
  else if eqb o AGENT_ROLLBACK then "agent_rollback_failed"
  else if eqb o RELEASE_INSTALL then "release_install_failed"
  else if is_Some_b (workload_action o) then "workload_failed"
  else match exn_cls e with
       | EProbe code => if among code probe_error_codes then code else "probe_failed"
       | EToolSecurity => "probe_security_failure"
       | _ => "probe_failed"
       end.

Definition waiting_reason (d : InspectionDisposition) : option string :=
  match d with
  | InspectCompensate => Some "compensation-required"
  | InspectOperatorIntervention => Some "operator-intervention-required"
  | _ => None
  end.

Record OperationExecution := Execution { ex_result : AgentResult; ex_canonical_result : string; ex_replayed : bool }.

(** [assert record.result is not None ...; OperationExecution(...)]. *)
Definition execution_of (a : AgentAttemptRecord) (replayed : bool) : result OperationExecution :=
  match ar_result a, ar_canonical_result a with
  | Some v, Some text => mret (Execution v text replayed)
  | _, _ => raise EAssertion "result"
  end.

(** ** The state of an agent *)

Record agent := Agent { ag_store : list attempt_row; ag_world : W }.

Definition on_store {A} (m : M (list attempt_row) A) : M agent A :=
  zoom ag_store (λ t s, Agent t (ag_world s)) m.
Definition on_world {A} (m : M W A) : M agent A := zoom ag_world (λ w s, Agent (ag_store s) w) m.

(** Another thread: its exceptions do not reach this one. *)
Definition silently {A} (m : M agent A) : M agent unit := λ s, (Ok (), (m s).2).

(** [_require_exact]. *)
Definition require_exact (a : AgentAttemptRecord) claim : result unit :=
  ensure (eqb (ar_canonical_claim a) (canonical_message claim)) EAgentStateConflict
    "claim conflicts with unresolved state".

(** [context.state.finish(result)] and the execution it stands for. *)
Definition finish_with (t : readings) (v : AgentResult) (replayed : bool) : M agent OperationExecution :=
  finished ← on_store (finish (rd_finish t) v);
  lift (execution_of finished replayed).

(** [report_active]: the callback runs once; what the thread it starts does while
    the next step runs follows that step. *)
Context (on_active : option (M agent unit)) (heartbeats : M agent unit).

Definition report_active (already : bool) : M agent unit :=
  match on_active with
  | Some callback => if already then mret () else callback
  | None => mret ()
  end.

(** The branch of an attempt that is in the journal without a result: an
    execution, or nothing when the handler may run again. *)
Definition resume (t : readings) claim (request : operation_request) ctx : M agent (option OperationExecution) :=
  report_active false;;
  inspection ← on_world (inspect_request t claim request ctx);
  silently heartbeats;;
  match oi_disposition inspection, oi_evidence inspection with
  | InspectCompleted, Some evidence =>
      v ← lift (result_of claim "succeeded" (JObj [("status", JStr "ok"); ("evidence", evidence)]));
      execution ← finish_with t v true;
      mret (Some execution)
  | disposition, _ =>
      match waiting_reason disposition with
      | Some reason =>
          v ← lift (result_of claim "waiting-for-operator" (JObj [("reason", JStr reason)]));
          execution ← finish_with t v true;
          mret (Some execution)
      | None =>
          match disposition with
          | InspectSafeToRetry => mret None
          | _ => throw EAgentStateConflict "interrupted mutation requires explicit disposition"
          end
      end
  end.

(** The handler's evidence as a result; every exception becomes a failed one. *)
Definition run_handler claim (request : operation_request) ctx (deadline : MonotonicDeadline) : M agent AgentResult :=
  try_catch
    (evidence ← on_world (execute_request claim request ctx deadline);
     lift (result_of claim "succeeded" (JObj [("status", JStr "ok"); ("evidence", evidence)])))
    (λ e, lift (result_of claim "failed"
            (JObj [("status", JStr "failed"); ("error_code", JStr (stable_error_code e (claim_operation claim)))]))).

Definition execution_deadline (t : readings) claim (given : option MonotonicDeadline) : result MonotonicDeadline :=
  match given with
  | None => bind_deadline (rd_wall t) (rd_monotonic t) (id_deadline (claim_identity claim))
  | Some d => check_deadline (rd_monotonic t) d;; mret d
  end.

(** From the look at the pending attempt to the end. The deadline is a shared
    object, which heartbeats extend: it is read when it is checked. *)
Definition start (t : readings) claim (request : operation_request) ctx (given : agent → option MonotonicDeadline)
    (interrupted : bool) : M agent OperationExecution :=
  pending ← on_store recover_pending;
  replay ← match pending with
           | Some a =>
               lift (require_exact a claim);;
               mret (match ar_result a, ar_canonical_result a with
                     | Some v, Some text => Some (Execution v text true)
                     | _, _ => None
                     end)
           | None => mret None
           end;
  match replay with
  | Some execution => mret execution
  | None =>
      s ← get;
      match execution_deadline t claim (given s) with
      | Err _ =>
          if negb interrupted then throw EAgentProtocol "claim deadline has expired"
          else
            a ← on_store (begin (rd_begin t) claim);
            match ar_result a with
            | Some _ => lift (execution_of a true)
            | None =>
                report_active interrupted;;
                v ← lift (result_of claim "failed"
                            (JObj [("status", JStr "failed"); ("error_code", JStr "claim_deadline_expired")]));
                finish_with t v interrupted
            end
      | Ok deadline =>
          a ← on_store (begin (rd_begin t) claim);
          match ar_result a with
          | Some _ => lift (execution_of a true)
          | None =>
              report_active interrupted;;
              v ← run_handler claim request ctx deadline;
              silently heartbeats;;
              finish_with t v false
          end
      end
  end.

(** [OperationRegistry.execute]. *)
Definition registry_execute (t : readings) claim ctx (given : agent → option MonotonicDeadline) : M agent OperationExecution :=
  request ← lift (validate_claim claim ctx);
  exact ← on_store (lookup_exact claim);
  match exact with
  | Some a =>
      match ar_result a with
      | Some _ => lift (execution_of a true)
      | None =>
          resumed ← resume t claim request ctx;
          match resumed with
          | Some execution => mret execution
          | None => start t claim request ctx given true
          end
      end
  | None => start t claim request ctx given false
  end.

(** [OperationRegistry.inspect]. *)
Definition registry_inspect (t : readings) claim ctx : M agent OperationInspection :=
  request ← lift (validate_claim claim ctx);
  exact ← on_store (lookup_exact claim);
  match exact with
  | Some a =>
      match ar_result a with
      | None => on_world (inspect_request t claim request ctx)
      | Some v => mret (Inspection InspectCompleted (Some v) (ar_canonical_result a) None)
      end
  | None =>
      active ← on_store recover_active;
      unresolved ← match active with Some a => mret (Some a) | None => on_store recover_pending end;
      match unresolved with
      | None => mret (inspected InspectReady None)
      | Some a =>
          lift (require_exact a claim);;
          match ar_result a with
          | None => on_world (inspect_request t claim request ctx)
          | Some v => mret (Inspection InspectCompleted (Some v) (ar_canonical_result a) None)
          end
      end
  end.
End registry.
Arguments agent : clear implicits.
