(* ===== verification/RegistryFacts.v ===== *)
(** * Facts about the operation registry

    A finished attempt is replayed, a new one always ends with a recorded result
    whatever its handler does, and an interrupted one runs again only when the
    inspection of its boundary says so. *)

From S2P Require Import Prelude Identifiers Canonical Documents JsonText Datetimes Contracts PackageState PackageEngine Protocol.
From S2P Require Import Messages AttemptStore AttemptFacts Requests Registry.

#[local] Opaque isoformat fromisoformat canonical_message.

(** ** Deadlines *)

(** Extending an execution deadline never shortens it: the new wall deadline is
    the one asked for and not earlier than the old one, the monotonic instant does
    not move back, and an expired or earlier deadline is refused. *)
Theorem deadline_only_extends wall monotonic value d d' :
  extend_deadline wall monotonic value d = Ok d' →
  wall_deadline d' = value ∧ (wall_deadline d <= wall_deadline d')%Z ∧ (wall < value)%Z
  ∧ (absolute_monotonic d <= absolute_monotonic d')%Z.
Proof.
  unfold extend_deadline, bind_deadline. intros H. inv_run_all. bool_facts.
  destruct (value =? wall_deadline d)%Z eqn:E; inv_run_all; subst; bool_facts; cbn; lia.
Qed.

Lemma deadline_only_extends_witness :
  wall_deadline (Deadline 70 90) = 70%Z ∧ (wall_deadline (Deadline 50 60) <= wall_deadline (Deadline 70 90))%Z ∧ (10 < 70)%Z
  ∧ (absolute_monotonic (Deadline 50 60) <= absolute_monotonic (Deadline 70 90))%Z.
Proof. apply (deadline_only_extends 10 30 70 (Deadline 50 60) (Deadline 70 90)). reflexivity. Defined.

(** ** Lookups *)

Lemma lookup_exact_none t claim : sqlite_int (id_attempt (claim_identity claim)) = Ok () →
  message_key (claim_identity claim) ∉ map row_key t → lookup_exact claim t = (Ok None, t).
Proof.
  intros Hsql Hn. unfold lookup_exact. rewrite (M_bind_run _ _ _ _ _ (keyed_rows_run _ _ _ Hsql)).
  rewrite (proj2 (filter_none _ _)); [done|]. intros r Hr. by rewrite (proj1 (not_in_map row_key _ t) Hn r Hr).
Qed.

Lemma lookup_exact_some t claim r a : journal t → sqlite_int (id_attempt (claim_identity claim)) = Ok () → r ∈ t →
  names (claim_identity claim) r → at_claim r = canonical_message claim → record r = Ok a →
  lookup_exact claim t = (Ok (Some a), t).
Proof.
  intros Hj Hsql Hin [Hk Hf] Hc Ha. pose proof Hin as (l & k & E)%list_elem_of_split. pose proof (row_alone t l r k _ Hj E Hk) as Ho.
  unfold lookup_exact. rewrite (M_bind_run _ _ _ _ _ (keyed_rows_run _ _ _ Hsql)).
  assert (filter (λ r, eqb (row_key r) (message_key (claim_identity claim)) && true = true) t = [r]) as ->.
  { rewrite E. apply filter_singleton; [by rewrite Hk, eqb_refl|..]; intros y Hy;
      (assert (row_key y ≠ message_key (claim_identity claim)) as ->%eqb_false by auto); done. }
  rewrite (M_bind_run _ _ _ a t) by by rewrite Ha. pose proof (co_copy _ _ (record_coherent _ _ Ha)) as Ec.
  rewrite (M_bind_run _ _ _ () t); [done|]. unfold lift. f_equal. apply ensure_ok. rewrite Ec. cbn [ar_fence ar_canonical_claim].
  by rewrite Hf, Hc, !eqb_refl.
Qed.

Section facts.
Context {W : Type} (ctx : OperationContext W).
Implicit Types (s : agent W) (claim : AgentClaim).

Lemma on_store_run {A} (m : M (list attempt_row) A) s r t :
  m (ag_store s) = (r, t) → on_store m s = (r, Agent t (ag_world s)).
Proof. intros H. unfold on_store, zoom. by rewrite H. Qed.

Lemma on_store_read {A} (m : M (list attempt_row) A) s r : m (ag_store s) = (r, ag_store s) → on_store m s = (r, s).
Proof. intros H. rewrite (on_store_run _ _ _ _ H). by destruct s. Qed.

(** The journal holds the claim with this record. *)
Definition recorded s claim (a : AgentAttemptRecord) : Prop :=
  ∃ r, r ∈ ag_store s ∧ names (claim_identity claim) r ∧ at_claim r = canonical_message claim ∧ record r = Ok a.

Lemma recorded_lookup s claim a : journal (ag_store s) → sqlite_int (id_attempt (claim_identity claim)) = Ok () →
  recorded s claim a → on_store (lookup_exact claim) s = (Ok (Some a), s).
Proof. intros Hj Hsql (r & Hin & Hn & Hc & Ha). by eapply on_store_read, lookup_exact_some. Qed.

(** A finished attempt is replayed: the registry returns the stored result of the
    claim, its stored bytes included, and neither the journal nor the world of the
    handlers changes, whether or not the result was acknowledged. *)
Theorem finished_attempt_is_replayed on_active beats t s claim given request a v :
  journal (ag_store s) → sqlite_int (id_attempt (claim_identity claim)) = Ok () →
  validate_claim claim ctx = Ok request → recorded s claim a → ar_result a = Some v →
  registry_execute on_active beats t claim ctx given s = (Ok (Execution v (canonical_message v) true), s).
Proof.
  intros Hj Hsql Hval Hrec Hv. unfold registry_execute. rewrite (M_bind_run _ _ _ request s) by by rewrite Hval.
  rewrite (M_bind_run _ _ _ _ _ (recorded_lookup _ _ _ Hj Hsql Hrec)), Hv. destruct Hrec as (r & _ & _ & _ & Ha).
  pose proof (record_coherent _ _ Ha) as Hc. pose proof (co_result _ _ Hc) as Hres. rewrite Hv in Hres.
  inversion Hres as [text ? [_ ->] Et|]. unfold execution_of. rewrite Hv, (co_copy _ _ Hc). cbn [ar_canonical_result].
  subst. by rewrite <- Et.
Qed.

(** ** Results of handlers *)

Definition failed_document (code : string) : json := JObj [("status", JStr "failed"); ("error_code", JStr code)].

Definition error_codes : list string :=
  ["claim_deadline_expired"; "package_operation_failed"; "agent_update_failed"; "agent_rollback_failed";
   "release_install_failed"; "workload_failed"] ++ probe_error_codes.

Lemma stable_error_code_known e o : stable_error_code e o ∈ error_codes.
Proof.
  unfold stable_error_code, error_codes. repeat case_match; try (apply among_true; reflexivity).
  apply elem_of_app. right. by apply among_true.
Qed.

Lemma failed_document_ok code : code ∈ error_codes →
  ∃ d, validate_bounded_document (failed_document code) "result" = Ok d.
Proof.
  intros Hin. assert (Forall (λ code, is_ok (validate_bounded_document (failed_document code) "result") = true) error_codes) as Hall.
  { repeat constructor; vm_compute; reflexivity. }
  rewrite Forall_forall in Hall. specialize (Hall _ Hin). destruct (validate_bounded_document _ _) as [d|]; [by exists d|done].
Qed.

(** A result that belongs to the claim. *)
Definition result_for claim (v : AgentResult) : Prop := valid v ∧ result_identity v = claim_identity claim.

Lemma result_of_valid claim state document v : valid claim → dict_keys document = true →
  result_of claim state document = Ok v → result_for claim v ∧ result_state v = state.
Proof.
  intros (_ & Hd & _) Hk H. split; [split|].
  - by eapply result_is_valid.
  - by apply made_result in H as (_ & _ & d & _ & ->).
  - by apply made_result in H as (_ & _ & d & _ & ->).
Qed.

Lemma failed_result claim code : valid claim → code ∈ error_codes →
  ∃ v, result_of claim "failed" (failed_document code) = Ok v ∧ result_for claim v ∧ result_state v = "failed".
Proof.
  intros Hc Hcode. destruct (failed_document_ok code Hcode) as [d Hd]. pose proof (valid_claim_facts _ Hc) as ((Hi & _) & _).
  assert (result_of claim "failed" (failed_document code) = Ok (MkResult (claim_identity claim) "failed" d)) as H.
  { apply made_result. split_and!; [done|apply among_true; reflexivity|by exists d]. }
  exists (MkResult (claim_identity claim) "failed" d). split; [done|]. by apply (result_of_valid _ _ (failed_document code) _ Hc).
Qed.

(** Handlers return mappings. *)
Definition mapping_evidence {A} (f : A → option json) (m : M W A) : Prop :=
  ∀ w a w' e, m w = (Ok a, w') → f a = Some e → dict_keys e = true.

(** Whatever the handler does, there is a result, and the journal is untouched. *)
Lemma run_handler_result claim request d s : valid claim → mapping_evidence Some (execute_request claim request ctx d) →
  ∃ v s', run_handler claim request ctx d s = (Ok v, s') ∧ ag_store s' = ag_store s ∧ result_for claim v
    ∧ (result_state v = "succeeded" ∨ result_state v = "failed").
Proof.
  intros Hc Hm. unfold run_handler, try_catch, on_world, mbind, M_bind, zoom.
  destruct (execute_request claim request ctx d (ag_world s)) as [[e|e] w] eqn:He; cbn [lift].
  - destruct (result_of claim "succeeded" (JObj [("status", JStr "ok"); ("evidence", e)])) as [v|x] eqn:Hv.
    + apply result_of_valid in Hv as [? ?]; [|done|cbn; by rewrite (Hm _ _ _ e He eq_refl)].
      eexists v, _. split_and!; [done|done|done|by left].
    + destruct (failed_result claim (stable_error_code x (claim_operation claim)) Hc (stable_error_code_known _ _)) as (v & Hr & Hf & Hst).
      unfold failed_document in Hr. eexists v, _. rewrite Hr. split_and!; [done|done|done|by right].
  - destruct (failed_result claim (stable_error_code e (claim_operation claim)) Hc (stable_error_code_known _ _)) as (v & Hr & Hf & Hst).
    unfold failed_document in Hr. eexists v, _. rewrite Hr. split_and!; [done|done|done|by right].
Qed.

(** ** New attempts *)

(** What the heartbeat thread and its start may do to the journal. *)
Definition beating (m : M (agent W) unit) : Prop := moves (λ s s', beat_moves (ag_store s) (ag_store s')) m.

(** The callback succeeds in the world [w] when the claim is running. *)
Definition starts_heartbeats (on_active : option (M (agent W) unit)) claim (w : W) : Prop :=
  ∀ callback, on_active = Some callback → beating callback
    ∧ ∀ s, ag_world s = w → journal (ag_store s) → slot_of (ag_store s) = Running claim → ∃ s', callback s = (Ok (), s').

Lemma silently_run {A} (m : M (agent W) A) s : silently m s = (Ok (), (m s).2).
Proof. done. Qed.

Lemma report_active_run on_active already claim s : starts_heartbeats on_active claim (ag_world s) →
  journal (ag_store s) → slot_of (ag_store s) = Running claim →
  ∃ s', report_active on_active already s = (Ok (), s') ∧ beat_moves (ag_store s) (ag_store s').
Proof.
  intros Hon Hj Hr. unfold report_active. destruct on_active as [callback|]; [|by exists s].
  destruct already; [by exists s|]. destruct (Hon callback eq_refl) as [Hb Hok]. destruct (Hok s eq_refl Hj Hr) as [s' Hs].
  exists s'. split; [done|]. specialize (Hb s). by rewrite Hs in Hb.
Qed.

Definition in_time (t : readings) : Prop :=
  in_range_of_years (rd_begin t) = true ∧ in_range_of_years (rd_finish t) = true.

Lemma finish_with_run t v replayed claim s : journal (ag_store s) → slot_of (ag_store s) = Running claim → in_time t →
  sqlite_int (id_attempt (claim_identity claim)) = Ok () → result_for claim v →
  ∃ s', finish_with t v replayed s = (Ok (Execution v (canonical_message v) replayed), s')
    ∧ journal (ag_store s') ∧ slot_of (ag_store s') = Reporting claim v ∧ ag_world s' = ag_world s.
Proof.
  intros Hj Hslot [_ Ht] Hsql [Hv Hi]. destruct (finish_running (ag_store s) claim v (rd_finish t)) as (a & t1 & Hf & Hj1 & Hs1 & Er & Ec);
    try done. exists (Agent t1 (ag_world s)). split_and!; try done. unfold finish_with.
  rewrite (M_bind_run _ _ _ _ _ (on_store_run _ _ _ _ Hf)). unfold execution_of. by rewrite Er, Ec.
Qed.

Lemma new_claim_running t now claim : journal t → valid claim → in_range_of_years now = true →
  admits t (claim_identity claim) →
  journal (t ++ [new_row claim now]) ∧ slot_of (t ++ [new_row claim now]) = Running claim.
Proof.
  intros Hj Hv Hn Ha. pose proof (begin_constraints t claim now Hj Ha) as Hc. pose proof (new_row_record claim now Hv Hn) as Hr. split.
  - constructor; [done|]. rewrite Forall_app. split; [apply Hj|]. constructor; [by eexists|done].
  - by rewrite (slot_middle t (new_row claim now) [] _ Hc eq_refl Hr).
Qed.

(** A new attempt always ends with a recorded result: once a claim is valid, is
    admitted by the journal and has time left, the registry returns a result of that
    very attempt and the journal reports it, whatever the handler returns or raises
    and whatever heartbeats arrive while it runs; no exception of a handler leaves
    the attempt open. *)
Theorem execution_always_reports on_active beats t s claim given request d :
  journal (ag_store s) → valid claim → sqlite_int (id_attempt (claim_identity claim)) = Ok () → in_time t →
  validate_claim claim ctx = Ok request → admits (ag_store s) (claim_identity claim) →
  execution_deadline t claim (given s) = Ok d → mapping_evidence Some (execute_request claim request ctx d) →
  starts_heartbeats on_active claim (ag_world s) → beating beats →
  ∃ v s', registry_execute on_active beats t claim ctx given s = (Ok (Execution v (canonical_message v) false), s')
    ∧ result_for claim v ∧ (result_state v = "succeeded" ∨ result_state v = "failed")
    ∧ journal (ag_store s') ∧ slot_of (ag_store s') = Reporting claim v.
Proof.
  intros Hj Hv Hsql Ht Hval Had Hd Hm Hon Hb. unfold registry_execute. rewrite (M_bind_run _ _ _ request s) by by rewrite Hval.
  rewrite (M_bind_run _ _ _ None s) by (apply on_store_read, lookup_exact_none; [done|apply Had]).
  unfold start. rewrite (M_bind_run _ _ _ None s); last first.
  { apply on_store_read, recover_none. intros r Hr. apply resolved_not_pending, Had, Hr. }
  rewrite (M_bind_run _ _ _ None s) by done. rewrite (M_bind_run _ _ _ s s) by done. rewrite Hd.
  destruct (begin_new (ag_store s) (rd_begin t) claim) as [[_ Hbegin]|[Hn _]]; try done; [apply Ht|apply Had|].
  rewrite (M_bind_run _ _ _ _ _ (on_store_run _ _ _ _ Hbegin)). cbn [new_record ar_result].
  destruct (new_claim_running (ag_store s) (rd_begin t) claim) as [Hj1 Hs1]; try done; [apply Ht|].
  set (s1 := Agent _ (ag_world s)) in *. destruct (report_active_run on_active false claim s1 Hon Hj1 Hs1) as (s2 & Hr2 & Hb2).
  rewrite (M_bind_run _ _ _ _ _ Hr2). destruct (Hb2 Hj1) as (Hj2 & _ & Hs2).
  destruct (run_handler_result claim request d s2 Hv Hm) as (v & s3 & Hr3 & E3 & Hfor & Hst).
  rewrite (M_bind_run _ _ _ _ _ Hr3). rewrite (M_bind_run _ _ _ _ _ (silently_run beats s3)).
  pose proof (Hb s3 : beat_moves (ag_store s3) (ag_store (beats s3).2)) as Hb3. rewrite E3 in Hb3. destruct (Hb3 Hj2) as (Hj4 & _ & Hs4).
  destruct (finish_with_run t v false claim (beats s3).2) as (s5 & Hr5 & ? & Hs5 & _); try done.
  { by rewrite Hs4, Hs2. }
  by exists v, s5.
Qed.

(** ** Interrupted attempts *)

Lemma running_recorded s claim : journal (ag_store s) → slot_of (ag_store s) = Running claim →
  ∃ a, recorded s claim a ∧ ar_result a = None.
Proof.
  intros Hj Hs. destruct (running_row _ _ Hj Hs) as (r & a & Hin & Ha & <- & _ & Er). exists a. split; [|done].
  exists r. split_and!; [done|by eapply claim_names| |done]. by destruct (co_claim _ _ (record_coherent _ _ Ha)).
Qed.

Lemma running_begin now claim s : journal (ag_store s) → slot_of (ag_store s) = Running claim →
  sqlite_int (id_attempt (claim_identity claim)) = Ok () →
  ∃ a, on_store (begin now claim) s = (Ok a, s) ∧ ar_result a = None.
Proof.
  intros Hj Hs Hsql. destruct (running_recorded s claim Hj Hs) as (a & (r & Hin & [Hk Hf] & Hc & Ha) & Er).
  destruct (begin_known (ag_store s) now claim r Hj Hsql Hin Hk) as [(_ & _ & a' & Ha' & Hb)|[Hn _]].
  - exists a. split; [|done]. apply on_store_read. rewrite Hb. congruence.
  - destruct Hn. by exists r.
Qed.

(** The first steps of a call for a running attempt. *)
Lemma registry_execute_running on_active beats t s claim given request : journal (ag_store s) →
  slot_of (ag_store s) = Running claim → sqlite_int (id_attempt (claim_identity claim)) = Ok () →
  validate_claim claim ctx = Ok request →
  registry_execute on_active beats t claim ctx given s =
  (resumed ← resume on_active beats t claim request ctx;
   match resumed with
   | Some execution => mret execution
   | None => start on_active beats t claim request ctx given true
   end) s.
Proof.
  intros Hj Hs Hsql Hval. destruct (running_recorded s claim Hj Hs) as (a & Hrec & Er). unfold registry_execute.
  rewrite (M_bind_run _ _ _ request s) by by rewrite Hval.
  by rewrite (M_bind_run _ _ _ _ _ (recorded_lookup _ _ _ Hj Hsql Hrec)), Er.
Qed.

(** What becomes of an interrupted attempt that may not run again. *)
Definition settled (t : readings) claim (i : OperationInspection) (s : agent W) (outcome : result OperationExecution * agent W) : Prop :=
  ag_world outcome.2 = ag_world s
  ∧ ((∃ v, outcome.1 = Ok (Execution v (canonical_message v) true) ∧ result_for claim v
        ∧ slot_of (ag_store outcome.2) = Reporting claim v
        ∧ result_state v = (if is_Some_b (waiting_reason (oi_disposition i)) then "waiting-for-operator" else "succeeded"))
     ∨ (∃ e, outcome.1 = Err e) ∧ slot_of (ag_store outcome.2) = Running claim).

Lemma waiting_result claim d reason : valid claim → waiting_reason d = Some reason →
  ∃ v, result_of claim "waiting-for-operator" (JObj [("reason", JStr reason)]) = Ok v ∧ result_for claim v
    ∧ result_state v = "waiting-for-operator".
Proof.
  intros Hc Hd. pose proof (valid_claim_facts _ Hc) as ((Hi & _) & _).
  assert (∃ doc, validate_bounded_document (JObj [("reason", JStr reason)]) "result" = Ok doc) as [doc Hdoc].
  { destruct d; cbn in Hd; try done; injection Hd as <-; eexists; vm_compute; reflexivity. }
  assert (result_of claim "waiting-for-operator" (JObj [("reason", JStr reason)])
          = Ok (MkResult (claim_identity claim) "waiting-for-operator" doc)) as H.
  { apply made_result. split_and!; [done|apply among_true; reflexivity|by exists doc]. }
  eexists. split; [exact H|]. by apply (result_of_valid _ _ (JObj [("reason", JStr reason)]) _ Hc).
Qed.

(** The inspection of a running attempt, its heartbeats included. *)
Record interrupted on_active (beats : M (agent W) unit) t claim request s i s2 : Prop := {
  it_request : validate_claim claim ctx = Ok request;
  it_running : slot_of (ag_store s) = Running claim;
  it_inspected : ∃ s1 w, report_active on_active false s = (Ok (), s1)
    ∧ inspect_request t claim request ctx (ag_world s1) = (Ok i, w)
    ∧ s2 = (beats (Agent (ag_store s1) w)).2;
  it_evidence : ∀ e, oi_evidence i = Some e → dict_keys e = true
}.

Lemma interrupted_running on_active beats t claim request s i s2 : interrupted on_active beats t claim request s i s2 →
  journal (ag_store s) → starts_heartbeats on_active claim (ag_world s) → beating beats →
  journal (ag_store s2) ∧ slot_of (ag_store s2) = Running claim.
Proof.
  intros [_ Hs (s1 & w & Hr & _ & ->) _] Hj Hon Hb. destruct (report_active_run on_active false claim s Hon Hj Hs) as (s1' & Hr' & Hm).
  assert (s1' = s1) as -> by congruence. destruct (Hm Hj) as (Hj1 & _ & E1).
  destruct ((Hb (Agent (ag_store s1) w) : beat_moves (ag_store s1) _) Hj1) as (Hj2 & _ & E2). split; [done|congruence].
Qed.

(** What precedes the decision on an interrupted attempt. *)
Lemma interrupted_prefix on_active beats t claim request s i s2 {A} (k : OperationInspection → M (agent W) A) :
  interrupted on_active beats t claim request s i s2 →
  (report_active on_active false;; inspection ← on_world (inspect_request t claim request ctx); silently beats;; k inspection) s
  = k i s2.
Proof.
  intros [_ _ (s1 & w & Hr & Hi & ->) _]. rewrite (M_bind_run _ _ _ _ _ Hr). rewrite (M_bind_run _ _ _ i (Agent (ag_store s1) w)).
  - by rewrite (M_bind_run _ _ _ _ _ (silently_run beats _)).
  - unfold on_world, zoom. by rewrite Hi.
Qed.

(** An attempt that its boundary calls completed, without evidence of what it did,
    is neither settled nor run again: the call raises. *)
Lemma unexplained_completion_raises on_active beats t s claim given request i s2 :
  journal (ag_store s) → sqlite_int (id_attempt (claim_identity claim)) = Ok () →
  interrupted on_active beats t claim request s i s2 → oi_disposition i = InspectCompleted → oi_evidence i = None →
  registry_execute on_active beats t claim ctx given s
  = (Err (Exn EAgentStateConflict "interrupted mutation requires explicit disposition"), s2).
Proof.
  intros Hj Hsql Hit Hd He. pose proof Hit as [Hval Hs _ _].
  rewrite (registry_execute_running _ _ _ _ _ _ _ Hj Hs Hsql Hval). unfold resume, mbind at 1, M_bind at 1.
  by rewrite (interrupted_prefix _ _ _ _ _ _ _ _ _ Hit), Hd, He.
Qed.

(** An interrupted attempt is settled without its handler: unless the inspection
    of its boundary calls it safe to retry, the registry never runs the handler (the
    world is as inspection and heartbeats left it). A completed one with evidence is
    recorded as succeeded, one to compensate or to look at waits for an operator,
    and otherwise the call raises and the attempt stays open. *)
Theorem interrupted_attempt_is_settled on_active beats t s claim given request i s2 :
  journal (ag_store s) → valid claim → sqlite_int (id_attempt (claim_identity claim)) = Ok () → in_time t →
  starts_heartbeats on_active claim (ag_world s) → beating beats → interrupted on_active beats t claim request s i s2 →
  oi_disposition i ≠ InspectSafeToRetry →
  settled t claim i s2 (registry_execute on_active beats t claim ctx given s).
Proof.
  intros Hj Hv Hsql Ht Hon Hb Hit Hd. destruct (interrupted_running _ _ _ _ _ _ _ _ Hit Hj Hon Hb) as [Hj2 Hs2].
  pose proof Hit as [Hval Hs _ Hev]. rewrite (registry_execute_running _ _ _ _ _ _ _ Hj Hs Hsql Hval). unfold resume.
  assert (∀ v, result_for claim v → result_state v = (if is_Some_b (waiting_reason (oi_disposition i)) then "waiting-for-operator" else "succeeded") →
            ∃ s', (execution ← finish_with t v true; mret (Some execution)) s2 = (Ok (Some (Execution v (canonical_message v) true)), s')
              ∧ ag_world s' = ag_world s2 ∧ slot_of (ag_store s') = Reporting claim v) as Hfin.
  { intros v Hfor _. destruct (finish_with_run t v true claim s2) as (s' & Hf & _ & Hs' & Hw); try done.
    exists s'. split_and!; try done. by rewrite (M_bind_run _ _ _ _ _ Hf). }
  unfold mbind at 1, M_bind at 1. rewrite (interrupted_prefix _ _ _ _ _ _ _ _ _ Hit).
  destruct (oi_disposition i) eqn:Ed; [| done | | |]; cbn [waiting_reason is_Some_b is_None_b negb] in *.
  - unfold settled. split; [done|]. right. split; [by eexists|done].
  - destruct (oi_evidence i) as [e|] eqn:Ee; [|unfold settled; split; [done|]; right; split; [by eexists|done]].
    unfold mbind at 1, M_bind at 1, lift at 1.
    destruct (result_of claim "succeeded" (JObj [("status", JStr "ok"); ("evidence", e)])) as [v|x] eqn:Hres;
      [|unfold settled; split; [done|]; right; split; [by eexists|done]].
    apply result_of_valid in Hres as [Hfor Hst]; [|done|cbn; by rewrite (Hev _ eq_refl)].
    destruct (Hfin v Hfor Hst) as (s' & Hf & Hw & Hs'). rewrite Hf. unfold settled. rewrite Ed. split; [done|]. left. by exists v.
  - destruct (waiting_result claim InspectCompensate "compensation-required" Hv eq_refl) as (v & Hres & Hfor & Hst).
    unfold mbind at 1, M_bind at 1, lift at 1. rewrite Hres.
    destruct (Hfin v Hfor Hst) as (s' & Hf & Hw & Hs'). rewrite Hf. unfold settled. rewrite Ed. split; [done|]. left. by exists v.
  - destruct (waiting_result claim InspectOperatorIntervention "operator-intervention-required" Hv eq_refl) as (v & Hres & Hfor & Hst).
    unfold mbind at 1, M_bind at 1, lift at 1. rewrite Hres.
    destruct (Hfin v Hfor Hst) as (s' & Hf & Hw & Hs'). rewrite Hf. unfold settled. rewrite Ed. split; [done|]. left. by exists v.
Qed.

(** An interrupted attempt that its boundary calls safe to retry ends with a
    recorded result as well: the handler runs again, or, when no time is left, the
    attempt is recorded as failed and the handler does not run. *)
Theorem safe_retry_reports on_active beats t s claim given request i s2 :
  journal (ag_store s) → valid claim → sqlite_int (id_attempt (claim_identity claim)) = Ok () → in_time t →
  starts_heartbeats on_active claim (ag_world s) → beating beats → interrupted on_active beats t claim request s i s2 →
  oi_disposition i = InspectSafeToRetry → (∀ d, mapping_evidence Some (execute_request claim request ctx d)) →
  ∃ v s' replayed, registry_execute on_active beats t claim ctx given s = (Ok (Execution v (canonical_message v) replayed), s')
    ∧ result_for claim v ∧ slot_of (ag_store s') = Reporting claim v
    ∧ ((∃ e, execution_deadline t claim (given s2) = Err e) → result_state v = "failed" ∧ ag_world s' = ag_world s2).
Proof.
  intros Hj Hv Hsql Ht Hon Hb Hit Hd Hm. destruct (interrupted_running _ _ _ _ _ _ _ _ Hit Hj Hon Hb) as [Hj2 Hs2].
  pose proof Hit as [Hval Hs _ _]. rewrite (registry_execute_running _ _ _ _ _ _ _ Hj Hs Hsql Hval). unfold resume.
  rewrite (M_bind_run _ _ _ None s2) by by rewrite (interrupted_prefix _ _ _ _ _ _ _ _ _ Hit), Hd.
  unfold start. pose proof (recovery_of_journal _ Hj2) as Hrec. rewrite Hs2 in Hrec. destruct Hrec as (_ & _ & Hp & _).
  rewrite (M_bind_run _ _ _ None s2) by by apply on_store_read. rewrite (M_bind_run _ _ _ None s2) by done.
  destruct (running_begin (rd_begin t) claim s2 Hj2 Hs2 Hsql) as (a & Hbegin & Er).
  rewrite (M_bind_run _ _ _ s2 s2) by done. destruct (execution_deadline t claim (given s2)) as [d|e] eqn:Edl.
  - rewrite (M_bind_run _ _ _ _ _ Hbegin), Er. rewrite (M_bind_run _ _ _ () s2) by by destruct on_active.
    destruct (run_handler_result claim request d s2 Hv (Hm d)) as (v & s3 & Hr3 & E3 & Hfor & Hst).
    rewrite (M_bind_run _ _ _ _ _ Hr3), (M_bind_run _ _ _ _ _ (silently_run beats s3)).
    pose proof (Hb s3 : beat_moves (ag_store s3) (ag_store (beats s3).2)) as Hb3. rewrite E3 in Hb3.
    destruct (Hb3 Hj2) as (Hj4 & _ & Hs4).
    destruct (finish_with_run t v false claim (beats s3).2) as (s5 & Hr5 & _ & Hs5 & _); try done; [by rewrite Hs4|].
    exists v, s5, false. split_and!; try done. by intros [? ?].
  - cbn [negb]. rewrite (M_bind_run _ _ _ _ _ Hbegin), Er. rewrite (M_bind_run _ _ _ () s2) by by destruct on_active.
    destruct (failed_result claim "claim_deadline_expired" Hv) as (v & Hres & Hfor & Hst); [apply among_true; reflexivity|].
    unfold failed_document in Hres. rewrite (M_bind_run _ _ _ v s2) by by rewrite Hres.
    destruct (finish_with_run t v true claim s2) as (s5 & Hr5 & _ & Hs5 & Hw5); try done.
    by exists v, s5, true.
Qed.
End facts.

(** ** Sample calls *)

Module RegistrySample.

Definition package_identity : attempt_identity :=
  Identity "11111111-1111-4111-8111-111111111111" "22222222-2222-4222-8222-222222222222" 2
    "33333333-3333-4333-8333-333333333333" "spk_00000000000000000000000000000000" 1700000000000000.
Definition release : string := "00000000000000000000000000000000000000000000000000000000000000aa".
Definition package_payload : list (string * json) :=
  [("deployment_digest", JStr release); ("deployment_id", JStr "chat"); ("release_digest", JStr release);
   ("schema_version", JInt 1)].
Definition package_claim : AgentClaim :=
  MkClaim package_identity PACKAGE_ACTIVATE "0123456789abcdef0123456789abcdef01234567"
    (utf8_digest (JObj package_payload)) (JObj package_payload).
Definition package_request : PackageOperationRequest :=
  Request PACKAGE_ACTIVATE (Some "chat") (Some release) (Some release) None None None None.

Lemma valid_package_claim : valid package_claim.
Proof. split_and!; vm_compute; reflexivity. Qed.

Definition package_begun : list store_call := [CallBegin 1699999990000000 package_claim].
Lemma package_begun_steps : rtc store_step [] (run_calls package_begun []).
Proof. apply store_calls_steps. repeat constructor; apply valid_package_claim. Qed.
Lemma package_begun_journal : journal (run_calls package_begun []).
Proof. exact (run_journal _ _ package_begun_steps empty_journal). Qed.
Example package_is_running : slot_of (run_calls package_begun []) = Running package_claim.
Proof. vm_compute. reflexivity. Qed.

(** A boundary that was interrupted halfway through an activation. *)
Definition interrupted_boundary (disposition : PackageDisposition) : PackageOperationsBoundary nat :=
  MkPackageBoundary nat (λ _ _ _, modify S;; mret (JObj [])) (λ _ _ _, mret (disposition, None)).
Definition sample_context (disposition : PackageDisposition) : OperationContext nat :=
  MkContext nat "spk_00000000000000000000000000000000" (λ _, mret (JObj [])) None None None
    (Some (interrupted_boundary disposition)).
Definition sample_readings : readings :=
  Readings 1699999991000000 1699999991000000 5000000 1699999991000000 5000000 1699999991000000 1699999992000000.
Definition package_agent : agent nat := Agent (run_calls package_begun []) 0.

Lemma sample_request disposition : validate_claim package_claim (sample_context disposition) = Ok (PackageOperation package_request).
Proof. vm_compute. reflexivity. Qed.

Lemma sample_interrupted disposition :
  interrupted (sample_context disposition) None (mret ()) sample_readings package_claim (PackageOperation package_request) package_agent
    (inspected (package_inspection disposition) None) package_agent.
Proof. constructor; [apply sample_request|exact package_is_running| |done]. exists package_agent, 0. split_and!; vm_compute; reflexivity. Qed.
End RegistrySample.
Import RegistrySample.

Lemma interrupted_attempt_is_settled_witness :
  settled sample_readings package_claim (inspected InspectCompensate None) package_agent
    (registry_execute None (mret ()) sample_readings package_claim (sample_context COMPENSATE) (λ _, None) package_agent).
Proof.
  apply (interrupted_attempt_is_settled (sample_context COMPENSATE) None (mret ()) sample_readings package_agent package_claim
    (λ _, None) (PackageOperation package_request) (inspected (package_inspection COMPENSATE) None) package_agent).
  - exact package_begun_journal.
  - exact valid_package_claim.
  - reflexivity.
  - split; reflexivity.
  - intros callback [=].
  - intros s. reflexivity.
  - apply sample_interrupted.
  - discriminate.
Defined.
