(* ===== verification/AgentLoop.v ===== *)
(** * The loop of an agent ([agent/src/vonk_agent/main.py], [Agent] and [_ActiveHeartbeat])

    One turn of the agent: a result that was not acknowledged is submitted again, an
    interrupted claim is executed before a new one is fetched, and a result is
    acknowledged only after the control plane took it. While a claim is executed, a
    thread renews its deadline and records cancellations. The client, the
    credentials and the readiness callback are parameters over the world [W]; the
    thread's turns during a step are given as a number of turns, each with its
    readings of the clocks. *)

From S2P Require Import Prelude Identifiers Canonical Documents JsonText Datetimes Contracts PackageState PackageEngine Protocol.
From S2P Require Import Messages AttemptStore Requests Registry.

(** [AgentControl], the part the loop uses. *)
Record AgentControl (W : Type) := MkControl {
  control_claim : M W (option AgentClaim);
  control_heartbeat : AgentProgress → M W (AgentDirective + AgentProgress);
  control_result : AgentResult → M W unit;
  control_renew : string → M W Z;
  control_activate : Z → M W unit
}.
Arguments control_claim {W}. Arguments control_heartbeat {W}. Arguments control_result {W}.
Arguments control_renew {W}. Arguments control_activate {W}.

(** [CredentialStore], the part the loop uses: generations stand for issued
    credentials and texts for certificate requests. *)
Record CredentialBoundary (W : Type) := MkCredentials {
  staged_generation : M W (option Z);
  pending_rotation : M W (option (string * string));
  renewal_due : M W bool;
  prepare_rotation : M W (string * string);
  stage_credential : Z → M W unit;
  publish_active : Z → M W unit
}.
Arguments staged_generation {W}. Arguments pending_rotation {W}. Arguments renewal_due {W}.
Arguments prepare_rotation {W}. Arguments stage_credential {W}. Arguments publish_active {W}.

(** The fields of [Agent] and of the heartbeat worker that change. *)
Record loop_world (W : Type) := LoopWorld {
  lw_world : W;
  lw_exchange_reported : bool;
  lw_shutdown : bool;
  lw_started : bool;
  lw_error : option exn;
  lw_deadline : option MonotonicDeadline
}.
Arguments LoopWorld {W}. Arguments lw_world {W}. Arguments lw_exchange_reported {W}. Arguments lw_shutdown {W}.
Arguments lw_started {W}. Arguments lw_error {W}. Arguments lw_deadline {W}.

(** One turn of the heartbeat thread: the readings of its clocks. *)
Record turn := Turn { tn_now : Z; tn_wall : Z; tn_monotonic : Z }.

(** What the environment decides during one call of [run_once]. *)
Record schedule := Schedule {
  sc_execute : Z * Z;
  sc_readings : readings;
  sc_turns : list turn;
  sc_joined : bool;
  sc_acknowledge : Z
}.

Section loop.
Context {W : Type} (client : AgentControl W) (credentials : option (CredentialBoundary W)).
Context (on_authenticated_exchange : M W unit).
Implicit Types (claim : AgentClaim).

Definition on_client {A} (m : M W A) : M (loop_world W) A :=
  zoom lw_world (λ w l, LoopWorld w (lw_exchange_reported l) (lw_shutdown l) (lw_started l) (lw_error l) (lw_deadline l)) m.
Definition set_reported (l : loop_world W) : loop_world W :=
  LoopWorld (lw_world l) true (lw_shutdown l) (lw_started l) (lw_error l) (lw_deadline l).
Definition set_shutdown (l : loop_world W) : loop_world W :=
  LoopWorld (lw_world l) (lw_exchange_reported l) true (lw_started l) (lw_error l) (lw_deadline l).
Definition set_started (l : loop_world W) : loop_world W :=
  LoopWorld (lw_world l) (lw_exchange_reported l) (lw_shutdown l) true (lw_error l) (lw_deadline l).
Definition set_error (e : exn) (l : loop_world W) : loop_world W :=
  LoopWorld (lw_world l) (lw_exchange_reported l) (lw_shutdown l) (lw_started l) (Some e) (lw_deadline l).
Definition set_deadline (d : option MonotonicDeadline) (l : loop_world W) : loop_world W :=
  LoopWorld (lw_world l) (lw_exchange_reported l) (lw_shutdown l) (lw_started l) (lw_error l) d.
(** [_ActiveHeartbeat(...)]: a new worker. *)
Definition new_worker (d : option MonotonicDeadline) (l : loop_world W) : loop_world W :=
  LoopWorld (lw_world l) (lw_exchange_reported l) (lw_shutdown l) false None d.

Notation agent := (Registry.agent (loop_world W)).

Definition on_loop {A} (m : M (loop_world W) A) : M agent A := on_world m.

(** [_report_authenticated_exchange]. *)
Definition report_authenticated_exchange : M (loop_world W) unit :=
  l ← get;
  if lw_exchange_reported l then mret ()
  else on_client on_authenticated_exchange;; modify set_reported.

(** ** The heartbeat worker *)

(** [_ActiveHeartbeat.start]. *)
Definition heartbeat_start claim : M agent unit :=
  s ← get;
  lift (ensure (negb (lw_started (ag_world s))) ERuntime "heartbeat worker already started");;
  exact ← on_store (lookup_exact claim);
  match exact with
  | Some a =>
      lift (ensure (is_None_b (ar_result a) && eqb (ar_state a) "active") ERuntime
              "heartbeat attempt is not durably active");;
      on_loop (modify set_started)
  | None => throw ERuntime "heartbeat attempt is not durably active"
  end.

Definition executing : json := JObj [("phase", JStr "executing")].

(** One round of [_ActiveHeartbeat._run]; true when the thread goes on. *)
Definition heartbeat_round claim (n : turn) : M agent bool :=
  exact ← on_store (lookup_exact claim);
  match exact with
  | None => mret false
  | Some a =>
      match ar_result a with
      | Some _ => mret false
      | None =>
          let deadline := match ar_progress a with
                          | None => id_deadline (claim_identity (ar_claim a))
                          | Some p => id_deadline (progress_identity p)
                          end in
          request ← lift (agent_progress (at_deadline (claim_identity claim) deadline) executing);
          response ← on_loop (on_client (control_heartbeat client request));
          directive ← match response with
                      | inl d => mret d
                      | inr p => lift (agent_directive (progress_identity p) false)
                      end;
          persisted ← on_store (apply_directive (tn_now n) request directive true);
          if negb (eqb (ar_state persisted) "active") then mret false
          else
            s ← get;
            match lw_deadline (ag_world s) with
            | Some d =>
                d' ← lift (extend_deadline (tn_wall n) (tn_monotonic n) (id_deadline (directive_identity directive)) d);
                on_loop (modify (set_deadline (Some d')))
            | None => mret ()
            end;;
            on_loop report_authenticated_exchange;;
            mret true
      end
  end.

(** The thread ends when it is told to, and keeps the exception that ended it. *)
Fixpoint heartbeat_thread claim (turns : list turn) : M agent unit :=
  match turns with
  | [] => mret ()
  | n :: turns =>
      try_catch (heartbeat_round claim n) (λ e, on_loop (modify (set_error e));; mret false)
      ≫= λ go_on : bool, if go_on then heartbeat_thread claim turns else mret ()
  end.

(** What the thread does while a step of the registry runs: nothing before its start. *)
Definition heartbeats claim (turns : list turn) : M agent unit :=
  s ← get;
  if lw_started (ag_world s) then heartbeat_thread claim turns else mret ().

(** [_ActiveHeartbeat.stop]. *)
Definition heartbeat_stop (joined : bool) : M agent unit :=
  s ← get;
  if negb (lw_started (ag_world s)) then mret ()
  else if negb joined then throw EHeartbeatShutdown "heartbeat worker did not stop"
  else match lw_error (ag_world s) with
       | Some e => rethrow e
       | None => mret ()
       end.

(** ** One turn of the agent *)

(** [MonotonicDeadline.bind(latest_deadline)], or nothing when it has elapsed. *)
Definition bound_deadline (t : Z * Z) (latest : Z) : option MonotonicDeadline :=
  match bind_deadline t.1 t.2 latest with Ok d => Some d | Err _ => None end.

(** [try: m finally: f]: the exception of [f] replaces that of [m]. *)
Definition try_finally {A} (m : M agent A) (f : M agent unit) : M agent A := λ s,
  let '(r, s1) := m s in
  match f s1 with
  | (Ok _, s2) => (r, s2)
  | (Err e, s2) => (Err e, s2)
  end.

(** [Agent._execute]. *)
Definition agent_execute (c : schedule) claim (ctx : OperationContext (loop_world W)) : M agent OperationExecution :=
  exact ← on_store (lookup_exact claim);
  let latest := match exact with
                | Some a => match ar_progress a with
                            | Some p => id_deadline (progress_identity p)
                            | None => id_deadline (claim_identity claim)
                            end
                | None => id_deadline (claim_identity claim)
                end in
  let deadline := bound_deadline (sc_execute c) latest in
  on_loop (modify (new_worker deadline));;
  try_finally
    (registry_execute (Some (heartbeat_start claim)) (heartbeats claim (sc_turns c)) (sc_readings c) claim ctx
       (λ s, lw_deadline (ag_world s)))
    (try_catch (heartbeat_stop (sc_joined c)) (λ e,
       if eqb (exn_cls e) EHeartbeatShutdown then on_loop (modify set_shutdown);; rethrow e else rethrow e)).

(** [Agent._submit]. *)
Definition submit (c : schedule) (v : AgentResult) : M agent unit :=
  on_loop (on_client (control_result client v));;
  on_loop report_authenticated_exchange;;
  on_store (acknowledge (sc_acknowledge c) v);;
  mret ().

(** [Agent._rotate_credentials]. *)
Definition rotate_credentials : M (loop_world W) unit :=
  match credentials with
  | None => mret ()
  | Some store =>
      staged ← on_client (staged_generation store);
      match staged with
      | Some generation =>
          on_client (control_activate client generation);;
          on_client (publish_active store generation);;
          report_authenticated_exchange
      | None =>
          pending ← on_client (pending_rotation store);
          request ← match pending with
                    | None =>
                        on_client (renewal_due store) ≫= λ due : bool,
                        if due then r ← on_client (prepare_rotation store); mret (Some r) else mret None
                    | Some (purpose, csr) =>
                        lift (ensure (eqb purpose "rotation") ERuntime "enrollment credential request was not recovered");;
                        mret (Some (purpose, csr))
                    end;
          match request with
          | None => mret ()
          | Some (_, csr) =>
              generation ← on_client (control_renew client csr);
              on_client (stage_credential store generation);;
              staged ← on_client (staged_generation store);
              lift (ensure (is_Some_b staged) ERuntime "staged credential was not published");;
              on_client (control_activate client generation);;
              on_client (publish_active store generation);;
              report_authenticated_exchange
          end
      end
  end.

(** [Agent.run_once]. *)
Definition run_once (c : schedule) (ctx : OperationContext (loop_world W)) : M agent unit :=
  s ← get;
  if lw_shutdown (ag_world s) then throw EHeartbeatShutdown "heartbeat worker did not stop"
  else
    pending ← on_store recover_pending;
    match pending with
    | Some a =>
        match ar_result a with
        | Some v => submit c v
        | None => throw EAssertion "result"
        end
    | None =>
        active ← on_store recover_active;
        match active with
        | Some a => execution ← agent_execute c (ar_claim a) ctx; submit c (ex_result execution)
        | None =>
            on_loop rotate_credentials;;
            offered ← on_loop (on_client (control_claim client));
            match offered with
            | None => on_loop report_authenticated_exchange
            | Some claim =>
                on_loop report_authenticated_exchange;;
                execution ← agent_execute c claim ctx;
                submit c (ex_result execution)
            end
        end
    end.
End loop.
