(* ===== verification/AgentLoopFacts.v ===== *)
(** * Facts about the loop of an agent

    The turns of an agent refine the slot of its journal; what is owed is delivered
    before anything is fetched; and a defect: a package operation that the engine
    completed before its result was recorded stops the agent for good. *)

From S2P Require Import Prelude Identifiers Canonical Documents JsonText Datetimes Contracts PackageState PackageEngine Protocol.
From S2P Require Import Messages AttemptStore AttemptFacts Requests Registry RegistryFacts AgentLoop.

#[local] Opaque isoformat fromisoformat canonical_message.

(** ** The interface to the control plane and to the handlers *)

(** What a client returns are messages that their constructors accepted. *)
Class ControlMessages {W} (client : AgentControl W) : Prop := {
  offered_valid w claim w' : control_claim client w = (Ok (Some claim), w') → valid claim;
  directive_valid w p d w' : control_heartbeat client p w = (Ok (inl d), w') → valid d;
  progress_valid w p p' w' : control_heartbeat client p w = (Ok (inr p'), w') → valid p'
}.

(** Handlers and inspections return mappings as evidence. *)
Class MappingContext {W} (ctx : OperationContext W) : Prop := {
  execution_mapping claim request d : mapping_evidence Some (execute_request claim request ctx d);
  inspection_mapping t claim request : mapping_evidence oi_evidence (inspect_request t claim request ctx)
}.

(** ** Moves of the journal *)

Definition journal_run (t t' : list attempt_row) : Prop :=
  journal t → journal t' ∧ table_advances t t' ∧ rtc slot_step (slot_of t) (slot_of t').

#[export] Instance journal_run_preorder : PreOrder journal_run.
Proof.
  split; [intros t Ht; split_and!; [done|reflexivity|apply rtc_refl]|].
  intros t u v H1 H2 Ht. destruct (H1 Ht) as (Hu & A1 & E1), (H2 Hu) as (Hv & A2 & E2). split_and!; [done|by etrans|by etrans].
Qed.

Lemma journal_moves_run t t' : journal_moves t t' → journal_run t t'.
Proof.
  intros H Ht. destruct (H Ht) as (? & ? & [E|Hs]); split_and!; try done; [rewrite E; apply rtc_refl|by apply rtc_once].
Qed.

Lemma beat_moves_run t t' : beat_moves t t' → journal_run t t'.
Proof. intros H Ht. destruct (H Ht) as (? & ? & ->). split_and!; [done..|apply rtc_refl]. Qed.

(** A bind whose continuation knows a run of its first program. *)
Lemma moves_bind_run {S A B} (R : relation S) `{!PreOrder R} (m : M S A) (f : A → M S B) :
  moves R m → (∀ a s s', m s = (Ok a, s') → moves R (f a)) → moves R (m ≫= f).
Proof.
  intros Hm Hf s. unfold mbind, M_bind. specialize (Hm s). destruct (m s) as [[a|e] s1] eqn:E; cbn in *; [|done].
  etrans; [exact Hm|]. by eapply Hf.
Qed.

Section moves.
Context {W : Type}.

(** The journal runs along the turns. *)
Definition runs : relation (agent W) := λ s s', journal_run (ag_store s) (ag_store s').
Definition beats : relation (agent W) := λ s s', beat_moves (ag_store s) (ag_store s').

#[export] Instance runs_preorder : PreOrder runs.
Proof. split; [intros s; unfold runs; reflexivity|intros s u v; unfold runs; intros; by etrans]. Qed.
#[export] Instance beats_preorder : PreOrder beats.
Proof. split; [intros s; unfold beats; reflexivity|intros s u v; unfold beats; intros; by etrans]. Qed.

Lemma on_world_runs {A} (m : M W A) : moves runs (on_world m).
Proof. intros s. unfold on_world, zoom. destruct (m (ag_world s)). cbn. unfold runs. cbn. reflexivity. Qed.

Lemma on_world_beats {A} (m : M W A) : moves beats (on_world m).
Proof. intros s. unfold on_world, zoom. destruct (m (ag_world s)). cbn. unfold beats. cbn. reflexivity. Qed.

Lemma on_store_moves {A} (R : relation (list attempt_row)) (m : M (list attempt_row) A) :
  moves R m → moves (λ s s' : agent W, R (ag_store s) (ag_store s')) (on_store m).
Proof. intros Hm s. unfold on_store, zoom. specialize (Hm (ag_store s)). destruct (m (ag_store s)). done. Qed.

Lemma call_runs c : valid_call c → moves runs (on_store (run_call c)).
Proof. intros Hc. apply on_store_moves. eapply moves_impl; [|by apply call_moves]. apply journal_moves_run. Qed.

Lemma reading_runs {A} (m : M (list attempt_row) A) : reads m → moves runs (on_store m).
Proof. intros Hm. apply on_store_moves. intros t. by rewrite (Hm t). Qed.

Lemma reading_beats {A} (m : M (list attempt_row) A) : reads m → moves beats (on_store m).
Proof. intros Hm. apply on_store_moves. intros t. by rewrite (Hm t). Qed.

Lemma beats_run {A} (m : M (agent W) A) : moves beats m → moves runs m.
Proof. apply moves_impl. intros s s'. apply beat_moves_run. Qed.
End moves.

Lemma reads_bind {S A B} (m : M S A) (f : A → M S B) : reads m → (∀ a, reads (f a)) → reads (m ≫= f).
Proof.
  intros Hm Hf s. unfold mbind, M_bind. specialize (Hm s). destruct (m s) as [[a|e] s1]; cbn in *; subst; [apply Hf|done].
Qed.

Lemma find_rows_reads p : reads (find_rows p).
Proof. apply reads_bind; [apply reads_get|intros t; apply reads_ret]. Qed.

Lemma lookup_exact_reads claim : reads (lookup_exact claim).
Proof.
  unfold lookup_exact, keyed_rows. apply reads_bind; [apply reads_bind; [apply reads_lift|intros _; apply find_rows_reads]|].
  intros [|row rows]; [apply reads_ret|]. repeat (apply reads_bind; [apply reads_lift|intros ?]). apply reads_ret.
Qed.

Lemma recover_reads p : reads (recover p).
Proof.
  unfold recover. apply reads_bind; [apply find_rows_reads|]. intros [|row [|]]; [apply reads_ret| |apply reads_lift].
  apply reads_bind; [apply reads_lift|intros ?; apply reads_ret].
Qed.

(** ** The registry *)

Section registry_moves.
Context {W : Type} (ctx : OperationContext W) `{!MappingContext ctx}.
Context (on_active : option (M (agent W) unit)) (interference : M (agent W) unit).
Context (Hon : ∀ callback, on_active = Some callback → moves runs callback) (Hint : moves runs interference).
Implicit Types (claim : AgentClaim) (t : readings).

Lemma silently_runs {A} (m : M (agent W) A) : moves runs m → moves runs (silently m).
Proof. intros H s. apply H. Qed.

Lemma report_active_runs already : moves runs (report_active on_active already).
Proof.
  unfold report_active. destruct on_active as [callback|] eqn:E; [|apply moves_ret, _].
  destruct already; [apply moves_ret, _|by apply Hon].
Qed.

Lemma finish_with_runs t v replayed : valid v → moves runs (finish_with (W:=W) t v replayed).
Proof.
  intros Hv. unfold finish_with. apply moves_bind; [apply _|by apply (call_runs (CallFinish (rd_finish t) v))|].
  intros a. apply moves_lift, _.
Qed.

Lemma begin_runs now claim : valid claim → moves runs (on_store (W:=W) (begin now claim)).
Proof. intros Hv. by apply (call_runs (CallBegin now claim)). Qed.

(** A result of the claim, then what records it. *)
Lemma result_runs {A} claim state document (k : AgentResult → M (agent W) A) : valid claim → dict_keys document = true →
  (∀ v, valid v → moves runs (k v)) → moves runs (lift (result_of claim state document) ≫= k).
Proof.
  intros Hc Hk Hf. apply moves_lift_bind; [apply _|]. intros v Hv. apply Hf. by eapply (proj1 (proj1 (result_of_valid _ _ _ _ Hc Hk Hv))).
Qed.

Lemma resume_runs t claim request : valid claim → moves runs (resume on_active interference t claim request ctx).
Proof.
  intros Hc. unfold resume. apply moves_bind; [apply _|apply report_active_runs|intros _].
  apply moves_bind_run; [apply _|apply on_world_runs|]. intros i s s' Hi.
  apply moves_bind; [apply _|by apply silently_runs|intros _].
  assert (∀ e, oi_evidence i = Some e → dict_keys e = true) as Hev.
  { intros e He. unfold on_world, zoom in Hi. destruct (inspect_request t claim request ctx (ag_world s)) as [r w] eqn:E.
    injection Hi as -> _. by eapply inspection_mapping. }
  assert (∀ v, valid v → moves (runs (W:=W)) (execution ← finish_with t v true; mret (Some execution))) as Hfin.
  { intros v Hv. apply moves_bind; [apply _|by apply finish_with_runs|]. intros e. apply moves_ret, _. }
  assert (∀ reason, moves (runs (W:=W)) (v ← lift (result_of claim "waiting-for-operator" (JObj [("reason", JStr reason)]));
            execution ← finish_with t v true; mret (Some execution))) as Hwait by (intros reason; by apply result_runs).
  destruct (oi_disposition i); [apply moves_throw, _|apply moves_ret, _| |apply Hwait|apply Hwait].
  destruct (oi_evidence i) as [e|] eqn:E; [|apply moves_throw, _]. apply result_runs; [done| |done]. cbn. by rewrite (Hev e eq_refl).
Qed.

Lemma run_handler_runs claim request d : moves runs (run_handler claim request ctx d).
Proof.
  unfold run_handler. apply moves_try_catch; [apply _| |intros e; apply moves_lift, _].
  apply moves_bind; [apply _|apply on_world_runs|intros v; apply moves_lift, _].
Qed.

Lemma start_runs t claim request given interrupted : valid claim →
  moves runs (start on_active interference t claim request ctx given interrupted).
Proof.
  intros Hc. unfold start. apply moves_bind; [apply _|apply reading_runs, recover_reads|intros pending].
  apply moves_bind; [apply _|destruct pending; [|apply moves_ret, _]; apply moves_bind; [apply _|apply moves_lift, _|intros _; apply moves_ret, _]|].
  intros [execution|]; [apply moves_ret, _|]. apply moves_bind; [apply _|apply moves_get, _|intros s].
  destruct (execution_deadline t claim (given s)) as [d|e].
  - apply moves_bind; [apply _|by apply begin_runs|intros a]. destruct (ar_result a); [apply moves_lift, _|].
    apply moves_bind; [apply _|apply report_active_runs|intros _].
    apply moves_bind_run; [apply _|apply run_handler_runs|]. intros v s0 s1 Hv.
    apply moves_bind; [apply _|by apply silently_runs|intros _]. apply finish_with_runs.
    destruct (run_handler_result ctx claim request d s0 Hc (execution_mapping _ _ _)) as (v' & s' & Hr & _ & [Hv' _] & _). congruence.
  - destruct (negb interrupted); [apply moves_throw, _|]. apply moves_bind; [apply _|by apply begin_runs|intros a].
    destruct (ar_result a); [apply moves_lift, _|]. apply moves_bind; [apply _|apply report_active_runs|intros _].
    apply result_runs; [done..|]. intros v Hv. by apply finish_with_runs.
Qed.

Lemma registry_runs t claim given : valid claim → moves runs (registry_execute on_active interference t claim ctx given).
Proof.
  intros Hc. unfold registry_execute. apply moves_bind; [apply _|apply moves_lift, _|intros request].
  apply moves_bind; [apply _|apply reading_runs, lookup_exact_reads|intros [a|]]; [|by apply start_runs].
  destruct (ar_result a); [apply moves_lift, _|]. apply moves_bind; [apply _|by apply resume_runs|intros [execution|]];
    [apply moves_ret, _|by apply start_runs].
Qed.
End registry_moves.

(** ** The heartbeat worker *)

Section loop.
Context {W : Type} (client : AgentControl W) `{!ControlMessages client} (credentials : option (CredentialBoundary W)).
Context (exchange : M W unit) (ctx : OperationContext (loop_world W)) `{!MappingContext ctx}.
Implicit Types (claim : AgentClaim) (c : schedule) (s : agent (loop_world W)).

Lemma heartbeat_start_beats claim : moves beats (heartbeat_start (W:=W) claim).
Proof.
  unfold heartbeat_start. apply moves_bind; [apply _|apply moves_get, _|intros s].
  apply moves_bind; [apply _|apply moves_lift, _|intros _].
  apply moves_bind; [apply _|apply reading_beats, lookup_exact_reads|intros [a|]]; [|apply moves_throw, _].
  apply moves_bind; [apply _|apply moves_lift, _|intros _; apply on_world_beats].
Qed.

(** The request of a heartbeat and the directive that answers it are valid. *)
Lemma record_deadline_range r a : record r = Ok a →
  in_range_of_years (match ar_progress a with
                     | None => id_deadline (claim_identity (ar_claim a))
                     | Some p => id_deadline (progress_identity p)
                     end) = true.
Proof.
  intros Hc%record_coherent. destruct (co_claim _ _ Hc) as [(_ & Hd & _) _].
  pose proof (co_progress _ _ Hc) as Hp. inversion Hp as [? p [(_ & Hpd & _) _]|]; done.
Qed.

Lemma lookup_exact_record claim t a t' : lookup_exact claim t = (Ok (Some a), t') → ∃ r, record r = Ok a.
Proof.
  unfold lookup_exact. intros H. apply M_bind_ok in H as (rows & t1 & _ & H). destruct rows as [|row rows]; inv_run_all; simplify_eq.
  by eexists.
Qed.

Lemma heartbeat_round_beats claim n : moves beats (heartbeat_round client exchange claim n).
Proof.
  unfold heartbeat_round. apply moves_bind_run; [apply _|apply reading_beats, lookup_exact_reads|].
  intros exact s s' Hex. destruct exact as [a|]; [|apply moves_ret, _]. destruct (ar_result a); [apply moves_ret, _|].
  assert (∃ r, record r = Ok a) as [r Hr].
  { unfold on_store, zoom in Hex. destruct (lookup_exact claim (ag_store s)) as [o t'] eqn:E. injection Hex as -> _.
    by eapply lookup_exact_record. }
  cbv zeta. apply moves_lift_bind; [apply _|]. intros request Hreq.
  assert (valid request) as Hrv by (eapply progress_is_valid; [exact Hreq|done|by eapply record_deadline_range]).
  apply moves_bind_run; [apply _|apply on_world_beats|]. intros response s1 s2 Hres.
  assert (∃ l w w', control_heartbeat client request w = (Ok response, w') ∧ l = w) as (_ & w & w' & Hresp & _).
  { unfold on_loop, on_world, on_client, zoom in Hres.
    destruct (control_heartbeat client request (lw_world (ag_world s1))) as [o w] eqn:E. injection Hres as -> _. by eauto. }
  apply moves_bind_run; [apply _|destruct response; [apply moves_ret, _|apply moves_lift, _]|]. intros d s3 s4 Hd.
  assert (valid d) as Hdv.
  { destruct response as [d'|p]; [inv_run_all; by eapply directive_valid|]. apply lift_ok in Hd as [Hd _].
    unfold agent_directive in Hd. inv_run_all. unit_facts. subst d. split; [done|]. by destruct (progress_valid _ _ _ _ Hresp) as (_ & ? & _). }
  apply moves_bind; [apply _|apply on_store_moves; by apply directive_beats|intros persisted].
  destruct (negb _); [apply moves_ret, _|]. apply moves_bind; [apply _|apply moves_get, _|intros s5].
  apply moves_bind; [apply _| |intros _].
  { destruct (lw_deadline _); [|apply moves_ret, _]. apply moves_bind; [apply _|apply moves_lift, _|intros ?; apply on_world_beats]. }
  apply moves_bind; [apply _|apply on_world_beats|intros _; apply moves_ret, _].
Qed.

Lemma heartbeat_thread_beats claim turns : moves beats (heartbeat_thread client exchange claim turns).
Proof.
  induction turns as [|n turns IH]; cbn [heartbeat_thread]; [apply moves_ret, _|].
  apply moves_bind; [apply _| |intros []; [done|apply moves_ret, _]].
  apply moves_try_catch; [apply _|apply heartbeat_round_beats|intros e].
  apply moves_bind; [apply _|apply on_world_beats|intros _; apply moves_ret, _].
Qed.

Lemma heartbeats_beat claim turns : moves beats (heartbeats client exchange claim turns).
Proof.
  unfold heartbeats. apply moves_bind; [apply _|apply moves_get, _|intros s].
  destruct (lw_started _); [apply heartbeat_thread_beats|apply moves_ret, _].
Qed.

(** ** Turns *)

Lemma try_finally_runs {A} (m : M (agent (loop_world W)) A) f : moves runs m → moves runs f → moves runs (try_finally m f).
Proof.
  intros Hm Hf s. unfold try_finally. specialize (Hm s). destruct (m s) as [r s1]. cbn in Hm. specialize (Hf s1).
  destruct (f s1) as [[]]; cbn in *; by etrans.
Qed.

Lemma heartbeat_stop_runs joined : moves runs (try_catch (heartbeat_stop (W:=W) joined) (λ e,
  if eqb (exn_cls e) EHeartbeatShutdown then on_loop (modify set_shutdown);; rethrow e else rethrow e)).
Proof.
  apply moves_try_catch; [apply _| |intros e; destruct (eqb _ _); [|apply moves_rethrow, _]; apply moves_bind;
    [apply _|apply on_world_runs|intros _; apply moves_rethrow, _]].
  unfold heartbeat_stop. apply moves_bind; [apply _|apply moves_get, _|intros s].
  destruct (negb _); [apply moves_ret, _|]. destruct (negb _); [apply moves_throw, _|].
  destruct (lw_error _); [apply moves_rethrow, _|apply moves_ret, _].
Qed.

Lemma agent_execute_runs c claim : valid claim → moves runs (agent_execute client exchange c claim ctx).
Proof.
  intros Hc. unfold agent_execute. apply moves_bind; [apply _|apply reading_runs, lookup_exact_reads|intros exact]. cbv zeta.
  apply moves_bind; [apply _|apply on_world_runs|intros _]. apply try_finally_runs; [|apply heartbeat_stop_runs].
  apply registry_runs; [apply _| | |done].
  - intros callback [= <-]. apply beats_run, heartbeat_start_beats.
  - apply beats_run, heartbeats_beat.
Qed.

Lemma submit_runs c v : moves runs (submit client exchange c v).
Proof.
  unfold submit. apply moves_bind; [apply _|apply on_world_runs|intros _]. apply moves_bind; [apply _|apply on_world_runs|intros _].
  apply moves_bind; [apply _| |intros _; apply moves_ret, _]. apply on_store_moves.
  apply moves_atomic; [apply _|apply (run_call_atomic (CallAcknowledge (sc_acknowledge c) v))|].
  intros t a t' H. eapply journal_moves_run, acknowledge_moves, H.
Qed.

Lemma recover_record p t a t' : recover p t = (Ok (Some a), t') → ∃ r, record r = Ok a.
Proof.
  unfold recover. intros H. apply M_bind_ok in H as (rows & t1 & _ & H). destruct rows as [|row [|]]; inv_run_all; simplify_eq.
  by eexists.
Qed.

Lemma run_once_runs c : moves runs (run_once client credentials exchange c ctx).
Proof.
  unfold run_once. apply moves_bind; [apply _|apply moves_get, _|intros s]. destruct (lw_shutdown _); [apply moves_throw, _|].
  apply moves_bind; [apply _|apply reading_runs, recover_reads|intros [a|]].
  { destruct (ar_result a); [apply submit_runs|apply moves_throw, _]. }
  apply moves_bind_run; [apply _|apply reading_runs, recover_reads|]. intros active s1 s2 Hact. destruct active as [a|].
  - assert (∃ r, record r = Ok a) as (r & Hc%record_coherent).
    { unfold on_store, zoom in Hact. destruct (recover_active (ag_store s1)) as [o t'] eqn:E. injection Hact as -> _. by eapply recover_record. }
    apply moves_bind; [apply _| |intros e; apply submit_runs]. apply agent_execute_runs. apply (co_claim _ _ Hc).
  - apply moves_bind; [apply _|apply on_world_runs|intros _]. apply moves_bind_run; [apply _|apply on_world_runs|].
    intros offered s3 s4 Hoff. destruct offered as [claim|]; [|apply on_world_runs].
    apply moves_bind; [apply _|apply on_world_runs|intros _]. apply moves_bind; [apply _| |intros e; apply submit_runs].
    apply agent_execute_runs. unfold on_loop, on_world, on_client, zoom in Hoff.
    destruct (control_claim client (lw_world (ag_world s3))) as [o w] eqn:E. injection Hoff as -> _. by eapply offered_valid.
Qed.

(** C18. Whatever the control plane, the handlers, the heartbeats and the clocks do, a
    turn of the agent, whether it returns or raises, keeps its journal readable and
    within its constraints, moves attempts forward only, and takes its slot through
    steps of the slot machine: at most one claim is open, it is never dropped, and no
    other claim begins before its result was acknowledged. *)
Theorem agent_turn_refines_slot c s :
  journal (ag_store s) →
  journal (ag_store (run_once client credentials exchange c ctx s).2)
  ∧ table_advances (ag_store s) (ag_store (run_once client credentials exchange c ctx s).2)
  ∧ rtc slot_step (slot_of (ag_store s)) (slot_of (ag_store (run_once client credentials exchange c ctx s).2)).
Proof. apply (run_once_runs c s). Qed.

(** ** What is owed comes first *)

Lemma run_once_reporting c s claim v : journal (ag_store s) → slot_of (ag_store s) = Reporting claim v →
  lw_shutdown (ag_world s) = false → run_once client credentials exchange c ctx s = submit client exchange c v s.
Proof.
  intros Hj Hs Hsh. pose proof (recovery_of_journal _ Hj) as Hrec. rewrite Hs in Hrec. destruct Hrec as (a & _ & Hp & _ & Hv).
  unfold run_once. rewrite (M_bind_run _ _ _ s s) by done. rewrite Hsh.
  by rewrite (M_bind_run _ _ _ (Some a) s), Hv by by apply on_store_read.
Qed.

Lemma run_once_running c s claim : journal (ag_store s) → slot_of (ag_store s) = Running claim →
  lw_shutdown (ag_world s) = false →
  run_once client credentials exchange c ctx s
  = (execution ← agent_execute client exchange c claim ctx; submit client exchange c (ex_result execution)) s.
Proof.
  intros Hj Hs Hsh. pose proof (recovery_of_journal _ Hj) as Hrec. rewrite Hs in Hrec. destruct Hrec as (a & Ha & Hp & <- & _).
  unfold run_once. rewrite (M_bind_run _ _ _ s s) by done. rewrite Hsh.
  rewrite (M_bind_run _ _ _ None s) by by apply on_store_read. by rewrite (M_bind_run _ _ _ (Some a) s) by by apply on_store_read.
Qed.

End loop.

(** The same control plane with other offers. *)
Definition offering {W} (client : AgentControl W) (offer : M W (option AgentClaim)) : AgentControl W :=
  MkControl W offer (control_heartbeat client) (control_result client) (control_renew client) (control_activate client).

(** What the agent owes comes first: while an attempt is running or its result
    is unacknowledged, a turn neither asks for a claim nor rotates credentials, so it
    is the same whatever the control plane would offer. *)
Theorem owed_work_precedes_claims {W} (client : AgentControl W) credentials rotation exchange c ctx s offer :
  journal (ag_store s) → slot_of (ag_store s) ≠ Idle →
  run_once client credentials exchange c ctx s = run_once (offering client offer) rotation exchange c ctx s.
Proof.
  intros Hj Hs. destruct (lw_shutdown (ag_world s)) eqn:Hsh.
  { unfold run_once. rewrite !(M_bind_run _ _ _ s s) by done. by rewrite Hsh. }
  destruct (slot_of (ag_store s)) as [|claim|claim v] eqn:E; [done| |].
  - by rewrite !(run_once_running _ _ _ _ c s claim Hj E Hsh).
  - by rewrite !(run_once_reporting _ _ _ _ c s claim v Hj E Hsh).
Qed.

Section delivery.
Context {W : Type} (client : AgentControl W) (credentials : option (CredentialBoundary W)).
Context (exchange : M W unit) (ctx : OperationContext (loop_world W)).
Implicit Types (claim : AgentClaim) (c : schedule) (s : agent (loop_world W)).

(** ** Delivery *)

Lemma reporting_result t claim v : journal t → slot_of t = Reporting claim v → valid v ∧ result_identity v = claim_identity claim.
Proof.
  intros Hj Hslot. destruct (slot_cases t Hj) as [[_ E]|(l & r & k & a & -> & Hr & Ha & E & Ho)]; [congruence|].
  rewrite E in Hslot. unfold record_slot in Hslot. destruct (ar_result a) as [w|] eqn:Er; [|done]. injection Hslot as <- ->.
  pose proof (record_coherent _ _ Ha) as Hc. split.
  - pose proof (co_result _ _ Hc) as H. rewrite Er in H. by inversion H as [? ? []|].
  - destruct (co_result_match _ _ Hc v Er) as [[Hk Hf] Hd]. destruct (result_identity v), (claim_identity (ar_claim a)).
    unfold message_key in Hk. cbn in *. by simplify_eq.
Qed.

(** The readiness callback does not raise. *)
Definition reports_exchange : Prop := ∀ w, ∃ w', exchange w = (Ok (), w').

Lemma report_exchange_run (l : loop_world W) : reports_exchange →
  ∃ l', report_authenticated_exchange exchange l = (Ok (), l') ∧ lw_started l' = lw_started l ∧ lw_error l' = lw_error l
    ∧ lw_shutdown l' = lw_shutdown l ∧ lw_deadline l' = lw_deadline l ∧ lw_exchange_reported l' = true
    ∧ (lw_exchange_reported l = true → l' = l).
Proof.
  intros Hex. unfold report_authenticated_exchange. rewrite (M_bind_run _ _ _ l l) by done.
  destruct (lw_exchange_reported l) eqn:E; [by exists l|]. destruct (Hex (lw_world l)) as [w' Hw].
  unfold on_client, mbind, M_bind, zoom. rewrite Hw. eexists. split; [reflexivity|done].
Qed.

Lemma submit_run c v claim s w : reports_exchange → journal (ag_store s) → slot_of (ag_store s) = Reporting claim v →
  in_range_of_years (sc_acknowledge c) = true → sqlite_int (id_attempt (claim_identity claim)) = Ok () →
  control_result client v (lw_world (ag_world s)) = (Ok (), w) →
  ∃ s', submit client exchange c v s = (Ok (), s') ∧ journal (ag_store s') ∧ slot_of (ag_store s') = Idle
    ∧ (lw_exchange_reported (ag_world s) = true → lw_world (ag_world s') = w).
Proof.
  intros Hex Hj Hs Ht Hsql Hw. destruct (reporting_result _ _ _ Hj Hs) as [Hv Hi]. unfold submit.
  set (l1 := LoopWorld w (lw_exchange_reported (ag_world s)) (lw_shutdown (ag_world s)) (lw_started (ag_world s))
               (lw_error (ag_world s)) (lw_deadline (ag_world s))).
  rewrite (M_bind_run _ _ _ () (Agent (ag_store s) l1)) by (unfold on_loop, on_world, on_client, zoom; cbn; by rewrite Hw).
  destruct (report_exchange_run l1 Hex) as (l2 & Hl2 & _ & _ & _ & _ & _ & El).
  rewrite (M_bind_run _ _ _ () (Agent (ag_store s) l2)) by (unfold on_loop, on_world, zoom; cbn; by rewrite Hl2).
  destruct (acknowledge_reporting (ag_store s) claim v (sc_acknowledge c)) as (a & t1 & Ha & Hj1 & Hs1); try done.
  exists (Agent t1 l2). split_and!; [|done..|intros E; cbn; by rewrite El].
  by rewrite (M_bind_run _ _ _ _ _ (on_store_run _ (Agent (ag_store s) l2) _ _ Ha)).
Qed.

(** A result that was not acknowledged is delivered again, and acknowledged only
    after the control plane took it: if the control plane raises, the turn raises the
    same and the journal is unchanged; if it takes the result, the slot is idle. *)
Theorem pending_result_is_redelivered c s claim v :
  reports_exchange → journal (ag_store s) → slot_of (ag_store s) = Reporting claim v → lw_shutdown (ag_world s) = false →
  in_range_of_years (sc_acknowledge c) = true → sqlite_int (id_attempt (claim_identity claim)) = Ok () →
  (∀ e w, control_result client v (lw_world (ag_world s)) = (Err e, w) →
     ∃ s', run_once client credentials exchange c ctx s = (Err e, s') ∧ ag_store s' = ag_store s)
  ∧ (∀ w, control_result client v (lw_world (ag_world s)) = (Ok (), w) →
     ∃ s', run_once client credentials exchange c ctx s = (Ok (), s') ∧ slot_of (ag_store s') = Idle).
Proof.
  intros Hex Hj Hs Hsh Ht Hsql. rewrite (run_once_reporting _ _ _ _ c s claim v Hj Hs Hsh). split.
  - intros e w Hw. exists (Agent (ag_store s) (LoopWorld w (lw_exchange_reported (ag_world s)) (lw_shutdown (ag_world s))
      (lw_started (ag_world s)) (lw_error (ag_world s)) (lw_deadline (ag_world s)))). split; [|done].
    unfold submit. erewrite M_bind_err; [reflexivity|]. unfold on_loop, on_world, on_client, zoom. by rewrite Hw.
  - intros w Hw. destruct (submit_run c v claim s w) as (s' & Hr & _ & Hs' & _); try done. by exists s'.
Qed.
End delivery.

(** ** Sample turns *)

Module LoopSample.
Import AttemptFacts.Sample.

(** A control plane that offers one probe, answers heartbeats and counts results. *)
Definition sample_client : AgentControl nat :=
  MkControl nat (w ← get; mret (match w with O => Some probe_claim | S _ => None end)) (λ _, mret (inl probe_directive)) (λ _, modify S)
    (λ _, mret 0%Z) (λ _, mret ()).

#[export] Instance sample_messages : ControlMessages sample_client.
Proof.
  constructor; intros w; cbn.
  - intros claim w'. destruct w; intros [=]; subst. exact valid_probe_claim.
  - intros p d w' [=]; subst. exact valid_probe_directive.
  - intros p p' w' [=].
Qed.

Definition probe_context {W} (node : string) : OperationContext W :=
  MkContext W node (λ _, mret (JObj [("vonk_forge", JObj [])])) None None None None.

#[export] Instance probe_mapping {W} node : MappingContext (probe_context (W:=W) node).
Proof.
  constructor.
  - intros claim request d w e w' e' Hr [= <-]. destruct request as [[]| | | | |]; cbn in Hr; inv_run_all; by subst.
  - intros t claim request w i w' e Hr He. destruct request as [[]| | | | |]; cbn in Hr; inv_run_all; subst; try done.
    case_match; inv_run_all; by subst.
Qed.

Definition sample_node : string := id_node (claim_identity probe_claim).
Definition sample_schedule (turns : list turn) : schedule :=
  Schedule (1699999990000000, 5000000)%Z
    (Readings 1699999991000000 1699999991000000 5000000 1699999991000000 5000000 1699999991000000 1699999992000000) turns true
    1699999993000000.
Definition idle_agent : agent (loop_world nat) := Agent [] (LoopWorld 0 false false false None None).

(** The agent stopped after it had recorded the result of the probe. *)
Definition finished : list store_call := begun ++ [CallFinish 1699999996000000 probe_result].
Lemma finished_steps : rtc store_step [] (run_calls finished []).
Proof.
  apply store_calls_steps. repeat constructor;
    apply valid_probe_claim || apply valid_probe_progress || apply valid_probe_directive || apply valid_probe_result.
Qed.
Example finished_is_reporting : slot_of (run_calls finished []) = Reporting probe_claim probe_result.
Proof. vm_compute. reflexivity. Qed.
Definition owing_agent : agent (loop_world nat) := Agent (run_calls finished []) (LoopWorld 1 false false false None None).
End LoopSample.
Import AttemptFacts.Sample LoopSample.

Lemma agent_turn_refines_slot_witness :
  rtc slot_step Idle (slot_of (ag_store (run_once sample_client None (mret ()) (sample_schedule [Turn 1699999995000000 1699999995000000 9000000])
    (probe_context sample_node) idle_agent).2)).
Proof.
  apply (agent_turn_refines_slot sample_client None (mret ()) (probe_context sample_node)
    (sample_schedule [Turn 1699999995000000 1699999995000000 9000000]) idle_agent). exact empty_journal.
Defined.

Lemma pending_result_is_redelivered_witness :
  ∃ s', run_once sample_client None (mret ()) (sample_schedule []) (probe_context sample_node) owing_agent = (Ok (), s')
    ∧ slot_of (ag_store s') = Idle.
Proof.
  apply (pending_result_is_redelivered sample_client None (mret ()) (probe_context sample_node) (sample_schedule []) owing_agent
    probe_claim probe_result) with (w := 2).
  - intros w. by exists w.
  - exact (run_journal _ _ finished_steps empty_journal).
  - exact finished_is_reporting.
  - reflexivity.
  - reflexivity.
  - reflexivity.
  - reflexivity.
Defined.
