(* ===== verification/AgentDelivery.v ===== *)
(** * Delivery of claims by an agent

    The boundaries of an agent act on the machine and on the control plane, not on
    the fields of the loop: [lift_context]. With such boundaries an idle agent that
    is offered a claim executes it, hands the result to the control plane and is
    idle again, in one turn. *)

From S2P Require Import Prelude Identifiers Canonical Documents JsonText Datetimes Contracts PackageState PackageEngine Protocol.
From S2P Require Import Messages AttemptStore AttemptFacts Requests Registry RegistryFacts AgentLoop AgentLoopFacts.

#[local] Opaque isoformat fromisoformat canonical_message.

(** ** Boundaries over the machine *)

Section lifted.
Context {W : Type}.
Implicit Types (ctx : OperationContext W) (claim : AgentClaim) (l : loop_world W).

Definition lift_releases (b : ReleaseInstallerBoundary W) : ReleaseInstallerBoundary (loop_world W) :=
  MkReleaseBoundary _ (λ r d, on_client (release_install b r d)) (λ r d, on_client (release_inspect b r d)).
Definition lift_workloads (b : WorkloadOperationsBoundary W) : WorkloadOperationsBoundary (loop_world W) :=
  MkWorkloadBoundary _ (λ r d i, on_client (workload_execute b r d i)) (λ r d i, on_client (workload_inspect b r d i)).
Definition lift_updates (b : AgentUpdateOperationsBoundary W) : AgentUpdateOperationsBoundary (loop_world W) :=
  MkUpdateBoundary _ (λ r d o f, on_client (update_execute b r d o f)) (λ r d o f, on_client (update_rollback b r d o f)).
Definition lift_packages (b : PackageOperationsBoundary W) : PackageOperationsBoundary (loop_world W) :=
  MkPackageBoundary _ (λ r i d, on_client (package_execute b r i d)) (λ r i d, on_client (package_inspect b r i d)).
Definition lift_context ctx : OperationContext (loop_world W) :=
  MkContext _ (ctx_node_id ctx) (λ d, on_client (ctx_probe ctx d)) (lift_releases <$> ctx_releases ctx)
    (lift_workloads <$> ctx_workloads ctx) (lift_updates <$> ctx_updates ctx) (lift_packages <$> ctx_packages ctx).

Lemma lift_context_validate ctx claim : validate_claim claim (lift_context ctx) = validate_claim claim ctx.
Proof.
  unfold validate_claim, lift_context. cbn [ctx_node_id ctx_releases ctx_workloads ctx_updates ctx_packages].
  by destruct (ctx_releases ctx), (ctx_updates ctx), (ctx_workloads ctx), (ctx_packages ctx).
Qed.

Lemma on_client_bind {A B} (m : M W A) (f : A → M W B) l :
  on_client (m ≫= f) l = (on_client m ≫= λ a, on_client (f a)) l.
Proof. unfold on_client, zoom, mbind, M_bind. destruct (m (lw_world l)) as [[a|e] w]; cbn; [|done]. by destruct (f a w). Qed.

Lemma on_client_lift {A} (r : result A) l : on_client (lift r) l = lift r l.
Proof. by destruct l. Qed.

Lemma bind_ext {S A B} (m m' : M S A) (f f' : A → M S B) s : m s = m' s → (∀ a s, f a s = f' a s) → (m ≫= f) s = (m' ≫= f') s.
Proof. intros Hm Hf. unfold mbind, M_bind. rewrite Hm. destruct (m' s) as [[]]; [apply Hf|done]. Qed.

Lemma boundary_lift {B B' C} (f : B → B') (o : option B) (k : B → M W C) (k' : B' → M (loop_world W) C) l :
  (∀ b l, k' (f b) l = on_client (k b) l) → (assert_boundary (f <$> o) ≫= k') l = on_client (assert_boundary o ≫= k) l.
Proof.
  intros Hk. rewrite on_client_bind. destruct o as [b|]; cbn; [|by destruct l].
  rewrite (M_bind_run _ _ _ (f b) l), (M_bind_run (on_client (mret b)) _ l b l); [apply Hk|by destruct l|done].
Qed.

(** Execution and inspection act on the machine alone. *)
Lemma lift_context_execute ctx claim request d l :
  execute_request claim request (lift_context ctx) d l = on_client (execute_request claim request ctx d) l.
Proof.
  unfold execute_request. destruct request as [zero|r|c|c|r|r]; try (apply boundary_lift; intros b l').
  - rewrite on_client_bind. apply bind_ext; [done|]. intros e l'. destruct zero; [|by destruct l']. rewrite on_client_bind.
    apply bind_ext; [by rewrite on_client_lift|]. intros _ l2. by destruct l2.
  - done.
  - rewrite on_client_bind. apply bind_ext; [by rewrite on_client_lift|done].
  - rewrite on_client_bind. apply bind_ext; [by rewrite on_client_lift|done].
  - done.
  - done.
Qed.

Lemma lift_context_inspect ctx t claim request l :
  inspect_request t claim request (lift_context ctx) l = on_client (inspect_request t claim request ctx) l.
Proof.
  unfold inspect_request. destruct request as [zero|r|c|c|r|r]; try (by destruct l).
  all: try (destruct (among _ _); [by destruct l|]).
  all: apply boundary_lift; intros b l'; rewrite on_client_bind; apply bind_ext; [by rewrite on_client_lift|];
    intros d l2; rewrite on_client_bind; apply bind_ext; [done|]; intros [disposition e] l3; by destruct l3.
Qed.
End lifted.

(** ** What a call does to the world *)

(** A relation of worlds, along the agent. *)
Definition world_moves {W} (R : relation W) : relation (agent W) := λ s s', R (ag_world s) (ag_world s').

#[export] Instance world_moves_preorder {W} (R : relation W) `{!PreOrder R} : PreOrder (world_moves R).
Proof. split; [intros s; unfold world_moves; reflexivity|intros s u v; unfold world_moves; intros; by etrans]. Qed.

Section world.
Context {W : Type} (R : relation W) `{!PreOrder R}.
Context (on_active : option (M (agent W) unit)) (interference : M (agent W) unit).
Context (Hon : ∀ callback, on_active = Some callback → moves (world_moves R) callback) (Hint : moves (world_moves R) interference).
Context (ctx : OperationContext W) (claim : AgentClaim) (request : operation_request).
Context (Hexecute : ∀ d, moves R (execute_request claim request ctx d)) (Hinspect : ∀ t, moves R (inspect_request t claim request ctx)).

Lemma store_keeps_world {A} (m : M (list attempt_row) A) : moves (world_moves R) (on_store m).
Proof. intros s. unfold on_store, zoom. destruct (m (ag_store s)). unfold world_moves. cbn. reflexivity. Qed.

Lemma on_world_moves {A} (m : M W A) : moves R m → moves (world_moves R) (on_world m).
Proof. intros Hm s. specialize (Hm (ag_world s)). unfold on_world, zoom. by destruct (m (ag_world s)). Qed.

Lemma report_active_world already : moves (world_moves R) (report_active on_active already).
Proof.
  unfold report_active. destruct on_active as [callback|] eqn:E; [|apply moves_ret, _].
  destruct already; [apply moves_ret, _|by apply Hon].
Qed.

Lemma silently_world : moves (world_moves R) (silently interference).
Proof. intros s. apply Hint. Qed.

Ltac world :=
  repeat first
    [ apply moves_ret, _ | apply moves_lift, _ | apply moves_throw, _ | apply moves_get, _
    | apply store_keeps_world | apply report_active_world | apply silently_world
    | apply on_world_moves, Hexecute | apply on_world_moves, Hinspect
    | apply moves_bind; [apply _| |intros ?] | apply moves_try_catch; [apply _| |intros ?]
    | case_match ].

Lemma registry_world t given : validate_claim claim ctx = Ok request →
  moves (world_moves R) (registry_execute on_active interference t claim ctx given).
Proof.
  intros Hval. unfold registry_execute. apply moves_lift_bind; [apply _|]. intros a Ha.
  assert (a = request) as -> by congruence.
  unfold resume, start, run_handler, finish_with. world.
Qed.
End world.

(** ** One turn *)

(** The fields of the loop a step leaves alone. *)
Definition undisturbed {W} (l l' : loop_world W) : Prop :=
  lw_error l' = lw_error l ∧ lw_shutdown l' = lw_shutdown l ∧ lw_exchange_reported l' = lw_exchange_reported l.

#[export] Instance undisturbed_preorder {W} : PreOrder (undisturbed (W:=W)).
Proof. split; [by intros l|]. intros l1 l2 l3 (?&?&?) (?&?&?). split_and!; congruence. Qed.

Lemma on_client_undisturbed {W A} (m : M W A) : moves undisturbed (on_client m).
Proof. intros l. unfold on_client, zoom. by destruct (m (lw_world l)). Qed.

Section turn.
Context {W : Type} (client : AgentControl W) (exchange : M W unit) (ctx : OperationContext W).
Implicit Types (claim : AgentClaim) (c : schedule) (s : agent (loop_world W)).

Lemma heartbeat_start_run claim s : journal (ag_store s) → slot_of (ag_store s) = Running claim →
  sqlite_int (id_attempt (claim_identity claim)) = Ok () → lw_started (ag_world s) = false →
  heartbeat_start claim s = (Ok (), Agent (ag_store s) (set_started (ag_world s))).
Proof.
  intros Hj Hs Hsql Hst. destruct (running_row _ _ Hj Hs) as (r & a & Hin & Ha & <- & Hact & Er).
  pose proof (record_coherent _ _ Ha) as Hc. unfold heartbeat_start. rewrite (M_bind_run _ _ _ s s) by done. rewrite Hst.
  rewrite (M_bind_run _ _ _ () s) by done. rewrite (M_bind_run _ _ _ (Some a) s).
  - rewrite Er, (co_copy _ _ Hc). cbn [ar_state]. rewrite Hact, (M_bind_run _ _ _ () s) by done. by destruct s.
  - eapply recorded_lookup; [done..|]. exists r. split_and!; [done|by eapply claim_names| |done]. by destruct (co_claim _ _ Hc).
Qed.

Lemma heartbeat_start_starts claim (l : loop_world W) : sqlite_int (id_attempt (claim_identity claim)) = Ok () →
  lw_started l = false → starts_heartbeats (Some (heartbeat_start claim)) claim l.
Proof.
  intros Hsql Hst callback [= <-]. split; [apply heartbeat_start_beats|]. intros s <- Hj Hs.
  eexists. by apply heartbeat_start_run.
Qed.

Lemma heartbeat_start_undisturbed claim : moves (world_moves undisturbed) (heartbeat_start (W:=W) claim).
Proof.
  unfold heartbeat_start. apply moves_bind; [apply _|apply moves_get, _|intros s].
  apply moves_bind; [apply _|apply moves_lift, _|intros _].
  apply moves_bind; [apply _|apply store_keeps_world, _|intros [a|]]; [|apply moves_throw, _].
  apply moves_bind; [apply _|apply moves_lift, _|intros _]. apply on_world_moves. by intros l.
Qed.

Lemma no_heartbeats claim s : heartbeats client exchange claim [] s = (Ok (), s).
Proof. unfold heartbeats. rewrite (M_bind_run _ _ _ s s) by done. by destruct (lw_started _). Qed.

(** A claim that can be executed now. *)
Record executable_claim c s claim request d : Prop := {
  xc_valid : valid claim;
  xc_sqlite : sqlite_int (id_attempt (claim_identity claim)) = Ok ();
  xc_admitted : admits (ag_store s) (claim_identity claim);
  xc_request : validate_claim claim ctx = Ok request;
  xc_mapping : mapping_evidence Some (execute_request claim request ctx d);
  xc_readings : in_time (sc_readings c);
  xc_deadline : execution_deadline (sc_readings c) claim (bound_deadline (sc_execute c) (id_deadline (claim_identity claim))) = Ok d;
  xc_quiet : sc_turns c = [] ∧ sc_joined c = true
}.

Lemma lift_mapping claim request d : mapping_evidence Some (execute_request claim request ctx d) →
  mapping_evidence Some (execute_request claim request (lift_context ctx) d).
Proof.
  intros Hm l e l' e' Hr [= <-]. rewrite lift_context_execute in Hr. unfold on_client, zoom in Hr.
  destruct (execute_request claim request ctx d (lw_world l)) as [r w] eqn:E. injection Hr as -> _. by eapply Hm.
Qed.

Lemma agent_execute_run c s claim request d : journal (ag_store s) → executable_claim c s claim request d →
  ∃ v s', agent_execute client exchange c claim (lift_context ctx) s = (Ok (Execution v (canonical_message v) false), s')
    ∧ result_for claim v ∧ (result_state v = "succeeded" ∨ result_state v = "failed")
    ∧ journal (ag_store s') ∧ slot_of (ag_store s') = Reporting claim v
    ∧ lw_exchange_reported (ag_world s') = lw_exchange_reported (ag_world s).
Proof.
  intros Hj [Hv Hsql Had Hreq Hmap Htime Hd [Hturns Hjoin]]. unfold agent_execute.
  rewrite (M_bind_run _ _ _ None s) by (apply on_store_read, lookup_exact_none; [done|apply Had]). cbv zeta.
  set (l := new_worker (bound_deadline (sc_execute c) (id_deadline (claim_identity claim))) (ag_world s)).
  set (s1 := Agent (ag_store s) l). rewrite (M_bind_run _ _ _ () s1) by done. rewrite Hturns, Hjoin.
  pose proof (lift_context_validate ctx claim) as Hval. rewrite Hreq in Hval.
  destruct (execution_always_reports (lift_context ctx) (Some (heartbeat_start claim)) (heartbeats client exchange claim [])
    (sc_readings c) s1 claim (λ s, lw_deadline (ag_world s)) request d) as (v & s' & Hr & Hfor & Hst & Hj' & Hslot); try done.
  { by apply lift_mapping. }
  { by apply heartbeat_start_starts. }
  { intros u. by rewrite no_heartbeats. }
  assert (moves (world_moves undisturbed) (registry_execute (Some (heartbeat_start claim)) (heartbeats client exchange claim [])
    (sc_readings c) claim (lift_context ctx) (λ s, lw_deadline (ag_world s)))) as Hw.
  { apply (registry_world undisturbed) with (request := request); [intros ? [= <-]; apply heartbeat_start_undisturbed| | |intros t|done].
    - intros u. by rewrite no_heartbeats.
    - intros d' l'. rewrite lift_context_execute. apply on_client_undisturbed.
    - intros l'. rewrite lift_context_inspect. apply on_client_undisturbed. }
  specialize (Hw s1). rewrite Hr in Hw. destruct Hw as (He & _ & Hx).
  exists v, s'. split_and!; try done.
  - unfold try_finally. rewrite Hr. unfold try_catch, heartbeat_stop. rewrite (M_bind_run _ _ _ s' s') by done. cbn [negb].
    cbn [snd] in He. rewrite He. by destruct (negb _).
Qed.

(** The control plane takes every result of the claim. *)
Definition takes_results claim : Prop := ∀ v w, result_for claim v → ∃ w', control_result client v w = (Ok (), w').

(** C19. An idle agent delivers what it is offered: once its credentials are in order, in
    one turn without heartbeats it asks for a claim, records it, runs its handler, records
    the result, hands it to the control plane and acknowledges it. The result is of that
    very attempt and says whether the handler succeeded, the call that took it is the last
    the turn makes, and the agent is idle again, whatever the handler returned or raised.
    The claim has to be valid, new to the journal and within its deadline, with a request
    that the agent supports ([executable_claim]), and the control plane has to take the
    result. *)
Theorem offered_claim_is_delivered credentials c s claim request d l w :
  reports_exchange exchange → takes_results claim → journal (ag_store s) → slot_of (ag_store s) = Idle →
  lw_shutdown (ag_world s) = false → in_range_of_years (sc_acknowledge c) = true →
  rotate_credentials client credentials exchange (ag_world s) = (Ok (), l) →
  control_claim client (lw_world l) = (Ok (Some claim), w) → executable_claim c s claim request d →
  ∃ v w' s', run_once client credentials exchange c (lift_context ctx) s = (Ok (), s')
    ∧ result_for claim v ∧ (result_state v = "succeeded" ∨ result_state v = "failed")
    ∧ control_result client v w' = (Ok (), lw_world (ag_world s'))
    ∧ journal (ag_store s') ∧ slot_of (ag_store s') = Idle.
Proof.
  intros Hex Htake Hj Hs Hsh Hack Hrot Hclaim Hxc. pose proof (recovery_of_journal _ Hj) as Hrec. rewrite Hs in Hrec.
  destruct Hrec as [Ha Hp]. unfold run_once. rewrite (M_bind_run _ _ _ s s) by done. rewrite Hsh.
  rewrite (M_bind_run _ _ _ None s), (M_bind_run _ _ _ None s) by by apply on_store_read.
  rewrite (M_bind_run _ _ _ () (Agent (ag_store s) l)) by (unfold on_loop, on_world, zoom; cbn; by rewrite Hrot).
  set (l1 := LoopWorld w (lw_exchange_reported l) (lw_shutdown l) (lw_started l) (lw_error l) (lw_deadline l)).
  rewrite (M_bind_run _ _ _ (Some claim) (Agent (ag_store s) l1)) by (unfold on_loop, on_world, on_client, zoom; cbn; by rewrite Hclaim).
  destruct (report_exchange_run exchange l1 Hex) as (l2 & Hl2 & _ & _ & _ & _ & Ex & _).
  rewrite (M_bind_run _ _ _ () (Agent (ag_store s) l2)) by (unfold on_loop, on_world, zoom; cbn; by rewrite Hl2).
  destruct (agent_execute_run c (Agent (ag_store s) l2) claim request d Hj) as (v & s3 & Hr & Hfor & Hst & Hj3 & Hs3 & Hrep).
  { destruct Hxc. by constructor. }
  rewrite (M_bind_run _ _ _ _ _ Hr). cbn [ex_result].
  destruct (Htake v (lw_world (ag_world s3)) Hfor) as [w' Hw'].
  destruct (submit_run client exchange c v claim s3 w') as (s4 & Hr4 & Hj4 & Hs4 & Ew); try done; [apply Hxc|].
  exists v, (lw_world (ag_world s3)), s4. split_and!; try done. rewrite Ew; [done|]. by rewrite Hrep.
Qed.
End turn.

Import AttemptFacts.Sample LoopSample.

(** Credentials that are not due for renewal. *)
Definition quiet_credentials : CredentialBoundary nat := {|
  staged_generation := mret None;
  pending_rotation := mret None;
  renewal_due := mret false;
  prepare_rotation := mret ("rotation", "");
  stage_credential := λ _, mret ();
  publish_active := λ _, mret ()
|}.

Lemma offered_claim_is_delivered_witness :
  ∃ v w' s', run_once sample_client (Some quiet_credentials) (mret ()) (sample_schedule []) (lift_context (probe_context sample_node)) idle_agent = (Ok (), s')
    ∧ result_for probe_claim v ∧ (result_state v = "succeeded" ∨ result_state v = "failed")
    ∧ control_result sample_client v w' = (Ok (), lw_world (ag_world s'))
    ∧ journal (ag_store s') ∧ slot_of (ag_store s') = Idle.
Proof.
  apply (offered_claim_is_delivered sample_client (mret ()) (probe_context sample_node) (Some quiet_credentials) (sample_schedule [])
    idle_agent probe_claim (ProbeRequest false) (Deadline 1700000000000000 15000000) (ag_world idle_agent) 0).
  - intros w. by exists w.
  - intros v w _. by eexists.
  - exact empty_journal.
  - reflexivity.
  - reflexivity.
  - reflexivity.
  - reflexivity.
  - reflexivity.
  - constructor.
    + exact valid_probe_claim.
    + reflexivity.
    + constructor; [apply not_elem_of_nil|apply not_elem_of_nil|intros h [=]|intros r Hr; by apply elem_of_nil in Hr].
    + vm_compute. reflexivity.
    + apply execution_mapping.
    + split; reflexivity.
    + vm_compute. reflexivity.
    + split; reflexivity.
Defined.
