(* ===== verification/OperationGraph.v ===== *)
(** * Operation graphs of a reconciliation
    ([control/src/vonk_control/orchestration.py], the graph half)

    A plan document is parsed into operations, checked against its targets and
    its dependency rules, and put into a canonical topological order whose
    document and digest identify the graph.

    [parse_operation], [parse_targets], [parse_generation] and [parse_plan] are
    [_operation], [_targets], [_generation] and [_parse_plan]; [topological] is
    [_topological] with a fuel of one round per operation. *)

From S2P Require Import Prelude Identifiers Canonical Documents Contracts PackageEngine Protocol.

Record OperationNode := Node {
  op_id : string; op_node_id : string; op_workload_id : string; op_kind : string;
  op_dependencies : list string; op_compensation_kind : option string;
  op_payload_digest : string
}.

#[export] Instance OperationNode_eq_dec : EqDecision OperationNode.
Proof. solve_decision. Defined.

Definition to_document (n : OperationNode) : json :=
  JObj [("operation_id", JStr (op_id n)); ("node_id", JStr (op_node_id n));
        ("workload_id", JStr (op_workload_id n)); ("kind", JStr (op_kind n));
        ("dependencies", JArr (map JStr (op_dependencies n)));
        ("compensation_kind", match op_compensation_kind n with Some k => JStr k | None => JNull end);
        ("payload_digest", JStr (op_payload_digest n))].

Definition implemented_operations : list string :=
  map operation_value
    [NODE_PROBE; RELEASE_INSTALL; WORKLOAD_PREPARE; WORKLOAD_START; WORKLOAD_STOP; WORKLOAD_HEALTH;
     WORKLOAD_VERIFY; PACKAGE_PREPARE; PACKAGE_ACTIVATE; PACKAGE_HEALTH; PACKAGE_STOP; PACKAGE_ROLLBACK;
     PACKAGE_REMOVE; PACKAGE_REPAIR; PACKAGE_GC].

Definition operation_fields : list string :=
  ["operation_id"; "node_id"; "workload_id"; "kind"; "dependencies"; "compensation_kind";
   "payload_digest"].

Definition value_check (b : bool) (m : string) : result unit := ensure b EValue m.

(** ** Parsing *)

(** The strings of a list all of whose items are strings. *)
Definition strings_of (l : list json) : list string :=
  omap (λ v, match v with JStr s => Some s | _ => None end) l.

(** A string that satisfies [p]. *)
Definition parse_str (p : string → bool) (m : string) (v : json) : result string :=
  match v with
  | JStr s => value_check (p s) m;; mret s
  | _ => raise EValue m
  end.

Definition parse_dependencies (v : json) : result (list string) :=
  match v with
  | JArr l =>
      value_check (forallb (is_str is_operation_id) l)
        "reconciliation operation dependencies are invalid";;
      let ordered := py_sorted (strings_of l) in
      value_check (distinct ordered) "reconciliation operation dependency is duplicate";;
      mret ordered
  | _ => raise EValue "reconciliation operation dependencies are invalid"
  end.

Definition parse_compensation (v : json) : result (option string) :=
  match v with
  | JNull => mret None
  | _ =>
      kind ← parse_str (λ k, among k implemented_operations)
               "reconciliation compensation kind is absent from the agent registry" v;
      mret (Some kind)
  end.

Definition parse_operation (raw : json) : result OperationNode :=
  match raw with
  | JObj v =>
      value_check (same_keys v operation_fields) "reconciliation operation fields are invalid";;
      operation_id ← parse_str is_operation_id "reconciliation operation ID is invalid"
                       (field v "operation_id");
      node_id ← parse_str is_node_id "reconciliation operation target is invalid" (field v "node_id");
      workload_id ← parse_str is_identifier "reconciliation workload ID is invalid"
                      (field v "workload_id");
      kind ← parse_str (λ k, among k implemented_operations)
               "reconciliation operation kind is absent from the agent registry" (field v "kind");
      compensation ← parse_compensation (field v "compensation_kind");
      payload_digest ← parse_str is_digest "reconciliation payload digest is invalid"
                         (field v "payload_digest");
      dependencies ← parse_dependencies (field v "dependencies");
      mret (Node operation_id node_id workload_id kind dependencies compensation payload_digest)
  | _ => raise EValue "reconciliation operation fields are invalid"
  end.

Definition parse_targets (v : json) : result (list string) :=
  match v with
  | JArr l =>
      value_check (nonempty l) "reconciliation targets are required";;
      value_check (forallb (is_str is_node_id) l) "reconciliation target is invalid";;
      let targets := py_sorted (strings_of l) in
      value_check (distinct targets) "reconciliation target is duplicate";;
      mret targets
  | _ => raise EValue "reconciliation targets are required"
  end.

Definition parse_generation (v : json) : result Z :=
  match v with
  | JInt n => value_check (0 <=? n)%Z "route withdrawal generation is invalid";; mret n
  | _ => raise EValue "route withdrawal generation is invalid"
  end.

(** ** The topological order *)

(** The operations of [unresolved] whose dependencies are all done, by name. *)
Definition ready_of (unresolved : gmap string (gset string)) : list string :=
  py_sorted ((filter (λ p : string * gset string, p.2 = ∅) (map_to_list unresolved)).*1).

Definition find_node (by_id : gmap string OperationNode) (id : string) : result OperationNode :=
  match by_id !! id with Some n => mret n | None => raise EKey id end.

Definition del_all (ids : list string) (unresolved : gmap string (gset string))
    : gmap string (gset string) :=
  foldr delete unresolved ids.

(** One round of the [while] loop per unit of fuel. *)
Fixpoint resolve (fuel : nat) (by_id : gmap string OperationNode)
    (unresolved : gmap string (gset string)) (ordered : list OperationNode)
    : result (list OperationNode) :=
  if bool_decide (unresolved = ∅) then mret ordered else
  match fuel with
  | O => raise ERuntime "out of fuel"
  | S fuel =>
      let ready := ready_of unresolved in
      value_check (nonempty ready) "reconciliation operation graph contains a cycle";;
      nodes ← traverse (find_node by_id) ready;
      resolve fuel by_id ((λ deps, deps ∖ list_to_set ready) <$> del_all ready unresolved)
        (ordered ++ nodes)
  end.

Definition dependency_sets (by_id : gmap string OperationNode) : gmap string (gset string) :=
  (λ n, list_to_set (op_dependencies n)) <$> by_id.

Definition topological (by_id : gmap string OperationNode) : result (list OperationNode) :=
  resolve (size by_id) by_id (dependency_sets by_id) [].

(** ** The plan *)

Definition plan_fields : list string :=
  ["base_commit"; "targets"; "route_withdrawal_generation"; "operations"].

Fixpoint index_nodes (targets : list string) (parsed : list OperationNode)
    (by_id : gmap string OperationNode) : result (gmap string OperationNode) :=
  match parsed with
  | [] => mret by_id
  | n :: parsed =>
      value_check (negb (bool_decide (is_Some (by_id !! op_id n))))
        "reconciliation operation ID is duplicate";;
      value_check (among (op_node_id n) targets) "reconciliation operation target is unknown";;
      index_nodes targets parsed (<[op_id n := n]> by_id)
  end.

(** The two dependencies that may cross workloads: a node gate waits for stopped
    workloads, an installation waits for node gates. *)
Definition cross_workload_gate (n required : OperationNode) : bool :=
  (eqb (op_kind n) NODE_PROBE && eqb (op_workload_id n) "node-gate"
   && eqb (op_kind required) WORKLOAD_STOP)
  || (eqb (op_kind n) RELEASE_INSTALL && eqb (op_kind required) NODE_PROBE
      && eqb (op_workload_id required) "node-gate").

Definition check_dependency (by_id : gmap string OperationNode) (n : OperationNode)
    (dependency : string) : result unit :=
  match by_id !! dependency with
  | None => raise EValue "reconciliation operation dependency is unknown"
  | Some required =>
      value_check (eqb (op_workload_id required) (op_workload_id n) || cross_workload_gate n required)
        "cross-workload dependency is invalid"
  end.

Record Plan := ParsedPlan {
  plan_base_commit : string; plan_targets : list string; plan_generation : Z;
  plan_nodes : list OperationNode
}.

Definition parse_plan (document : json) : result Plan :=
  match document with
  | JObj v =>
      value_check (same_keys v plan_fields) "reconciliation plan fields are invalid";;
      base_commit ← parse_str is_commit "base commit is invalid" (field v "base_commit");
      targets ← parse_targets (field v "targets");
      generation ← parse_generation (field v "route_withdrawal_generation");
      raw_operations ← match field v "operations" with
                       | JArr ((_ :: _) as l) => mret l
                       | _ => raise EValue "reconciliation operations are required"
                       end;
      parsed ← traverse parse_operation raw_operations;
      by_id ← index_nodes targets parsed ∅;
      each (λ n, each (check_dependency by_id n) (op_dependencies n)) parsed;;
      nodes ← topological by_id;
      mret (ParsedPlan base_commit targets generation nodes)
  | _ => raise EValue "reconciliation plan fields are invalid"
  end.

Definition graph_document (base_commit : string) (targets : list string)
    (nodes : list OperationNode) : json :=
  JObj [("schema_version", JInt 1); ("base_commit", JStr base_commit);
        ("targets", JArr (map JStr targets)); ("nodes", JArr (map to_document nodes))].

(** ** Schedules

    [respects D l]: when the operations in [D] are done, running [l] from left to
    right starts no operation before its dependencies. *)
Fixpoint respects (D : gset string) (l : list OperationNode) : Prop :=
  match l with
  | [] => True
  | n :: l => list_to_set (op_dependencies n) ⊆ D ∧ respects ({[op_id n]} ∪ D) l
  end.

Definition ids_of (l : list OperationNode) : gset string := list_to_set (op_id <$> l).

(** A schedule of a graph runs each of its operations once, in such an order. *)
Definition schedule (by_id : gmap string OperationNode) (l : list OperationNode) : Prop :=
  l ≡ₚ (map_to_list by_id).*2 ∧ respects ∅ l.

Lemma respects_app D l1 l2 :
  respects D (l1 ++ l2) ↔ respects D l1 ∧ respects (ids_of l1 ∪ D) l2.
Proof.
  revert D. induction l1 as [|n l1 IH]; intros D; cbn.
  - rewrite union_empty_l_L. tauto.
  - rewrite IH. unfold ids_of. cbn.
    replace (list_to_set (op_id <$> l1) ∪ ({[op_id n]} ∪ D))
      with ({[op_id n]} ∪ list_to_set (op_id <$> l1) ∪ D :> gset string) by set_solver. tauto.
Qed.

Lemma respects_parallel D l :
  Forall (λ n, list_to_set (op_dependencies n) ⊆ D) l → respects D l.
Proof.
  assert (∀ D', D ⊆ D' → Forall (λ n, list_to_set (op_dependencies n) ⊆ D) l → respects D' l) as H.
  { induction l as [|n l IH]; intros D' HD Hl; cbn; [done|].
    apply Forall_cons in Hl as [Hn Hl]. split; [set_solver|]. apply IH; [set_solver|done]. }
  by apply H.
Qed.

(** In a schedule, a dependency of an operation occurs before it. *)
Lemma respects_before D l n i dep :
  respects D l → l !! i = Some n → dep ∈ op_dependencies n → dep ∉ D →
  ∃ j m, (j < i)%nat ∧ l !! j = Some m ∧ op_id m = dep.
Proof.
  revert D i. induction l as [|k l IH]; intros D i Hl Hi Hdep HD; [done|].
  destruct Hl as [Hk Hl]. destruct i as [|i]; cbn in Hi.
  - simplify_eq. set_solver.
  - destruct (decide (dep = op_id k)) as [->|Hne]; [exists 0, k; split_and!; [lia|done|done]|].
    destruct (IH _ _ Hl Hi Hdep) as (j & m & Hj & Hm & Hid); [set_solver|].
    exists (S j), m. split_and!; [lia|done|done].
Qed.

(** ** The loop against its specification *)

Section topological.
Context (by_id : gmap string OperationNode).

(** What [unresolved] is once the operations in [D] are ordered. *)
Definition pending (D : gset string) : gmap string (gset string) :=
  (λ n, list_to_set (op_dependencies n) ∖ D) <$> filter (λ p, p.1 ∉ D) by_id.

Lemma pending_lookup D id deps :
  pending D !! id = Some deps ↔
  ∃ n, by_id !! id = Some n ∧ id ∉ D ∧ deps = list_to_set (op_dependencies n) ∖ D.
Proof.
  unfold pending. rewrite lookup_fmap_Some. setoid_rewrite map_lookup_filter_Some. naive_solver.
Qed.

Lemma pending_empty : pending ∅ = dependency_sets by_id.
Proof.
  apply map_eq. intros id. apply option_eq. intros deps. rewrite pending_lookup.
  unfold dependency_sets. rewrite lookup_fmap_Some.
  setoid_rewrite difference_empty_L. set_solver.
Qed.

Lemma ready_spec D id :
  id ∈ ready_of (pending D) ↔
  ∃ n, by_id !! id = Some n ∧ id ∉ D ∧ list_to_set (op_dependencies n) ⊆ D.
Proof.
  unfold ready_of. rewrite py_sorted_elem_of, list_elem_of_fmap.
  setoid_rewrite list_elem_of_filter. split.
  - intros ([id' deps] & -> & Hd & Hin). apply elem_of_map_to_list, pending_lookup in Hin.
    destruct Hin as (n & ? & ? & ->). exists n. cbn [fst snd] in *.
    split_and!; [done|done|set_solver].
  - intros (n & ? & ? & ?). exists (id, ∅). split; [done|]. split; [done|].
    apply elem_of_map_to_list, pending_lookup. exists n. split_and!; [done|done|set_solver].
Qed.

Lemma ready_nodup D : NoDup (ready_of (pending D)).
Proof.
  unfold ready_of. rewrite py_sorted_perm.
  eapply NoDup_fmap_fst; [|apply NoDup_filter, NoDup_map_to_list].
  intros id a b. rewrite !list_elem_of_filter. cbn. intros [? _] [? _]. congruence.
Qed.

Lemma del_all_lookup ids (m : gmap string (gset string)) id :
  del_all ids m !! id = if decide (id ∈ ids) then None else m !! id.
Proof.
  induction ids as [|i ids IH]; [cbn; by rewrite decide_False by set_solver|].
  change (del_all (i :: ids) m) with (delete i (del_all ids m)). destruct (decide (i = id)) as [->|Hne].
  - rewrite lookup_delete_eq. by rewrite decide_True by set_solver.
  - rewrite lookup_delete_ne by done. rewrite IH.
    destruct (decide (id ∈ ids)); [by rewrite decide_True by set_solver|].
    by rewrite decide_False by set_solver.
Qed.

(** A round of the loop removes exactly the operations it orders. *)
Lemma pending_step D ready :
  (λ deps, deps ∖ list_to_set ready) <$> del_all ready (pending D) = pending (list_to_set ready ∪ D).
Proof.
  apply map_eq. intros id. apply option_eq. intros deps.
  rewrite lookup_fmap_Some, pending_lookup. setoid_rewrite del_all_lookup. split.
  - intros (deps' & <- & H). case_decide; [done|]. apply pending_lookup in H as (n & ? & ? & ->).
    exists n. split_and!; [done|set_solver|set_solver].
  - intros (n & Hn & Hid & ->). exists (list_to_set (op_dependencies n) ∖ D).
    split; [set_solver|]. rewrite decide_False by set_solver.
    apply pending_lookup. exists n. split_and!; [done|set_solver|done].
Qed.

Lemma find_nodes ids :
  (∀ id, id ∈ ids → is_Some (by_id !! id)) →
  ∃ nodes, traverse (find_node by_id) ids = Ok nodes
           ∧ Forall2 (λ id n, by_id !! id = Some n) ids nodes.
Proof.
  induction ids as [|id ids IH]; intros H; [by exists []|].
  destruct (H id) as [n Hn]; [set_solver|].
  destruct IH as (nodes & Hnodes & Hl); [set_solver|].
  assert (find_node by_id id = Ok n) as E by (unfold find_node; by rewrite Hn).
  exists (n :: nodes). cbn [traverse]. rewrite E. cbn. rewrite Hnodes.
  split; [done|by constructor].
Qed.

Lemma pending_shrinks D : ready_of (pending D) ≠ [] →
  (size (pending (list_to_set (ready_of (pending D)) ∪ D)) < size (pending D))%nat.
Proof.
  intros Hne. rewrite <- !(size_dom (D:=gset string)). apply subset_size.
  destruct (ready_of (pending D)) as [|r ready] eqn:Hr; [done|]. split.
  - intros id [deps H]%elem_of_dom. apply pending_lookup in H as (n & ? & ? & _).
    apply elem_of_dom. eexists. apply pending_lookup. exists n. split_and!; [done|set_solver|done].
  - assert (r ∈ ready_of (pending D)) as Hin by (rewrite Hr; set_solver).
    apply ready_spec in Hin as (n & Hn & HD & _). intros Hsub.
    assert (r ∈ dom (pending D)) as [deps H]%Hsub%elem_of_dom.
    { apply elem_of_dom. eexists. apply pending_lookup. by exists n. }
    apply pending_lookup in H as (? & _ & ? & _). set_solver.
Qed.

(** Operations that wait for each other or for an operation that does not exist. *)
Definition blocked (C : gset string) : Prop :=
  C ≠ ∅ ∧ ∀ id, id ∈ C → ∃ n, by_id !! id = Some n ∧ ∃ dep, dep ∈ op_dependencies n
    ∧ (dep ∈ C ∨ by_id !! dep = None).

Definition cycle_error : exn := Exn EValue "reconciliation operation graph contains a cycle".

Lemma stuck_is_blocked D :
  ready_of (pending D) = [] → pending D ≠ ∅ → blocked (dom (pending D)).
Proof.
  intros Hready Hne. split; [by intros ?%dom_empty_inv_L|].
  intros id [deps H]%elem_of_dom. apply pending_lookup in H as (n & Hn & HD & _).
  exists n. split; [done|].
  destruct (decide (list_to_set (op_dependencies n) ⊆ D)) as [Hsub|Hsub].
  { exfalso. assert (id ∈ ready_of (pending D)) by (apply ready_spec; eauto).
    rewrite Hready in *. set_solver. }
  assert (∃ dep, dep ∈ op_dependencies n ∧ dep ∉ D) as (dep & Hdep & HdepD).
  { destruct (decide (Exists (λ d, d ∉ D) (op_dependencies n))) as [He|He].
    - by apply Exists_exists in He.
    - apply not_Exists_Forall in He; [|apply _]. rewrite Forall_forall in He. destruct Hsub.
      intros d Hd%elem_of_list_to_set. destruct (decide (d ∈ D)); [done|]. by destruct (He d Hd). }
  exists dep. split; [done|]. destruct (by_id !! dep) as [m|] eqn:Hm; [left|by right].
  apply elem_of_dom. eexists. apply pending_lookup. by exists m.
Qed.

Hypothesis Hkey : ∀ id n, by_id !! id = Some n → op_id n = id.

Lemma found_ids ids nodes :
  Forall2 (λ id n, by_id !! id = Some n) ids nodes → op_id <$> nodes = ids.
Proof. induction 1 as [|id n ids nodes Hn _ IH]; cbn; [done|]. by rewrite (Hkey _ _ Hn), IH. Qed.

(** A graph with a blocked set has no schedule. *)
Lemma blocked_unschedulable C l : blocked C → ¬ schedule by_id l.
Proof.
  intros [Hne HC] [Hperm Hl].
  assert (∀ i n, l !! i = Some n → op_id n ∉ C) as Hnone.
  { intros i. induction (lt_wf i) as [i _ IH]. intros n Hi Hin.
    destruct (HC _ Hin) as (n' & Hn' & dep & Hdep & Hcase).
    assert (by_id !! op_id n = Some n) as Hn.
    { apply list_elem_of_lookup_2 in Hi. rewrite Hperm in Hi.
      apply list_elem_of_fmap in Hi as ([id m] & -> & Hm%elem_of_map_to_list). cbn.
      by rewrite (Hkey _ _ Hm). }
    simplify_eq. destruct (respects_before _ _ _ _ _ Hl Hi Hdep) as (j & m & Hj & Hm & <-); [set_solver|].
    destruct Hcase as [Hc|Hc]; [by eapply IH|].
    apply list_elem_of_lookup_2 in Hm. rewrite Hperm in Hm.
    apply list_elem_of_fmap in Hm as ([id k] & -> & Hk%elem_of_map_to_list). cbn in Hc.
    by rewrite (Hkey _ _ Hk), Hk in Hc. }
  apply set_choose_L in Hne as [id Hid]. destruct (HC _ Hid) as (n & Hn & _).
  assert (n ∈ l) as [i Hi]%list_elem_of_lookup.
  { rewrite Hperm. apply list_elem_of_fmap. exists (id, n). split; [done|]. by apply elem_of_map_to_list. }
  apply (Hnone i n Hi). by rewrite (Hkey _ _ Hn).
Qed.

(** The operations a run of the loop adds after those in [D]. *)
Definition completes (D : gset string) (l : list OperationNode) : Prop :=
  respects D l ∧ NoDup l ∧ ∀ n, n ∈ l ↔ by_id !! op_id n = Some n ∧ op_id n ∉ D.

Lemma completes_round D nodes l :
  Forall2 (λ id n, by_id !! id = Some n) (ready_of (pending D)) nodes →
  completes (list_to_set (ready_of (pending D)) ∪ D) l → completes D (nodes ++ l).
Proof.
  intros Hnodes (Hl & Hnd & Hin). pose proof (found_ids _ _ Hnodes) as Hids.
  assert (∀ n, n ∈ nodes → by_id !! op_id n = Some n ∧ op_id n ∈ ready_of (pending D)) as Hfound.
  { intros n Hn. destruct (Forall2_elem_r _ _ _ _ Hnodes Hn) as (id & Hid & E).
    by rewrite (Hkey _ _ E). }
  split_and!.
  - rewrite respects_app. split; [|unfold ids_of; by rewrite Hids].
    apply respects_parallel, Forall_forall. intros n Hn. apply Hfound in Hn as [E Hr].
    apply ready_spec in Hr as (n' & E' & _ & ?). by simplify_eq.
  - apply NoDup_app. split_and!; [|intros n Hn Hn2|done].
    + apply NoDup_fmap_1 with op_id. rewrite Hids. apply ready_nodup.
    + apply Hfound in Hn as [_ Hr]. apply Hin in Hn2 as [_ Hn2]. set_solver.
  - intros n. rewrite elem_of_app, Hin. split.
    + intros [Hn|[E HD]]; [|by split; [|set_solver]].
      apply Hfound in Hn as [E Hr]. apply ready_spec in Hr as (? & _ & ? & _). done.
    + intros [E HD]. destruct (decide (op_id n ∈ ready_of (pending D))) as [Hr|Hr]; [left|right; set_solver].
      destruct (Forall2_elem_l _ _ _ _ Hnodes Hr) as (n' & Hn' & E'). by simplify_eq.
Qed.

Lemma resolve_spec fuel D ordered :
  (size (pending D) ≤ fuel)%nat →
  (∃ l, resolve fuel by_id (pending D) ordered = Ok (ordered ++ l) ∧ completes D l)
  ∨ (resolve fuel by_id (pending D) ordered = Err cycle_error ∧ ∃ C, blocked C).
Proof.
  revert D ordered. induction fuel as [|fuel IH]; intros D ordered Hfuel; cbn [resolve];
    (case_bool_decide as He;
      [left; exists []; rewrite app_nil_r; split; [done|]; split_and!; [done|constructor|];
       intros n; split; [by intros ?%elem_of_nil|intros [Hn HD]; exfalso];
       assert (op_id n ∈ dom (pending D)) as Hdom
         by (apply elem_of_dom; eexists; apply pending_lookup; by exists n);
       by rewrite He, dom_empty_L in Hdom|]).
  - exfalso. apply He. apply map_size_empty_inv. lia.
  - destruct (nonempty (ready_of (pending D))) eqn:Hr.
    + apply (proj1 (nonempty_true _)) in Hr. cbn.
      destruct (find_nodes (ready_of (pending D))) as (nodes & E & Hnodes).
      { intros id (n & ? & _)%ready_spec. eauto. }
      rewrite E. cbn. rewrite pending_step.
      pose proof (pending_shrinks D Hr) as Hlt.
      destruct (IH (list_to_set (ready_of (pending D)) ∪ D) (ordered ++ nodes)) as [(l & El & Hl)|H];
        [lia| |by right].
      left. exists (nodes ++ l). rewrite El, app_assoc. split; [done|]. by apply completes_round.
    + right. split; [done|]. exists (dom (pending D)).
      apply stuck_is_blocked; [|done]. by destruct (ready_of (pending D)).
Qed.

Lemma completes_schedule l : completes ∅ l ↔ schedule by_id l.
Proof.
  assert (NoDup (map_to_list by_id).*2) as Hnd.
  { apply NoDup_fmap_2_strong; [|apply NoDup_map_to_list].
    intros [i n] [j k] Hi%elem_of_map_to_list Hj%elem_of_map_to_list. cbn. intros ->.
    by rewrite <- (Hkey _ _ Hi), <- (Hkey _ _ Hj). }
  assert (∀ n, n ∈ (map_to_list by_id).*2 ↔ by_id !! op_id n = Some n) as Hin.
  { intros n. rewrite list_elem_of_fmap. split.
    - intros ([id m] & -> & Hm%elem_of_map_to_list). cbn. by rewrite (Hkey _ _ Hm).
    - intros Hn. exists (op_id n, n). split; [done|]. by apply elem_of_map_to_list. }
  unfold completes, schedule. split.
  - intros (Hl & Hl2 & Hl3). split; [|done]. apply NoDup_Permutation; [done|done|].
    intros n. rewrite Hin, Hl3. set_solver.
  - intros [Hp Hl]. split_and!; [done|by rewrite Hp|]. intros n. rewrite Hp, Hin. set_solver.
Qed.

(** The order is a schedule; without one, the graph is refused. *)
Lemma topological_cases :
  (∃ l, topological by_id = Ok l ∧ schedule by_id l)
  ∨ (topological by_id = Err cycle_error ∧ ∀ l, ¬ schedule by_id l).
Proof.
  unfold topological. rewrite <- pending_empty.
  destruct (resolve_spec (size by_id) ∅ []) as [(l & E & Hl)|(E & C & HC)].
  - rewrite pending_empty. unfold dependency_sets. by rewrite map_size_fmap.
  - left. exists l. split; [done|]. by apply completes_schedule.
  - right. split; [done|]. intros l. by eapply blocked_unschedulable.
Qed.
End topological.

(** ** Accepted plans *)

Definition by_ids (nodes : list OperationNode) : gmap string OperationNode :=
  list_to_map ((λ n, (op_id n, n)) <$> nodes).

Lemma by_ids_fst nodes : ((λ n, (op_id n, n)) <$> nodes).*1 = op_id <$> nodes.
Proof. rewrite <- list_fmap_compose. done. Qed.

Lemma by_ids_lookup nodes id n :
  NoDup (op_id <$> nodes) → by_ids nodes !! id = Some n ↔ n ∈ nodes ∧ op_id n = id.
Proof.
  intros Hnd. unfold by_ids. rewrite <- elem_of_list_to_map by (by rewrite by_ids_fst).
  rewrite list_elem_of_fmap. naive_solver.
Qed.

Lemma by_ids_key nodes : NoDup (op_id <$> nodes) →
  ∀ id n, by_ids nodes !! id = Some n → op_id n = id.
Proof. intros Hnd id n H. by apply by_ids_lookup in H as [_ ?]. Qed.

Lemma by_ids_perm l k : NoDup (op_id <$> l) → l ≡ₚ k → by_ids l = by_ids k.
Proof.
  intros Hnd Hp. apply list_to_map_proper; [by rewrite by_ids_fst|]. by rewrite Hp.
Qed.

Lemma by_ids_values l : NoDup (op_id <$> l) → (map_to_list (by_ids l)).*2 ≡ₚ l.
Proof.
  intros Hnd. unfold by_ids. rewrite map_to_list_to_map by (by rewrite by_ids_fst).
  rewrite <- list_fmap_compose. cbn. by rewrite list_fmap_id.
Qed.

Lemma by_ids_cons_union n nodes m : op_id n ∉ op_id <$> nodes →
  by_ids nodes ∪ <[op_id n := n]> m = by_ids (n :: nodes) ∪ m.
Proof.
  intros Hn. unfold by_ids. cbn. rewrite <- insert_union_r; [by rewrite insert_union_l|].
  apply not_elem_of_list_to_map_1. by rewrite by_ids_fst.
Qed.

Lemma index_nodes_ok targets parsed m m' :
  index_nodes targets parsed m = Ok m' ↔
  NoDup (op_id <$> parsed) ∧ Forall (λ n, m !! op_id n = None) parsed
  ∧ Forall (λ n, op_node_id n ∈ targets) parsed ∧ m' = by_ids parsed ∪ m.
Proof.
  revert m. induction parsed as [|n parsed IH]; intros m; cbn.
  - unfold by_ids. cbn. rewrite map_empty_union. split.
    + intros [= <-]. split_and!; [constructor|constructor|constructor|done].
    + by intros (_ & _ & _ & ->).
  - rewrite NoDup_cons, !Forall_cons. unfold value_check. split.
    + intros H. inv_run_all. bool_facts. rewrite <- eq_None_not_Some in *.
      apply IH in H as (Hnd & Hm & Htargets & ->).
      assert (op_id n ∉ op_id <$> parsed) as Hnin.
      { intros (k & Hk & Hin)%list_elem_of_fmap. rewrite Forall_forall in Hm. specialize (Hm k Hin).
        rewrite <- Hk, lookup_insert_eq in Hm. done. }
      split_and!; try done.
      * eapply Forall_impl; [exact Hm|]. cbn. intros k Hk. by apply lookup_insert_None in Hk as [? _].
      * by apply by_ids_cons_union.
    + intros ([Hnin Hnd] & [Hn Hm] & [Ht Htargets] & ->).
      rewrite bool_decide_eq_false_2 by (by rewrite Hn; intros [??]).
      rewrite (proj2 (among_true _ _) Ht). cbn. apply IH. split_and!; try done.
      * rewrite Forall_forall in Hm |- *. intros k Hk. apply lookup_insert_None. split; [by apply Hm|].
        intros E. apply Hnin. rewrite E. by apply list_elem_of_fmap_2.
      * symmetry. by apply by_ids_cons_union.
Qed.

(** What the dependency checks of a plan establish. *)
Definition dependency_allowed (nodes : list OperationNode) (n : OperationNode) (dep : string) : Prop :=
  ∃ required, required ∈ nodes ∧ op_id required = dep
    ∧ (op_workload_id required = op_workload_id n ∨ cross_workload_gate n required = true).

Lemma check_dependency_ok nodes n dep :
  NoDup (op_id <$> nodes) →
  check_dependency (by_ids nodes) n dep = Ok () ↔ dependency_allowed nodes n dep.
Proof.
  intros Hnd. unfold check_dependency, value_check, dependency_allowed.
  setoid_rewrite (and_assoc (_ ∈ nodes)). setoid_rewrite <- by_ids_lookup; [|done].
  destruct (by_ids nodes !! dep) as [required|] eqn:E; [|split; [done|]; naive_solver].
  rewrite ensure_ok, orb_true_iff, eqb_true. naive_solver.
Qed.

Definition accepted (nodes : list OperationNode) (targets : list string) : Prop :=
  NoDup (op_id <$> nodes) ∧ Forall (λ n, op_node_id n ∈ targets) nodes
  ∧ Forall (λ n, Forall (dependency_allowed nodes n) (op_dependencies n)) nodes.

Lemma index_and_check parsed targets by_id :
  index_nodes targets parsed ∅ = Ok by_id →
  each (λ n, each (check_dependency by_id n) (op_dependencies n)) parsed = Ok () →
  by_id = by_ids parsed ∧ accepted parsed targets.
Proof.
  intros H Hdeps. apply index_nodes_ok in H as (Hnd & _ & Ht & ->).
  rewrite map_union_empty in *. split; [done|]. split_and!; [done..|].
  apply each_ok in Hdeps. eapply Forall_impl; [exact Hdeps|]. cbn. intros n Hn.
  apply each_ok in Hn. eapply Forall_impl; [exact Hn|]. cbn. intros dep.
  by apply check_dependency_ok.
Qed.

Lemma accepted_checks parsed targets :
  accepted parsed targets →
  index_nodes targets parsed ∅ = Ok (by_ids parsed)
  ∧ each (λ n, each (check_dependency (by_ids parsed) n) (op_dependencies n)) parsed = Ok ().
Proof.
  intros (Hnd & Ht & Hdeps). split.
  - apply index_nodes_ok. rewrite map_union_empty. split_and!; try done.
    apply Forall_forall. intros n _. apply lookup_empty.
  - apply each_ok. eapply Forall_impl; [exact Hdeps|]. cbn. intros n Hn.
    apply each_ok. eapply Forall_impl; [exact Hn|]. cbn. intros dep. by apply check_dependency_ok.
Qed.

Lemma parse_plan_ok v P :
  parse_plan (JObj v) = Ok P ↔
  same_keys v plan_fields = true
  ∧ parse_str is_commit "base commit is invalid" (field v "base_commit") = Ok (plan_base_commit P)
  ∧ parse_targets (field v "targets") = Ok (plan_targets P)
  ∧ parse_generation (field v "route_withdrawal_generation") = Ok (plan_generation P)
  ∧ ∃ raws parsed, field v "operations" = JArr raws ∧ raws ≠ []
    ∧ traverse parse_operation raws = Ok parsed ∧ accepted parsed (plan_targets P)
    ∧ topological (by_ids parsed) = Ok (plan_nodes P).
Proof.
  unfold parse_plan, value_check. split.
  - intros H. inv_run_all. subst P. cbn [plan_base_commit plan_targets plan_generation plan_nodes].
    destruct x6. destruct (index_and_check x4 x1 x5) as [-> Hacc]; [done..|].
    split_and!; [done..|]. exists x3, x4.
    destruct (field v "operations") as [| | | |[|r raws]|]; try discriminate. inv_run_all. subst x3.
    split_and!; done.
  - intros (Hkeys & Hc & Ht & Hg & raws & parsed & Hops & Hne & Hparsed & Hacc & Htopo).
    destruct (accepted_checks _ _ Hacc) as [Hindex Hchecks].
    rewrite Hkeys. cbn [ensure mbind result_bind]. rewrite Hc. cbn [mbind result_bind].
    rewrite Ht. cbn [mbind result_bind]. rewrite Hg. cbn [mbind result_bind]. rewrite Hops.
    destruct raws; [done|]. cbn [mbind result_bind mret result_ret]. rewrite Hparsed.
    cbn [mbind result_bind]. rewrite Hindex. cbn [mbind result_bind]. rewrite Hchecks.
    cbn [mbind result_bind]. rewrite Htopo. by destruct P.
Qed.

(** ** Documents up to order

    Two documents that differ in the order of the items of their objects and of
    the elements of their arrays. *)
Inductive reorders : json → json → Prop :=
| reorders_refl v : reorders v v
| reorders_array l l' k : Forall2 reorders l l' → l' ≡ₚ k → reorders (JArr l) (JArr k)
| reorders_object l l' k :
    NoDup l.*1 → Forall2 (λ p q, p.1 = q.1 ∧ reorders p.2 q.2) l l' → l' ≡ₚ k →
    reorders (JObj l) (JObj k).

Lemma reordered_keys (l l' k : list (string * json)) :
  Forall2 (λ p q, p.1 = q.1 ∧ reorders p.2 q.2) l l' → l' ≡ₚ k → k.*1 ≡ₚ l.*1.
Proof.
  intros Hl Hp. rewrite <- Hp.
  replace l'.*1 with l.*1; [done|]. clear Hp.
  induction Hl as [|[??] [??] ?? [E _] ? IH]; cbn in *; [done|]. by rewrite E, IH.
Qed.

Lemma reorders_field l k key : reorders (JObj l) (JObj k) → reorders (field l key) (field k key).
Proof.
  inversion 1 as [| |? l' ? Hnd Hl Hp]; subst; [constructor|].
  pose proof (reordered_keys _ _ _ Hl Hp) as Hkeys. unfold field.
  destruct (lookup_key l key) as [v|] eqn:E; cbn.
  - apply lookup_key_Some in E; [|done].
    destruct (Forall2_elem_l _ _ _ _ Hl E) as ([key' v'] & Hin & Hkv). cbn in Hkv. destruct Hkv as [<- Hv].
    rewrite Hp in Hin. rewrite (proj2 (lookup_key_Some k key v' ltac:(by rewrite Hkeys)) Hin). done.
  - apply lookup_key_None in E. rewrite <- Hkeys in E. apply lookup_key_None in E.
    rewrite E. constructor.
Qed.

Lemma reorders_same_keys l k fields :
  reorders (JObj l) (JObj k) → same_keys l fields = true → same_keys k fields = true.
Proof.
  inversion 1 as [| |? l' ? Hnd Hl Hp]; subst; [done|].
  rewrite !same_keys_spec. intros Hk key. by rewrite (reordered_keys _ _ _ Hl Hp).
Qed.

Lemma parse_str_reorders p m v w s :
  reorders v w → parse_str p m v = Ok s → parse_str p m w = Ok s.
Proof. by inversion 1. Qed.

Lemma reorders_strings p l l' : forallb (is_str p) l = true → Forall2 reorders l l' → l' = l.
Proof.
  intros Hp Hl. induction Hl as [|x y l l' Hxy Hl IH]; [done|]. cbn in Hp. bool_facts.
  rewrite IH; [|by rewrite forallb_forall]. f_equal. destruct x; try done. by inversion Hxy.
Qed.

#[export] Instance strings_of_perm : Proper ((≡ₚ) ==> (≡ₚ)) strings_of.
Proof. intros l k H. unfold strings_of. by rewrite H. Qed.

(** The strings of an array, checked one by one and sorted. *)
Lemma reorders_string_array p l k :
  reorders (JArr l) (JArr k) → forallb (is_str p) l = true →
  forallb (is_str p) k = true ∧ py_sorted (strings_of k) = py_sorted (strings_of l) ∧ k ≡ₚ l.
Proof.
  intros H Hp. assert (k ≡ₚ l) as Hk.
  { inversion H as [|? l' ? Hl Hperm|]; subst; [done|]. by rewrite <- (reorders_strings _ _ _ Hp Hl). }
  split_and!; [|by apply py_sorted_unique, strings_of_perm|done].
  rewrite forallb_forall in Hp |- *. intros x Hx. apply Hp. apply list_elem_of_In.
  rewrite <- Hk. by apply list_elem_of_In.
Qed.

Ltac run_ok :=
  repeat match goal with
  | E : ?x = Ok _ |- context [?x] => rewrite E; cbn [mbind result_bind mret result_ret]
  end.

Lemma parse_operation_ok v n :
  parse_operation (JObj v) = Ok n ↔
  same_keys v operation_fields = true
  ∧ parse_str is_operation_id "reconciliation operation ID is invalid" (field v "operation_id")
    = Ok (op_id n)
  ∧ parse_str is_node_id "reconciliation operation target is invalid" (field v "node_id")
    = Ok (op_node_id n)
  ∧ parse_str is_identifier "reconciliation workload ID is invalid" (field v "workload_id")
    = Ok (op_workload_id n)
  ∧ parse_str (λ k, among k implemented_operations)
      "reconciliation operation kind is absent from the agent registry" (field v "kind") = Ok (op_kind n)
  ∧ parse_compensation (field v "compensation_kind") = Ok (op_compensation_kind n)
  ∧ parse_str is_digest "reconciliation payload digest is invalid" (field v "payload_digest")
    = Ok (op_payload_digest n)
  ∧ parse_dependencies (field v "dependencies") = Ok (op_dependencies n).
Proof.
  unfold parse_operation, value_check. split.
  - intros H. inv_run_all. subst n. by split_and!.
  - intros (Hkeys & ? & ? & ? & ? & ? & ? & ?). rewrite Hkeys. cbn [ensure mbind result_bind].
    run_ok. by destruct n.
Qed.

Lemma parse_dependencies_reorders v w l :
  reorders v w → parse_dependencies v = Ok l → parse_dependencies w = Ok l.
Proof.
  unfold parse_dependencies, value_check. intros H Hv.
  destruct v as [| | | |items|]; try discriminate Hv. inv_run_all.
  destruct w as [| | | |k|]; try (by inversion H).
  match goal with Hp : forallb _ items = true |- _ =>
    destruct (reorders_string_array _ _ _ H Hp) as (E1 & E2 & _) end.
  rewrite E1, E2. cbn [ensure mbind result_bind].
  match goal with Hd : distinct _ = true |- _ => rewrite Hd end. by subst.
Qed.

Lemma parse_targets_reorders v w l :
  reorders v w → parse_targets v = Ok l → parse_targets w = Ok l.
Proof.
  unfold parse_targets, value_check. intros H Hv.
  destruct v as [| | | |items|]; try discriminate Hv. inv_run_all.
  destruct w as [| | | |k|]; try (by inversion H).
  match goal with Hp : forallb _ items = true |- _ =>
    destruct (reorders_string_array _ _ _ H Hp) as (E1 & E2 & E3) end.
  assert (nonempty k = true) as Hk.
  { destruct k; [|done]. apply Permutation_nil in E3. by subst items. }
  rewrite Hk, E1, E2. cbn [ensure mbind result_bind].
  match goal with Hd : distinct _ = true |- _ => rewrite Hd end. by subst.
Qed.

Lemma parse_operation_reorders v w n :
  reorders v w → parse_operation v = Ok n → parse_operation w = Ok n.
Proof.
  intros H Hv. destruct v as [| | | | |l]; try discriminate Hv.
  destruct w as [| | | | |k]; try (by inversion H). rewrite parse_operation_ok in Hv |- *.
  destruct Hv as (? & ? & ? & ? & ? & Hcomp & ? & ?).
  split_and!; eauto using reorders_same_keys, parse_str_reorders, parse_dependencies_reorders, reorders_field.
  pose proof (reorders_field l k "compensation_kind" H) as Hf. revert Hcomp. by inversion Hf.
Qed.

(** The results of a traversal of a permuted list are permuted. *)
Lemma traverse_perm {A B} (f : A → result B) l k ys :
  l ≡ₚ k → traverse f l = Ok ys → ∃ zs, traverse f k = Ok zs ∧ zs ≡ₚ ys.
Proof.
  intros Hp. setoid_rewrite traverse_ok. revert ys.
  induction Hp as [|x l k Hp IH|x y l|l k j Hp1 IH1 Hp2 IH2]; intros ys H.
  - inversion H. by exists [].
  - inversion H as [|? b ? bs Hx Hl]; subst. destruct (IH bs Hl) as (zs & ? & ?).
    exists (b :: zs). split; [by constructor|by constructor].
  - inversion H as [|? b ? bs Hx Hl]; subst. inversion Hl as [|? c ? cs Hy Hl']; subst.
    exists (c :: b :: cs). split; [by repeat constructor|constructor].
  - destruct (IH1 ys H) as (zs & Hz & ?). destruct (IH2 zs Hz) as (ws & ? & ?).
    exists ws. split; [done|]. by etrans.
Qed.

Lemma traverse_reorders l l' parsed :
  Forall2 reorders l l' → traverse parse_operation l = Ok parsed →
  traverse parse_operation l' = Ok parsed.
Proof.
  rewrite !traverse_ok. intros Hl. revert parsed.
  induction Hl as [|x y l l' Hxy Hl IH]; intros parsed H; inversion H; subst; [constructor|].
  constructor; [by eapply parse_operation_reorders|auto].
Qed.

Lemma operations_reorder l k parsed :
  reorders (JArr l) (JArr k) → traverse parse_operation l = Ok parsed →
  ∃ parsed', traverse parse_operation k = Ok parsed' ∧ parsed' ≡ₚ parsed.
Proof.
  inversion 1 as [|? l' ? Hl Hp|]; subst; [by exists parsed|]. intros Hparsed.
  eapply traverse_perm; [done|]. by eapply traverse_reorders.
Qed.

Lemma accepted_perm l k targets : l ≡ₚ k → accepted l targets → accepted k targets.
Proof.
  intros Hp (Hnd & Ht & Hdeps). unfold accepted. rewrite <- Hp. split_and!; [done..|].
  eapply Forall_impl; [exact Hdeps|]. cbn. intros n Hn. eapply Forall_impl; [exact Hn|].
  intros dep (r & Hr & ?). exists r. by rewrite <- Hp.
Qed.

Lemma parse_plan_reorders v w P : reorders v w → parse_plan v = Ok P → parse_plan w = Ok P.
Proof.
  intros H Hv. destruct v as [| | | | |l]; try discriminate Hv.
  destruct w as [| | | | |k]; try (by inversion H). rewrite parse_plan_ok in Hv |- *.
  destruct Hv as (? & ? & ? & Hgen & raws & parsed & Hops & Hne & Hparsed & Hacc & Htopo).
  split_and!; eauto using reorders_same_keys, parse_str_reorders, parse_targets_reorders, reorders_field.
  - pose proof (reorders_field l k "route_withdrawal_generation" H) as Hf.
    revert Hgen. by inversion Hf.
  - pose proof (reorders_field l k "operations" H) as Hf. rewrite Hops in Hf.
    assert (∃ raws', field k "operations" = JArr raws') as [raws' Hraws'] by (inversion Hf; eauto).
    rewrite Hraws' in Hf. destruct (operations_reorder _ _ _ Hf Hparsed) as (parsed' & Hparsed' & Hperm).
    exists raws', parsed'. split_and!; try done.
    + intros ->. cbn in Hparsed'. injection Hparsed' as <-. apply Permutation_nil in Hperm. subst parsed.
      destruct raws; [done|]. apply traverse_ok in Hparsed. inversion Hparsed.
    + by eapply accepted_perm.
    + rewrite (by_ids_perm parsed' parsed); [done| |done].
      rewrite Hperm. apply Hacc.
Qed.

(** ** The canonical document of a plan *)

Definition plan_document (P : Plan) : json :=
  JObj [("base_commit", JStr (plan_base_commit P)); ("targets", JArr (map JStr (plan_targets P)));
        ("route_withdrawal_generation", JInt (plan_generation P));
        ("operations", JArr (map to_document (plan_nodes P)))].

Lemma strings_of_map l : strings_of (map JStr l) = l.
Proof. unfold strings_of. induction l as [|s l IH]; cbn; [done|]. by rewrite IH. Qed.

Lemma strings_of_is_str p l : forallb (is_str p) l = true → forallb (is_str p) (map JStr (strings_of l)) = true.
Proof.
  induction l as [|v l IH]; [done|]. cbn [forallb]. rewrite andb_true_iff. intros [Hv Hl].
  destruct v as [| | |s| |]; try done. change (strings_of (JStr s :: l)) with (s :: strings_of l).
  cbn [map forallb]. by rewrite Hv, IH.
Qed.

Lemma strings_check_sorted p l :
  forallb (is_str p) l = true → forallb (is_str p) (map JStr (py_sorted (strings_of l))) = true.
Proof.
  intros H%strings_of_is_str. rewrite forallb_forall in H |- *. intros v Hv. apply H.
  rewrite in_map_iff in Hv |- *. destruct Hv as (s & Hs & Hin). exists s. split; [done|].
  apply list_elem_of_In. rewrite <- list_elem_of_In in Hin. by rewrite py_sorted_elem_of in Hin.
Qed.

Lemma parse_dependencies_again v l :
  parse_dependencies v = Ok l → parse_dependencies (JArr (map JStr l)) = Ok l.
Proof.
  unfold parse_dependencies, value_check. intros H.
  destruct v as [| | | |items|]; try discriminate H. inv_run_all. subst l.
  rewrite strings_check_sorted by done. rewrite strings_of_map, py_sorted_idemp.
  cbn [ensure mbind result_bind]. match goal with Hd : distinct _ = true |- _ => by rewrite Hd end.
Qed.

Lemma parse_targets_again v l :
  parse_targets v = Ok l → parse_targets (JArr (map JStr l)) = Ok l.
Proof.
  unfold parse_targets, value_check. intros H.
  destruct v as [| | | |items|]; try discriminate H. inv_run_all. subst l.
  rewrite strings_check_sorted by done. rewrite strings_of_map, py_sorted_idemp.
  assert (nonempty (map JStr (py_sorted (strings_of items))) = true) as Hne.
  { destruct items as [|v items]; [done|]. apply nonempty_true. intros E%map_eq_nil.
    assert (∃ s, s ∈ strings_of (v :: items)) as [s Hs].
    { destruct v; cbn [forallb] in *; bool_facts; try discriminate. eexists. by left. }
    apply py_sorted_elem_of in Hs. rewrite E in Hs. by apply elem_of_nil in Hs. }
  rewrite Hne. cbn [ensure mbind result_bind].
  match goal with Hd : distinct _ = true |- _ => by rewrite Hd end.
Qed.

Lemma parse_str_again p m v s : parse_str p m v = Ok s → parse_str p m (JStr s) = Ok s.
Proof. destruct v; try done. cbn. intros H. inv_run_all. subst. by destruct (p s). Qed.

Lemma parse_operation_again raw n :
  parse_operation raw = Ok n → parse_operation (to_document n) = Ok n.
Proof.
  intros H. destruct raw as [| | | | |v]; try discriminate H.
  rewrite parse_operation_ok in H. destruct H as (_ & ? & ? & ? & ? & Hcomp & ? & Hdeps).
  unfold to_document. rewrite parse_operation_ok.
  split_and!; [reflexivity|eapply parse_str_again; eassumption..| |eapply parse_str_again; eassumption|].
  - change (field _ "compensation_kind") with
      (match op_compensation_kind n with Some k => JStr k | None => JNull end).
    destruct (field v "compensation_kind") as [| | |k| |]; try discriminate Hcomp;
      [by injection Hcomp as <-|].
    unfold parse_compensation in *. inv_run_all.
    match goal with E : Some _ = _ |- _ => rewrite <- E end.
    match goal with E : parse_str _ _ _ = Ok _ |- _ => apply parse_str_again in E; by rewrite E end.
  - by eapply parse_dependencies_again.
Qed.

Lemma schedule_of_nodes parsed l : NoDup (op_id <$> parsed) →
  topological (by_ids parsed) = Ok l → l ≡ₚ parsed ∧ respects ∅ l.
Proof.
  intros Hnd H. destruct (topological_cases (by_ids parsed) (by_ids_key _ Hnd))
    as [(l' & E & Hp & Hl)|[E _]]; [|congruence].
  rewrite E in H. injection H as ->. split; [|done]. by rewrite Hp, by_ids_values.
Qed.

Lemma traverse_again raws parsed nodes :
  traverse parse_operation raws = Ok parsed → nodes ≡ₚ parsed →
  traverse parse_operation (map to_document nodes) = Ok nodes.
Proof.
  rewrite !traverse_ok. intros Hraws Hp.
  assert (∀ n, n ∈ nodes → parse_operation (to_document n) = Ok n) as H.
  { intros n Hn. rewrite Hp in Hn. destruct (Forall2_elem_r _ _ _ _ Hraws Hn) as (raw & _ & E).
    by eapply parse_operation_again. }
  clear Hp. induction nodes as [|n nodes IH]; cbn; constructor; [apply H; by left|].
  apply IH. intros k Hk. apply H. by right.
Qed.

Lemma parse_plan_again v P : parse_plan v = Ok P → parse_plan (plan_document P) = Ok P.
Proof.
  intros H. destruct v as [| | | | |l]; try discriminate H. rewrite parse_plan_ok in H.
  destruct H as (_ & Hc & Ht & Hg & raws & parsed & _ & Hne & Hparsed & Hacc & Htopo).
  destruct (schedule_of_nodes parsed (plan_nodes P)) as [Hp _]; [apply Hacc|done|].
  unfold plan_document. rewrite parse_plan_ok. split_and!.
  - reflexivity.
  - by eapply parse_str_again.
  - by eapply parse_targets_again.
  - change (field _ "route_withdrawal_generation") with (JInt (plan_generation P)).
    destruct (field l "route_withdrawal_generation"); try discriminate Hg.
    unfold parse_generation, value_check in *. inv_run_all. subst z. by destruct (0 <=? plan_generation P)%Z.
  - exists (map to_document (plan_nodes P)), (plan_nodes P). split_and!.
    + reflexivity.
    + intros E%map_eq_nil. rewrite E in Hp. apply Permutation_nil in Hp. subst parsed.
      destruct raws; [done|]. apply traverse_ok in Hparsed. inversion Hparsed.
    + by eapply traverse_again.
    + by eapply accepted_perm.
    + rewrite (by_ids_perm (plan_nodes P) parsed); [done| |done]. rewrite Hp. apply Hacc.
Qed.

Lemma accepted_nodes v P : parse_plan v = Ok P →
  accepted (plan_nodes P) (plan_targets P) ∧ respects ∅ (plan_nodes P).
Proof.
  intros H. destruct v as [| | | | |l]; try discriminate H. rewrite parse_plan_ok in H.
  destruct H as (_ & _ & _ & _ & raws & parsed & _ & _ & _ & Hacc & Htopo).
  destruct (schedule_of_nodes parsed (plan_nodes P)) as [Hp Hl]; [apply Hacc|done|].
  split; [by eapply accepted_perm|done].
Qed.

(** The nodes a plan lists before a node contain its dependencies. *)
Lemma dependency_before v P i n dep :
  parse_plan v = Ok P → plan_nodes P !! i = Some n → dep ∈ op_dependencies n →
  ∃ j m, (j < i)%nat ∧ plan_nodes P !! j = Some m ∧ op_id m = dep
         ∧ (op_workload_id m = op_workload_id n ∨ cross_workload_gate n m = true).
Proof.
  intros H Hi Hdep. destruct (accepted_nodes _ _ H) as [(Hnd & _ & Hdeps) Hl].
  destruct (respects_before _ _ _ _ _ Hl Hi Hdep) as (j & m & Hj & Hm & Hid); [set_solver|].
  exists j, m. split_and!; try done.
  rewrite Forall_forall in Hdeps. specialize (Hdeps n (list_elem_of_lookup_2 _ _ _ Hi)).
  rewrite Forall_forall in Hdeps. destruct (Hdeps dep Hdep) as (r & Hr & Hrid & ?).
  assert (r = m) as <-; [|done]. apply list_elem_of_lookup in Hr as [k Hk].
  assert (k = j) as ->; [|congruence].
  apply (NoDup_lookup _ _ _ dep Hnd); rewrite list_lookup_fmap;
    [rewrite Hk|rewrite Hm]; cbn; congruence.
Qed.

Lemma dependency_position v P i j n m :
  parse_plan v = Ok P → plan_nodes P !! i = Some n → plan_nodes P !! j = Some m →
  op_id m ∈ op_dependencies n → (j < i)%nat.
Proof.
  intros H Hi Hj Hdep. destruct (dependency_before _ _ _ _ _ H Hi Hdep) as (k & m' & Hk & Hm' & Hid & _).
  destruct (accepted_nodes _ _ H) as [(Hnd & _) _].
  assert (k = j) as <-; [|done].
  apply (NoDup_lookup _ _ _ (op_id m) Hnd); rewrite list_lookup_fmap; [rewrite Hm'|rewrite Hj]; cbn; congruence.
Qed.

(** ** Theorems *)

(** C35. On a map keyed by operation id the order returned is a schedule: each
    operation once, after all its dependencies. When no schedule exists, because
    operations wait for each other or for an unknown operation, the graph is
    refused with the cycle error, and in no other case. *)
Theorem topological_orders_or_refuses by_id :
  (∀ id n, by_id !! id = Some n → op_id n = id) →
  (∃ l, topological by_id = Ok l ∧ schedule by_id l)
  ∨ (topological by_id = Err cycle_error ∧ ∀ l, ¬ schedule by_id l).
Proof. apply topological_cases. Qed.

(** An accepted plan is executable from left to right: its operation ids are
    distinct, each operation runs on a target of the plan, and every dependency of
    the operation at a position is an operation at an earlier position, of the same
    workload unless a node gate waits for a stop or an installation for a gate. *)
Theorem accepted_plan_is_executable document P :
  parse_plan document = Ok P →
  NoDup (op_id <$> plan_nodes P)
  ∧ Forall (λ n, op_node_id n ∈ plan_targets P) (plan_nodes P)
  ∧ ∀ i n dep, plan_nodes P !! i = Some n → dep ∈ op_dependencies n →
      ∃ j m, (j < i)%nat ∧ plan_nodes P !! j = Some m ∧ op_id m = dep
             ∧ (op_workload_id m = op_workload_id n ∨ cross_workload_gate n m = true).
Proof.
  intros H. destruct (accepted_nodes _ _ H) as [(Hnd & Ht & _) _].
  split_and!; [done|done|]. intros i n dep. by eapply dependency_before.
Qed.

(** The order in which a plan is written does not matter: a document that
    differs in the order of its targets, operations, dependencies or object items
    is accepted with the same result, hence the same graph document and digest. *)
Theorem plan_ignores_input_order document document' P :
  reorders document document' → parse_plan document = Ok P →
  parse_plan document' = Ok P.
Proof. apply parse_plan_reorders. Qed.

(** The canonical document of an accepted plan is accepted again and gives
    the same plan, so the persisted graph is a fixed point of the parser. *)
Theorem plan_round_trip document P :
  parse_plan document = Ok P → parse_plan (plan_document P) = Ok P.
Proof. apply parse_plan_again. Qed.

(** A stop, the gate that waits for it and the installation behind the gate. *)
Definition sample_target : string := "spk_00112233445566778899aabbccddeeff".
Definition sample_digest : string := "e3b0c44298fc1c149afbf4c8996fb92427ae41e4649b934ca495991b7852b855".
Definition sample_stop : OperationNode :=
  Node "chat.stop" sample_target "chat" WORKLOAD_STOP [] None sample_digest.
Definition sample_gate : OperationNode :=
  Node "gate" sample_target "node-gate" NODE_PROBE ["chat.stop"] None sample_digest.
Definition sample_install : OperationNode :=
  Node "a.install" sample_target "vision" RELEASE_INSTALL ["gate"] (Some "package.rollback") sample_digest.

Definition sample_plan_of (operations : list OperationNode) : json :=
  JObj [("base_commit", JStr "0123456789abcdef0123456789abcdef01234567");
        ("targets", JArr [JStr sample_target]);
        ("route_withdrawal_generation", JInt 7); ("operations", JArr (map to_document operations))].

Definition sample_plan : Plan :=
  ParsedPlan "0123456789abcdef0123456789abcdef01234567" [sample_target] 7
    [sample_stop; sample_gate; sample_install].

Lemma topological_orders_or_refuses_witness :
  schedule (by_ids [sample_install; sample_gate; sample_stop]) [sample_stop; sample_gate; sample_install].
Proof.
  destruct (topological_orders_or_refuses (by_ids [sample_install; sample_gate; sample_stop]))
    as [(l & E & Hl)|[E _]].
  - intros id n. apply by_ids_key. apply (bool_decide_eq_true_1 _). vm_compute. reflexivity.
  - vm_compute in E. injection E as <-. exact Hl.
  - vm_compute in E. discriminate E.
Defined.

Lemma accepted_plan_is_executable_witness :
  ∃ j m, (j < 2)%nat ∧ plan_nodes sample_plan !! j = Some m ∧ op_id m = "gate"
    ∧ (op_workload_id m = "vision" ∨ cross_workload_gate sample_install m = true).
Proof.
  apply (accepted_plan_is_executable (sample_plan_of [sample_install; sample_gate; sample_stop]) sample_plan
    ltac:(vm_compute; reflexivity)) with (i := 2) (n := sample_install); [reflexivity|by left].
Defined.

Lemma plan_ignores_input_order_witness :
  parse_plan (sample_plan_of [sample_stop; sample_install; sample_gate]) = Ok sample_plan.
Proof.
  apply (plan_ignores_input_order (sample_plan_of [sample_install; sample_stop; sample_gate]));
    [|vm_compute; reflexivity].
  eapply reorders_object; [| |reflexivity].
  - apply (bool_decide_eq_true_1 _). vm_compute. reflexivity.
  - do 3 (apply Forall2_cons; split; [split; [reflexivity|apply reorders_refl]|]).
    apply Forall2_cons. split; [split; [reflexivity|]|apply Forall2_nil_2].
    eapply reorders_array; [|apply Permutation_swap].
    do 3 (apply Forall2_cons; split; [apply reorders_refl|]). apply Forall2_nil_2.
Defined.

Lemma plan_round_trip_witness : parse_plan (plan_document sample_plan) = Ok sample_plan.
Proof.
  apply (plan_round_trip (sample_plan_of [sample_install; sample_stop; sample_gate])).
  vm_compute. reflexivity.
Defined.
