(* ===== verification/Orchestration.v ===== *)
(** * Persisted reconciliations
    ([control/src/vonk_control/orchestration.py], the persistence half)

    The [reconciliations] table and the completion counter, the operations of
    [ReconciliationOrchestrator] on them, and [validate_persisted_resolved_plan],
    which authenticates a stored plan before it is executed.

    A row is found by its id and, through the unique index, by its plan digest.
    The ids [uuid.uuid4()] returns are arguments. The tables hold documents as
    JSON: reading a column back gives the value written, up to the order of the
    items of its objects. The widths of the [Integer] columns are the database's
    and are not modelled. *)

From S2P Require Import Prelude Identifiers Canonical Contracts PackageEngine Protocol OperationGraph.

Record OperationGraph := Graph {
  graph_reconciliation_id : string; graph_base_commit : string; graph_targets : list string;
  graph_nodes : list OperationNode; graph_digest : string
}.

Definition graph_json (g : OperationGraph) : json :=
  graph_document (graph_base_commit g) (graph_targets g) (graph_nodes g).

Definition graph_dependencies (g : OperationGraph) (id : string) : result (list string) :=
  match head (filter (λ n, op_id n = id) (graph_nodes g)) with
  | Some n => mret (op_dependencies n)
  | None => raise EKey id
  end.

Record Reconciliation := Row {
  rec_base_commit : string; rec_status : string; rec_summary : json; rec_graph : json;
  rec_graph_digest : string; rec_plan_digest : option string; rec_resolved_plan : option json;
  rec_current_phase : string; rec_route_withdrawal_generation : Z;
  rec_terminal_reason : option string; rec_completion_generation : option Z; rec_created_at : Z
}.

Record tables := Tables {
  reconciliations : gmap string Reconciliation;
  completion_counter : option Z
}.

Definition put_row (id : string) (r : Reconciliation) (s : tables) : tables :=
  Tables (<[id := r]> (reconciliations s)) (completion_counter s).

(** The row a plan digest identifies; the index is unique. *)
Definition row_by_plan (s : tables) (plan_digest : string) : option (string * Reconciliation) :=
  head (filter (λ p : string * Reconciliation, rec_plan_digest p.2 = Some plan_digest)
          (map_to_list (reconciliations s))).

(** ** Planning *)

Definition summary_of (P : Plan) : json :=
  JObj [("operation_count", JInt (Z.of_nat (length (plan_nodes P))));
        ("target_count", JInt (Z.of_nat (length (plan_targets P))))].

Definition planned_row (P : Plan) (plan_digest : option string) (resolved : option json) (now : Z)
    : Reconciliation :=
  let document := graph_document (plan_base_commit P) (plan_targets P) (plan_nodes P) in
  Row (plan_base_commit P) "planned" (summary_of P) document (utf8_digest document) plan_digest resolved
    "planned" (plan_generation P) None None now.

Definition graph_of (id : string) (P : Plan) : OperationGraph :=
  Graph id (plan_base_commit P) (plan_targets P) (plan_nodes P)
    (utf8_digest (graph_document (plan_base_commit P) (plan_targets P) (plan_nodes P))).

(** [INSERT]: the primary key and the unique plan digest. *)
Definition insert_row (id : string) (r : Reconciliation) : M tables unit :=
  s ← get;
  lift (ensure (is_None_b (reconciliations s !! id)
                && match rec_plan_digest r with
                   | Some d => is_None_b (row_by_plan s d)
                   | None => true
                   end) EIntegrity "UNIQUE constraint failed");;
  modify (put_row id r).

Definition plan (id : string) (now : Z) (document : json) : M tables OperationGraph :=
  P ← lift (parse_plan document);
  transaction (insert_row id (planned_row P None None now));;
  mret (graph_of id P).

(** ** Phases *)

Definition next_phase (phase : string) : option string :=
  if eqb phase "planned" then Some "routes-withdrawn"
  else if eqb phase "routes-withdrawn" then Some "dispatching"
  else if eqb phase "dispatching" then Some "accepting"
  else if eqb phase "accepting" then Some "completed"
  else None.

Definition terminal_statuses : list string := ["succeeded"; "failed"; "cancelled"].

Definition stored (id : string) : M tables Reconciliation :=
  s ← get;
  match reconciliations s !! id with
  | Some r => mret r
  | None => throw EKey "unknown reconciliation"
  end.

Definition max_generation : Z := 2 ^ 63 - 1.

(** The counter row is created with 0 when it is missing. *)
Definition next_completion_generation : M tables Z :=
  s ← get;
  let last := default 0%Z (completion_counter s) in
  lift (ensure ((0 <=? last)%Z && (last <? max_generation)%Z) ERuntime
          "reconciliation completion generation is unavailable");;
  modify (λ s, Tables (reconciliations s) (Some (last + 1)%Z));;
  mret (last + 1)%Z.

Definition with_phase (r : Reconciliation) (phase status : string) (generation : Z)
    (completion : option Z) : Reconciliation :=
  Row (rec_base_commit r) status (rec_summary r) (rec_graph r) (rec_graph_digest r)
    (rec_plan_digest r) (rec_resolved_plan r) phase generation (rec_terminal_reason r) completion
    (rec_created_at r).

(** The unique index on the completion generation. *)
Definition completion_taken (s : tables) (id : string) (generation : Z) : bool :=
  existsb (λ p : string * Reconciliation,
      negb (eqb p.1 id) && eqb (rec_completion_generation p.2) (Some generation))
    (map_to_list (reconciliations s)).

(** The guard on an optional new route generation. *)
Definition route_generation (r : Reconciliation) (phase : string) (generation : option Z) : result Z :=
  match generation with
  | None => mret (rec_route_withdrawal_generation r)
  | Some g =>
      value_check (eqb phase "routes-withdrawn") "route generation is invalid for this transition";;
      value_check (0 <=? g)%Z "route withdrawal generation is invalid";;
      value_check (rec_route_withdrawal_generation r <=? g)%Z "route generation must not decrease";;
      mret g
  end.

Definition advance (id phase : string) (generation : option Z) : M tables unit :=
  transaction (
    r ← stored id;
    lift (value_check (negb (among (rec_status r) terminal_statuses)) "reconciliation is terminal");;
    lift (value_check (eqb (next_phase (rec_current_phase r)) (Some phase))
            "reconciliation phase transition is invalid");;
    g ← lift (route_generation r phase generation);
    if eqb phase "completed" then
      completion ← next_completion_generation;
      s ← get;
      lift (ensure (negb (completion_taken s id completion)) EIntegrity "UNIQUE constraint failed");;
      modify (put_row id (with_phase r phase "succeeded" g (Some completion)))
    else modify (put_row id (with_phase r phase "running" g (rec_completion_generation r)))).

(** [cancel]. *)
Definition cancel (id reason : string) : M tables unit :=
  throw ERuntime "direct cancellation is disabled; use durable cancellation intent".

(** ** Resolved plans *)

Definition max_plan_bytes : Z := 1048576.

Definition resolved_document (plan_digest : string) (document : json) : result json :=
  value_check (is_digest plan_digest) "resolved plan digest is invalid";;
  let encoded := canonical document in
  value_check (Z.of_nat (String.length encoded) <=? max_plan_bytes)%Z
    "resolved reconciliation plan is too large";;
  value_check (eqb (Sha256.hexdigest encoded) plan_digest)
    "resolved plan content does not match its digest";;
  mret (sort_json document).

Definition with_plan (r : Reconciliation) (plan_digest : string) (document : json) : Reconciliation :=
  Row (rec_base_commit r) (rec_status r) (rec_summary r) (rec_graph r) (rec_graph_digest r)
    (Some plan_digest) (Some document) (rec_current_phase r) (rec_route_withdrawal_generation r)
    (rec_terminal_reason r) (rec_completion_generation r) (rec_created_at r).

Definition opt_py_eqb (stored : option json) (v : json) : bool :=
  match stored with Some w => py_eqb w v | None => false end.

Definition store_resolved_plan (g : OperationGraph) (plan_digest : string) (document : json)
    : M tables unit :=
  stored_document ← lift (resolved_document plan_digest document);
  transaction (
    let id := graph_reconciliation_id g in
    r ← stored id;
    lift (value_check (eqb (rec_graph_digest r) (graph_digest g) && py_eqb (rec_graph r) (graph_json g))
            "resolved plan graph does not match persisted graph");;
    match rec_plan_digest r with
    | Some d =>
        lift (value_check (eqb d plan_digest && opt_py_eqb (rec_resolved_plan r) stored_document)
                "reconciliation already has a different plan")
    | None =>
        s ← get;
        lift (ensure (is_None_b (row_by_plan s plan_digest)) EIntegrity "UNIQUE constraint failed");;
        modify (put_row id (with_plan r plan_digest stored_document))
    end).

(** [document.get("operation_graph")] of the decoded document, an object. *)
Definition get_item (v : json) (key : string) : result json :=
  match v with
  | JObj items => mret (field items key)
  | _ => raise EExternal "object has no attribute 'get'"
  end.

Definition same_content (r : Reconciliation) (P : Plan) (document : json) : bool :=
  let expected := graph_document (plan_base_commit P) (plan_targets P) (plan_nodes P) in
  eqb (rec_base_commit r) (plan_base_commit P) && py_eqb (rec_graph r) expected
  && eqb (rec_graph_digest r) (utf8_digest expected)
  && (rec_route_withdrawal_generation r =? plan_generation P)%Z
  && opt_py_eqb (rec_resolved_plan r) document.

(** The insert in a savepoint; on a conflict the row that holds the digest. *)
Definition get_or_create_resolved_plan (id : string) (now : Z) (graph_plan : json)
    (plan_digest : string) (document : json) : M tables OperationGraph :=
  P ← lift (parse_plan graph_plan);
  let expected := graph_document (plan_base_commit P) (plan_targets P) (plan_nodes P) in
  stored_document ← lift (resolved_document plan_digest document);
  operation_graph ← lift (get_item stored_document "operation_graph");
  lift (value_check (py_eqb operation_graph expected)
          "resolved plan graph does not match operation graph");;
  let candidate := planned_row P (Some plan_digest) (Some stored_document) now in
  transaction (
    '(accepted_id, accepted) ← try_catch
      (transaction (insert_row id candidate);; mret (id, candidate))
      (λ e, s ← get;
            match row_by_plan s plan_digest with
            | Some row => mret row
            | None => rethrow e
            end);
    lift (value_check (same_content accepted P stored_document)
            "plan digest identifies different persisted content");;
    mret (Graph accepted_id (rec_base_commit accepted) (plan_targets P) (plan_nodes P)
            (rec_graph_digest accepted))).

(** ** Authentication of a persisted plan *)

(** [except (TypeError, ValueError) as error: raise ValueError(m) from error]. *)
Definition as_value_error {A} (r : result A) (m : string) : result A :=
  match r with
  | Err (Exn EValue _) | Err (Exn EType _) => raise EValue m
  | _ => r
  end.

Definition resolved_fields : list string :=
  ["commit"; "targets"; "placements"; "routes"; "releases"; "workload_groups"; "input_digests";
   "fleet_evidence_digest"; "operation_graph"; "operation_payloads"; "agent_protocol_range"].

Definition mapping_fields : list string :=
  ["placements"; "routes"; "releases"; "workload_groups"; "input_digests"; "operation_payloads"].

(** The release-bound package operation a kind names. *)
Definition package_operation (kind : string) : option AgentOperation :=
  head (filter (λ o, operation_value o = kind)
    [PACKAGE_PREPARE; PACKAGE_ACTIVATE; PACKAGE_HEALTH; PACKAGE_STOP; PACKAGE_ROLLBACK;
     PACKAGE_REMOVE; PACKAGE_REPAIR]).

Notation family := (gmap string OperationNode).
Notation families := (list ((string * string) * family)).

(** [by_target.setdefault(key, {})] and [family[node.kind] = node]; a second
    operation of a kind is refused. *)
Fixpoint add_operation (key : string * string) (n : OperationNode) (l : families) : result families :=
  match l with
  | [] => mret [(key, {[op_kind n := n]})]
  | (key', operations) :: l =>
      if eqb key' key then
        value_check (is_None_b (operations !! op_kind n))
          "duplicate package operation for deployment and node";;
        mret ((key', <[op_kind n := n]> operations) :: l)
      else
        rest ← add_operation key n l;
        mret ((key', operations) :: rest)
  end.

Definition group_node (payloads : list (string * json)) (by_target : families) (n : OperationNode)
    : result families :=
  match package_operation (op_kind n) with
  | None => mret by_target
  | Some o =>
      match lookup_key payloads (op_id n) with
      | Some (JObj _ as payload) =>
          request ← match parse_package_request o payload with
                    | Ok r => mret r
                    | Err _ => raise EValue "persisted package operation payload is invalid"
                    end;
          value_check (eqb (req_deployment_id request) (Some (op_workload_id n)))
            "package operation deployment identity is inconsistent";;
          add_operation (op_workload_id n, op_node_id n) n by_target
      | _ => raise EType "persisted package operation payload is invalid"
      end
  end.

Fixpoint group_nodes (payloads : list (string * json)) (by_target : families)
    (nodes : list OperationNode) : result families :=
  match nodes with
  | [] => mret by_target
  | n :: nodes => by_target ← group_node payloads by_target n; group_nodes payloads by_target nodes
  end.

Definition lifecycle_incomplete : result unit := raise EValue "package graph lifecycle is incomplete".

Definition check_lifecycle (nodes : list OperationNode) (entry : (string * string) * family)
    : result unit :=
  let '((deployment, _), operations) := entry in
  let prepares := operations !! "package.prepare" in
  let activates := operations !! "package.activate" in
  match prepares, activates, operations !! "package.health" with
  | None, None, Some health =>
      value_check (negb (nonempty (op_dependencies health)))
        "retained package health must not have dependencies"
  | Some prepares, Some activates, Some health =>
      value_check (eqb (op_node_id prepares) (op_node_id activates)
                   && eqb (op_node_id activates) (op_node_id health))
        "package graph lifecycle target is inconsistent";;
      let stop := match operations !! "package.stop" with Some stop => [op_id stop] | None => [] end in
      value_check (eqb (op_dependencies activates) (py_sorted (op_id prepares :: stop)))
        "package activation must depend on preparation and stop";;
      value_check (eqb (op_dependencies health) [op_id activates])
        "package health must depend on activation";;
      value_check (among (op_compensation_kind activates) [Some "package.rollback"; None])
        "package activation compensation is invalid";;
      value_check (negb (eqb (op_compensation_kind activates) (Some "package.rollback")
        && existsb (λ n, eqb (op_kind n) "package.rollback" && eqb (op_workload_id n) deployment) nodes))
        "package rollback must be compensation-only"
  | _, _, _ => lifecycle_incomplete
  end.

Definition validate_package_plan (nodes : list OperationNode) (payloads : list (string * json))
    : result unit :=
  by_target ← group_nodes payloads [] nodes;
  value_check (nonempty by_target) "package graph has no package operations";;
  each (check_lifecycle nodes) by_target.

(** The operations of a graph that gate the installations of its nodes. *)
Definition is_gate (n : OperationNode) : bool :=
  eqb (op_kind n) NODE_PROBE || eqb (op_workload_id n) "node-gate".

Definition gate_payload : json := JObj [("require_active_nvidia_compute_processes", JInt 0)].

Definition validate_gates (nodes : list OperationNode) (payloads : list (string * json)) : result unit :=
  let stop_nodes := filter (λ n, op_kind n = WORKLOAD_STOP) nodes in
  let install_nodes := filter (λ n, op_kind n = RELEASE_INSTALL) nodes in
  let gate_nodes := filter (λ n, is_gate n = true) nodes in
  value_check (forallb (λ n, eqb (op_kind n) NODE_PROBE && eqb (op_workload_id n) "node-gate") gate_nodes)
    "persisted resolved plan node gate identity is invalid";;
  let required : gset string := list_to_set (op_node_id <$> (stop_nodes ++ install_nodes)) in
  let actual : gset string := list_to_set (op_node_id <$> gate_nodes) in
  value_check ((length gate_nodes =? size actual)%nat && eqb actual required)
    "persisted resolved plan node gate targets are invalid";;
  let stop_ids := py_sorted (op_id <$> stop_nodes) in
  let gate_ids := py_sorted (op_id <$> gate_nodes) in
  value_check (forallb (λ gate, py_eqb (field payloads (op_id gate)) gate_payload
                                && eqb (op_dependencies gate) stop_ids) gate_nodes)
    "persisted resolved plan node gate barrier is invalid";;
  value_check (forallb (λ n, eqb (op_dependencies n) gate_ids) install_nodes)
    "persisted resolved plan install gate barrier is invalid".

Definition check_mapping (items : list (string * json)) (name : string) : result unit :=
  ensure (is_object (λ _, true) (field items name)) EType
    ("persisted resolved plan " +:+ name +:+ " is invalid").

Definition items_of (v : json) : list (string * json) :=
  match v with JObj items => items | _ => [] end.

Definition is_protocol_range (v : json) : bool :=
  match v with
  | JArr [JInt lo; JInt hi] => (1 <=? lo)%Z && (lo <=? hi)%Z
  | _ => false
  end.

Definition validate_persisted_resolved_plan (reconciliation_id base_commit : string) (graph : json)
    (digest : string) (plan_digest : string) (resolved : json) (generation : Z)
    : result (OperationGraph * json) :=
  value_check (negb (eqb reconciliation_id ""))
    "persisted resolved plan reconciliation identity is invalid";;
  ensure (is_object (λ _, true) resolved) EType "persisted resolved plan document is invalid";;
  document ← as_value_error (resolved_document plan_digest resolved)
               "persisted resolved plan digest is invalid";
  let items := items_of document in
  value_check (same_keys items resolved_fields) "persisted resolved plan fields are invalid";;
  value_check (is_commit base_commit && py_eqb (field items "commit") (JStr base_commit))
    "persisted resolved plan base commit is invalid";;
  each (check_mapping items) mapping_fields;;
  value_check (forallb (λ p, is_str is_digest p.2) (items_of (field items "input_digests")))
    "persisted resolved plan input digest is invalid";;
  value_check (is_str is_digest (field items "fleet_evidence_digest"))
    "persisted resolved plan fleet evidence digest is invalid";;
  value_check (is_protocol_range (field items "agent_protocol_range"))
    "persisted resolved plan protocol range is invalid";;
  ensure (is_object (λ _, true) graph) EType "persisted resolved plan graph is invalid";;
  P ← as_value_error
        (parse_plan (JObj [("base_commit", field (items_of graph) "base_commit");
                           ("targets", field (items_of graph) "targets");
                           ("route_withdrawal_generation", JInt generation);
                           ("operations", field (items_of graph) "nodes")]))
        "persisted resolved plan graph is invalid";
  let nodes := plan_nodes P in
  let expected := graph_document (plan_base_commit P) (plan_targets P) nodes in
  value_check (py_eqb expected graph && eqb (plan_base_commit P) base_commit
               && py_eqb (field items "operation_graph") expected
               && py_eqb (field items "targets") (JArr (map JStr (plan_targets P)))
               && is_digest digest && eqb (utf8_digest expected) digest)
    "persisted resolved plan graph consistency is invalid";;
  let payloads := items_of (field items "operation_payloads") in
  value_check (same_keys payloads (op_id <$> nodes))
    "persisted resolved plan operation payload set is invalid";;
  value_check (forallb (λ n, is_object (λ _, true) (field payloads (op_id n))
                             && eqb (utf8_digest (field payloads (op_id n))) (op_payload_digest n)) nodes)
    "persisted resolved plan operation payload digest is invalid";;
  (if existsb (λ n, String.prefix "package." (op_kind n)) nodes
   then validate_package_plan nodes payloads
   else validate_gates nodes payloads);;
  mret (Graph reconciliation_id base_commit (plan_targets P) nodes digest, document).

Definition resolved_plan (plan_digest : string) : M tables (option (OperationGraph * json)) :=
  if negb (is_digest plan_digest) then mret None else
  s ← get;
  match row_by_plan s plan_digest with
  | Some (id, r) =>
      match rec_resolved_plan r with
      | None => mret None
      | Some resolved =>
          found ← lift (validate_persisted_resolved_plan id (rec_base_commit r) (rec_graph r)
                          (rec_graph_digest r) plan_digest resolved (rec_route_withdrawal_generation r));
          mret (Some found)
      end
  | None => mret None
  end.
