(* ===== verification/OrchestrationFacts.v ===== *)
(** * What persisted reconciliations promise

    Theorems about [Orchestration]: rows only move forward, completion generations
    order the completions, a plan digest identifies one immutable plan, and an
    authenticated plan keeps the barriers between stops, node gates, installations
    and the steps of a package rollout. *)

From S2P Require Import Prelude Identifiers Canonical Contracts PackageEngine Protocol OperationGraph Orchestration.

(** ** Sequences of calls *)

Inductive call :=
| CPlan (id : string) (now : Z) (document : json)
| CAdvance (id phase : string) (generation : option Z)
| CStore (g : OperationGraph) (plan_digest : string) (document : json)
| CGetOrCreate (id : string) (now : Z) (graph_plan : json) (plan_digest : string) (document : json)
| CResolved (plan_digest : string)
| CCancel (id reason : string).

Definition run (c : call) : M tables unit :=
  match c with
  | CPlan id now document => plan id now document;; mret ()
  | CAdvance id phase generation => advance id phase generation
  | CStore g d document => store_resolved_plan g d document
  | CGetOrCreate id now p d document => get_or_create_resolved_plan id now p d document;; mret ()
  | CResolved d => resolved_plan d;; mret ()
  | CCancel id reason => cancel id reason
  end.

(** The tables after a sequence of calls, whether they return or raise. *)
Definition after (calls : list call) (s : tables) : tables :=
  foldl (λ s c, (run c s).2) s calls.

(** ** Rows only move forward *)

Definition terminal (r : Reconciliation) : Prop := rec_status r ∈ terminal_statuses.

Definition row_step (r r' : Reconciliation) : Prop :=
  rec_base_commit r' = rec_base_commit r ∧ rec_summary r' = rec_summary r
  ∧ rec_graph r' = rec_graph r ∧ rec_graph_digest r' = rec_graph_digest r
  ∧ rec_created_at r' = rec_created_at r ∧ rec_terminal_reason r' = rec_terminal_reason r
  ∧ (∀ d, rec_plan_digest r = Some d →
       rec_plan_digest r' = Some d ∧ rec_resolved_plan r' = rec_resolved_plan r)
  ∧ rtc (λ p q, next_phase p = Some q) (rec_current_phase r) (rec_current_phase r')
  ∧ (rec_route_withdrawal_generation r ≤ rec_route_withdrawal_generation r')%Z
  ∧ (terminal r → rec_status r' = rec_status r ∧ rec_current_phase r' = rec_current_phase r
       ∧ rec_route_withdrawal_generation r' = rec_route_withdrawal_generation r
       ∧ rec_completion_generation r' = rec_completion_generation r).

#[export] Instance row_step_preorder : PreOrder row_step.
Proof.
  split.
  - intros r. unfold row_step. split_and!; try done; lia.
  - unfold row_step, terminal.
    intros r1 r2 r3 (?&?&?&?&?&?&Hd1&?&?&Ht1) (?&?&?&?&?&?&Hd2&?&?&Ht2).
    split_and!; try congruence; try lia; try (by etrans).
    + intros d Hd. destruct (Hd1 d Hd) as [E1 E2]. destruct (Hd2 d E1). split; congruence.
    + intros Ht. destruct (Ht1 Ht) as (E & ? & ? & ?). rewrite <- E in Ht.
      destruct (Ht2 Ht) as (? & ? & ? & ?). split_and!; congruence.
Qed.

Definition last_generation (s : tables) : Z := default 0%Z (completion_counter s).

Definition forward (s s' : tables) : Prop :=
  (∀ id r, reconciliations s !! id = Some r →
     ∃ r', reconciliations s' !! id = Some r' ∧ row_step r r')
  ∧ (last_generation s ≤ last_generation s')%Z.

#[export] Instance forward_preorder : PreOrder forward.
Proof.
  split.
  - intros s. split; [|lia]. intros id r Hr. exists r. split; [done|reflexivity].
  - intros s1 s2 s3 [H1 ?] [H2 ?]. split; [|lia]. intros id r Hr.
    destruct (H1 id r Hr) as (r2 & Hr2 & ?). destruct (H2 id r2 Hr2) as (r3 & ? & ?).
    exists r3. split; [done|by etrans].
Qed.

Lemma forward_put s id r' :
  (∀ r, reconciliations s !! id = Some r → row_step r r') → forward s (put_row id r' s).
Proof.
  intros H. split; [|unfold last_generation; cbn; lia]. cbn. intros i r Hr.
  destruct (decide (i = id)) as [->|Hne].
  - exists r'. rewrite lookup_insert_eq. auto.
  - exists r. rewrite lookup_insert_ne by done. split; [done|reflexivity].
Qed.

(** ** The effect of each operation *)

Lemma insert_row_ok id r s u s' :
  insert_row id r s = (Ok u, s') →
  reconciliations s !! id = None
  ∧ (∀ d, rec_plan_digest r = Some d → row_by_plan s d = None) ∧ s' = put_row id r s.
Proof.
  unfold insert_row. intros H. inv_run_all. bool_facts. subst.
  split_and!; [done| |done]. intros d Hd. rewrite Hd in *. by bool_facts.
Qed.

Lemma stored_ok id s r s' : stored id s = (Ok r, s') → s' = s ∧ reconciliations s !! id = Some r.
Proof. unfold stored. intros H. inv_run_all. case_match; inv_run_all; by subst. Qed.

Lemma plan_ok id now document s g s' :
  plan id now document s = (Ok g, s') →
  ∃ P, parse_plan document = Ok P ∧ g = graph_of id P ∧ reconciliations s !! id = None
       ∧ s' = put_row id (planned_row P None None now) s.
Proof.
  unfold plan. intros H. inv_run_all.
  match goal with E : insert_row _ _ _ = _ |- _ => apply insert_row_ok in E; destruct E as (? & _ & ->) end.
  eexists. split_and!; [done|done|done|done].
Qed.

Definition completed_tables (id : string) (r : Reconciliation) (phase : string) (g : Z) (s : tables)
    : tables :=
  Tables (<[id := with_phase r phase "succeeded" g (Some (last_generation s + 1)%Z)]> (reconciliations s))
    (Some (last_generation s + 1)%Z).

Lemma completed_generation id r phase g s :
  last_generation (completed_tables id r phase g s) = (last_generation s + 1)%Z.
Proof. reflexivity. Qed.

Lemma advance_ok id phase generation s u s' :
  advance id phase generation s = (Ok u, s') →
  ∃ r g, reconciliations s !! id = Some r ∧ ¬ terminal r ∧ next_phase (rec_current_phase r) = Some phase
    ∧ route_generation r phase generation = Ok g
    ∧ ((phase = "completed" ∧ (0 ≤ last_generation s < max_generation)%Z
        ∧ s' = completed_tables id r phase g s)
       ∨ (phase ≠ "completed"
          ∧ s' = put_row id (with_phase r phase "running" g (rec_completion_generation r)) s)).
Proof.
  unfold advance, value_check, terminal. intros H. inv_run_all.
  match goal with E : stored _ _ = _ |- _ => apply stored_ok in E; destruct E as [-> ?] end.
  bool_facts. match goal with r : Reconciliation, g : Z |- _ => exists r, g end.
  split_and!; try done.
  - match goal with E : among _ _ = false |- _ => by apply bool_decide_eq_false in E end.
  - destruct (eqb phase "completed") eqn:Hc; bool_facts; [left|right].
    + unfold next_completion_generation in H. inv_run_all. bool_facts. subst.
      split_and!; [done|done|done|done].
    + inv_run_all. done.
Qed.

Lemma store_ok g d document s u s' :
  store_resolved_plan g d document s = (Ok u, s') →
  ∃ doc r, resolved_document d document = Ok doc
    ∧ reconciliations s !! graph_reconciliation_id g = Some r
    ∧ ((rec_plan_digest r = Some d ∧ s' = s)
       ∨ (rec_plan_digest r = None ∧ row_by_plan s d = None
          ∧ s' = put_row (graph_reconciliation_id g) (with_plan r d doc) s)).
Proof.
  unfold store_resolved_plan, value_check. intros H. inv_run_all.
  match goal with E : stored _ _ = _ |- _ => apply stored_ok in E; destruct E as [-> ?] end.
  do 2 eexists. split_and!; [done|done|].
  case_match; inv_run_all; bool_facts; subst; auto.
Qed.

(** The resolved document carries the graph of the plan. *)
Definition embeds_graph (doc : json) (P : Plan) : Prop :=
  ∃ operation_graph, get_item doc "operation_graph" = Ok operation_graph
    ∧ py_eqb operation_graph
        (graph_document (plan_base_commit P) (plan_targets P) (plan_nodes P)) = true.

Lemma get_or_create_ok id now graph_plan d document s g s' :
  get_or_create_resolved_plan id now graph_plan d document s = (Ok g, s') →
  ∃ P doc aid r, parse_plan graph_plan = Ok P ∧ resolved_document d document = Ok doc
    ∧ embeds_graph doc P ∧ same_content r P doc = true
    ∧ g = Graph aid (rec_base_commit r) (plan_targets P) (plan_nodes P) (rec_graph_digest r)
    ∧ ((s' = put_row id r s ∧ aid = id ∧ r = planned_row P (Some d) (Some doc) now
        ∧ reconciliations s !! id = None ∧ row_by_plan s d = None)
       ∨ (s' = s ∧ row_by_plan s d = Some (aid, r))).
Proof.
  unfold get_or_create_resolved_plan, value_check. intros H. inv_run_all.
  match goal with x : string * Reconciliation |- _ => destruct x as [aid r] end. inv_run_all.
  match goal with E : try_catch _ _ _ = _ |- _ => rename E into Htry end.
  apply try_catch_ok in Htry. destruct Htry as [Htry|(e & s1 & Htry & Hhandler)]; inv_run_all.
  - match goal with E : insert_row _ _ _ = _ |- _ => apply insert_row_ok in E; destruct E as (? & Hd & ->) end.
    simplify_eq. do 4 eexists. split_and!; [done|done|by eexists|done|done|]. left. split_and!; try done. by apply Hd.
  - apply atomic_then_ret in Htry; [subst s1|apply atomic_transaction].
    case_match; inv_run_all. subst. do 4 eexists. split_and!; [done|done|by eexists|done|done|]. by right.
Qed.

(** ** Every call moves forward *)

Lemma rtc_next_phase p q : next_phase p = Some q → rtc (λ p q, next_phase p = Some q) p q.
Proof. intros H. by eapply rtc_once. Qed.

Lemma route_generation_ge r phase generation g :
  route_generation r phase generation = Ok g → (rec_route_withdrawal_generation r ≤ g)%Z.
Proof.
  unfold route_generation, value_check. destruct generation; intros H; inv_run_all; bool_facts; lia.
Qed.

Lemma with_phase_step r phase status g completion :
  ¬ terminal r → next_phase (rec_current_phase r) = Some phase →
  (rec_route_withdrawal_generation r ≤ g)%Z → row_step r (with_phase r phase status g completion).
Proof.
  intros Ht Hp Hg. unfold row_step. cbn. split_and!; try done. by apply rtc_next_phase.
Qed.

Lemma with_plan_step r d doc : rec_plan_digest r = None → row_step r (with_plan r d doc).
Proof. intros Hd. unfold row_step. cbn. rewrite Hd. split_and!; done. Qed.

Lemma forward_new s id r : reconciliations s !! id = None → forward s (put_row id r s).
Proof. intros H. apply forward_put. congruence. Qed.

Lemma resolved_plan_reads d : reads (resolved_plan d).
Proof. intros s. unfold resolved_plan, mbind, M_bind, get, lift. repeat case_match; by simplify_eq. Qed.

Lemma reads_atomic {S A} (m : M S A) : reads m → atomic m.
Proof. intros H s e s'. by apply reads_state. Qed.

Lemma atomic_then_unit {S A} (m : M S A) : atomic m → atomic (m;; mret ()).
Proof. apply atomic_then_ret. Qed.

(** A call that raises leaves the tables as they were. *)
Lemma run_atomic c : atomic (run c).
Proof.
  destruct c; cbn [run]; try apply atomic_then_unit.
  - unfold plan. solve_atomic. by apply atomic_then_ret, atomic_transaction.
  - apply atomic_transaction.
  - unfold store_resolved_plan. solve_atomic.
  - unfold get_or_create_resolved_plan. solve_atomic.
  - apply reads_atomic, resolved_plan_reads.
  - by intros s e s' [= _ <-].
Qed.

(** ** The state machine of the tables

    What one call can do: nothing, add a planned row, advance an open row by one
    phase, complete it, or attach its resolved plan. *)
Inductive step (s : tables) : tables → Prop :=
| step_none : step s s
| step_new id r :
    reconciliations s !! id = None → rec_status r = "planned" → rec_current_phase r = "planned" →
    rec_completion_generation r = None →
    (∀ d, rec_plan_digest r = Some d → row_by_plan s d = None) →
    step s (put_row id r s)
| step_phase id r phase g :
    reconciliations s !! id = Some r → ¬ terminal r →
    next_phase (rec_current_phase r) = Some phase → phase ≠ "completed" →
    (rec_route_withdrawal_generation r ≤ g)%Z →
    step s (put_row id (with_phase r phase "running" g (rec_completion_generation r)) s)
| step_complete id r g :
    reconciliations s !! id = Some r → ¬ terminal r →
    next_phase (rec_current_phase r) = Some "completed" →
    (rec_route_withdrawal_generation r ≤ g)%Z → (0 ≤ last_generation s < max_generation)%Z →
    step s (completed_tables id r "completed" g s)
| step_plan id r d doc :
    reconciliations s !! id = Some r → rec_plan_digest r = None → row_by_plan s d = None →
    step s (put_row id (with_plan r d doc) s).

Lemma run_step c s : step s (run c s).2.
Proof.
  destruct (run c s) as [[[]|e] s'] eqn:H; cbn [snd]; [|apply run_atomic in H as ->; constructor].
  destruct c as [id now document|id phase generation|g d document|id now p d document|d|id reason];
    cbn [run] in H; inv_run_all.
  - match goal with E : plan _ _ _ _ = _ |- _ => apply plan_ok in E; destruct E as (P & _ & _ & ? & ->) end.
    by constructor.
  - apply advance_ok in H as (r & g & Hr & Ht & Hp & Hg & [(-> & Hgen & ->)|(Hne & ->)]);
      apply route_generation_ge in Hg; by constructor.
  - apply store_ok in H as (doc & r & _ & Hr & [(_ & ->)|(Hd & Hfree & ->)]); by constructor.
  - match goal with E : get_or_create_resolved_plan _ _ _ _ _ _ = _ |- _ => rename E into Hget end.
    apply get_or_create_ok in Hget
      as (P & doc & aid & r & _ & _ & _ & _ & _ & [(-> & _ & -> & Hid & Hfree)|(-> & _)]); [|constructor].
    constructor; try done. by intros d' [= <-].
  - match goal with E : resolved_plan _ _ = _ |- _ => apply reads_state in E; [|apply resolved_plan_reads] end.
    subst. constructor.
  - unfold cancel in H. inv_run_all.
Qed.

(** A relation of the steps is a relation of every sequence of calls. *)
Lemma after_steps (R : relation tables) `{!PreOrder R} calls s :
  (∀ s s', step s s' → R s s') → R s (after calls s).
Proof.
  intros H. revert s. induction calls as [|c calls IH]; intros s; cbn; [reflexivity|].
  etrans; [apply H, (run_step c)|]. apply IH.
Qed.

Lemma step_forward s s' : step s s' → forward s s'.
Proof.
  destruct 1 as [|id r Hid _ _ _ _|id r phase g Hr Ht Hp _ Hg|id r g Hr Ht Hp Hg _|id r d doc Hr Hd _].
  - reflexivity.
  - by apply forward_new.
  - apply forward_put. intros r' Hr'. simplify_eq. by apply with_phase_step.
  - destruct (forward_put s id (with_phase r "completed" "succeeded" g (Some (last_generation s + 1)%Z)))
      as [Hrows _]; [|split; [exact Hrows|rewrite completed_generation; lia]].
    intros r' Hr'. simplify_eq. by apply with_phase_step.
  - apply forward_put. intros r' Hr'. simplify_eq. by apply with_plan_step.
Qed.

Lemma after_forward calls s : forward s (after calls s).
Proof. apply after_steps; [exact _|apply step_forward]. Qed.

(** ** Completions and plan digests *)

Record tables_ok (s : tables) : Prop := {
  ok_counter : (0 ≤ last_generation s)%Z;
  ok_completed id r g : reconciliations s !! id = Some r → rec_completion_generation r = Some g →
    rec_status r = "succeeded" ∧ (0 < g ≤ last_generation s)%Z;
  ok_succeeded id r : reconciliations s !! id = Some r → rec_status r = "succeeded" →
    is_Some (rec_completion_generation r);
  ok_unique_completion i j r r' g :
    reconciliations s !! i = Some r → reconciliations s !! j = Some r' →
    rec_completion_generation r = Some g → rec_completion_generation r' = Some g → i = j;
  ok_unique_plan i j r r' d :
    reconciliations s !! i = Some r → reconciliations s !! j = Some r' →
    rec_plan_digest r = Some d → rec_plan_digest r' = Some d → i = j
}.

Lemma row_by_plan_None s d id r :
  row_by_plan s d = None → reconciliations s !! id = Some r → rec_plan_digest r ≠ Some d.
Proof.
  unfold row_by_plan. intros H%head_None Hr Hd.
  assert ((id, r) ∈ filter (λ p : string * Reconciliation, rec_plan_digest p.2 = Some d)
            (map_to_list (reconciliations s))) as Hin.
  { apply list_elem_of_filter. split; [done|]. by apply elem_of_map_to_list. }
  rewrite H in Hin. by apply elem_of_nil in Hin.
Qed.

Lemma row_by_plan_Some s d id r :
  row_by_plan s d = Some (id, r) → reconciliations s !! id = Some r ∧ rec_plan_digest r = Some d.
Proof.
  unfold row_by_plan. intros H. apply head_Some in H as [l H].
  assert ((id, r) ∈ filter (λ p : string * Reconciliation, rec_plan_digest p.2 = Some d)
            (map_to_list (reconciliations s))) as Hin by (rewrite H; by left).
  apply list_elem_of_filter in Hin as [Hd Hin]. by apply elem_of_map_to_list in Hin.
Qed.

Lemma row_by_plan_unique s d id r :
  tables_ok s → reconciliations s !! id = Some r → rec_plan_digest r = Some d →
  row_by_plan s d = Some (id, r).
Proof.
  intros Hok Hr Hd. destruct (row_by_plan s d) as [[j r']|] eqn:E.
  - apply row_by_plan_Some in E as [Hr' Hd'].
    assert (j = id) as -> by (by eapply ok_unique_plan). by simplify_eq.
  - by destruct (row_by_plan_None s d id r E).
Qed.

Definition empty_tables : tables := Tables ∅ None.

Lemma empty_tables_ok : tables_ok empty_tables.
Proof. split; [done|..]; intros *; cbn; rewrite lookup_empty; done. Qed.

Lemma open_row_has_no_completion s id r :
  tables_ok s → reconciliations s !! id = Some r → ¬ terminal r → rec_completion_generation r = None.
Proof.
  intros Hok Hr Ht. destruct (rec_completion_generation r) as [g|] eqn:E; [|done].
  destruct (ok_completed _ Hok _ _ _ Hr E) as [Hs _]. destruct Ht. unfold terminal. rewrite Hs. by left.
Qed.

(** A write that completes nothing. *)
Lemma put_row_ok s id r' :
  tables_ok s →
  (rec_completion_generation r' = None ∧ rec_status r' ≠ "succeeded"
   ∨ ∃ r, reconciliations s !! id = Some r ∧ rec_completion_generation r' = rec_completion_generation r
          ∧ rec_status r' = rec_status r) →
  (∀ d j r, rec_plan_digest r' = Some d → reconciliations s !! j = Some r → rec_plan_digest r = Some d → j = id) →
  tables_ok (put_row id r' s).
Proof.
  intros Hok Hr' Hd.
  assert (∀ j r, reconciliations (put_row id r' s) !! j = Some r →
            j = id ∧ r = r' ∨ j ≠ id ∧ reconciliations s !! j = Some r) as Hcases.
  { intros j r. cbn. rewrite lookup_insert_Some. naive_solver. }
  assert (∀ j r g, reconciliations (put_row id r' s) !! j = Some r → rec_completion_generation r = Some g →
            ∃ r0, reconciliations s !! j = Some r0 ∧ rec_completion_generation r0 = Some g
                  ∧ rec_status r = rec_status r0) as Hold.
  { intros j r g Hr Hg. destruct (Hcases _ _ Hr) as [[-> ->]|[_ ?]]; [|eauto].
    destruct Hr' as [[E _]|(r0 & ? & E1 & E2)]; [congruence|]. exists r0. split_and!; congruence. }
  split.
  - apply Hok.
  - intros j r g Hr Hg. destruct (Hold _ _ _ Hr Hg) as (r0 & Hr0 & Hg0 & ->).
    exact (ok_completed _ Hok _ _ _ Hr0 Hg0).
  - intros j r Hr Hs. destruct (Hcases _ _ Hr) as [[-> ->]|[_ ?]]; [|by eapply ok_succeeded].
    destruct Hr' as [[_ ?]|(r0 & ? & -> & E2)]; [done|]. eapply ok_succeeded; [done..|congruence].
  - intros i j r1 r2 g H1 H2 G1 G2. destruct (Hold _ _ _ H1 G1) as (? & ? & ? & _).
    destruct (Hold _ _ _ H2 G2) as (? & ? & ? & _). by eapply ok_unique_completion.
  - intros i j r1 r2 d H1 H2 D1 D2.
    destruct (Hcases _ _ H1) as [[-> ->]|[? ?]], (Hcases _ _ H2) as [[-> ->]|[? ?]];
      [done|symmetry; eauto|eauto|by eapply ok_unique_plan].
Qed.

Lemma completed_ok s id r phase g :
  tables_ok s → reconciliations s !! id = Some r → ¬ terminal r →
  tables_ok (completed_tables id r phase g s).
Proof.
  intros Hok Hr Ht. pose proof (ok_counter _ Hok) as Hc.
  pose proof (completed_generation id r phase g s) as Hlast.
  set (r' := with_phase r phase "succeeded" g (Some (last_generation s + 1)%Z)).
  assert (∀ j k, reconciliations (completed_tables id r phase g s) !! j = Some k →
            j = id ∧ k = r' ∨ j ≠ id ∧ reconciliations s !! j = Some k) as Hcases.
  { intros j k. cbn. rewrite lookup_insert_Some. naive_solver. }
  split.
  - lia.
  - intros j k n Hk Hn. rewrite Hlast. destruct (Hcases _ _ Hk) as [[-> ->]|[_ ?]].
    + cbn in *. simplify_eq. split; [done|lia].
    + destruct (ok_completed _ Hok j k n) as [? ?]; [done..|]. split; [done|lia].
  - intros j k Hk Hs. destruct (Hcases _ _ Hk) as [[-> ->]|[_ ?]]; [by eexists|by eapply ok_succeeded].
  - intros i j r1 r2 n H1 H2 G1 G2.
    destruct (Hcases _ _ H1) as [[-> ->]|[? H1']], (Hcases _ _ H2) as [[-> ->]|[? H2']];
      [done|exfalso..|exact (ok_unique_completion _ Hok _ _ _ _ _ H1' H2' G1 G2)].
    + cbn in G1. simplify_eq. destruct (ok_completed _ Hok _ _ _ H2' G2). lia.
    + cbn in G2. simplify_eq. destruct (ok_completed _ Hok _ _ _ H1' G1). lia.
  - intros i j r1 r2 d H1 H2 D1 D2.
    destruct (Hcases _ _ H1) as [[-> ->]|[? H1']], (Hcases _ _ H2) as [[-> ->]|[? H2']];
      [done|exact (ok_unique_plan _ Hok _ _ _ _ _ Hr H2' D1 D2)
       |exact (ok_unique_plan _ Hok _ _ _ _ _ H1' Hr D1 D2)|exact (ok_unique_plan _ Hok _ _ _ _ _ H1' H2' D1 D2)].
Qed.

Lemma step_ok s s' : step s s' → tables_ok s → tables_ok s'.
Proof.
  intros H Hok.
  destruct H as [|id r Hid Hs _ Hc Hfree|id r phase g Hr Ht _ _ _|id r g Hr Ht _ _ _|id r d doc Hr Hd Hfree].
  - done.
  - apply put_row_ok; [done|left; by rewrite Hs|].
    intros d j k Hd Hk Hk'. by destruct (row_by_plan_None _ _ _ _ (Hfree d Hd) Hk).
  - apply put_row_ok; [done| |].
    + left. split; [|done]. exact (open_row_has_no_completion _ _ _ Hok Hr Ht).
    + intros d j k Hd Hk Hk'. exact (ok_unique_plan _ Hok _ _ _ _ _ Hk Hr Hk' Hd).
  - by apply completed_ok.
  - apply put_row_ok; [done|right; by exists r|].
    intros d' j k [= <-] Hk Hk'. by destruct (row_by_plan_None _ _ _ _ Hfree Hk).
Qed.

Lemma after_ok calls s : tables_ok s → tables_ok (after calls s).
Proof. apply (after_steps (λ s s', tables_ok s → tables_ok s')), step_ok. Qed.

(** Completions that a step adds come after those before it. *)
Definition completes_later (s s' : tables) : Prop :=
  (last_generation s ≤ last_generation s')%Z ∧
  ∀ id r' g, reconciliations s' !! id = Some r' → rec_completion_generation r' = Some g →
    (∃ r, reconciliations s !! id = Some r ∧ rec_completion_generation r = Some g)
    ∨ (last_generation s < g)%Z.

#[export] Instance completes_later_preorder : PreOrder completes_later.
Proof.
  split.
  - intros s. split; [lia|eauto].
  - intros s1 s2 s3 [? H1] [? H2]. split; [lia|]. intros id r g Hr Hg.
    destruct (H2 id r g Hr Hg) as [(r2 & Hr2 & Hg2)|?]; [eauto|right; lia].
Qed.

Lemma put_completes_later s id r' :
  (∀ g, rec_completion_generation r' = Some g →
     ∃ r, reconciliations s !! id = Some r ∧ rec_completion_generation r = Some g) →
  completes_later s (put_row id r' s).
Proof.
  intros H. split; [unfold last_generation; cbn; lia|]. intros j k g Hk Hg. cbn in Hk.
  apply lookup_insert_Some in Hk as [[<- <-]|[_ Hk]]; left; eauto.
Qed.

Lemma step_completes_later s s' : step s s' → completes_later s s'.
Proof.
  destruct 1 as [|id r Hid _ _ Hc _|id r phase g Hr Ht _ _ _|id r g Hr Ht _ _ _|id r d doc Hr Hd Hfree].
  - reflexivity.
  - apply put_completes_later. congruence.
  - apply put_completes_later. eauto.
  - split; [rewrite completed_generation; lia|]. intros j k n Hk Hn. cbn in Hk.
    apply lookup_insert_Some in Hk as [[<- <-]|[_ Hk]]; [right|left; eauto].
    cbn in Hn. simplify_eq. lia.
  - apply put_completes_later. eauto.
Qed.

(** ** Driving a reconciliation to its end *)

Lemma advance_run s id r phase :
  reconciliations s !! id = Some r → ¬ terminal r →
  next_phase (rec_current_phase r) = Some phase → phase ≠ "completed" →
  advance id phase None s
  = (Ok (), put_row id (with_phase r phase "running" (rec_route_withdrawal_generation r)
                          (rec_completion_generation r)) s).
Proof.
  intros Hr Ht Hp Hne.
  unfold advance, transaction, stored, value_check, route_generation, mbind, M_bind, get, lift.
  rewrite Hr. cbn [mret M_ret]. rewrite Hp, eqb_refl.
  replace (among (rec_status r) terminal_statuses) with false by (symmetry; by apply bool_decide_eq_false).
  cbn. by rewrite (proj2 (eqb_false phase "completed") Hne).
Qed.

Lemma completion_free s id : tables_ok s → completion_taken s id (last_generation s + 1) = false.
Proof.
  intros Hok. apply not_true_iff_false. intros H. apply existsb_exists in H as ([j r] & Hin & Hj).
  apply list_elem_of_In, elem_of_map_to_list in Hin. bool_facts. cbn in *.
  destruct (ok_completed _ Hok _ _ _ Hin ltac:(eassumption)). lia.
Qed.

Lemma advance_complete_run s id r :
  tables_ok s → (last_generation s < max_generation)%Z →
  reconciliations s !! id = Some r → ¬ terminal r → rec_current_phase r = "accepting" →
  advance id "completed" None s
  = (Ok (), completed_tables id r "completed" (rec_route_withdrawal_generation r) s).
Proof.
  intros Hok Hmax Hr Ht Hp. pose proof (ok_counter _ Hok) as Hc.
  unfold advance, transaction, stored, value_check, route_generation, next_completion_generation,
    mbind, M_bind, get, lift, modify.
  rewrite Hr. cbn [mret M_ret]. rewrite Hp.
  replace (among (rec_status r) terminal_statuses) with false by (symmetry; by apply bool_decide_eq_false).
  cbn [negb ensure eqb]. change (eqb (next_phase "accepting") (Some "completed")) with true.
  change (eqb "completed" "completed") with true. cbn [ensure mret result_ret].
  fold (last_generation s).
  replace ((0 <=? last_generation s)%Z && (last_generation s <? max_generation)%Z) with true by lia.
  cbn [ensure mret M_ret]. change (completion_taken _ id (last_generation s + 1)) with
    (completion_taken s id (last_generation s + 1)).
  rewrite completion_free by done. reflexivity.
Qed.

Definition phases : list string := ["planned"; "routes-withdrawn"; "dispatching"; "accepting"; "completed"].

(** The calls that finish a reconciliation from the [i]th phase. *)
Definition finish (id : string) (i : nat) : list call :=
  (λ phase, CAdvance id phase None) <$> drop (S i) phases.

Definition completed_at (s : tables) (id : string) (g : Z) : Prop :=
  ∃ r, reconciliations s !! id = Some r ∧ rec_status r = "succeeded"
       ∧ rec_current_phase r = "completed" ∧ rec_completion_generation r = Some g.

Fixpoint leads (phase : string) (rest : list string) : Prop :=
  match rest with
  | [] => False
  | [q] => phase = "accepting" ∧ q = "completed"
  | q :: rest => next_phase phase = Some q ∧ q ≠ "completed" ∧ leads q rest
  end.

Lemma finish_path rest : ∀ s id r,
  tables_ok s → (last_generation s < max_generation)%Z →
  reconciliations s !! id = Some r → ¬ terminal r → leads (rec_current_phase r) rest →
  completed_at (after ((λ phase, CAdvance id phase None) <$> rest) s) id (last_generation s + 1).
Proof.
  induction rest as [|q [|q' rest] IH]; intros s id r Hok Hmax Hr Ht Hl; [done|..].
  - destruct Hl as [Hp ->]. cbn [after foldl fmap list_fmap run].
    rewrite (advance_complete_run s id r) by done. eexists. cbn. rewrite lookup_insert_eq. by split_and!.
  - destruct Hl as (Hp & Hne & Hl). cbn [after foldl fmap list_fmap run].
    rewrite (advance_run s id r) by done.
    set (r' := with_phase r q "running" (rec_route_withdrawal_generation r) (rec_completion_generation r)).
    apply (IH (put_row id r' s) id r'); [|done|by cbn; rewrite lookup_insert_eq| |exact Hl].
    + eapply step_ok; [|exact Hok]. by apply step_phase.
    + unfold terminal. cbn. set_solver.
Qed.

Lemma leads_phases i phase : (i < 4)%nat → phases !! i = Some phase → leads phase (drop (S i) phases).
Proof.
  intros Hi. do 4 (destruct i as [|i]; [intros [= <-]; by repeat split|]). lia.
Qed.

(** ** One plan per digest *)

Lemma py_eqb_refl v : py_eqb v v = true.
Proof. unfold py_eqb. by apply json_eqb_true. Qed.

Lemma get_or_create_existing id now graph_plan d document s P doc aid r :
  parse_plan graph_plan = Ok P → resolved_document d document = Ok doc → embeds_graph doc P →
  row_by_plan s d = Some (aid, r) → same_content r P doc = true →
  get_or_create_resolved_plan id now graph_plan d document s
  = (Ok (Graph aid (rec_base_commit r) (plan_targets P) (plan_nodes P) (rec_graph_digest r)), s).
Proof.
  intros HP Hdoc (og & Hog & Heq) Hrow Hsame.
  assert (insert_row id (planned_row P (Some d) (Some doc) now) s
          = (Err (Exn EIntegrity "UNIQUE constraint failed"), s)) as Hinsert.
  { unfold insert_row, mbind, M_bind, get, lift. cbn [planned_row rec_plan_digest].
    rewrite Hrow. cbn [is_None_b]. by rewrite andb_false_r. }
  unfold get_or_create_resolved_plan, mbind, M_bind, lift, value_check. rewrite HP, Hdoc, Hog, Heq.
  cbn [ensure]. unfold transaction, try_catch. rewrite Hinsert. unfold get. rewrite Hrow.
  cbn [mret M_ret]. by rewrite Hsame.
Qed.

Lemma same_content_step r r' P doc :
  row_step r r' → rec_plan_digest r ≠ None →
  rec_route_withdrawal_generation r' = rec_route_withdrawal_generation r →
  same_content r P doc = true → same_content r' P doc = true.
Proof.
  intros (E1 & _ & E2 & E3 & _ & _ & Hd & _) Hplan Hg. unfold same_content.
  destruct (rec_plan_digest r) as [d|]; [|done]. destruct (Hd d eq_refl) as [_ E4].
  by rewrite E1, E2, E3, E4, Hg.
Qed.

(** The row a successful call found or made. *)
Lemma get_or_create_row id now graph_plan d document s g s' :
  tables_ok s → get_or_create_resolved_plan id now graph_plan d document s = (Ok g, s') →
  ∃ P doc r, parse_plan graph_plan = Ok P ∧ resolved_document d document = Ok doc
    ∧ embeds_graph doc P ∧ same_content r P doc = true
    ∧ g = Graph (graph_reconciliation_id g) (rec_base_commit r) (plan_targets P) (plan_nodes P)
            (rec_graph_digest r)
    ∧ reconciliations s' !! graph_reconciliation_id g = Some r ∧ rec_plan_digest r = Some d
    ∧ tables_ok s'.
Proof.
  intros Hok H. assert (tables_ok s') as Hok'.
  { eapply (step_ok s); [|done]. pose proof (run_step (CGetOrCreate id now graph_plan d document) s) as Hs.
    cbn [run] in Hs. unfold mbind, M_bind in Hs. by rewrite H in Hs. }
  apply get_or_create_ok in H
    as (P & doc & aid & r & HP & Hdoc & Hg & Hsame & -> & [(-> & -> & -> & _ & _)|(-> & Hrow)]).
  - exists P, doc, (planned_row P (Some d) (Some doc) now). split_and!; try done.
    cbn. by rewrite lookup_insert_eq.
  - apply row_by_plan_Some in Hrow as [? ?]. exists P, doc, r. by split_and!.
Qed.

(** ** Authenticated plans *)

Definition payloads_of (document : json) : list (string * json) :=
  items_of (field (items_of document) "operation_payloads").

Definition is_package (n : OperationNode) : bool := String.prefix "package." (op_kind n).

Lemma as_value_error_ok {A} (r : result A) m a : as_value_error r m = Ok a → r = Ok a.
Proof. destruct r as [|[[] ?]]; done. Qed.

Lemma validate_ok id commit graph digest d resolved generation g document :
  validate_persisted_resolved_plan id commit graph digest d resolved generation = Ok (g, document) →
  ∃ v P, parse_plan v = Ok P ∧ graph_nodes g = plan_nodes P
    ∧ (if existsb is_package (graph_nodes g)
       then validate_package_plan (graph_nodes g) (payloads_of document)
       else validate_gates (graph_nodes g) (payloads_of document)) = Ok ().
Proof.
  unfold validate_persisted_resolved_plan, value_check. intros H. inv_run_all.
  match goal with E : as_value_error (parse_plan _) _ = Ok _ |- _ => apply as_value_error_ok in E end.
  simplify_eq. do 2 eexists. split; [done|]. cbn [graph_nodes]. split; [done|].
  match goal with u : unit |- _ => by destruct u end.
Qed.

Lemma gates_ok nodes payloads u :
  validate_gates nodes payloads = Ok u →
  (∀ n, n ∈ nodes → op_kind n = WORKLOAD_STOP ∨ op_kind n = RELEASE_INSTALL →
     ∃ gate, gate ∈ nodes ∧ op_kind gate = NODE_PROBE ∧ op_node_id gate = op_node_id n
       ∧ py_eqb (field payloads (op_id gate)) gate_payload = true)
  ∧ (∀ gate stop, gate ∈ nodes → stop ∈ nodes → op_kind gate = NODE_PROBE →
       op_kind stop = WORKLOAD_STOP → op_id stop ∈ op_dependencies gate)
  ∧ (∀ install gate, install ∈ nodes → gate ∈ nodes → op_kind install = RELEASE_INSTALL →
       op_kind gate = NODE_PROBE → op_id gate ∈ op_dependencies install).
Proof.
  unfold validate_gates, value_check. intros H. inv_run_all. bool_facts.
  match goal with E : list_to_set _ = list_to_set _ |- _ => rename E into Htargets end.
  match goal with E : ∀ x, _ → eqb (op_kind x) _ && _ = true |- _ => rename E into Hgate end.
  match goal with E : ∀ x, _ → py_eqb _ _ && _ = true |- _ => rename E into Hbarrier end.
  assert (∀ n (Q : OperationNode → Prop) `{!∀ x, Decision (Q x)}, n ∈ nodes → Q n → In n (filter Q nodes)) as Hin.
  { intros n Q ? Hn HQ. apply list_elem_of_In, list_elem_of_filter. done. }
  assert (∀ gate, op_kind gate = NODE_PROBE → is_gate gate = true) as Hprobe.
  { intros gate E. unfold is_gate. by rewrite E. }
  split_and!.
  - intros n Hn Hkind.
    assert (op_node_id n ∈ (list_to_set (op_node_id <$> filter (λ n, is_gate n = true) nodes) : gset string)) as Hg.
    { rewrite Htargets. apply elem_of_list_to_set, list_elem_of_fmap_2. rewrite elem_of_app, !list_elem_of_filter. naive_solver. }
    apply elem_of_list_to_set, list_elem_of_fmap in Hg as (gate & Hid & Hgin).
    pose proof (proj1 (list_elem_of_In _ _) Hgin) as HIn.
    specialize (Hgate gate HIn). specialize (Hbarrier gate HIn). bool_facts.
    apply list_elem_of_filter in Hgin as [_ Hgin]. exists gate. by split_and!.
  - intros gate stop Hgn Hs Hk Hks. specialize (Hbarrier gate (Hin _ _ _ Hgn (Hprobe _ Hk))). bool_facts.
    match goal with E : op_dependencies gate = _ |- _ => rewrite E end.
    apply py_sorted_elem_of, list_elem_of_fmap_2, list_elem_of_filter. done.
  - intros install gate Hi Hgn Hki Hkg. specialize (H install (Hin _ _ _ Hi Hki)). bool_facts.
    match goal with E : op_dependencies install = _ |- _ => rewrite E end.
    apply py_sorted_elem_of, list_elem_of_fmap_2, list_elem_of_filter. auto.
Qed.
(** ** Package rollouts *)

Definition family_of (l : families) (key : string * string) : option family :=
  (list_to_map l : gmap (string * string) family) !! key.

Lemma add_operation_ok key n l l' :
  add_operation key n l = Ok l' →
  default ∅ (family_of l key) !! op_kind n = None
  ∧ ∀ k, family_of l' k =
      if decide (k = key) then Some (<[op_kind n := n]> (default ∅ (family_of l key)))
      else family_of l k.
Proof.
  unfold family_of. revert l'. induction l as [|[key' operations] l IH]; intros l' H; cbn in H.
  - inv_run_all. subst l'. rewrite list_to_map_cons, !list_to_map_nil, lookup_empty. cbn [default from_option].
    split; [apply lookup_empty|]. intros k. cbn [fst snd].
    case_decide; [subst; by rewrite lookup_insert_eq|by rewrite lookup_insert_ne].
  - rewrite !list_to_map_cons. cbn [fst snd].
    destruct (eqb key' key) eqn:E; bool_facts; unfold value_check in H; inv_run_all; bool_facts; subst l'.
    + subst key'. rewrite lookup_insert_eq. cbn [default from_option]. split; [done|]. intros k.
      rewrite list_to_map_cons. cbn [fst snd].
      case_decide; [subst; by rewrite lookup_insert_eq|by rewrite !lookup_insert_ne by done].
    + rewrite lookup_insert_ne by done.
      match goal with E : add_operation _ _ _ = Ok _ |- _ => destruct (IH _ E) as [Hnone Hrest] end.
      split; [done|]. intros k. rewrite list_to_map_cons. cbn [fst snd]. destruct (decide (k = key')) as [->|Hk].
      * rewrite decide_False by congruence. by rewrite !lookup_insert_eq.
      * rewrite lookup_insert_ne by done. rewrite Hrest. case_decide; [done|]. by rewrite lookup_insert_ne.
Qed.

Definition grouped (l : families) (nodes : list OperationNode) : Prop :=
  (∀ n, n ∈ nodes → is_Some (package_operation (op_kind n)) →
     ∃ operations, family_of l (op_workload_id n, op_node_id n) = Some operations
       ∧ operations !! op_kind n = Some n)
  ∧ (∀ w t operations kind n, family_of l (w, t) = Some operations → operations !! kind = Some n →
       n ∈ nodes ∧ op_kind n = kind ∧ op_workload_id n = w ∧ op_node_id n = t).

Lemma group_node_ok payloads l n l' nodes :
  grouped l nodes → group_node payloads l n = Ok l' → grouped l' (nodes ++ [n]).
Proof.
  intros [Hall Honly] H. unfold group_node, value_check in H.
  destruct (package_operation (op_kind n)) as [o|] eqn:Ho.
  - destruct (lookup_key payloads (op_id n)) as [[]|]; try discriminate H. inv_run_all.
    apply add_operation_ok in H as [Hnone Hl']. split.
    + intros k Hk Hpkg. rewrite Hl'. apply elem_of_app in Hk as [Hk|Hk%list_elem_of_singleton].
      * destruct (Hall k Hk Hpkg) as (ops & Hf & Hlook).
        case_decide as E; [|eauto]. injection E as E1 E2. rewrite E1, E2 in Hf. rewrite Hf in Hnone |- *.
        cbn [from_option id] in *.
        eexists. split; [done|]. rewrite lookup_insert_ne; [done|]. intros E. rewrite E in Hnone. congruence.
      * subst k. rewrite decide_True by done. eexists. split; [done|]. by rewrite lookup_insert_eq.
    + intros w t ops kind k. rewrite Hl'. case_decide as E.
      * injection E as -> ->. intros [= <-] [[<- <-]|[Hne Hlook]]%lookup_insert_Some; [set_solver|].
        destruct (family_of l _) as [ops0|] eqn:Hf; cbn in Hlook; [|done].
        destruct (Honly _ _ _ _ _ Hf Hlook) as (? & ? & ? & ?). set_solver.
      * intros Hf Hlook. destruct (Honly _ _ _ _ _ Hf Hlook) as (? & ? & ? & ?). set_solver.
  - inv_run_all. subst l'. split.
    + intros k Hk Hpkg. apply Hall; [|done]. apply elem_of_app in Hk as [?|Hk%list_elem_of_singleton]; [done|].
      subst. rewrite Ho in Hpkg. by destruct Hpkg.
    + intros w t ops kind k Hf Hlook. destruct (Honly _ _ _ _ _ Hf Hlook) as (? & ? & ? & ?). set_solver.
Qed.

Lemma group_nodes_ok payloads nodes : ∀ l done l',
  grouped l done → group_nodes payloads l nodes = Ok l' → grouped l' (done ++ nodes).
Proof.
  induction nodes as [|n nodes IH]; intros l dn l' Hl H; cbn in H; inv_run_all.
  - subst. by rewrite app_nil_r.
  - match goal with E : group_node _ _ _ = Ok _ |- _ => pose proof (group_node_ok _ _ _ _ _ Hl E) as Hl1 end.
    replace (dn ++ n :: nodes) with ((dn ++ [n]) ++ nodes) by (by rewrite <- app_assoc). by eapply IH.
Qed.

(** The lifecycle around one activation. *)
Definition activation_in_order (nodes : list OperationNode) (n : OperationNode) : Prop :=
  let same k := k ∈ nodes ∧ op_workload_id k = op_workload_id n ∧ op_node_id k = op_node_id n in
  (∃ p, same p ∧ op_kind p = "package.prepare" ∧ op_id p ∈ op_dependencies n)
  ∧ (∃ h, same h ∧ op_kind h = "package.health" ∧ op_dependencies h = [op_id n])
  ∧ (∀ s, same s → op_kind s = "package.stop" → op_id s ∈ op_dependencies n)
  ∧ (∀ k k', same k → same k' → is_Some (package_operation (op_kind k)) → op_kind k' = op_kind k → k' = k)
  ∧ (op_compensation_kind n = Some "package.rollback" →
     ∀ k, k ∈ nodes → op_workload_id k = op_workload_id n → op_kind k ≠ "package.rollback").

Lemma package_plan_ok nodes payloads u n :
  validate_package_plan nodes payloads = Ok u → n ∈ nodes → op_kind n = "package.activate" →
  activation_in_order nodes n.
Proof.
  unfold validate_package_plan, value_check. intros H Hn Hk. inv_run_all.
  match goal with E : group_nodes _ _ _ = Ok ?l |- _ =>
    apply (group_nodes_ok _ _ _ []) in E; [destruct E as [Hall Honly]; rename l into fams|split; set_solver] end.
  destruct (Hall n Hn) as (ops & Hf & Hlook); [by rewrite Hk|].
  apply each_ok in H. rewrite Forall_forall in H.
  specialize (H _ (elem_of_list_to_map_2 _ _ _ Hf)). unfold check_lifecycle, value_check in H. rewrite Hk in Hlook.
  rewrite Hlook in H. destruct (ops !! "package.prepare") as [p|] eqn:Hp; [|discriminate H].
  destruct (ops !! "package.health") as [h|] eqn:Hh; [|discriminate H]. inv_run_all. bool_facts.
  match goal with E : op_dependencies n = _ |- _ => rename E into Hdeps end.
  destruct (Honly _ _ _ _ _ Hf Hp) as (? & ? & ? & ?). destruct (Honly _ _ _ _ _ Hf Hh) as (? & ? & ? & ?).
  assert (∀ k, k ∈ nodes → op_workload_id k = op_workload_id n → op_node_id k = op_node_id n →
            is_Some (package_operation (op_kind k)) → ops !! op_kind k = Some k) as Hsame.
  { intros k Hkn E1 E2 Hpkg. destruct (Hall k Hkn Hpkg) as (ops' & Hf' & ?).
    rewrite E1, E2, Hf in Hf'. by simplify_eq. }
  unfold activation_in_order. split_and!.
  - exists p. split_and!; try done. rewrite Hdeps. apply py_sorted_elem_of. by left.
  - exists h. by split_and!.
  - intros s (Hs & E1 & E2) Hks. specialize (Hsame s Hs E1 E2). rewrite Hks in Hsame.
    rewrite Hsame in Hdeps by done. rewrite Hdeps. apply py_sorted_elem_of. set_solver.
  - intros k k' (? & ? & ?) (? & ? & ?) Hpkg E. assert (ops !! op_kind k = Some k) as Hk1 by auto.
    assert (ops !! op_kind k' = Some k') as Hk2 by (apply Hsame; rewrite ?E; auto). congruence.
  - intros Hcomp k Hkn E1 Hkk. rewrite Hcomp, eqb_refl in H. cbn in H.
    apply not_true_iff_false in H. destruct H. apply existsb_exists. exists k.
    rewrite <- list_elem_of_In. split; [done|]. by rewrite Hkk, E1, !eqb_refl.
Qed.

(** ** Theorems *)

(** C36. Over any sequence of calls of the orchestrator a reconciliation is never lost,
    its commit, graph and graph digest never change, a resolved plan once attached never
    changes, its phase only follows the phase order, its route generation never decreases,
    and once it is terminal its status, phase, generation and completion are final (a plan
    may still be attached to it). *)
Theorem reconciliations_move_forward calls s id r :
  reconciliations s !! id = Some r →
  ∃ r', reconciliations (after calls s) !! id = Some r' ∧ row_step r r'.
Proof. apply (after_forward calls s). Qed.

(** Completion generations order the completions: whatever calls are made on
    an initially empty database, a completed reconciliation has succeeded, no two
    share a generation, and a reconciliation completed by later calls has a greater
    generation than every one completed before. *)
Theorem completions_are_ordered calls later i r g j r' g' :
  reconciliations (after calls empty_tables) !! i = Some r → rec_completion_generation r = Some g →
  reconciliations (after later (after calls empty_tables)) !! j = Some r' →
  rec_completion_generation r' = Some g' →
  rec_status r' = "succeeded"
  ∧ (g = g' → i = j)
  ∧ ((∀ r0, reconciliations (after calls empty_tables) !! j = Some r0 →
        rec_completion_generation r0 = None) → (g < g')%Z).
Proof.
  intros Hr Hg Hr' Hg'.
  assert (tables_ok (after calls empty_tables)) as Hok by (apply after_ok, empty_tables_ok).
  pose proof (after_ok later _ Hok) as Hok'.
  destruct (ok_completed _ Hok _ _ _ Hr Hg) as [Hs Hle].
  destruct (ok_completed _ Hok' _ _ _ Hr' Hg') as [? _].
  destruct (after_forward later (after calls empty_tables)) as [Hrows _].
  destruct (Hrows _ _ Hr) as (r1 & Hr1 & Hstep).
  assert (rec_completion_generation r1 = Some g) as Hg1.
  { destruct Hstep as (_ & _ & _ & _ & _ & _ & _ & _ & _ & Ht).
    destruct Ht as (_ & _ & _ & ->); [|done]. unfold terminal. rewrite Hs. by left. }
  split_and!; [done| |].
  - intros <-. exact (ok_unique_completion _ Hok' _ _ _ _ _ Hr1 Hr' Hg1 Hg').
  - intros Hnone. destruct (after_steps completes_later later (after calls empty_tables) step_completes_later) as [_ Hlater].
    destruct (Hlater j r' g' Hr' Hg') as [(r0 & Hr0 & E)|?]; [|lia]. by rewrite (Hnone r0 Hr0) in E.
Qed.

(** From any database the calls can produce, an open reconciliation that is in
    one of the phases before completion is completed by advancing it through the
    phases that remain, with the next completion generation, as long as the
    generation counter has room. *)
Theorem open_reconciliation_can_complete calls id r i :
  reconciliations (after calls empty_tables) !! id = Some r → ¬ terminal r →
  (i < 4)%nat → phases !! i = Some (rec_current_phase r) →
  (last_generation (after calls empty_tables) < max_generation)%Z →
  completed_at (after (finish id i) (after calls empty_tables)) id
    (last_generation (after calls empty_tables) + 1).
Proof.
  intros Hr Ht Hi Hp Hmax. eapply finish_path; [apply after_ok, empty_tables_ok|done|done|done|].
  by apply leads_phases.
Qed.

(** A plan digest identifies one immutable plan. After a successful
    [get_or_create_resolved_plan] and any further calls, the row it returned still
    holds that digest, the same graph digest and the same resolved document, no
    other row has the digest, and unless the route generation of the row was
    raised meanwhile the same call returns the same graph and writes nothing. *)
Theorem plan_digest_identifies_one_plan calls later id now id' now' graph_plan d document g s' :
  get_or_create_resolved_plan id now graph_plan d document (after calls empty_tables) = (Ok g, s') →
  ∃ r P, reconciliations (after later s') !! graph_reconciliation_id g = Some r
    ∧ parse_plan graph_plan = Ok P ∧ graph_nodes g = plan_nodes P
    ∧ rec_plan_digest r = Some d ∧ rec_graph_digest r = graph_digest g
    ∧ opt_py_eqb (rec_resolved_plan r) (sort_json document) = true
    ∧ (∀ j k, reconciliations (after later s') !! j = Some k → rec_plan_digest k = Some d →
         j = graph_reconciliation_id g)
    ∧ (rec_route_withdrawal_generation r = plan_generation P →
       get_or_create_resolved_plan id' now' graph_plan d document (after later s')
       = (Ok g, after later s')).
Proof.
  intros H. apply get_or_create_row in H; [|apply after_ok, empty_tables_ok].
  destruct H as (P & doc & r0 & HP & Hdoc & Hembeds & Hsame & Hg & Hr0 & Hd0 & Hok).
  destruct (after_forward later s') as [Hrows _]. destruct (Hrows _ _ Hr0) as (r & Hr & Hstep).
  pose proof Hstep as (E1 & _ & _ & E3 & _ & _ & Hplan & _).
  destruct (Hplan d Hd0) as [Hd Hres]. pose proof (after_ok later _ Hok) as Hok'.
  assert (doc = sort_json document) as ->.
  { unfold resolved_document, value_check in Hdoc. by inv_run_all. }
  pose proof Hsame as Hparts. unfold same_content in Hparts. bool_facts.
  exists r, P. split_and!; try done.
  - by rewrite Hg.
  - rewrite E3, Hg. done.
  - by rewrite Hres.
  - intros j k Hk Hkd. exact (ok_unique_plan _ Hok' _ _ _ _ _ Hk Hr Hkd Hd).
  - intros Hgen. rewrite (get_or_create_existing id' now' graph_plan d document _ P (sort_json document)
      (graph_reconciliation_id g) r); try done.
    + rewrite E1, E3, <- Hg. done.
    + by apply row_by_plan_unique.
    + eapply same_content_step; [exact Hstep|congruence|congruence|done].
Qed.

(** The barriers of an authenticated plan without package operations: every
    node that has a stop or an installation has a gate that requires it to run no
    compute process, every stop precedes every gate, every gate precedes every
    installation, and so every stop precedes every installation. *)
Theorem installations_wait_for_gates id commit graph digest d resolved generation g document :
  validate_persisted_resolved_plan id commit graph digest d resolved generation = Ok (g, document) →
  existsb is_package (graph_nodes g) = false →
  (∀ n, n ∈ graph_nodes g → op_kind n = WORKLOAD_STOP ∨ op_kind n = RELEASE_INSTALL →
     ∃ gate, gate ∈ graph_nodes g ∧ op_kind gate = NODE_PROBE ∧ op_node_id gate = op_node_id n
       ∧ py_eqb (field (payloads_of document) (op_id gate)) gate_payload = true)
  ∧ ∀ i j n m, graph_nodes g !! i = Some n → graph_nodes g !! j = Some m →
      op_kind n = WORKLOAD_STOP ∧ op_kind m = NODE_PROBE
      ∨ op_kind n = NODE_PROBE ∧ op_kind m = RELEASE_INSTALL
      ∨ op_kind n = WORKLOAD_STOP ∧ op_kind m = RELEASE_INSTALL → (i < j)%nat.
Proof.
  intros H Hnone. apply validate_ok in H as (v & P & HP & Hnodes & H). rewrite Hnone in H.
  apply gates_ok in H as (Hgates & Hstop & Hinstall). split; [done|]. rewrite Hnodes in *.
  assert (∀ i j n m, plan_nodes P !! i = Some n → plan_nodes P !! j = Some m →
            op_id n ∈ op_dependencies m → (i < j)%nat) as Hpos.
  { intros i j n m Hi Hj. by eapply dependency_position. }
  assert (∀ i n, plan_nodes P !! i = Some n → n ∈ plan_nodes P) as Hin.
  { intros i n. apply list_elem_of_lookup_2. }
  intros i j n m Hi Hj [[E1 E2]|[[E1 E2]|[E1 E2]]]; [by eapply Hpos; eauto..|].
  destruct (Hgates n) as (gate & Hg & Hkind & _); [by eapply Hin|by left|].
  apply list_elem_of_lookup in Hg as [k Hk].
  assert (i < k)%nat by (eapply Hpos; eauto). assert (k < j)%nat by (eapply Hpos; eauto). lia.
Qed.

(** C37. The lifecycle of an authenticated package plan: an activation has a
    preparation before it and a health check after it for its deployment and node,
    comes after the stop if there is one, and no operation of a kind occurs twice
    there; when a rollback compensates it, no rollback of its deployment is dispatched. *)
Theorem package_rollout_is_ordered id commit graph digest d resolved generation g document i n :
  validate_persisted_resolved_plan id commit graph digest d resolved generation = Ok (g, document) →
  graph_nodes g !! i = Some n → op_kind n = "package.activate" →
  activation_in_order (graph_nodes g) n
  ∧ ∀ j m, graph_nodes g !! j = Some m → op_workload_id m = op_workload_id n →
      op_node_id m = op_node_id n →
      (op_kind m = "package.stop" → (j < i)%nat) ∧ (op_dependencies m = [op_id n] → (i < j)%nat).
Proof.
  intros H Hi Hk. apply validate_ok in H as (v & P & HP & Hnodes & H).
  assert (existsb is_package (graph_nodes g) = true) as Hpkg.
  { apply existsb_exists. exists n. rewrite <- list_elem_of_In. split; [by eapply list_elem_of_lookup_2|].
    unfold is_package. by rewrite Hk. }
  rewrite Hpkg in H. assert (n ∈ graph_nodes g) as Hn by (by eapply list_elem_of_lookup_2).
  pose proof (package_plan_ok _ _ _ _ H Hn Hk) as Horder. split; [done|].
  destruct Horder as (_ & _ & Hstop & _). rewrite Hnodes in *. intros j m Hj Hw Ht. split.
  - intros Hs. eapply dependency_position; [done..|]. apply Hstop; [|done].
    split_and!; [by eapply list_elem_of_lookup_2|done|done].
  - intros Hd. eapply dependency_position; [done|exact Hj|exact Hi|]. rewrite Hd. by left.
Qed.

(** ** Examples *)

Definition sample_commit : string := "0123456789abcdef0123456789abcdef01234567".

(** The resolved document of a list of operations with their payloads. *)
Definition sample_resolved (nodes : list OperationNode) (payloads : list (string * json)) : json :=
  JObj [("commit", JStr sample_commit); ("targets", JArr [JStr sample_target]);
        ("placements", JObj []); ("routes", JObj []); ("releases", JObj []);
        ("workload_groups", JObj []); ("input_digests", JObj [("inventory", JStr sample_digest)]);
        ("fleet_evidence_digest", JStr sample_digest);
        ("operation_graph", graph_document sample_commit [sample_target] nodes);
        ("operation_payloads", JObj payloads);
        ("agent_protocol_range", JArr [JInt 1; JInt 2])].

Definition digest_of (v : json) : string := Sha256.hexdigest (canonical v).

Definition with_payload (n : OperationNode) (payload : json) : OperationNode :=
  Node (op_id n) (op_node_id n) (op_workload_id n) (op_kind n) (op_dependencies n)
    (op_compensation_kind n) (utf8_digest payload).

Definition gated_nodes : list OperationNode :=
  [with_payload sample_stop (JObj []); with_payload sample_gate gate_payload;
   with_payload sample_install (JObj [])].
Definition gated_document : json :=
  sample_resolved gated_nodes
    [("chat.stop", JObj []); ("gate", gate_payload); ("a.install", JObj [])].

Definition rollout_payload : json := sample_payload.
Definition rollout_node (id kind : string) (dependencies : list string) (compensation : option string)
    : OperationNode :=
  Node id sample_target "chat" kind dependencies compensation (utf8_digest rollout_payload).
Definition rollout_nodes : list OperationNode :=
  [rollout_node "chat.prepare" "package.prepare" [] None;
   rollout_node "chat.activate" "package.activate" ["chat.prepare"] (Some "package.rollback");
   rollout_node "chat.health" "package.health" ["chat.activate"] None].
Definition rollout_document : json :=
  sample_resolved rollout_nodes
    [("chat.prepare", rollout_payload); ("chat.activate", rollout_payload); ("chat.health", rollout_payload)].

Definition authenticate (nodes : list OperationNode) (document : json) : result (OperationGraph * json) :=
  let graph := graph_document sample_commit [sample_target] nodes in
  validate_persisted_resolved_plan "r1" sample_commit graph (utf8_digest graph) (digest_of document) document 7.

Definition is_authentic (nodes : list OperationNode) (document : json) : bool :=
  match authenticate nodes document with
  | Ok (g, _) => bool_decide (graph_nodes g = nodes)
  | Err _ => false
  end.

Example gated_plan_is_authentic : is_authentic gated_nodes gated_document = true.
Proof. vm_compute. reflexivity. Qed.
Example rollout_is_authentic : is_authentic rollout_nodes rollout_document = true.
Proof. vm_compute. reflexivity. Qed.

Lemma authentic_graph nodes document : is_authentic nodes document = true →
  ∃ g document',
    validate_persisted_resolved_plan "r1" sample_commit (graph_document sample_commit [sample_target] nodes)
      (utf8_digest (graph_document sample_commit [sample_target] nodes)) (digest_of document) document 7
    = Ok (g, document') ∧ graph_nodes g = nodes.
Proof.
  unfold is_authentic, authenticate. cbv zeta.
  destruct (validate_persisted_resolved_plan _ _ _ _ _ _ _) as [[g document']|e]; [|done].
  intros H. bool_facts. eauto.
Qed.

Lemma installations_wait_for_gates_witness : ∃ i j,
  (λ n, op_kind n) <$> gated_nodes !! i = Some (operation_value WORKLOAD_STOP)
  ∧ (λ n, op_kind n) <$> gated_nodes !! j = Some (operation_value RELEASE_INSTALL) ∧ (i < j)%nat.
Proof.
  exists 0, 2. split; [reflexivity|]. split; [reflexivity|].
  destruct (authentic_graph _ _ gated_plan_is_authentic) as (g & document & E & Hg).
  apply (installations_wait_for_gates _ _ _ _ _ _ _ g document E) with
    (n := with_payload sample_stop (JObj [])) (m := with_payload sample_install (JObj []));
    rewrite ?Hg; try reflexivity.
  right. right. split; reflexivity.
Defined.

Lemma package_rollout_is_ordered_witness :
  activation_in_order rollout_nodes
    (rollout_node "chat.activate" "package.activate" ["chat.prepare"] (Some "package.rollback")).
Proof.
  destruct (authentic_graph _ _ rollout_is_authentic) as (g & document & E & Hg).
  rewrite <- Hg. apply (package_rollout_is_ordered _ _ _ _ _ _ _ g document 1 _ E); rewrite ?Hg; reflexivity.
Defined.

Definition planned (id : string) : call :=
  CPlan id 5 (sample_plan_of [sample_install; sample_gate; sample_stop]).
Definition completed_calls (id : string) : list call := planned id :: finish id 0.

Definition sample_row : Reconciliation := planned_row sample_plan None None 5.

Example sample_planned : reconciliations (after [planned "r1"] empty_tables) !! "r1" = Some sample_row.
Proof. vm_compute. reflexivity. Qed.

Definition generation_of (s : tables) (id : string) : option Z :=
  reconciliations s !! id ≫= rec_completion_generation.

Lemma generation_of_Some s id g : generation_of s id = Some g →
  ∃ r, reconciliations s !! id = Some r ∧ rec_completion_generation r = Some g.
Proof. unfold generation_of. destruct (reconciliations s !! id); [eauto|done]. Qed.

Example sample_completions :
  generation_of (after (completed_calls "r1") empty_tables) "r1" = Some 1%Z
  ∧ generation_of (after (completed_calls "r2") (after (completed_calls "r1") empty_tables)) "r2" = Some 2%Z.
Proof. vm_compute. split; reflexivity. Qed.

Lemma reconciliations_move_forward_witness :
  ∃ r', reconciliations (after (finish "r1" 0) (after [planned "r1"] empty_tables)) !! "r1" = Some r'
        ∧ row_step sample_row r'.
Proof. apply (reconciliations_move_forward (finish "r1" 0)). exact sample_planned. Defined.

Lemma completions_are_ordered_witness : ∃ r',
  reconciliations (after (completed_calls "r2") (after (completed_calls "r1") empty_tables)) !! "r2" = Some r'
  ∧ rec_status r' = "succeeded".
Proof.
  destruct (generation_of_Some _ _ _ (proj1 sample_completions)) as (r & Hr & Hg).
  destruct (generation_of_Some _ _ _ (proj2 sample_completions)) as (r' & Hr' & Hg').
  exists r'. split; [exact Hr'|].
  apply (completions_are_ordered (completed_calls "r1") (completed_calls "r2") "r1" r 1 "r2" r' 2 Hr Hg Hr' Hg').
Defined.

Lemma open_reconciliation_can_complete_witness :
  completed_at (after (finish "r1" 0) (after [planned "r1"] empty_tables)) "r1" 1.
Proof.
  apply (open_reconciliation_can_complete [planned "r1"] "r1" sample_row 0 sample_planned).
  - unfold terminal. cbn. set_solver.
  - lia.
  - reflexivity.
  - reflexivity.
Defined.

Definition create_gated (s : tables) : result OperationGraph * tables :=
  get_or_create_resolved_plan "r1" 5 (sample_plan_of gated_nodes) (digest_of gated_document) gated_document s.

Example gated_is_created : is_ok (create_gated (after [] empty_tables)).1 = true.
Proof. vm_compute. reflexivity. Qed.

Lemma plan_digest_identifies_one_plan_witness : ∃ g s',
  create_gated (after [] empty_tables) = (Ok g, s')
  ∧ ∀ j k, reconciliations (after [] s') !! j = Some k →
      rec_plan_digest k = Some (digest_of gated_document) → j = graph_reconciliation_id g.
Proof.
  pose proof gated_is_created as H.
  destruct (create_gated (after [] empty_tables)) as [[g|e] s'] eqn:E; [|discriminate H].
  exists g, s'. split; [reflexivity|]. unfold create_gated in E.
  destruct (plan_digest_identifies_one_plan [] [] "r1" 5 "r2" 6 (sample_plan_of gated_nodes)
    (digest_of gated_document) gated_document g s' E) as (r & P & _ & _ & _ & _ & _ & _ & Hunique & _).
  exact Hunique.
Defined.
