(* ===== verification/Placement.v ===== *)
(** * Placement of requirements on the fleet
    ([src/cluster_profiles/placement.py], [fleet/types.py], [fleet/loaders.py])

    [PlacementPlanner.plan] chooses the nodes of a workload requirement from the
    fleet, its topology and one observation per node. The order in which the fleet
    lists its nodes is never observed, so a fleet is a map; a mapping of strings to
    strings is the list of its items. *)

From stdpp Require Import pretty.
From S2P Require Import Prelude Identifiers Canonical Protocol.

Definition placement_error {A} (m : string) : result A := raise EPlacement m.
Definition placement_check (b : bool) (m : string) : result unit := ensure b EPlacement m.
Definition topology_check (b : bool) (m : string) : result unit := ensure b ETopologyValidation m.

(** ** Data *)

Record NodeRecord := NodeRec {
  nr_id : string; nr_display_name : string; nr_hostname : string; nr_host : string; nr_user : string; nr_port : Z;
  nr_labels : list (string * string); nr_lifecycle : string
}.

Definition lifecycles : list string :=
  ["discovered"; "installing"; "ready"; "quarantined"; "draining"; "retired"].

Record Fleet := MkFleet { fleet_schema_version : Z; fleet_nodes : gmap string NodeRecord }.

Record PlacementRequirement := Requirement {
  rq_name : string; rq_definition_hash : string; rq_node_count : Z;
  rq_required_labels : list (string * string); rq_min_memory_bytes : Z; rq_min_disk_bytes : Z;
  rq_exclusive : bool; rq_distributed : bool; rq_model_supports_distributed : bool;
  rq_preferred_node_ids : list string
}.

Record NodeObservation := Observation {
  ob_node_id : string; ob_healthy : bool; ob_memory_available_bytes : Z;
  ob_disk_available_bytes : Z; ob_occupied : bool; ob_available_for_placement : bool
}.

Record PlacementPlan := Placed {
  pp_requirement : string; pp_definition_hash : string; pp_nodes : list string;
  pp_reasons : list (string * list string); pp_input_digest : string
}.

(** ** Construction: the checks of each [__post_init__] *)

Definition value_error (b : bool) (m : string) : result unit := ensure b EValue m.
Definition nonblank_items (l : list (string * string)) : bool :=
  forallb (λ p, nonblank p.1 && nonblank p.2) l.

Definition check_node_record (n : NodeRecord) : result unit :=
  value_error (nonblank (nr_display_name n)) "node display name must not be blank";;
  value_error (nonblank (nr_hostname n)) "node hostname must not be blank";;
  value_error (nonblank (nr_host n)) "management host must not be blank";;
  value_error (nonblank (nr_user n)) "management user must not be blank";;
  value_error ((1 <=? nr_port n)%Z && (nr_port n <=? 65535)%Z)
    "management port must be between 1 and 65535";;
  value_error (among (nr_lifecycle n) lifecycles)
    ("unsupported node lifecycle: " +:+ nr_lifecycle n);;
  value_error (nonblank_items (nr_labels n)) "node label keys and values must not be blank".

Definition check_fleet (f : Fleet) : result unit :=
  value_error (fleet_schema_version f =? 2)%Z
    ("unsupported fleet schema version: " +:+ pretty (fleet_schema_version f));;
  let nodes := map_to_list (fleet_nodes f) in
  value_error (nonempty nodes) "fleet must contain at least one node";;
  value_error (forallb (λ p, eqb p.1 (nr_id p.2)) nodes) "fleet node key must match the node record id";;
  value_error (distinct ((λ p, nr_display_name p.2) <$> nodes)) "fleet node display names must be unique".

Definition check_requirement (r : PlacementRequirement) : result unit :=
  placement_check (nonblank (rq_name r) && is_digest (rq_definition_hash r))
    "requirement name and definition hash are required";;
  placement_check ((1 <=? rq_node_count r)%Z && (0 <=? rq_min_memory_bytes r)%Z
                   && (0 <=? rq_min_disk_bytes r)%Z) "placement counts and capacities are invalid";;
  placement_check (eqb (rq_distributed r) (1 <? rq_node_count r)%Z)
    "distributed must exactly match a multi-node requirement";;
  placement_check (nonblank_items (rq_required_labels r)) "required labels must be nonblank";;
  placement_check (distinct (rq_preferred_node_ids r)) "preferred node IDs must be unique".

Definition check_observation (o : NodeObservation) : result unit :=
  placement_check ((0 <=? ob_memory_available_bytes o)%Z && (0 <=? ob_disk_available_bytes o)%Z)
    "observed capacity cannot be negative".

(** ** Topologies *)

(** [str(value)] of a hashable JSON value. *)
Definition py_str (v : json) : string :=
  match v with
  | JNull => "None" | JBool true => "True" | JBool false => "False"
  | JInt z => pretty z | JStr s => s | _ => ""
  end.

Definition py_in (v : json) (l : list json) : bool := existsb (py_eqb v) l.

Definition unhashable : string := "unhashable type".

Definition check_endpoint (nodes : list json) (link_id endpoint : json) : result unit :=
  match endpoint with
  | JObj e =>
      let node_id := field e "node_id" in
      ensure (hashable node_id) EType unhashable;;
      topology_check (py_in node_id nodes)
        ("link " +:+ py_str link_id +:+ " references unknown node " +:+ py_str node_id)
  | _ => topology_check false ("link " +:+ py_str link_id +:+ " endpoint must be an object")
  end.

Fixpoint check_links (nodes seen links : list json) : result unit :=
  match links with
  | [] => mret ()
  | JObj link :: links =>
      let link_id := field link "id" in
      ensure (hashable link_id) EType unhashable;;
      topology_check (negb (py_in link_id seen)) ("duplicate link id: " +:+ py_str link_id);;
      match field link "endpoints" with
      | JArr endpoints => each (check_endpoint nodes link_id) endpoints
      | _ => topology_check false ("link " +:+ py_str link_id +:+ " endpoints must be a sequence")
      end;;
      check_links nodes (link_id :: seen) links
  | _ => topology_check false "topology link must be an object"
  end.

Definition array_of (v : json) : option (list json) :=
  match v with JArr l => Some l | _ => None end.

Definition validate_topology_references (topology : list (string * json)) : result unit :=
  match array_of (field topology "nodes"), array_of (field topology "links") with
  | None, _ => topology_check false "topology nodes must be a sequence"
  | Some _, None => topology_check false "topology links must be a sequence"
  | Some nodes, Some links =>
      ensure (forallb hashable nodes) EType unhashable;;
      check_links nodes [] links
  end.

(** [bool(value)]. *)
Definition truthy (v : json) : bool :=
  match v with
  | JNull => false | JBool b => b | JInt z => negb (z =? 0)%Z | JStr s => negb (eqb s "")
  | JArr l => nonempty l | JObj l => nonempty l
  end.

Definition endpoint_node (endpoint : json) : json :=
  match endpoint with JObj e => field e "node_id" | _ => JNull end.

(** The endpoints of a link include all [required] nodes. *)
Definition links_all (required : list string) (link : list (string * json)) : bool :=
  let linked := endpoint_node <$> default [] (array_of (field link "endpoints")) in
  forallb (λ n, py_in (JStr n) linked) required.

(** The first accepted RDMA link over all [required] nodes decides; the kind of an
    accepted link must be hashable. *)
Fixpoint accepted_link (required : list string) (links : list json) : result bool :=
  match links with
  | [] => mret false
  | JObj link :: links =>
      if truthy (field link "accepted") then
        ensure (hashable (field link "kind")) EType unhashable;;
        if is_str (λ k, among k ["direct-rdma"; "switched-rdma"]) (field link "kind")
           && links_all required link
        then mret true else accepted_link required links
      else accepted_link required links
  | _ :: links => accepted_link required links
  end.

Definition accepted_group (nodes : list string) (topology : list (string * json)) : result bool :=
  accepted_link nodes (default [] (array_of (field topology "links"))).

(** ** Eligibility *)

Definition rejections (r : PlacementRequirement) (n : NodeRecord) (o : NodeObservation) : list string :=
  (if eqb (nr_lifecycle n) "ready" then [] else ["lifecycle:" +:+ nr_lifecycle n])
  ++ (if ob_available_for_placement o then [] else ["unavailable"])
  ++ (if ob_healthy o then [] else ["unhealthy"])
  ++ (if (ob_memory_available_bytes o <? rq_min_memory_bytes r)%Z then ["memory"] else [])
  ++ (if (ob_disk_available_bytes o <? rq_min_disk_bytes r)%Z then ["disk"] else [])
  ++ (if rq_exclusive r && ob_occupied o then ["occupied"] else [])
  ++ (if existsb (λ p, negb (eqb (lookup_key (nr_labels n) p.1) (Some p.2))) (rq_required_labels r)
      then ["labels"] else []).

(** [preferences.get(node, len(preferences))]. *)
Fixpoint rank_of (preferred : list string) (node : string) : nat :=
  match preferred with
  | [] => 0
  | p :: preferred => if eqb p node then 0 else S (rank_of preferred node)
  end.

Definition preferred_le (preferred : list string) (a b : string) : Prop :=
  (rank_of preferred a < rank_of preferred b)%nat
  ∨ rank_of preferred a = rank_of preferred b ∧ String.le a b.

#[export] Instance preferred_le_dec preferred : RelDecision (preferred_le preferred).
Proof. intros a b. unfold preferred_le. apply _. Defined.

Fixpoint index_observations (l : list NodeObservation) (observed : gmap string NodeObservation)
    : result (gmap string NodeObservation) :=
  match l with
  | [] => mret observed
  | o :: l =>
      placement_check (is_None_b (observed !! ob_node_id o)) "duplicate node observation";;
      index_observations l (<[ob_node_id o := o]> observed)
  end.

Definition check_preference (f : Fleet) (text : string) : result unit :=
  placement_check (is_node_id text) "preferred node ID is invalid";;
  placement_check (is_Some_b (fleet_nodes f !! text)) "preferred node is not in the fleet".

(** Each node of the fleet with its observation. *)
Definition candidates (f : Fleet) (observed : gmap string NodeObservation)
    : list (string * (NodeRecord * NodeObservation)) :=
  map_to_list (map_zip (fleet_nodes f) observed).

Definition eligible_nodes (r : PlacementRequirement) (f : Fleet) (observed : gmap string NodeObservation)
    : list string :=
  (filter (λ c, rejections r c.2.1 c.2.2 = []) (candidates f observed)).*1.

Definition reason_of (r : PlacementRequirement) (selected : list string)
    (c : string * (NodeRecord * NodeObservation)) : string * list string :=
  (c.1, if among c.1 selected then ["selected"]
        else if nonempty (rejections r c.2.1 c.2.2) then rejections r c.2.1 c.2.2
        else ["eligible"]).

(** ** The input digest *)

Definition string_map (l : list (string * string)) : json := JObj ((λ p, (p.1, JStr p.2)) <$> l).

Definition requirement_doc (r : PlacementRequirement) : json :=
  JObj [("name", JStr (rq_name r)); ("definition_hash", JStr (rq_definition_hash r));
        ("node_count", JInt (rq_node_count r)); ("min_memory_bytes", JInt (rq_min_memory_bytes r));
        ("min_disk_bytes", JInt (rq_min_disk_bytes r)); ("exclusive", JBool (rq_exclusive r));
        ("distributed", JBool (rq_distributed r));
        ("model_supports_distributed", JBool (rq_model_supports_distributed r));
        ("required_labels", string_map (rq_required_labels r));
        ("preferred_node_ids", JArr (map JStr (rq_preferred_node_ids r)))].

Definition observation_doc (o : NodeObservation) : json :=
  JObj [("node_id", JStr (ob_node_id o)); ("healthy", JBool (ob_healthy o));
        ("memory_available_bytes", JInt (ob_memory_available_bytes o));
        ("disk_available_bytes", JInt (ob_disk_available_bytes o)); ("occupied", JBool (ob_occupied o));
        ("available_for_placement", JBool (ob_available_for_placement o))].

Definition fleet_doc (p : string * NodeRecord) : json :=
  JObj [("id", JStr p.1); ("lifecycle", JStr (nr_lifecycle p.2));
        ("labels", string_map (merge_sort key_le (nr_labels p.2)))].

Definition by_key {A} (m : gmap string A) : list (string * A) := merge_sort key_le (map_to_list m).

Definition placement_digest (r : PlacementRequirement) (f : Fleet) (topology : list (string * json))
    (observed : gmap string NodeObservation) : string :=
  document_digest (JObj
    [("requirement", requirement_doc r); ("fleet", JArr (map fleet_doc (by_key (fleet_nodes f))));
     ("topology", JObj topology);
     ("observations", JArr (map (λ p, observation_doc p.2) (by_key observed)))]).

(** ** Planning *)

(** [except TopologyValidationError as error: raise PlacementError(str(error))]. *)
Definition as_placement_error {A} (r : result A) : result A :=
  match r with
  | Err (Exn ETopologyValidation m) => placement_error m
  | _ => r
  end.

Definition covers_fleet (f : Fleet) (nodes : list json) : bool :=
  forallb (is_str (λ n, is_Some_b (fleet_nodes f !! n))) nodes
  && forallb (λ p, py_in (JStr p.1) nodes) (map_to_list (fleet_nodes f)).

Definition plan_placement (r : PlacementRequirement) (f : Fleet) (topology : list (string * json))
    (observations : list NodeObservation) : result PlacementPlan :=
  placement_check (negb (rq_distributed r) || rq_model_supports_distributed r)
    "model definition does not support distributed placement";;
  as_placement_error (validate_topology_references topology);;
  placement_check (covers_fleet f (default [] (array_of (field topology "nodes"))))
    "topology nodes must exactly match the fleet";;
  observed ← index_observations observations ∅;
  placement_check (eqb (dom observed) (dom (fleet_nodes f) :> gset string))
    "observations must exactly cover the fleet";;
  each (check_preference f) (rq_preferred_node_ids r);;
  let eligible := merge_sort (preferred_le (rq_preferred_node_ids r)) (eligible_nodes r f observed) in
  placement_check (rq_node_count r <=? Z.of_nat (length eligible))%Z
    "insufficient eligible nodes for requirement";;
  let selected := take (Z.to_nat (rq_node_count r)) eligible in
  (if rq_distributed r then
     accepted ← accepted_group selected topology;
     placement_check accepted "distributed placement requires accepted topology"
   else mret ());;
  mret (Placed (rq_name r) (rq_definition_hash r) selected
          (merge_sort key_le (reason_of r selected <$> candidates f observed))
          (placement_digest r f topology observed)).

(** ** The order of preference *)

Section preference.
Context (preferred : list string).

#[export] Instance preferred_le_refl : Reflexive (preferred_le preferred).
Proof. intros a. right. split; [done|reflexivity]. Qed.

#[export] Instance preferred_le_trans : Transitive (preferred_le preferred).
Proof.
  intros a b c [?|[E1 ?]] [?|[E2 ?]]; unfold preferred_le; [left; lia..|].
  right. split; [lia|by etrans].
Qed.

#[export] Instance preferred_le_total : Total (preferred_le preferred).
Proof.
  intros a b. unfold preferred_le.
  destruct (lt_eq_lt_dec (rank_of preferred a) (rank_of preferred b)) as [[?|E]|?]; [by left; left| |by right; left].
  destruct (total String.le a b); [left|right]; right; split; congruence.
Qed.
End preference.

(** What is taken from a sorted list comes before what is left. *)
Lemma sorted_take {A} (R : relation A) `{!Transitive R} n l a b :
  Sorted R l → a ∈ take n l → b ∈ drop n l → R a b.
Proof.
  intros Hs%Sorted_StronglySorted Ha Hb; [|done]. revert n Ha Hb.
  induction Hs as [|x l Hs IH Hx]; intros n Ha Hb; [by rewrite take_nil in Ha; apply elem_of_nil in Ha|].
  destruct n as [|n]; [by apply elem_of_nil in Ha|]. cbn in *.
  apply elem_of_cons in Ha as [->|Ha]; [|by eapply IH].
  rewrite Forall_forall in Hx. apply Hx. apply list_elem_of_In. apply list_elem_of_In in Hb.
  rewrite <- (take_drop n l). apply in_or_app. by right.
Qed.

(** ** Eligible nodes *)

(** What a requirement asks of a node. *)
Definition acceptable (r : PlacementRequirement) (n : NodeRecord) (o : NodeObservation) : Prop :=
  nr_lifecycle n = "ready" ∧ ob_available_for_placement o = true ∧ ob_healthy o = true
  ∧ (rq_min_memory_bytes r ≤ ob_memory_available_bytes o)%Z
  ∧ (rq_min_disk_bytes r ≤ ob_disk_available_bytes o)%Z
  ∧ (rq_exclusive r = true → ob_occupied o = false)
  ∧ Forall (λ p, lookup_key (nr_labels n) p.1 = Some p.2) (rq_required_labels r).

Definition eligible (r : PlacementRequirement) (f : Fleet) (observed : gmap string NodeObservation)
    (id : string) : Prop :=
  ∃ n o, fleet_nodes f !! id = Some n ∧ observed !! id = Some o ∧ acceptable r n o.

Lemma app_nil_iff {A} (l k : list A) : l ++ k = [] ↔ l = [] ∧ k = [].
Proof. destruct l; naive_solver. Qed.

Lemma flag_nil (b : bool) (s : string) : (if b then [s] else []) = [] ↔ b = false.
Proof. by destruct b. Qed.

Lemma flag_nil' (b : bool) (s : string) : (if b then [] else [s]) = [] ↔ b = true.
Proof. by destruct b. Qed.

Lemma rejections_nil r n o : rejections r n o = [] ↔ acceptable r n o.
Proof.
  unfold rejections, acceptable. rewrite !app_nil_iff, !flag_nil, !flag_nil', eqb_true, !Z.ltb_ge.
  assert (existsb (λ p, negb (eqb (lookup_key (nr_labels n) p.1) (Some p.2))) (rq_required_labels r) = false
          ↔ Forall (λ p, lookup_key (nr_labels n) p.1 = Some p.2) (rq_required_labels r)) as ->.
  { rewrite <- not_true_iff_false, existsb_exists, Forall_forall. split.
    - intros H p Hp. destruct (decide (lookup_key (nr_labels n) p.1 = Some p.2)) as [|Hne]; [done|].
      destruct H. exists p. rewrite <- list_elem_of_In. split; [done|].
      by rewrite (proj2 (eqb_false _ _) Hne).
    - intros H (p & Hp%list_elem_of_In & Hne). rewrite (H p Hp), eqb_refl in Hne. done. }
  destruct (rq_exclusive r), (ob_occupied o); cbn; intuition congruence.
Qed.

Lemma eligible_nodes_spec r f observed id :
  id ∈ eligible_nodes r f observed ↔ eligible r f observed id.
Proof.
  unfold eligible_nodes, eligible, candidates. rewrite list_elem_of_fmap.
  setoid_rewrite list_elem_of_filter. setoid_rewrite rejections_nil. split.
  - intros ([i [n o]] & -> & Hacc & Hin%elem_of_map_to_list). cbn in *.
    apply map_lookup_zip_with_Some in Hin as (? & ? & [= <- <-] & ? & ?). eauto.
  - intros (n & o & Hn & Ho & Hacc). exists (id, (n, o)). split_and!; [done|done|].
    apply elem_of_map_to_list, map_lookup_zip_with_Some. eauto.
Qed.

Lemma eligible_nodes_nodup r f observed : NoDup (eligible_nodes r f observed).
Proof.
  unfold eligible_nodes. apply NoDup_fmap_fst; [|apply NoDup_filter, NoDup_map_to_list].
  intros x a b. rewrite !list_elem_of_filter. intros [_ Ha%elem_of_map_to_list] [_ Hb%elem_of_map_to_list].
  congruence.
Qed.

(** ** Observations *)

Definition observation_map (l : list NodeObservation) : gmap string NodeObservation :=
  list_to_map ((λ o, (ob_node_id o, o)) <$> l).

Lemma observation_keys l : ((λ o, (ob_node_id o, o)) <$> l).*1 = ob_node_id <$> l.
Proof. by rewrite <- list_fmap_compose. Qed.

Definition duplicate_observation : exn := Exn EPlacement "duplicate node observation".

Lemma index_observations_cases l : ∀ m,
  (NoDup (ob_node_id <$> l) ∧ Forall (λ o, m !! ob_node_id o = None) l
   ∧ index_observations l m = Ok (observation_map l ∪ m))
  ∨ (¬ (NoDup (ob_node_id <$> l) ∧ Forall (λ o, m !! ob_node_id o = None) l)
     ∧ index_observations l m = Err duplicate_observation).
Proof.
  induction l as [|o l IH]; intros m; cbn [index_observations fmap list_fmap].
  - left. unfold observation_map. cbn. rewrite map_empty_union. split_and!; [constructor|constructor|done].
  - rewrite NoDup_cons, Forall_cons. unfold placement_check.
    destruct (m !! ob_node_id o) as [x|] eqn:Ho; cbn [is_None_b ensure mbind result_bind].
    { right. split; [|done]. intros (_ & ? & _). done. }
    destruct (IH (<[ob_node_id o := o]> m)) as [(Hnd & Hm & E)|(Hbad & E)]; rewrite E.
    + assert (ob_node_id o ∉ ob_node_id <$> l) as Hnin.
      { intros (k & Hk & Hin)%list_elem_of_fmap. rewrite Forall_forall in Hm. specialize (Hm k Hin).
        by rewrite <- Hk, lookup_insert_eq in Hm. }
      left. split_and!; try done.
      * eapply Forall_impl; [exact Hm|]. cbn. intros k Hk. by apply lookup_insert_None in Hk as [? _].
      * f_equal. unfold observation_map. rewrite fmap_cons, list_to_map_cons. cbn [fst snd].
        rewrite <- insert_union_r; [by rewrite insert_union_l|].
        apply not_elem_of_list_to_map_1. by rewrite observation_keys.
    + right. split; [|done]. intros ([Hnin Hnd] & _ & Hm). apply Hbad. split; [done|].
      rewrite Forall_forall in Hm |- *. intros k Hk. apply lookup_insert_None. split; [by apply Hm|].
      intros Ek. apply Hnin. rewrite Ek. by apply list_elem_of_fmap_2.
Qed.

Lemma index_observations_perm l k :
  l ≡ₚ k → index_observations l ∅ = index_observations k ∅.
Proof.
  intros Hp.
  assert (∀ j : list NodeObservation, Forall (λ o, (∅ : gmap string NodeObservation) !! ob_node_id o = None) j)
    as Hempty by (intros j; apply Forall_forall; intros o _; apply lookup_empty).
  destruct (index_observations_cases l ∅) as [(Hnd & _ & ->)|(Hl & ->)],
    (index_observations_cases k ∅) as [(Hnd' & _ & ->)|(Hk & ->)]; [| | |done].
  - do 2 f_equal. apply list_to_map_proper; [by rewrite observation_keys|]. by rewrite Hp.
  - destruct Hk. split; [by rewrite <- Hp|done].
  - destruct Hl. split; [by rewrite Hp|done].
Qed.

(** ** Accepted links *)

Lemma accepted_link_true required links :
  accepted_link required links = Ok true →
  ∃ link, JObj link ∈ links ∧ truthy (field link "accepted") = true
    ∧ field link "kind" ∈ [JStr "direct-rdma"; JStr "switched-rdma"]
    ∧ ∀ n, n ∈ required → ∃ endpoint, endpoint ∈ default [] (array_of (field link "endpoints"))
        ∧ py_eqb (JStr n) (endpoint_node endpoint) = true.
Proof.
  induction links as [|link links IH]; cbn; [done|].
  assert (accepted_link required links = Ok true →
    ∃ l, JObj l ∈ link :: links ∧ truthy (field l "accepted") = true
      ∧ field l "kind" ∈ [JStr "direct-rdma"; JStr "switched-rdma"]
      ∧ ∀ n, n ∈ required → ∃ endpoint, endpoint ∈ default [] (array_of (field l "endpoints"))
          ∧ py_eqb (JStr n) (endpoint_node endpoint) = true) as Hrest.
  { intros (l & ? & ?)%IH. exists l. split; [by right|done]. }
  destruct link as [| | | | |link]; try exact Hrest.
  destruct (truthy (field link "accepted")) eqn:Ha; [|exact Hrest].
  intros H. inv_run_all.
  destruct (is_str (λ k, among k ["direct-rdma"; "switched-rdma"]) (field link "kind")) eqn:Hkind,
    (links_all required link) eqn:Hall; cbn in H; try by apply Hrest.
  exists link. split_and!; [by left|done| |].
  - destruct (field link "kind"); try discriminate Hkind. cbn in Hkind. bool_facts. set_solver.
  - intros n Hn. unfold links_all in Hall. bool_facts.
    specialize (Hall n (proj1 (list_elem_of_In _ _) Hn)). apply existsb_exists in Hall as (v & Hv & E).
    apply list_elem_of_In, list_elem_of_fmap in Hv as (endpoint & -> & ?). eauto.
Qed.

(** ** Theorems *)

(** The observations of a plan, one per node. *)
Definition observed_by (l : list NodeObservation) (f : Fleet) (observed : gmap string NodeObservation) : Prop :=
  index_observations l ∅ = Ok observed ∧ dom observed = (dom (fleet_nodes f) :> gset string).

Lemma plan_placement_ok r f topology observations p :
  plan_placement r f topology observations = Ok p →
  ∃ observed, observed_by observations f observed
    ∧ (rq_node_count r ≤ Z.of_nat (length (eligible_nodes r f observed)))%Z
    ∧ pp_nodes p = take (Z.to_nat (rq_node_count r))
        (merge_sort (preferred_le (rq_preferred_node_ids r)) (eligible_nodes r f observed))
    ∧ (rq_distributed r = true → rq_model_supports_distributed r = true
         ∧ accepted_group (pp_nodes p) topology = Ok true)
    ∧ pp_reasons p = merge_sort key_le (reason_of r (pp_nodes p) <$> candidates f observed).
Proof.
  unfold plan_placement, placement_check. intros H. inv_run_all. subst p. cbn [pp_nodes pp_reasons].
  bool_facts. eexists. split; [by split|].
  split; [by rewrite (merge_sort_Permutation _ (eligible_nodes _ _ _)) in * |].
  split; [done|]. split; [|done]. intros Hd.
  rewrite Hd in *. cbn in *. inv_run_all. subst. done.
Qed.

(** The nodes that were eligible but not chosen. *)
Lemma selection_split r f observed n b :
  eligible r f observed b →
  b ∉ take n (merge_sort (preferred_le (rq_preferred_node_ids r)) (eligible_nodes r f observed)) →
  b ∈ drop n (merge_sort (preferred_le (rq_preferred_node_ids r)) (eligible_nodes r f observed)).
Proof.
  intros Hb Hn. apply eligible_nodes_spec in Hb.
  rewrite <- (merge_sort_Permutation (preferred_le (rq_preferred_node_ids r))) in Hb.
  rewrite <- (take_drop n (merge_sort _ _)), elem_of_app in Hb. naive_solver.
Qed.

(** C38. A placement of a well-formed requirement has exactly the number of nodes
    asked for, all distinct; each is a node of the fleet that meets every condition
    of the requirement; no eligible node that was left out is preferred to one that
    was chosen; and a distributed placement lies within one accepted RDMA link. *)
Theorem placement_is_sound_and_preferred r f topology observations p :
  check_requirement r = Ok () → plan_placement r f topology observations = Ok p →
  ∃ observed, observed_by observations f observed
    ∧ Z.of_nat (length (pp_nodes p)) = rq_node_count r ∧ NoDup (pp_nodes p)
    ∧ (∀ n, n ∈ pp_nodes p → eligible r f observed n)
    ∧ (∀ a b, a ∈ pp_nodes p → eligible r f observed b → b ∉ pp_nodes p →
         preferred_le (rq_preferred_node_ids r) a b)
    ∧ (rq_distributed r = true →
       ∃ link, JObj link ∈ default [] (array_of (field topology "links"))
         ∧ truthy (field link "accepted") = true
         ∧ ∀ n, n ∈ pp_nodes p → ∃ endpoint, endpoint ∈ default [] (array_of (field link "endpoints"))
             ∧ py_eqb (JStr n) (endpoint_node endpoint) = true).
Proof.
  intros Hr Hp. unfold check_requirement, placement_check in Hr. inv_run_all. bool_facts.
  destruct (plan_placement_ok _ _ _ _ _ Hp) as (observed & Hobs & Hcount & Hnodes & Hdist & _).
  set (sorted := merge_sort (preferred_le (rq_preferred_node_ids r)) (eligible_nodes r f observed)) in *.
  assert (sorted ≡ₚ eligible_nodes r f observed) as Hperm by apply merge_sort_Permutation.
  exists observed. split_and!; [done|..].
  - rewrite Hnodes, length_take, Hperm. lia.
  - rewrite Hnodes. eapply sublist_NoDup; [|apply sublist_take]. rewrite Hperm. apply eligible_nodes_nodup.
  - intros n Hn. apply eligible_nodes_spec. rewrite <- Hperm. rewrite Hnodes in Hn.
    by eapply elem_of_submseteq; [|apply submseteq_take].
  - intros a b Ha Hb Hnb. rewrite Hnodes in Ha, Hnb.
    eapply (sorted_take _ (Z.to_nat (rq_node_count r)) sorted).
    + apply Sorted_merge_sort. apply _.
    + done.
    + by apply selection_split.
  - intros [_ Hacc]%Hdist. apply accepted_link_true in Hacc as (link & ? & ? & _ & ?). eauto.
Qed.

(** A placement depends on the set of observations, not on their order: the
    plan, its reasons and its digest, or the error, are the same. *)
Theorem placement_ignores_observation_order r f topology observations observations' :
  observations ≡ₚ observations' →
  plan_placement r f topology observations = plan_placement r f topology observations'.
Proof.
  intros Hp. unfold plan_placement. by rewrite (index_observations_perm _ _ Hp).
Qed.

(** A single-node requirement is placed whenever the inputs are consistent and
    some node is eligible: with a valid topology over the fleet, one observation
    per node and preferences within the fleet, the planner returns a placement, and
    it fails for want of nodes only if no node is eligible. *)
Theorem eligible_node_is_placed r f topology observations observed :
  rq_distributed r = false → rq_node_count r = 1%Z →
  validate_topology_references topology = Ok () →
  covers_fleet f (default [] (array_of (field topology "nodes"))) = true →
  observed_by observations f observed →
  Forall (λ t, is_node_id t = true ∧ is_Some (fleet_nodes f !! t)) (rq_preferred_node_ids r) →
  ((∃ n, eligible r f observed n) → ∃ p, plan_placement r f topology observations = Ok p)
  ∧ ((∀ n, ¬ eligible r f observed n) →
     plan_placement r f topology observations = placement_error "insufficient eligible nodes for requirement").
Proof.
  intros Hdist Hcount Htopo Hcover [Hindex Hdom] Hpref.
  assert (each (check_preference f) (rq_preferred_node_ids r) = Ok ()) as Heach.
  { apply each_ok. eapply Forall_impl; [exact Hpref|]. cbn. intros t [Ht [n Hn]].
    unfold check_preference, placement_check. by rewrite Ht, Hn. }
  unfold plan_placement, placement_check. rewrite Hdist, Htopo, Hcover, Hindex. cbn [orb negb ensure mbind result_bind as_placement_error].
  rewrite (proj2 (eqb_true _ _) Hdom), Heach. cbn [ensure mbind result_bind].
  rewrite (Permutation_length (merge_sort_Permutation (preferred_le (rq_preferred_node_ids r)) (eligible_nodes r f observed))), Hcount.
  split.
  - intros [n Hn%eligible_nodes_spec]. destruct (eligible_nodes r f observed) as [|m l]; [by apply elem_of_nil in Hn|].
    eexists. cbn [length].
    replace (1 <=? Z.of_nat (S (length l)))%Z with true by (symmetry; apply Z.leb_le; lia). reflexivity.
  - intros Hnone. destruct (eligible_nodes r f observed) as [|n l] eqn:E; [done|].
    destruct (Hnone n). apply eligible_nodes_spec. rewrite E. by left.
Qed.

(** ** Examples *)

Definition node_a : string := "spk_aaaaaaaaaaaaaaaaaaaaaaaaaaaaaaaa".
Definition node_b : string := "spk_bbbbbbbbbbbbbbbbbbbbbbbbbbbbbbbb".
Definition sample_record (id name : string) : NodeRecord :=
  NodeRec id name name name "forge" 22 [("gpu", "gb10")] "ready".
Definition sample_fleet : Fleet :=
  MkFleet 2 {[node_a := sample_record node_a "a"; node_b := sample_record node_b "b"]}.
Definition sample_topology : list (string * json) :=
  [("nodes", JArr [JStr node_b; JStr node_a]);
   ("links", JArr [JObj [("id", JStr "l1"); ("accepted", JBool true); ("kind", JStr "direct-rdma");
      ("endpoints", JArr [JObj [("node_id", JStr node_a)]; JObj [("node_id", JStr node_b)]])]])].
Definition sample_observations : list NodeObservation :=
  [Observation node_a true 128 1000 false true; Observation node_b true 128 1000 false true].
Definition sample_requirement (count : Z) : PlacementRequirement :=
  Requirement "chat" "e3b0c44298fc1c149afbf4c8996fb92427ae41e4649b934ca495991b7852b855" count
    [("gpu", "gb10")] 64 10 true (1 <? count)%Z true [node_b].

Definition placed_nodes (count : Z) (observations : list NodeObservation) : option (list string) :=
  match plan_placement (sample_requirement count) sample_fleet sample_topology observations with
  | Ok p => Some (pp_nodes p)
  | Err _ => None
  end.

Example preferred_node_first : placed_nodes 1 sample_observations = Some [node_b].
Proof. vm_compute. reflexivity. Qed.
Example both_nodes : placed_nodes 2 sample_observations = Some [node_b; node_a].
Proof. vm_compute. reflexivity. Qed.

Lemma placed_nodes_Some count observations l :
  placed_nodes count observations = Some l →
  ∃ p, plan_placement (sample_requirement count) sample_fleet sample_topology observations = Ok p
       ∧ pp_nodes p = l.
Proof. unfold placed_nodes. case_match; [intros [= <-]; eauto|done]. Qed.

Lemma placement_is_sound_and_preferred_witness :
  ∃ observed, observed_by sample_observations sample_fleet observed
    ∧ ∀ n, n ∈ [node_b; node_a] → eligible (sample_requirement 2) sample_fleet observed n.
Proof.
  destruct (placed_nodes_Some _ _ _ both_nodes) as (p & Hp & Hnodes).
  destruct (placement_is_sound_and_preferred (sample_requirement 2) sample_fleet sample_topology
    sample_observations p ltac:(vm_compute; reflexivity) Hp) as (observed & Hobs & _ & _ & Hel & _).
  exists observed. split; [exact Hobs|]. rewrite <- Hnodes. exact Hel.
Defined.

Lemma placement_ignores_observation_order_witness :
  plan_placement (sample_requirement 1) sample_fleet sample_topology sample_observations
  = plan_placement (sample_requirement 1) sample_fleet sample_topology (rev sample_observations).
Proof. apply (placement_ignores_observation_order). apply Permutation_swap. Defined.

Lemma eligible_node_is_placed_witness :
  ∃ p, plan_placement (sample_requirement 1) sample_fleet sample_topology sample_observations = Ok p.
Proof.
  assert (observed_by sample_observations sample_fleet (observation_map sample_observations)) as Hobs.
  { split.
    - destruct (index_observations_cases sample_observations ∅) as [(_ & _ & E)|(H & _)].
      + rewrite E, map_union_empty. reflexivity.
      + destruct H. split; [|by repeat constructor]. apply (bool_decide_eq_true_1 _). vm_compute. reflexivity.
    - apply (bool_decide_eq_true_1 _). vm_compute. reflexivity. }
  destruct (eligible_node_is_placed (sample_requirement 1) sample_fleet sample_topology sample_observations
    (observation_map sample_observations)) as [H _]; try (vm_compute; reflexivity); [exact Hobs| |].
  - repeat constructor. eexists. vm_compute. reflexivity.
  - apply H. exists node_a, (sample_record node_a "a"), (Observation node_a true 128 1000 false true).
    split; [vm_compute; reflexivity|]. split; [vm_compute; reflexivity|].
    split_and!; try done. by repeat constructor.
Defined.
