(* ===== verification/Jobs.v ===== *)
(** * The durable job queue
    ([control/src/vonk_control/jobs.py], [models.py])

    [JobService] over the tables [jobs] and [job_attempts]: a worker claims a job
    for a lease, keeps it with heartbeats and finishes it; a claim of an expired
    lease fences the previous attempt off.

    Attempts are kept by their fence, which is unique. Times are microseconds; an
    operation that reads the clock several times takes each reading. [locked] are
    the rows other transactions hold, which [FOR UPDATE SKIP LOCKED] passes over.
    [redact_text], the scrubber of operator-visible text, is a parameter: nothing
    but the status reason depends on it. *)

From S2P Require Import Prelude Identifiers Canonical Protocol.

(** ** Tables *)

Record Job := MkJob {
  job_request_id : string; job_kind : string; job_state : string; job_actor : string;
  job_base_commit : string; job_targets : list string; job_payload_digest : string;
  job_payload : json; job_result : option json; job_status_reason : option string;
  job_current_attempt : Z; job_created_at : Z; job_updated_at : Z;
  job_reconciliation_id : option string
}.

Record JobAttempt := MkAttempt {
  att_job_id : string; att_attempt : Z; att_worker_id : string; att_lease_deadline : Z;
  att_state : string
}.

Record queue := Queue {
  jobs : gmap string Job;
  attempts : gmap string JobAttempt;
  known_reconciliations : gset string
}.

Record AttemptFence := Fence {
  af_job_id : string; af_attempt : Z; af_fence : string; af_worker_id : string;
  af_lease_deadline : Z; af_kind : string; af_payload : json; af_base_commit : string;
  af_targets : list string
}.

Definition set_jobs (f : gmap string Job → gmap string Job) (s : queue) : queue :=
  Queue (f (jobs s)) (attempts s) (known_reconciliations s).
Definition set_attempts (f : gmap string JobAttempt → gmap string JobAttempt) (s : queue) : queue :=
  Queue (jobs s) (f (attempts s)) (known_reconciliations s).

Definition with_attempt_state (state : string) (a : JobAttempt) : JobAttempt :=
  MkAttempt (att_job_id a) (att_attempt a) (att_worker_id a) (att_lease_deadline a) state.
Definition with_deadline (deadline : Z) (a : JobAttempt) : JobAttempt :=
  MkAttempt (att_job_id a) (att_attempt a) (att_worker_id a) deadline (att_state a).

Definition with_job (j : Job) (state : string) (result : option json) (reason : option string)
    (attempt now : Z) : Job :=
  MkJob (job_request_id j) (job_kind j) state (job_actor j) (job_base_commit j) (job_targets j)
    (job_payload_digest j) (job_payload j) result reason attempt (job_created_at j) now
    (job_reconciliation_id j).

(** ** Payloads *)

Definition sensitive (key : string) : bool :=
  search (λ s, String.prefix "password" s || String.prefix "secret" s || String.prefix "token" s
               || private_key_at s || String.prefix "authorization" s) (lower key).

Definition route_fields : list string :=
  ["workload_id"; "nodes"; "entrypoint_node_id"; "scheme"; "port"; "path"; "quota"; "quota_digest"].

(** The conditions on a route before its quota, in their order: [set(nodes)] and
    the membership of [scheme] need hashable values. *)
Definition route_shape (route : list (string * json)) : result bool :=
  if negb (same_keys route route_fields && is_str (λ _, true) (field route "workload_id")) then mret false else
  match field route "nodes" with
  | JArr ((_ :: _) as nodes) =>
      ensure (forallb hashable nodes) EType "unhashable type";;
      if negb (distinct (py_norm <$> nodes) && forallb (is_str (λ _, true)) nodes
               && existsb (py_eqb (field route "entrypoint_node_id")) nodes) then mret false else
      ensure (hashable (field route "scheme")) EType "unhashable type";;
      mret (is_str (λ s, among s ["http"; "https"]) (field route "scheme")
            && is_int (λ n, (1 <=? n)%Z && (n <=? 65535)%Z) (field route "port")
            && is_str (String.prefix "/") (field route "path")
            && is_object (λ q, same_keys q ["requests_per_minute"; "tokens_per_minute"])
                 (field route "quota"))
  | _ => mret false
  end.

Definition quota_ok (route : list (string * json)) : bool :=
  is_object (λ q,
      is_int (λ n, (1 <=? n)%Z && (n <=? 100000)%Z) (field q "requests_per_minute")
      && is_int (λ n, (1 <=? n)%Z && (n <=? 100000000)%Z) (field q "tokens_per_minute"))
    (field route "quota")
  && py_eqb (field route "quota_digest") (JStr (document_digest (field route "quota"))).

Fixpoint quota_paths (routes : list (string * json)) : result (list (list string)) :=
  match routes with
  | [] => mret []
  | (alias, JObj route) :: routes =>
      shape ← route_shape route;
      rest ← quota_paths routes;
      mret (if shape && quota_ok route then ["routes"; alias; "quota"; "tokens_per_minute"] :: rest else rest)
  | _ :: routes => quota_paths routes
  end.

Definition validated_quota_fields (kind : option string) (payload : list (string * json))
    : result (list (list string)) :=
  if negb (eqb kind (Some "reconcile")) then mret [] else
  match field payload "routes" with
  | JObj routes => quota_paths routes
  | _ => mret []
  end.

Definition sensitive_field : string := "job payload contains a sensitive field".

Fixpoint inspect_payload (safe : list (list string)) (path : list string) (v : json) : result unit :=
  match v with
  | JObj items =>
      (fix go items :=
         match items with
         | [] => mret ()
         | (key, child) :: items =>
             let child_path := path ++ [key] in
             ensure (negb (sensitive key) || among child_path safe) EValue sensitive_field;;
             inspect_payload safe child_path child;;
             go items
         end) items
  | JArr items =>
      (fix go items :=
         match items with
         | [] => mret ()
         | child :: items => inspect_payload safe path child;; go items
         end) items
  | _ => mret ()
  end.

Definition max_payload : Z := 65536.

(** The copy and its canonical bytes. *)
Definition canonical_payload (kind : option string) (payload : list (string * json))
    : result (json * string) :=
  safe ← validated_quota_fields kind payload;
  inspect_payload safe [] (JObj payload);;
  let copied := sort_json (JObj payload) in
  let encoded := canonical copied in
  ensure (Z.of_nat (String.length encoded) <=? max_payload)%Z EValue "job payload is too large";;
  mret (copied, encoded).

(** ** Identities *)

Fixpoint remove_all (fuel : nat) (pattern s : string) : string :=
  match fuel with
  | O => s
  | S fuel =>
      match s with
      | EmptyString => EmptyString
      | String c rest =>
          if String.prefix pattern s
          then remove_all fuel pattern
                 (String.substring (String.length pattern) (String.length s - String.length pattern) s)
          else String c (remove_all fuel pattern rest)
      end
  end.

(** [s.replace(pattern, "")]; each step consumes a character of [s]. *)
Definition replace_with_nothing (pattern s : string) : string := remove_all (String.length s) pattern s.

Definition is_brace (c : Ascii.ascii) : bool := eqb c "{"%char || eqb c "}"%char.

Fixpoint strip_left (p : Ascii.ascii → bool) (s : string) : string :=
  match s with
  | String c rest => if p c then strip_left p rest else s
  | EmptyString => EmptyString
  end.

Fixpoint strip_right (p : Ascii.ascii → bool) (s : string) : string :=
  match s with
  | String c rest =>
      match strip_right p rest with
      | EmptyString => if p c then EmptyString else String c EmptyString
      | rest => String c rest
      end
  | EmptyString => EmptyString
  end.

Definition dashed (hex : string) : string :=
  String.substring 0 8 hex +:+ "-" +:+ String.substring 8 4 hex +:+ "-" +:+ String.substring 12 4 hex
  +:+ "-" +:+ String.substring 16 4 hex +:+ "-" +:+ String.substring 20 12 hex.

(** [str(uuid.UUID(s))] for the spellings whose 32 characters are hexadecimal
    digits: a prefix [urn:uuid:], braces, dashes and upper case are accepted. *)
Definition canonical_uuid (s : string) : option string :=
  let hex := replace_with_nothing "-" (strip_right is_brace (strip_left is_brace
               (replace_with_nothing "uuid:" (replace_with_nothing "urn:" s)))) in
  if is_hex_of 32 (lower hex) then Some (dashed (lower hex)) else None.

Definition check_reconciliation (id : option string) : result (option string) :=
  match id with
  | None => mret None
  | Some s =>
      match canonical_uuid s with
      | Some s => mret (Some s)
      | None => raise EValue "reconciliation identity is invalid"
      end
  end.

(** ** Operations *)

Section service.
Context (redact_text : string → string).

Definition reason_text (reason : string) : string := String.substring 0 1024 (redact_text reason).

(** The row of a new job. [fresh] is the request id drawn when none, or an empty
    one, is given. *)
Definition new_job (now : Z) (fresh kind actor base_commit : string) (targets : list string)
    (payload : list (string * json)) (request_id reconciliation_id : option string) : result Job :=
  ensure (nonblank kind && nonblank actor && nonblank base_commit) EValue
    "job kind, actor, and base commit are required";;
  reconciliation ← check_reconciliation reconciliation_id;
  '(clean, encoded) ← canonical_payload (Some kind) payload;
  let request := match request_id with
                 | Some r => if eqb r "" then fresh else r
                 | None => fresh
                 end in
  mret (MkJob request kind "queued" actor base_commit targets (Sha256.hexdigest encoded) clean None None
          0 now now reconciliation).

Definition holds_any (s : queue) (p : Job → bool) : bool :=
  existsb (λ q : string * Job, p q.2) (map_to_list (jobs s)).

(** [INSERT INTO jobs]: the primary key, the unique columns and the foreign key. *)
Definition insert_job (id : string) (j : Job) : M queue unit :=
  s ← get;
  lift (ensure (is_None_b (jobs s !! id)
                && negb (holds_any s (λ k, eqb (job_request_id k) (job_request_id j)))
                && match job_reconciliation_id j with
                   | Some r => bool_decide (r ∈ known_reconciliations s)
                               && negb (holds_any s (λ k, eqb (job_reconciliation_id k) (Some r)))
                   | None => true
                   end) EIntegrity "constraint failed");;
  modify (set_jobs <[id := j]>).

Definition enqueue (id fresh : string) (now : Z) (kind actor base_commit : string)
    (targets : list string) (payload : list (string * json)) (request_id reconciliation_id : option string)
    : M queue Job :=
  j ← lift (new_job now fresh kind actor base_commit targets payload request_id reconciliation_id);
  transaction (insert_job id j);;
  mret j.

(** The authority is asked before and after the insert, in the transaction. *)
Definition enqueue_guarded (before after : bool) (id fresh : string) (now : Z)
    (kind actor base_commit : string) (targets : list string) (payload : list (string * json))
    (request_id reconciliation_id : option string) : M queue Job :=
  j ← lift (new_job now fresh kind actor base_commit targets payload request_id reconciliation_id);
  transaction (
    lift (ensure before EValue "fleet acceptance evidence is stale");;
    insert_job id j;;
    lift (ensure after EValue "fleet acceptance evidence is stale"));;
  mret j.

Definition get_job (id : string) : M queue Job :=
  s ← get;
  match jobs s !! id with Some j => mret j | None => throw EKey id end.

(** Whether an attempt of the job runs on an expired lease. *)
Definition lease_expired (s : queue) (id : string) (now : Z) : bool :=
  existsb (λ p : string * JobAttempt,
      eqb (att_job_id p.2) id && eqb (att_state p.2) "running" && (att_lease_deadline p.2 <? now)%Z)
    (map_to_list (attempts s)).

Definition claimable (s : queue) (locked : gset string) (now : Z) (p : string * Job) : bool :=
  negb (bool_decide (p.1 ∈ locked)) && is_None_b (job_reconciliation_id p.2)
  && negb (eqb (job_kind p.2) "platform.update")
  && (eqb (job_state p.2) "queued" || lease_expired s p.1 now).

Definition older (p q : string * Job) : bool :=
  (job_created_at p.2 <? job_created_at q.2)%Z
  || (job_created_at p.2 =? job_created_at q.2)%Z && bool_decide (String.le p.1 q.1).

(** [ORDER BY created_at, id LIMIT 1]. *)
Definition next_job (s : queue) (locked : gset string) (now : Z) : option (string * Job) :=
  best older (filter (λ p, claimable s locked now p = true) (map_to_list (jobs s))).

Definition find_attempt (s : queue) (id : string) (number : Z) : option (string * JobAttempt) :=
  head (filter (λ p : string * JobAttempt, att_job_id p.2 = id ∧ att_attempt p.2 = number)
          (map_to_list (attempts s))).

(** The previous attempt of a job, if there is one, becomes [expired]. *)
Definition expire_attempt (only_running : bool) (id : string) (j : Job) : M queue unit :=
  if (job_current_attempt j =? 0)%Z then mret () else
  s ← get;
  match find_attempt s id (job_current_attempt j) with
  | Some (fence, a) =>
      if negb only_running || eqb (att_state a) "running"
      then modify (set_attempts <[fence := with_attempt_state "expired" a]>) else mret ()
  | None => mret ()
  end.

Definition insert_attempt (fence : string) (a : JobAttempt) : M queue unit :=
  s ← get;
  lift (ensure (is_None_b (attempts s !! fence)
                && is_None_b (find_attempt s (att_job_id a) (att_attempt a)))
          EIntegrity "constraint failed");;
  modify (set_attempts <[fence := a]>).

Definition microseconds (seconds : Z) : Z := (seconds * 1000000)%Z.

Definition claim (locked : gset string) (fence : string) (now : Z) (worker_id : string)
    (lease_seconds : Z) : M queue (option AttemptFence) :=
  lift (ensure (nonblank worker_id && (0 <? lease_seconds)%Z) EValue
          "worker and positive lease are required");;
  transaction (
    s ← get;
    match next_job s locked now with
    | None => mret None
    | Some (id, j) =>
        expire_attempt false id j;;
        let number := (job_current_attempt j + 1)%Z in
        let deadline := (now + microseconds lease_seconds)%Z in
        modify (set_jobs <[id := with_job j "running" (job_result j) (job_status_reason j) number now]>);;
        insert_attempt fence (MkAttempt id number worker_id deadline "running");;
        mret (Some (Fence id number fence worker_id deadline (job_kind j) (job_payload j)
                      (job_base_commit j) (job_targets j)))
    end).

Definition quarantine_unlinked (locked : gset string) (now : Z) (reason : string) : M queue bool :=
  lift (ensure (nonblank reason) EValue "quarantine reason is required");;
  transaction (
    s ← get;
    match next_job s locked now with
    | None => mret false
    | Some (id, j) =>
        expire_attempt true id j;;
        modify (set_jobs <[id := with_job j "waiting-for-operator" (job_result j)
          (Some (reason_text reason)) (job_current_attempt j) now]>);;
        mret true
    end).

Definition active (f : AttemptFence) (now : Z) : M queue (Job * JobAttempt) :=
  s ← get;
  match jobs s !! af_job_id f, attempts s !! af_fence f with
  | Some j, Some a =>
      lift (ensure ((job_current_attempt j =? af_attempt f)%Z && eqb (att_state a) "running"
                    && eqb (att_worker_id a) (af_worker_id f) && (now <? att_lease_deadline a)%Z)
              EStaleAttempt "job attempt lease or fence is stale");;
      mret (j, a)
  | _, _ => throw EStaleAttempt "job attempt lease or fence is stale"
  end.

Definition heartbeat (f : AttemptFence) (t_check t_deadline t_update lease_seconds : Z)
    : M queue AttemptFence :=
  lift (ensure (0 <? lease_seconds)%Z EValue "lease must be positive");;
  transaction (
    '(j, a) ← active f t_check;
    let deadline := (t_deadline + microseconds lease_seconds)%Z in
    modify (set_attempts <[af_fence f := with_deadline deadline a]>);;
    modify (set_jobs <[af_job_id f := with_job j (job_state j) (job_result j) (job_status_reason j)
      (job_current_attempt j) t_update]>);;
    mret (Fence (af_job_id f) (af_attempt f) (af_fence f) (af_worker_id f) deadline (af_kind f)
            (af_payload f) (af_base_commit f) (af_targets f))).

Definition finish_job (f : AttemptFence) (t_check t_update : Z) (state : string) (result : option json)
    (reason : option string) : M queue unit :=
  transaction (
    '(j, a) ← active f t_check;
    modify (set_attempts <[af_fence f := with_attempt_state state a]>);;
    let text := match reason with
                | Some r => if eqb r "" then None else Some (reason_text r)
                | None => None
                end in
    modify (set_jobs <[af_job_id f := with_job j state result text (job_current_attempt j) t_update]>)).

Definition succeed (f : AttemptFence) (t_check t_update : Z) (result : list (string * json)) : M queue unit :=
  '(clean, _) ← lift (canonical_payload None result);
  finish_job f t_check t_update "succeeded" (Some clean) None.

Definition fail_job (f : AttemptFence) (t_check t_update : Z) (reason : string) : M queue unit :=
  finish_job f t_check t_update "failed" None (Some reason).

Definition wait_for_operator (f : AttemptFence) (t_check t_update : Z) (reason : string) : M queue unit :=
  finish_job f t_check t_update "waiting-for-operator" None (Some reason).

Definition resume (id : string) (now : Z) : M queue unit :=
  transaction (
    s ← get;
    match jobs s !! id with
    | Some j =>
        lift (ensure (eqb (job_state j) "waiting-for-operator") EValue "job is not waiting for operator");;
        modify (set_jobs <[id := with_job j "queued" (job_result j) None (job_current_attempt j) now]>)
    | None => throw EValue "job is not waiting for operator"
    end).
End service.
