(* ===== verification/JobsFacts.v ===== *)
(** * What the job queue promises

    Workers and the queue as a transition system: the queue together with the
    fences it has granted. A lease is exclusive, a superseded attempt is fenced off
    for good, and payloads are stored clean. *)

From S2P Require Import Prelude Identifiers Canonical Protocol Jobs.

(** ** Workers *)

Definition grants : Type := list AttemptFence.

Definition final_states : list string := ["succeeded"; "failed"; "waiting-for-operator"].

Section workers.
Context (redact_text : string → string).

(** One call by a client, an operator or a worker that presents a fence it was
    granted. A call that raises is one that changes nothing. *)
Inductive job_step : queue * grants → queue * grants → Prop :=
| step_enqueue id fresh now kind actor commit targets payload request reconciliation s G :
    job_step (s, G)
      ((enqueue id fresh now kind actor commit targets payload request reconciliation s).2, G)
| step_enqueue_guarded before after id fresh now kind actor commit targets payload request reconciliation s G :
    job_step (s, G)
      ((enqueue_guarded before after id fresh now kind actor commit targets payload request reconciliation s).2, G)
| step_claim locked fence now worker lease s G r s' :
    claim locked fence now worker lease s = (r, s') →
    job_step (s, G) (s', match r with Ok (Some f) => f :: G | _ => G end)
| step_quarantine locked now reason s G :
    job_step (s, G) ((quarantine_unlinked redact_text locked now reason s).2, G)
| step_heartbeat f t1 t2 t3 lease s G r s' :
    f ∈ G → heartbeat f t1 t2 t3 lease s = (r, s') →
    job_step (s, G) (s', match r with Ok f' => f' :: G | _ => G end)
| step_finish f t1 t2 state result reason s G :
    f ∈ G → state ∈ final_states →
    job_step (s, G) ((finish_job redact_text f t1 t2 state result reason s).2, G)
| step_resume id now s G : job_step (s, G) ((resume id now s).2, G).

(** ** Successful calls *)

Lemma insert_job_ok id j s u s' :
  insert_job id j s = (Ok u, s') → jobs s !! id = None ∧ s' = set_jobs <[id := j]> s.
Proof. unfold insert_job. intros H. inv_run_all. by bool_facts. Qed.

Lemma active_ok f now s p s' :
  active f now s = (Ok p, s') →
  s' = s ∧ jobs s !! af_job_id f = Some p.1 ∧ attempts s !! af_fence f = Some p.2
  ∧ job_current_attempt p.1 = af_attempt f ∧ att_state p.2 = "running"
  ∧ (now < att_lease_deadline p.2)%Z.
Proof.
  unfold active. intros H. inv_run_all. repeat case_match; inv_run_all. bool_facts. by split_and!.
Qed.

(** What the expiry of a job's current attempt does to the attempts. *)
Definition expires (id : string) (number : Z) (m m' : gmap string JobAttempt) : Prop :=
  m' = m ∨ ∃ fence a, m !! fence = Some a ∧ att_job_id a = id ∧ att_attempt a = number
                      ∧ m' = <[fence := with_attempt_state "expired" a]> m.

Lemma find_attempt_Some s id number p :
  find_attempt s id number = Some p →
  attempts s !! p.1 = Some p.2 ∧ att_job_id p.2 = id ∧ att_attempt p.2 = number.
Proof.
  unfold find_attempt. intros [l H]%head_Some.
  assert (p ∈ filter (λ p : string * JobAttempt, att_job_id p.2 = id ∧ att_attempt p.2 = number)
                (map_to_list (attempts s))) as Hin by (rewrite H; by left).
  apply list_elem_of_filter in Hin as [[? ?] Hin]. destruct p. by apply elem_of_map_to_list in Hin.
Qed.

Lemma find_attempt_None s id number fence a :
  find_attempt s id number = None → attempts s !! fence = Some a →
  att_job_id a = id → att_attempt a ≠ number.
Proof.
  unfold find_attempt. intros H%head_None Ha Hid Hn.
  assert ((fence, a) ∈ filter (λ p : string * JobAttempt, att_job_id p.2 = id ∧ att_attempt p.2 = number)
                (map_to_list (attempts s))) as Hin.
  { apply list_elem_of_filter. split; [done|]. by apply elem_of_map_to_list. }
  rewrite H in Hin. by apply elem_of_nil in Hin.
Qed.

Lemma expire_attempt_ok b id j s u s' :
  expire_attempt b id j s = (Ok u, s') →
  jobs s' = jobs s ∧ known_reconciliations s' = known_reconciliations s
  ∧ expires id (job_current_attempt j) (attempts s) (attempts s').
Proof.
  unfold expire_attempt. intros H. destruct (job_current_attempt j =? 0)%Z; inv_run_all.
  { split_and!; [done|done|by left]. }
  destruct (find_attempt s id (job_current_attempt j)) as [[fence a]|] eqn:E; inv_run_all;
    [|split_and!; [done|done|by left]].
  apply find_attempt_Some in E as (? & ? & ?). cbn in *.
  destruct (negb b || eqb (att_state a) "running"); inv_run_all; (split_and!; [done|done|]);
    [right; exists fence, a; by split_and!|by left].
Qed.

Lemma next_job_Some s locked now p :
  next_job s locked now = Some p → jobs s !! p.1 = Some p.2 ∧ claimable s locked now p = true.
Proof.
  unfold next_job. intros H%best_elem. apply list_elem_of_filter in H as [Hc Hin].
  destruct p. by apply elem_of_map_to_list in Hin.
Qed.

(** The rows a claim writes once the previous attempt is expired. *)
Definition claimed (id fence : string) (j : Job) (now : Z) (worker : string) (lease : Z) (s1 : queue) : queue :=
  set_attempts <[fence := MkAttempt id (job_current_attempt j + 1) worker (now + microseconds lease) "running"]>
    (set_jobs <[id := with_job j "running" (job_result j) (job_status_reason j) (job_current_attempt j + 1) now]> s1).

Lemma claim_ok locked fence now worker lease s g s' :
  claim locked fence now worker lease s = (Ok (Some g), s') →
  ∃ id j s1, jobs s !! id = Some j ∧ claimable s locked now (id, j) = true
    ∧ expire_attempt false id j s = (Ok (), s1) ∧ attempts s1 !! fence = None
    ∧ find_attempt s1 id (job_current_attempt j + 1) = None
    ∧ s' = claimed id fence j now worker lease s1
    ∧ g = Fence id (job_current_attempt j + 1) fence worker (now + microseconds lease) (job_kind j)
            (job_payload j) (job_base_commit j) (job_targets j).
Proof.
  unfold claim. intros H. inv_run_all.
  match goal with Hm : match next_job ?s ?l ?n with _ => _ end _ = _ |- _ =>
    destruct (next_job s l n) as [[id j]|] eqn:E end; inv_run_all; [|discriminate].
  apply next_job_Some in E as [? ?]. cbn in *.
  match goal with Hi : insert_attempt _ _ _ = _ |- _ => unfold insert_attempt in Hi end. inv_run_all. bool_facts.
  injection H as <-. exists id, j. eexists. destruct x0. split_and!; [done|done|eassumption|done..].
Qed.

(** ** The invariant of the queue *)

Record queue_inv (s : queue) : Prop := {
  qi_count id j : jobs s !! id = Some j → (0 ≤ job_current_attempt j)%Z;
  qi_attempt f a : attempts s !! f = Some a →
    ∃ j, jobs s !! att_job_id a = Some j ∧ (1 ≤ att_attempt a ≤ job_current_attempt j)%Z;
  qi_running f a j : attempts s !! f = Some a → att_state a = "running" →
    jobs s !! att_job_id a = Some j → job_state j = "running" ∧ att_attempt a = job_current_attempt j;
  qi_unique f f' a a' : attempts s !! f = Some a → attempts s !! f' = Some a' →
    att_job_id a = att_job_id a' → att_attempt a = att_attempt a' → f = f'
}.

(** A granted fence names the attempt it was granted for. *)
Definition granted (s : queue) (f : AttemptFence) : Prop :=
  ∃ a, attempts s !! af_fence f = Some a ∧ att_job_id a = af_job_id f ∧ att_attempt a = af_attempt f.

(** Jobs and attempts stay, attempts keep their identity, and an attempt that no
    longer runs never runs again. *)
Definition keeps (s s' : queue) : Prop :=
  (∀ id j, jobs s !! id = Some j →
     ∃ j', jobs s' !! id = Some j' ∧ (job_current_attempt j ≤ job_current_attempt j')%Z)
  ∧ ∀ f a, attempts s !! f = Some a →
      ∃ a', attempts s' !! f = Some a' ∧ att_job_id a' = att_job_id a ∧ att_attempt a' = att_attempt a
        ∧ (att_state a ≠ "running" → att_state a' ≠ "running").

#[export] Instance keeps_preorder : PreOrder keeps.
Proof.
  split.
  - intros s. split; [intros id j Hj; exists j; split; [done|lia]|]. intros f a Ha. by exists a.
  - intros s1 s2 s3 [J1 A1] [J2 A2]. split.
    + intros id j Hj. destruct (J1 id j Hj) as (j2 & H2 & ?). destruct (J2 id j2 H2) as (j3 & ? & ?).
      exists j3. split; [done|lia].
    + intros f a Ha. destruct (A1 f a Ha) as (a2 & H2 & ? & ? & ?).
      destruct (A2 f a2 H2) as (a3 & ? & ? & ? & ?). exists a3. split_and!; [done|congruence|congruence|auto].
Qed.

Lemma granted_keeps s s' f : keeps s s' → granted s f → granted s' f.
Proof.
  intros [_ HA] (a & Ha & ? & ?). destruct (HA _ _ Ha) as (a' & ? & ? & ? & _).
  exists a'. split_and!; congruence.
Qed.

(** Writing one job and one attempt that exist already. *)
Lemma keeps_jobs s id j' :
  (∀ j, jobs s !! id = Some j → (job_current_attempt j ≤ job_current_attempt j')%Z) →
  keeps s (set_jobs <[id := j']> s).
Proof.
  intros H. split; [|intros f a Ha; by exists a]. cbn. intros i j Hj.
  destruct (decide (i = id)) as [->|Hne].
  - exists j'. rewrite lookup_insert_eq. auto.
  - exists j. rewrite lookup_insert_ne by done. split; [done|lia].
Qed.

Lemma keeps_attempts s f a' :
  (∀ a, attempts s !! f = Some a → att_job_id a' = att_job_id a ∧ att_attempt a' = att_attempt a
     ∧ (att_state a ≠ "running" → att_state a' ≠ "running")) →
  keeps s (set_attempts <[f := a']> s).
Proof.
  intros H. split; [intros i j Hj; exists j; split; [done|lia]|]. cbn. intros g a Ha.
  destruct (decide (g = f)) as [->|Hne].
  - exists a'. rewrite lookup_insert_eq. naive_solver.
  - exists a. by rewrite lookup_insert_ne.
Qed.

Lemma expires_keeps b id j s u s' : expire_attempt b id j s = (Ok u, s') → keeps s s'.
Proof.
  intros (Hj & _ & [E|(fence & a & Ha & _ & _ & E)])%expire_attempt_ok;
    (split; [intros i k Hk; rewrite Hj; exists k; split; [done|lia]|]); rewrite E; [by eauto|].
  intros f k Hk. destruct (decide (f = fence)) as [->|Hne].
  - rewrite lookup_insert_eq. simplify_eq. eexists. split_and!; [done|done|done|done].
  - rewrite lookup_insert_ne by done. eauto.
Qed.

(** After it, no attempt of the job runs. *)
Lemma expires_running b id j s u s' f a :
  queue_inv s → jobs s !! id = Some j → expire_attempt b id j s = (Ok u, s') →
  attempts s' !! f = Some a → att_job_id a = id → att_state a ≠ "running".
Proof.
  intros Hinv Hj H Ha Hid Hrun. pose proof (expire_attempt_ok _ _ _ _ _ _ H) as (_ & _ & Hexp).
  assert (attempts s !! f = Some a) as Hold.
  { destruct Hexp as [<-|(fence & a0 & _ & _ & _ & E)]; [done|]. rewrite E in Ha.
    apply lookup_insert_Some in Ha as [[_ <-]|[_ ?]]; [discriminate Hrun|done]. }
  destruct (qi_attempt _ Hinv _ _ Hold) as (j0 & Hj0 & Hn). rewrite Hid, Hj in Hj0. simplify_eq.
  destruct (qi_running _ Hinv _ _ j0 Hold Hrun) as [_ Hcur]; [done|].
  unfold expire_attempt in H. rewrite (proj2 (Z.eqb_neq _ _)) in H by lia. inv_run_all.
  destruct (find_attempt s (att_job_id a) (job_current_attempt j0)) as [[fence a0]|] eqn:E.
  - apply find_attempt_Some in E as (E1 & E2 & E3). cbn in *.
    assert (fence = f) as ->.
    { eapply (qi_unique _ Hinv); [exact E1|exact Hold|done|congruence]. }
    rewrite Hold in E1. injection E1 as <-. rewrite Hrun, eqb_refl, orb_true_r in H. inv_run_all.
    cbn in Ha. rewrite lookup_insert_eq in Ha. injection Ha as Ha.
    apply (f_equal att_state) in Ha. cbn in Ha. congruence.
  - by eapply find_attempt_None in E.
Qed.

Lemma inv_keeps s s' :
  queue_inv s → keeps s s' →
  (∀ id j', jobs s' !! id = Some j' → (0 ≤ job_current_attempt j')%Z) →
  (∀ f a', attempts s' !! f = Some a' → is_Some (attempts s !! f)) →
  (∀ f a' j', attempts s' !! f = Some a' → att_state a' = "running" → jobs s' !! att_job_id a' = Some j' →
     job_state j' = "running" ∧ att_attempt a' = job_current_attempt j') →
  queue_inv s'.
Proof.
  intros Hinv [HJ HA] Hcount Hnew Hrun.
  assert (∀ f a', attempts s' !! f = Some a' →
    ∃ a, attempts s !! f = Some a ∧ att_job_id a' = att_job_id a ∧ att_attempt a' = att_attempt a) as Hold.
  { intros f a' Ha'. destruct (Hnew f a' Ha') as [a Ha]. destruct (HA f a Ha) as (a2 & ? & ? & ? & _).
    simplify_eq. eauto. }
  split; [done| |done|].
  - intros f a' Ha'. destruct (Hold f a' Ha') as (a & Ha & E1 & E2). rewrite E1, E2.
    destruct (qi_attempt _ Hinv _ _ Ha) as (j & Hj & ?). destruct (HJ _ _ Hj) as (j' & ? & ?).
    exists j'. split; [done|lia].
  - intros f f' a a' Ha Ha' E1 E2. destruct (Hold _ _ Ha) as (b & Hb & ? & ?).
    destruct (Hold _ _ Ha') as (b' & Hb' & ? & ?). eapply (qi_unique _ Hinv); [exact Hb|exact Hb'|congruence..].
Qed.

(** A write of one job row that leaves its attempts alone. *)
Lemma inv_set_job s id j' :
  queue_inv s →
  (∀ j, jobs s !! id = Some j → job_current_attempt j' = job_current_attempt j
     ∧ (job_state j' = job_state j ∨ ∀ f a, attempts s !! f = Some a → att_job_id a = id → att_state a ≠ "running")) →
  (jobs s !! id = None → (0 ≤ job_current_attempt j')%Z) →
  queue_inv (set_jobs <[id := j']> s) ∧ keeps s (set_jobs <[id := j']> s).
Proof.
  intros Hinv Hj' Hnew.
  assert (keeps s (set_jobs <[id := j']> s)) as Hk.
  { apply keeps_jobs. intros j Hj. destruct (Hj' j Hj) as [-> _]. lia. }
  split; [|done]. eapply inv_keeps; [done|done|..].
  - cbn. intros i k. rewrite lookup_insert_Some. intros [[<- <-]|[_ Hk']]; [|by eapply (qi_count _ Hinv)].
    destruct (jobs s !! id) as [j|] eqn:Hj; [|auto]. destruct (Hj' j) as [-> _]; [done|]. by eapply (qi_count _ Hinv).
  - cbn. eauto.
  - cbn. intros f a k Ha Hrun. rewrite lookup_insert_Some. intros [[Hid <-]|[Hne Hk']].
    + destruct (qi_attempt _ Hinv _ _ Ha) as (j & Hj & _). rewrite <- Hid in Hj.
      destruct (Hj' j Hj) as [-> [->|Hno]]; [|by destruct (Hno f a Ha)].
      rewrite Hid in Hj. by eapply (qi_running _ Hinv).
    + by eapply (qi_running _ Hinv).
Qed.

(** A write of one attempt that keeps its identity and does not make it run. *)
Lemma inv_set_attempt s f a a' :
  queue_inv s → attempts s !! f = Some a → att_job_id a' = att_job_id a → att_attempt a' = att_attempt a →
  (att_state a' = "running" → att_state a = "running") →
  queue_inv (set_attempts <[f := a']> s) ∧ keeps s (set_attempts <[f := a']> s).
Proof.
  intros Hinv Ha E1 E2 Hrun.
  assert (keeps s (set_attempts <[f := a']> s)) as Hk.
  { apply keeps_attempts. intros b Hb. simplify_eq. split_and!; [done|done|]. intros Hs Hr. auto. }
  split; [|done]. eapply inv_keeps; [done|done|..].
  - intros i j. exact (qi_count _ Hinv i j).
  - cbn. intros g b. rewrite lookup_insert_Some. intros [[<- _]|[_ ?]]; eauto.
  - cbn. intros g b k. rewrite lookup_insert_Some. intros [[<- <-]|[_ Hb]] Hr Hk'; [|by eapply (qi_running _ Hinv)].
    rewrite E1 in Hk'. rewrite E2. eapply (qi_running _ Hinv); [exact Ha|auto|done].
Qed.

(** A claim: the old attempt expires and a new one starts. *)
Lemma inv_claim s s1 id j fence now worker lease :
  queue_inv s → jobs s !! id = Some j → expire_attempt false id j s = (Ok (), s1) →
  attempts s1 !! fence = None →
  queue_inv (claimed id fence j now worker lease s1) ∧ keeps s (claimed id fence j now worker lease s1).
Proof.
  intros Hinv Hj Hexp Hfree. pose proof (expires_keeps _ _ _ _ _ _ Hexp) as Hk1.
  destruct (expire_attempt_ok _ _ _ _ _ _ Hexp) as (Hjobs & _ & Hatt).
  assert (∀ f a, attempts s1 !! f = Some a →
    ∃ a0, attempts s !! f = Some a0 ∧ att_job_id a = att_job_id a0 ∧ att_attempt a = att_attempt a0
      ∧ (att_state a = "running" → att_state a0 = "running")) as Hold.
  { intros f a Ha. destruct Hatt as [E|(fence0 & b & Hb & _ & _ & E)]; rewrite E in Ha; [by exists a|].
    apply lookup_insert_Some in Ha as [[<- <-]|[_ ?]]; [exists b; by split_and!|by exists a]. }
  destruct Hk1 as [HJ HA]. rewrite Hjobs in HJ.
  set (j' := with_job j "running" (job_result j) (job_status_reason j) (job_current_attempt j + 1) now).
  set (b := MkAttempt id (job_current_attempt j + 1) worker (now + microseconds lease) "running").
  pose proof (qi_count _ Hinv _ _ Hj) as Hcount.
  assert (∀ i k, jobs s !! i = Some k → ∃ k', <[id := j']> (jobs s1) !! i = Some k'
    ∧ (job_current_attempt k ≤ job_current_attempt k')%Z) as Hkeep.
  { intros i k Hk. rewrite Hjobs. destruct (decide (i = id)) as [->|Hne].
    - exists j'. rewrite lookup_insert_eq. simplify_eq. split; [done|]. cbn. lia.
    - exists k. rewrite lookup_insert_ne by done. split; [done|lia]. }
  split; [split|split; [exact Hkeep|]]; cbn.
  - intros i k. rewrite lookup_insert_Some, Hjobs. intros [[_ <-]|[_ ?]]; [cbn; lia|by eapply (qi_count _ Hinv)].
  - intros f a. rewrite lookup_insert_Some. intros [[_ <-]|[_ Ha]].
    + exists j'. cbn. rewrite lookup_insert_eq. split; [done|lia].
    + destruct (Hold f a Ha) as (a0 & Ha0 & -> & -> & _).
      destruct (qi_attempt _ Hinv _ _ Ha0) as (k & Hk & ?). destruct (Hkeep _ _ Hk) as (k' & ? & ?).
      exists k'. split; [done|lia].
  - intros f a k. rewrite lookup_insert_Some. intros [[_ <-]|[_ Ha]] Hrun Hk.
    + cbn in Hk. rewrite lookup_insert_eq in Hk. by simplify_eq.
    + assert (att_job_id a ≠ id) as Hne by (intros Hid; by eapply expires_running in Hrun).
      rewrite lookup_insert_ne, Hjobs in Hk by done. destruct (Hold f a Ha) as (a0 & Ha0 & E1 & -> & Hr0).
      rewrite E1 in Hk. eapply (qi_running _ Hinv); [exact Ha0|auto|done].
  - intros f f' a a'. rewrite !lookup_insert_Some.
    assert (∀ g c, attempts s1 !! g = Some c → att_job_id c = id → att_attempt c ≠ (job_current_attempt j + 1)%Z) as Hlt.
    { intros g c Hc Hid En. destruct (Hold g c Hc) as (c0 & Hc0 & E1 & E2 & _).
      destruct (qi_attempt _ Hinv _ _ Hc0) as (k & Hk & ?). rewrite <- E1, Hid, Hj in Hk. simplify_eq. lia. }
    intros [[<- <-]|[_ Ha]] [[<- <-]|[_ Ha']] E1 E2; cbn in *; [done| | |].
    + by destruct (Hlt f' a' Ha').
    + by destruct (Hlt f a Ha).
    + destruct (Hold _ _ Ha) as (c & Hc & ? & ? & _). destruct (Hold _ _ Ha') as (c' & Hc' & ? & ? & _).
      eapply (qi_unique _ Hinv); [exact Hc|exact Hc'|congruence..].
  - intros f a Ha. destruct (HA f a Ha) as (a1 & Ha1 & ?). exists a1.
    rewrite lookup_insert_ne by congruence. done.
Qed.

(** ** Every call keeps the invariant *)

Definition calm (s s' : queue) : Prop := queue_inv s → queue_inv s' ∧ keeps s s'.

Lemma calm_refl s : calm s s.
Proof. intros H. split; [done|reflexivity]. Qed.

Lemma calm_trans s1 s2 s3 : calm s1 s2 → calm s2 s3 → calm s1 s3.
Proof. intros H1 H2 H. destruct (H1 H) as [? ?]. destruct H2 as [? ?]; [done|]. split; [done|by etrans]. Qed.

(** A call that raises changed nothing. *)
Lemma calm_atomic {A} (m : M queue A) s :
  atomic m → (∀ a s', m s = (Ok a, s') → calm s s') → calm s (m s).2.
Proof.
  intros Ha Hm. destruct (m s) as [[a|e] s'] eqn:E; cbn; [by eapply Hm|].
  rewrite (Ha _ _ _ E). apply calm_refl.
Qed.

Lemma new_job_attempt now fresh kind actor commit targets payload request reconciliation j :
  new_job now fresh kind actor commit targets payload request reconciliation = Ok j → job_current_attempt j = 0%Z.
Proof.
  unfold new_job. intros H. inv_run_all. repeat case_match; inv_run_all; by subst.
Qed.

Lemma insert_job_calm id j s u s' :
  job_current_attempt j = 0%Z → insert_job id j s = (Ok u, s') → calm s s'.
Proof.
  intros Hj [Hnone ->]%insert_job_ok Hinv. apply inv_set_job; [done|congruence|lia].
Qed.

Lemma enqueue_calm id fresh now kind actor commit targets payload request reconciliation s :
  calm s (enqueue id fresh now kind actor commit targets payload request reconciliation s).2.
Proof.
  apply calm_atomic.
  - unfold enqueue. solve_atomic. apply atomic_then_ret, atomic_transaction.
  - intros j s' H. unfold enqueue in H. inv_run_all.
    match goal with E : new_job _ _ _ _ _ _ _ _ _ = Ok _ |- _ => apply new_job_attempt in E end.
    by eapply insert_job_calm.
Qed.

Lemma enqueue_guarded_calm before after id fresh now kind actor commit targets payload request reconciliation s :
  calm s (enqueue_guarded before after id fresh now kind actor commit targets payload request reconciliation s).2.
Proof.
  apply calm_atomic.
  - unfold enqueue_guarded. solve_atomic. apply atomic_then_ret, atomic_transaction.
  - intros j s' H. unfold enqueue_guarded in H. inv_run_all.
    match goal with E : new_job _ _ _ _ _ _ _ _ _ = Ok _ |- _ => apply new_job_attempt in E end.
    by eapply insert_job_calm.
Qed.

Lemma quarantine_calm locked now reason s : calm s (quarantine_unlinked redact_text locked now reason s).2.
Proof.
  apply calm_atomic; [unfold quarantine_unlinked; solve_atomic|].
  intros b s' H. unfold quarantine_unlinked in H. inv_run_all.
  match goal with Hm : match next_job ?s ?l ?n with _ => _ end _ = _ |- _ =>
    destruct (next_job s l n) as [[id j]|] eqn:E end; inv_run_all; [|apply calm_refl].
  apply next_job_Some in E as [Hj _]. cbn in Hj.
  match goal with E : expire_attempt _ _ _ _ = (Ok _, ?t) |- _ => rename E into Hexp; rename t into s1 end.
  intros Hinv. pose proof (expires_keeps _ _ _ _ _ _ Hexp) as Hk.
  destruct (expire_attempt_ok _ _ _ _ _ _ Hexp) as (Hjobs & _ & Hatt).
  assert (queue_inv s1) as Hinv1.
  { destruct Hatt as [E|(fence & a & Ha & _ & _ & E)].
    - destruct s1, s. cbn in *. subst. by destruct Hinv.
    - destruct (inv_set_attempt s fence a (with_attempt_state "expired" a)) as [H1 _]; try done.
      destruct H1 as [C1 C2 C3 C4]. cbn in C1, C2, C3, C4. rewrite <- E, <- Hjobs in *. by split. }
  destruct (inv_set_job s1 id (with_job j "waiting-for-operator" (job_result j)
    (Some (reason_text redact_text reason)) (job_current_attempt j) now)) as [H1 H2]; [done|..].
  - rewrite Hjobs. intros k Hk'. simplify_eq. split; [done|]. right.
    intros f a Ha Hid. by eapply (expires_running _ _ _ _ _ _ _ _ Hinv).
  - by rewrite Hjobs, Hj.
  - split; [done|]. by etrans.
Qed.

Lemma resume_calm id now s : calm s (resume id now s).2.
Proof.
  apply calm_atomic; [unfold resume; solve_atomic|].
  intros u s' H. unfold resume in H. inv_run_all.
  destruct (jobs s !! id) as [j|] eqn:Hj; inv_run_all. bool_facts. intros Hinv.
  apply inv_set_job; [done| |congruence]. intros j0 Hj0. rewrite Hj in Hj0. injection Hj0 as <-.
  split; [done|]. right.
  intros f a Ha Hid Hrun. subst id. destruct (qi_running _ Hinv _ _ _ Ha Hrun Hj). congruence.
Qed.

(** A worker's write to its attempt and its job. *)
Lemma worker_write_calm s f a a' j j' :
  granted s f → jobs s !! af_job_id f = Some j → attempts s !! af_fence f = Some a →
  job_current_attempt j' = job_current_attempt j → att_job_id a' = att_job_id a →
  att_attempt a' = att_attempt a → att_state a = "running" →
  (att_state a' ≠ "running" ∨ job_state j' = job_state j) →
  calm s (set_jobs <[af_job_id f := j']> (set_attempts <[af_fence f := a']> s)).
Proof.
  intros (b & Hb & Hid & Hnum) Hj Ha Ecur Eid Enum Hrun Hstate Hinv.
  rewrite Ha in Hb. injection Hb as <-.
  destruct (inv_set_attempt s (af_fence f) a a') as [Hinv1 Hk1]; try done.
  destruct (inv_set_job (set_attempts <[af_fence f := a']> s) (af_job_id f) j') as [Hinv2 Hk2]; [done| | |].
  - cbn. intros j0 Hj0. rewrite Hj in Hj0. injection Hj0 as <-. split; [done|]. destruct Hstate as [Hno|]; [right|by left].
    intros g c. rewrite lookup_insert_Some. intros [[_ <-]|[Hne Hc]] Hcid; [done|]. intros Hcrun.
    apply Hne. eapply (qi_unique _ Hinv); [exact Ha|exact Hc|congruence|].
    destruct (qi_running _ Hinv _ _ j Hc Hcrun) as [_ ->]; [congruence|].
    destruct (qi_running _ Hinv _ _ j Ha Hrun) as [_ ->]; [congruence|done].
  - cbn. congruence.
  - split; [done|by etrans].
Qed.

Lemma finish_calm f t1 t2 state result reason s :
  granted s f → state ∈ final_states →
  calm s (finish_job redact_text f t1 t2 state result reason s).2.
Proof.
  intros Hg Hs. apply calm_atomic; [unfold finish_job; solve_atomic|].
  intros u s' H. unfold finish_job in H. inv_run_all.
  match goal with E : active _ _ _ = (Ok ?p, _) |- _ => destruct p as [j a]; apply active_ok in E;
    destruct E as (-> & Hj & Ha & _ & Hrun & _) end. inv_run_all.
  eapply worker_write_calm; try done. left. intros E. cbn in E. subst. set_solver.
Qed.

Lemma heartbeat_ok f t1 t2 t3 lease s f' s' :
  heartbeat f t1 t2 t3 lease s = (Ok f', s') →
  af_job_id f' = af_job_id f ∧ af_attempt f' = af_attempt f ∧ af_fence f' = af_fence f
  ∧ (granted s f → calm s s').
Proof.
  unfold heartbeat. intros H. inv_run_all.
  match goal with E : active _ _ _ = (Ok ?p, _) |- _ => destruct p as [j a]; apply active_ok in E;
    destruct E as (-> & Hj & Ha & _ & Hrun & _) end. inv_run_all.
  split_and!; [done..|]. intros Hg. eapply worker_write_calm; try done. by right.
Qed.

(** ** Reachable queues *)

Lemma claim_none locked fence now worker lease s s' :
  claim locked fence now worker lease s = (Ok None, s') → s' = s.
Proof.
  unfold claim. intros H. inv_run_all.
  match goal with Hm : match next_job ?s ?l ?n with _ => _ end _ = _ |- _ =>
    destruct (next_job s l n) as [[id j]|] eqn:E end; inv_run_all; [discriminate|done].
Qed.

Definition world_inv (w : queue * grants) : Prop := queue_inv w.1 ∧ Forall (granted w.1) w.2.

Lemma calm_grants s s' G : calm s s' → world_inv (s, G) → world_inv (s', G) ∧ keeps s s'.
Proof.
  intros Hc [Hinv HG]. destruct (Hc Hinv) as [Hinv' Hk]. split; [|done]. split; [done|].
  eapply Forall_impl; [exact HG|]. cbn. intros f. by apply granted_keeps.
Qed.

Lemma step_world w w' : job_step w w' → world_inv w → world_inv w' ∧ keeps w.1 w'.1.
Proof.
  destruct 1 as [| |locked fence now worker lease s G r s' H| |f t1 t2 t3 lease s G r s' Hf H
                 |f t1 t2 state result reason s G Hf Hs|]; intros Hw; cbn [fst].
  - apply calm_grants; [apply enqueue_calm|done].
  - apply calm_grants; [apply enqueue_guarded_calm|done].
  - destruct r as [[g|]|e].
    + apply claim_ok in H as (id & j & s1 & Hj & _ & Hexp & Hfree & _ & -> & ->).
      destruct (calm_grants s (claimed id fence j now worker lease s1) G) as [[Hinv HG] Hk]; [|done|].
      { intros Hinv. by eapply inv_claim. }
      split; [|done]. split; [done|]. constructor; [|done].
      eexists. cbn. rewrite lookup_insert_eq. by split_and!.
    + apply claim_none in H as ->. split; [done|reflexivity].
    + assert (s' = s) as ->; [|split; [done|reflexivity]]. revert H. unfold claim. apply atomic_lift_bind.
      intros _ _. apply atomic_transaction.
  - apply calm_grants; [apply quarantine_calm|done].
  - assert (granted s f) as Hg by (destruct Hw as [_ HG]; cbn in HG; rewrite Forall_forall in HG; auto).
    destruct r as [f'|e].
    + apply heartbeat_ok in H as (E1 & E2 & E3 & Hc).
      destruct (calm_grants s s' G) as [[Hinv HG] Hk]; [auto|done|]. split; [|done]. split; [done|].
      constructor; [|done]. apply (granted_keeps _ _ _ Hk) in Hg. destruct Hg as (a & ? & ? & ?).
      exists a. rewrite E1, E2, E3. done.
    + assert (s' = s) as ->; [|split; [done|reflexivity]]. revert H. unfold heartbeat. apply atomic_lift_bind.
      intros _ _. apply atomic_transaction.
  - apply calm_grants; [|done]. apply finish_calm; [|done].
    destruct Hw as [_ HG]. cbn in HG. rewrite Forall_forall in HG. auto.
  - apply calm_grants; [apply resume_calm|done].
Qed.

Lemma steps_world w w' : rtc job_step w w' → world_inv w → world_inv w' ∧ keeps w.1 w'.1.
Proof.
  induction 1 as [w|w1 w2 w3 H _ IH]; intros Hw; [split; [done|reflexivity]|].
  destruct (step_world _ _ H Hw) as [Hw2 Hk]. destruct (IH Hw2) as [? ?]. split; [done|by etrans].
Qed.

Definition empty_queue (known : gset string) : queue := Queue ∅ ∅ known.

Definition reachable (w : queue * grants) : Prop := ∃ known, rtc job_step (empty_queue known, []) w.

Lemma reachable_inv w : reachable w → world_inv w.
Proof.
  intros [known H]. eapply steps_world; [exact H|]. split; [|constructor].
  split; cbn; intros *; rewrite ?lookup_empty; done.
Qed.

Definition stale_attempt : exn := Exn EStaleAttempt "job attempt lease or fence is stale".

Lemma active_stale f now s :
  (∀ a, attempts s !! af_fence f = Some a → att_state a ≠ "running") → active f now s = (Err stale_attempt, s).
Proof.
  intros H. unfold active, mbind, M_bind, get. destruct (jobs s !! af_job_id f) as [j|]; [|done].
  destruct (attempts s !! af_fence f) as [a|]; [|done]. unfold lift.
  rewrite (proj2 (eqb_false (att_state a) "running")) by auto. by rewrite andb_false_r.
Qed.

(** Running attempts of one job are one attempt. *)
Lemma running_unique s f f' a a' :
  queue_inv s → attempts s !! f = Some a → attempts s !! f' = Some a' →
  att_job_id a = att_job_id a' → att_state a = "running" → att_state a' = "running" → f = f'.
Proof.
  intros Hinv Ha Ha' Hid Hrun Hrun'. destruct (qi_attempt _ Hinv _ _ Ha) as (j & Hj & _).
  eapply (qi_unique _ Hinv); [exact Ha|exact Ha'|done|].
  destruct (qi_running _ Hinv _ _ j Ha Hrun Hj) as [_ ->].
  rewrite Hid in Hj. by destruct (qi_running _ Hinv _ _ j Ha' Hrun' Hj) as [_ ->].
Qed.
End workers.

(** ** Payloads *)

(** [occurs v path]: a key of the payload, with the keys of the objects around it;
    lists do not add to the path. *)
Inductive occurs : json → list string → Prop :=
| occurs_here items key child : (key, child) ∈ items → occurs (JObj items) [key]
| occurs_below items key child path :
    (key, child) ∈ items → occurs child path → occurs (JObj items) (key :: path)
| occurs_item l child path : child ∈ l → occurs child path → occurs (JArr l) path.

Lemma inspect_object safe path items :
  inspect_payload safe path (JObj items) = Ok () →
  Forall (λ p, (sensitive p.1 = false ∨ path ++ [p.1] ∈ safe)
               ∧ inspect_payload safe (path ++ [p.1]) p.2 = Ok ()) items.
Proof.
  cbn. induction items as [|[key child] items IH]; intros H; [constructor|].
  inv_run_all. constructor; [|by apply IH]. cbn.
  match goal with u : unit |- _ => destruct u end. split; [|done].
  match goal with E : negb (sensitive key) || _ = true |- _ => apply orb_true_iff in E end.
  match goal with E : _ ∨ _ |- _ => destruct E end; bool_facts; auto.
Qed.

Lemma inspect_array safe path items :
  inspect_payload safe path (JArr items) = Ok () → Forall (λ v, inspect_payload safe path v = Ok ()) items.
Proof.
  cbn. induction items as [|child items IH]; intros H; [constructor|].
  inv_run_all. constructor; [by match goal with u : unit |- _ => destruct u end|by apply IH].
Qed.

Lemma inspect_occurs safe v below : occurs v below → ∀ path,
  inspect_payload safe path v = Ok () →
  ∃ parents key, path ++ below = parents ++ [key] ∧ (sensitive key = false ∨ path ++ below ∈ safe).
Proof.
  induction 1 as [items key child Hin|items key child below Hin _ IH|l child below Hin _ IH]; intros path H.
  - apply inspect_object in H. rewrite Forall_forall in H. destruct (H _ Hin) as [Hk _]. by exists path, key.
  - apply inspect_object in H. rewrite Forall_forall in H. destruct (H _ Hin) as [_ Hc]. cbn in Hc.
    destruct (IH _ Hc) as (parents & k & E & Hk). exists parents, k.
    rewrite <- app_assoc in E, Hk. by split.
  - apply inspect_array in H. rewrite Forall_forall in H. by apply IH, H.
Qed.

(** The only sensitive keys a payload may carry. *)
Definition quota_path (path : list string) : Prop :=
  ∃ alias, path = ["routes"; alias; "quota"; "tokens_per_minute"].

Lemma quota_paths_ok routes paths : quota_paths routes = Ok paths → Forall quota_path paths.
Proof.
  revert paths. induction routes as [|[alias v] routes IH]; intros paths H; cbn in H.
  - inv_run_all. subst. constructor.
  - destruct v; try by apply IH. inv_run_all. subst paths. case_match; [|by apply IH].
    constructor; [by exists alias|by apply IH].
Qed.

Lemma validated_quota_ok kind payload paths :
  validated_quota_fields kind payload = Ok paths → Forall quota_path paths ∧ (kind ≠ Some "reconcile" → paths = []).
Proof.
  unfold validated_quota_fields. intros H. destruct (eqb kind (Some "reconcile")) eqn:E; cbn in H; bool_facts.
  - split; [|done]. destruct (field payload "routes"); inv_run_all; subst; try constructor. by eapply quota_paths_ok.
  - inv_run_all. subst. split; [constructor|done].
Qed.

Section theorems.
Context (redact_text : string → string).

(** A lease is exclusive. While a granted attempt is active, no other granted
    attempt of the same job is active, and no claim made at a time up to the
    deadline of its lease hands the job out again. *)
Theorem lease_is_exclusive s G f now p :
  reachable redact_text (s, G) → f ∈ G → active f now s = (Ok p, s) →
  (∀ f' now' p', f' ∈ G → af_job_id f' = af_job_id f → active f' now' s = (Ok p', s) →
     af_fence f' = af_fence f)
  ∧ (∀ locked fence now' worker lease g s', (now' ≤ att_lease_deadline p.2)%Z →
       claim locked fence now' worker lease s = (Ok (Some g), s') → af_job_id g ≠ af_job_id f).
Proof.
  intros Hreach Hf Hact. destruct (reachable_inv _ _ Hreach) as [Hinv HG]. cbn in Hinv, HG.
  rewrite Forall_forall in HG. destruct (HG f Hf) as (a & Ha & Hid & _).
  apply active_ok in Hact as (_ & Hj & Ha' & _ & Hrun & _). rewrite Ha in Ha'. injection Ha' as Ha'.
  rewrite <- Ha' in *. split.
  - intros f' now' p' Hf' Hjob Hact'. destruct (HG f' Hf') as (b & Hb & Hbid & _).
    apply active_ok in Hact' as (_ & _ & Hb' & _ & Hrun' & _). rewrite Hb in Hb'. injection Hb' as Hb'.
    rewrite <- Hb' in *. eapply running_unique; [done|exact Hb|exact Ha|congruence|done|done].
  - intros locked fence now' worker lease g s' Hle Hclaim Heq.
    apply claim_ok in Hclaim as (id & j & s1 & Hjid & Hc & _ & _ & _ & _ & ->). cbn in Heq. subst id.
    unfold claimable in Hc. cbn in Hc. rewrite <- Hid in Hjid, Hc.
    destruct (qi_running _ Hinv _ _ j Ha Hrun Hjid) as [Hstate _]. rewrite Hstate in Hc. bool_facts.
    match goal with E : _ || _ = true |- _ => cbn in E; unfold lease_expired in E; apply existsb_exists in E;
      destruct E as ([f2 b] & Hin & Hb) end.
    apply list_elem_of_In, elem_of_map_to_list in Hin. cbn in Hb. bool_facts.
    assert (af_fence f = f2) as <- by (eapply running_unique; [done|exact Ha|exact Hin|congruence..]).
    rewrite Ha in Hin. injection Hin as <-. lia.
Qed.

(** C39. A superseded attempt is fenced off for good. Once a job has been claimed
    again, the holder of an earlier fence of that job can neither extend its lease
    nor finish the job: after any further calls, by anyone, both are refused and
    change nothing. *)
Theorem superseded_attempt_is_fenced s G f locked fence now worker lease g s' s'' G'' :
  reachable redact_text (s, G) → f ∈ G →
  claim locked fence now worker lease s = (Ok (Some g), s') → af_job_id g = af_job_id f →
  rtc (job_step redact_text) (s', g :: G) (s'', G'') →
  (∀ t1 t2 state result reason,
     finish_job redact_text f t1 t2 state result reason s'' = (Err stale_attempt, s''))
  ∧ ∀ t1 t2 t3 lease', ∃ e, heartbeat f t1 t2 t3 lease' s'' = (Err e, s'').
Proof.
  intros Hreach Hf Hclaim Hjob Hsteps. destruct (reachable_inv _ _ Hreach) as [Hinv HG]. cbn in Hinv, HG.
  assert (world_inv (s', g :: G) ∧ keeps s s') as [Hw' Hk].
  { apply (step_world redact_text (s, G) (s', g :: G)); [|done].
    exact (step_claim redact_text locked fence now worker lease s G _ s' Hclaim). }
  rewrite Forall_forall in HG. destruct (HG f Hf) as (a & Ha & Hid & _).
  apply claim_ok in Hclaim as (id & j & s1 & Hj & _ & Hexp & Hfree & _ & -> & ->). cbn in Hjob. subst id.
  assert (∃ a1, attempts s1 !! af_fence f = Some a1 ∧ att_state a1 ≠ "running") as (a1 & Ha1 & Hstop).
  { destruct (expires_keeps _ _ _ _ _ _ Hexp) as [_ HA]. destruct (HA _ _ Ha) as (a1 & Ha1 & Hid1 & _).
    exists a1. split; [done|]. eapply expires_running; [exact Hinv|exact Hj|exact Hexp|exact Ha1|congruence]. }
  destruct (steps_world _ _ _ Hsteps Hw') as [_ [_ HA]]. cbn in HA.
  destruct (HA (af_fence f) a1) as (a2 & Ha2 & _ & _ & Hrun).
  { rewrite lookup_insert_ne; [done|]. congruence. }
  assert (∀ t, active f t s'' = (Err stale_attempt, s'')) as Hstale.
  { intros t. apply active_stale. intros b Hb. simplify_eq. auto. }
  split.
  - intros *. unfold finish_job, transaction, mbind, M_bind. by rewrite Hstale.
  - intros *. unfold heartbeat, mbind, M_bind, lift, ensure. destruct (0 <? lease')%Z; [|by eexists].
    unfold transaction. rewrite Hstale. by eexists.
Qed.

(** A job that was enqueued carries no secret: at no depth of its payload is
    there a key that names a password, secret, token, private key or authorization,
    but for the token quota of a route of a reconciliation; the stored copy is at
    most 64 KiB and its digest is the one recorded. *)
Theorem enqueued_payload_is_clean id fresh now kind actor commit targets payload request reconciliation s j s' :
  enqueue id fresh now kind actor commit targets payload request reconciliation s = (Ok j, s') →
  jobs s' !! id = Some j
  ∧ (∀ path, occurs (JObj payload) path → ∃ parents key, path = parents ++ [key]
       ∧ (sensitive key = false ∨ kind = "reconcile" ∧ quota_path path))
  ∧ job_payload j = sort_json (JObj payload)
  ∧ job_payload_digest j = Sha256.hexdigest (canonical (job_payload j))
  ∧ (Z.of_nat (String.length (canonical (job_payload j))) ≤ max_payload)%Z.
Proof.
  intros H. unfold enqueue in H. inv_run_all.
  match goal with E : insert_job _ _ _ = _ |- _ => apply insert_job_ok in E; destruct E as [_ ->] end.
  match goal with E : new_job _ _ _ _ _ _ _ _ _ = Ok _ |- _ => unfold new_job in E end. inv_run_all.
  match goal with E : canonical_payload _ _ = Ok ?p |- _ => destruct p as [clean encoded]; unfold canonical_payload in E end.
  inv_run_all. simplify_eq. subst. cbn [job_payload job_payload_digest jobs set_jobs]. rewrite lookup_insert_eq. bool_facts.
  split_and!; [done| |done|done|done].
  intros path Hpath. match goal with E : inspect_payload _ _ _ = Ok ?u |- _ => destruct u; rename E into Hinspect end.
  match goal with E : validated_quota_fields _ _ = Ok _ |- _ =>
    apply validated_quota_ok in E; destruct E as [Hquota Hkind] end.
  destruct (inspect_occurs _ _ _ Hpath _ Hinspect) as (parents & key & E & Hsafe). cbn in E, Hsafe.
  exists parents, key. split; [done|]. destruct Hsafe as [|Hsafe]; [by left|right].
  destruct (decide (kind = "reconcile")) as [->|Hne]; [|rewrite Hkind in Hsafe by congruence; by apply elem_of_nil in Hsafe].
  split; [done|]. rewrite Forall_forall in Hquota. by apply Hquota.
Qed.
End theorems.

(** ** Examples *)

Definition no_text : string → string := λ _, "".

Definition q0 : queue := empty_queue ∅.
Definition q1 : queue := (enqueue "j1" "r1" 0 "probe" "operator" "c0" ["n1"] [] None None q0).2.
Definition lease_of (number now : Z) (fence worker : string) : AttemptFence :=
  Fence "j1" number fence worker (now + microseconds 60) "probe" (JObj []) "c0" ["n1"].
Definition q2 : queue := (claim ∅ "f1" 10 "w1" 60 q1).2.
Definition q3 : queue := (claim ∅ "f2" 70000000 "w2" 60 q2).2.

Example first_claim : (claim ∅ "f1" 10 "w1" 60 q1).1 = Ok (Some (lease_of 1 10 "f1" "w1")).
Proof. vm_compute. reflexivity. Qed.
Example second_claim : (claim ∅ "f2" 70000000 "w2" 60 q2).1 = Ok (Some (lease_of 2 70000000 "f2" "w2")).
Proof. vm_compute. reflexivity. Qed.

Lemma pair_of {A B} (p : A * B) a : p.1 = a → p = (a, p.2).
Proof. by intros <-; destruct p. Qed.

Lemma first_lease_reachable : reachable no_text (q2, [lease_of 1 10 "f1" "w1"]).
Proof.
  exists ∅. eapply rtc_l; [apply step_enqueue|]. eapply rtc_l; [|apply rtc_refl].
  exact (step_claim no_text _ _ _ _ _ q1 [] _ q2 (pair_of _ _ first_claim)).
Qed.

Example first_lease_is_active : (active (lease_of 1 10 "f1" "w1") 20 q2).1 ≠ Err stale_attempt
  ∧ is_ok (active (lease_of 1 10 "f1" "w1") 20 q2).1 = true ∧ (active (lease_of 1 10 "f1" "w1") 20 q2).2 = q2.
Proof. vm_compute. done. Qed.

Lemma lease_is_exclusive_witness :
  lease_of 1 10 "f1" "w1" ∈ [lease_of 1 10 "f1" "w1"]
  ∧ ¬ ∃ g s', claim ∅ "f3" 60000000 "w2" 60 q2 = (Ok (Some g), s') ∧ af_job_id g = "j1".
Proof.
  destruct (active (lease_of 1 10 "f1" "w1") 20 q2) as [[p|e] s] eqn:E;
    [|destruct first_lease_is_active as (_ & H & _); rewrite E in H; discriminate H].
  assert (s = q2) as -> by (destruct first_lease_is_active as (_ & _ & H); rewrite E in H; exact H).
  assert (att_lease_deadline p.2 = 60000010)%Z as Hd by (vm_compute in E; injection E as <-; reflexivity).
  destruct (lease_is_exclusive no_text q2 [lease_of 1 10 "f1" "w1"] (lease_of 1 10 "f1" "w1") 20 p
    first_lease_reachable ltac:(by left) E) as [_ H].
  split; [by left|]. intros (g & s' & Hclaim & Hid).
  apply (H ∅ "f3" 60000000%Z "w2" 60%Z g s'); [rewrite Hd; lia|exact Hclaim|exact Hid].
Defined.

Lemma superseded_attempt_is_fenced_witness :
  finish_job no_text (lease_of 1 10 "f1" "w1") 80000000 80000000 "succeeded" None None q3 = (Err stale_attempt, q3).
Proof.
  apply (superseded_attempt_is_fenced no_text q2 [lease_of 1 10 "f1" "w1"] (lease_of 1 10 "f1" "w1")
    ∅ "f2" 70000000 "w2" 60 (lease_of 2 70000000 "f2" "w2") q3 q3
    [lease_of 2 70000000 "f2" "w2"; lease_of 1 10 "f1" "w1"] first_lease_reachable).
  - by left.
  - exact (pair_of _ _ second_claim).
  - reflexivity.
  - apply rtc_refl.
Defined.

Definition route_payload : list (string * json) :=
  let quota := JObj [("requests_per_minute", JInt 60); ("tokens_per_minute", JInt 1000)] in
  [("routes", JObj [("chat", JObj [("workload_id", JStr "chat"); ("nodes", JArr [JStr "n1"]);
     ("entrypoint_node_id", JStr "n1"); ("scheme", JStr "http"); ("port", JInt 8000); ("path", JStr "/v1");
     ("quota", quota); ("quota_digest", JStr (document_digest quota))])])].

Definition enqueue_routes : result Job * queue :=
  enqueue "j2" "r2" 0 "reconcile" "operator" "c0" ["n1"] route_payload None None q0.

Example routes_are_enqueued : is_ok enqueue_routes.1 = true.
Proof. vm_compute. reflexivity. Qed.
Example secrets_are_refused :
  (enqueue "j2" "r2" 0 "reconcile" "operator" "c0" ["n1"] [("apiToken", JStr "x")] None None q0).1
  = raise EValue sensitive_field.
Proof. vm_compute. reflexivity. Qed.

Lemma enqueued_payload_is_clean_witness :
  ∃ parents key, ["routes"; "chat"; "quota"; "tokens_per_minute"] = parents ++ [key]
    ∧ (sensitive key = false ∨ "reconcile" = "reconcile" ∧ quota_path (parents ++ [key])).
Proof.
  pose proof routes_are_enqueued as H. destruct enqueue_routes as [[j|e] s'] eqn:E; [|discriminate H].
  unfold enqueue_routes in E.
  destruct (enqueued_payload_is_clean _ _ _ _ _ _ _ _ _ _ _ _ _ E) as (_ & Hclean & _).
  destruct (Hclean ["routes"; "chat"; "quota"; "tokens_per_minute"]) as (parents & key & Hp & Hk).
  - eapply occurs_below; [by left|]. eapply occurs_below; [by left|].
    eapply occurs_below; [do 6 right; by left|]. eapply occurs_here. right. by left.
  - exists parents, key. rewrite <- Hp. split; [reflexivity|exact Hk].
Defined.
