(* ===== verification/AgentTables.v ===== *)
(** * The tables of the agent queue ([control/src/vonk_control/models.py])

    The rows the agent job service reads and writes, keyed by their primary
    keys; attempts are kept by their fence, which is unique. Columns of the
    read-only tables that the service never looks at are left out. JSON columns
    typed as lists of strings hold such lists. Times are UTC microseconds. *)

From S2P Require Import Prelude Identifiers Canonical Contracts PackageEngine Protocol.
From S2P Require Import OperationGraph Orchestration NodeLeases Jobs.

(** ** Nodes and certificates *)

Record AgentNode := MkNode {
  node_state : string; node_implementation : string; node_migration_state : string;
  node_protocol_version : option Z; node_architecture : option string;
  node_platform_version : option string; node_build_digest : option string;
  node_active_slot : option string; node_agent_sha256 : option string;
  node_supervisor_generation : option Z; node_supervisor_ready_generation : option Z;
  node_self_test_passed : bool; node_contact_certificate_serial : option string;
  node_contact_observation_digest : option string; node_capabilities : list string;
  node_last_seen_at : option Z; node_revoked_at : option Z
}.

Definition with_implementation (n : AgentNode) (implementation migration : string) : AgentNode :=
  MkNode (node_state n) implementation migration (node_protocol_version n) (node_architecture n)
    (node_platform_version n) (node_build_digest n) (node_active_slot n) (node_agent_sha256 n)
    (node_supervisor_generation n) (node_supervisor_ready_generation n) (node_self_test_passed n)
    (node_contact_certificate_serial n) (node_contact_observation_digest n) (node_capabilities n)
    (node_last_seen_at n) (node_revoked_at n).

(** The contact columns that do not describe the running agent. *)
Definition with_contact (n : AgentNode) (protocol : option Z) (capabilities : list string)
    (seen : option Z) : AgentNode :=
  MkNode (node_state n) (node_implementation n) (node_migration_state n) protocol
    (node_architecture n) (node_platform_version n) (node_build_digest n) (node_active_slot n)
    (node_agent_sha256 n) (node_supervisor_generation n) (node_supervisor_ready_generation n)
    (node_self_test_passed n) (node_contact_certificate_serial n)
    (node_contact_observation_digest n) capabilities seen (node_revoked_at n).

Record AgentCertificate := MkCertificate {
  cert_node_id : string; cert_not_before : Z; cert_not_after : Z; cert_fingerprint : string;
  cert_state : string; cert_revoked_at : option Z
}.

Definition revoke_certificate (now : Z) (c : AgentCertificate) : AgentCertificate :=
  MkCertificate (cert_node_id c) (cert_not_before c) (cert_not_after c) (cert_fingerprint c)
    "revoked" (Some (default now (cert_revoked_at c))).

Record AgentEnrollment := MkEnrollment {
  enrollment_grant_id : string; enrollment_node_id : string; enrollment_state : string;
  enrollment_certificate_serial : option string
}.

Record AgentEnrollmentGrant := MkEnrollmentGrant { grant_purpose : string }.

(** ** Operations and attempts *)

Record StoredOperation := MkOperation {
  so_parent_job_id : string; so_node_id : string; so_kind : string; so_payload_digest : string;
  so_payload : json; so_base_commit : string; so_state : string; so_current_attempt : Z;
  so_retry_disposition : option string; so_retry_disposition_attempt : option Z;
  so_created_at : Z; so_updated_at : Z
}.

Definition with_operation_state (state : string) (now : Z) (o : StoredOperation) : StoredOperation :=
  MkOperation (so_parent_job_id o) (so_node_id o) (so_kind o) (so_payload_digest o) (so_payload o)
    (so_base_commit o) state (so_current_attempt o) (so_retry_disposition o)
    (so_retry_disposition_attempt o) (so_created_at o) now.

(** [operation.state = "waiting-for-operator"] with the retry columns cleared. *)
Definition held_back (now : Z) (o : StoredOperation) : StoredOperation :=
  MkOperation (so_parent_job_id o) (so_node_id o) (so_kind o) (so_payload_digest o) (so_payload o)
    (so_base_commit o) "waiting-for-operator" (so_current_attempt o) None None (so_created_at o) now.

Definition started (now : Z) (o : StoredOperation) : StoredOperation :=
  MkOperation (so_parent_job_id o) (so_node_id o) (so_kind o) (so_payload_digest o) (so_payload o)
    (so_base_commit o) "running" (so_current_attempt o + 1) (so_retry_disposition o)
    (so_retry_disposition_attempt o) (so_created_at o) now.

Record AgentOperationAttempt := MkAgentAttempt {
  at_operation_id : string; at_attempt : Z; at_lease_deadline : Z; at_certificate_serial : string;
  at_state : string; at_progress : option json; at_result : option json
}.

Definition with_at_state (state : string) (a : AgentOperationAttempt) : AgentOperationAttempt :=
  MkAgentAttempt (at_operation_id a) (at_attempt a) (at_lease_deadline a) (at_certificate_serial a)
    state (at_progress a) (at_result a).
Definition with_at_progress (progress : json) (deadline : Z) (a : AgentOperationAttempt)
    : AgentOperationAttempt :=
  MkAgentAttempt (at_operation_id a) (at_attempt a) deadline (at_certificate_serial a) (at_state a)
    (Some progress) (at_result a).
Definition with_at_result (state : string) (value : json) (a : AgentOperationAttempt)
    : AgentOperationAttempt :=
  MkAgentAttempt (at_operation_id a) (at_attempt a) (at_lease_deadline a) (at_certificate_serial a)
    state (at_progress a) (Some value).

(** ** Reconciliations and their projections *)

Record ReconciliationOperation := MkProjection {
  ro_reconciliation_id : string; ro_graph_operation_id : string; ro_role : string;
  ro_agent_operation_id : option string; ro_expected_payload_digest : string; ro_state : string;
  ro_result_digest : option string; ro_evidence_digest : option string; ro_accepted_at : option Z;
  ro_compensated_graph_operation_id : option string
}.

Definition with_ro_state (state : string) (p : ReconciliationOperation) : ReconciliationOperation :=
  MkProjection (ro_reconciliation_id p) (ro_graph_operation_id p) (ro_role p)
    (ro_agent_operation_id p) (ro_expected_payload_digest p) state (ro_result_digest p)
    (ro_evidence_digest p) (ro_accepted_at p) (ro_compensated_graph_operation_id p).

Definition stopped_reconciliation (reason : string) (r : Reconciliation) : Reconciliation :=
  Row (rec_base_commit r) "failed" (rec_summary r) (rec_graph r) (rec_graph_digest r)
    (rec_plan_digest r) (rec_resolved_plan r) "waiting-for-operator"
    (rec_route_withdrawal_generation r) (Some reason) (rec_completion_generation r)
    (rec_created_at r).

(** [job.state], [job.status_reason] and [job.updated_at]. *)
Definition with_job_state (state : string) (reason : option string) (now : Z) (j : Job) : Job :=
  with_job j state (job_result j) reason (job_current_attempt j) now.

(** ** Platform updates *)

Record UpdateRollout := MkUpdateRollout {
  ur_job_id : option string; ur_state : string; ur_release_digest : string; ur_base_commit : string;
  ur_target_platform_version : string; ur_tuf_targets_version : Z;
  ur_update_admin_grant : option json; ur_rollback_admin_grant : option json; ur_plan : json
}.

Record UpdateRolloutNode := MkUpdateRolloutNode {
  un_rollout_id : string; un_node_id : string; un_state : string; un_operation_id : option string;
  un_rollback_operation_id : option string; un_source_identity_digest : string
}.

Record UpdateAuthorizationIntent := MkIntent {
  in_rollout_id : string; in_rollout_node_id : string; in_parent_job_id : string;
  in_node_id : string; in_operation_id : string; in_fence : string; in_action : string;
  in_state : string; in_unsigned_payload : json; in_payload_digest : string;
  in_source_slot : string; in_source_sha256 : string; in_source_generation : Z;
  in_target_release_digest : option string; in_expected_tuf_target_sha256 : option string;
  in_expected_tuf_targets_version : option Z; in_admin_grant : json;
  in_admin_grant_digest : string; in_expires_at : Z; in_request : json; in_request_digest : string;
  in_signed_response : option json; in_response_digest : option string; in_created_at : Z;
  in_updated_at : Z; in_queued_at : option Z
}.

Definition with_intent_state (state : string) (now : Z) (i : UpdateAuthorizationIntent)
    : UpdateAuthorizationIntent :=
  MkIntent (in_rollout_id i) (in_rollout_node_id i) (in_parent_job_id i) (in_node_id i)
    (in_operation_id i) (in_fence i) (in_action i) state (in_unsigned_payload i)
    (in_payload_digest i) (in_source_slot i) (in_source_sha256 i) (in_source_generation i)
    (in_target_release_digest i) (in_expected_tuf_target_sha256 i)
    (in_expected_tuf_targets_version i) (in_admin_grant i) (in_admin_grant_digest i)
    (in_expires_at i) (in_request i) (in_request_digest i) (in_signed_response i)
    (in_response_digest i) (in_created_at i) now (in_queued_at i).

Definition queued_intent (response : json) (digest : string) (now : Z) (i : UpdateAuthorizationIntent)
    : UpdateAuthorizationIntent :=
  MkIntent (in_rollout_id i) (in_rollout_node_id i) (in_parent_job_id i) (in_node_id i)
    (in_operation_id i) (in_fence i) (in_action i) "queued" (in_unsigned_payload i)
    (in_payload_digest i) (in_source_slot i) (in_source_sha256 i) (in_source_generation i)
    (in_target_release_digest i) (in_expected_tuf_target_sha256 i)
    (in_expected_tuf_targets_version i) (in_admin_grant i) (in_admin_grant_digest i)
    (in_expires_at i) (in_request i) (in_request_digest i) (Some response) (Some digest)
    (in_created_at i) now (Some now).

(** ** Observations *)

Record Observation := MkObservation {
  obs_node_id : string; obs_kind : string; obs_payload : json; obs_observed_at : Z
}.

(** ** Cancellations and publications of reconciliations

    Both are keyed by the reconciliation they belong to; the owner of the routes
    is a single row. *)

Record ReconciliationCancellation := MkCancellation {
  ca_state : string; ca_reason : string; ca_actor : string; ca_request_id : string;
  ca_requested_at : Z; ca_updated_at : Z
}.

Definition with_ca_state (state : string) (now : Z) (c : ReconciliationCancellation)
    : ReconciliationCancellation :=
  MkCancellation state (ca_reason c) (ca_actor c) (ca_request_id c) (ca_requested_at c) now.

Record RoutePublication := MkPublication {
  rp_state : string; rp_generation : option Z; rp_plan_digest : string;
  rp_evidence_digest : option string; rp_route_digest : option string;
  rp_litellm_digest : option string; rp_bundle_digest : option string;
  rp_activation_marker : option json; rp_activation_marker_digest : option string;
  rp_lease_issued_at : option Z; rp_lease_expires_at : option Z
}.

Record RoutePublicationOwner := MkOwner {
  own_reconciliation_id : option string; own_generation : Z; own_updated_at : option Z
}.

(** ** The database *)

Record control_db := ControlDb {
  t_nodes : gmap string AgentNode;
  t_certificates : gmap string AgentCertificate;
  t_enrollments : gmap string AgentEnrollment;
  t_grants : gmap string AgentEnrollmentGrant;
  t_jobs : gmap string Job;
  t_operations : gmap string StoredOperation;
  t_attempts : gmap string AgentOperationAttempt;
  t_leases : gmap string mutation_lease;
  t_rollouts : gmap string UpdateRollout;
  t_rollout_nodes : gmap string UpdateRolloutNode;
  t_intents : gmap string UpdateAuthorizationIntent;
  t_reconciliations : gmap string Reconciliation;
  t_projections : gmap string ReconciliationOperation;
  t_observations : list Observation;
  t_cancellations : gmap string ReconciliationCancellation;
  t_publications : gmap string RoutePublication;
  t_owner : option RoutePublicationOwner;
  t_completions : option Z
}.

Definition set_t_nodes f (s : control_db) : control_db :=
  ControlDb (f (t_nodes s)) (t_certificates s) (t_enrollments s) (t_grants s) (t_jobs s)
    (t_operations s) (t_attempts s) (t_leases s) (t_rollouts s) (t_rollout_nodes s) (t_intents s)
    (t_reconciliations s) (t_projections s) (t_observations s) (t_cancellations s)
    (t_publications s) (t_owner s) (t_completions s).
Definition set_t_certificates f (s : control_db) : control_db :=
  ControlDb (t_nodes s) (f (t_certificates s)) (t_enrollments s) (t_grants s) (t_jobs s)
    (t_operations s) (t_attempts s) (t_leases s) (t_rollouts s) (t_rollout_nodes s) (t_intents s)
    (t_reconciliations s) (t_projections s) (t_observations s) (t_cancellations s)
    (t_publications s) (t_owner s) (t_completions s).
Definition set_t_jobs f (s : control_db) : control_db :=
  ControlDb (t_nodes s) (t_certificates s) (t_enrollments s) (t_grants s) (f (t_jobs s))
    (t_operations s) (t_attempts s) (t_leases s) (t_rollouts s) (t_rollout_nodes s) (t_intents s)
    (t_reconciliations s) (t_projections s) (t_observations s) (t_cancellations s)
    (t_publications s) (t_owner s) (t_completions s).
Definition set_t_operations f (s : control_db) : control_db :=
  ControlDb (t_nodes s) (t_certificates s) (t_enrollments s) (t_grants s) (t_jobs s)
    (f (t_operations s)) (t_attempts s) (t_leases s) (t_rollouts s) (t_rollout_nodes s)
    (t_intents s) (t_reconciliations s) (t_projections s) (t_observations s) (t_cancellations s)
    (t_publications s) (t_owner s) (t_completions s).
Definition set_t_attempts f (s : control_db) : control_db :=
  ControlDb (t_nodes s) (t_certificates s) (t_enrollments s) (t_grants s) (t_jobs s)
    (t_operations s) (f (t_attempts s)) (t_leases s) (t_rollouts s) (t_rollout_nodes s)
    (t_intents s) (t_reconciliations s) (t_projections s) (t_observations s) (t_cancellations s)
    (t_publications s) (t_owner s) (t_completions s).
Definition set_t_leases f (s : control_db) : control_db :=
  ControlDb (t_nodes s) (t_certificates s) (t_enrollments s) (t_grants s) (t_jobs s)
    (t_operations s) (t_attempts s) (f (t_leases s)) (t_rollouts s) (t_rollout_nodes s)
    (t_intents s) (t_reconciliations s) (t_projections s) (t_observations s) (t_cancellations s)
    (t_publications s) (t_owner s) (t_completions s).
Definition set_t_intents f (s : control_db) : control_db :=
  ControlDb (t_nodes s) (t_certificates s) (t_enrollments s) (t_grants s) (t_jobs s)
    (t_operations s) (t_attempts s) (t_leases s) (t_rollouts s) (t_rollout_nodes s)
    (f (t_intents s)) (t_reconciliations s) (t_projections s) (t_observations s)
    (t_cancellations s) (t_publications s) (t_owner s) (t_completions s).
Definition set_t_reconciliations f (s : control_db) : control_db :=
  ControlDb (t_nodes s) (t_certificates s) (t_enrollments s) (t_grants s) (t_jobs s)
    (t_operations s) (t_attempts s) (t_leases s) (t_rollouts s) (t_rollout_nodes s) (t_intents s)
    (f (t_reconciliations s)) (t_projections s) (t_observations s) (t_cancellations s)
    (t_publications s) (t_owner s) (t_completions s).
Definition set_t_projections f (s : control_db) : control_db :=
  ControlDb (t_nodes s) (t_certificates s) (t_enrollments s) (t_grants s) (t_jobs s)
    (t_operations s) (t_attempts s) (t_leases s) (t_rollouts s) (t_rollout_nodes s) (t_intents s)
    (t_reconciliations s) (f (t_projections s)) (t_observations s) (t_cancellations s)
    (t_publications s) (t_owner s) (t_completions s).
Definition set_t_observations f (s : control_db) : control_db :=
  ControlDb (t_nodes s) (t_certificates s) (t_enrollments s) (t_grants s) (t_jobs s)
    (t_operations s) (t_attempts s) (t_leases s) (t_rollouts s) (t_rollout_nodes s) (t_intents s)
    (t_reconciliations s) (t_projections s) (f (t_observations s)) (t_cancellations s)
    (t_publications s) (t_owner s) (t_completions s).
Definition set_t_cancellations f (s : control_db) : control_db :=
  ControlDb (t_nodes s) (t_certificates s) (t_enrollments s) (t_grants s) (t_jobs s)
    (t_operations s) (t_attempts s) (t_leases s) (t_rollouts s) (t_rollout_nodes s) (t_intents s)
    (t_reconciliations s) (t_projections s) (t_observations s) (f (t_cancellations s))
    (t_publications s) (t_owner s) (t_completions s).
Definition set_t_publications f (s : control_db) : control_db :=
  ControlDb (t_nodes s) (t_certificates s) (t_enrollments s) (t_grants s) (t_jobs s)
    (t_operations s) (t_attempts s) (t_leases s) (t_rollouts s) (t_rollout_nodes s) (t_intents s)
    (t_reconciliations s) (t_projections s) (t_observations s) (t_cancellations s)
    (f (t_publications s)) (t_owner s) (t_completions s).
Definition set_t_owner f (s : control_db) : control_db :=
  ControlDb (t_nodes s) (t_certificates s) (t_enrollments s) (t_grants s) (t_jobs s)
    (t_operations s) (t_attempts s) (t_leases s) (t_rollouts s) (t_rollout_nodes s) (t_intents s)
    (t_reconciliations s) (t_projections s) (t_observations s) (t_cancellations s)
    (t_publications s) (f (t_owner s)) (t_completions s).
Definition set_t_completions f (s : control_db) : control_db :=
  ControlDb (t_nodes s) (t_certificates s) (t_enrollments s) (t_grants s) (t_jobs s)
    (t_operations s) (t_attempts s) (t_leases s) (t_rollouts s) (t_rollout_nodes s) (t_intents s)
    (t_reconciliations s) (t_projections s) (t_observations s) (t_cancellations s)
    (t_publications s) (t_owner s) (f (t_completions s)).

(** ** Queries and writes *)

Definition find_row {A} (p : A → bool) (t : gmap string A) : option (string * A) :=
  head (filter (λ q : string * A, p q.2 = true) (map_to_list t)).

(** [select(Attempt).where(operation_id == ..., attempt == ...)]; the pair is unique. *)
Definition attempt_of (s : control_db) (operation_id : string) (number : Z)
    : option (string * AgentOperationAttempt) :=
  find_row (λ a, eqb (at_operation_id a) operation_id && (at_attempt a =? number)%Z) (t_attempts s).

Definition rollout_of_job (s : control_db) (job_id : string) : option (string * UpdateRollout) :=
  find_row (λ r, eqb (ur_job_id r) (Some job_id)) (t_rollouts s).

Definition rollout_node_of (s : control_db) (rollout_id node_id : string)
    : option (string * UpdateRolloutNode) :=
  find_row (λ r, eqb (un_rollout_id r) rollout_id && eqb (un_node_id r) node_id) (t_rollout_nodes s).

Definition projection_of (s : control_db) (operation_id : string)
    : option (string * ReconciliationOperation) :=
  find_row (λ p, eqb (ro_agent_operation_id p) (Some operation_id)) (t_projections s).

Definition projection_in (s : control_db) (reconciliation_id operation_id : string)
    : option (string * ReconciliationOperation) :=
  find_row (λ p, eqb (ro_reconciliation_id p) reconciliation_id
                 && eqb (ro_agent_operation_id p) (Some operation_id)) (t_projections s).

(** The projections of a reconciliation, [ORDER BY graph_operation_id, role]. *)
Definition projection_before (p q : string * ReconciliationOperation) : Prop :=
  ro_graph_operation_id p.2 ≠ ro_graph_operation_id q.2
  ∧ String.le (ro_graph_operation_id p.2) (ro_graph_operation_id q.2)
  ∨ ro_graph_operation_id p.2 = ro_graph_operation_id q.2 ∧ String.le (ro_role p.2) (ro_role q.2).

#[export] Instance projection_before_dec : RelDecision projection_before.
Proof. intros p q. unfold projection_before. apply _. Defined.

Definition projections_of (s : control_db) (reconciliation_id : string)
    : list (string * ReconciliationOperation) :=
  merge_sort projection_before
    (filter (λ p : string * ReconciliationOperation, ro_reconciliation_id p.2 = reconciliation_id)
       (map_to_list (t_projections s))).

Definition put_operation (id : string) (o : StoredOperation) : M control_db unit :=
  modify (set_t_operations <[id := o]>).
Definition put_attempt (fence : string) (a : AgentOperationAttempt) : M control_db unit :=
  modify (set_t_attempts <[fence := a]>).
Definition put_job (id : string) (j : Job) : M control_db unit := modify (set_t_jobs <[id := j]>).
Definition put_node (id : string) (n : AgentNode) : M control_db unit :=
  modify (set_t_nodes <[id := n]>).
Definition put_projection (id : string) (p : ReconciliationOperation) : M control_db unit :=
  modify (set_t_projections <[id := p]>).
Definition put_reconciliation (id : string) (r : Reconciliation) : M control_db unit :=
  modify (set_t_reconciliations <[id := r]>).
Definition put_cancellation (id : string) (c : ReconciliationCancellation) : M control_db unit :=
  modify (set_t_cancellations <[id := c]>).
Definition put_publication (id : string) (p : RoutePublication) : M control_db unit :=
  modify (set_t_publications <[id := p]>).
Definition put_owner (o : RoutePublicationOwner) : M control_db unit :=
  modify (set_t_owner (λ _, Some o)).
Definition put_intent (id : string) (i : UpdateAuthorizationIntent) : M control_db unit :=
  modify (set_t_intents <[id := i]>).

(** [INSERT INTO agent_operations] and [agent_operation_attempts]: the primary
    and unique keys. *)
Definition insert_operation (id : string) (o : StoredOperation) : M control_db unit :=
  s ← get;
  lift (ensure (is_None_b (t_operations s !! id)) EIntegrity "UNIQUE constraint failed");;
  put_operation id o.

Definition insert_agent_attempt (fence : string) (a : AgentOperationAttempt) : M control_db unit :=
  s ← get;
  lift (ensure (is_None_b (t_attempts s !! fence)
                && is_None_b (attempt_of s (at_operation_id a) (at_attempt a)))
          EIntegrity "UNIQUE constraint failed");;
  put_attempt fence a.

(** [INSERT INTO reconciliation_operations]: one row per role of a graph
    operation. *)
Definition insert_projection (key : string) (p : ReconciliationOperation) : M control_db unit :=
  s ← get;
  lift (ensure (is_None_b (t_projections s !! key)
                && is_None_b (find_row (λ q, eqb (ro_reconciliation_id q) (ro_reconciliation_id p)
                                             && eqb (ro_graph_operation_id q) (ro_graph_operation_id p)
                                             && eqb (ro_role q) (ro_role p)) (t_projections s)))
          EIntegrity "UNIQUE constraint failed");;
  put_projection key p.

(** ** Facts about queries *)

Lemma find_row_Some {A} (p : A → bool) (t : gmap string A) key row :
  find_row p t = Some (key, row) → t !! key = Some row ∧ p row = true.
Proof.
  unfold find_row. intros [l H]%head_Some.
  assert ((key, row) ∈ filter (λ q : string * A, p q.2 = true) (map_to_list t)) as Hin
    by (rewrite H; by left).
  apply list_elem_of_filter in Hin as [? Hin]. by apply elem_of_map_to_list in Hin.
Qed.

Lemma find_row_None {A} (p : A → bool) (t : gmap string A) key row :
  find_row p t = None → t !! key = Some row → p row = false.
Proof.
  unfold find_row. intros H%head_None Ht. destruct (p row) eqn:Hp; [|done].
  assert ((key, row) ∈ filter (λ q : string * A, p q.2 = true) (map_to_list t)) as Hin.
  { apply list_elem_of_filter. split; [done|]. by apply elem_of_map_to_list. }
  rewrite H in Hin. by apply elem_of_nil in Hin.
Qed.

Lemma attempt_of_Some s id number fence a :
  attempt_of s id number = Some (fence, a) →
  t_attempts s !! fence = Some a ∧ at_operation_id a = id ∧ at_attempt a = number.
Proof. unfold attempt_of. intros [? ?]%find_row_Some. by bool_facts. Qed.

Lemma attempt_of_None s id number fence a :
  attempt_of s id number = None → t_attempts s !! fence = Some a →
  at_operation_id a = id → at_attempt a ≠ number.
Proof.
  unfold attempt_of. intros H Ha <- <-. eapply find_row_None in H; [|exact Ha]. cbn in H.
  by rewrite eqb_refl, Z.eqb_refl in H.
Qed.
