(* ===== verification/AgentJobs.v ===== *)
(** * The agent job queue ([control/src/vonk_control/agent_jobs.py])

    [AgentJobService]: node-scoped operations that agents claim under a lease,
    keep with heartbeats and finish with results. Every public method is one SQL
    transaction over [control_db].

    The objects the constructor takes are parameters: [redact_text] of the
    logging module, the consumers of contacts and results, the two callbacks that
    tell which commit may be reconciled, and the authorizer of agent updates.
    The clock is read several times in some methods; each reading is an argument,
    and so is every UUID drawn and the set of rows other transactions hold, which
    [FOR UPDATE SKIP LOCKED] passes over. Row locks themselves have no effect on
    a transaction that runs alone: [_lock_platform_update_claim], which does
    nothing else, is left out, and so are the thread condition that wakes polls
    and the configuration of the consumers before the first call. *)

From stdpp Require Import pretty.
From S2P Require Import Prelude Identifiers Canonical Datetimes Contracts PackageEngine Protocol.
From S2P Require Import OperationGraph Orchestration NodeLeases Jobs AgentTables.

Definition values (l : list AgentOperation) : list string := map operation_value l.

Definition safe_automatic_reclaim : list string :=
  values [NODE_PROBE; PACKAGE_HEALTH; WORKLOAD_HEALTH; WORKLOAD_VERIFY].

Definition package_capabilities : list string :=
  ["package-abi-v1"; "package-backend-native-v1"]
  ++ values [PACKAGE_PREPARE; PACKAGE_ACTIVATE; PACKAGE_HEALTH; PACKAGE_STOP; PACKAGE_ROLLBACK;
             PACKAGE_REMOVE; PACKAGE_REPAIR; PACKAGE_GC].

Definition recipe_capabilities : list string :=
  values [RECIPE_BUILD; RECIPE_IMAGE_IMPORT; RECIPE_INSTALL; RECIPE_START; RECIPE_STOP; RECIPE_UNINSTALL].

Definition mutating_operations : list string :=
  values [AGENT_ROLLBACK; AGENT_UPDATE; RELEASE_INSTALL; PACKAGE_PREPARE; PACKAGE_ACTIVATE;
          PACKAGE_STOP; PACKAGE_ROLLBACK; PACKAGE_REMOVE; PACKAGE_REPAIR; PACKAGE_GC;
          WORKLOAD_PREPARE; WORKLOAD_START; WORKLOAD_STOP; RECIPE_BUILD; RECIPE_IMAGE_IMPORT;
          RECIPE_INSTALL; RECIPE_START; RECIPE_STOP; RECIPE_UNINSTALL].

Definition terminal_parent_states : list string :=
  ["succeeded"; "failed"; "waiting-for-operator"; "expired"].

Definition required_capabilities : list string :=
  values [NODE_PROBE; RELEASE_INSTALL; WORKLOAD_HEALTH; WORKLOAD_PREPARE; WORKLOAD_START;
          WORKLOAD_STOP; WORKLOAD_VERIFY].

Definition next_capabilities : list string :=
  required_capabilities ++ values [AGENT_ROLLBACK; AGENT_UPDATE] ++ ["agent.runtime.rust.v1"]
  ++ package_capabilities ++ recipe_capabilities.

Definition mutating (kind : string) : bool := among kind mutating_operations.
Definition is_update (kind : string) : bool := among kind (values [AGENT_UPDATE; AGENT_ROLLBACK]).

Definition subset (l k : list string) : bool := forallb (λ x, among x k) l.

(** ** Datetimes *)

(** [int(datetime.timestamp())]. *)
Definition timestamp (t : Z) : Z := Z.quot t microsecond.

(** [datetime.fromtimestamp(n, tz=UTC)]: the years 1 to 9999. *)
Definition fromtimestamp (n : Z) : option Z :=
  if (-62135596800 <=? n)%Z && (n <=? 253402300799)%Z then Some (n * microsecond)%Z else None.

(** ** Advertised capabilities and identities *)

Definition check_capabilities (capabilities : option (list string)) : result (option (list string)) :=
  match capabilities with
  | None => mret None
  | Some l =>
      ensure (nonempty l && distinct l && subset l next_capabilities) EValue
        "agent capabilities are invalid";;
      mret (Some (py_sorted l))
  end.

Definition check_implementation (value : option string) : result (option string) :=
  ensure (match value with Some v => among v ["python"; "rust"] | None => true end) EValue
    "agent implementation is invalid";;
  mret value.

Record RuntimeIdentity := MkRuntime {
  ri_document : json; ri_architecture : string; ri_platform_version : string;
  ri_build_digest : string; ri_active_slot : string; ri_agent_sha256 : string;
  ri_supervisor_generation : Z; ri_supervisor_ready_generation : option Z; ri_self_test_passed : bool
}.

Definition runtime_fields : list string :=
  ["active_slot"; "architecture"; "agent_sha256"; "build_digest"; "platform_version";
   "self_test_passed"; "supervisor_generation"; "supervisor_ready_generation"].

Definition is_generation (n : Z) : bool := (1 <=? n)%Z && (n <=? 999999999)%Z.

Definition is_build_digest (s : string) : bool :=
  String.prefix "sha256:" s && is_digest (drop_chars 7 s).

(** The fields in the order the method looks at them. *)
Definition runtime_values (d : list (string * json)) : option RuntimeIdentity :=
  match field d "architecture", field d "active_slot", field d "agent_sha256",
        field d "build_digest", field d "platform_version", field d "supervisor_generation",
        field d "self_test_passed" with
  | JStr architecture, JStr slot, JStr sha256, JStr build, JStr version, JInt generation, JBool passed =>
      let ready := match field d "supervisor_ready_generation" with JInt n => Some n | _ => None end in
      if among architecture ["linux-arm64"; "linux-x86_64"] && among slot ["A"; "B"]
         && is_digest sha256 && is_build_digest build && is_version version
         && is_generation generation
         && match field d "supervisor_ready_generation" with
            | JNull => negb passed
            | JInt n => (n =? generation)%Z
            | _ => false
            end
      then Some (MkRuntime (JObj d) architecture version build slot sha256 generation ready passed)
      else None
  | _, _, _, _, _, _, _ => None
  end.

Definition runtime_identity (value : option json) : result (option RuntimeIdentity) :=
  match value with
  | None => mret None
  | Some (JObj d) =>
      ensure (same_keys d runtime_fields) EValue "agent runtime identity is invalid";;
      ensure (hashable (field d "architecture")) EType "unhashable type";;
      ensure (is_str (λ s, among s ["linux-arm64"; "linux-x86_64"]) (field d "architecture")) EValue
        "agent runtime identity is invalid";;
      ensure (hashable (field d "active_slot")) EType "unhashable type";;
      match runtime_values d with
      | Some r => mret (Some r)
      | None => raise EValue "agent runtime identity is invalid"
      end
  | Some _ => raise EType "agent runtime identity is invalid"
  end.

(** ** Identities of nodes *)

Definition lock_identity (s : control_db) (node_id serial : string)
    : option (AgentNode * AgentCertificate) :=
  match t_nodes s !! node_id, t_certificates s !! serial with
  | Some n, Some c => if eqb (cert_node_id c) node_id then Some (n, c) else None
  | _, _ => None
  end.

Definition identity_is_active (n : AgentNode) (c : AgentCertificate) (now : Z) : bool :=
  eqb (node_state n) "active" && is_None_b (node_revoked_at n) && eqb (cert_state c) "active"
  && is_None_b (cert_revoked_at c) && (cert_not_before c <=? now)%Z && (now <? cert_not_after c)%Z.

Definition stale_message : string := "agent operation lease, certificate, or fence is stale".
Definition stale_attempt {A} : M control_db A := throw EStaleAgentAttempt stale_message.

(** [[node.node_id for node in nodes] == sorted(targets)] for the nodes that exist. *)
Definition targets_exist (s : control_db) (targets : list string) : bool :=
  eqb (py_sorted (filter (λ id, is_Some (t_nodes s !! id)) (remove_dups targets))) (py_sorted targets).

(** The parent job of an operation: [JOIN jobs ON ... WHERE agent_operations.id = ...]. *)
Definition parent_of (s : control_db) (operation_id : string) : option (string * Job) :=
  o ← t_operations s !! operation_id;
  j ← t_jobs s !! so_parent_job_id o;
  Some (so_parent_job_id o, j).

Definition lock_reconciliation_targets (operation_id : string) : M control_db unit :=
  s ← get;
  match parent_of s operation_id with
  | Some (_, j) =>
      if is_None_b (job_reconciliation_id j) then mret () else
      lift (ensure (nonempty (job_targets j) && distinct (job_targets j)) EValue
              "reconciliation parent targets are invalid");;
      lift (ensure (targets_exist s (job_targets j)) EStaleAgentAttempt stale_message)
  | None => mret ()
  end.

(** ** Contacts *)

Record AgentSource := MkSource {
  source_node_id : string; source_serial : string; source_fingerprint : string;
  source_verified : bool; source_address : string
}.

(** The contact columns after a contact at [now]. *)
Definition contacted (serial : string) (c : AgentCertificate) (node_id : string) (now : Z)
    (protocol : option Z) (capabilities : option (list string)) (runtime : option RuntimeIdentity)
    (n : AgentNode) : AgentNode :=
  let seen := match node_last_seen_at n with
              | Some t => if (t <? now)%Z then now else t
              | None => now
              end in
  let n := with_contact n
             (match protocol with Some v => Some v | None => node_protocol_version n end)
             (default (node_capabilities n) capabilities) (Some seen) in
  match runtime with
  | None => n
  | Some r =>
      MkNode (node_state n) (node_implementation n) (node_migration_state n)
        (node_protocol_version n) (Some (ri_architecture r)) (Some (ri_platform_version r))
        (Some (ri_build_digest r)) (Some (ri_active_slot r)) (Some (ri_agent_sha256 r))
        (Some (ri_supervisor_generation r)) (ri_supervisor_ready_generation r)
        (ri_self_test_passed r) (Some serial)
        (Some (utf8_digest (JObj [("certificate_fingerprint", JStr (cert_fingerprint c));
                                  ("certificate_serial", JStr serial);
                                  ("node_id", JStr node_id);
                                  ("observed_at", JStr (isoformat seen));
                                  ("runtime_identity", ri_document r)])))
        (node_capabilities n) (node_last_seen_at n) (node_revoked_at n)
  end.

Definition record_contact (node_id serial : string) (now : Z) (protocol : option Z)
    (capabilities : option (list string)) (runtime : option RuntimeIdentity) : M control_db unit :=
  s ← get;
  match t_nodes s !! node_id, t_certificates s !! serial with
  | Some n, Some c => put_node node_id (contacted serial c node_id now protocol capabilities runtime n)
  | _, _ => mret ()
  end.

(** ** The implementation of an agent *)

Definition migration_enrolled (s : control_db) (node_id serial : string) : bool :=
  existsb (λ p : string * AgentEnrollment,
      eqb (enrollment_node_id p.2) node_id && eqb (enrollment_state p.2) "approved"
      && eqb (enrollment_certificate_serial p.2) (Some serial)
      && eqb (grant_purpose <$> t_grants s !! enrollment_grant_id p.2) (Some "rust-migration"))
    (map_to_list (t_enrollments s)).

(** The older certificates of a node are revoked. *)
Definition revoke_older (node_id serial : string) (now : Z)
    : gmap string AgentCertificate → gmap string AgentCertificate :=
  map_imap (λ key c,
    Some (if eqb (cert_node_id c) node_id && negb (eqb key serial)
             && among (cert_state c) ["active"; "staged"]
          then revoke_certificate now c else c)).

Definition negotiate_implementation (node_id serial : string) (advertised : option string)
    (protocol : option Z) (capabilities : option (list string)) (now : Z) : M control_db unit :=
  s ← get;
  match t_nodes s !! node_id with
  | None => mret ()
  | Some n =>
      let implementation := default "python" advertised in
      let rust_ready := eqb implementation "rust"
                        && match protocol with Some v => (3 <=? v)%Z | None => false end
                        && match capabilities with
                           | Some l => among "agent.runtime.rust.v1" l
                           | None => false
                           end in
      if eqb (node_implementation n) "pending" then
        lift (ensure rust_ready EValue "new enrollment requires the Rust agent");;
        put_node node_id (with_implementation n "rust" "complete")
      else if eqb (node_implementation n) "python" then
        if eqb implementation "python" then
          put_node node_id (with_implementation n (node_implementation n) "required")
        else
          lift (ensure rust_ready EValue "Rust agent capability negotiation is incomplete");;
          lift (ensure (migration_enrolled s node_id serial) EValue
                  "Rust migration requires a dedicated migration certificate");;
          modify (set_t_certificates (revoke_older node_id serial now));;
          put_node node_id (with_implementation n "rust" "complete")
      else
        lift (ensure (negb (eqb (node_implementation n) "rust" && negb rust_ready)) EValue
                "a migrated node cannot downgrade to the Python agent");;
        lift (ensure (eqb (node_implementation n) "rust" && eqb (node_migration_state n) "complete")
                EValue "agent migration state is invalid")
  end.

(** ** Health observations of probes *)

Definition capacity_max : Z := 2 ^ 63 - 1.

(** [mapping.get(key)] when [mapping] is a mapping, [None] otherwise. *)
Definition item_of (v : json) (key : string) : json :=
  match v with JObj items => field items key | _ => JNull end.

Definition in_capacity (low : Z) (v : json) : bool :=
  is_int (λ n, (low <=? n)%Z && (n <=? capacity_max)%Z) v.

(** An optional total that is not below the available bytes. *)
Definition total_ok (available total : json) : bool :=
  match available, total with
  | _, JNull => true
  | JInt a, _ => in_capacity a total
  | _, _ => false
  end.

Definition health_status (accelerator_available warning : bool) (processes : option Z) : string :=
  if negb accelerator_available then "critical"
  else if warning then "warning"
  else if is_None_b processes then "warning" else "healthy".

Definition compute_occupancy (processes : option Z) : string :=
  match processes with
  | None => "unknown"
  | Some n => if (n =? 0)%Z then "clean" else "active"
  end.

Definition optional_item (key : string) (v : json) : list (string * json) :=
  match v with JNull => [] | _ => [(key, v)] end.

Definition probe_health (value : json) : result json :=
  match value with
  | JObj v =>
      ensure (same_keys v ["status"; "evidence"] && py_eqb (field v "status") (JStr "ok")) EValue
        "successful node probe result is invalid";;
      match field v "evidence" with
      | JObj evidence =>
          ensure (same_keys evidence ["vonk_forge"; "nvidia"]) EValue
            "successful node probe evidence is invalid";;
          let health := field evidence "vonk_forge" in
          let nvidia := field evidence "nvidia" in
          ensure (is_object (λ h, py_eqb (field h "schema_version") (JInt 1)) health
                  && is_object (λ _, true) nvidia) EValue
            "successful node probe evidence is invalid";;
          let memory := item_of health "memory" in
          let storage := item_of health "storage" in
          let accelerator := item_of health "accelerator" in
          let memory_available := item_of memory "available_bytes" in
          let disk_available := item_of storage "available_bytes" in
          let memory_total := item_of memory "total_bytes" in
          let disk_total := item_of storage "total_bytes" in
          let available := match accelerator with
                           | JObj a => field a "available"
                           | _ => JBool false
                           end in
          ensure (in_capacity 0 memory_available && in_capacity 0 disk_available
                  && total_ok memory_available memory_total && total_ok disk_available disk_total
                  && match available with JBool _ => true | _ => false end) EValue
            "successful node probe capacity is invalid";;
          let accelerator_available := match available with JBool b => b | _ => false end in
          tools ← match nvidia with
                  | JObj n => match default (JObj []) (lookup_key n "tools") with
                              | JObj tools => mret tools
                              | _ => raise EType "successful node probe tool evidence is invalid"
                              end
                  | _ => mret []
                  end;
          let warning := existsb (λ p : string * json,
                           negb (is_object (λ t, py_eqb (field t "status") (JStr "ok")) p.2)) tools in
          let processes := match item_of accelerator "active_nvidia_compute_processes" with
                           | JInt n => if accelerator_available && (0 <=? n)%Z && (n <=? 65535)%Z
                                       then Some n else None
                           | _ => None
                           end in
          let observation := JObj (
            [("status", JStr (health_status accelerator_available warning processes));
             ("memory_available_bytes", memory_available);
             ("disk_available_bytes", disk_available);
             ("active_nvidia_compute_processes", match processes with Some n => JInt n | None => JNull end);
             ("compute_occupancy", JStr (compute_occupancy processes))]
            ++ optional_item "memory_total_bytes" memory_total
            ++ optional_item "disk_total_bytes" disk_total) in
          ensure (Z.of_nat (String.length (canonical_utf8 observation)) <=? 1024)%Z EValue
            "node probe health observation is too large";;
          mret observation
      | _ => raise EValue "successful node probe evidence is invalid"
      end
  | _ => raise EValue "successful node probe result is invalid"
  end.

(** ** The lease a signed update is bound to *)

Fixpoint trim_left (s : string) : string :=
  match s with
  | String c rest => if is_py_space c then trim_left rest else s
  | EmptyString => EmptyString
  end.

Fixpoint trim_right (s : string) : string :=
  match s with
  | String c rest =>
      match trim_right rest with
      | EmptyString => if is_py_space c then EmptyString else String c EmptyString
      | rest => String c rest
      end
  | EmptyString => EmptyString
  end.

(** Decimal digits with single underscores between them. *)
Fixpoint digits_value (acc : Z) (after_digit : bool) (s : string) : option Z :=
  match s with
  | EmptyString => if after_digit then Some acc else None
  | String c rest =>
      if is_digit c then digits_value (acc * 10 + (Z.of_N (code c) - 48)) true rest
      else if eqb c "_"%char && after_digit then digits_value acc false rest
      else None
  end.

(** [int(value)]; [None] stands for the exceptions it raises. *)
Definition py_int (v : json) : option Z :=
  match v with
  | JInt n => Some n
  | JBool b => Some (if b then 1 else 0)%Z
  | JStr s =>
      match trim_right (trim_left s) with
      | String c rest =>
          if eqb c "-"%char then Z.opp <$> digits_value 0 false rest
          else if eqb c "+"%char then digits_value 0 false rest
          else digits_value 0 false (String c rest)
      | EmptyString => None
      end
  | _ => None
  end.

Definition opt_str (o : option string) : json := match o with Some s => JStr s | None => JNull end.
Definition opt_int (o : option Z) : json := match o with Some n => JInt n | None => JNull end.

(** The slot, digest and generation a receipt was issued for. *)
Definition source_binding (kind : string) (receipt : list (string * json)) (n : AgentNode) : bool :=
  let same prefix :=
    py_eqb (field receipt (prefix +:+ "_slot")) (opt_str (node_active_slot n))
    && py_eqb (field receipt (prefix +:+ "_sha256")) (opt_str (node_agent_sha256 n))
    && py_eqb (field receipt (prefix +:+ "_generation")) (opt_int (node_supervisor_generation n)) in
  if eqb kind AGENT_UPDATE then same "previous"
  else py_eqb (field receipt "action") (JStr "operator-rollback") && same "current".

Definition update_claim_binding (id : string) (o : StoredOperation) (node_id : string) (n : AgentNode)
    (now : Z) : option (string * Z) :=
  if negb (is_update (so_kind o)) then None else
  match item_of (so_payload o) "receipt" with
  | JObj receipt =>
      match field receipt "fence", py_int (field receipt "claim_deadline") ≫= fromtimestamp with
      | JStr fence, Some deadline =>
          if (so_current_attempt o =? 0)%Z && is_uuid4 fence
             && py_eqb (field receipt "operation_id") (JStr id)
             && py_eqb (field receipt "attempt") (JInt 1)
             && py_eqb (field receipt "node_id") (JStr node_id)
             && py_eqb (field receipt "expires_at") (field receipt "claim_deadline")
             && (now + 30 * microsecond <? deadline)%Z
             && source_binding (so_kind o) receipt n
             && eqb (so_payload_digest o) (utf8_digest (so_payload o))
          then Some (fence, deadline) else None
      | _, _ => None
      end
  | _ => None
  end.

(** ** Parents *)

Definition older_operation (p q : string * StoredOperation) : bool :=
  (so_created_at p.2 <? so_created_at q.2)%Z
  || (so_created_at p.2 =? so_created_at q.2)%Z && bool_decide (String.le p.1 q.1).

Definition operation_le (p q : string * StoredOperation) : Prop := older_operation p q = true.

#[export] Instance operation_le_dec : RelDecision operation_le.
Proof. intros p q. unfold operation_le. apply _. Defined.

Definition children (s : control_db) (job_id : string) : list (string * StoredOperation) :=
  merge_sort operation_le
    (filter (λ p : string * StoredOperation, so_parent_job_id p.2 = job_id)
       (map_to_list (t_operations s))).

Definition settled_states : list string :=
  ["compensated"; "succeeded"; "failed"; "waiting-for-operator"].

(** The state of a job whose operations are all settled. *)
Definition aggregate_state (states : list string) : string :=
  if among "failed" states then "failed"
  else if among "waiting-for-operator" states then "waiting-for-operator"
  else "succeeded".

Section service.
Context (redact_text : string → string).

Definition redacted (s : string) : string := String.substring 0 1024 (redact_text s).

Definition check_reason (reason : option string) : result string :=
  match reason with
  | Some r => ensure (nonblank r) EValue "failure reason is required";; mret (redacted r)
  | None => raise EValue "failure reason is required"
  end.

(** The reason an attempt gives: [result["reason"]], or else [result["error_code"]]. *)
Definition attempt_reason (value : json) : result (option string) :=
  match value with
  | JObj items =>
      mret match field items "reason", field items "error_code" with
           | JStr r, _ => Some r
           | _, JStr r => Some r
           | _, _ => None
           end
  | _ => raise EExternal "object has no attribute 'get'"
  end.

(** The reason of the first operation in [state] that gives one. *)
Fixpoint first_reason (s : control_db) (state : string) (l : list (string * StoredOperation))
    : result (option string) :=
  match l with
  | [] => mret None
  | (id, o) :: l =>
      if negb (eqb (so_state o) state) then first_reason s state l else
      match attempt_of s id (so_current_attempt o) with
      | Some (_, a) =>
          match at_result a with
          | Some value =>
              reason ← attempt_reason value;
              match reason with
              | Some r => mret (Some (redacted r))
              | None => first_reason s state l
              end
          | None => first_reason s state l
          end
      | None => first_reason s state l
      end
  end.

Definition aggregate_parent (job_id : string) (now : Z) : M control_db unit :=
  s ← get;
  match t_jobs s !! job_id with
  | None => throw EKey job_id
  | Some j =>
      if eqb (job_kind j) "platform.update" || negb (is_None_b (job_reconciliation_id j)) then mret () else
      let operations := children s job_id in
      if negb (nonempty operations) || existsb (λ p, negb (among (so_state p.2) settled_states)) operations
      then mret () else
      let state := aggregate_state (map (λ p, so_state p.2) operations) in
      reason ← (if eqb state "succeeded" then mret None else lift (first_reason s state operations));
      put_job job_id (with_job_state state reason now j)
  end.

(** ** Reconciliation authority *)

(** One projection of a reconciliation that stops. *)
Definition quiesce_projection (now : Z) (entry : string * ReconciliationOperation) : M control_db unit :=
  let '(key, p) := entry in
  if eqb (ro_state p) "planned" then put_projection key (with_ro_state "failed" p) else
  match ro_agent_operation_id p with
  | None => mret ()
  | Some id =>
      s ← get;
      match t_operations s !! id with
      | None => throw EValue "reconciliation operation projection is incomplete"
      | Some o =>
          if eqb (so_state o) "queued" then
            put_operation id (with_operation_state "failed" now o);;
            put_projection key (with_ro_state "failed" p)
          else if negb (eqb (so_state o) "running") then mret ()
          else
            match attempt_of s id (so_current_attempt o) with
            | Some (fence, a) =>
                lift (ensure (eqb (at_state a) "running") EValue
                        "running reconciliation operation lacks its attempt");;
                let terminal := if mutating (so_kind o) then "waiting-for-operator" else "failed" in
                put_operation id (with_operation_state terminal now o);;
                put_attempt fence (with_at_state terminal a);;
                put_projection key (with_ro_state terminal p)
            | None => throw EValue "running reconciliation operation lacks its attempt"
            end
      end
  end.

Definition quiesce_reconciliation_operations (reconciliation_id : string) (now : Z) : M control_db unit :=
  s ← get;
  eachM (quiesce_projection now) (projections_of s reconciliation_id).

(** The exceptions [_continuous_authority_reason] takes for an unknown commit:
    [OSError], [RuntimeError], [TypeError], [ValueError] and their subclasses. *)
Definition eligibility_unknown (c : exn_class) : bool :=
  negb (among c [EKey; EOverflow; EIntegrity; EInterrupted; EExternal]).

Context (commit_authority : option ((string → result bool) * result string)).

(** [not commit_eligible(base) or current_commit() != base]. *)
Definition commit_changed (base_commit : string) : result bool :=
  match commit_authority with
  | None => mret false
  | Some (commit_eligible, current_commit) =>
      eligible ← commit_eligible base_commit;
      if negb eligible then mret true else
      current ← current_commit;
      mret (negb (eqb current base_commit))
  end.

Definition node_incompatible (low high : Z) (n : AgentNode) : bool :=
  negb (eqb (node_state n) "active") || negb (is_None_b (node_revoked_at n))
  || negb match node_protocol_version n with
          | Some v => (low <=? v)%Z && (v <=? high)%Z
          | None => false
          end
  || negb (subset required_capabilities (node_capabilities n)
           && subset (node_capabilities n) next_capabilities).

Definition continuous_authority_reason (s : control_db) (r : Reconciliation) (j : Job) (o : StoredOperation)
    : result (option string) :=
  if is_None_b commit_authority then mret None else
  match commit_changed (rec_base_commit r) with
  | Err e =>
      if eligibility_unknown (exn_cls e)
      then mret (Some "reconciliation commit eligibility is unavailable") else Err e
  | Ok true => mret (Some "reconciliation commit is no longer eligible")
  | Ok false =>
      mret match rec_resolved_plan r with
           | Some (JObj document) =>
               match field document "agent_protocol_range" with
               | JArr [JInt low; JInt high] =>
                   if negb (is_array (λ _, true) (field document "targets")
                            && py_eqb (field document "targets") (JArr (map JStr (job_targets j)))
                            && eqb (so_base_commit o) (rec_base_commit r))
                   then Some "reconciliation plan authority is invalid"
                   else if negb (targets_exist s (job_targets j))
                   then Some "reconciliation target set is unavailable"
                   else if existsb (λ p : string * AgentNode,
                             among p.1 (job_targets j) && node_incompatible low high p.2)
                             (map_to_list (t_nodes s))
                   then Some "reconciliation target agent is incompatible"
                   else None
               | _ => Some "reconciliation plan authority is invalid"
               end
           | _ => Some "reconciliation plan authority is unavailable"
           end
  end.

Definition expected_phase (p : ReconciliationOperation) : string :=
  if eqb (ro_role p) "compensation" then "compensating" else "dispatching".

Definition reconciliation_authorized (s : control_db) (r : Reconciliation) (j : Job)
    (p : ReconciliationOperation) (o : StoredOperation) : result bool :=
  if eqb (job_state j) "running" && eqb (rec_status r) "running"
     && eqb (rec_current_phase r) (expected_phase p) && among (ro_state p) ["queued"; "running"]
  then reason ← continuous_authority_reason s r j o; mret (is_None_b reason)
  else mret false.

(** The job and the reconciliation wait for the operator. *)
Definition stop_reconciliation (reconciliation_id job_id reason : string) (now : Z) : M control_db unit :=
  s ← get;
  match t_reconciliations s !! reconciliation_id, t_jobs s !! job_id with
  | Some r, Some j =>
      put_reconciliation reconciliation_id (stopped_reconciliation reason r);;
      put_job job_id (with_job_state "waiting-for-operator" (Some reason) now j)
  | _, _ => mret ()
  end.

Definition execution_reason : string := "reconciliation execution authority is no longer eligible".

(** The rollout that must hold the node for an update or a rollback. *)
Definition rollout_authority (s : control_db) (id : string) (o : StoredOperation) (j : Job) : bool :=
  if negb (eqb (job_kind j) "platform.update" && (so_current_attempt o =? 0)%Z) then false else
  match rollout_of_job s (so_parent_job_id o) with
  | None => false
  | Some (rollout_id, rollout) =>
      let held := match t_leases s !! so_node_id o with
                  | Some l => eqb (ml_owner_kind l) "update-rollout" && eqb (ml_owner_id l) rollout_id
                              && eqb (ml_state l) "held"
                  | None => false
                  end in
      match rollout_node_of s rollout_id (so_node_id o) with
      | None => false
      | Some (_, node) =>
          let phase := if eqb (so_kind o) AGENT_UPDATE then "updating" else "rolling-back" in
          let bound := if eqb (so_kind o) AGENT_UPDATE then un_operation_id node
                       else un_rollback_operation_id node in
          eqb (job_state j) "running" && eqb (ur_state rollout) phase && eqb (un_state node) phase
          && eqb bound (Some id) && held
      end
  end.

Definition retried (o : StoredOperation) : bool :=
  eqb (so_state o) "waiting-for-operator" && eqb (so_retry_disposition o) (Some "retry")
  && eqb (so_retry_disposition_attempt o) (Some (so_current_attempt o)).

Definition claim_has_authority (id : string) (o : StoredOperation) (now : Z) : M control_db bool :=
  s ← get;
  match t_jobs s !! so_parent_job_id o with
  | None => throw EValue "agent operation lacks its parent job"
  | Some j =>
      match job_reconciliation_id j with
      | None =>
          if eqb (so_kind o) AGENT_UPDATE && negb (eqb (job_kind j) "platform.update") then
            mret (negb (among (job_state j) terminal_parent_states))
          else if is_update (so_kind o) then mret (rollout_authority s id o j)
          else if eqb (job_state j) "waiting-for-operator" && retried o then
            put_job (so_parent_job_id o) (with_job_state "queued" None now j);;
            mret true
          else mret (negb (among (job_state j) terminal_parent_states))
      | Some reconciliation_id =>
          match t_reconciliations s !! reconciliation_id, projection_in s reconciliation_id id with
          | Some r, Some (_, p) =>
              authorized ← lift (reconciliation_authorized s r j p o);
              if (authorized : bool) then mret true else
              quiesce_reconciliation_operations reconciliation_id now;;
              stop_reconciliation reconciliation_id (so_parent_job_id o) execution_reason now;;
              mret false
          | _, _ => throw EValue "agent operation lacks reconciliation authority"
          end
      end
  end.

Definition unsafe_reason : string := "mutating agent operation lease expired with uncertain outcome".

(** Whether the operation belongs to a reconciliation, which then stops. *)
Definition project_unsafe_expiry (id : string) (o : StoredOperation) (now : Z) : M control_db bool :=
  s ← get;
  match projection_of s id with
  | None => mret false
  | Some (key, p) =>
      match t_reconciliations s !! ro_reconciliation_id p, t_jobs s !! so_parent_job_id o with
      | Some r, Some j =>
          lift (ensure (eqb (job_reconciliation_id j) (Some (ro_reconciliation_id p))) EValue
                  "unsafe agent expiry lacks reconciliation authority");;
          put_projection key (with_ro_state "waiting-for-operator" p);;
          quiesce_reconciliation_operations (ro_reconciliation_id p) now;;
          stop_reconciliation (ro_reconciliation_id p) (so_parent_job_id o) unsafe_reason now;;
          mret true
      | _, _ => throw EValue "unsafe agent expiry lacks reconciliation authority"
      end
  end.

(** ** Claims *)

Context (contact_consumer : option (AgentSource → M control_db unit)).

(** A contact is consumed in the caller's transaction, after its source was
    compared with the locked identity. *)
Definition consume_contact (source : option AgentSource) (node_id serial : string) (c : AgentCertificate)
    : M control_db unit :=
  match source with
  | None => mret ()
  | Some source =>
      lift (ensure (eqb (source_node_id source) node_id && eqb (source_serial source) serial
                    && eqb (source_fingerprint source) (cert_fingerprint c) && source_verified source)
              EValue "agent contact source does not match its locked identity");;
      match contact_consumer with
      | None => throw ERuntime "agent contact consumer is not configured"
      | Some consume => consume source
      end
  end.

(** The arguments of a claim, and what one poll draws and reads. *)
Record claim_request := ClaimRequest {
  cr_node_id : string; cr_serial : string; cr_lease_seconds : Z; cr_protocol : option Z;
  cr_capabilities : option (list string); cr_runtime : option RuntimeIdentity;
  cr_implementation : option string; cr_source : option AgentSource
}.

Record poll := Poll {
  poll_locked : gset string; poll_now : Z; poll_revocation : Z; poll_aggregation : Z;
  poll_fence : string
}.

Definition is_reconciled (s : control_db) (p : string * StoredOperation) : bool :=
  match t_jobs s !! so_parent_job_id p.2 with
  | Some j => negb (is_None_b (job_reconciliation_id j))
  | None => false
  end.

Definition reconciliation_hint (s : control_db) (node_id : string) : option (string * StoredOperation) :=
  best older_operation
    (filter (λ p : string * StoredOperation,
       so_node_id p.2 = node_id ∧ is_reconciled s p = true
       ∧ so_state p.2 ∈ ["queued"; "running"; "waiting-for-operator"]) (map_to_list (t_operations s))).

Definition expired (s : control_db) (id : string) (o : StoredOperation) (now : Z) : bool :=
  existsb (λ p : string * AgentOperationAttempt,
      eqb (at_operation_id p.2) id && (at_attempt p.2 =? so_current_attempt o)%Z
      && eqb (at_state p.2) "running" && (at_lease_deadline p.2 <=? now)%Z)
    (map_to_list (t_attempts s)).

Definition agent_claimable (s : control_db) (locked : gset string) (node_id : string) (now : Z)
    (excluded : list string) (p : string * StoredOperation) : bool :=
  eqb (so_node_id p.2) node_id && negb (among p.1 excluded) && negb (bool_decide (p.1 ∈ locked))
  && (eqb (so_state p.2) "queued" && (so_current_attempt p.2 =? 0)%Z
      || eqb (so_state p.2) "running" && expired s p.1 p.2 now
      || retried p.2).

(** [ORDER BY created_at, id LIMIT 1]. *)
Definition next_operation (s : control_db) (locked : gset string) (node_id : string) (now : Z)
    (excluded : list string) : option (string * StoredOperation) :=
  best older_operation
    (filter (λ p, agent_claimable s locked node_id now excluded p = true) (map_to_list (t_operations s))).

(** The current row of an operation that was selected. *)
Definition refreshed (id : string) (o : StoredOperation) : M control_db StoredOperation :=
  s ← get; mret (default o (t_operations s !! id)).

(** The [while True] loop of [_claim_once]. An update without authority is held
    back and excluded; the loop ends at the first other operation. Out of fuel,
    the model raises an error of its own. *)
Fixpoint select_operation (fuel : nat) (locked : gset string) (node_id : string) (now : Z)
    (excluded : list string) : M control_db (option (string * StoredOperation)) :=
  match fuel with
  | O => throw EInterrupted "out of fuel"
  | S fuel =>
      s ← get;
      match next_operation s locked node_id now excluded with
      | None => mret None
      | Some (id, o) =>
          authorized ← claim_has_authority id o now;
          o ← refreshed id o;
          if (authorized : bool) then mret (Some (id, o))
          else if negb (is_update (so_kind o)) then mret None
          else
            put_operation id (held_back now o);;
            select_operation fuel locked node_id now (excluded ++ [id])
      end
  end.

(** Every iteration excludes one more operation. *)
Definition claim_fuel (s : control_db) : nat := S (size (t_operations s)).

Definition active_mutation (s : control_db) (id node_id : string) : bool :=
  existsb (λ p : string * StoredOperation,
      eqb (so_node_id p.2) node_id && negb (eqb p.1 id) && mutating (so_kind p.2)
      && eqb (so_state p.2) "running") (map_to_list (t_operations s)).

(** The gates a selected operation passes before it changes. *)
Definition dispatchable (s : control_db) (r : claim_request) (id : string) (o : StoredOperation) : bool :=
  match cr_capabilities r with Some l => among (so_kind o) l | None => true end
  && (negb (among (so_kind o) (package_capabilities ++ recipe_capabilities))
      || match cr_protocol r, cr_capabilities r with
         | Some v, Some _ => (2 <=? v)%Z
         | _, _ => false
         end)
  && negb (mutating (so_kind o) && active_mutation s id (cr_node_id r)).

Definition expire_previous (id : string) (o : StoredOperation) : M control_db unit :=
  if (so_current_attempt o =? 0)%Z then mret () else
  s ← get;
  match attempt_of s id (so_current_attempt o) with
  | Some (fence, a) => put_attempt fence (with_at_state "expired" a)
  | None => mret ()
  end.

(** A new attempt under [fence] until [deadline]. *)
Definition grant (r : claim_request) (id : string) (o : StoredOperation) (now : Z) (fence : string)
    (deadline : Z) : M control_db (option AgentClaim) :=
  put_operation id (started now o);;
  insert_agent_attempt fence
    (MkAgentAttempt id (so_current_attempt o + 1) deadline (cr_serial r) "running" None None);;
  operation ← lift (operation_of_value (so_kind o));
  message ← lift (agent_claim
    (Identity (so_parent_job_id o) id (so_current_attempt o + 1) fence (so_node_id o) deadline)
    operation (so_base_commit o) (so_payload_digest o) (so_payload o));
  mret (Some message).

Definition dispatch (r : claim_request) (p : poll) (id : string) (o : StoredOperation)
    : M control_db (option AgentClaim) :=
  let now := poll_now p in
  s ← get;
  if negb (dispatchable s r id o) then mret None else
  expire_previous id o;;
  if eqb (so_state o) "running" && negb (among (so_kind o) safe_automatic_reclaim) then
    put_operation id (held_back now o);;
    projected ← project_unsafe_expiry id o now;
    (if (projected : bool) then mret () else aggregate_parent (so_parent_job_id o) (poll_aggregation p));;
    mret None
  else
    match t_nodes s !! cr_node_id r with
    | None => mret None
    | Some n =>
        match update_claim_binding id o (cr_node_id r) n now with
        | Some (fence, deadline) => grant r id o now fence deadline
        | None =>
            if is_update (so_kind o) then
              put_operation id (held_back now o);;
              aggregate_parent (so_parent_job_id o) (poll_aggregation p);;
              mret None
            else grant r id o now (poll_fence p) (now + cr_lease_seconds r * microsecond)
        end
    end.

Definition claim_once (r : claim_request) (p : poll) : M control_db (option AgentClaim) :=
  transaction (
    s ← get;
    match reconciliation_hint s (cr_node_id r) with
    | Some (id, _) => lock_reconciliation_targets id
    | None => mret ()
    end;;
    match lock_identity s (cr_node_id r) (cr_serial r) with
    | None => mret None
    | Some (n, c) =>
        if negb (identity_is_active n c (poll_now p)) then mret None else
        negotiate_implementation (cr_node_id r) (cr_serial r) (cr_implementation r) (cr_protocol r)
          (cr_capabilities r) (poll_revocation p);;
        consume_contact (cr_source r) (cr_node_id r) (cr_serial r) c;;
        record_contact (cr_node_id r) (cr_serial r) (poll_now p) (cr_protocol r) (cr_capabilities r)
          (cr_runtime r);;
        s ← get;
        selected ← select_operation (claim_fuel s) (poll_locked p) (cr_node_id r) (poll_now p) [];
        match selected with
        | None => mret None
        | Some (id, o) => dispatch r p id o
        end
    end).

Definition check_claim (node_id serial : string) (lease_seconds wait : Z) (protocol : option Z) : result unit :=
  ensure (nonblank node_id && nonblank serial && (0 <? lease_seconds)%Z
          && (0 <=? wait)%Z && (wait <=? 60 * microsecond)%Z
          && match protocol with
             | Some v => (1 <=? v)%Z && (v <=? 2147483647)%Z
             | None => true
             end) EValue "node, certificate, and positive lease are required".

(** The long poll: [others] is what other transactions commit before a poll, the
    instant the monotonic clock after it. The polls a caller makes are finite;
    the list ends when the wait is over or the caller goes away. *)
Fixpoint poll_loop (r : claim_request) (deadline : Z)
    (polls : list ((control_db → control_db) * poll * Z)) : M control_db (option AgentClaim) :=
  match polls with
  | [] => mret None
  | (others, p, instant) :: polls =>
      modify others;;
      message ← claim_once r p;
      match message with
      | Some m => mret (Some m)
      | None => if (deadline <=? instant)%Z then mret None else poll_loop r deadline polls
      end
  end.

Definition agent_claim_operation (node_id serial : string) (lease_seconds wait start : Z)
    (protocol : option Z) (capabilities : option (list string)) (runtime : option json)
    (implementation : option string) (source : option AgentSource)
    (polls : list ((control_db → control_db) * poll * Z)) : M control_db (option AgentClaim) :=
  lift (check_claim node_id serial lease_seconds wait protocol);;
  advertised ← lift (check_capabilities capabilities);
  running ← lift (runtime_identity runtime);
  implementation ← lift (check_implementation implementation);
  poll_loop (ClaimRequest node_id serial lease_seconds protocol advertised running implementation source)
    (start + wait) polls.

(** ** Heartbeats and results *)

Inductive AgentFence :=
| FToken (token : string)
| FClaim (message : AgentClaim)
| FProgress (message : AgentProgress)
| FResult (message : AgentResult).

Definition fence_identity (f : AgentFence) : option attempt_identity :=
  match f with
  | FToken _ => None
  | FClaim m => Some (claim_identity m)
  | FProgress m => Some (progress_identity m)
  | FResult m => Some (result_identity m)
  end.

Definition fence_token (f : AgentFence) : string :=
  match f with
  | FToken token => token
  | FClaim m => id_fence (claim_identity m)
  | FProgress m => id_fence (progress_identity m)
  | FResult m => id_fence (result_identity m)
  end.

Definition require_active_reconciliation_authority (operation_id : string) : M control_db unit :=
  s ← get;
  match parent_of s operation_id with
  | None => stale_attempt
  | Some (_, j) =>
      match job_reconciliation_id j with
      | None => mret ()
      | Some reconciliation_id =>
          match t_reconciliations s !! reconciliation_id,
                projection_in s reconciliation_id operation_id with
          | Some r, Some (_, p) =>
              lift (ensure (eqb (job_state j) "running" && eqb (rec_status r) "running"
                            && eqb (rec_current_phase r) (expected_phase p)
                            && among (ro_state p) ["queued"; "running"])
                      EStaleAgentAttempt stale_message)
          | _, _ => stale_attempt
          end
      end
  end.

(** Whether a message names the operation it is sent for. *)
Definition fence_matches (f : AgentFence) (id : string) (o : StoredOperation) : bool :=
  match fence_identity f with
  | None => true
  | Some i => eqb (so_parent_job_id o) (id_job i) && eqb id (id_operation i)
              && eqb (so_node_id o) (id_node i) && (so_current_attempt o =? id_attempt i)%Z
  end.

(** The operation and the attempt behind a fence that is still good. *)
Definition agent_active (f : AgentFence) (source : option AgentSource) (now : Z)
    : M control_db (string * StoredOperation * AgentOperationAttempt) :=
  s ← get;
  match t_attempts s !! fence_token f with
  | None => stale_attempt
  | Some hint =>
      match t_operations s !! at_operation_id hint with
      | None => stale_attempt
      | Some hinted =>
          lock_reconciliation_targets (at_operation_id hint);;
          match lock_identity s (so_node_id hinted) (at_certificate_serial hint) with
          | None => stale_attempt
          | Some (n, c) =>
              lift (ensure (identity_is_active n c now) EStaleAgentAttempt stale_message);;
              consume_contact source (so_node_id hinted) (at_certificate_serial hint) c;;
              require_active_reconciliation_authority (at_operation_id hint);;
              s ← get;
              match t_operations s !! at_operation_id hint, t_attempts s !! fence_token f with
              | Some o, Some a =>
                  lift (ensure (eqb (at_operation_id a) (at_operation_id hint)
                                && fence_matches f (at_operation_id hint) o
                                && eqb (at_state a) "running" && (now <? at_lease_deadline a)%Z)
                          EStaleAgentAttempt stale_message);;
                  record_contact (so_node_id hinted) (at_certificate_serial hint) now None None None;;
                  mret (at_operation_id hint, o, a)
              | _, _ => stale_attempt
              end
          end
      end
  end.

(** The deadline signed into the receipt of an update, in microseconds. *)
Definition signed_deadline (o : StoredOperation) : result Z :=
  match item_of (so_payload o) "receipt" with
  | JObj receipt =>
      match field receipt "claim_deadline" with
      | JInt n =>
          ensure (py_eqb (field receipt "expires_at") (JInt n)) EStaleAgentAttempt
            "signed update lease deadline is unavailable";;
          match fromtimestamp n with
          | Some t => mret t
          | None => raise EValue "year is out of range"
          end
      | _ => raise EStaleAgentAttempt "signed update lease deadline is unavailable"
      end
  | _ => raise EStaleAgentAttempt "signed update lease deadline is unavailable"
  end.

(** The deadline a heartbeat sets. *)
Definition extended_deadline (o : StoredOperation) (a : AgentOperationAttempt) (now lease_seconds : Z)
    : result Z :=
  let deadline := Z.max (at_lease_deadline a) (now + lease_seconds * microsecond) in
  if is_update (so_kind o) then
    signed ← signed_deadline o;
    ensure (at_lease_deadline a <=? signed)%Z EStaleAgentAttempt
      "signed update lease deadline has been exceeded";;
    mret (Z.min deadline signed)
  else mret deadline.

Definition agent_heartbeat (f : AgentFence) (progress : json) (lease_seconds : Z)
    (source : option AgentSource) (t_check now : Z) : M control_db AgentProgress :=
  lift (ensure (0 <? lease_seconds)%Z EValue "lease must be positive");;
  transaction (
    '(id, o, a) ← agent_active f source t_check;
    deadline ← lift (extended_deadline o a now lease_seconds);
    message ← lift (agent_progress
      (Identity (so_parent_job_id o) id (at_attempt a) (fence_token f) (so_node_id o) deadline) progress);
    put_attempt (fence_token f) (with_at_progress (sort_json (progress_document message)) deadline a);;
    put_operation id (with_operation_state (so_state o) now o);;
    mret message).

Context (result_consumer : option (string → string → AgentResult → M control_db unit)).

(** The message that is recorded: the one sent, or one made from the arguments. *)
Definition completion_message (f : AgentFence) (state : string) (value : option json)
    (reason : option string) (id : string) (o : StoredOperation) (a : AgentOperationAttempt)
    : result AgentResult :=
  match f with
  | FResult m =>
      ensure (eqb (result_state m) state
              && match value with
                 | Some v => py_eqb (sort_json (result_document m)) (sort_json v)
                 | None => true
                 end) EValue "agent result does not match requested completion";;
      mret m
  | _ =>
      document ← match value with
                 | Some v => mret v
                 | None => text ← check_reason reason; mret (JObj [("reason", JStr text)])
                 end;
      agent_result (Identity (so_parent_job_id o) id (at_attempt a) (fence_token f) (so_node_id o)
                      (at_lease_deadline a)) state document
  end.

(** A successful probe leaves a health observation. *)
Definition observe_probe (o : StoredOperation) (m : AgentResult) (now : Z) : M control_db unit :=
  health ← lift (probe_health (result_document m));
  lift (ensure (negb (py_eqb (so_payload o) (JObj [("require_active_nvidia_compute_processes", JInt 0)])
                      && negb (py_eqb (item_of health "active_nvidia_compute_processes") (JInt 0))))
          EValue "node probe compute gate is unsatisfied");;
  modify (set_t_observations (λ l, l ++ [MkObservation (so_node_id o) "health" health now])).

Definition agent_finish (f : AgentFence) (state : string) (value : option json) (reason : option string)
    (source : option AgentSource) (t_check now t_aggregate : Z) : M control_db unit :=
  transaction (
    '(id, o, a) ← agent_active f source t_check;
    m ← lift (completion_message f state value reason id o a);
    (if negb (is_None_b value) && eqb state "succeeded" && eqb (so_kind o) NODE_PROBE
     then observe_probe o m now else mret ());;
    put_attempt (fence_token f) (with_at_result state (sort_json (result_document m)) a);;
    put_operation id (with_operation_state state now o);;
    s ← get;
    match result_consumer with
    | Some consume =>
        if match t_jobs s !! so_parent_job_id o with
           | Some j => eqb (job_kind j) "package.validation"
           | None => false
           end
        then mret () else consume id (fence_token f) m
    | None => mret ()
    end;;
    aggregate_parent (so_parent_job_id o) t_aggregate).

Definition agent_succeed (f : AgentFence) (value : json) (t_check now t_aggregate : Z) : M control_db unit :=
  agent_finish f "succeeded" (Some value) None None t_check now t_aggregate.
Definition agent_fail (f : AgentFence) (reason : string) (t_check now t_aggregate : Z) : M control_db unit :=
  agent_finish f "failed" None (Some reason) None t_check now t_aggregate.
Definition agent_wait_for_operator (f : AgentFence) (reason : string) (t_check now t_aggregate : Z)
    : M control_db unit :=
  agent_finish f "waiting-for-operator" None (Some reason) None t_check now t_aggregate.
Definition record_result (m : AgentResult) (source : option AgentSource) (t_check now t_aggregate : Z)
    : M control_db unit :=
  agent_finish (FResult m) (result_state m) (Some (result_document m)) None source t_check now t_aggregate.

(** ** Enqueueing *)

(** The keyword arguments of [UpdateAuthorizer.authorize] and [authorize_rollback]. *)
Record authorization_request := AuthorizationRequest {
  ar_operation_id : string; ar_fence : string; ar_expires_at : Z; ar_slot : string;
  ar_sha256 : string; ar_generation : Z; ar_node_id : string; ar_attempt : Z;
  ar_claim_deadline : Z; ar_now : Z
}.

Record UpdateAuthorizer (prepared : Type) := MkAuthorizer {
  refresh_and_validate : list (string * json) → string → result prepared;
  authorize : prepared → list (string * json) → authorization_request → result json;
  authorize_rollback : authorization_request → result json
}.

Context {prepared : Type} (update_authorizer : option (UpdateAuthorizer prepared)).

Definition prepare_update (payload : list (string * json)) (target_name : option string) : result prepared :=
  match update_authorizer, target_name with
  | None, _ => raise ERuntime "agent update authorization is unavailable"
  | _, None => raise EType "versioned platform target name is required"
  | Some authorizer, Some name => refresh_and_validate _ authorizer payload name
  end.

(** The running agent an update or rollback starts from. *)
Definition update_source (n : AgentNode) : option (string * string * Z) :=
  match node_active_slot n, node_agent_sha256 n, node_supervisor_generation n with
  | Some slot, Some sha256, Some generation =>
      if among slot ["A"; "B"] && is_digest sha256 && is_generation generation
      then Some (slot, sha256, generation) else None
  | _, _, _ => None
  end.

Definition final_payload (kind : AgentOperation) (id fence node_id : string) (n : AgentNode)
    (payload : list (string * json)) (handle : option prepared) (now : Z) : result json :=
  let deadline := (timestamp now + 600)%Z in
  let request '(slot, sha256, generation) :=
    AuthorizationRequest id fence deadline slot sha256 generation node_id 1 deadline now in
  match kind with
  | AGENT_UPDATE =>
      match update_authorizer, handle with
      | Some authorizer, Some handle =>
          match update_source n with
          | Some source => authorize _ authorizer handle payload (request source)
          | None => raise EValue "agent update source identity is unavailable"
          end
      | _, _ => raise ERuntime "agent update authorization is unavailable"
      end
  | AGENT_ROLLBACK =>
      match update_authorizer with
      | Some authorizer =>
          match update_source n with
          | Some source =>
              ensure (negb (nonempty payload)) EValue "unsigned agent rollback payload must be empty";;
              authorize_rollback _ authorizer (request source)
          | None => raise EValue "agent rollback source identity is unavailable"
          end
      | None => raise ERuntime "agent rollback authorization is unavailable"
      end
  | _ => mret (JObj payload)
  end.

Definition enqueue_in_session (job_id node_id kind base_commit : string) (payload : list (string * json))
    (id fence : string) (handle : option prepared) (now : Z) : M control_db StoredOperation :=
  operation ← lift (operation_of_value kind);
  s ← get;
  match t_nodes s !! node_id with
  | None => throw EKey node_id
  | Some n =>
      lift (ensure (eqb (node_state n) "active" && is_None_b (node_revoked_at n)) EValue
              "agent operation node must be active");;
      lift (ensure (negb (eqb (node_implementation n) "rust" && eqb (node_migration_state n) "complete"
                          && negb (among kind (node_capabilities n)))) EValue
              ("Rust agent does not advertise operation capability " +:+ kind));;
      match t_jobs s !! job_id with
      | None => throw EKey job_id
      | Some j =>
          let is_rollback := eqb operation AGENT_ROLLBACK in
          let authorized_rollback := eqb (job_kind j) "platform.update"
                                     && eqb (job_state j) "waiting-for-operator" && is_rollback in
          lift (ensure (negb (is_rollback && negb authorized_rollback)) EValue
                  "agent rollback requires a waiting platform update parent");;
          lift (ensure (negb (among (job_state j) terminal_parent_states && negb authorized_rollback))
                  EValue "cannot enqueue an agent operation beneath a terminal parent");;
          lift (ensure (eqb (job_base_commit j) base_commit) EValue
                  "agent operation base commit must match its parent");;
          lift (ensure (among node_id (job_targets j)) EValue
                  "agent operation node must be a parent target");;
          signed ← lift (final_payload operation id fence node_id n payload handle now);
          m ← lift (agent_claim (Identity job_id id 1 fence node_id now) operation base_commit
                      (utf8_digest signed) signed);
          let o := MkOperation job_id node_id kind (claim_payload_digest m)
                     (sort_json (claim_payload m)) base_commit "queued" 0 None None now now in
          insert_operation id o;;
          mret o
      end
  end.

Definition agent_enqueue (job_id node_id kind base_commit : string) (payload : list (string * json))
    (target_name : option string) (id fence : string) (now : Z) : M control_db StoredOperation :=
  handle ← lift (if eqb kind AGENT_UPDATE
                 then h ← prepare_update payload target_name; mret (Some h) else mret None);
  transaction (enqueue_in_session job_id node_id kind base_commit payload id fence handle now).
End service.
