(* ===== verification/Routes.v ===== *)
(** * Published routes ([control/src/vonk_control/route_runtime.py])

    The documents the reconciliation service exchanges with the publisher of
    route bundles: the policy view of a resolved route, the evidence of an
    endpoint, the request for a bundle and the marker of an activation. The
    publisher itself writes files and is a parameter of the service.

    A marker keeps its times as text; here they are the instants whose
    [isoformat] that text is. IPv4-mapped addresses print as they do in
    Python 3.12. *)

From stdpp Require Import pretty.
From S2P Require Import Prelude Identifiers Canonical Datetimes Contracts PackageEngine Protocol.
From S2P Require Import OperationGraph Orchestration NodeLeases Jobs AgentTables AgentJobs.

(** ** [ipaddress.ip_address] *)

Module Ip.

(** [_parse_octet]: no leading zeros. *)
Definition octet (s : string) : option Z :=
  if fits 1 3 s && all_chars is_digit s && (eqb s "0" || negb (String.prefix "0" s))
  then n ← digits_value 0 false s; if (n <=? 255)%Z then Some n else None
  else None.

Definition v4 (s : string) : option Z :=
  match octet <$> split_on "."%char s with
  | [Some a; Some b; Some c; Some d] => Some (((a * 256 + b) * 256 + c) * 256 + d)%Z
  | _ => None
  end.

Definition hex_value (c : Ascii.ascii) : option Z :=
  let c := lower_char c in
  if is_digit c then Some (Z.of_N (code c) - 48)%Z
  else if in_range "a"%char "f"%char c then Some (Z.of_N (code c) - 87)%Z
  else None.

Fixpoint hex_number (acc : Z) (s : string) : option Z :=
  match s with
  | EmptyString => Some acc
  | String c s => v ← hex_value c; hex_number (acc * 16 + v) s
  end.

Definition hextet (s : string) : option Z := if fits 1 4 s then hex_number 0 s else None.

Fixpoint print_hex (fuel : nat) (n : Z) (tail : string) : string :=
  let tail := String (hex_char (Z.to_N (n mod 16))) tail in
  match fuel with
  | O => tail
  | S fuel => if (n / 16 =? 0)%Z then tail else print_hex fuel (n / 16) tail
  end.

(** ["%x"] of a 16-bit number. *)
Definition print_hextet (n : Z) : string := print_hex 3 n "".

Definition all_some {A} (l : list (option A)) : option (list A) := mapM id l.

(** The position of the empty part between the first and the last, if there is
    at most one. *)
Definition skip_index (parts : list string) : option (option nat) :=
  match filter (λ i, parts !! i = Some "") (seq 1 (length parts - 2)) with
  | [] => Some None
  | [i] => Some (Some i)
  | _ => None
  end.

(** A dotted last part stands for two groups. *)
Definition expand_tail (parts : list string) : option (list string) :=
  match last parts with
  | Some tail =>
      if has_char "."%char tail then
        n ← v4 tail;
        Some (removelast parts ++ [print_hextet (n / 65536); print_hextet (n mod 65536)])
      else Some parts
  | None => None
  end.

Definition v6_groups (s : string) : option (list Z) :=
  let parts := split_on ":"%char s in
  if (length parts <? 3)%nat then None else
  parts ← expand_tail parts;
  if (9 <? length parts)%nat then None else
  skip ← skip_index parts;
  match skip with
  | None => if (length parts =? 8)%nat then all_some (hextet <$> parts) else None
  | Some i =>
      let hi := take i parts in
      let lo := drop (S i) parts in
      let hi := if eqb (head parts) (Some "") then if (i =? 1)%nat then Some [] else None else Some hi in
      let lo := if eqb (last parts) (Some "") then if (length lo =? 1)%nat then Some [] else None else Some lo in
      hi ← hi; lo ← lo;
      if (length hi + length lo <? 8)%nat then
        high ← all_some (hextet <$> hi);
        low ← all_some (hextet <$> lo);
        Some (high ++ replicate (8 - (length hi + length lo)) 0%Z ++ low)
      else None
  end.

(** The first longest run of zeros, as its start and length. *)
Fixpoint longest_run (i start len : nat) (best : nat * nat) (l : list Z) : nat * nat :=
  match l with
  | [] => best
  | g :: l =>
      if (g =? 0)%Z then
        let start := if (len =? 0)%nat then i else start in
        let len := S len in
        longest_run (S i) start len (if (best.2 <? len)%nat then (start, len) else best) l
      else longest_run (S i) start 0 best l
  end.

Definition print_v6 (groups : list Z) : string :=
  let '(start, len) := longest_run 0 0 0 (0, 0)%nat groups in
  let texts := print_hextet <$> groups in
  if (len <=? 1)%nat then join ":" texts
  else join ":" ((if (start =? 0)%nat then [""] else []) ++ take start texts ++ [""]
                 ++ drop (start + len) texts ++ (if (start + len =? length texts)%nat then [""] else [])).

Inductive address := V4 (n : Z) | V6 (groups : list Z) (scope : option string).

(** [addr.partition("%")]. *)
Fixpoint partition (c : Ascii.ascii) (s : string) : string * option string :=
  match s with
  | EmptyString => (EmptyString, None)
  | String d s =>
      if eqb d c then (EmptyString, Some s)
      else let '(a, b) := partition c s in (String d a, b)
  end.

Definition parse (s : string) : option address :=
  if has_char "/"%char s then None else
  match v4 s with
  | Some n => Some (V4 n)
  | None =>
      let '(body, scope) := partition "%"%char s in
      match scope with
      | Some t => if eqb t "" || has_char "%"%char t then None
                  else groups ← v6_groups body; Some (V6 groups (Some t))
      | None => groups ← v6_groups body; Some (V6 groups None)
      end
  end.

(** [address.compressed]. *)
Definition compressed (a : address) : string :=
  match a with
  | V4 n => pretty (n / 16777216)%Z +:+ "." +:+ pretty (n / 65536 mod 256)%Z +:+ "."
            +:+ pretty (n / 256 mod 256)%Z +:+ "." +:+ pretty (n mod 256)%Z
  | V6 groups None => print_v6 groups
  | V6 groups (Some scope) => print_v6 groups +:+ "%" +:+ scope
  end.

Example canonical_addresses :
  map (λ s, compressed <$> parse s)
    ["10.0.0.7"; "2001:0DB8::0:1"; "::"; "1::"; "fe80::1%eth0"; "::ffff:10.1.2.3"; "1:0:0:2:0:0:0:3";
     "10.0.0.07"; "1:::2"; "1:2:3:4:5:6:7:8:9"; ":1:2:3:4:5:6:7"] =
  [Some "10.0.0.7"; Some "2001:db8::1"; Some "::"; Some "1::"; Some "fe80::1%eth0"; Some "::ffff:a01:203";
   Some "1:0:0:2::3"; None; None; None; None].
Proof. vm_compute. reflexivity. Qed.
End Ip.

(** ** The policy view of a route *)

Record PublishedRoute := MkRoute {
  route_alias : string; route_workload_id : string; route_api_base : string;
  route_requests_per_minute : Z; route_tokens_per_minute : Z
}.

Definition is_alnum (c : Ascii.ascii) : bool := is_lower_digit c || in_range "A"%char "Z"%char c.

(** [[A-Za-z0-9][A-Za-z0-9._/-]{0,127}]. *)
Definition is_route_identifier (s : string) : bool :=
  fits 1 128 s && char_is is_alnum (first_char s)
  && all_chars (λ c, is_alnum c || among c ["."%char; "_"%char; "/"%char; "-"%char]) s.

Definition published_route_fields : list string :=
  ["workload_id"; "nodes"; "entrypoint_node_id"; "scheme"; "port"; "path"; "quota"; "quota_digest"].
Definition quota_fields : list string := ["requests_per_minute"; "tokens_per_minute"].

Definition route_error {A} (m : string) : result A := raise ERouteRuntime m.
Definition route_check (b : bool) (m : string) : result unit := ensure b ERouteRuntime m.

(** [text in s]. *)
Definition contains (text s : string) : bool := search (String.prefix text) s.

(** [path.rstrip("/")]. *)
Fixpoint rstrip_slashes (s : string) : string :=
  match s with
  | EmptyString => EmptyString
  | String c rest =>
      match rstrip_slashes rest with
      | EmptyString => if eqb c "/"%char then EmptyString else String c EmptyString
      | rest => String c rest
      end
  end.

Definition is_route_path (path : string) : bool :=
  String.prefix "/" path && negb (has_char "?"%char path) && negb (has_char "#"%char path)
  && negb (contains "//" path) && negb (contains "/../" (path +:+ "/")).

Definition build_published_route (alias : string) (raw : json) (address : string) : result PublishedRoute :=
  match raw with
  | JObj raw =>
      route_check (is_route_identifier alias && same_keys raw published_route_fields)
        "route fields do not match the resolved plan";;
      route_check (is_str is_route_identifier (field raw "workload_id"))
        "route policy input is invalid";;
      ensure (hashable (field raw "scheme")) EType "unhashable type";;
      match field raw "workload_id", field raw "scheme", field raw "port", field raw "path",
            field raw "quota" with
      | JStr workload_id, JStr scheme, JInt port, JStr path, JObj quota =>
          route_check (among scheme ["http"; "https"] && (1 <=? port)%Z && (port <=? 65535)%Z
                       && is_route_path path && same_keys quota quota_fields)
            "route policy input is invalid";;
          match field quota "requests_per_minute", field quota "tokens_per_minute" with
          | JInt rpm, JInt tpm =>
              route_check ((1 <=? rpm)%Z && (rpm <=? 100000)%Z && (1 <=? tpm)%Z && (tpm <=? 100000000)%Z)
                "route policy quota is invalid";;
              match Ip.parse address with
              | None => route_error "route policy address is invalid"
              | Some parsed =>
                  route_check (eqb (Ip.compressed parsed) address) "route policy address is not canonical";;
                  let host := match parsed with
                              | Ip.V6 _ _ => "[" +:+ address +:+ "]"
                              | Ip.V4 _ => address
                              end in
                  mret (MkRoute alias workload_id
                          (scheme +:+ "://" +:+ host +:+ ":" +:+ pretty port +:+ rstrip_slashes path) rpm tpm)
              end
          | _, _ => route_error "route policy quota is invalid"
          end
      | _, _, _, _, _ => route_error "route policy input is invalid"
      end
  | _ => route_error "route fields do not match the resolved plan"
  end.

(** ** Evidence, requests and markers *)

(** [json.dumps(value, sort_keys=True, separators=(",", ":")) + "\n"]. *)
Definition encoded (v : json) : string := canonical v +:+ String (Ascii.ascii_of_N 10) EmptyString.

Record AcceptedEndpointEvidence := MkEndpoint {
  ep_node_id : string; ep_address : string; ep_observed_at : Z; ep_operation_id : string;
  ep_verify_evidence_digest : string; ep_evidence_digest : string
}.

Definition endpoint_evidence_digest (node_id address : string) (observed_at : Z)
    (operation_id verify_evidence_digest : string) : string :=
  Sha256.hexdigest (encoded (JObj [("address", JStr address); ("node_id", JStr node_id);
    ("observed_at", JStr (isoformat observed_at)); ("operation_id", JStr operation_id);
    ("schema_version", JInt 1); ("verify_evidence_digest", JStr verify_evidence_digest)])).

Record RouteBundleRequest := MkBundleRequest {
  rb_reconciliation_id : string; rb_plan_digest : string; rb_evidence_set_digest : string;
  rb_routes : list (string * json); rb_endpoints : gmap string AcceptedEndpointEvidence;
  rb_expires_at : Z; rb_base_commit : string
}.

Record ActivationMarker := MkMarker {
  mk_schema_version : Z; mk_generation : Z; mk_state : string; mk_reconciliation_id : string;
  mk_plan_digest : string; mk_evidence_set_digest : string; mk_routes_sha256 : string;
  mk_litellm_sha256 : string; mk_issued_at : Z; mk_expires_at : Z; mk_directory : string;
  mk_manifest_sha256 : string
}.

(** [asdict(marker)]. *)
Definition marker_document (m : ActivationMarker) : json :=
  JObj [("schema_version", JInt (mk_schema_version m)); ("generation", JInt (mk_generation m));
        ("state", JStr (mk_state m)); ("reconciliation_id", JStr (mk_reconciliation_id m));
        ("plan_digest", JStr (mk_plan_digest m));
        ("evidence_set_digest", JStr (mk_evidence_set_digest m));
        ("routes_sha256", JStr (mk_routes_sha256 m)); ("litellm_sha256", JStr (mk_litellm_sha256 m));
        ("issued_at", JStr (isoformat (mk_issued_at m)));
        ("expires_at", JStr (isoformat (mk_expires_at m))); ("directory", JStr (mk_directory m));
        ("manifest_sha256", JStr (mk_manifest_sha256 m))].

Definition marker_digest (m : ActivationMarker) : string := Sha256.hexdigest (encoded (marker_document m)).
