(* ===== verification/ReleaseLocks.v ===== *)
(** * Release locks ([agent_protocol/src/vonk_agent_protocol/workload_packages.py])

    A release lock names the exact components of a workload package, its adapter, what
    it needs and where it comes from. [PackageReleaseLock.parse] checks every field and
    rebuilds the document from what it checked; its canonical bytes are what is signed
    and hashed, and [PackageReleaseGraph.resolve] follows the locks a lock depends on. *)

From stdpp Require Import pretty.
From S2P Require Import Prelude Identifiers Canonical Documents JsonText Contracts PackageEngine Protocol Routes.

(** ** Patterns *)

Definition max_component_size : Z := 2 ^ 63 - 1.

(** [[a-z0-9][..]*/[a-z0-9][..]*]. *)
Definition is_pair_of (extra : Ascii.ascii → bool) (s : string) : bool :=
  match split_on "/"%char s with
  | [a; b] => let part p := char_is is_lower_digit (first_char p) && all_chars (λ c, is_lower_digit c || extra c) p in
              part a && part b
  | _ => false
  end.
Definition is_platform (s : string) : bool := is_pair_of is_dot_dash s.
Definition is_media_type (s : string) : bool :=
  is_pair_of (λ c, has_char c "!#$&^_.+-") s.

Definition is_content_digest (s : string) : bool := String.prefix "sha256:" s && is_digest (drop_chars 7 s).
Definition is_git_commit (s : string) : bool := is_hex_of 40 s || is_hex_of 64 s.

(** [[a-z0-9][a-z0-9._:/-]{0,510}@sha256:[0-9a-f]{64}]. *)
Definition is_oci_reference (s : string) : bool :=
  match split_on "@"%char s with
  | [name; digest] => char_is is_lower_digit (first_char name) && fits 1 511 name
                      && all_chars (λ c, is_lower_digit c || has_char c "._:/-") name && is_content_digest digest
  | _ => false
  end.

(** [[A-Za-z0-9](?:[A-Za-z0-9._-]{0,95})/[A-Za-z0-9](?:[A-Za-z0-9._-]{0,95})]. *)
Definition is_hf_repository (s : string) : bool :=
  let part p := char_is is_alnum (first_char p) && fits 1 96 p && all_chars (λ c, is_alnum c || is_dot_dash c) p in
  match split_on "/"%char s with [a; b] => part a && part b | _ => false end.

(** [host.?path]. *)
Definition host_path_at (s : string) : bool :=
  match strip_prefix "host" s with
  | Some rest => String.prefix "path" rest
                 || match rest with
                    | String c rest => negb (code c =? 10)%N && String.prefix "path" rest
                    | EmptyString => false
                    end
  | None => false
  end.

(** [(?:path|file|..)(?:$|[_-])]; the dollar also matches before a final line feed. *)
Definition path_word_at (s : string) : bool :=
  existsb (λ word, match strip_prefix word s with
                   | Some rest => eqb rest "" || eqb rest newline || char_is is_separator (first_char rest)
                   | None => false
                   end) path_tokens.

(** [UNSAFE_FIELD.search]. *)
Definition is_unsafe_field (key : string) : bool :=
  let s := lower key in
  path_word_at s
  || search (λ s, existsb (λ t, String.prefix t s) unsafe_terms || private_key_at s || host_path_at s
                  || match s with String c rest => is_separator c && path_word_at rest | EmptyString => false end) s.

(** ** Values *)

(** [_mapping]. *)
Definition lock_mapping (v : json) (name : string) : result (list (string * json)) :=
  match v with JObj items => mret items | _ => protocol_error (name +:+ " must be an object") end.

(** The fields a mapping must have and those it may have. *)
Definition known_fields (items : list (string * json)) (required optional : list string) (name : string) : result unit :=
  let missing := filter (λ key, key ∉ items.*1) required in
  let unknown := filter (λ key, key ∉ required ++ optional) items.*1 in
  protocol_check (negb (nonempty missing)) (name +:+ " missing fields: " +:+ join ", " (py_sorted missing));;
  protocol_check (negb (nonempty unknown)) (name +:+ " unknown fields: " +:+ join ", " (py_sorted unknown)).

(** [_exact_fields]. *)
Definition exact_fields (items : list (string * json)) (required optional : list string) (name : string) : result unit :=
  known_fields items required optional name;;
  match filter (λ key, is_unsafe_field key = true) items.*1 with
  | [] => mret ()
  | key :: _ => protocol_error (name +:+ " contains unsafe field: " +:+ key)
  end.

(** A string that satisfies a check. *)
Definition text_that (p : string → bool) (m : string) (v : json) : result string :=
  match v with JStr s => protocol_check (p s) m;; mret s | _ => protocol_error m end.

Definition lock_identifier (name : string) : json → result string :=
  text_that is_identifier (name +:+ " must be a canonical identifier").

Definition is_bounded_text (maximum : nat) (s : string) : bool :=
  fits 1 maximum s && negb (char_is is_py_space (first_char s)) && negb (char_is is_py_space (last_char s))
  && all_chars (λ c, (32 <=? code c)%N && negb (code c =? 127)%N) s && negb (has_char "\"%char s).
Definition bounded_text (maximum : nat) (name : string) : json → result string :=
  text_that (is_bounded_text maximum) (name +:+ " is not bounded canonical text").

Definition lock_digest_text (name : string) : json → result string :=
  text_that is_content_digest (name +:+ " must be sha256:<64 lowercase hex>").
Definition lock_raw_digest (name : string) : json → result string :=
  text_that is_digest (name +:+ " must be 64 lowercase hex").

(** An integer, not a boolean, between two bounds. *)
Definition bounded_integer (lo hi : Z) (m : string) (v : json) : result Z :=
  match v with
  | JInt n => protocol_check ((lo <=? n)%Z && (n <=? hi)%Z) m;; mret n
  | _ => protocol_error m
  end.
Definition positive_integer (name : string) (maximum : Z) : json → result Z :=
  bounded_integer 1 maximum (name +:+ " must be a bounded positive integer").

(** [_sequence]. *)
Definition lock_sequence (name : string) (lo hi : nat) (v : json) : result (list json) :=
  let m := name +:+ " must contain between " +:+ pretty lo +:+ " and " +:+ pretty hi +:+ " items" in
  match v with
  | JArr l => protocol_check ((lo <=? length l) && (length l <=? hi)) m;; mret l
  | _ => protocol_error m
  end.

(** [tuple(parse(item) for item in _sequence(...))]. *)
Definition lock_items {A} (name : string) (lo hi : nat) (parse : json → result A) (v : json) : result (list A) :=
  lock_sequence name lo hi v ≫= traverse parse.

(** [v in {...}]: a list or an object is not hashable. *)
Definition one_of (options : list string) (m : string) (v : json) : result string :=
  match v with
  | JStr s => protocol_check (among s options) m;; mret s
  | JArr _ | JObj _ => raise EType "unhashable type"
  | _ => protocol_error m
  end.

(** *** URLs *)

(** [_splitnetloc(url, 2)]: up to the path, the query or the fragment. *)
Fixpoint split_netloc (s : string) : string * string :=
  match s with
  | EmptyString => (EmptyString, EmptyString)
  | String c rest => if has_char c "/?#" then (EmptyString, s) else let '(a, b) := split_netloc rest in (String c a, b)
  end.

(** [netloc.rpartition('@')[2]]. *)
Definition after_userinfo (netloc : string) : string := default netloc (last (split_on "@"%char netloc)).

(** [re.match(r"\Av[a-fA-F0-9]+\..+\Z", host)]. *)
Definition is_future_address (host : string) : bool :=
  match host with
  | String c rest =>
      eqb c "v"%char && match Ip.partition "."%char rest with
                        | (version, Some tail) => negb (eqb version "") && all_chars (λ c, is_hex (lower_char c)) version
                                                  && negb (eqb tail "") && negb (has_char (Ascii.ascii_of_N 10) tail)
                        | _ => false
                        end
  | EmptyString => false
  end.

(** [_check_bracketed_netloc]. *)
Definition bracketed_ok (netloc : string) : bool :=
  let '(before, bracketed) := Ip.partition "["%char (after_userinfo netloc) in
  let host_ok host :=
    if String.prefix "v" host then is_future_address host
    else match Ip.parse host with Some (Ip.V6 _ _) => true | _ => false end in
  match bracketed with
  | Some bracketed =>
      let '(host, port) := Ip.partition "]"%char bracketed in
      eqb before "" && match port with Some (String c _) => eqb c ":"%char | _ => true end && host_ok host
  | None => host_ok (Ip.partition ":"%char before).1
  end.

(** The host of [urlsplit(url).hostname]. *)
Definition url_host (netloc : string) : string :=
  let '(before, bracketed) := Ip.partition "["%char (after_userinfo netloc) in
  match bracketed with
  | Some bracketed => (Ip.partition "]"%char bracketed).1
  | None => (Ip.partition ":"%char before).1
  end.

(** [urlsplit], on text without control characters or outer space: scheme, authority,
    query and fragment. *)
Definition urlsplit (url : string) : result (string * string * string * string) :=
  let '(scheme, rest) :=
    match Ip.partition ":"%char url with
    | (before, Some after) =>
        if char_is (λ c, is_lower (lower_char c)) (first_char before)
           && all_chars (λ c, is_alnum c || has_char c "+-.") before
        then (lower before, after) else ("", url)
    | _ => ("", url)
    end in
  let '(netloc, rest) := match strip_prefix "//" rest with Some rest => split_netloc rest | None => ("", rest) end in
  let opening := has_char "["%char netloc in
  let closing := has_char "]"%char netloc in
  ensure (Bool.eqb opening closing) EValue "Invalid IPv6 URL";;
  ensure (negb (opening && closing) || bracketed_ok netloc) EValue "Invalid IPv6 URL";;
  let '(rest, fragment) := Ip.partition "#"%char rest in
  let '(_, query) := Ip.partition "?"%char rest in
  mret (scheme, netloc, default "" query, default "" fragment).

(** [_https_url]. *)
Definition https_url (name : string) (v : json) : result string :=
  text ← bounded_text 2048 name v;
  '(scheme, netloc, query, fragment) ← urlsplit text;
  protocol_check (eqb scheme "https" && negb (eqb (url_host netloc) "") && negb (has_char "@"%char netloc)
                  && eqb query "" && eqb fragment "")
    (name +:+ " must be an HTTPS URL without credentials or query data");;
  mret text.

Example urls :
  map (λ s, is_ok (https_url "URL" (JStr s)))
    ["https://host/a"; "HTTPS://host"; "http://host"; "https://"; "https://user@host"; "https://host?q"; "https://host/?";
     "https://host#f"; "https://[::1]:8443/a"; "https://[10.0.0.1]/"; "https://[::1"; "https://:80"; "https:host"] =
  [true; true; false; false; false; false; true; false; true; false; false; false; false].
Proof. vm_compute. reflexivity. Qed.

(** ** Components *)

Definition git_commit (m : string) : json → result string := text_that is_git_commit m.
Definition hf_revision : json → result string :=
  text_that is_git_commit "Hugging Face revision must be a full immutable revision".
Definition hf_repository : json → result string := text_that is_hf_repository "Hugging Face repository is invalid".

(** [_parse_source]. *)
Definition parse_source (v : json) : result json :=
  source ← lock_mapping v "component source";
  match field source "provider" with
  | JStr provider =>
      if eqb provider "https" then
        exact_fields source ["provider"; "url"] [] "component source";;
        url ← https_url "source URL" (field source "url");
        mret (JObj [("provider", JStr provider); ("url", JStr url)])
      else if eqb provider "oci" then
        exact_fields source ["provider"; "reference"] [] "component source";;
        reference ← text_that is_oci_reference "OCI source must use an exact digest reference" (field source "reference");
        mret (JObj [("provider", JStr provider); ("reference", JStr reference)])
      else if eqb provider "git" then
        exact_fields source ["provider"; "repository"; "commit"] [] "component source";;
        commit ← git_commit "Git source commit must be full lowercase hex" (field source "commit");
        repository ← https_url "Git repository" (field source "repository");
        mret (JObj [("provider", JStr provider); ("repository", JStr repository); ("commit", JStr commit)])
      else if eqb provider "huggingface" then
        exact_fields source ["provider"; "repository"; "revision"] [] "component source";;
        repository ← hf_repository (field source "repository");
        revision ← hf_revision (field source "revision");
        mret (JObj [("provider", JStr provider); ("repository", JStr repository); ("revision", JStr revision)])
      else if among provider ["python-index"; "signed-http-index"] then
        exact_fields source ["provider"; "url"; "digest"] [] "component source";;
        url ← https_url "index URL" (field source "url");
        digest ← lock_digest_text "source digest" (field source "digest");
        mret (JObj [("provider", JStr provider); ("url", JStr url); ("digest", JStr digest)])
      else protocol_error "component source provider is not supported"
  | JArr _ | JObj _ => raise EType "unhashable type"
  | _ => protocol_error "component source provider is not supported"
  end.

(** [_parse_evidence]. *)
Definition parse_evidence (name : string) (v : json) : result json :=
  evidence ← lock_mapping v name;
  exact_fields evidence ["kind"; "digest"] [] name;;
  kind ← lock_identifier (name +:+ " kind") (field evidence "kind");
  digest ← lock_digest_text (name +:+ " digest") (field evidence "digest");
  mret (JObj [("kind", JStr kind); ("digest", JStr digest)]).

(** A path inside of a bundle. *)
Definition is_bundle_path (s : string) : bool :=
  fits 1 256 s && negb (String.prefix "/" s) && negb (has_char "\"%char s)
  && negb (existsb (λ part, among part [""; "."; ".."]) (split_on "/"%char s))
  && all_chars (λ c, (32 <=? code c)%N && negb (code c =? 127)%N) s.

Record OciBundleMetadata := MkOciBundle {
  oci_component : string; oci_manifest_digest : string; oci_config_digest : string; oci_rootfs_digest : string;
  oci_architecture : string; oci_rootfs : string; oci_entrypoint : string
}.

Definition oci_fields : list string :=
  ["schema_version"; "component"; "manifest_digest"; "config_digest"; "rootfs_digest"; "architecture"; "runtime"; "rootfs";
   "entrypoint"].

(** [OciBundleMetadata.parse]. *)
Definition parse_oci_bundle (v : json) : result OciBundleMetadata :=
  document ← lock_mapping v "OCI bundle metadata";
  exact_fields document oci_fields [] "OCI bundle metadata";;
  protocol_check (eqb (field document "schema_version") (JInt 1)) "OCI bundle schema_version is invalid";;
  component ← lock_identifier "OCI bundle component" (field document "component");
  manifest ← lock_digest_text "OCI manifest digest" (field document "manifest_digest");
  config ← lock_digest_text "OCI config digest" (field document "config_digest");
  rootfs_digest ← lock_digest_text "OCI rootfs digest" (field document "rootfs_digest");
  architecture ← text_that (λ s, among s ["linux-arm64"; "linux-x86_64"]) "OCI bundle architecture is invalid"
                   (field document "architecture");
  protocol_check (eqb (field document "runtime") (JStr "runc")) "OCI bundle runtime is unsupported";;
  rootfs ← text_that is_bundle_path "OCI bundle rootfs is invalid" (field document "rootfs");
  entrypoint ← text_that is_bundle_path "OCI bundle entrypoint is invalid" (field document "entrypoint");
  mret (MkOciBundle component manifest config rootfs_digest architecture rootfs entrypoint).

(** [OciBundleMetadata.to_mapping]. *)
Definition oci_bundle_items (b : OciBundleMetadata) : list (string * json) :=
  [("schema_version", JInt 1); ("component", JStr (oci_component b)); ("manifest_digest", JStr (oci_manifest_digest b));
   ("config_digest", JStr (oci_config_digest b)); ("rootfs_digest", JStr (oci_rootfs_digest b));
   ("architecture", JStr (oci_architecture b)); ("runtime", JStr "runc"); ("rootfs", JStr (oci_rootfs b));
   ("entrypoint", JStr (oci_entrypoint b))].

Definition materialization_methods : list string :=
  ["file"; "snapshot"; "archive"; "oci-content"; "oci-bundle"; "configuration"; "native-archive"; "wheel";
   "pylock-environment"; "executable"].

(** [{"schema_version": 1, **{key: value ... if key != "method"}}]. *)
Definition bundle_document (items : list (string * json)) : json :=
  JObj (dict_of_pairs (("schema_version", JInt 1) :: filter (λ p : string * json, p.1 ≠ "method") items)).

(** [_parse_materialization]. *)
Definition parse_materialization (v : json) : result json :=
  items ← lock_mapping v "component materialization";
  match lookup_key items "method" with
  | None => protocol_error "component materialization missing method"
  | Some method =>
      method ← one_of materialization_methods "component materialization method is not supported" method;
      if negb (eqb method "oci-bundle") then
        exact_fields items ["method"] [] "component materialization";;
        mret (JObj [("method", JStr method)])
      else
        metadata ← parse_oci_bundle (bundle_document items);
        mret (JObj (("method", JStr method) :: oci_bundle_items metadata))
  end.

Record ComponentDescriptor := MkComponent {
  cd_name : string; cd_kind : string; cd_media_type : string; cd_sources : list json; cd_digest : string; cd_size : Z;
  cd_unpacked_size : option Z; cd_platforms : list string; cd_materialization : json; cd_evidence : list json
}.

Definition component_fields : list string :=
  ["name"; "kind"; "media_type"; "sources"; "digest"; "size"; "unpacked_size"; "platforms"; "materialization"; "evidence"].

Definition unpacked_size (v : json) : result (option Z) :=
  match v with
  | JNull => mret None
  | v => size ← positive_integer "component unpacked_size" max_component_size v; mret (Some size)
  end.

(** [ComponentDescriptor.parse]. *)
Definition parse_component (v : json) : result ComponentDescriptor :=
  component ← lock_mapping v "component";
  exact_fields component component_fields [] "component";;
  media_type ← text_that is_media_type "component media_type is invalid" (field component "media_type");
  unpacked ← unpacked_size (field component "unpacked_size");
  sources ← lock_items "component sources" 1 8 parse_source (field component "sources");
  platforms ← lock_items "component platforms" 1 16 (text_that is_platform "component platform must be os/architecture") (field component "platforms");
  protocol_check (distinct platforms) "component platforms contain duplicates";;
  evidence ← lock_items "component evidence" 0 16 (parse_evidence "component evidence") (field component "evidence");
  name ← lock_identifier "component name" (field component "name");
  kind ← lock_identifier "component kind" (field component "kind");
  digest ← lock_digest_text "component digest" (field component "digest");
  size ← positive_integer "component size" max_component_size (field component "size");
  materialization ← parse_materialization (field component "materialization");
  mret (MkComponent name kind media_type sources digest size unpacked platforms materialization evidence).

(** [_to_wire] of a component. *)
Definition component_json (c : ComponentDescriptor) : json :=
  JObj [("name", JStr (cd_name c)); ("kind", JStr (cd_kind c)); ("media_type", JStr (cd_media_type c));
        ("sources", JArr (cd_sources c)); ("digest", JStr (cd_digest c)); ("size", JInt (cd_size c));
        ("unpacked_size", match cd_unpacked_size c with Some n => JInt n | None => JNull end);
        ("platforms", JArr (map JStr (cd_platforms c))); ("materialization", cd_materialization c);
        ("evidence", JArr (cd_evidence c))].

(** ** The parts of a lock *)

(** [_parse_upstream_identity]. *)
Definition parse_upstream_identity (v : json) : result json :=
  identity ← lock_mapping v "upstream_identity";
  match field identity "provider" with
  | JStr provider =>
      if eqb provider "git" then
        exact_fields identity ["provider"; "repository"; "commit"] [] "upstream_identity";;
        commit ← git_commit "Git commit must be a full lowercase identity" (field identity "commit");
        repository ← https_url "Git repository" (field identity "repository");
        mret (JObj [("provider", JStr provider); ("repository", JStr repository); ("commit", JStr commit)])
      else if eqb provider "huggingface" then
        exact_fields identity ["provider"; "repository"; "revision"] [] "upstream_identity";;
        repository ← hf_repository (field identity "repository");
        revision ← hf_revision (field identity "revision");
        mret (JObj [("provider", JStr provider); ("repository", JStr repository); ("revision", JStr revision)])
      else if eqb provider "oci" then
        exact_fields identity ["provider"; "reference"] [] "upstream_identity";;
        reference ← text_that is_oci_reference "OCI upstream identity must use an exact digest" (field identity "reference");
        mret (JObj [("provider", JStr provider); ("reference", JStr reference)])
      else if eqb provider "python-index" then
        exact_fields identity ["provider"; "project"; "version"; "digest"] [] "upstream_identity";;
        project ← lock_identifier "Python project" (field identity "project");
        version ← bounded_text 128 "Python version" (field identity "version");
        digest ← lock_digest_text "Python artifact digest" (field identity "digest");
        mret (JObj [("provider", JStr provider); ("project", JStr project); ("version", JStr version); ("digest", JStr digest)])
      else if eqb provider "signed-http-index" then
        exact_fields identity ["provider"; "url"; "digest"] [] "upstream_identity";;
        url ← https_url "signed index URL" (field identity "url");
        digest ← lock_digest_text "index digest" (field identity "digest");
        mret (JObj [("provider", JStr provider); ("url", JStr url); ("digest", JStr digest)])
      else protocol_error "upstream_identity provider is not supported"
  | _ => protocol_error "upstream_identity provider is not supported"
  end.

(** [_identifier_tuple]. *)
Definition identifier_tuple (name : string) (lo : nat) (v : json) : result (list string) :=
  items ← lock_items name lo 32 (lock_identifier name) v;
  protocol_check (distinct items) (name +:+ " contains duplicates");;
  mret items.

(** [PurePosixPath]: the parts of a relative path, and its text. *)
Definition posix_parts (s : string) : list string := filter (λ part, part ≠ "" ∧ part ≠ ".") (split_on "/"%char s).
Definition posix_text (s : string) : string :=
  match posix_parts s with [] => "." | parts => join "/" parts end.

Definition is_entrypoint (s : string) : bool :=
  fits 1 256 s && negb (has_char "\"%char s) && negb (String.prefix "/" s) && eqb (posix_text s) s
  && negb (existsb (λ part, among part [""; "."; ".."]) (posix_parts s))
  && negb (among (default "" (last (posix_parts s))) ["apt"; "apt-get"; "bash"; "dash"; "sh"; "sudo"]).

Definition python_runtime_fields : list string :=
  ["environment_component"; "environment_digest"; "environment_tree_digest"; "interpreter_component";
   "interpreter_component_digest"; "interpreter_entrypoint"; "interpreter_digest"].

(** [_parse_python_runtime]. *)
Definition parse_python_runtime (v : json) : result json :=
  runtime ← lock_mapping v "Python runtime metadata";
  protocol_check (same_keys runtime python_runtime_fields) "Python runtime metadata fields are invalid";;
  environment ← lock_identifier "Python environment component" (field runtime "environment_component");
  interpreter ← lock_identifier "Python interpreter component" (field runtime "interpreter_component");
  protocol_check (negb (eqb environment interpreter)) "Python environment and interpreter components must differ";;
  entrypoint ← text_that is_entrypoint "Python interpreter entrypoint is invalid" (field runtime "interpreter_entrypoint");
  environment_digest ← lock_digest_text "Python environment digest" (field runtime "environment_digest");
  tree_digest ← lock_digest_text "Python environment tree digest" (field runtime "environment_tree_digest");
  component_digest ← lock_digest_text "Python interpreter component digest" (field runtime "interpreter_component_digest");
  interpreter_digest ← lock_digest_text "Python interpreter digest" (field runtime "interpreter_digest");
  mret (JObj [("environment_component", JStr environment); ("environment_digest", JStr environment_digest);
              ("environment_tree_digest", JStr tree_digest); ("interpreter_component", JStr interpreter);
              ("interpreter_component_digest", JStr component_digest); ("interpreter_entrypoint", JStr entrypoint);
              ("interpreter_digest", JStr interpreter_digest)]).

(** A field that may be missing. *)
Definition optional_field (items : list (string * json)) (key : string) (parse : json → result json)
    : result (list (string * json)) :=
  match lookup_key items key with
  | Some v => value ← parse v; mret [(key, value)]
  | None => mret []
  end.
Definition text_value (r : json → result string) (v : json) : result json := s ← r v; mret (JStr s).
Definition size_value (name : string) (v : json) : result json :=
  n ← positive_integer name max_component_size v; mret (JInt n).

Definition parse_backends (v : json) : result (list string) :=
  backends ← identifier_tuple "compatibility backends" 1 v;
  protocol_check (forallb (λ b, among b ["oci"; "python-venv"; "native"]) backends) "compatibility backend is not supported";;
  mret backends.

(** The backends and the Python runtime of [_parse_compatibility]. *)
Definition parse_runtime (compatibility : list (string * json)) : result (list (string * json)) :=
  backends ← match lookup_key compatibility "backends" with
             | Some v => backends ← parse_backends v; mret (Some backends)
             | None => mret None
             end;
  let python := match backends with Some l => among "python-venv" l | None => false end in
  let shown := match backends with Some l => [("backends", JArr (map JStr l))] | None => [] end in
  match lookup_key compatibility "python_runtime" with
  | Some v =>
      protocol_check python "Python runtime metadata requires the python-venv backend";;
      runtime ← parse_python_runtime v;
      mret (shown ++ [("python_runtime", runtime)])
  | None =>
      protocol_check (negb python) "python-venv compatibility requires Python runtime metadata";;
      mret shown
  end.

(** [_parse_compatibility]. *)
Definition parse_compatibility (v : json) : result json :=
  compatibility ← lock_mapping v "compatibility";
  exact_fields compatibility ["architectures"; "operating_systems"; "required_capabilities"; "minimum_storage_bytes"]
    ["minimum_memory_bytes"; "minimum_driver"; "minimum_cuda"; "backends"; "python_runtime"] "compatibility";;
  architectures ← identifier_tuple "compatibility architectures" 1 (field compatibility "architectures");
  systems ← identifier_tuple "compatibility operating_systems" 1 (field compatibility "operating_systems");
  capabilities ← identifier_tuple "compatibility required_capabilities" 0 (field compatibility "required_capabilities");
  storage ← positive_integer "compatibility minimum_storage_bytes" max_component_size
              (field compatibility "minimum_storage_bytes");
  memory ← optional_field compatibility "minimum_memory_bytes" (size_value "compatibility minimum_memory_bytes");
  driver ← optional_field compatibility "minimum_driver" (text_value (bounded_text 64 "compatibility minimum_driver"));
  cuda ← optional_field compatibility "minimum_cuda" (text_value (bounded_text 64 "compatibility minimum_cuda"));
  runtime ← parse_runtime compatibility;
  mret (JObj ([("architectures", JArr (map JStr architectures)); ("operating_systems", JArr (map JStr systems));
               ("required_capabilities", JArr (map JStr capabilities)); ("minimum_storage_bytes", JInt storage)]
              ++ memory ++ driver ++ cuda ++ runtime)).

(** [_parse_validation]. *)
Definition parse_validation (component_names : list string) (v : json) : result json :=
  validation ← lock_mapping v "validation record";
  exact_fields validation ["kind"] ["component"; "digest"; "required"] "validation record";;
  kind ← lock_identifier "validation kind" (field validation "kind");
  component ← optional_field validation "component" (λ v,
                name ← lock_identifier "validation component" v;
                protocol_check (among name component_names) "validation component is not declared";;
                mret (JStr name));
  digest ← optional_field validation "digest" (text_value (lock_digest_text "validation digest"));
  required ← optional_field validation "required" (λ v,
               match v with
               | JBool _ => mret v
               | _ => protocol_error "validation required must be a boolean"
               end);
  mret (JObj ([("kind", JStr kind)] ++ component ++ digest ++ required)).

(** [_parse_resolver]. *)
Definition parse_resolver (v : json) : result json :=
  resolver ← lock_mapping v "resolver";
  exact_fields resolver ["name"; "version"] [] "resolver";;
  name ← lock_identifier "resolver name" (field resolver "name");
  version ← positive_integer "resolver version" (2 ^ 31 - 1) (field resolver "version");
  mret (JObj [("name", JStr name); ("version", JInt version)]).

(** ** Resource envelopes *)

Definition resource_fields : list string :=
  ["download_bytes"; "installed_bytes"; "transient_bytes"; "output_bytes"; "host_memory_bytes"; "resident_memory_bytes";
   "auxiliary_memory_bytes"; "activation_memory_bytes"; "workspace_memory_bytes"; "gpu_memory_bytes"; "gpu_count";
   "cpu_millicores"; "kv_cache_base_bytes"; "kv_cache_per_token_bytes"].

Definition memory_breakdown : list string :=
  ["resident_memory_bytes"; "auxiliary_memory_bytes"; "activation_memory_bytes"; "workspace_memory_bytes"].

Definition amount (values : list (string * Z)) (key : string) : Z := default 0%Z (lookup_key values key).
Definition amounts_json (values : list (string * Z)) : json := JObj (map (on_values JInt) values).

(** [parse_values]. *)
Definition parse_amounts (name : string) (v : json) : result (list (string * Z)) :=
  items ← lock_mapping v name;
  known_fields items resource_fields [] name;;
  values ← traverse (λ key, n ← bounded_integer 0 max_component_size (name +:+ " " +:+ key +:+ " must be bounded")
                                  (field items key);
                            mret (key, n)) resource_fields;
  protocol_check (foldr Z.add 0%Z (map (amount values) memory_breakdown) <=? amount values "host_memory_bytes")%Z
    (name +:+ " host_memory_bytes is below memory breakdown");;
  mret values.

(** One turn of the loop over the ranks. *)
Definition parse_rank (expected : Z) (v : json) : result json :=
  rank ← lock_mapping v "resource_envelope rank";
  exact_fields rank ["rank"; "role"] [] "resource_envelope rank";;
  n ← bounded_integer 0 511 "resource_envelope rank must be bounded" (field rank "rank");
  protocol_check (n =? expected)%Z "resource_envelope ranks must be contiguous";;
  role ← lock_identifier "resource role" (field rank "role");
  mret (JObj [("rank", JInt n); ("role", JStr role)]).

Fixpoint parse_ranks (expected : Z) (l : list json) : result (list json) :=
  match l with
  | [] => mret []
  | v :: l => rank ← parse_rank expected v; ranks ← parse_ranks (expected + 1) l; mret (rank :: ranks)
  end.

Definition parse_fabric (v : json) : result json :=
  fabric ← lock_mapping v "resource_envelope fabric";
  exact_fields fabric ["kind"; "min_bandwidth_mbps"] [] "resource_envelope fabric";;
  bandwidth ← bounded_integer 0 1000000000 "resource_envelope fabric min_bandwidth_mbps must be bounded"
                (field fabric "min_bandwidth_mbps");
  kind ← lock_identifier "resource fabric kind" (field fabric "kind");
  mret (JObj [("kind", JStr kind); ("min_bandwidth_mbps", JInt bandwidth)]).

(** The loop that compares the aggregate with the sum over the nodes. *)
Fixpoint check_aggregate (per_node aggregate : list (string * Z)) (nodes : Z) (keys : list string) : result unit :=
  match keys with
  | [] => mret ()
  | key :: keys =>
      protocol_check (amount per_node key * nodes <=? amount aggregate key)%Z
        ("resource_envelope aggregate " +:+ key +:+ " is below per-node total");;
      check_aggregate per_node aggregate nodes keys
  end.

(** [_parse_resource_envelope]. *)
Definition parse_resource_envelope (v : json) : result json :=
  envelope ← lock_mapping v "resource_envelope";
  exact_fields envelope ["schema_version"; "per_node"; "aggregate"; "required_nodes"; "topology"; "world_size"; "ranks";
                         "fabric"; "measurement"; "evidence"] [] "resource_envelope";;
  protocol_check (eqb (field envelope "schema_version") (JInt 1)) "resource_envelope schema_version is invalid";;
  nodes ← positive_integer "resource_envelope required_nodes" 512 (field envelope "required_nodes");
  topology ← one_of ["single"; "replicated"; "gang"] "resource_envelope topology is invalid" (field envelope "topology");
  protocol_check (negb (eqb topology "single" && negb (nodes =? 1)%Z)) "single resource_envelope requires one GPU node";;
  protocol_check (negb (eqb topology "gang" && (nodes <? 2)%Z)) "gang resource_envelope requires multiple GPU nodes";;
  world ← positive_integer "resource_envelope world_size" 512 (field envelope "world_size");
  protocol_check (negb (eqb topology "single" && negb (world =? 1)%Z)) "single resource_envelope requires world_size one";;
  protocol_check (negb (eqb topology "replicated" && negb (world =? 1)%Z))
    "replicated resource_envelope requires world_size one per replica";;
  protocol_check (negb (eqb topology "gang" && (world <? nodes)%Z))
    "gang resource_envelope world_size cannot be below required GPU nodes";;
  raw_ranks ← lock_sequence "resource_envelope ranks" 1 512 (field envelope "ranks");
  protocol_check (Z.of_nat (length raw_ranks) =? world)%Z "resource_envelope ranks must match world_size";;
  ranks ← parse_ranks 0 raw_ranks;
  fabric ← parse_fabric (field envelope "fabric");
  measurement ← one_of ["declared"; "measured"] "resource_envelope measurement is invalid" (field envelope "measurement");
  per_node ← parse_amounts "resource_envelope per_node" (field envelope "per_node");
  aggregate ← parse_amounts "resource_envelope aggregate" (field envelope "aggregate");
  check_aggregate per_node aggregate nodes resource_fields;;
  evidence ← lock_items "resource_envelope evidence" 1 16 (parse_evidence "resource_envelope evidence") (field envelope "evidence");
  mret (JObj [("schema_version", JInt 1); ("per_node", amounts_json per_node); ("aggregate", amounts_json aggregate);
              ("required_nodes", JInt nodes); ("topology", JStr topology); ("world_size", JInt world); ("ranks", JArr ranks);
              ("fabric", fabric); ("measurement", JStr measurement); ("evidence", JArr evidence)]).

(** ** Locks *)

Record PackageReleaseLock := MkLock {
  lock_family_id : string; lock_upstream_version : string; lock_upstream_identity : json;
  lock_components : list ComponentDescriptor; lock_dependency_digests : list string; lock_adapter : ComponentDescriptor;
  lock_adapter_abi : Z; lock_compatibility : json; lock_validation : list json; lock_provenance : list json;
  lock_resolver : json; lock_resource_envelope : option json
}.

(** The document of [canonical_bytes]; every lock has schema version 1. *)
Definition lock_json (l : PackageReleaseLock) : json :=
  JObj ([("schema_version", JInt 1); ("family_id", JStr (lock_family_id l));
         ("upstream_version", JStr (lock_upstream_version l)); ("upstream_identity", lock_upstream_identity l);
         ("components", JArr (map component_json (lock_components l)));
         ("dependency_digests", JArr (map JStr (lock_dependency_digests l))); ("adapter", component_json (lock_adapter l));
         ("adapter_abi", JInt (lock_adapter_abi l)); ("compatibility", lock_compatibility l);
         ("validation", JArr (lock_validation l)); ("provenance", JArr (lock_provenance l)); ("resolver", lock_resolver l)]
        ++ match lock_resource_envelope l with Some envelope => [("resource_envelope", envelope)] | None => [] end).

Definition lock_canonical_bytes (l : PackageReleaseLock) : string := canonical_utf8 (lock_json l).
Definition lock_digest (l : PackageReleaseLock) : string := Sha256.hexdigest (lock_canonical_bytes l).

Definition max_release_lock_bytes : Z := 1024 * 1024.

(** [_duplicate_free_object]. *)
Fixpoint first_duplicate (seen : list string) (pairs : list (string * json)) : option string :=
  match pairs with
  | [] => None
  | (key, _) :: pairs => if among key seen then Some key else first_duplicate (key :: seen) pairs
  end.
Definition unique_hook : PairsHook := λ pairs,
  match first_duplicate [] pairs with
  | Some key => protocol_error ("duplicate JSON key: " +:+ key)
  | None => mret pairs
  end.

(** [_load_document] of text. *)
Definition load_document (raw : string) : result json :=
  protocol_check (Z.of_nat (String.length raw) <=? max_release_lock_bytes)%Z "workload release lock is too large";;
  match loads_with (hook:=unique_hook) raw with
  | Ok (JObj items) => mret (JObj items)
  | Ok _ => protocol_error "workload release lock must be a JSON object"
  | Err (Exn EAgentProtocol m) => protocol_error m
  | Err _ => protocol_error "workload release lock is not valid UTF-8 JSON"
  end.

Definition lock_fields : list string :=
  ["schema_version"; "family_id"; "upstream_version"; "upstream_identity"; "components"; "dependency_digests"; "adapter";
   "adapter_abi"; "compatibility"; "validation"; "provenance"; "resolver"].

(** [PackageReleaseLock.parse] of a mapping. *)
Definition parse_lock_document (v : json) : result PackageReleaseLock :=
  document ← lock_mapping v "workload release lock";
  exact_fields document lock_fields ["resource_envelope"] "workload release lock";;
  protocol_check (eqb (field document "schema_version") (JInt 1)) "unsupported workload release lock schema_version";;
  components ← lock_items "components" 0 255 parse_component (field document "components");
  let names := map cd_name components in
  protocol_check (distinct names) "duplicate component name";;
  adapter ← parse_component (field document "adapter");
  protocol_check (eqb (cd_kind adapter) "adapter") "adapter component kind must be adapter";;
  protocol_check (negb (among (cd_name adapter) names)) "duplicate component name";;
  dependencies ← lock_items "dependency_digests" 0 256 (lock_raw_digest "dependency digest") (field document "dependency_digests");
  protocol_check (distinct dependencies) "duplicate dependency digest";;
  validation ← lock_items "validation" 0 64 (parse_validation (names ++ [cd_name adapter])) (field document "validation");
  provenance ← lock_items "provenance" 0 64 (parse_evidence "provenance record") (field document "provenance");
  family ← lock_identifier "family_id" (field document "family_id");
  version ← bounded_text 128 "upstream_version" (field document "upstream_version");
  identity ← parse_upstream_identity (field document "upstream_identity");
  abi ← positive_integer "adapter_abi" 255 (field document "adapter_abi");
  compatibility ← parse_compatibility (field document "compatibility");
  resolver ← parse_resolver (field document "resolver");
  envelope ← match lookup_key document "resource_envelope" with
             | Some v => envelope ← parse_resource_envelope v; mret (Some envelope)
             | None => mret None
             end;
  let lock := MkLock family version identity components dependencies adapter abi compatibility validation provenance resolver
                envelope in
  protocol_check (Z.of_nat (String.length (lock_canonical_bytes lock)) <=? max_release_lock_bytes)%Z
    "workload release lock is too large";;
  mret lock.

(** [PackageReleaseLock.parse] of text. *)
Definition parse_release_lock (raw : string) : result PackageReleaseLock := load_document raw ≫= parse_lock_document.

(** ** The graph of releases *)

Definition max_dependency_depth : nat := 8.
Definition max_aggregate_components : nat := 256.

Record walk := Walk {
  wk_visiting : gset string; wk_resolved : gset string; wk_ordered : list PackageReleaseLock; wk_components : nat
}.

Section graph.
Context (releases : string → option PackageReleaseLock).

(** [visit]; [levels] is the number of levels below the limit on the depth. *)
Fixpoint visit (levels : nat) (digest : string) (w : walk) : result walk :=
  if decide (digest ∈ wk_visiting w) then protocol_error "package dependency cycle detected"
  else if decide (digest ∈ wk_resolved w) then mret w
  else match levels with
       | O => protocol_error "package dependency depth exceeds 8"
       | S levels =>
           match releases digest with
           | None => protocol_error ("package dependency is missing: " +:+ digest)
           | Some release =>
               let count := wk_components w + length (lock_components release) + 1 in
               protocol_check (count <=? max_aggregate_components) "package graph component count exceeds 256";;
               w ← (fix visit_all (digests : list string) (w : walk) : result walk :=
                      match digests with
                      | [] => mret w
                      | d :: digests => w ← visit levels d w; visit_all digests w
                      end) (lock_dependency_digests release)
                     (Walk ({[digest]} ∪ wk_visiting w) (wk_resolved w) (wk_ordered w ++ [release]) count);
               protocol_check (eqb (lock_digest release) digest) "package release digest mismatch";;
               mret (Walk (wk_visiting w ∖ {[digest]}) ({[digest]} ∪ wk_resolved w) (wk_ordered w) (wk_components w))
           end
       end.

(** [PackageReleaseGraph.resolve]: the releases, in the order they were met. *)
Definition resolve_graph (root : string) : result (list PackageReleaseLock) :=
  root ← lock_raw_digest "root digest" (JStr root);
  w ← visit (S max_dependency_depth) root (Walk ∅ ∅ [] 0);
  mret (wk_ordered w).
End graph.
