(* ===== verification/ReleaseGraph.v ===== *)
(** * What the graph of releases guarantees

    [PackageReleaseGraph.resolve] collects a release and everything it depends on. What
    it returns is complete, acyclic and within the limit on components, and each release
    is the one its digest names. *)

From S2P Require Import Prelude Identifiers Canonical Documents JsonText Contracts PackageEngine Protocol Messages Routes ReleaseLocks ReleaseLockFacts.

(** The components of releases, adapters included. *)
Definition component_count (locks : list PackageReleaseLock) : nat :=
  foldr Nat.add 0 (map (λ l, length (lock_components l) + 1) locks).

Lemma component_count_app l l' : component_count (l ++ l') = component_count l + component_count l'.
Proof. unfold component_count. induction l; cbn in *; lia. Qed.

Lemma take_back (d : string) (digests : gset string) : d ∉ digests → ({[d]} ∪ digests) ∖ {[d]} = digests.
Proof. intros Hd. apply set_eq. intros x. destruct (decide (x = d)); set_solver. Qed.

Section walks.
Context (releases : string → option PackageReleaseLock).

(** The loop over the dependencies. *)
Definition visit_all (levels : nat) : list string → walk → result walk :=
  fix visit_all (digests : list string) (w : walk) : result walk :=
    match digests with
    | [] => mret w
    | d :: digests => w ← visit releases levels d w; visit_all digests w
    end.

Lemma visit_unfold levels digest w : visit releases (S levels) digest w =
  if decide (digest ∈ wk_visiting w) then protocol_error "package dependency cycle detected"
  else if decide (digest ∈ wk_resolved w) then mret w
  else match releases digest with
       | None => protocol_error ("package dependency is missing: " +:+ digest)
       | Some release =>
           let count := wk_components w + length (lock_components release) + 1 in
           protocol_check (count <=? max_aggregate_components) "package graph component count exceeds 256";;
           w ← visit_all levels (lock_dependency_digests release)
                 (Walk ({[digest]} ∪ wk_visiting w) (wk_resolved w) (wk_ordered w ++ [release]) count);
           protocol_check (eqb (lock_digest release) digest) "package release digest mismatch";;
           mret (Walk (wk_visiting w ∖ {[digest]}) ({[digest]} ∪ wk_resolved w) (wk_ordered w) (wk_components w))
       end.
Proof. reflexivity. Qed.

(** Resolved digests, the last one first: each names its release, and depends on digests
    resolved before it. *)
Fixpoint in_order (digests : list string) : Prop :=
  match digests with
  | [] => True
  | d :: digests => (∃ release, releases d = Some release ∧ lock_digest release = d ∧
                       ∀ x, x ∈ lock_dependency_digests release → x ∈ digests) ∧ in_order digests
  end.

Record walking (w : walk) (met resolved : list string) : Prop := {
  met_distinct : NoDup met;
  met_releases : Forall2 (λ d release, releases d = Some release) met (wk_ordered w);
  met_digests d : d ∈ met ↔ d ∈ wk_visiting w ∨ d ∈ wk_resolved w;
  apart d : d ∈ wk_visiting w → d ∉ wk_resolved w;
  resolved_distinct : NoDup resolved;
  resolved_digests d : d ∈ resolved ↔ d ∈ wk_resolved w;
  resolved_order : in_order resolved;
  counted : wk_components w = component_count (wk_ordered w);
  bounded : wk_components w ≤ max_aggregate_components
}.

(** One walk goes on from another. *)
Definition extends (w w' : walk) : Prop :=
  wk_visiting w' = wk_visiting w ∧ wk_resolved w ⊆ wk_resolved w' ∧ wk_ordered w `prefix_of` wk_ordered w'.

Lemma extends_refl w : extends w w.
Proof. by split_and!. Qed.
Lemma extends_trans w1 w2 w3 : extends w1 w2 → extends w2 w3 → extends w1 w3.
Proof. intros (H1 & H2 & H3) (H4 & H5 & H6). split_and!; [congruence|set_solver|by etrans]. Qed.

(** A digest is met, and its release is collected. *)
Lemma walking_meet w met resolved digest release : walking w met resolved → digest ∉ wk_visiting w → digest ∉ wk_resolved w →
  releases digest = Some release → (wk_components w + length (lock_components release) + 1 <=? max_aggregate_components) = true →
  walking (Walk ({[digest]} ∪ wk_visiting w) (wk_resolved w) (wk_ordered w ++ [release])
             (wk_components w + length (lock_components release) + 1)) (met ++ [digest]) resolved.
Proof.
  intros [] Hv Hr Hl Hc%Nat.leb_le. split; cbn [wk_visiting wk_resolved wk_ordered wk_components]; try done.
  - apply NoDup_app. split_and!; [done| |apply NoDup_singleton]. intros d Hd ->%list_elem_of_singleton. apply met_digests0 in Hd. tauto.
  - apply Forall2_app; [done|]. by repeat constructor.
  - intros d. rewrite elem_of_app, list_elem_of_singleton, met_digests0. set_solver.
  - set_solver.
  - rewrite component_count_app, counted0. cbn. lia.
Qed.

(** A digest is resolved. *)
Lemma walking_resolve w met resolved digest release : walking w met resolved → digest ∈ wk_visiting w →
  releases digest = Some release → lock_digest release = digest →
  (∀ x, x ∈ lock_dependency_digests release → x ∈ wk_resolved w) →
  walking (Walk (wk_visiting w ∖ {[digest]}) ({[digest]} ∪ wk_resolved w) (wk_ordered w) (wk_components w)) met (digest :: resolved).
Proof.
  intros [] Hv Hl Hd Hdeps. split; cbn [wk_visiting wk_resolved wk_ordered wk_components]; try done.
  - intros d. rewrite met_digests0. destruct (decide (d = digest)); set_solver.
  - set_solver.
  - constructor; [|done]. rewrite resolved_digests0. auto.
  - set_solver.
  - split; [|done]. exists release. split_and!; [done..|]. intros x Hx. by apply resolved_digests0, Hdeps.
Qed.

Definition visits (levels : nat) : Prop := ∀ digest w w' met resolved,
  walking w met resolved → visit releases levels digest w = Ok w' →
  extends w w' ∧ digest ∈ wk_resolved w' ∧ ∃ met' resolved', walking w' met' resolved'.

Lemma visit_all_walks levels digests w w' met resolved : visits levels → walking w met resolved →
  visit_all levels digests w = Ok w' →
  extends w w' ∧ (∀ d, d ∈ digests → d ∈ wk_resolved w') ∧ ∃ met' resolved', walking w' met' resolved'.
Proof.
  intros Hvisit. revert w met resolved. induction digests as [|d digests IH]; cbn; intros w met resolved Hw H; inv_run_all.
  - subst. split_and!; [apply extends_refl|set_solver|eauto].
  - destruct (Hvisit _ _ _ _ _ Hw H0) as (He & Hd & met1 & resolved1 & Hw1).
    destruct (IH _ _ _ Hw1 H) as (He' & Hds & Hw'). split_and!; [by eapply extends_trans| |done].
    intros d' [->|Hx]%elem_of_cons; [|auto]. destruct He' as (_ & Hsub & _). set_solver.
Qed.

Lemma visit_walks levels : visits levels.
Proof.
  induction levels as [|levels IH]; intros digest w w' met resolved Hw.
  - cbn. repeat case_decide; intros Hrun; try done. inv_run_all. subst. split_and!; [apply extends_refl|done|eauto].
  - rewrite visit_unfold. repeat case_decide; try done.
    { intros Hrun. inv_run_all. subst. split_and!; [apply extends_refl|done|eauto]. }
    destruct (releases digest) as [release|] eqn:Hl; [|done]. unfold protocol_check. intros Hrun. inv_run_all.
    destruct (visit_all_walks _ _ _ _ _ _ IH (walking_meet _ _ _ _ _ Hw H H0 Hl H1) H2) as ((Hv & Hr & Ho) & Hdeps & met1 & resolved1 & Hw1).
    subst w'. cbn in Hv, Hr, Ho. apply (proj1 (eqb_true (lock_digest release) digest)) in H3. unfold extends. split_and!; cbn [wk_visiting wk_resolved wk_ordered].
    + rewrite Hv. by apply take_back.
    + clear - Hr. set_solver.
    + etrans; [|exact Ho]. by apply prefix_app_r.
    + clear. set_solver.
    + exists met1, (digest :: resolved1). apply (walking_resolve _ _ _ _ release); try done. rewrite Hv. clear. set_solver.
Qed.

(** A release depends on another one. *)
Definition uses (release release' : PackageReleaseLock) : Prop :=
  ∃ d, d ∈ lock_dependency_digests release ∧ releases d = Some release'.

(** Only what is needed is collected. *)
Definition reaches (digest : string) (release' : PackageReleaseLock) : Prop :=
  ∃ release, releases digest = Some release ∧ rtc uses release release'.

Lemma visit_all_reaches levels digests w w' :
  (∀ d w w', visit releases levels d w = Ok w' → ∀ l, l ∈ wk_ordered w' → l ∈ wk_ordered w ∨ reaches d l) →
  visit_all levels digests w = Ok w' →
  ∀ l, l ∈ wk_ordered w' → l ∈ wk_ordered w ∨ ∃ d, d ∈ digests ∧ reaches d l.
Proof.
  intros Hvisit. revert w. induction digests as [|d digests IH]; cbn; intros w H l Hin; inv_run_all; [subst; by left|].
  destruct (IH _ H _ Hin) as [Hl|(d' & Hd' & Hl)]; [|right; exists d'; set_solver].
  destruct (Hvisit _ _ _ H0 _ Hl) as [?|?]; [by left|right; exists d; set_solver].
Qed.

Lemma visit_reaches levels d w w' : visit releases levels d w = Ok w' →
  ∀ l, l ∈ wk_ordered w' → l ∈ wk_ordered w ∨ reaches d l.
Proof.
  revert d w w'. induction levels as [|levels IH]; intros d w w'.
  - cbn. repeat case_decide; intros Hrun l; try done. inv_run_all. subst. by left.
  - rewrite visit_unfold. repeat case_decide; try done. { intros Hrun l. inv_run_all. subst. by left. }
    destruct (releases d) as [release|] eqn:Hl; [|done]. unfold protocol_check. intros Hrun. inv_run_all. subst w'. cbn [wk_ordered]. intros l Hin.
    match goal with E : visit_all _ _ _ = Ok _ |- _ => destruct (visit_all_reaches _ _ _ _ IH E _ Hin) as [Hl'|(d' & Hd & r & Hr & Hl')] end.
    + apply elem_of_app in Hl' as [?|Hl']; [by left|]. apply list_elem_of_singleton in Hl' as ->. right. by exists release.
    + right. exists release. split; [done|]. eapply rtc_l; [|exact Hl']. by exists d'.
Qed.

(** Digests in order have no cycle. *)
Lemma in_order_split ds d : in_order ds → d ∈ ds → ∃ pre post release, ds = pre ++ d :: post ∧ in_order post ∧
  releases d = Some release ∧ lock_digest release = d ∧ ∀ x, x ∈ lock_dependency_digests release → x ∈ post.
Proof.
  induction ds as [|d' ds IH]; cbn; intros Ho Hin; [by apply elem_of_nil in Hin|]. destruct Ho as [(release & H1 & H2 & H3) Ho].
  apply elem_of_cons in Hin as [->|Hin].
  - exists [], ds, release. done.
  - destruct (IH Ho Hin) as (pre & post & r & -> & Hrest). exists (d' :: pre), post, r. done.
Qed.

Lemma in_order_later r r' : tc uses r r' → ∀ ds d, in_order ds → d ∈ ds → releases d = Some r →
  ∃ pre post, ds = pre ++ d :: post ∧ lock_digest r' ∈ post.
Proof.
  induction 1 as [r r' (x & Hx & Hr')|r r1 r' (x & Hx & Hr1) _ IH]; intros ds d Ho Hd Hr;
    destruct (in_order_split _ _ Ho Hd) as (pre & post & r2 & -> & Hpost & Hr2 & _ & Hdeps); simplify_eq; exists pre, post; split; try done;
    destruct (in_order_split _ _ Hpost (Hdeps _ Hx)) as (pre' & post' & r3 & -> & _ & Hr3 & Hdig & _); simplify_eq.
  - set_solver.
  - destruct (IH _ _ Hpost (Hdeps _ Hx) Hr3) as (pre'' & post'' & Heq & Hin). rewrite Heq. set_solver.
Qed.

Lemma in_order_acyclic ds d r : in_order ds → NoDup ds → d ∈ ds → releases d = Some r → ¬ tc uses r r.
Proof.
  intros Ho Hnd Hd Hr Hc. destruct (in_order_later _ _ Hc _ _ Ho Hd Hr) as (pre & post & -> & Hin).
  destruct (in_order_split _ _ Ho Hd) as (_ & _ & r' & _ & _ & Hr' & Hdig & _). simplify_eq.
  apply NoDup_app in Hnd as (_ & _ & Hnd). by apply NoDup_cons in Hnd as [].
Qed.

(** What a walk that has ended collected. *)
Lemma walked_graph w met ds : walking w met ds → wk_visiting w = ∅ →
  map lock_digest (wk_ordered w) = met ∧
  (∀ l, l ∈ wk_ordered w → releases (lock_digest l) = Some l) ∧
  (∀ l d, l ∈ wk_ordered w → d ∈ lock_dependency_digests l → d ∈ map lock_digest (wk_ordered w)) ∧
  (∀ l, l ∈ wk_ordered w → ¬ tc uses l l).
Proof.
  intros [H1 H2 H3 H4 H5 H6 H7 _ _] Hv.
  assert (∀ d, d ∈ met ↔ d ∈ ds) as Hmet.
  { intros d. rewrite H3, H6, Hv. split; [|by right]. by intros [[]%not_elem_of_empty|]. }
  assert (map lock_digest (wk_ordered w) = met) as Hkeys.
  { assert (∀ d, d ∈ met → d ∈ ds) as Hin by (intros; by apply Hmet). clear H1 H3 H4 H6 Hmet. revert Hin.
    induction H2 as [|d l met locks Hl _ IH]; intros Hin; [done|]. cbn. rewrite IH by (intros; apply Hin; by right). f_equal.
    destruct (in_order_split ds d H7) as (_ & _ & r & _ & _ & Hr & Hd & _); [apply Hin; by left|]. congruence. }
  assert (∀ l, l ∈ wk_ordered w → lock_digest l ∈ ds ∧ releases (lock_digest l) = Some l) as Hl.
  { intros l Hin. destruct (Forall2_elem_r _ _ _ _ H2 Hin) as (d & Hd & Hr). apply Hmet in Hd.
    destruct (in_order_split ds d H7 Hd) as (_ & _ & r & _ & _ & Hr' & <- & _). by simplify_eq. }
  split_and!; [done|intros; by apply Hl| |].
  - intros l d Hin Hd. rewrite Hkeys. apply Hmet. apply Hl in Hin as [Hin Hr].
    destruct (in_order_split ds _ H7 Hin) as (pre & post & r & -> & _ & Hr' & _ & Hdeps). simplify_eq. set_solver.
  - intros l Hin. apply Hl in Hin as [Hin Hr]. by eapply in_order_acyclic.
Qed.
End walks.

Lemma walking_start releases : walking releases (Walk ∅ ∅ [] 0) [] [].
Proof. split; cbn; try constructor; try set_solver. unfold max_aggregate_components. lia. Qed.

Lemma visit_first releases levels d w : visit releases (S levels) d (Walk ∅ ∅ [] 0) = Ok w →
  ∃ release rest, releases d = Some release ∧ wk_ordered w = release :: rest.
Proof.
  rewrite visit_unfold. cbn [wk_visiting wk_resolved wk_ordered wk_components]. rewrite !decide_False by apply not_elem_of_empty.
  destruct (releases d) as [release|] eqn:Hl; [|done]. unfold protocol_check. intros H. inv_run_all. subst w. cbn [wk_ordered].
  match goal with E : visit_all _ _ _ _ = Ok _ |- _ =>
    edestruct (visit_all_walks releases levels) as ((_ & _ & [rest Hrest]) & _); [apply visit_walks| |exact E|] end.
  - apply (walking_meet releases _ _ _ _ release (walking_start releases)); try done; apply not_elem_of_empty.
  - exists release, rest. split; [done|]. exact Hrest.
Qed.

(** C29. Resolving a release collects exactly what it needs: the release itself first,
    each release under its own digest and only once, every digest that a collected
    release depends on, nothing that the root does not reach, no release that depends on
    itself through any chain, and at most 256 components, adapters included. *)
Theorem resolved_graph_is_complete releases root locks :
  resolve_graph releases root = Ok locks →
  (∃ first rest, locks = first :: rest ∧ lock_digest first = root ∧ ∀ l, l ∈ locks → rtc (uses releases) first l) ∧
  (∀ l, l ∈ locks → releases (lock_digest l) = Some l) ∧
  NoDup (map lock_digest locks) ∧
  (∀ l d, l ∈ locks → d ∈ lock_dependency_digests l → d ∈ map lock_digest locks) ∧
  (∀ l, l ∈ locks → ¬ tc (uses releases) l l) ∧
  component_count locks ≤ max_aggregate_components.
Proof.
  unfold resolve_graph, lock_raw_digest. intros H. inv_run_all. subst locks.
  match goal with E : text_that _ _ _ = Ok _ |- _ => apply text_ok in E as [[= <-] _] end.
  match goal with E : visit _ _ _ _ = Ok _ |- _ => rename E into Hvisit end.
  destruct (visit_walks _ _ _ _ _ _ _ (walking_start _) Hvisit) as ((Hv & _ & _) & Hroot & met & ds & Hw).
  destruct (walked_graph _ _ _ _ Hw Hv) as (Hkeys & Hlocks & Hdeps & Hcycle).
  split_and!; [|done|rewrite Hkeys; apply Hw|done|done|rewrite <- (counted _ _ _ _ Hw); apply Hw].
  destruct (visit_first _ _ _ _ Hvisit) as (first & rest & Hl & Hrest). exists first, rest. split_and!; [done| |].
  - apply (resolved_digests _ _ _ _ Hw) in Hroot.
    destruct (in_order_split _ _ _ (resolved_order _ _ _ _ Hw) Hroot) as (_ & _ & r & _ & _ & Hr & Hd & _). congruence.
  - intros l Hin. destruct (visit_reaches _ _ _ _ _ Hvisit _ Hin) as [[]%elem_of_nil|(r & Hr & Hl')]. congruence.
Qed.

(** ** Graphs that are resolved *)

#[export] Instance component_count_proper : Proper ((≡ₚ) ==> (=)) component_count.
Proof. unfold component_count. induction 1; cbn in *; lia. Qed.

Section resolvable.
Context (releases : string → option PackageReleaseLock) (all : list string) (height : string → nat).
Context (Hgraph : ∀ d, d ∈ all → ∃ release, releases d = Some release ∧ lock_digest release = d ∧
  ∀ x, x ∈ lock_dependency_digests release → x ∈ all ∧ height x < height d).
Context (Hcount : component_count (omap releases all) ≤ max_aggregate_components).

Definition within (w : walk) : Prop := ∀ d, d ∈ wk_visiting w ∨ d ∈ wk_resolved w → d ∈ all.

(** There is room for a release that was not met. *)
Lemma room w met ds d release : walking releases w met ds → within w → d ∈ all → d ∉ met → releases d = Some release →
  (wk_components w + length (lock_components release) + 1 <=? max_aggregate_components) = true.
Proof.
  intros [H1 H2 H3 _ _ _ _ Hc _] Hin Hd Hnew Hl. apply Nat.leb_le.
  assert (d :: met ⊆+ all) as [rest Hperm]%submseteq_Permutation.
  { apply NoDup_submseteq; [by constructor|]. intros x [->|Hx]%elem_of_cons; [done|]. by apply Hin, H3. }
  assert (omap releases met = wk_ordered w) as Ho.
  { clear - H2. induction H2 as [|x l met locks Hx _ IH]; cbn; [done|]. by rewrite Hx, IH. }
  rewrite Hperm in Hcount. cbn in Hcount. rewrite Hl, omap_app in Hcount. cbn in Hcount.
  change (foldr Nat.add 0 _) with (component_count (omap releases met ++ omap releases rest)) in Hcount.
  rewrite component_count_app, Ho in Hcount. lia.
Qed.

Definition resolves (levels : nat) : Prop := ∀ d w met ds, walking releases w met ds → within w → d ∈ all → height d < levels →
  (∀ v, v ∈ wk_visiting w → height d < height v) → ∃ w', visit releases levels d w = Ok w' ∧ within w'.

Lemma resolves_all levels digests w met ds : resolves levels → walking releases w met ds → within w →
  (∀ d, d ∈ digests → d ∈ all ∧ height d < levels ∧ ∀ v, v ∈ wk_visiting w → height d < height v) →
  ∃ w', visit_all releases levels digests w = Ok w' ∧ within w'.
Proof.
  intros Hr. revert w met ds. induction digests as [|d digests IH]; cbn; intros w met ds Hw Hin Hds; [by exists w|].
  destruct (Hds d) as (Hd & Hh & Hv); [left|]. destruct (Hr _ _ _ _ Hw Hin Hd Hh Hv) as (w1 & E & Hin1).
  destruct (visit_walks _ _ _ _ _ _ _ Hw E) as ((Hsame & _) & _ & met1 & ds1 & Hw1). rewrite E.
  apply (IH _ _ _ Hw1 Hin1). rewrite Hsame. intros x Hx. apply Hds. by right.
Qed.

Lemma graph_resolves levels : resolves levels.
Proof.
  induction levels as [|levels IH]; intros d w met ds Hw Hin Hd Hh Hv; [lia|].
  assert (d ∉ wk_visiting w) as Hnew. { intros H%Hv. lia. }
  rewrite visit_unfold, decide_False by done. case_decide as Hr; [by exists w|].
  destruct (Hgraph d Hd) as (release & Hl & Hdig & Hdeps). rewrite Hl.
  assert (d ∉ met) as Hmet by (rewrite (met_digests _ _ _ _ Hw); tauto).
  pose proof (room _ _ _ _ _ Hw Hin Hd Hmet Hl) as Hroom. unfold protocol_check. cbn zeta. rewrite Hroom. cbn [ensure mbind result_bind].
  edestruct (resolves_all levels (lock_dependency_digests release)) as (w1 & E & Hin1); [done| | | |].
  - exact (walking_meet _ _ _ _ _ _ Hw Hnew Hr Hl Hroom).
  - intros x. cbn. rewrite elem_of_union, elem_of_singleton. intros [[->|Hx]|Hx]; [done|by apply Hin; left|by apply Hin; right].
  - intros x Hx. destruct (Hdeps _ Hx) as [Hx' Hlt]. split_and!; [done|lia|]. intros v. cbn. rewrite elem_of_union, elem_of_singleton.
    intros [->|?%Hv]; lia.
  - rewrite E. cbn [mbind result_bind]. unfold ensure. rewrite (proj2 (eqb_true _ _) Hdig). eexists. split; [done|].
    intros x. cbn. rewrite elem_of_difference, elem_of_union, elem_of_singleton. intros [[Hx _]|[->|Hx]]; [|done|]; apply Hin1; auto.
Qed.
End resolvable.

(** C30. Resolution gives up on no graph within the limits: when every digest that the root
    needs has a release with that digest, the longest chain of dependencies has at most
    eight steps, and the releases have at most 256 components, resolution returns. *)
Theorem small_graph_resolves releases root all height :
  is_digest root = true → root ∈ all →
  (∀ d, d ∈ all → ∃ release, releases d = Some release ∧ lock_digest release = d ∧
     ∀ x, x ∈ lock_dependency_digests release → x ∈ all ∧ height x < height d) →
  height root ≤ max_dependency_depth → component_count (omap releases all) ≤ max_aggregate_components →
  ∃ locks, resolve_graph releases root = Ok locks.
Proof.
  intros Hr Hin Hgraph Hh Hc. unfold resolve_graph, lock_raw_digest, text_that, protocol_check, ensure. rewrite Hr. cbn [mret result_ret mbind result_bind].
  edestruct (graph_resolves releases all height Hgraph Hc (S max_dependency_depth) root) as (w & E & _).
  - apply walking_start.
  - intros x. cbn. by intros [[]%not_elem_of_empty|[]%not_elem_of_empty].
  - done.
  - lia.
  - intros v. cbn. by intros []%not_elem_of_empty.
  - eexists. by rewrite E.
Qed.

(** ** Sample graphs *)

Definition graph_lock (dependencies : list string) : PackageReleaseLock :=
  MkLock "llama" "1" JNull [] dependencies (MkComponent "adapter" "adapter" "a/b" [] "" 1 None [] JNull []) 1 JNull [] [] JNull None.

(** A mapping of releases by their digests. *)
Definition by_digest (locks : list PackageReleaseLock) : list (string * PackageReleaseLock) :=
  map (λ l, (lock_digest l, l)) locks.

(** A chain of releases, the last one first. *)
Fixpoint graph_chain (n : nat) (depends : list string) : list PackageReleaseLock :=
  match n with
  | O => []
  | S n => let lock := graph_lock depends in graph_chain n [lock_digest lock] ++ [lock]
  end.

Definition pair_releases : list (string * PackageReleaseLock) := Eval vm_compute in by_digest (graph_chain 2 []).
Definition pair_root : string := default "" (head pair_releases.*1).

Lemma resolved_graph_is_complete_witness :
  ∃ first second, resolve_graph (lookup_key pair_releases) pair_root = Ok [first; second] ∧
    lock_digest first = pair_root ∧ ¬ tc (uses (lookup_key pair_releases)) first first.
Proof.
  destruct pair_releases as [|[d1 first] [|[d2 second] []]] eqn:E; try discriminate E. exists first, second. rewrite <- E.
  assert (resolve_graph (lookup_key pair_releases) pair_root = Ok [first; second]) as H.
  { injection E as <- <- <- <-. vm_compute. reflexivity. }
  pose proof (resolved_graph_is_complete _ _ _ H) as ((f & rest & [= -> _] & Hroot & _) & _ & _ & _ & Hcycle & _).
  split_and!; [exact H|exact Hroot|apply Hcycle; left].
Defined.

Lemma small_graph_resolves_witness :
  ∃ locks, resolve_graph (lookup_key pair_releases) pair_root = Ok locks.
Proof.
  apply (small_graph_resolves _ pair_root pair_releases.*1 (λ d, if decide (d = pair_root) then 1 else 0));
    [vm_compute; reflexivity|left| |vm_compute; lia|vm_compute; lia].
  intros d Hd. apply elem_of_cons in Hd as [->|[->|[]%elem_of_nil]%elem_of_cons]; eexists; split_and!;
    try (vm_compute; reflexivity); intros x Hx; vm_compute in Hx.
  - apply list_elem_of_singleton in Hx as ->. split; [right; left|vm_compute; lia].
  - by apply elem_of_nil in Hx.
Defined.

(** The limit on the depth depends on the order of the dependencies: a release that was
    resolved is not counted again, whatever the length of the chain that leads to it. *)
Definition chain_releases : list (string * PackageReleaseLock) := Eval vm_compute in by_digest (graph_chain 9 []).
Definition chain_digest (n : nat) : string := default "" (chain_releases.*1 !! n).
Definition near_first : PackageReleaseLock := graph_lock [chain_digest 4; chain_digest 0].
Definition far_first : PackageReleaseLock := graph_lock [chain_digest 0; chain_digest 4].
Definition chain_graph : list (string * PackageReleaseLock) :=
  Eval vm_compute in by_digest [near_first; far_first] ++ chain_releases.

Lemma depth_limit_depends_on_order :
  (length <$> (match resolve_graph (lookup_key chain_graph) (default "" (chain_graph.*1 !! 0)) with Ok l => Some l | Err _ => None end) = Some 10) ∧
  resolve_graph (lookup_key chain_graph) (default "" (chain_graph.*1 !! 1)) = protocol_error "package dependency depth exceeds 8".
Proof. split; vm_compute; reflexivity. Qed.

