(* ===== verification/HelperMessages.v ===== *)
(** * Messages of the package helper

    The root-owned package helper starts workloads for the unprivileged agent. A request
    carries a grant, signed by the control plane for exactly one execution body, and a
    signed receipt for every object the workload mounts. This file has the grants and
    receipts of [agent_protocol/src/vonk_agent_protocol/workload_packages.py], the backend
    invocations of [agent/src/vonk_agent/packages/backends.py] and the messages of
    [agent/src/vonk_agent/package_helper_protocol.py]. *)

From S2P Require Import Prelude Identifiers Canonical Documents JsonText Contracts PackageEngine Protocol Routes ReleaseLocks.

(** ** Grants and receipts *)

Inductive PackageHelperOperation := HPrepare | HVerify | HStart | HHealth | HInfer | HStop | HVerifyRelease.

#[export] Instance PackageHelperOperation_eq_dec : EqDecision PackageHelperOperation.
Proof. solve_decision. Defined.

Definition helper_operations : list (string * PackageHelperOperation) :=
  [("prepare", HPrepare); ("verify", HVerify); ("start", HStart); ("health", HHealth); ("infer", HInfer); ("stop", HStop);
   ("verify-release", HVerifyRelease)].
Definition helper_value (o : PackageHelperOperation) : string :=
  match o with
  | HPrepare => "prepare" | HVerify => "verify" | HStart => "start" | HHealth => "health" | HInfer => "infer" | HStop => "stop"
  | HVerifyRelease => "verify-release"
  end.

(** [PackageHelperOperation(value)]. *)
Definition helper_operation (v : json) : option PackageHelperOperation :=
  match v with JStr s => lookup_key helper_operations s | _ => None end.

Definition package_helper_authority : string := "vonk.workload-package-helper".
Definition max_grant_seconds : Z := 15 * 60.

(** A domain with its final zero byte. *)
Definition signing_domain (name : string) : string := "Vonk Forge-WORKLOAD-PACKAGE-" +:+ name +:+ "-V1" +:+ String Ascii.zero "".

Record PackageHelperSignature := MkSignature { sg_key_id : string; sg_value : string }.

(** [PackageHelperSignature.parse]. *)
Definition parse_signature (v : json) : result PackageHelperSignature :=
  document ← lock_mapping v "package helper signature";
  exact_fields document ["algorithm"; "key_id"; "value"] [] "package helper signature";;
  protocol_check (eqb (field document "algorithm") (JStr "ed25519")) "package helper signature is invalid";;
  key_id ← text_that is_digest "package helper signature is invalid" (field document "key_id");
  value ← text_that (is_hex_of 128) "package helper signature is invalid" (field document "value");
  mret (MkSignature key_id value).

Definition signature_json (s : PackageHelperSignature) : json :=
  JObj [("algorithm", JStr "ed25519"); ("key_id", JStr (sg_key_id s)); ("value", JStr (sg_value s))].

Definition lock_uuid (name : string) : json → result string := text_that is_uuid4 (name +:+ " must be a canonical UUIDv4").

Record PackageHelperGrantClaims := MkGrant {
  gc_request_id : string; gc_node_id : string; gc_job_id : string; gc_operation_id : string; gc_attempt : Z; gc_fence : string;
  gc_release_digest : string; gc_generation : string; gc_operation : PackageHelperOperation; gc_request_digest : string;
  gc_issued_at : Z; gc_expires_at : Z
}.

Definition grant_fields : list string :=
  ["schema_version"; "authority"; "request_id"; "node_id"; "job_id"; "operation_id"; "attempt"; "fence"; "release_digest";
   "generation"; "operation"; "request_digest"; "issued_at"; "expires_at"].

(** [PackageHelperGrantClaims.__post_init__]; the fields, but for the operation, are
    looked up in a document. *)
Definition make_grant (document : list (string * json)) (operation : PackageHelperOperation)
    : result PackageHelperGrantClaims :=
  let f := field document in
  protocol_check (eqb (f "schema_version") (JInt 1)) "package helper grant version is invalid";;
  protocol_check (eqb (f "authority") (JStr package_helper_authority)) "package helper grant authority is invalid";;
  request_id ← lock_uuid "package helper request ID" (f "request_id");
  node_id ← text_that is_node_id "package helper node ID is invalid" (f "node_id");
  job_id ← lock_uuid "package helper job ID" (f "job_id");
  operation_id ← lock_uuid "package helper operation ID" (f "operation_id");
  attempt ← positive_integer "package helper attempt" (2 ^ 31 - 1) (f "attempt");
  fence ← lock_uuid "package helper fence" (f "fence");
  release_digest ← lock_raw_digest "package helper release digest" (f "release_digest");
  generation ← lock_identifier "package helper generation" (f "generation");
  request_digest ← lock_raw_digest "package helper request digest" (f "request_digest");
  issued_at ← positive_integer "package helper issued_at" (2 ^ 63 - 1) (f "issued_at");
  expires_at ← positive_integer "package helper expires_at" (2 ^ 63 - 1) (f "expires_at");
  protocol_check ((1 <=? expires_at - issued_at)%Z && (expires_at - issued_at <=? max_grant_seconds)%Z)
    "package helper grant expiry is invalid";;
  mret (MkGrant request_id node_id job_id operation_id attempt fence release_digest generation operation request_digest
          issued_at expires_at).

(** [PackageHelperGrantClaims.parse]. *)
Definition parse_grant_claims (v : json) : result PackageHelperGrantClaims :=
  document ← lock_mapping v "package helper grant claims";
  exact_fields document grant_fields [] "package helper grant claims";;
  match helper_operation (field document "operation") with
  | Some operation => make_grant document operation
  | None => protocol_error "package helper operation is invalid"
  end.

Definition grant_json (c : PackageHelperGrantClaims) : json :=
  JObj [("schema_version", JInt 1); ("authority", JStr package_helper_authority); ("request_id", JStr (gc_request_id c));
        ("node_id", JStr (gc_node_id c)); ("job_id", JStr (gc_job_id c)); ("operation_id", JStr (gc_operation_id c));
        ("attempt", JInt (gc_attempt c)); ("fence", JStr (gc_fence c)); ("release_digest", JStr (gc_release_digest c));
        ("generation", JStr (gc_generation c)); ("operation", JStr (helper_value (gc_operation c)));
        ("request_digest", JStr (gc_request_digest c)); ("issued_at", JInt (gc_issued_at c)); ("expires_at", JInt (gc_expires_at c))].

(** [package_helper_grant_signing_bytes]. *)
Definition grant_signing_bytes (c : PackageHelperGrantClaims) : string :=
  signing_domain "HELPER-GRANT" +:+ canonical_utf8 (grant_json c).

Record SignedPackageHelperGrant := MkSignedGrant { sg_claims : PackageHelperGrantClaims; sg_signature : PackageHelperSignature }.

Definition parse_signed_grant (v : json) : result SignedPackageHelperGrant :=
  document ← lock_mapping v "signed package helper grant";
  exact_fields document ["claims"; "signature"] [] "signed package helper grant";;
  claims ← parse_grant_claims (field document "claims");
  signature ← parse_signature (field document "signature");
  mret (MkSignedGrant claims signature).

Definition signed_grant_json (g : SignedPackageHelperGrant) : json :=
  JObj [("claims", grant_json (sg_claims g)); ("signature", signature_json (sg_signature g))].

Record PackageObjectReceiptClaims := MkReceiptClaims { rc_object_digest : string; rc_size : Z }.

Definition receipt_name (digest : string) : string := "objects/sha256/" +:+ digest.

(** [PackageObjectReceiptClaims.__post_init__]. *)
Definition make_receipt_claims (document : list (string * json)) : result PackageObjectReceiptClaims :=
  let f := field document in
  protocol_check (eqb (f "schema_version") (JInt 1)) "package object receipt version is invalid";;
  protocol_check (eqb (f "authority") (JStr package_helper_authority)) "package object receipt authority is invalid";;
  digest ← lock_raw_digest "package object receipt digest" (f "object_digest");
  size ← positive_integer "package object receipt size" (2 ^ 63 - 1) (f "size");
  protocol_check (eqb (f "relative_name") (JStr (receipt_name digest))) "package object receipt relative name is invalid";;
  mret (MkReceiptClaims digest size).

Definition parse_receipt_claims (v : json) : result PackageObjectReceiptClaims :=
  document ← lock_mapping v "package object receipt claims";
  exact_fields document ["schema_version"; "authority"; "object_digest"; "size"; "relative_name"] []
    "package object receipt claims";;
  make_receipt_claims document.

Definition receipt_claims_json (c : PackageObjectReceiptClaims) : json :=
  JObj [("schema_version", JInt 1); ("authority", JStr package_helper_authority); ("object_digest", JStr (rc_object_digest c));
        ("size", JInt (rc_size c)); ("relative_name", JStr (receipt_name (rc_object_digest c)))].

Definition receipt_signing_bytes (c : PackageObjectReceiptClaims) : string :=
  signing_domain "OBJECT-RECEIPT" +:+ canonical_utf8 (receipt_claims_json c).

Record SignedPackageObjectReceipt := MkReceipt { re_claims : PackageObjectReceiptClaims; re_signature : PackageHelperSignature }.

Definition parse_receipt (v : json) : result SignedPackageObjectReceipt :=
  document ← lock_mapping v "signed package object receipt";
  exact_fields document ["claims"; "signature"] [] "signed package object receipt";;
  claims ← parse_receipt_claims (field document "claims");
  signature ← parse_signature (field document "signature");
  mret (MkReceipt claims signature).

Definition receipt_json (r : SignedPackageObjectReceipt) : json :=
  JObj [("claims", receipt_claims_json (re_claims r)); ("signature", signature_json (re_signature r))].

(** ** Backend invocations *)

Definition backend_check (b : bool) (m : string) : result unit := ensure b EBackendValidation m.
Definition backend_error {A} (m : string) : result A := raise EBackendValidation m.

(** Text and integers that a class checks with an exception of its own. *)
Definition typed_text (e : exn_class) (p : string → bool) (m : string) (v : json) : result string :=
  match v with JStr s => ensure (p s) e m;; mret s | _ => raise e m end.
Definition integer_of (e : exn_class) (lo hi : Z) (m : string) (v : json) : result Z :=
  match v with JInt n => ensure ((lo <=? n)%Z && (n <=? hi)%Z) e m;; mret n | _ => raise e m end.

(** [_object]. *)
Definition object_of (e : exn_class) (v : json) (fields : list string) (name : string) : result (list (string * json)) :=
  match v with
  | JObj items => ensure (same_keys items fields) e (name +:+ " are invalid");; mret items
  | _ => raise e (name +:+ " are invalid")
  end.

Definition backend_digest (name : string) : json → result string := typed_text EBackendValidation is_digest (name +:+ " is invalid").
Definition backend_identifier (name : string) : json → result string :=
  typed_text EBackendValidation is_identifier (name +:+ " is invalid").
Definition backend_limit (lo hi : Z) (name : string) : json → result Z :=
  integer_of EBackendValidation lo hi (name +:+ " limit is invalid").

(** [_relative_path]. *)
Definition is_relative_path (s : string) : bool :=
  fits 1 256 s && negb (has_char "\"%char s) && negb (String.prefix "/" s) && eqb (posix_text s) s
  && negb (existsb (λ part, among part [""; "."; ".."]) (posix_parts s)).
Definition relative_path (name : string) : json → result string := typed_text EBackendValidation is_relative_path (name +:+ " is invalid").

(** [PurePosixPath(s).name in {...}]. *)
Definition is_host_tool (s : string) : bool :=
  among (default "" (last (posix_parts s))) ["apt"; "apt-get"; "bash"; "dash"; "sh"; "sudo"].

(** [_sequence] and [_strings]. *)
Definition backend_sequence (name : string) (maximum : nat) (v : json) : result (list json) :=
  match v with
  | JArr l => backend_check (length l <=? maximum) (name +:+ " are invalid");; mret l
  | _ => backend_error (name +:+ " are invalid")
  end.
Definition backend_strings (name : string) (maximum : nat) (v : json) : result (list string) :=
  backend_sequence name maximum v ≫= traverse (typed_text EBackendValidation (λ _, true) (name +:+ " are invalid")).

Inductive Backend := OCI | PYTHON_VENV | NATIVE.
#[export] Instance Backend_eq_dec : EqDecision Backend.
Proof. solve_decision. Defined.
Definition backend_value (b : Backend) : string :=
  match b with OCI => "oci" | PYTHON_VENV => "python-venv" | NATIVE => "native" end.
Definition backend_of (v : json) : result Backend :=
  match v with
  | JStr s => if eqb s "oci" then mret OCI else if eqb s "python-venv" then mret PYTHON_VENV
              else if eqb s "native" then mret NATIVE else backend_error "backend is invalid"
  | _ => backend_error "backend is invalid"
  end.

Record ResourcePolicy := MkResources {
  rp_cpu_millis : Z; rp_memory_bytes : Z; rp_pids_limit : Z; rp_timeout_seconds : Z; rp_output_limit_bytes : Z
}.

(** [ResourcePolicy.parse]. *)
Definition parse_resources (v : json) : result ResourcePolicy :=
  document ← object_of EBackendValidation v ["cpu_millis"; "memory_bytes"; "pids_limit"; "timeout_seconds"; "output_limit_bytes"]
               "resource fields";
  cpu ← backend_limit 1 1000000 "CPU" (field document "cpu_millis");
  memory ← backend_limit 1 (2 ^ 60) "memory" (field document "memory_bytes");
  pids ← backend_limit 1 65536 "PID" (field document "pids_limit");
  timeout ← backend_limit 1 86400 "timeout" (field document "timeout_seconds");
  output ← backend_limit 1 (1024 * 1024) "output" (field document "output_limit_bytes");
  mret (MkResources cpu memory pids timeout output).

Definition resources_json (r : ResourcePolicy) : json :=
  JObj [("cpu_millis", JInt (rp_cpu_millis r)); ("memory_bytes", JInt (rp_memory_bytes r)); ("pids_limit", JInt (rp_pids_limit r));
        ("timeout_seconds", JInt (rp_timeout_seconds r)); ("output_limit_bytes", JInt (rp_output_limit_bytes r))].

(** Mounts are read-only. *)
Record MountPolicy := MkMount { mo_object_digest : string; mo_target : string }.

(** [MountPolicy.parse]. *)
Definition parse_mount (v : json) : result MountPolicy :=
  document ← object_of EBackendValidation v ["object_digest"; "target"; "read_only"] "mount fields";
  digest ← backend_digest "mount object digest" (field document "object_digest");
  target ← relative_path "mount target" (field document "target");
  backend_check (eqb (field document "read_only") (JBool true)) "package mounts must be read-only";;
  mret (MkMount digest target).

Definition mount_json (m : MountPolicy) : json :=
  JObj [("object_digest", JStr (mo_object_digest m)); ("target", JStr (mo_target m)); ("read_only", JBool true)].

Record NetworkPolicy := MkNetwork { nw_mode : string; nw_egress : list string }.

(** [[a-z0-9](?:[a-z0-9.-]{0,251}[a-z0-9])?] or [\[[0-9a-f:]+\]]. *)
Definition is_egress_host (s : string) : bool :=
  fits 1 253 s && char_is is_lower_digit (first_char s) && char_is is_lower_digit (last_char s)
  && all_chars (λ c, is_lower_digit c || has_char c ".-") s
  || String.prefix "[" s && char_is (eqb "]"%char) (last_char s) && (3 <=? String.length s)
     && all_chars (λ c, is_hex c || eqb c ":"%char) (String.substring 1 (String.length s - 2) s).

(** [[1-9][0-9]{0,4}]. *)
Definition is_egress_port (s : string) : bool :=
  fits 1 5 s && all_chars is_digit s && negb (char_is (eqb "0"%char) (first_char s)).

(** The two halves of [endpoint.rsplit(":", 1)]. *)
Definition rsplit_colon (s : string) : option (string * string) :=
  match rev (split_on ":"%char s) with
  | port :: (_ :: _ as rest) => Some (join ":" (rev rest), port)
  | _ => None
  end.

Fixpoint decimal_from (acc : N) (s : string) : N :=
  match s with EmptyString => acc | String c s => decimal_from (10 * acc + (code c - 48)) s end.
Definition decimal (s : string) : N := decimal_from 0 s.

(** The turn of the loop over [egress]. *)
Definition check_egress (endpoint : string) : result unit :=
  match rsplit_colon endpoint with
  | Some (host, port) =>
      backend_check (is_egress_host host && is_egress_port port) "network egress endpoint is invalid";;
      backend_check (decimal port <=? 65535)%N "network egress port is invalid"
  | None => backend_error "network egress endpoint is invalid"
  end.

(** [NetworkPolicy.__post_init__]; a mode that is not hashable raises a TypeError. *)
Definition make_network (mode : json) (egress : list string) : result NetworkPolicy :=
  mode ← match mode with
         | JStr s => backend_check (among s ["none"; "restricted"]) "network mode is invalid";; mret s
         | JArr _ | JObj _ => raise EType "unhashable type"
         | _ => backend_error "network mode is invalid"
         end;
  backend_check ((length egress <=? 64) && distinct egress) "network egress is invalid";;
  backend_check (negb (eqb mode "none" && nonempty egress)) "network-disabled backends cannot declare egress";;
  backend_check (negb (eqb mode "restricted" && negb (nonempty egress))) "restricted network requires bounded egress";;
  traverse check_egress egress;;
  mret (MkNetwork mode egress).

(** [NetworkPolicy.parse]. *)
Definition parse_network (v : json) : result NetworkPolicy :=
  document ← object_of EBackendValidation v ["mode"; "egress"] "network fields";
  egress ← backend_strings "network egress" 64 (field document "egress");
  make_network (field document "mode") egress.

Definition network_json (n : NetworkPolicy) : json :=
  JObj [("mode", JStr (nw_mode n)); ("egress", JArr (map JStr (nw_egress n)))].

Record PythonRuntimePolicy := MkRuntime {
  pr_environment_component : string; pr_environment_digest : string; pr_environment_tree_digest : string;
  pr_interpreter_component : string; pr_interpreter_component_digest : string; pr_interpreter_entrypoint : string;
  pr_interpreter_digest : string
}.

(** [PythonRuntimePolicy.__post_init__], of the fields of a document. *)
Definition make_python_policy (document : list (string * json)) : result PythonRuntimePolicy :=
  environment ← backend_identifier "Python environment component" (field document "environment_component");
  environment_digest ← backend_digest "Python environment digest" (field document "environment_digest");
  tree_digest ← backend_digest "Python environment tree digest" (field document "environment_tree_digest");
  interpreter ← backend_identifier "Python interpreter component" (field document "interpreter_component");
  component_digest ← backend_digest "Python interpreter component digest" (field document "interpreter_component_digest");
  backend_check (negb (eqb environment interpreter)) "Python environment and interpreter components must differ";;
  entrypoint ← relative_path "Python interpreter entrypoint" (field document "interpreter_entrypoint");
  backend_check (negb (is_host_tool entrypoint)) "Python interpreter entrypoint is forbidden";;
  interpreter_digest ← backend_digest "Python interpreter digest" (field document "interpreter_digest");
  mret (MkRuntime environment environment_digest tree_digest interpreter component_digest entrypoint interpreter_digest).

Definition parse_python_policy (v : json) : result PythonRuntimePolicy :=
  object_of EBackendValidation v python_runtime_fields "Python runtime fields" ≫= make_python_policy.

Definition python_policy_json (p : PythonRuntimePolicy) : json :=
  JObj [("environment_component", JStr (pr_environment_component p)); ("environment_digest", JStr (pr_environment_digest p));
        ("environment_tree_digest", JStr (pr_environment_tree_digest p)); ("interpreter_component", JStr (pr_interpreter_component p));
        ("interpreter_component_digest", JStr (pr_interpreter_component_digest p));
        ("interpreter_entrypoint", JStr (pr_interpreter_entrypoint p)); ("interpreter_digest", JStr (pr_interpreter_digest p))].

(** What only one of the backends has. *)
Inductive backend_part :=
| OciPart (bundle : OciBundleMetadata) (digest : string)
| PythonPart (runtime : PythonRuntimePolicy)
| NativePart.

Record BackendInvocation := MkInvocation {
  bi_release_digest : string; bi_generation : string; bi_entrypoint : string; bi_arguments : list string;
  bi_resources : ResourcePolicy; bi_mounts : list MountPolicy; bi_devices : list string; bi_network : NetworkPolicy;
  bi_part : backend_part
}.

Definition bi_backend (i : BackendInvocation) : Backend :=
  match bi_part i with OciPart _ _ => OCI | PythonPart _ => PYTHON_VENV | NativePart => NATIVE end.

(** [len(s.encode("utf-8"))]. *)
Definition utf8_length (s : string) : nat := foldr (λ c n, (if (code c <? 128)%N then 1 else 2) + n) 0 (String.list_ascii_of_string s).

(** [_argument_values]. *)
Definition is_backend_argument (s : string) : bool :=
  (utf8_length s <=? 1024) && all_chars (λ c, (32 <=? code c)%N && negb (code c =? 127)%N) s
  && negb (String.prefix "/" s) && negb (among ".." (posix_parts s)).
Definition check_arguments (l : list string) : result unit :=
  backend_check ((length l <=? 32) && forallb is_backend_argument l) "arguments are invalid".

(** [[a-z][a-z0-9._-]{0,63}]. *)
Definition is_device (s : string) : bool :=
  char_is is_lower (first_char s) && fits 1 64 s && all_chars (λ c, is_lower_digit c || is_dot_dash c) s.

(** The part of the backend, from the optional fields. *)
Definition make_part (backend : Backend) (python : option PythonRuntimePolicy) (bundle : option OciBundleMetadata) (digest : json)
    : result backend_part :=
  backend_check (match backend, python with PYTHON_VENV, None => false | _, _ => true end)
    "Python runtime metadata is required for python-venv";;
  backend_check (match backend, python with PYTHON_VENV, _ => true | _, Some _ => false | _, None => true end)
    "Python runtime metadata belongs only to python-venv";;
  backend_check (match backend, bundle with OCI, _ => true | _, Some _ => false | _, None => true end)
    "OCI bundle metadata belongs only to OCI";;
  match backend, python, bundle with
  | OCI, _, Some bundle =>
      backend_check (negb (eqb digest JNull)) "OCI bundle digest is required";;
      digest ← backend_digest "OCI bundle digest" digest;
      mret (OciPart bundle digest)
  | OCI, _, None => backend_error "OCI bundle digest is required"
  | PYTHON_VENV, Some runtime, _ =>
      backend_check (eqb digest JNull) "OCI bundle digest belongs only to OCI";; mret (PythonPart runtime)
  | _, _, _ => backend_check (eqb digest JNull) "OCI bundle digest belongs only to OCI";; mret NativePart
  end.

(** [BackendInvocation.__post_init__], of the plain fields of a document and the parsed
    ones. *)
Definition make_invocation (document : list (string * json)) (backend : Backend) (arguments : list string)
    (resources : ResourcePolicy) (mounts : list MountPolicy) (devices : list string) (network : NetworkPolicy)
    (python : option PythonRuntimePolicy) (bundle : option OciBundleMetadata) (digest : json) : result BackendInvocation :=
  backend_check (eqb (field document "schema_version") (JInt 1)) "backend schema version is invalid";;
  release_digest ← backend_digest "release digest" (field document "release_digest");
  generation ← backend_identifier "generation" (field document "generation");
  entrypoint ← relative_path "entrypoint" (field document "entrypoint");
  backend_check (negb (is_host_tool entrypoint)) "entrypoint requests a forbidden host tool";;
  check_arguments arguments;;
  backend_check ((length mounts <=? 64) && distinct (map mo_target mounts)) "mounts are invalid";;
  backend_check ((length devices <=? 32) && distinct devices && forallb is_device devices) "devices are invalid";;
  part ← make_part backend python bundle digest;
  mret (MkInvocation release_digest generation entrypoint arguments resources mounts devices network part).

Definition invocation_fields : list string :=
  ["schema_version"; "backend"; "release_digest"; "generation"; "entrypoint"; "arguments"; "resources"; "mounts"; "devices"; "network"].

(** [None if document.get(key) is None else parse(document[key])]. *)
Definition unless_null {A} (parse : json → result A) (v : json) : result (option A) :=
  match v with JNull => mret None | v => a ← parse v; mret (Some a) end.

(** [BackendInvocation.parse]. *)
Definition parse_invocation (v : json) : result BackendInvocation :=
  match v with
  | JObj document =>
      let allowed := [invocation_fields; invocation_fields ++ ["python_runtime"];
                      invocation_fields ++ ["oci_bundle"; "oci_bundle_digest"];
                      invocation_fields ++ ["python_runtime"; "oci_bundle"; "oci_bundle_digest"]] in
      backend_check (existsb (same_keys document) allowed) "backend invocation fields are invalid";;
      backend ← backend_of (field document "backend");
      raw_mounts ← backend_sequence "mounts" 64 (field document "mounts");
      devices ← backend_strings "devices" 32 (field document "devices");
      arguments ← backend_strings "arguments" 32 (field document "arguments");
      check_arguments arguments;;
      resources ← parse_resources (field document "resources");
      mounts ← traverse parse_mount raw_mounts;
      network ← parse_network (field document "network");
      python ← unless_null parse_python_policy (field document "python_runtime");
      bundle ← unless_null parse_oci_bundle (field document "oci_bundle");
      make_invocation document backend arguments resources mounts devices network python bundle (field document "oci_bundle_digest")
  | _ => backend_error "backend invocation fields are invalid"
  end.

Definition part_items (p : backend_part) : list (string * json) :=
  match p with
  | OciPart bundle digest => [("oci_bundle", JObj (oci_bundle_items bundle)); ("oci_bundle_digest", JStr digest)]
  | PythonPart runtime => [("python_runtime", python_policy_json runtime)]
  | NativePart => []
  end.

Definition invocation_json (i : BackendInvocation) : json :=
  JObj ([("schema_version", JInt 1); ("backend", JStr (backend_value (bi_backend i))); ("release_digest", JStr (bi_release_digest i));
         ("generation", JStr (bi_generation i)); ("entrypoint", JStr (bi_entrypoint i)); ("arguments", JArr (map JStr (bi_arguments i)));
         ("resources", resources_json (bi_resources i)); ("mounts", JArr (map mount_json (bi_mounts i)));
         ("devices", JArr (map JStr (bi_devices i))); ("network", network_json (bi_network i))] ++ part_items (bi_part i)).

(** ** Requests and responses *)

Definition helper_check (b : bool) (m : string) : result unit := ensure b EHelperProtocol m.
Definition helper_error {A} (m : string) : result A := raise EHelperProtocol m.
Definition helper_uuid (name : string) : json → result string := typed_text EHelperProtocol is_uuid4 (name +:+ " is invalid").
Definition helper_digest (name : string) : json → result string := typed_text EHelperProtocol is_digest (name +:+ " is invalid").

Definition max_helper_message_bytes : Z := 256 * 1024.
Definition helper_fits (raw : string) : bool :=
  (1 <=? Z.of_nat (String.length raw))%Z && (Z.of_nat (String.length raw) <=? max_helper_message_bytes)%Z.

(** [canonical_helper_document]. *)
Definition canonical_helper_document (v : json) : result string :=
  let raw := canonical_utf8 v in
  helper_check (Z.of_nat (String.length raw) <=? max_helper_message_bytes)%Z "helper document exceeds its bound";;
  mret raw.

Record HelperExecutionBody := MkBody {
  hb_request_id : string; hb_node_id : string; hb_job_id : string; hb_operation_id : string; hb_attempt : Z; hb_fence : string;
  hb_operation : PackageHelperOperation; hb_invocation : BackendInvocation; hb_receipts : list SignedPackageObjectReceipt
}.

Definition receipt_digests (receipts : list SignedPackageObjectReceipt) : list string := map (λ r, rc_object_digest (re_claims r)) receipts.

(** [HelperExecutionBody.__post_init__]. *)
Definition make_body (document : list (string * json)) (operation : PackageHelperOperation) (invocation : BackendInvocation)
    (receipts : list SignedPackageObjectReceipt) : result HelperExecutionBody :=
  helper_check (eqb (field document "schema_version") (JInt 1)) "helper execution body version is invalid";;
  request_id ← helper_uuid "request ID" (field document "request_id");
  job_id ← helper_uuid "job ID" (field document "job_id");
  operation_id ← helper_uuid "operation ID" (field document "operation_id");
  fence ← helper_uuid "operation fence" (field document "fence");
  node_id ← typed_text EHelperProtocol is_node_id "helper node ID is invalid" (field document "node_id");
  attempt ← integer_of EHelperProtocol 1 (2 ^ 31 - 1) "request attempt is invalid" (field document "attempt");
  helper_check ((1 <=? length receipts) && (length receipts <=? 256) && distinct (receipt_digests receipts))
    "object receipts are invalid";;
  helper_check (forallb (λ m, among (mo_object_digest m) (receipt_digests receipts)) (bi_mounts invocation))
    "mount has no signed object receipt";;
  mret (MkBody request_id node_id job_id operation_id attempt fence operation invocation receipts).

Definition body_fields : list string :=
  ["schema_version"; "request_id"; "node_id"; "job_id"; "operation_id"; "attempt"; "fence"; "operation"; "invocation"; "receipts"].

(** [except BackendValidationError]. *)
Definition backend_wrapped {A} (r : result A) : result A :=
  match r with Err (Exn EBackendValidation _) => helper_error "backend invocation is invalid" | r => r end.
(** [except (AgentProtocolError, TypeError, ValueError)]. *)
Definition value_wrapped {A} (r : result A) (m : string) : result A :=
  match r with
  | Err (Exn (EAgentProtocol | EType | EValue | EBackendValidation | EHelperProtocol) _) => helper_error m
  | r => r
  end.

(** [HelperExecutionBody.parse]. *)
Definition parse_body (v : json) : result HelperExecutionBody :=
  document ← object_of EHelperProtocol v body_fields "helper execution body fields";
  raw_receipts ← match field document "receipts" with
                 | JArr l => helper_check ((1 <=? length l) && (length l <=? 256)) "object receipts are invalid";; mret l
                 | _ => helper_error "object receipts are invalid"
                 end;
  invocation ← backend_wrapped (parse_invocation (field document "invocation"));
  '(operation, receipts) ← value_wrapped (
     match helper_operation (field document "operation") with
     | Some operation => receipts ← traverse parse_receipt raw_receipts; mret (operation, receipts)
     | None => raise EValue "not a valid PackageHelperOperation"
     end) "helper authority body is invalid";
  make_body document operation invocation receipts.

Definition body_json (b : HelperExecutionBody) : json :=
  JObj [("schema_version", JInt 1); ("request_id", JStr (hb_request_id b)); ("node_id", JStr (hb_node_id b));
        ("job_id", JStr (hb_job_id b)); ("operation_id", JStr (hb_operation_id b)); ("attempt", JInt (hb_attempt b));
        ("fence", JStr (hb_fence b)); ("operation", JStr (helper_value (hb_operation b)));
        ("invocation", invocation_json (hb_invocation b)); ("receipts", JArr (map receipt_json (hb_receipts b)))].

Definition body_digest (b : HelperExecutionBody) : result string :=
  raw ← canonical_helper_document (body_json b); mret (Sha256.hexdigest raw).

Record HelperRequest := MkHelperRequest { hr_body : HelperExecutionBody; hr_grant : SignedPackageHelperGrant }.

(** The claims of a grant name a body. *)
Definition grant_binds (c : PackageHelperGrantClaims) (b : HelperExecutionBody) (digest : string) : bool :=
  eqb (gc_request_id c) (hb_request_id b) && eqb (gc_node_id c) (hb_node_id b) && eqb (gc_job_id c) (hb_job_id b)
  && eqb (gc_operation_id c) (hb_operation_id b) && (gc_attempt c =? hb_attempt b)%Z && eqb (gc_fence c) (hb_fence b)
  && eqb (gc_release_digest c) (bi_release_digest (hb_invocation b)) && eqb (gc_generation c) (bi_generation (hb_invocation b))
  && bool_decide (gc_operation c = hb_operation b) && eqb (gc_request_digest c) digest.

(** [HelperRequest.__post_init__]. *)
Definition make_request (b : HelperExecutionBody) (g : SignedPackageHelperGrant) : result HelperRequest :=
  digest ← body_digest b;
  helper_check (grant_binds (sg_claims g) b digest) "helper grant does not bind execution body";;
  mret (MkHelperRequest b g).

(** [_unique_object]. *)
Definition helper_hook : PairsHook := λ pairs,
  match first_duplicate [] pairs with
  | Some key => helper_error ("duplicate helper field: " +:+ key)
  | None => mret pairs
  end.

(** [_parse_canonical]. *)
Definition parse_canonical (raw name : string) : result json :=
  helper_check (helper_fits raw) (name +:+ " exceeds its bound");;
  document ← match loads_with (hook:=helper_hook) raw with
             | Ok v => mret v
             | Err (Exn EHelperProtocol m) => helper_error m
             | Err _ => helper_error (name +:+ " is not valid JSON")
             end;
  match document with
  | JObj _ =>
      canonical ← canonical_helper_document document;
      helper_check (eqb canonical raw) (name +:+ " is not canonical");;
      mret document
  | _ => helper_error (name +:+ " must be an object")
  end.

(** [HelperRequest.parse]. *)
Definition parse_helper_request (raw : string) : result HelperRequest :=
  v ← parse_canonical raw "helper request";
  document ← object_of EHelperProtocol v ["schema_version"; "body"; "grant"] "helper request fields";
  helper_check (eqb (field document "schema_version") (JInt 1)) "helper request version is invalid";;
  grant ← value_wrapped (parse_signed_grant (field document "grant")) "helper grant is invalid";
  body ← parse_body (field document "body");
  make_request body grant.

Definition request_json (r : HelperRequest) : json :=
  JObj [("schema_version", JInt 1); ("body", body_json (hr_body r)); ("grant", signed_grant_json (hr_grant r))].
Definition request_bytes (r : HelperRequest) : result string := canonical_helper_document (request_json r).

Record HelperResponse := MkResponse {
  hp_request_id : string; hp_status : string; hp_evidence_digest : string; hp_fence : string; hp_request_digest : string
}.

(** [HelperResponse.__post_init__]. *)
Definition make_response (schema_version request_id status evidence_digest fence request_digest : json) : result HelperResponse :=
  helper_check (eqb schema_version (JInt 1)) "helper response version is invalid";;
  request_id ← helper_uuid "request ID" request_id;
  status ← typed_text EHelperProtocol is_identifier "helper response status is invalid" status;
  evidence_digest ← helper_digest "helper evidence digest" evidence_digest;
  fence ← helper_uuid "operation fence" fence;
  request_digest ← helper_digest "helper request digest" request_digest;
  mret (MkResponse request_id status evidence_digest fence request_digest).

(** [HelperResponse.parse]. *)
Definition parse_response (raw : string) : result HelperResponse :=
  v ← parse_canonical raw "helper response";
  document ← object_of EHelperProtocol v ["schema_version"; "request_id"; "status"; "evidence_digest"; "fence"; "request_digest"]
               "helper response fields";
  make_response (field document "schema_version") (field document "request_id") (field document "status")
    (field document "evidence_digest") (field document "fence") (field document "request_digest").

Definition response_json (r : HelperResponse) : json :=
  JObj [("schema_version", JInt 1); ("request_id", JStr (hp_request_id r)); ("status", JStr (hp_status r));
        ("evidence_digest", JStr (hp_evidence_digest r)); ("fence", JStr (hp_fence r)); ("request_digest", JStr (hp_request_digest r))].
Definition response_bytes (r : HelperResponse) : result string := canonical_helper_document (response_json r).

(** ** Frames *)

(** [struct.pack(">I", n)] and [struct.unpack]. *)
Definition byte_of (n : Z) : Ascii.ascii := Ascii.ascii_of_N (Z.to_N (n mod 256)).
Definition pack_size (n : Z) : string :=
  String (byte_of (n / 2 ^ 24)) (String (byte_of (n / 2 ^ 16)) (String (byte_of (n / 2 ^ 8)) (String (byte_of n) ""))).
Definition unpack_size (a b c d : Ascii.ascii) : Z :=
  let z x := Z.of_N (code x) in (z a * 2 ^ 24 + z b * 2 ^ 16 + z c * 2 ^ 8 + z d)%Z.

(** [frame_helper_message]. *)
Definition frame_helper_message (raw : string) : result string :=
  helper_check (helper_fits raw) "helper message exceeds its bound";; mret (pack_size (Z.of_nat (String.length raw)) +:+ raw).

(** [receive_helper_message], of everything that the peer sends before it closes the
    connection. *)
Definition receive_helper_message (stream : string) : result string :=
  match stream with
  | String a (String b (String c (String d rest))) =>
      let size := unpack_size a b c d in
      helper_check ((1 <=? size)%Z && (size <=? max_helper_message_bytes)%Z) "helper message exceeds its bound";;
      helper_check (size <=? Z.of_nat (String.length rest))%Z "helper message is truncated";;
      mret (String.substring 0 (Z.to_nat size) rest)
  | _ => helper_error "helper message is truncated"
  end.
