(* ===== verification/AgentJobsFacts.v ===== *)
(** * What the agent queue promises

    Agents, operators and the other services of the control plane as a transition
    system over the database. Most calls are [quiet]: they start nothing. The one
    call that starts an attempt is a claim, and everything below follows from what
    holds at that moment. *)

From S2P Require Import Prelude Identifiers Canonical Datetimes Contracts PackageEngine Protocol.
From S2P Require Import OperationGraph Orchestration NodeLeases Jobs AgentTables AgentJobs.

(** ** Changes that start nothing *)

Definition is_running (o : StoredOperation) : Prop := so_state o = "running".
Definition attempt_running (a : AgentOperationAttempt) : Prop := at_state a = "running".

(** The operator asked for a retry of exactly the current attempt. *)
Definition retry_requested (o : StoredOperation) : bool :=
  eqb (so_retry_disposition o) (Some "retry")
  && eqb (so_retry_disposition_attempt o) (Some (so_current_attempt o)).

(** The same work: everything but the state, the retry columns and the update time. *)
Definition same_work (o o' : StoredOperation) : Prop :=
  so_parent_job_id o' = so_parent_job_id o ∧ so_node_id o' = so_node_id o ∧ so_kind o' = so_kind o
  ∧ so_payload o' = so_payload o ∧ so_payload_digest o' = so_payload_digest o
  ∧ so_current_attempt o' = so_current_attempt o.

Definition same_attempt (a a' : AgentOperationAttempt) : Prop :=
  at_operation_id a' = at_operation_id a ∧ at_attempt a' = at_attempt a
  ∧ at_certificate_serial a' = at_certificate_serial a.

(** The lease of an update ends with its signed receipt. *)
Definition within (o : StoredOperation) (a : AgentOperationAttempt) : Prop :=
  is_update (so_kind o) = true → ∀ d, signed_deadline o = Ok d → (at_lease_deadline a ≤ d)%Z.

Record quiet (s s' : control_db) : Prop := {
  quiet_operation id o : t_operations s !! id = Some o →
    ∃ o', t_operations s' !! id = Some o' ∧ same_work o o' ∧ (is_running o' → is_running o)
          ∧ (retry_requested o' = true → retry_requested o = true);
  quiet_new id o' : t_operations s' !! id = Some o' → t_operations s !! id = None →
    so_current_attempt o' = 0%Z ∧ ¬ is_running o' ∧ retry_requested o' = false;
  quiet_attempt f a : t_attempts s !! f = Some a →
    ∃ a', t_attempts s' !! f = Some a' ∧ same_attempt a a' ∧ (attempt_running a' → attempt_running a)
          ∧ ∀ o, t_operations s !! at_operation_id a = Some o → within o a → within o a';
  quiet_no_attempt f : t_attempts s !! f = None → t_attempts s' !! f = None
}.

#[export] Instance same_work_preorder : PreOrder same_work.
Proof. split; unfold same_work; [done|]. intros ? ? ? ? ?. naive_solver congruence. Qed.

#[export] Instance same_attempt_preorder : PreOrder same_attempt.
Proof. split; unfold same_attempt; [done|]. intros ? ? ? ? ?. naive_solver congruence. Qed.

Lemma same_work_within o o' a : same_work o o' → within o' a ↔ within o a.
Proof.
  intros (_ & _ & Hk & Hp & _). unfold within, signed_deadline. by rewrite Hk, Hp.
Qed.

(** Only the two tables matter. *)
Lemma quiet_frame s s' :
  t_operations s' = t_operations s → t_attempts s' = t_attempts s → quiet s s'.
Proof.
  intros Ho Ha. split; intros *; rewrite ?Ho, ?Ha; intros H; eauto 6; try congruence.
  - exists o. split_and!; done.
  - exists a. split_and!; done.
Qed.

#[export] Instance quiet_preorder : PreOrder quiet.
Proof.
  split; [intros s; by apply quiet_frame|]. intros s1 s2 s3 [O1 N1 A1 B1] [O2 N2 A2 B2]. split.
  - intros id o (o2 & H2 & W2 & R2 & T2)%O1. destruct (O2 _ _ H2) as (o3 & H3 & W3 & R3 & T3).
    exists o3. split_and!; [done|by etrans|auto..].
  - intros id o3 H3 Hn. destruct (t_operations s2 !! id) as [o2|] eqn:H2; [|by eapply N2].
    destruct (N1 _ _ H2 Hn) as (Hz & Hr & Ht). destruct (O2 _ _ H2) as (o3' & H3' & W & R & T).
    simplify_eq. destruct W as (_ & _ & _ & _ & _ & W). rewrite W. split_and!; [done|auto|].
    destruct (retry_requested o3); [by rewrite T in Ht|done].
  - intros f a (a2 & H2 & W2 & R2 & D2)%A1. destruct (A2 _ _ H2) as (a3 & H3 & W3 & R3 & D3).
    exists a3. split_and!; [done|by etrans|auto|]. intros o Ho Hin.
    destruct (O1 _ _ Ho) as (o2 & Ho2 & W & _). destruct W2 as (Hid & _).
    rewrite <- (same_work_within _ _ a3 W). apply D3; [by rewrite Hid|].
    rewrite (same_work_within _ _ a2 W). by apply (D2 o).
  - auto.
Qed.

Lemma quiet_put_operation s id o o' :
  t_operations s !! id = Some o → same_work o o' → (is_running o' → is_running o) →
  (retry_requested o' = true → retry_requested o = true) → quiet s (set_t_operations <[id := o']> s).
Proof.
  intros Ho Hw Hr Ht. split; cbn; [| |intros f a Ha; by exists a|done].
  - intros id' x Hx. destruct (decide (id' = id)) as [->|Hne].
    + simplify_eq. exists o'. by rewrite lookup_insert_eq.
    + exists x. by rewrite lookup_insert_ne.
  - intros id' x Hx Hn. destruct (decide (id' = id)) as [->|Hne]; [congruence|].
    rewrite lookup_insert_ne in Hx by done. congruence.
Qed.

Lemma quiet_put_attempt s f a a' :
  t_attempts s !! f = Some a → same_attempt a a' → (attempt_running a' → attempt_running a) →
  (∀ o, t_operations s !! at_operation_id a = Some o → within o a → within o a') →
  quiet s (set_t_attempts <[f := a']> s).
Proof.
  intros Ha Hw Hr Hd. split; cbn; [intros id o Ho; by exists o|congruence| |].
  - intros f' x Hx. destruct (decide (f' = f)) as [->|Hne].
    + simplify_eq. exists a'. by rewrite lookup_insert_eq.
    + exists x. by rewrite lookup_insert_ne.
  - intros f' Hn. destruct (decide (f' = f)) as [->|Hne]; [congruence|].
    by rewrite lookup_insert_ne.
Qed.

(** The same, with no new operations. *)
Definition settles (s s' : control_db) : Prop :=
  quiet s s' ∧ dom (t_operations s') = dom (t_operations s).

#[export] Instance settles_preorder : PreOrder settles.
Proof.
  split; [intros s; by split; [reflexivity|]|].
  intros s1 s2 s3 [? ?] [? ?]. split; [by etrans|congruence].
Qed.

Lemma settles_frame s s' :
  t_operations s' = t_operations s → t_attempts s' = t_attempts s → settles s s'.
Proof. intros Ho Ha. split; [by apply quiet_frame|by rewrite Ho]. Qed.

Lemma settles_at_run {A} s (m : M control_db A) r s' : moves_at settles s m → m s = (r, s') → quiet s s'.
Proof. intros H E. by destruct (moves_at_run _ _ _ _ _ H E). Qed.

Lemma settles_quiet {A} (m : M control_db A) : moves settles m → moves quiet m.
Proof. apply moves_impl. by intros ? ? []. Qed.

(** ** Quiet programs

    Calls that touch neither operations nor attempts, and those that move
    operations out of [running] only. *)

Ltac quiet_write := apply moves_modify; intros ?; by apply settles_frame.

Lemma put_node_settles id n : moves settles (put_node id n).
Proof. quiet_write. Qed.
Lemma put_job_settles id j : moves settles (put_job id j).
Proof. quiet_write. Qed.
Lemma put_projection_settles id p : moves settles (put_projection id p).
Proof. quiet_write. Qed.
Lemma put_reconciliation_settles id r : moves settles (put_reconciliation id r).
Proof. quiet_write. Qed.
Lemma certificates_settles f : moves settles (modify (set_t_certificates f)).
Proof. quiet_write. Qed.
Lemma observations_settles f : moves settles (modify (set_t_observations f)).
Proof. quiet_write. Qed.

#[export] Hint Resolve put_node_settles put_job_settles put_projection_settles put_reconciliation_settles
  certificates_settles observations_settles : py.

(** A write that follows a lookup of the row it replaces. *)
Lemma put_operation_settles s id o o' :
  t_operations s !! id = Some o → same_work o o' → (is_running o' → is_running o) →
  (retry_requested o' = true → retry_requested o = true) → moves_at settles s (put_operation id o').
Proof.
  intros Ho. intros. split; [by eapply quiet_put_operation|]. cbn.
  rewrite dom_insert_L. apply elem_of_dom_2 in Ho. set_solver.
Qed.

Lemma put_attempt_settles s f a a' :
  t_attempts s !! f = Some a → same_attempt a a' → (attempt_running a' → attempt_running a) →
  (∀ o, t_operations s !! at_operation_id a = Some o → within o a → within o a') →
  moves_at settles s (put_attempt f a').
Proof. intros. split; [by eapply quiet_put_attempt|done]. Qed.

Lemma lock_targets_reads id : reads (lock_reconciliation_targets id).
Proof. apply reads_moves. unfold lock_reconciliation_targets. solve_moves. Qed.

Lemma require_authority_reads id : reads (require_active_reconciliation_authority id).
Proof. apply reads_moves. unfold require_active_reconciliation_authority, stale_attempt. solve_moves. Qed.

Lemma lock_targets_settles id : moves settles (lock_reconciliation_targets id).
Proof. apply moves_reads; [exact _|apply lock_targets_reads]. Qed.

Lemma require_authority_settles id : moves settles (require_active_reconciliation_authority id).
Proof. apply moves_reads; [exact _|apply require_authority_reads]. Qed.

Lemma record_contact_settles node_id serial now protocol capabilities runtime :
  moves settles (record_contact node_id serial now protocol capabilities runtime).
Proof. unfold record_contact. solve_moves. Qed.

Lemma negotiate_settles node_id serial advertised protocol capabilities now :
  moves settles (negotiate_implementation node_id serial advertised protocol capabilities now).
Proof. unfold negotiate_implementation. solve_moves. Qed.

Lemma stop_reconciliation_settles rid jid reason now : moves settles (stop_reconciliation rid jid reason now).
Proof. unfold stop_reconciliation. solve_moves. Qed.

Lemma aggregate_settles redact jid now : moves settles (aggregate_parent redact jid now).
Proof. unfold aggregate_parent. solve_moves. Qed.

#[export] Hint Resolve lock_targets_settles require_authority_settles record_contact_settles negotiate_settles
  stop_reconciliation_settles aggregate_settles : py.

Lemma with_state_work state now o :
  same_work o (with_operation_state state now o)
  ∧ (retry_requested (with_operation_state state now o) = true → retry_requested o = true).
Proof. split; [by split_and!|]. by destruct o. Qed.

Lemma held_back_work now o :
  same_work o (held_back now o) ∧ (retry_requested (held_back now o) = true → retry_requested o = true).
Proof. split; [by split_and!|]. unfold retry_requested. intros H. by bool_facts. Qed.

(** Writing a state other than [running], or the state the row already has. *)
Lemma put_state_settles s id o state now :
  t_operations s !! id = Some o → (state = "running" → is_running o) →
  moves_at settles s (put_operation id (with_operation_state state now o)).
Proof.
  intros Ho Hs. destruct (with_state_work state now o). by eapply put_operation_settles.
Qed.

Lemma put_held_settles s id o now :
  t_operations s !! id = Some o → moves_at settles s (put_operation id (held_back now o)).
Proof. intros Ho. destruct (held_back_work now o). by eapply put_operation_settles. Qed.

Lemma put_attempt_state_settles s f a state :
  t_attempts s !! f = Some a → state ≠ "running" →
  moves_at settles s (put_attempt f (with_at_state state a)).
Proof. intros. by eapply put_attempt_settles. Qed.

Lemma quiesce_projection_settles now entry : moves settles (quiesce_projection now entry).
Proof.
  destruct entry as [key p]. cbn. destruct (eqb _ _); [solve_moves|].
  destruct (ro_agent_operation_id p) as [id|]; [|solve_moves].
  apply moves_get_at. intros s.
  destruct (t_operations s !! id) as [o|] eqn:Ho; [|apply moves_at_moves; solve_moves].
  destruct (eqb (so_state o) "queued"); [|destruct (negb _); [apply moves_at_moves; solve_moves|]].
  - apply moves_at_bind; [exact _|by apply put_state_settles|intros ? ? _; apply moves_at_moves; solve_moves].
  - destruct (attempt_of s id _) as [[fence a]|] eqn:Ha; [|apply moves_at_moves; solve_moves].
    apply attempt_of_Some in Ha as (Ha & _ & _).
    at_read. cbv zeta.
    assert ((if mutating (so_kind o) then "waiting-for-operator" else "failed") ≠ "running")
      by by destruct (mutating _).
    apply moves_at_bind; [exact _|by apply put_state_settles|intros ? s1 [= _ <-]].
    apply moves_at_bind; [exact _|by apply put_attempt_state_settles|
      intros ? ? _; apply moves_at_moves; solve_moves].
Qed.

Lemma quiesce_settles rid now : moves settles (quiesce_reconciliation_operations rid now).
Proof.
  unfold quiesce_reconciliation_operations. apply moves_bind; [exact _|solve_moves|intros s].
  apply moves_eachM; [exact _|]. intros. apply quiesce_projection_settles.
Qed.
#[export] Hint Resolve quiesce_settles : py.

Lemma authority_settles commit_authority id o now :
  moves settles (claim_has_authority commit_authority id o now).
Proof. unfold claim_has_authority. solve_moves. Qed.

Lemma project_settles id o now : moves settles (project_unsafe_expiry id o now).
Proof. unfold project_unsafe_expiry. solve_moves. Qed.

Lemma expire_previous_settles id o : moves settles (expire_previous id o).
Proof.
  unfold expire_previous. destruct (_ =? _)%Z; [solve_moves|]. apply moves_get_bind. intros s.
  destruct (attempt_of s id _) as [[fence a]|] eqn:Ha; [|cbn; reflexivity].
  apply attempt_of_Some in Ha as (Ha & _ & _). by apply (put_attempt_state_settles s fence a).
Qed.

#[export] Hint Resolve authority_settles project_settles expire_previous_settles : py.

Lemma quiet_lookup s s' id o :
  quiet s s' → t_operations s !! id = Some o → ∃ o', t_operations s' !! id = Some o' ∧ same_work o o'.
Proof. intros [Q _ _ _] (o' & ? & ? & _)%Q. eauto. Qed.

(** The writes of a run, as states. *)
Ltac inv_puts :=
  unfold put_operation, put_attempt, put_job, put_node, put_projection, put_reconciliation in *;
  inv_run_all.

(** ** Selecting an operation *)

Lemma next_operation_Some s locked node_id now excluded id o :
  next_operation s locked node_id now excluded = Some (id, o) →
  t_operations s !! id = Some o ∧ agent_claimable s locked node_id now excluded (id, o) = true.
Proof.
  unfold next_operation. intros H%best_elem. apply list_elem_of_filter in H as [Hc Hin].
  by apply elem_of_map_to_list in Hin.
Qed.

Lemma authority_granted commit_authority id o now s s' :
  claim_has_authority commit_authority id o now s = (Ok true, s') →
  t_operations s' = t_operations s ∧ t_attempts s' = t_attempts s.
Proof.
  unfold claim_has_authority. intros H. inv_run_all. repeat (case_match; inv_run_all; try done).
  by inv_puts.
Qed.

Lemma refreshed_reads id o : reads (refreshed id o).
Proof. by intros s. Qed.

Section selection.
Context (commit_authority : option ((string → result bool) * result string)).
Context (locked : gset string) (node_id : string) (now : Z).
Notation select fuel := (select_operation commit_authority fuel locked node_id now).

(** One round: the state in which an operation was found, and what came of it. *)
Lemma select_settles fuel excluded : moves settles (select fuel excluded).
Proof.
  revert excluded. induction fuel as [|fuel IH]; intros excluded; cbn [select_operation]; [solve_moves|].
  apply moves_get_at. intros s.
  destruct (next_operation s locked node_id now excluded) as [[id o]|] eqn:Hn; [|apply moves_at_moves; solve_moves].
  apply next_operation_Some in Hn as [Ho _].
  apply moves_at_bind; [exact _|apply moves_at_moves; solve_moves|intros authorized s1 Ha].
  pose proof (moves_run _ _ _ _ _ (authority_settles commit_authority id o now) Ha) as [Hq _].
  destruct (quiet_lookup _ _ _ _ Hq Ho) as (o1 & Ho1 & _).
  apply moves_at_read; [exact _|apply refreshed_reads|intros o2 [= <-]]. rewrite Ho1. cbn [default].
  destruct authorized; [apply moves_at_moves; solve_moves|].
  destruct (negb _); [apply moves_at_moves; solve_moves|].
  apply moves_at_bind; [exact _|by apply put_held_settles|intros ? ? _; apply moves_at_moves, IH].
Qed.

Lemma select_ok fuel excluded s id o s' :
  select fuel excluded s = (Ok (Some (id, o)), s') →
  ∃ s1 excluded1, quiet s s1 ∧ t_operations s1 !! id = Some o
    ∧ agent_claimable s1 locked node_id now excluded1 (id, o) = true
    ∧ claim_has_authority commit_authority id o now s1 = (Ok true, s').
Proof.
  revert excluded s. induction fuel as [|fuel IH]; intros excluded s; cbn [select_operation];
    [by intros H; inv_run_all|].
  intros H. inv_run_all.
  destruct (next_operation s locked node_id now excluded) as [[id1 o1]|] eqn:Hn; [|by inv_run_all].
  apply next_operation_Some in Hn as [Ho Hc]. inv_run_all. rename x into authorized, x0 into s1.
  unfold refreshed in H1. inv_run_all.
  pose proof (moves_run _ _ _ _ _ (authority_settles commit_authority id1 o1 now) H0) as [Hq _].
  destruct authorized.
  - inv_run_all. simplify_eq. destruct (authority_granted _ _ _ _ _ _ H0) as [He _].
    rewrite He, Ho. cbn. exists s, excluded. split_and!; [reflexivity|done..].
  - destruct (negb _); [by inv_run_all|]. inv_run_all.
    apply IH in H as (s2 & ex & Hq2 & ? & ? & ?).
    exists s2, ex. split_and!; [|done..]. etrans; [exact Hq|]. etrans; [|exact Hq2].
    destruct (quiet_lookup _ _ _ _ Hq Ho) as (o2 & Ho2 & _). inv_puts.
    rewrite Ho2. by apply (put_held_settles s1 id1 o2).
Qed.

(** One round of the loop that goes on: an update without authority is held back. *)
Definition round (c c' : control_db * list string) : Prop :=
  ∃ id o s1 o1, next_operation c.1 locked node_id now c.2 = Some (id, o)
    ∧ claim_has_authority commit_authority id o now c.1 = (Ok false, s1)
    ∧ t_operations s1 !! id = Some o1 ∧ is_update (so_kind o) = true
    ∧ c' = (set_t_operations <[id := held_back now o1]> s1, c.2 ++ [id]).

Definition unseen (c : control_db * list string) : nat :=
  size (dom (t_operations c.1) ∖ list_to_set c.2).

Lemma next_operation_unseen s excluded id o :
  next_operation s locked node_id now excluded = Some (id, o) →
  id ∈ dom (t_operations s) ∖ (list_to_set excluded : gset string).
Proof.
  intros [Ho Hc]%next_operation_Some. unfold agent_claimable in Hc. cbn in Hc. bool_facts.
  apply elem_of_difference. split; [by eapply elem_of_dom_2|]. rewrite elem_of_list_to_set.
  match goal with H : among _ _ = false |- _ => intros Hin%among_true; congruence end.
Qed.

Lemma round_decreases c c' : round c c' → (unseen c' < unseen c)%nat.
Proof.
  intros (id & o & s1 & o1 & Hn & Ha & Ho1 & _ & ->). apply next_operation_unseen in Hn.
  unfold unseen. cbn [fst snd]. apply subset_size.
  destruct (moves_run _ _ _ _ _ (authority_settles commit_authority id o now) Ha) as [_ Hd].
  cbn [t_operations set_t_operations]. rewrite dom_insert_L, list_to_set_app_L, Hd. cbn. set_solver.
Qed.

(** The loop without fuel: the derivations are its finite runs. *)
Inductive loop : control_db * list string → result (option (string * StoredOperation)) * control_db → Prop :=
| loop_none s excluded : next_operation s locked node_id now excluded = None → loop (s, excluded) (Ok None, s)
| loop_error s excluded id o e s1 :
    next_operation s locked node_id now excluded = Some (id, o) →
    claim_has_authority commit_authority id o now s = (Err e, s1) → loop (s, excluded) (Err e, s1)
| loop_found s excluded id o s1 :
    next_operation s locked node_id now excluded = Some (id, o) →
    claim_has_authority commit_authority id o now s = (Ok true, s1) → loop (s, excluded) (Ok (Some (id, o)), s1)
| loop_refused s excluded id o s1 :
    next_operation s locked node_id now excluded = Some (id, o) →
    claim_has_authority commit_authority id o now s = (Ok false, s1) → is_update (so_kind o) = false →
    loop (s, excluded) (Ok None, s1)
| loop_round c c' r : round c c' → loop c' r → loop c r.

(** One unit of fuel per operation that was not excluded yet is enough. *)
Lemma select_loop n excluded s : (unseen (s, excluded) < n)%nat → loop (s, excluded) (select n excluded s).
Proof.
  revert excluded s. induction n as [|n IH]; intros excluded s Hn; [lia|].
  cbn [select_operation]. unfold mbind, M_bind, get, refreshed, mret, M_ret, put_operation, modify.
  destruct (next_operation s locked node_id now excluded) as [[id o]|] eqn:Hx; [|by apply loop_none].
  destruct (next_operation_Some _ _ _ _ _ _ _ Hx) as [Ho _].
  destruct (claim_has_authority commit_authority id o now s) as [[[]|e] s1] eqn:Ha;
    [| |by eapply loop_error].
  - destruct (authority_granted _ _ _ _ _ _ Ha) as [Eo _].
    unfold mbind, M_bind, get. rewrite Eo, Ho. by apply loop_found.
  - destruct (moves_run _ _ _ _ _ (authority_settles commit_authority id o now) Ha) as [Hq _].
    destruct (quiet_lookup _ _ _ _ Hq Ho) as (o1 & Ho1 & Hw).
    unfold mbind, M_bind, get. rewrite Ho1. change (default o (Some o1)) with o1. cbv beta iota.
    assert (so_kind o1 = so_kind o) as -> by (by destruct Hw as (_ & _ & -> & _)).
    destruct (is_update (so_kind o)) eqn:Hk; cbn [negb]; [|by eapply loop_refused].
    assert (round (s, excluded) (set_t_operations <[id := held_back now o1]> s1, excluded ++ [id])) as Hr
      by (by exists id, o, s1, o1).
    eapply loop_round; [exact Hr|]. apply round_decreases in Hr. apply IH. lia.
Qed.
End selection.

(** ** Starting an attempt *)

Definition attempt_started (fence : string) (a : AgentOperationAttempt) (id : string)
    (o : StoredOperation) (now : Z) (s : control_db) : control_db :=
  set_t_attempts <[fence := a]> (set_t_operations <[id := started now o]> s).

(** What holds when attempt [a] of operation [o] is started. *)
Record starts (s : control_db) (id : string) (o : StoredOperation) (fence : string)
    (a : AgentOperationAttempt) : Prop := {
  starts_operation : t_operations s !! id = Some o;
  starts_number : at_operation_id a = id ∧ at_attempt a = (so_current_attempt o + 1)%Z;
  starts_running : attempt_running a;
  starts_fence : t_attempts s !! fence = None;
  starts_fresh f a' : t_attempts s !! f = Some a' → at_operation_id a' = id →
    at_attempt a' ≠ (so_current_attempt o + 1)%Z;
  starts_expired f a' : t_attempts s !! f = Some a' → at_operation_id a' = id →
    at_attempt a' = so_current_attempt o → so_current_attempt o ≠ 0%Z → ¬ attempt_running a';
  starts_alone : mutating (so_kind o) = true → ∀ id' o', t_operations s !! id' = Some o' → id' ≠ id →
    so_node_id o' = so_node_id o → mutating (so_kind o') = true → ¬ is_running o';
  starts_once : mutating (so_kind o) = true →
    ¬ is_running o ∧ (so_current_attempt o = 0%Z ∨ retry_requested o = true);
  starts_within : within o a
}.

(** One transaction: it starts nothing, or exactly one attempt, after changes
    that start nothing. *)
Inductive service_step (s : control_db) : control_db → Prop :=
| step_quiet s' : quiet s s' → service_step s s'
| step_start s1 id o fence a now :
    quiet s s1 → starts s1 id o fence a → service_step s (attempt_started fence a id o now s1).

(** The outcome of a claim: without a message nothing starts; a message names the
    one attempt that does. *)
Definition claim_outcome (s : control_db) (m : option AgentClaim) (s' : control_db) : Prop :=
  match m with
  | None => quiet s s'
  | Some message => ∃ s1 id o fence a now,
      quiet s s1 ∧ starts s1 id o fence a ∧ s' = attempt_started fence a id o now s1
      ∧ operation_value (claim_operation message) = so_kind o
      ∧ claim_identity message = Identity (so_parent_job_id o) id (at_attempt a) fence (so_node_id o)
                                   (at_lease_deadline a)
  end.

Lemma claim_outcome_trans s s1 m s2 : quiet s s1 → claim_outcome s1 m s2 → claim_outcome s m s2.
Proof.
  destruct m as [message|]; cbn; [|intros; by etrans].
  intros Hq (s3 & id & o & fence & a & now & Hq' & ?). exists s3, id, o, fence, a, now. split; [by etrans|done].
Qed.

(** The unique key of the attempts table. *)
Definition unique_attempts (s : control_db) : Prop :=
  ∀ f f' a a', t_attempts s !! f = Some a → t_attempts s !! f' = Some a' →
    at_operation_id a = at_operation_id a' → at_attempt a = at_attempt a' → f = f'.

(** An attempt after quiet changes was there before. *)
Lemma quiet_attempt_back s s' f a' :
  quiet s s' → t_attempts s' !! f = Some a' →
  ∃ a, t_attempts s !! f = Some a ∧ same_attempt a a' ∧ (attempt_running a' → attempt_running a)
       ∧ ∀ o, t_operations s !! at_operation_id a = Some o → within o a → within o a'.
Proof.
  intros [_ _ A N] Ha'. destruct (t_attempts s !! f) as [a|] eqn:Ha; [|by rewrite N in Ha'].
  destruct (A _ _ Ha) as (a2 & ? & ?). simplify_eq. eauto.
Qed.

Lemma quiet_unique s s' : quiet s s' → unique_attempts s → unique_attempts s'.
Proof.
  intros Hq Hu f f' a a' Ha Ha' Hid Hn.
  destruct (quiet_attempt_back _ _ _ _ Hq Ha) as (b & Hb & (E1 & E2 & _) & _).
  destruct (quiet_attempt_back _ _ _ _ Hq Ha') as (b' & Hb' & (E1' & E2' & _) & _).
  apply (Hu f f' b b'); congruence.
Qed.

Lemma expire_previous_ok id o s u s' :
  expire_previous id o s = (Ok u, s') → unique_attempts s →
  t_operations s' = t_operations s ∧ t_nodes s' = t_nodes s
  ∧ ∀ f a, t_attempts s' !! f = Some a → at_operation_id a = id →
      at_attempt a = so_current_attempt o → so_current_attempt o ≠ 0%Z → ¬ attempt_running a.
Proof.
  unfold expire_previous. intros H Hu. destruct (_ =? _)%Z eqn:Hz; inv_run_all; bool_facts; [done|].
  destruct (attempt_of s id _) as [[fence a0]|] eqn:Ha.
  - inv_puts. split_and!; [done..|]. intros f a Hf Hid Hn _. cbn in Hf.
    apply attempt_of_Some in Ha as (Ha & Hid0 & Hn0). destruct (decide (f = fence)) as [->|Hne].
    + rewrite lookup_insert_eq in Hf. injection Hf as <-. by intros [=].
    + rewrite lookup_insert_ne in Hf by done. destruct Hne. eapply Hu; [done|done|congruence..].
  - inv_run_all. split_and!; [done..|]. intros f a Hf Hid Hn _. by destruct (attempt_of_None _ _ _ _ _ Ha Hf Hid).
Qed.

(** Every operation is either safe to run again or mutating. *)
Lemma operation_kinds o : mutating (operation_value o) = negb (among (operation_value o) safe_automatic_reclaim).
Proof. destruct o; vm_compute; reflexivity. Qed.

Lemma operation_of_value_ok kind o : operation_of_value kind = Ok o → operation_value o = kind.
Proof.
  unfold operation_of_value. destruct (head _) as [o'|] eqn:H; [|done]. intros [= ->].
  apply head_Some in H as [l H].
  assert (o ∈ filter (λ o, operation_value o = kind) all_operations) as Hin by (rewrite H; by left).
  by apply list_elem_of_filter in Hin as [? _].
Qed.

(** A binding gives the lease of its receipt. *)
Lemma binding_within id o node_id n now fence deadline a :
  update_claim_binding id o node_id n now = Some (fence, deadline) → at_lease_deadline a = deadline →
  within o a.
Proof.
  unfold update_claim_binding, within, signed_deadline. intros H Hd _ d Hs.
  repeat case_match; simplify_eq; inv_run_all. cbn in *. simplify_eq. lia.
Qed.

Lemma grant_ok r id o now fence deadline s m s' :
  grant r id o now fence deadline s = (Ok m, s') → t_operations s !! id = Some o →
  t_attempts s !! fence = None
  ∧ (∀ f a, t_attempts s !! f = Some a → at_operation_id a = id → at_attempt a ≠ (so_current_attempt o + 1)%Z)
  ∧ s' = attempt_started fence
           (MkAgentAttempt id (so_current_attempt o + 1) deadline (cr_serial r) "running" None None) id o now s
  ∧ ∃ message, m = Some message ∧ operation_value (claim_operation message) = so_kind o
    ∧ claim_identity message =
      Identity (so_parent_job_id o) id (so_current_attempt o + 1) fence (so_node_id o) deadline.
Proof.
  unfold grant, insert_agent_attempt. intros H Ho. inv_puts. bool_facts.
  match goal with H : operation_of_value _ = Ok _ |- _ => apply operation_of_value_ok in H end.
  unfold agent_claim in *. inv_run_all. simplify_eq. cbn in *.
  split_and!; [done| |done|eexists; by split_and!].
  intros f a Ha. by eapply (attempt_of_None (set_t_operations _ _)).
Qed.

(** Whether the operation is still to start, is running on an expired lease, or
    was handed back by the operator. *)
Definition startable (o : StoredOperation) : Prop :=
  is_running o ∨ ¬ is_running o ∧ (so_current_attempt o = 0%Z ∨ retry_requested o = true).

Lemma claimable_startable s locked node_id now excluded id o :
  agent_claimable s locked node_id now excluded (id, o) = true → so_node_id o = node_id ∧ startable o.
Proof.
  unfold agent_claimable, startable, is_running, retried, retry_requested. cbn. intros H. bool_facts.
  split; [done|]. destruct (decide (so_state o = "running")); [by left|]. right. split; [done|].
  match goal with H : _ || _ = true |- _ => apply orb_true_iff in H as [[H|H]%orb_true_iff|H] end; bool_facts;
    [by left|done|right]. rewrite !andb_true_iff, !eqb_true. done.
Qed.

Section dispatching.
Context (redact_text : string → string) (r : claim_request) (p : poll).

Lemma granted_step id o fence deadline s1 m s s' :
  t_operations s !! id = Some o → so_node_id o = cr_node_id r → startable o →
  unique_attempts s → dispatchable s r id o = true → expire_previous id o s = (Ok (), s1) →
  (eqb (so_state o) "running" && negb (among (so_kind o) safe_automatic_reclaim)) = false →
  (∀ a, at_lease_deadline a = deadline → within o a) →
  grant r id o (poll_now p) fence deadline s1 = (Ok m, s') → claim_outcome s m s'.
Proof.
  intros Ho Hnode Hst Hu Hd He Hsafe Hwithin Hg.
  destruct (expire_previous_ok _ _ _ _ _ He Hu) as (Eo & _ & Hex).
  destruct (moves_run _ _ _ _ _ (expire_previous_settles id o) He) as [Hq _].
  rewrite <- Eo in Ho.
  destruct (grant_ok _ _ _ _ _ _ _ _ _ Hg Ho) as (Hf & Hfresh & -> & message & -> & Hk & Hid).
  exists s1, id, o, fence. do 2 eexists. split_and!; [done| |done|done|done]. split; [done|done|done|done|done|exact Hex| | |by apply Hwithin].
  - rewrite Eo in *. intros Hmut id' o' Ho' Hne Hn' Hm' Hr'.
    unfold dispatchable in Hd. bool_facts. rewrite Hmut in *. cbn in *. bool_facts.
    match goal with H : active_mutation _ _ _ = false |- _ => rename H into Hact end.
    apply not_true_iff_false in Hact. apply Hact. unfold active_mutation. apply existsb_exists.
    exists (id', o'). split; [by apply list_elem_of_In, elem_of_map_to_list|]. cbn.
    rewrite Hm', Hr', Hn', Hnode, eqb_refl. by rewrite (proj2 (eqb_false id' id)).
  - intros Hmut. rewrite <- Hk, operation_kinds, Hk in Hmut. rewrite Hmut, andb_true_r in Hsafe.
    bool_facts. destruct Hst as [|[? ?]]; done.
Qed.

Lemma dispatch_step id o s m s' :
  t_operations s !! id = Some o → so_node_id o = cr_node_id r → startable o →
  unique_attempts s → dispatch redact_text r p id o s = (Ok m, s') → claim_outcome s m s'.
Proof.
  intros Ho Hnode Hst Hu H. unfold dispatch in H. inv_run_all.
  destruct (dispatchable s r id o) eqn:Hd; cbn [negb] in H; inv_run_all; [|subst; cbn; reflexivity].
  destruct x. rename H0 into He, x0 into s1.
  destruct (expire_previous_ok _ _ _ _ _ He Hu) as (Eo & En & _).
  destruct (moves_run _ _ _ _ _ (expire_previous_settles id o) He) as [Hq _].
  destruct (eqb (so_state o) "running" && negb (among (so_kind o) safe_automatic_reclaim)) eqn:Hsafe.
  { assert (m = None) as -> by (inv_run_all; done). cbn. etrans; [exact Hq|].
    eapply settles_at_run; [|exact H]. apply moves_at_bind; [exact _|apply put_held_settles; by rewrite Eo|].
    intros ? ? _. apply moves_at_moves. solve_moves. }
  destruct (t_nodes s !! cr_node_id r) as [n|]; [|inv_run_all; by subst].
  destruct (update_claim_binding id o (cr_node_id r) n (poll_now p)) as [[fence deadline]|] eqn:Hb.
  { eapply granted_step; try done. intros a Ha. by eapply binding_within. }
  destruct (is_update (so_kind o)) eqn:Hk.
  - assert (m = None) as -> by (inv_run_all; done). cbn. etrans; [exact Hq|].
    eapply settles_at_run; [|exact H]. apply moves_at_bind; [exact _|apply put_held_settles; by rewrite Eo|].
    intros ? ? _. apply moves_at_moves. solve_moves.
  - eapply granted_step; try done. intros a _ Hup. congruence.
Qed.
End dispatching.

(** ** Calls

    The consumers are other services of the control plane, run in the caller's
    transaction: they may enqueue operations and settle them, but they start none. *)
Section calls.
Context (redact_text : string → string).
Context (commit_authority : option ((string → result bool) * result string)).
Context (contact_consumer : option (AgentSource → M control_db unit)).
Context (result_consumer : option (string → string → AgentResult → M control_db unit)).
Context {prepared : Type} (update_authorizer : option (UpdateAuthorizer prepared)).

Hypothesis contacts_are_quiet :
  ∀ consume source, contact_consumer = Some consume → moves quiet (consume source).
Hypothesis results_are_quiet :
  ∀ consume id fence m, result_consumer = Some consume → moves quiet (consume id fence m).

Lemma consume_contact_quiet source node_id serial c :
  moves quiet (consume_contact contact_consumer source node_id serial c).
Proof.
  unfold consume_contact. destruct source; [|solve_moves].
  apply moves_lift_bind; [exact _|intros ? _]. destruct contact_consumer eqn:Hc; [by eauto|solve_moves].
Qed.

Lemma claim_once_ok r p s m s' : unique_attempts s →
  claim_once redact_text commit_authority contact_consumer r p s = (Ok m, s') → claim_outcome s m s'.
Proof.
  intros Hu H. unfold claim_once in H. inv_run_all.
  match goal with H : match reconciliation_hint _ _ with _ => _ end _ = (_, ?s2) |- _ =>
    rename H into Hhint, s2 into s1 end.
  assert (quiet s s1) as Hq1.
  { destruct (reconciliation_hint _ _) as [[id o]|]; inv_run_all; [|done].
    by apply (moves_run _ _ _ _ _ (settles_quiet _ (lock_targets_settles id)) Hhint). }
  destruct (lock_identity _ _ _) as [[n c]|]; [|inv_run_all; by subst].
  destruct (negb _); [inv_run_all; by subst|]. inv_run_all.
  match goal with H : negotiate_implementation _ _ _ _ _ _ _ = _ |- _ =>
    apply (moves_run _ _ _ _ _ (settles_quiet _ (negotiate_settles _ _ _ _ _ _))) in H end.
  match goal with H : consume_contact _ _ _ _ _ _ = _ |- _ =>
    apply (moves_run _ _ _ _ _ (consume_contact_quiet _ _ _ _)) in H end.
  match goal with H : record_contact _ _ _ _ _ _ _ = _ |- _ =>
    apply (moves_run _ _ _ _ _ (settles_quiet _ (record_contact_settles _ _ _ _ _ _))) in H end.
  match goal with H : select_operation _ _ _ _ _ _ ?s = (_, ?s2) |- _ =>
    rename H into Hsel, s into s4, s2 into s5 end.
  assert (quiet s s4) as Hq4 by (by repeat (etrans; [eassumption|])).
  assert (quiet s4 s5) as Hq5 by apply (moves_run _ _ _ _ _ (settles_quiet _ (select_settles _ _ _ _ _ _)) Hsel).
  apply (claim_outcome_trans _ s5); [by etrans|].
  match type of Hsel with _ = (Ok ?x, _) => destruct x as [[id o]|] end;
    [|inv_run_all; subst; cbn; reflexivity].
  apply select_ok in Hsel as (s6 & ex & Hq6 & Ho & Hc & Ha).
  apply authority_granted in Ha as [Eo _]. apply claimable_startable in Hc as [Hn Hst].
  eapply dispatch_step; [by rewrite Eo|done|done| |done].
  eapply quiet_unique; [|exact Hu]. by etrans.
Qed.

Lemma claim_once_step r p s : unique_attempts s →
  service_step s (claim_once redact_text commit_authority contact_consumer r p s).2.
Proof.
  intros Hu. destruct (claim_once _ _ _ r p s) as [[m|e] s'] eqn:H; cbn.
  - apply claim_once_ok in H; [|done]. destruct m as [message|]; [|by apply step_quiet].
    destruct H as (s1 & id & o & fence & a & now & Hq & Hs & -> & _). by eapply step_start.
  - apply transaction_err in H as ->. by apply step_quiet.
Qed.

Lemma active_ok' f source now s id o a s' :
  agent_active contact_consumer f source now s = (Ok (id, o, a), s') →
  quiet s s' ∧ t_operations s' !! id = Some o ∧ t_attempts s' !! fence_token f = Some a
  ∧ at_operation_id a = id ∧ attempt_running a ∧ (now < at_lease_deadline a)%Z
  ∧ fence_matches f id o = true.
Proof.
  unfold agent_active, stale_attempt. intros H. inv_run_all.
  destruct (t_attempts s !! fence_token f) as [hint|]; [|by inv_run_all].
  destruct (t_operations s !! at_operation_id hint) as [hinted|]; [|by inv_run_all]. inv_run_all.
  destruct (lock_identity _ _ _) as [[n c]|]; [|by inv_run_all]. inv_run_all.
  match goal with H : lock_reconciliation_targets _ _ = _ |- _ =>
    apply (moves_run _ _ _ _ _ (settles_quiet _ (lock_targets_settles _))) in H end.
  match goal with H : consume_contact _ _ _ _ _ _ = _ |- _ =>
    apply (moves_run _ _ _ _ _ (consume_contact_quiet _ _ _ _)) in H end.
  match goal with H : require_active_reconciliation_authority _ _ = (_, ?s) |- _ =>
    apply (moves_run _ _ _ _ _ (settles_quiet _ (require_authority_settles _))) in H; rename s into s3 end.
  assert (quiet s s3) as Hq3 by (by repeat (etrans; [eassumption|])).
  destruct (t_operations s3 !! at_operation_id hint) as [o3|] eqn:Ho; [|by inv_run_all].
  destruct (t_attempts s3 !! fence_token f) as [a3|] eqn:Ha; [|by inv_run_all]. inv_run_all. bool_facts.
  unfold record_contact in *. inv_run_all.
  match goal with H : match t_nodes s3 !! _ with _ => _ end _ = (_, ?s) |- _ =>
    assert (t_operations s = t_operations s3 ∧ t_attempts s = t_attempts s3) as [Eo Ea];
    [repeat case_match; inv_puts; done|] end.
  injection H as <- <- <-. rewrite Eo, Ea. split_and!; try done.
  etrans; [exact Hq3|]. by apply quiet_frame.
Qed.

Lemma extended_within o a now lease d :
  extended_deadline o a now lease = Ok d → is_update (so_kind o) = true →
  ∀ d', signed_deadline o = Ok d' → (d ≤ d')%Z.
Proof.
  unfold extended_deadline. intros H Hk d' Hs. rewrite Hk, Hs in H. inv_run_all. simplify_eq. lia.
Qed.

Lemma heartbeat_quiet f progress lease source t now :
  moves quiet (agent_heartbeat contact_consumer f progress lease source t now).
Proof.
  unfold agent_heartbeat. apply moves_lift_bind; [exact _|intros ? _].
  apply moves_committed; [exact _|]. intros s m s' H. inv_run_all. destruct x as [[id o] at_].
  apply active_ok' in H0 as (Hq & Ho & Ha & Hid & Hr & _). inv_puts.
  match goal with H : agent_progress _ _ = Ok ?m, H' : extended_deadline _ _ _ _ = Ok ?d |- _ =>
    rename m into message, d into deadline end.
  etrans; [exact Hq|]. etrans; [apply (quiet_put_attempt x0 (fence_token f) at_
    (with_at_progress (sort_json (progress_document message)) deadline at_))|].
  - done.
  - by split_and!.
  - done.
  - intros o' Ho' _ Hk. cbn. assert (o' = o) as -> by congruence. by eapply extended_within.
  - apply (put_state_settles (set_t_attempts _ x0)); [done|done].
Qed.

Lemma finish_quiet f state value reason source t now t' :
  state ≠ "running" →
  moves quiet (agent_finish redact_text contact_consumer result_consumer f state value reason source t now t').
Proof.
  intros Hstate. apply moves_committed; [exact _|]. intros s m s' H. inv_run_all. destruct x as [[id o] a].
  apply active_ok' in H0 as (Hq & Ho & Ha & Hid & Hr & _). inv_puts.
  match goal with H : (if ?b then observe_probe _ _ _ else _) _ = (_, ?s) |- _ =>
    assert (t_operations s = t_operations x0 ∧ t_attempts s = t_attempts x0) as [Eo Ea];
    [destruct b; unfold observe_probe in H; inv_run_all; done|rename s into s1; clear H] end.
  match goal with H : completion_message _ _ _ _ _ _ _ _ = Ok ?m |- _ => rename m into message end.
  etrans; [exact Hq|]. etrans; [by apply (quiet_frame x0 s1)|].
  etrans; [apply (quiet_put_attempt s1 (fence_token f) a
    (with_at_result state (sort_json (result_document message)) a)); [by rewrite Ea|by split_and!|done|done]|].
  etrans; [apply (put_state_settles (set_t_attempts _ s1) (at_operation_id a) o state now); [by rewrite <- Ho, <- Eo|done]|].
  match goal with H : aggregate_parent _ _ _ _ = _ |- _ =>
    apply (moves_run _ _ _ _ _ (settles_quiet _ (aggregate_settles _ _ _))) in H; etrans; [|exact H] end.
  destruct result_consumer as [consume|] eqn:Hc; [|by inv_run_all].
  case_match; inv_run_all; [done|]. by eapply moves_run; [eapply results_are_quiet|].
Qed.

Lemma quiet_insert_operation s id o :
  t_operations s !! id = None → so_current_attempt o = 0%Z → ¬ is_running o → retry_requested o = false →
  quiet s (set_t_operations <[id := o]> s).
Proof.
  intros Hn Hz Hr Ht. split; cbn; [| |intros f a Ha; by exists a|done].
  - intros id' x Hx. exists x. by rewrite lookup_insert_ne by congruence.
  - intros id' x Hx Hx'. destruct (decide (id' = id)) as [->|Hne].
    + rewrite lookup_insert_eq in Hx. by injection Hx as <-.
    + rewrite lookup_insert_ne in Hx by done. congruence.
Qed.

Lemma enqueue_quiet job node kind commit payload target id fence now :
  moves quiet (agent_enqueue update_authorizer job node kind commit payload target id fence now).
Proof.
  unfold agent_enqueue. apply moves_lift_bind; [exact _|intros handle _].
  apply moves_committed; [exact _|]. intros s o s' H. unfold enqueue_in_session in H. inv_run_all.
  repeat (case_match; inv_run_all; try done). unfold insert_operation in *. inv_puts. bool_facts.
  by apply quiet_insert_operation.
Qed.

(** One transaction of the service, or of another one that starts nothing. *)
Inductive agent_step (s : control_db) : control_db → Prop :=
| as_enqueue job node kind commit payload target id fence now :
    agent_step s (agent_enqueue update_authorizer job node kind commit payload target id fence now s).2
| as_claim r p : agent_step s (claim_once redact_text commit_authority contact_consumer r p s).2
| as_heartbeat f progress lease source t now :
    agent_step s (agent_heartbeat contact_consumer f progress lease source t now s).2
| as_finish f state value reason source t now t' :
    state ∈ result_states →
    agent_step s (agent_finish redact_text contact_consumer result_consumer f state value reason source t now t' s).2
| as_other s' : quiet s s' → agent_step s s'.

Lemma agent_step_service s s' : unique_attempts s → agent_step s s' → service_step s s'.
Proof.
  intros Hu [job node kind commit payload target id fence now|r p|f progress lease source t now
    |f state value reason source t now t' Hs|s2 Hq].
  - apply step_quiet, enqueue_quiet.
  - by apply claim_once_step.
  - apply step_quiet, heartbeat_quiet.
  - apply step_quiet, finish_quiet. intros ->.
    apply (proj2 (among_true _ _)) in Hs. discriminate Hs.
  - by apply step_quiet.
Qed.
End calls.

(** ** The invariant of the queue *)

Record agent_inv (s : control_db) : Prop := {
  ai_unique : unique_attempts s;
  ai_count id o : t_operations s !! id = Some o → (0 ≤ so_current_attempt o)%Z;
  ai_attempt f a : t_attempts s !! f = Some a →
    ∃ o, t_operations s !! at_operation_id a = Some o ∧ (1 ≤ at_attempt a ≤ so_current_attempt o)%Z
         ∧ (attempt_running a → at_attempt a = so_current_attempt o) ∧ within o a;
  ai_alone id id' o o' : t_operations s !! id = Some o → t_operations s !! id' = Some o' →
    is_running o → is_running o' → mutating (so_kind o) = true → mutating (so_kind o') = true →
    so_node_id o = so_node_id o' → id = id'
}.

(** An operation after quiet changes: the same work as before, or new. *)
Lemma quiet_operation_back s s' id o' :
  quiet s s' → t_operations s' !! id = Some o' →
  (∃ o, t_operations s !! id = Some o ∧ same_work o o' ∧ (is_running o' → is_running o)
        ∧ (retry_requested o' = true → retry_requested o = true))
  ∨ t_operations s !! id = None ∧ so_current_attempt o' = 0%Z ∧ ¬ is_running o'
    ∧ retry_requested o' = false.
Proof.
  intros [O N _ _] Ho'. destruct (t_operations s !! id) as [o|] eqn:Ho; [left|right].
  - destruct (O _ _ Ho) as (o2 & ? & ?). simplify_eq. eauto.
  - split; [done|]. by apply (N id).
Qed.

Lemma quiet_running_back s s' id o' :
  quiet s s' → t_operations s' !! id = Some o' → is_running o' →
  ∃ o, t_operations s !! id = Some o ∧ same_work o o' ∧ is_running o.
Proof.
  intros Hq Ho' Hr. destruct (quiet_operation_back _ _ _ _ Hq Ho') as [(o & ? & ? & ? & _)|(_ & _ & ? & _)];
    [eauto|done].
Qed.

Lemma quiet_inv s s' : quiet s s' → agent_inv s → agent_inv s'.
Proof.
  intros Hq [U C A L]. split.
  - by eapply quiet_unique.
  - intros id o' Ho'. destruct (quiet_operation_back _ _ _ _ Hq Ho') as [(o & Ho & W & _)|(_ & -> & _)]; [|done].
    destruct W as (_ & _ & _ & _ & _ & ->). by eapply C.
  - intros f a' Ha'. destruct (quiet_attempt_back _ _ _ _ Hq Ha') as (a & Ha & (E1 & E2 & _) & Hr & Hd).
    destruct (A _ _ Ha) as (o & Ho & Hn & Hc & Hw).
    destruct (quiet_lookup _ _ _ _ Hq Ho) as (o' & Ho' & W). exists o'.
    rewrite E1, E2, (same_work_within _ _ _ W). destruct W as (_ & _ & _ & _ & _ & ->). split_and!; [done|lia|lia|auto..].
  - intros id id' o o' Ho Ho' Hr Hr' Hm Hm' Hn.
    destruct (quiet_running_back _ _ _ _ Hq Ho Hr) as (x & Hx & (_ & Wn & Wk & _) & Rx).
    destruct (quiet_running_back _ _ _ _ Hq Ho' Hr') as (x' & Hx' & (_ & Wn' & Wk' & _) & Rx').
    eapply L; [exact Hx|exact Hx'|done|done|congruence..].
Qed.

Lemma started_inv s id o fence a now :
  agent_inv s → starts s id o fence a → agent_inv (attempt_started fence a id o now s).
Proof.
  intros [U C A L] [So [Si Sn] Sr Sf Sfresh Sex Sal Son Sw]. split; unfold unique_attempts; cbn.
  - intros f f' b b' Hb Hb' Hid Hnum.
    destruct (decide (f = fence)) as [->|Hf], (decide (f' = fence)) as [->|Hf']; [done| | |].
    + rewrite lookup_insert_eq in Hb. rewrite lookup_insert_ne in Hb' by done. simplify_eq.
      destruct (Sfresh _ _ Hb'); congruence.
    + rewrite lookup_insert_eq in Hb'. rewrite lookup_insert_ne in Hb by done. simplify_eq.
      destruct (Sfresh _ _ Hb); congruence.
    + rewrite lookup_insert_ne in Hb, Hb' by done. by eapply U.
  - intros id' x Hx. apply lookup_insert_Some in Hx as [[<- <-]|[_ Hx]]; [|by eapply C].
    cbn. apply C in So. lia.
  - intros f b Hb. destruct (decide (f = fence)) as [->|Hf].
    + rewrite lookup_insert_eq in Hb. injection Hb as <-. exists (started now o). rewrite Si, lookup_insert_eq, Sn.
      apply C in So. cbn. split_and!; [done|lia|lia|done|done].
    + rewrite lookup_insert_ne in Hb by done. destruct (A _ _ Hb) as (x & Hx & Hn & Hc & Hw).
      destruct (decide (at_operation_id b = id)) as [Hid|Hid].
      * exists (started now o). rewrite Hid, lookup_insert_eq. rewrite Hid in Hx. simplify_eq. cbn.
        split_and!; [done|lia|lia| |done].
        intros Hrb. destruct (decide (so_current_attempt o = 0%Z)); [lia|].
        by destruct (Sex _ _ Hb Hid (Hc Hrb)).
      * exists x. by rewrite lookup_insert_ne.
  - intros i j x y Hx Hy Rx Ry Mx My Hn.
    apply lookup_insert_Some in Hx as [[<- <-]|[Hi Hx]], Hy as [[<- <-]|[Hj Hy]]; [done| | |by eapply L].
    + cbn in *. by destruct (Sal Mx j y Hy).
    + cbn in *. by destruct (Sal My i x Hx).
Qed.

Lemma service_step_inv s s' : service_step s s' → agent_inv s → agent_inv s'.
Proof.
  intros [s2 Hq|s1 id o fence a now Hq Hs] Hi; [by eapply quiet_inv|].
  apply started_inv; [by eapply quiet_inv|done].
Qed.

(** An attempt that no longer runs is never accepted again. *)
Definition spent (s : control_db) (fence : string) : Prop :=
  ∃ a, t_attempts s !! fence = Some a ∧ ¬ attempt_running a.

Lemma service_step_spent s s' fence : service_step s s' → spent s fence → spent s' fence.
Proof.
  assert (∀ s1, quiet s s1 → spent s fence → spent s1 fence) as Hquiet.
  { intros s1 [_ _ Q _] (a & (a' & Ha' & _ & Hr & _)%Q & Hn). exists a'. auto. }
  intros [s2 Hq|s1 id o fence' a now Hq Hs] Hd; [by eapply Hquiet|].
  destruct (Hquiet _ Hq Hd) as (b & Hb & Hn). exists b. split; [|done]. cbn.
  rewrite lookup_insert_ne; [done|]. intros ->. by rewrite (starts_fence _ _ _ _ _ Hs) in Hb.
Qed.

(** C15. The search of a claim for an operation it may hand out, a [while True]
    loop in the code, terminates for every database, and its result is what
    [select_operation] computes with one unit of fuel more than there are
    operations. *)
Theorem claim_loop_terminates commit_authority locked node_id now s :
  loop commit_authority locked node_id now (s, [])
    (select_operation commit_authority (claim_fuel s) locked node_id now [] s).
Proof.
  apply select_loop. unfold unseen, claim_fuel. cbn [fst snd].
  rewrite <- size_dom. apply Nat.lt_succ_r, subseteq_size. set_solver.
Qed.

(** ** Guarantees *)

Section guarantees.
Context (redact_text : string → string).
Context (commit_authority : option ((string → result bool) * result string)).
Context (contact_consumer : option (AgentSource → M control_db unit)).
Context (result_consumer : option (string → string → AgentResult → M control_db unit)).
Context {prepared : Type} (update_authorizer : option (UpdateAuthorizer prepared)).

Hypothesis contacts_are_quiet :
  ∀ consume source, contact_consumer = Some consume → moves quiet (consume source).
Hypothesis results_are_quiet :
  ∀ consume id fence m, result_consumer = Some consume → moves quiet (consume id fence m).

Notation step := (agent_step redact_text commit_authority contact_consumer result_consumer update_authorizer).

(** The databases that transactions lead to from one without operations. *)
Definition agent_reachable (s : control_db) : Prop :=
  ∃ s0, t_operations s0 = ∅ ∧ t_attempts s0 = ∅ ∧ rtc step s0 s.

Lemma steps_inv s s' : rtc step s s' → agent_inv s → agent_inv s'.
Proof.
  induction 1 as [|s s1 s' Hs _ IH]; [done|]. intros Hi. apply IH.
  eapply service_step_inv; [|done]. eapply agent_step_service; eauto. apply Hi.
Qed.

Lemma agent_reachable_inv s : agent_reachable s → agent_inv s.
Proof.
  intros (s0 & Ho & Ha & Hs). eapply steps_inv; [done|].
  split; unfold unique_attempts; rewrite ?Ho, ?Ha; intros *; by rewrite lookup_empty.
Qed.

Lemma steps_spent s s' fence : agent_inv s → rtc step s s' → spent s fence → spent s' fence.
Proof.
  intros Hi Hs. induction Hs as [|s s1 s' H1 _ IH]; [done|]. intros Hd.
  assert (service_step s s1) as Hs1 by (eapply agent_step_service; eauto; apply Hi).
  apply IH; [by eapply service_step_inv|by eapply service_step_spent].
Qed.

Lemma spent_refused s f source now r s' :
  spent s (fence_token f) → agent_active contact_consumer f source now s = (r, s') → is_ok r = false.
Proof.
  intros (a & Ha & Hn) H. destruct r as [[[id o] b]|e]; [|done].
  eapply active_ok' in H as (Hq & _ & Hb & _ & Hr & _); [|done]. exfalso.
  destruct (quiet_attempt_back _ _ _ _ Hq Hb) as (c & Hc & _ & Hc' & _). simplify_eq. auto.
Qed.

(** C16. The lease of an agent update or rollback never outlives the deadline signed
    into its receipt, through claims and any number of heartbeats. *)
Theorem update_lease_is_bounded s fence a o d :
  agent_reachable s → t_attempts s !! fence = Some a → t_operations s !! at_operation_id a = Some o →
  is_update (so_kind o) = true → signed_deadline o = Ok d → (at_lease_deadline a ≤ d)%Z.
Proof.
  intros Hr%agent_reachable_inv Ha Ho Hk Hd. destruct (ai_attempt _ Hr _ _ Ha) as (o' & Ho' & _ & _ & Hw).
  simplify_eq. by apply Hw.
Qed.

(** C4. At most one mutating operation runs on a node at any time, whatever the
    agents, the operators and the other services do. *)
Theorem one_mutation_per_node s id id' o o' :
  agent_reachable s → t_operations s !! id = Some o → t_operations s !! id' = Some o' →
  mutating (so_kind o) = true → mutating (so_kind o') = true →
  so_state o = "running" → so_state o' = "running" → so_node_id o = so_node_id o' → id = id'.
Proof. intros Hr%agent_reachable_inv. intros. by eapply (ai_alone s Hr id id' o o'). Qed.


(** C6. Fencing: once an attempt was superseded by a later one, was finished or
    expired, no heartbeat and no result that presents its fence is ever accepted
    again, and neither changes the database. *)
Theorem agent_fence_is_final s s' f a :
  agent_reachable s → t_attempts s !! fence_token f = Some a →
  (∃ o, t_operations s !! at_operation_id a = Some o ∧ (at_attempt a < so_current_attempt o)%Z)
  ∨ at_state a ≠ "running" →
  rtc step s s' →
  (∀ progress lease source t now, ∃ e,
     agent_heartbeat contact_consumer f progress lease source t now s' = (Err e, s'))
  ∧ (∀ state value reason source t now t', ∃ e,
     agent_finish redact_text contact_consumer result_consumer f state value reason source t now t' s'
     = (Err e, s')).
Proof.
  intros Hr%agent_reachable_inv Ha Hd Hs. assert (spent s' (fence_token f)) as Hd'.
  { eapply steps_spent; [done|done|]. exists a. split; [done|]. intros Hrun. destruct Hd as [(o & Ho & Hlt)|Hd]; [|done].
    destruct (ai_attempt _ Hr _ _ Ha) as (o' & Ho' & _ & Hc & _). simplify_eq. specialize (Hc Hrun). lia. }
  split.
  - intros progress lease source t now. unfold agent_heartbeat.
    destruct (ensure (0 <? lease)%Z _ _) as [[]|e] eqn:Hl; cbn; [|eauto].
    unfold transaction, mbind, M_bind. unfold mbind, M_bind, lift.
    destruct (agent_active contact_consumer f source t s') as [r s2] eqn:Hact.
    apply spent_refused in Hact; [|done]. destruct r; [done|]. eauto.
  - intros state value reason source t now t'. unfold agent_finish, transaction, mbind, M_bind.
    destruct (agent_active contact_consumer f source t s') as [r s2] eqn:Hact.
    apply spent_refused in Hact; [|done]. destruct r; [done|]. eauto.
Qed.
End guarantees.

(** ** A queue at work

    Two operations of one job are queued for a node; the first is claimed. *)

Definition sample_node_id : string := "spk_0123456789abcdef0123456789abcdef".
Definition sample_job_id : string := "00000000-0000-4000-8000-000000000001".
Definition sample_stop_id : string := "00000000-0000-4000-8000-000000000002".
Definition sample_remove_id : string := "00000000-0000-4000-8000-000000000003".
Definition sample_fence : string := "00000000-0000-4000-8000-000000000004".
Definition sample_second_fence : string := "00000000-0000-4000-8000-000000000005".
Definition sample_agent_commit : string := "0123456789abcdef0123456789abcdef01234567".

Definition sample_agent_node : AgentNode :=
  MkNode "active" "python" "required" (Some 2%Z) None None None None None None None false None None []
    None None.
Definition sample_certificate : AgentCertificate :=
  MkCertificate sample_node_id 0 1000000000000000 "fingerprint" "active" None.
Definition sample_agent_job : Job :=
  MkJob "request" "package.operations" "running" "operator" sample_agent_commit [sample_node_id] "" JNull
    None None 0 0 0 None.

Definition sample_db : control_db :=
  ControlDb {[sample_node_id := sample_agent_node]} {["serial" := sample_certificate]} ∅ ∅
    {[sample_job_id := sample_agent_job]} ∅ ∅ ∅ ∅ ∅ ∅ ∅ ∅ [] ∅ ∅ None None.

Definition sample_request : claim_request :=
  ClaimRequest sample_node_id "serial" 60 (Some 2%Z)
    (Some [operation_value PACKAGE_REMOVE; operation_value PACKAGE_STOP]) None None None.

Definition sample_poll (now : Z) (fence : string) : poll := Poll ∅ now now now fence.

Definition sample_enqueue (id kind : string) (now : Z) (s : control_db) : control_db :=
  (agent_enqueue (prepared:=unit) None sample_job_id sample_node_id kind sample_agent_commit [] None id id now s).2.

Definition sample_claim (now : Z) (fence : string) (s : control_db) : result (option AgentClaim) * control_db :=
  claim_once (λ r, r) None None sample_request (sample_poll now fence) s.

Definition sample_queued : control_db :=
  sample_enqueue sample_remove_id PACKAGE_REMOVE 2000000 (sample_enqueue sample_stop_id PACKAGE_STOP 1000000 sample_db).
Definition sample_running : control_db := (sample_claim 3000000 sample_fence sample_queued).2.

Notation sample_step := (agent_step (λ r, r) None None None (prepared:=unit) None).

Lemma sample_reachable : agent_reachable (λ r, r) None None None (prepared:=unit) None sample_running.
Proof.
  exists sample_db. split; [done|]. split; [done|].
  eapply rtc_l; [apply (as_enqueue _ _ _ _ _ _ sample_job_id sample_node_id PACKAGE_STOP sample_agent_commit []
    None sample_stop_id sample_stop_id 1000000)|].
  eapply rtc_l; [apply (as_enqueue _ _ _ _ _ _ sample_job_id sample_node_id PACKAGE_REMOVE sample_agent_commit []
    None sample_remove_id sample_remove_id 2000000)|].
  eapply rtc_l; [|apply rtc_refl].
  apply (as_claim _ _ _ _ _ _ sample_request (sample_poll 3000000 sample_fence)).
Qed.

Example sample_stop_runs :
  (λ o, (so_state o, so_current_attempt o)) <$> t_operations sample_running !! sample_stop_id
  = Some ("running", 1%Z).
Proof. vm_compute. reflexivity. Qed.

(** While it runs, the second operation is not handed out. *)
Example sample_second_waits : (sample_claim 4000000 sample_second_fence sample_running).1 = Ok None.
Proof. vm_compute. reflexivity. Qed.

Notation sample_is_reachable := (agent_reachable (λ r, r) None None None (prepared:=unit) None).

Lemma no_contacts : ∀ consume source,
  (None : option (AgentSource → M control_db unit)) = Some consume → moves quiet (consume source).
Proof. done. Qed.
Lemma no_results : ∀ consume id fence m,
  (None : option (string → string → AgentResult → M control_db unit)) = Some consume →
  moves quiet (consume id fence m).
Proof. done. Qed.

Lemma one_mutation_per_node_witness :
  (so_state <$> t_operations sample_running !! sample_stop_id = Some "running")
  ∧ ¬ ∃ o, t_operations sample_running !! sample_remove_id = Some o ∧ so_kind o = PACKAGE_REMOVE
           ∧ so_node_id o = sample_node_id ∧ so_state o = "running".
Proof.
  split; [vm_compute; reflexivity|]. intros (o & Ho & Hk & Hn & Hs).
  destruct (t_operations sample_running !! sample_stop_id) as [o'|] eqn:Ho'; [|by vm_compute in Ho'].
  assert (sample_stop_id = sample_remove_id) as E; [|discriminate E].
  refine (one_mutation_per_node _ _ _ _ _ no_contacts no_results sample_running _ _ o' o sample_reachable
    Ho' Ho _ _ _ Hs _).
  - clear -Ho'. vm_compute in Ho'. injection Ho' as <-. vm_compute. reflexivity.
  - rewrite Hk. vm_compute. reflexivity.
  - clear -Ho'. vm_compute in Ho'. injection Ho' as <-. vm_compute. reflexivity.
  - rewrite Hn. clear -Ho'. vm_compute in Ho'. injection Ho' as <-. vm_compute. reflexivity.
Defined.

Lemma sample_queued_reachable : sample_is_reachable sample_queued.
Proof.
  exists sample_db. split; [done|]. split; [done|].
  eapply rtc_l; [apply (as_enqueue _ _ _ _ _ _ sample_job_id sample_node_id PACKAGE_STOP sample_agent_commit []
    None sample_stop_id sample_stop_id 1000000)|].
  eapply rtc_l; [apply (as_enqueue _ _ _ _ _ _ sample_job_id sample_node_id PACKAGE_REMOVE sample_agent_commit []
    None sample_remove_id sample_remove_id 2000000)|]. apply rtc_refl.
Qed.


Definition sample_finished : control_db :=
  (agent_succeed (λ r, r) None None (FToken sample_fence) (JObj []) 4000000 4000000 4000000 sample_running).2.

Lemma sample_finished_reachable : sample_is_reachable sample_finished.
Proof.
  destruct sample_reachable as (s0 & ? & ? & Hs). exists s0. split_and!; [done|done|].
  eapply rtc_r; [exact Hs|].
  apply (as_finish _ _ _ _ _ _ (FToken sample_fence) "succeeded" (Some (JObj [])) None None 4000000 4000000 4000000).
  vm_compute. left.
Qed.

Lemma agent_fence_is_final_witness :
  at_state <$> t_attempts sample_finished !! sample_fence = Some "succeeded"
  ∧ ∃ e, agent_heartbeat None (FToken sample_fence) (JObj []) 60 None 5000000 5000000 sample_finished
         = (Err e, sample_finished).
Proof.
  split; [vm_compute; reflexivity|].
  destruct (t_attempts sample_finished !! sample_fence) as [a|] eqn:Ha; [|by vm_compute in Ha].
  apply (agent_fence_is_final _ _ _ _ _ no_contacts no_results sample_finished sample_finished
    (FToken sample_fence) a sample_finished_reachable Ha).
  - right. vm_compute in Ha. injection Ha as <-. by vm_compute.
  - apply rtc_refl.
Defined.

(** An agent update under a receipt that is valid for ten minutes. *)
Definition sample_updatable : AgentNode :=
  MkNode "active" "python" "required" (Some 2%Z) None None None (Some "A")
    (Some "0123456789abcdef0123456789abcdef0123456789abcdef0123456789abcdef") (Some 7%Z) None false None None []
    None None.

Definition sample_authorizer : UpdateAuthorizer unit :=
  MkAuthorizer unit (λ _ _, mret ())
    (λ _ _ q, mret (JObj [("receipt", JObj [
       ("attempt", JInt (ar_attempt q)); ("claim_deadline", JInt (ar_claim_deadline q));
       ("expires_at", JInt (ar_expires_at q)); ("fence", JStr (ar_fence q));
       ("node_id", JStr (ar_node_id q)); ("operation_id", JStr (ar_operation_id q));
       ("previous_generation", JInt (ar_generation q)); ("previous_sha256", JStr (ar_sha256 q));
       ("previous_slot", JStr (ar_slot q))])]))
    (λ _, raise ERuntime "no rollback").

Definition sample_update_db : control_db := set_t_nodes <[sample_node_id := sample_updatable]> sample_db.
Definition sample_update_queued : control_db :=
  (agent_enqueue (Some sample_authorizer) sample_job_id sample_node_id AGENT_UPDATE sample_agent_commit []
     (Some "platform") sample_stop_id sample_fence 1000000 sample_update_db).2.
Definition sample_update_request : claim_request :=
  ClaimRequest sample_node_id "serial" 60 (Some 2%Z) None None None None.
Definition sample_update_running : control_db :=
  (claim_once (λ r, r) None None sample_update_request (sample_poll 2000000 sample_second_fence)
     sample_update_queued).2.
Definition sample_update_extended : control_db :=
  (agent_heartbeat None (FToken sample_fence) (JObj []) 6000 None 3000000 3000000 sample_update_running).2.

Lemma sample_update_reachable :
  agent_reachable (λ r, r) None None None (Some sample_authorizer) sample_update_extended.
Proof.
  exists sample_update_db. split; [done|]. split; [done|].
  eapply rtc_l; [apply (as_enqueue _ _ _ _ _ _ sample_job_id sample_node_id AGENT_UPDATE sample_agent_commit []
    (Some "platform") sample_stop_id sample_fence 1000000)|].
  eapply rtc_l; [apply (as_claim _ _ _ _ _ _ sample_update_request (sample_poll 2000000 sample_second_fence))|].
  eapply rtc_l; [|apply rtc_refl].
  apply (as_heartbeat _ _ _ _ _ _ (FToken sample_fence) (JObj []) 6000 None 3000000 3000000).
Qed.

Example sample_update_rows : ∃ a o,
  t_attempts sample_update_extended !! sample_fence = Some a
  ∧ t_operations sample_update_extended !! at_operation_id a = Some o
  ∧ is_update (so_kind o) = true ∧ signed_deadline o = Ok 601000000%Z
  ∧ at_lease_deadline a = 601000000%Z.
Proof.
  eexists. eexists. split; [vm_compute; reflexivity|]. split; [vm_compute; reflexivity|].
  split; [vm_compute; reflexivity|]. split; [vm_compute; reflexivity|]. vm_compute. reflexivity.
Qed.

(** A heartbeat for a hundred minutes gets the ten of the receipt. *)
Lemma update_lease_is_bounded_witness :
  ∃ a, t_attempts sample_update_extended !! sample_fence = Some a
       ∧ (at_lease_deadline a ≤ 601000000)%Z ∧ at_lease_deadline a = 601000000%Z.
Proof.
  destruct sample_update_rows as (a & o & Ha & Ho & Hk & Hd & Hl). exists a.
  split; [exact Ha|]. split; [|exact Hl].
  exact (update_lease_is_bounded (λ r, r) None None None (Some sample_authorizer) no_contacts no_results
    sample_update_extended sample_fence a o 601000000 sample_update_reachable Ha Ho Hk Hd).
Defined.
