(* ===== verification/NodeExecutor.v ===== *)
(** * The agent queue as an executor of node mutations

    What the rest of the control plane may assume of the queue, without tables,
    leases and fences: every node executes at most one mutation, an attempt of a
    mutation begins once, after all earlier attempts of the same operation, and
    only on an idle node. The queue of [AgentJobs] refines this executor: each of
    its transactions is a sequence of executor steps on the abstraction of the
    database. *)

From S2P Require Import Prelude Identifiers Canonical Contracts PackageEngine Protocol.
From S2P Require Import OperationGraph Orchestration NodeLeases Jobs AgentTables AgentJobs AgentJobsFacts.

(** ** The executor *)

(** The mutation a node executes, an operation and the number of its attempt,
    and all attempts that ever began. *)
Record executor := Executor {
  busy : gmap string (string * Z);
  begun : gset (string * Z)
}.

Inductive exec_step : executor → executor → Prop :=
| exec_begin e node operation attempt :
    busy e !! node = None → (∀ k, (operation, k) ∈ begun e → (k < attempt)%Z) →
    exec_step e (Executor (<[node := (operation, attempt)]> (busy e)) ({[(operation, attempt)]} ∪ begun e))
| exec_end e node : exec_step e (Executor (delete node (busy e)) (begun e)).

Lemma exec_ends m b l : rtc exec_step (Executor m b) (Executor (foldr delete m l) b).
Proof.
  induction l as [|node l IH]; cbn; [reflexivity|]. eapply rtc_r; [exact IH|].
  apply (exec_end (Executor (foldr delete m l) b) node).
Qed.

(** Mutations may end in any number. *)
Lemma exec_shrinks m m' b : m' ⊆ m → rtc exec_step (Executor m b) (Executor m' b).
Proof.
  intros Hsub. assert (m' = foldr delete m (elements (dom m ∖ dom m'))) as E; [|rewrite E; apply exec_ends].
  apply map_eq. intros i. destruct (decide (i ∈ dom m ∖ dom m')) as [Hi|Hi].
  - rewrite lookup_foldr_delete by (by apply elem_of_elements). apply not_elem_of_dom. set_solver.
  - rewrite lookup_foldr_delete_not_elem_of by (by rewrite elem_of_elements).
    destruct (m' !! i) as [x|] eqn:Hx; [symmetry; by eapply lookup_weaken|].
    apply not_elem_of_dom in Hx. symmetry. apply not_elem_of_dom. set_solver.
Qed.

(** ** The abstraction of a database *)

Definition executing (o : StoredOperation) : Prop := so_state o = "running" ∧ mutating (so_kind o) = true.

#[export] Instance executing_dec o : Decision (executing o).
Proof. unfold executing. apply _. Defined.

Definition busy_of (s : control_db) : gmap string (string * Z) :=
  list_to_map (map (λ p : string * StoredOperation, (so_node_id p.2, (p.1, so_current_attempt p.2)))
    (filter (λ p, executing p.2) (map_to_list (t_operations s)))).

Definition of_mutation (s : control_db) (a : AgentOperationAttempt) : bool :=
  match t_operations s !! at_operation_id a with
  | Some o => mutating (so_kind o)
  | None => false
  end.

Definition begun_of (s : control_db) : gset (string * Z) :=
  list_to_set (map (λ p : string * AgentOperationAttempt, (at_operation_id p.2, at_attempt p.2))
    (filter (λ p, of_mutation s p.2 = true) (map_to_list (t_attempts s)))).

Definition abstraction (s : control_db) : executor := Executor (busy_of s) (begun_of s).

Lemma busy_of_Some s node id k :
  agent_inv s →
  busy_of s !! node = Some (id, k) ↔
  ∃ o, t_operations s !! id = Some o ∧ executing o ∧ so_node_id o = node ∧ so_current_attempt o = k.
Proof.
  intros Hi. unfold busy_of. rewrite <- elem_of_list_to_map.
  - rewrite list_elem_of_fmap. split.
    + intros ([id' o] & [= -> -> ->] & [He Hin]%list_elem_of_filter).
      apply elem_of_map_to_list in Hin. cbn in *. eauto.
    + intros (o & Ho & He & <- & <-). exists (id, o). split; [done|].
      apply list_elem_of_filter. split; [done|]. by apply elem_of_map_to_list.
  - rewrite <- list_fmap_compose. apply NoDup_fmap_2_strong; [|apply NoDup_filter, NoDup_map_to_list].
    intros [i x] [j y] [[Rx Mx] Hx]%list_elem_of_filter [[Ry My] Hy]%list_elem_of_filter Hn.
    apply elem_of_map_to_list in Hx, Hy. cbn in *.
    assert (i = j) as -> by by eapply (ai_alone s Hi). by simplify_eq.
Qed.

Lemma begun_of_spec s id k :
  (id, k) ∈ begun_of s ↔
  ∃ f a o, t_attempts s !! f = Some a ∧ at_operation_id a = id ∧ at_attempt a = k
           ∧ t_operations s !! id = Some o ∧ mutating (so_kind o) = true.
Proof.
  unfold begun_of. rewrite elem_of_list_to_set, list_elem_of_fmap. split.
  - intros ([f a] & [= -> ->] & [Hm Hin]%list_elem_of_filter). apply elem_of_map_to_list in Hin. cbn in *.
    unfold of_mutation in Hm. destruct (t_operations s !! at_operation_id a) as [o|] eqn:Ho; [|done]. by exists f, a, o.
  - intros (f & a & o & Ha & <- & <- & Ho & Hm). exists (f, a). split; [done|].
    apply list_elem_of_filter. cbn. unfold of_mutation. rewrite Ho. split; [done|]. by apply elem_of_map_to_list.
Qed.

(** ** Simulation *)

Lemma quiet_abstraction s s' :
  agent_inv s → quiet s s' → rtc exec_step (abstraction s) (abstraction s').
Proof.
  intros Hi Hq. assert (agent_inv s') as Hi' by by eapply quiet_inv. unfold abstraction.
  assert (begun_of s' = begun_of s) as ->.
  { apply set_eq. intros [id k]. rewrite !begun_of_spec. split.
    - intros (f & a' & o' & Ha' & <- & <- & Ho' & Hm).
      destruct (quiet_attempt_back _ _ _ _ Hq Ha') as (a & Ha & (E1 & E2 & _) & _).
      destruct (ai_attempt _ Hi _ _ Ha) as (o & Ho & _).
      destruct (quiet_lookup _ _ _ _ Hq Ho) as (o2 & Ho2 & (_ & _ & Wk & _)).
      rewrite E1 in *. rewrite E2. simplify_eq. exists f, a, o. by rewrite <- Wk.
    - intros (f & a & o & Ha & <- & <- & Ho & Hm).
      destruct (quiet_attempt _ _ Hq _ _ Ha) as (a' & Ha' & (E1 & E2 & _) & _).
      destruct (quiet_lookup _ _ _ _ Hq Ho) as (o' & Ho' & (_ & _ & Wk & _)).
      exists f, a', o'. rewrite Wk. by rewrite E1, E2. }
  apply exec_shrinks. apply map_subseteq_spec. intros node [id k]. rewrite !busy_of_Some by done.
  intros (o' & Ho' & [Hr Hm] & Hn & Hk).
  destruct (quiet_running_back _ _ _ _ Hq Ho' Hr) as (o & Ho & (_ & Wn & Wk & _ & _ & Wc) & Hro).
  exists o. unfold executing. rewrite <- Wk, <- Wn, <- Wc. done.
Qed.

Section start.
Context (s : control_db) (id : string) (o : StoredOperation) (fence : string) (a : AgentOperationAttempt) (now : Z).
Context (Hi : agent_inv s) (Hs : starts s id o fence a).
Notation s' := (attempt_started fence a id o now s).

Lemma started_operation i x :
  t_operations s' !! i = Some x ↔ i = id ∧ x = started now o ∨ i ≠ id ∧ t_operations s !! i = Some x.
Proof. cbn. rewrite lookup_insert_Some. naive_solver. Qed.

Lemma started_attempt f b :
  t_attempts s' !! f = Some b ↔ f = fence ∧ b = a ∨ t_attempts s !! f = Some b.
Proof.
  cbn. rewrite lookup_insert_Some. split; [naive_solver|]. intros [[-> ->]|Hb]; [by left|right].
  split; [|done]. intros ->. by rewrite (starts_fence _ _ _ _ _ Hs) in Hb.
Qed.

Lemma started_begun i k :
  (i, k) ∈ begun_of s' ↔
  mutating (so_kind o) = true ∧ i = id ∧ k = (so_current_attempt o + 1)%Z ∨ (i, k) ∈ begun_of s.
Proof.
  rewrite !begun_of_spec. destruct (starts_number _ _ _ _ _ Hs) as [Hid Hn].
  pose proof (starts_operation _ _ _ _ _ Hs) as Ho. split.
  - intros (f & b & x & Hb & <- & <- & Hx & Hm). apply started_attempt in Hb as [[-> ->]|Hb].
    + left. apply started_operation in Hx as [[_ ->]|[? _]]; [done|by rewrite Hid in *].
    + right. apply started_operation in Hx as [[E ->]|[_ Hx]]; [|by exists f, b, x].
      exists f, b, o. by rewrite E.
  - intros [(Hm & -> & ->)|(f & b & x & Hb & <- & <- & Hx & Hm)].
    + exists fence, a, (started now o). split_and!; [by apply started_attempt; left|done|done|by apply started_operation; left|done].
    + destruct (decide (at_operation_id b = id)) as [E|E].
      * exists f, b, (started now o). assert (x = o) as -> by congruence.
        split_and!; [by apply started_attempt; right|done|done|by apply started_operation; left|done].
      * exists f, b, x. split_and!; [by apply started_attempt; right|done|done|by apply started_operation; right|done].
Qed.

Lemma started_idle : mutating (so_kind o) = true → busy_of s !! so_node_id o = None.
Proof.
  intros Hm. destruct (busy_of s !! so_node_id o) as [[i k]|] eqn:Hb; [|done].
  apply busy_of_Some in Hb as (x & Hx & [Rx Mx] & Hn & _); [|done].
  pose proof (starts_operation _ _ _ _ _ Hs) as Ho. destruct (decide (i = id)) as [->|Hne].
  - assert (x = o) as -> by congruence. by destruct (starts_once _ _ _ _ _ Hs Hm).
  - by destruct (starts_alone _ _ _ _ _ Hs Hm i x).
Qed.

Lemma started_busy :
  busy_of s' = if mutating (so_kind o) then <[so_node_id o := (id, so_current_attempt o + 1)%Z]> (busy_of s)
               else busy_of s.
Proof.
  pose proof (started_inv _ _ _ _ _ now Hi Hs) as Hi'.
  pose proof (starts_operation _ _ _ _ _ Hs) as Ho.
  apply map_eq. intros node. apply option_eq. intros [i k]. rewrite busy_of_Some by done.
  assert (mutating (so_kind o) = true → ∀ x, t_operations s !! id = Some x → ¬ executing x) as Hnot.
  { intros Hm x Hx [Rx _]. assert (x = o) as -> by congruence. by destruct (starts_once _ _ _ _ _ Hs Hm). }
  destruct (mutating (so_kind o)) eqn:Hm.
  - rewrite lookup_insert_Some, busy_of_Some by done. setoid_rewrite started_operation. split.
    + intros (x & [[-> ->]|[Hne Hx]] & He & Hn & Hk); [left; cbn in *; by simplify_eq|right].
      split; [|by exists x]. intros <-. destruct He as [Rx Mx].
      destruct (starts_alone _ _ _ _ _ Hs Hm i x Hx Hne Hn Mx). done.
    + intros [[<- [= <- <-]]|[Hne (x & Hx & He & Hn & Hk)]].
      * exists (started now o). split; [by left|]. done.
      * exists x. split; [|done]. right. split; [|done]. intros ->. by eapply Hnot.
  - rewrite busy_of_Some by done. setoid_rewrite started_operation. split.
    + intros (x & [[-> ->]|[Hne Hx]] & [Rx Mx] & Hn & Hk); [by cbn in Mx; congruence|by exists x].
    + intros (x & Hx & [Rx Mx] & Hn & Hk). exists x. split; [|done]. right. split; [|done].
      intros ->. congruence.
Qed.

Lemma started_abstraction : rtc exec_step (abstraction s) (abstraction s').
Proof.
  unfold abstraction. rewrite started_busy. destruct (mutating (so_kind o)) eqn:Hm.
  - apply rtc_once.
    assert (begun_of s' = {[(id, so_current_attempt o + 1)%Z]} ∪ begun_of s) as ->.
    { apply set_eq. intros [i k]. rewrite started_begun, elem_of_union, elem_of_singleton.
      split; [intros [(_ & -> & ->)|H]; [by left|by right]|intros [[= -> ->]|H]; [by left|by right]]. }
    apply (exec_begin (Executor (busy_of s) (begun_of s))); [by apply started_idle|]. cbn.
    intros k (f & b & x & Hb & Hid & <- & Hx & _)%begun_of_spec.
    destruct (ai_attempt _ Hi _ _ Hb) as (y & Hy & Hn & _).
    pose proof (starts_operation _ _ _ _ _ Hs). rewrite Hid in Hy. assert (y = o) as -> by congruence. lia.
  - assert (begun_of s' = begun_of s) as ->; [|reflexivity].
    apply set_eq. intros [i k]. rewrite started_begun, Hm. split; [intros [(H & _)|H]; done|by right].
Qed.
End start.

Lemma service_step_abstraction s s1 :
  agent_inv s → service_step s s1 → rtc exec_step (abstraction s) (abstraction s1).
Proof.
  intros Hi [s2 Hq|s2 id o fence a now Hq Hs]; [by apply quiet_abstraction|].
  etrans; [by apply quiet_abstraction|]. apply started_abstraction; [by eapply quiet_inv|done].
Qed.

Section refinement.
Context (redact_text : string → string).
Context (commit_authority : option ((string → result bool) * result string)).
Context (contact_consumer : option (AgentSource → M control_db unit)).
Context (result_consumer : option (string → string → AgentResult → M control_db unit)).
Context {prepared : Type} (update_authorizer : option (UpdateAuthorizer prepared)).
Hypothesis contacts_are_quiet :
  ∀ consume source, contact_consumer = Some consume → moves quiet (consume source).
Hypothesis results_are_quiet :
  ∀ consume id fence m, result_consumer = Some consume → moves quiet (consume id fence m).
Notation step := (agent_step redact_text commit_authority contact_consumer result_consumer update_authorizer).
Notation reachable := (agent_reachable redact_text commit_authority contact_consumer result_consumer update_authorizer).

(** C2. Refinement: whatever transactions the queue runs, on its abstraction they
    are steps of the executor: a mutation begins only on an idle node and with a
    greater attempt number than any before of the same operation, and otherwise
    mutations only end. *)
Theorem queue_refines_executor s s' :
  reachable s → rtc step s s' → rtc exec_step (abstraction s) (abstraction s').
Proof.
  intros Hr Hs. apply agent_reachable_inv in Hr; [|done..].
  induction Hs as [|s s1 s' H1 _ IH]; [reflexivity|].
  assert (service_step s s1) as Hs1 by (eapply agent_step_service; eauto; apply Hr).
  etrans; [by apply service_step_abstraction|]. apply IH. by eapply service_step_inv.
Qed.
End refinement.

Lemma queue_refines_executor_witness :
  rtc exec_step (abstraction sample_queued) (abstraction sample_running)
  ∧ busy_of sample_queued !! sample_node_id = None
  ∧ busy_of sample_running !! sample_node_id = Some (sample_stop_id, 1%Z).
Proof.
  split; [|by split; vm_compute].
  refine (queue_refines_executor (λ r, r) None None None (prepared:=unit) None no_contacts no_results
    sample_queued sample_running sample_queued_reachable _).
  apply rtc_once, (as_claim _ _ _ _ _ _ sample_request (sample_poll 3000000 sample_fence)).
Defined.
