(* ===== verification/UpdateAuthorization.v ===== *)
(** * Authorization of agent updates
    ([control/src/vonk_control/agent_jobs.py], the reserve, sign and queue steps)

    A rollout that updates or rolls back an agent reserves an intent, which fixes
    the exact request for the signer; a process without network signs it outside
    any transaction; the answer is then compared with the intent and the rows it
    was reserved for, and becomes a queued operation or makes the intent stale.

    The signer is a parameter, the function [update_signer]. UUIDs and clock
    readings are arguments. Both methods run inside the caller's transaction. *)

From S2P Require Import Prelude Identifiers Canonical Datetimes Documents Contracts PackageEngine Protocol Messages.
From S2P Require Import OperationGraph Orchestration NodeLeases Jobs AgentTables AgentJobs.

(** [hashlib.sha256(_signer_message(value)).hexdigest()]: the canonical message
    and a line feed. *)
Definition signer_digest (v : json) : string := Sha256.hexdigest (canonical_utf8 v +:+ newline).

Record ReservedUpdateAuthorization := Reserved { reserved_intent_id : string; reserved_request : json }.

Inductive AuthorizationFinalization :=
| Finalized (id : string) (operation : StoredOperation)
| FinalizedStale.

(** The columns of a node that a plan observed. *)
Definition node_field (n : AgentNode) (name : string) : json :=
  if eqb name "platform_version" then opt_str (node_platform_version n)
  else if eqb name "build_digest" then opt_str (node_build_digest n)
  else if eqb name "protocol_version" then opt_int (node_protocol_version n)
  else if eqb name "active_slot" then opt_str (node_active_slot n)
  else if eqb name "agent_sha256" then opt_str (node_agent_sha256 n)
  else opt_int (node_supervisor_generation n).

Definition source_fields : list string :=
  ["platform_version"; "build_digest"; "protocol_version"; "active_slot"; "agent_sha256";
   "supervisor_generation"].

(** The planned source identity is the one the node still has. *)
Definition planned_source_ok (rollout : UpdateRollout) (row : UpdateRolloutNode) (n : AgentNode) : result bool :=
  match ur_plan rollout with
  | JObj plan =>
      mret match item_of (field plan "source_observations") (un_node_id row) with
           | JObj source =>
               eqb (signer_digest (JObj source)) (un_source_identity_digest row)
               && forallb (λ name, py_eqb (node_field n name) (field source name)) source_fields
           | _ => false
           end
  | _ => raise EExternal "object has no attribute 'get'"
  end.

(** The lease a rollout must hold. *)
Definition rollout_holds (s : control_db) (rollout_id node_id : string) : bool :=
  match t_leases s !! node_id with
  | Some l => eqb (ml_owner_kind l) "update-rollout" && eqb (ml_owner_id l) rollout_id
              && eqb (ml_state l) "held"
  | None => false
  end.

(** [dict.get] of a rollout's grant: [isinstance(grant, dict)]. *)
Definition admin_grant (operation : AgentOperation) (rollout : UpdateRollout) : result json :=
  match (if eqb operation AGENT_UPDATE then ur_update_admin_grant rollout
         else ur_rollback_admin_grant rollout) with
  | Some (JObj items) => mret (JObj items)
  | _ => raise EType "API-issued update authorization grant is unavailable"
  end.

Definition expiry (now : Z) : Z := now + 600 * microsecond.

Definition platform_target_name (rollout : UpdateRollout) : string :=
  "platform/releases/" +:+ ur_target_platform_version rollout +:+ "/" +:+ ur_release_digest rollout +:+ ".json".

(** The request for the signer; the keys are in the order of insertion. *)
Definition signer_request (operation : AgentOperation) (now : Z) (fence intent_id node_id operation_id
    job_id rollout_id : string) (source : string * string * Z) (rollout : UpdateRollout)
    (grant unsigned : json) (target_release_digest : option string) : json :=
  let '(slot, sha256, generation) := source in
  JObj ([("action", JStr operation); ("attempt", JInt 1);
         ("claim_deadline", JInt (timestamp (expiry now))); ("expires_at", JInt (timestamp (expiry now)));
         ("fence", JStr fence); ("intent_id", JStr intent_id); ("node_id", JStr node_id);
         ("operation_id", JStr operation_id); ("parent_job_id", JStr job_id); ("rollout_id", JStr rollout_id);
         ("schema_version", JInt 1);
         ("source", JObj [("generation", JInt generation); ("sha256", JStr sha256); ("slot", JStr slot)]);
         ("admin_grant", sort_json grant)]
        ++ (if eqb operation AGENT_UPDATE
            then [("payload", unsigned); ("platform_target_name", JStr (platform_target_name rollout));
                  ("target_release_digest", opt_str target_release_digest);
                  ("expected_tuf_target_sha256", JStr (ur_release_digest rollout));
                  ("expected_tuf_targets_version", JInt (ur_tuf_targets_version rollout))]
            else [])).

(** The newest intent of a rollout node that is not stale,
    [ORDER BY created_at DESC LIMIT 1]. *)
Definition open_intent (s : control_db) (rollout_node_id : string) (operation : AgentOperation)
    : option (string * UpdateAuthorizationIntent) :=
  best (λ p q, in_created_at q.2 <? in_created_at p.2)%Z
    (filter (λ p : string * UpdateAuthorizationIntent,
       in_rollout_node_id p.2 = rollout_node_id ∧ in_action p.2 = operation
       ∧ in_state p.2 ∈ ["reserved"; "signed"; "queued"]) (map_to_list (t_intents s))).

(** An open intent that can be used as it is; any other becomes stale. *)
Definition reuse_intent (s : control_db) (now : Z) (i : UpdateAuthorizationIntent) : bool :=
  if eqb (in_state i) "queued" then
    match t_operations s !! in_operation_id i with
    | Some o => among (so_state o) ["queued"; "running"]
    | None => false
    end
  else (now <? in_expires_at i)%Z.

Definition new_intent (operation : AgentOperation) (now : Z) (fence intent_id node_id operation_id
    job_id rollout_id rollout_node_id : string) (source : string * string * Z) (rollout : UpdateRollout)
    (grant unsigned : json) (target_release_digest : option string) : UpdateAuthorizationIntent :=
  let request := signer_request operation now fence intent_id node_id operation_id job_id rollout_id source
                   rollout grant unsigned target_release_digest in
  MkIntent rollout_id rollout_node_id job_id node_id operation_id fence operation "reserved" unsigned
    (utf8_digest unsigned) source.1.1 source.1.2 source.2 target_release_digest
    (if eqb operation AGENT_UPDATE then Some (ur_release_digest rollout) else None)
    (if eqb operation AGENT_UPDATE then Some (ur_tuf_targets_version rollout) else None)
    (sort_json grant) (utf8_digest grant) (expiry now) (sort_json request) (signer_digest request) None None now now None.

(** [INSERT INTO update_authorization_intents]. *)
Definition insert_intent (id : string) (i : UpdateAuthorizationIntent) : M control_db unit :=
  s ← get;
  lift (ensure (is_None_b (t_intents s !! id)
                && is_None_b (find_row (λ k, eqb (in_operation_id k) (in_operation_id i)) (t_intents s))
                && is_None_b (find_row (λ k, eqb (in_fence k) (in_fence i)) (t_intents s)))
          EIntegrity "UNIQUE constraint failed");;
  put_intent id i.

Section authorization.
(** [update_signer.authorize], if there is a signer. *)
Context (update_signer : option (json → result json)).

(** The states a rollout, its node and its job are in when an authorization may
    be reserved. *)
Definition reservable (operation : AgentOperation) (rollout : UpdateRollout) (row : UpdateRolloutNode) (j : Job)
    (payload : list (string * json)) (target_release_digest : option string) : result unit :=
  if eqb operation AGENT_UPDATE then
    ensure (eqb (ur_state rollout) "withdrawing" && eqb (un_state row) "routes-withdrawn"
            && eqb target_release_digest (Some ("sha256:" +:+ ur_release_digest rollout))) EValue
      "agent update authorization state is stale"
  else
    ensure (eqb (ur_state rollout) "paused" && eqb (un_state row) "failed" && negb (nonempty payload)
            && is_None_b target_release_digest && eqb (job_state j) "waiting-for-operator") EValue
      "agent rollback authorization state is stale".

Definition reserve_update_authorization_in_session (rollout_id rollout_node_id kind : string)
    (payload : list (string * json)) (target_release_digest : option string)
    (now : Z) (intent_id operation_id fence : string) : M control_db ReservedUpdateAuthorization :=
  lift (ensure (negb (is_None_b update_signer)) ERuntime "dedicated update signer is unavailable");;
  operation ← lift (operation_of_value kind);
  lift (ensure (is_update operation) EValue "update authorization operation is invalid");;
  s ← get;
  match t_rollouts s !! rollout_id, t_rollout_nodes s !! rollout_node_id with
  | Some rollout, Some row =>
      lift (ensure (eqb (un_rollout_id row) rollout_id) EValue
              "update authorization rollout binding is absent");;
      match t_nodes s !! un_node_id row, ur_job_id rollout ≫= λ id, (λ j, (id, j)) <$> t_jobs s !! id with
      | Some n, Some (job_id, j) =>
          source ← lift (match update_source n with
                         | Some source =>
                             ensure (eqb (node_state n) "active" && is_None_b (node_revoked_at n)) EValue
                               "agent update source identity is unavailable";;
                             mret source
                         | None => raise EValue "agent update source identity is unavailable"
                         end);
          planned ← lift (planned_source_ok rollout row n);
          lift (ensure (negb (eqb operation AGENT_UPDATE) || planned) EValue
                  "planned update source identity changed");;
          lift (ensure (eqb (job_kind j) "platform.update" && eqb (job_base_commit j) (ur_base_commit rollout)
                        && among (un_node_id row) (job_targets j) && rollout_holds s rollout_id (un_node_id row))
                  EValue "update authorization rollout authority is unavailable");;
          lift (reservable operation rollout row j payload target_release_digest);;
          grant ← lift (admin_grant operation rollout);
          let existing := open_intent s rollout_node_id operation in
          match existing with
          | Some (id, i) =>
              if reuse_intent s now i then mret (Some (Reserved id (in_request i)))
              else put_intent id (with_intent_state "stale" now i);; mret None
          | None => mret None
          end ≫= λ reused,
          match reused with
          | Some r => mret r
          | None =>
              let i := new_intent operation now fence intent_id (un_node_id row) operation_id job_id rollout_id
                         rollout_node_id source rollout grant (sort_json (JObj payload))
                         target_release_digest in
              insert_intent intent_id i;;
              mret (Reserved intent_id (in_request i))
          end
      | _, _ => throw EValue "update authorization identity is absent"
      end
  | _, _ => throw EValue "update authorization rollout binding is absent"
  end.

Definition sign_update_authorization (r : ReservedUpdateAuthorization) : result json :=
  match update_signer with
  | None => raise ERuntime "dedicated update signer is unavailable"
  | Some sign => sign (reserved_request r)
  end.

Definition mark_update_authorizations_stale (reserved : list ReservedUpdateAuthorization) (now : Z)
    : M control_db unit :=
  transaction (modify (set_t_intents (map_imap (λ id i,
    Some (if among id (map reserved_intent_id reserved) && among (in_state i) ["reserved"; "signed"]
          then with_intent_state "stale" now i else i))))).

(** ** Queueing a signed answer *)

Definition valid_response (intent_id : string) (i : UpdateAuthorizationIntent) (response : list (string * json))
    : bool :=
  same_keys response ["intent_id"; "request_digest"; "schema_version"; "signed_payload"]
  && py_eqb (field response "schema_version") (JInt 1)
  && py_eqb (field response "intent_id") (JStr intent_id)
  && py_eqb (field response "request_digest") (JStr (in_request_digest i))
  && is_object (λ _, true) (field response "signed_payload").

(** The receipt says exactly what was reserved. *)
Definition exact_receipt (i : UpdateAuthorizationIntent) (payload : json) : bool :=
  is_object (λ receipt,
    let says name v := py_eqb (field receipt name) v in
    let deadline := JInt (timestamp (in_expires_at i)) in
    let source prefix :=
      says (prefix +:+ "_slot") (JStr (in_source_slot i))
      && says (prefix +:+ "_sha256") (JStr (in_source_sha256 i))
      && says (prefix +:+ "_generation") (JInt (in_source_generation i)) in
    says "operation_id" (JStr (in_operation_id i)) && says "fence" (JStr (in_fence i))
    && says "node_id" (JStr (in_node_id i)) && says "attempt" (JInt 1)
    && says "claim_deadline" deadline && says "expires_at" deadline
    && if eqb (in_action i) AGENT_UPDATE then
         py_eqb (item_of payload "artifact") (item_of (in_unsigned_payload i) "artifact")
         && py_eqb (item_of payload "release") (item_of (in_unsigned_payload i) "release")
         && source "previous"
         && says "platform_target_name" (item_of (in_request i) "platform_target_name")
         && says "platform_target_sha256" (opt_str (in_expected_tuf_target_sha256 i))
         && says "tuf_targets_version" (opt_int (in_expected_tuf_targets_version i))
       else says "action" (JStr "operator-rollback") && source "current")
    (item_of payload "receipt").

(** The rows of the intent are the ones it was reserved for, with the same agent
    on the node and the lease still held. *)
Definition exact_rows (s : control_db) (i : UpdateAuthorizationIntent) : option (UpdateRollout * UpdateRolloutNode * Job) :=
  match t_rollouts s !! in_rollout_id i, t_rollout_nodes s !! in_rollout_node_id i,
        t_nodes s !! in_node_id i, t_jobs s !! in_parent_job_id i with
  | Some rollout, Some row, Some n, Some j =>
      if eqb (un_rollout_id row) (in_rollout_id i) && eqb (un_node_id row) (in_node_id i)
         && eqb (ur_job_id rollout) (Some (in_parent_job_id i))
         && eqb (node_active_slot n) (Some (in_source_slot i))
         && eqb (node_agent_sha256 n) (Some (in_source_sha256 i))
         && eqb (node_supervisor_generation n) (Some (in_source_generation i))
         && rollout_holds s (in_rollout_id i) (in_node_id i)
      then Some (rollout, row, j) else None
  | _, _, _, _ => None
  end.

Definition queueable_state (i : UpdateAuthorizationIntent) (rollout : UpdateRollout) (row : UpdateRolloutNode)
    (j : Job) : bool :=
  eqb (in_action i) AGENT_UPDATE && eqb (ur_state rollout) "withdrawing"
  && eqb (un_state row) "routes-withdrawn" && eqb (job_state j) "running"
  && eqb (in_target_release_digest i) (Some ("sha256:" +:+ ur_release_digest rollout))
  || eqb (in_action i) AGENT_ROLLBACK && eqb (ur_state rollout) "paused" && eqb (un_state row) "failed"
     && eqb (job_state j) "waiting-for-operator".

Definition queueable (s : control_db) (r : ReservedUpdateAuthorization) (response : list (string * json))
    (i : UpdateAuthorizationIntent) (now : Z) : option UpdateRollout :=
  match exact_rows s i with
  | Some (rollout, row, j) =>
      if among (in_state i) ["reserved"; "signed"] && (now <? in_expires_at i)%Z
         && py_eqb (in_request i) (reserved_request r) && valid_response (reserved_intent_id r) i response
         && exact_receipt i (field response "signed_payload") && queueable_state i rollout row j
      then Some rollout else None
  | None => None
  end.

Definition finalize_update_authorization_in_session (r : ReservedUpdateAuthorization)
    (response : list (string * json)) (now : Z) : M control_db AuthorizationFinalization :=
  s ← get;
  let id := reserved_intent_id r in
  match t_intents s !! id with
  | None => throw EValue "update authorization intent is absent"
  | Some i =>
      if eqb (in_state i) "queued" then
        match t_operations s !! in_operation_id i with
        | Some o => mret (Finalized (in_operation_id i) o)
        | None => throw EValue "queued update authorization lost its operation"
        end
      else
        match queueable s r response i now with
        | None => put_intent id (with_intent_state "stale" now i);; mret FinalizedStale
        | Some rollout =>
            let payload := field response "signed_payload" in
            operation ← lift (operation_of_value (in_action i));
            m ← lift (agent_claim
              (Identity (in_parent_job_id i) (in_operation_id i) 1 (in_fence i) (in_node_id i) now)
              operation (ur_base_commit rollout) (utf8_digest payload) payload);
            let o := MkOperation (in_parent_job_id i) (in_node_id i) (in_action i) (claim_payload_digest m)
                       (sort_json (claim_payload m)) (ur_base_commit rollout) "queued" 0 None None now now in
            insert_operation (in_operation_id i) o;;
            put_intent id (queued_intent (sort_json (JObj response)) (signer_digest (JObj response)) now i);;
            mret (Finalized (in_operation_id i) o)
        end
  end.
End authorization.

(** ** What a queued authorization promises *)

Lemma py_int_of_eq v n : py_eqb v (JInt n) = true → py_int v = Some n.
Proof. intros H%py_eqb_eq. destruct v as [|[]| | | |]; try discriminate; cbn in *; congruence. Qed.

Lemma py_eqb_opt_str s o : py_eqb (JStr s) (opt_str o) = eqb o (Some s).
Proof.
  unfold py_eqb. destruct o as [t|]; cbn; [|by rewrite (proj2 (eqb_false _ _))].
  destruct (decide (t = s)) as [->|Hne]; [by rewrite !eqb_refl|].
  rewrite !(proj2 (eqb_false _ _)); [done|naive_solver..].
Qed.

Lemma py_eqb_opt_int n o : py_eqb (JInt n) (opt_int o) = eqb o (Some n).
Proof.
  unfold py_eqb. destruct o as [t|]; cbn; [|by rewrite (proj2 (eqb_false _ _))].
  destruct (Z.eqb_spec n t) as [->|Hne]; [by rewrite eqb_refl|].
  rewrite (proj2 (eqb_false _ _)); [done|naive_solver].
Qed.

Lemma claim_message_payload i operation commit digest payload m :
  agent_claim i operation commit digest payload = Ok m →
  claim_payload m = sort_json payload ∧ claim_payload_digest m = digest
  ∧ utf8_digest (sort_json payload) = digest.
Proof.
  unfold agent_claim, validate_bounded_document, protocol_check, protocol_error. intros H.
  destruct payload; inv_run_all; try discriminate. subst m. bool_facts. by simplify_eq.
Qed.

(** The slot, the digest and the generation of an intent are those of a node. *)
Definition same_source (i : UpdateAuthorizationIntent) (n : AgentNode) : bool :=
  eqb (node_active_slot n) (Some (in_source_slot i)) && eqb (node_agent_sha256 n) (Some (in_source_sha256 i))
  && eqb (node_supervisor_generation n) (Some (in_source_generation i)).

Definition receipt_claims (i : UpdateAuthorizationIntent) (receipt : list (string * json)) : Prop :=
  field receipt "fence" = JStr (in_fence i)
  ∧ field receipt "operation_id" = JStr (in_operation_id i)
  ∧ field receipt "node_id" = JStr (in_node_id i)
  ∧ py_eqb (field receipt "attempt") (JInt 1) = true
  ∧ py_eqb (field receipt "claim_deadline") (JInt (timestamp (in_expires_at i))) = true
  ∧ py_eqb (field receipt "expires_at") (JInt (timestamp (in_expires_at i))) = true
  ∧ ∀ n, is_update (in_action i) = true → source_binding (in_action i) receipt n = same_source i n.

Lemma exact_receipt_claims i payload :
  exact_receipt i payload = true →
  ∃ receipt, item_of payload "receipt" = JObj receipt ∧ receipt_claims i receipt.
Proof.
  unfold exact_receipt. destruct (item_of payload "receipt") as [| | | | |receipt]; try done.
  cbn -[eqb operation_value]. intros H. exists receipt. split; [done|]. bool_facts.
  repeat match goal with H : py_eqb _ (JStr _) = true |- _ => apply py_eqb_str in H end.
  unfold receipt_claims. split_and!; try done. intros n Hup.
  unfold source_binding, same_source.
  destruct (eqb (in_action i) AGENT_UPDATE) eqn:Hk; bool_facts;
    repeat match goal with H : py_eqb _ (JStr _) = true |- _ => apply py_eqb_str in H end; cbn [String.append];
    repeat match goal with H : field receipt ?k = _ |- context [field receipt ?k] => rewrite H end;
    rewrite !py_eqb_opt_str; (erewrite (py_eqb_subst (field receipt _)) by eassumption); by rewrite py_eqb_opt_int.
Qed.

Lemma receipt_claims_sort i receipt :
  dict_keys (JObj receipt) = true → receipt_claims i receipt →
  receipt_claims i (merge_sort key_le (map (on_values sort_json) receipt)).
Proof.
  intros Hd. pose proof (proj1 (dict_keys_object _) Hd) as [Hnd _].
  assert (∀ key v, py_eqb (field (merge_sort key_le (map (on_values sort_json) receipt)) key) v
                   = py_eqb (field receipt key) v) as Heq.
  { intros key v. rewrite field_sort by done. apply py_eqb_sort. by apply dict_keys_field. }
  unfold receipt_claims, source_binding. intros (Hf & Ho & Hn & Ha & Hc & He & Hs).
  rewrite !(field_sort receipt) by done. rewrite <- !field_sort by done.
  split_and!; try (rewrite field_sort, ?Hf, ?Ho, ?Hn by done; done).
  - by rewrite Heq.
  - by rewrite Heq.
  - by rewrite Heq.
  - intros n Hup. rewrite <- (Hs n Hup). repeat rewrite Heq. done.
Qed.

(** The binding a stored operation gives at a claim. *)
Lemma receipt_binding i o receipt n t d :
  is_update (in_action i) = true → so_kind o = in_action i → so_current_attempt o = 0%Z →
  so_payload_digest o = utf8_digest (so_payload o) → item_of (so_payload o) "receipt" = JObj receipt →
  receipt_claims i receipt → is_uuid4 (in_fence i) = true →
  fromtimestamp (timestamp (in_expires_at i)) = Some d →
  update_claim_binding (in_operation_id i) o (in_node_id i) n t
  = if (t + 30 * microsecond <? d)%Z && same_source i n then Some (in_fence i, d) else None.
Proof.
  intros Hup Hk Hz Hdig Hr (Hf & Ho & Hn & Ha & Hc & He & Hs) Hu Hd.
  unfold update_claim_binding. rewrite Hk, Hup, Hr, Hf, Ho, Hn, Ha, Hz, Hu, (py_int_of_eq _ _ Hc), (Hs n Hup).
  cbn [negb]. change (Some (timestamp (in_expires_at i)) ≫= fromtimestamp) with (fromtimestamp (timestamp (in_expires_at i))).
  rewrite Hd, <- Hdig. cbn [mbind option_bind].
  rewrite (py_eqb_subst _ _ _ He).
  assert (py_eqb (JInt (timestamp (in_expires_at i))) (field receipt "claim_deadline") = true) as ->
    by (apply py_eqb_eq; symmetry; by apply py_eqb_eq).
  rewrite !eqb_refl. assert (∀ s, py_eqb (JStr s) (JStr s) = true) as Hrefl by (intros; by apply py_eqb_eq).
  rewrite !Hrefl. cbn [andb Z.eqb]. by rewrite !andb_true_r.
Qed.

Section claims.
Context (r : ReservedUpdateAuthorization) (response : list (string * json)) (now : Z).

Lemma queueable_ok s i rollout :
  queueable s r response i now = Some rollout →
  exact_receipt i (field response "signed_payload") = true ∧ is_update (in_action i) = true
  ∧ (now < in_expires_at i)%Z ∧ in_state i ∈ ["reserved"; "signed"]
  ∧ py_eqb (in_request i) (reserved_request r) = true
  ∧ valid_response (reserved_intent_id r) i response = true
  ∧ rollout_holds s (in_rollout_id i) (in_node_id i) = true.
Proof.
  unfold queueable, exact_rows. intros H. repeat case_match; simplify_eq. bool_facts. split_and!; try done.
  unfold queueable_state in *.
  match goal with H : _ || _ = true |- _ => apply orb_true_iff in H as [H|H] end; bool_facts;
    match goal with H : in_action i = _ |- _ => rewrite H end; vm_compute; reflexivity.
Qed.

Lemma finalize_ok s i id o s' :
  t_intents s !! reserved_intent_id r = Some i → in_state i ≠ "queued" →
  finalize_update_authorization_in_session r response now s = (Ok (Finalized id o), s') →
  ∃ rollout m, queueable s r response i now = Some rollout ∧ id = in_operation_id i
    ∧ agent_claim (Identity (in_parent_job_id i) (in_operation_id i) 1 (in_fence i) (in_node_id i) now)
        (claim_operation m) (ur_base_commit rollout) (utf8_digest (field response "signed_payload"))
        (field response "signed_payload") = Ok m
    ∧ t_operations s !! id = None
    ∧ o = MkOperation (in_parent_job_id i) (in_node_id i) (in_action i) (claim_payload_digest m)
            (sort_json (claim_payload m)) (ur_base_commit rollout) "queued" 0 None None now now
    ∧ t_operations s' = <[id := o]> (t_operations s)
    ∧ t_intents s' = <[reserved_intent_id r := queued_intent (sort_json (JObj response))
        (signer_digest (JObj response)) now i]> (t_intents s).
Proof.
  intros Hi Hq H. unfold finalize_update_authorization_in_session in H. inv_run_all. rewrite Hi in H.
  rewrite (proj2 (eqb_false _ _) Hq) in H.
  destruct (queueable s r response i now) as [rollout|]; inv_run_all; [|discriminate].
  unfold insert_operation, put_operation, put_intent in *. inv_run_all. bool_facts. simplify_eq.
  match goal with H : agent_claim _ ?op _ _ _ = Ok ?m |- _ =>
    assert (claim_operation m = op) as E; [|exists rollout, m; rewrite E; split_and!; done] end.
  unfold agent_claim in *. inv_run_all. by subst.
Qed.
End claims.

(** The row of a queued authorization, and the binding it gives at a claim. *)
Lemma queued_binding r response now s i id o s' d :
  finalize_update_authorization_in_session r response now s = (Ok (Finalized id o), s') →
  t_intents s !! reserved_intent_id r = Some i → in_state i ≠ "queued" →
  dict_keys (JObj response) = true → is_uuid4 (in_fence i) = true →
  fromtimestamp (timestamp (in_expires_at i)) = Some d →
  t_operations s' !! in_operation_id i = Some o ∧ so_state o = "queued"
  ∧ ∀ n t, update_claim_binding (in_operation_id i) o (in_node_id i) n t
           = if (t + 30 * microsecond <? d)%Z && same_source i n then Some (in_fence i, d) else None.
Proof.
  intros H Hi Hq Hd Hu Ht. destruct (finalize_ok _ _ _ _ _ _ _ _ Hi Hq H)
    as (rollout & m & Hqueue & -> & Hm & _ & Ho & Hops & _).
  apply queueable_ok in Hqueue as (Hr & Hup & _).
  apply claim_message_payload in Hm as (Hp & Hdig & Hdig').
  pose proof (dict_keys_field _ "signed_payload" Hd) as Hdp.
  destruct (exact_receipt_claims _ _ Hr) as (receipt & Hrec & Hclaims).
  destruct (field response "signed_payload") as [| | | | |payload] eqn:Epayload; try discriminate.
  pose proof (dict_keys_field _ "receipt" Hdp) as Hdr. cbn [item_of] in Hrec. rewrite Hrec in Hdr.
  rewrite Hops, lookup_insert_eq. split; [done|]. split; [by rewrite Ho|]. intros n t.
  apply (receipt_binding i o (merge_sort key_le (map (on_values sort_json) receipt))); try done;
    try (by rewrite Ho).
  - rewrite Ho. cbn. by rewrite Hp, sort_json_idemp, Hdig, Hdig'.
  - rewrite Ho. cbn [so_payload]. rewrite Hp, sort_json_idemp by done. rewrite sort_json_object. cbn [item_of].
    rewrite field_sort, Hrec by (by apply dict_keys_object in Hdp as [? _]). by rewrite sort_json_object.
  - by apply receipt_claims_sort.
Qed.

Lemma update_value kind : is_update kind = true → ∃ operation, operation_of_value kind = Ok operation.
Proof.
  unfold is_update. intros Hk. apply among_true in Hk. change (kind ∈ ["agent.update"; "agent.rollback"]) in Hk.
  rewrite !elem_of_cons, elem_of_nil in Hk. destruct Hk as [->|[->|[]]]; by eexists.
Qed.

(** The claim of a queued authorization is well-formed, whatever its deadline. *)
Lemma queued_message r response now s i id o s' deadline :
  finalize_update_authorization_in_session r response now s = (Ok (Finalized id o), s') →
  t_intents s !! reserved_intent_id r = Some i → in_state i ≠ "queued" → dict_keys (JObj response) = true →
  so_current_attempt o = 0%Z ∧ is_update (so_kind o) = true
  ∧ ∃ operation, operation_of_value (so_kind o) = Ok operation
    ∧ agent_claim (Identity (so_parent_job_id o) (in_operation_id i) 1 (in_fence i) (so_node_id o) deadline)
        operation (so_base_commit o) (so_payload_digest o) (so_payload o)
      = Ok (MkClaim (Identity (so_parent_job_id o) (in_operation_id i) 1 (in_fence i) (so_node_id o) deadline)
              operation (so_base_commit o) (so_payload_digest o) (so_payload o)).
Proof.
  intros H Hi Hq Hd. destruct (finalize_ok _ _ _ _ _ _ _ _ Hi Hq H) as (rollout & m & Hqueue & -> & Hm & _ & -> & _).
  apply queueable_ok in Hqueue as (_ & Hup & _). apply made_claim in Hm as (Hid & Hc & Hdig & document & Hdoc & Hsum & ->).
  destruct (bounded_document_idemp _ _ _ (dict_keys_field _ "signed_payload" Hd) Hdoc) as [Hs Hdoc']. cbn. rewrite Hs.
  split; [done|]. split; [done|]. apply update_value in Hup as [operation Hop]. exists operation. split; [done|].
  apply made_claim. split_and!; try done. by exists document.
Qed.

(** A grant of an operation that has not been attempted. *)
Lemma granted_claim request id o now fence deadline operation s m :
  so_current_attempt o = 0%Z → operation_of_value (so_kind o) = Ok operation →
  agent_claim (Identity (so_parent_job_id o) id 1 fence (so_node_id o) deadline) operation (so_base_commit o)
    (so_payload_digest o) (so_payload o) = Ok m →
  t_attempts s !! fence = None → attempt_of s id 1 = None →
  ∃ s', grant request id o now fence deadline s = (Ok (Some m), s')
    ∧ at_lease_deadline <$> t_attempts s' !! fence = Some deadline.
Proof.
  intros Hz Hop Hm Hf Ha. unfold grant. rewrite Hz. cbn [Z.add].
  set (a := MkAgentAttempt id 1 deadline (cr_serial request) "running" None None).
  set (s1 := set_t_operations <[id := started now o]> s).
  assert (insert_agent_attempt fence a s1 = (Ok (), set_t_attempts <[fence := a]> s1)) as Hins.
  { unfold insert_agent_attempt. rewrite (M_bind_run _ _ _ s1 s1) by done.
    change (t_attempts s1) with (t_attempts s). change (attempt_of s1 (at_operation_id a) (at_attempt a)) with (attempt_of s id 1).
    by rewrite Hf, Ha. }
  rewrite (M_bind_run _ _ _ () s1), (M_bind_run _ _ _ _ _ Hins), Hop by done.
  rewrite (M_bind_run _ _ _ operation (set_t_attempts <[fence := a]> s1)) by done. change (0 + 1)%Z with 1%Z. rewrite Hm.
  eexists. split; [done|]. cbn. by rewrite lookup_insert_eq.
Qed.

(** C17. End to end: a signed authorization that is queued is handed out when its turn
    comes, to the node it was reserved for, exactly while the agent on the node is still
    the one it was reserved for and its receipt is valid for more than thirty seconds; the
    claim then carries the reserved fence and the signed deadline, and otherwise nothing is
    handed out. Its turn comes when the queue has selected it (which is where the authority
    of its rollout is checked) and its gates let it through: the capability of the node and
    no other mutation running ([dispatchable]). *)
Theorem queued_authorization_is_dispatched redact_text r response now s i id o s' d :
  finalize_update_authorization_in_session r response now s = (Ok (Finalized id o), s') →
  t_intents s !! reserved_intent_id r = Some i → in_state i ≠ "queued" →
  dict_keys (JObj response) = true → is_uuid4 (in_fence i) = true →
  fromtimestamp (timestamp (in_expires_at i)) = Some d →
  t_operations s' !! in_operation_id i = Some o ∧ so_state o = "queued"
  ∧ ∀ request p s2 n,
      cr_node_id request = in_node_id i → t_nodes s2 !! in_node_id i = Some n →
      dispatchable s2 request (in_operation_id i) o = true →
      t_attempts s2 !! in_fence i = None → attempt_of s2 (in_operation_id i) 1 = None →
      if (poll_now p + 30 * microsecond <? d)%Z && same_source i n then
        ∃ m s3, dispatch redact_text request p (in_operation_id i) o s2 = (Ok (Some m), s3)
          ∧ id_fence (claim_identity m) = in_fence i ∧ id_deadline (claim_identity m) = d
          ∧ claim_payload m = so_payload o
          ∧ at_lease_deadline <$> t_attempts s3 !! in_fence i = Some d
      else ∀ m s3, dispatch redact_text request p (in_operation_id i) o s2 ≠ (Ok (Some m), s3).
Proof.
  intros H Hi Hq Hd Hu Ht. destruct (queued_binding _ _ _ _ _ _ _ _ _ H Hi Hq Hd Hu Ht) as (Hrow & Hst & Hb).
  destruct (queued_message _ _ _ _ _ _ _ _ d H Hi Hq Hd) as (Hz & Hup & operation & Hop & Hm).
  split; [done|]. split; [done|]. intros request p s2 n Hnode Hn Hdisp Hfence Hatt.
  specialize (Hb n (poll_now p)). destruct ((poll_now p + 30 * microsecond <? d)%Z && same_source i n).
  - destruct (granted_claim request (in_operation_id i) o (poll_now p) (in_fence i) d operation s2 _ Hz Hop Hm Hfence Hatt)
      as (s3 & Hg & Ha). eexists _, s3. split.
    { unfold dispatch. rewrite (M_bind_run _ _ _ s2 s2) by done. rewrite Hdisp. cbn [negb].
      unfold expire_previous. rewrite Hz, (M_bind_run _ _ _ () s2) by done. rewrite Hst, Hnode, Hn, Hb. exact Hg. }
    by split_and!.
  - intros m s3 Hr. unfold dispatch in Hr. rewrite (M_bind_run _ _ _ s2 s2) in Hr by done. rewrite Hdisp in Hr. cbn [negb] in Hr.
    unfold expire_previous in Hr. rewrite Hz, (M_bind_run _ _ _ () s2) in Hr by done. rewrite Hst, Hnode, Hn, Hb, Hup in Hr.
    change (eqb "queued" "running") with false in Hr. cbn [andb] in Hr. by inv_run_all.
Qed.


(** ** One authorization *)

Definition auth_node : string := "spk_0123456789abcdef0123456789abcdef".
Definition auth_digest : string := "0123456789abcdef0123456789abcdef0123456789abcdef0123456789abcdef".
Definition auth_commit : string := "0123456789abcdef0123456789abcdef01234567".
Definition auth_job : string := "00000000-0000-4000-8000-000000000001".
Definition auth_rollout : string := "00000000-0000-4000-8000-000000000002".
Definition auth_row : string := "00000000-0000-4000-8000-000000000003".
Definition auth_intent : string := "00000000-0000-4000-8000-000000000004".
Definition auth_operation : string := "00000000-0000-4000-8000-000000000005".
Definition auth_fence : string := "00000000-0000-4000-8000-000000000006".

Definition auth_agent : AgentNode :=
  MkNode "active" "rust" "complete" (Some 3%Z) (Some "linux-arm64") (Some "1.2.0")
    (Some ("sha256:" +:+ auth_digest)) (Some "A") (Some auth_digest) (Some 7%Z) (Some 7%Z) true None None []
    None None.

Definition auth_source : json := JObj (map (λ name, (name, node_field auth_agent name)) source_fields).

Definition auth_db : control_db :=
  ControlDb {[auth_node := auth_agent]} ∅ ∅ ∅
    {[auth_job := MkJob "request" "platform.update" "running" "operator" auth_commit [auth_node] "" JNull None
        None 0 0 0 None]} ∅ ∅
    {[auth_node := MutationLease "update-rollout" auth_rollout auth_fence "held" 0 0]}
    {[auth_rollout := MkUpdateRollout (Some auth_job) "withdrawing" auth_digest auth_commit "1.3.0" 9
        (Some (JObj [("kind", JStr "update")])) None
        (JObj [("source_observations", JObj [(auth_node, auth_source)])])]}
    {[auth_row := MkUpdateRolloutNode auth_rollout auth_node "routes-withdrawn" None None (signer_digest auth_source)]}
    ∅ ∅ ∅ [] ∅ ∅ None None.

Definition auth_payload : list (string * json) :=
  [("release", JObj [("version", JStr "1.3.0")]); ("artifact", JObj [("size", JInt 1024)])].

(** A signer that puts what it was asked for into the receipt. *)
Definition auth_signer (request : json) : result json :=
  let ask := item_of request in
  mret (JObj [("schema_version", JInt 1); ("intent_id", ask "intent_id");
    ("request_digest", JStr (signer_digest request));
    ("signed_payload", JObj [("artifact", item_of (ask "payload") "artifact");
       ("release", item_of (ask "payload") "release");
       ("receipt", JObj [("operation_id", ask "operation_id"); ("fence", ask "fence");
          ("node_id", ask "node_id"); ("attempt", JInt 1); ("claim_deadline", ask "claim_deadline");
          ("expires_at", ask "expires_at"); ("previous_slot", item_of (ask "source") "slot");
          ("previous_sha256", item_of (ask "source") "sha256");
          ("previous_generation", item_of (ask "source") "generation");
          ("platform_target_name", ask "platform_target_name");
          ("platform_target_sha256", ask "expected_tuf_target_sha256");
          ("tuf_targets_version", ask "expected_tuf_targets_version")])])]).

Definition auth_reserved : result ReservedUpdateAuthorization * control_db :=
  reserve_update_authorization_in_session (Some auth_signer) auth_rollout auth_row AGENT_UPDATE auth_payload
    (Some ("sha256:" +:+ auth_digest)) 1700000000000000 auth_intent auth_operation auth_fence auth_db.

Definition auth_reservation : ReservedUpdateAuthorization :=
  match auth_reserved.1 with Ok r => r | Err _ => Reserved "" JNull end.
Definition auth_response : list (string * json) :=
  match sign_update_authorization (Some auth_signer) auth_reservation with Ok (JObj l) => l | _ => [] end.
Definition auth_result : result AuthorizationFinalization * control_db :=
  finalize_update_authorization_in_session auth_reservation auth_response 1700000060000000 auth_reserved.2.

(** The node asks for work. *)
Definition auth_request : claim_request :=
  ClaimRequest auth_node "serial" 60 (Some 1%Z) (Some ["agent.update"]) None None None.
Definition auth_poll (now : Z) : poll := Poll ∅ now now now "".

Example auth_queued : ∃ i id o s',
  auth_result = (Ok (Finalized id o), s')
  ∧ t_intents auth_reserved.2 !! reserved_intent_id auth_reservation = Some i ∧ in_state i ≠ "queued"
  ∧ dict_keys (JObj auth_response) = true ∧ is_uuid4 (in_fence i) = true
  ∧ fromtimestamp (timestamp (in_expires_at i)) = Some 1700000600000000%Z
  ∧ same_source i auth_agent = true ∧ in_fence i = auth_fence ∧ in_operation_id i = auth_operation
  ∧ in_node_id i = auth_node ∧ t_nodes s' !! auth_node = Some auth_agent
  ∧ dispatchable s' auth_request auth_operation o = true ∧ t_attempts s' = ∅.
Proof. do 4 eexists. split_and!; try (vm_compute; reflexivity). by vm_compute. Qed.

Lemma queued_authorization_is_dispatched_witness :
  ∃ id o s', auth_result = (Ok (Finalized id o), s')
    ∧ (∃ m s3, dispatch (λ t, t) auth_request (auth_poll 1700000100000000) auth_operation o s' = (Ok (Some m), s3)
         ∧ id_fence (claim_identity m) = auth_fence ∧ id_deadline (claim_identity m) = 1700000600000000%Z)
    ∧ ∀ m s3, dispatch (λ t, t) auth_request (auth_poll 1700000570000000) auth_operation o s' ≠ (Ok (Some m), s3).
Proof.
  destruct auth_queued as (i & id & o & s' & H & Hi & Hq & Hd & Hu & Ht & Hs & Hf & Ho & Hn & Hnode & Hdisp & Hatt).
  exists id, o, s'. split; [exact H|].
  pose proof (queued_authorization_is_dispatched (λ t, t) auth_reservation auth_response 1700000060000000
    auth_reserved.2 i id o s' 1700000600000000 H Hi Hq Hd Hu Ht) as (_ & _ & Hb).
  rewrite Hf, Ho, Hn in Hb.
  assert (t_attempts s' !! auth_fence = None ∧ attempt_of s' auth_operation 1 = None) as [H1 H2]
    by (unfold attempt_of; rewrite Hatt; split; reflexivity).
  split.
  - pose proof (Hb auth_request (auth_poll 1700000100000000) s' auth_agent eq_refl Hnode Hdisp H1 H2) as Hx. rewrite Hs in Hx.
    change ((poll_now (auth_poll 1700000100000000) + 30 * microsecond <? 1700000600000000)%Z) with true in Hx. cbn [andb] in Hx.
    destruct Hx as (m & s3 & Hm & Hfence & Hdeadline & _). exists m, s3. split; [exact Hm|]. split; [exact Hfence|exact Hdeadline].
  - pose proof (Hb auth_request (auth_poll 1700000570000000) s' auth_agent eq_refl Hnode Hdisp H1 H2) as Hx.
    change ((poll_now (auth_poll 1700000570000000) + 30 * microsecond <? 1700000600000000)%Z) with false in Hx. exact Hx.
Defined.
