(* ===== verification/PackageHelper.v ===== *)
(** * The package helper, its authority and its client

    [PackageHelper.handle] of [agent/src/vonk_agent/package_helper.py] decides whether a
    workload is started: the peer is the agent, the helper is the active slot, the
    request is canonical, its grant is signed for exactly this body, in time and not
    used before, and every object has a signed receipt. Grants and receipts come from
    [control/src/vonk_control/package_helper_authority.py]; the agent calls the helper
    through [agent/src/vonk_agent/package_helper_client.py]. Signatures are parameters,
    and so are the files that are read; what the launcher answers is an argument of the
    call. *)

From S2P Require Import Prelude Identifiers Canonical Documents JsonText Contracts PackageEngine Protocol.
From S2P Require Import OperationGraph Orchestration AgentTables AgentJobs Routes ReleaseLocks HelperMessages.

(** ** The supervisor's state *)

(** [_unique_state]. *)
Definition state_hook : PairsHook := λ pairs,
  match first_duplicate [] pairs with
  | Some _ => helper_error "supervisor state contains duplicate fields"
  | None => mret pairs
  end.

Definition supervisor_fields : list string :=
  ["activation_deadline"; "active_slot"; "boot_attempts"; "expected_sha256"; "generation"; "previous_slot"; "rollback_performed";
   "schema_version"; "slot_sha256"; "status"].

(** A value as the element of a set of strings. *)
Definition member (v : json) (l : list string) : result bool :=
  match v with JStr s => mret (among s l) | JArr _ | JObj _ => raise EType "unhashable type" | _ => mret false end.

(** [ActiveSlotVerifier.verify], of the bytes that were read. *)
Definition verify_active_slot (expected : string) (read : result string) : result unit :=
  raw ← read;
  let stale := "supervisor state active slot is stale" in
  document ← match loads_with (hook:=state_hook) raw with
             | Ok v => helper_check (all_chars (λ c, (code c <? 128)%N) raw) "supervisor state is invalid";; mret v
             | Err (Exn EHelperProtocol m) => helper_error m
             | Err _ => helper_error "supervisor state is invalid"
             end;
  match document with
  | JObj items =>
      helper_check (same_keys items supervisor_fields && eqb (canonical document +:+ newline) raw
                    && py_eqb (field items "schema_version") (JInt 1)) stale;;
      active ← member (field items "active_slot") ["A"; "B"];
      helper_check active stale;;
      match field items "slot_sha256", field items "active_slot" with
      | JObj slots, JStr slot =>
          helper_check (same_keys slots ["A"; "B"] && py_eqb (field slots slot) (field items "expected_sha256")
                        && py_eqb (field items "expected_sha256") (JStr expected)) stale;;
          status ← member (field items "status") ["stable"; "pending"];
          helper_check status stale
      | _, _ => helper_error stale
      end
  | _ => helper_error stale
  end.

(** ** Authorization *)

Record ReplayRow := MkReplay {
  fr_request_id : string; fr_operation_id : string; fr_attempt : Z; fr_fence : string; fr_request_digest : string;
  fr_expires_at : Z
}.

(** The primary key and the UNIQUE constraint of [consumed_fences]. *)
Definition conflicts (row other : ReplayRow) : bool :=
  eqb (fr_request_id row) (fr_request_id other)
  || eqb (fr_operation_id row) (fr_operation_id other) && (fr_attempt row =? fr_attempt other)%Z
     && eqb (fr_fence row) (fr_fence other).

(** What [datetime.fromtimestamp] raises out of range: a ValueError for a year after 9999,
    an OSError where [gmtime] has no year, an OverflowError where there is no [time_t]. None
    of them is an error of the helper. *)
Definition timestamp_error (n : Z) : exn_class :=
  if (n <=? 67768036191676799)%Z then EValue else if (n <? 2 ^ 63)%Z then EOS else EOverflow.
Definition helper_instant (n : Z) : result Z :=
  match fromtimestamp n with Some t => mret t | None => raise (timestamp_error n) "timestamp is out of range" end.

(** [issued_at + timedelta(minutes=15)]. *)
Definition grant_limit (issued_at : Z) : result Z :=
  match fromtimestamp (issued_at + max_grant_seconds) with Some t => mret t | None => raise EOverflow "date value out of range" end.

Definition max_replay_entries : nat := 65536.

Class HelperKeys := {
  verify_signature : string → string → string → bool;
  grant_key : string;
  receipt_key : string
}.
Definition key_id_of (key : string) : string := Sha256.hexdigest key.

Section helper.
Context `{HelperKeys}.

Definition replay_row (r : HelperRequest) (digest : string) : ReplayRow :=
  let b := hr_body r in
  MkReplay (hb_request_id b) (hb_operation_id b) (hb_attempt b) (hb_fence b) digest (gc_expires_at (sg_claims (hr_grant r))).

(** The transaction of [SignedFenceAuthorizer.authorize]. *)
Definition consume (row : ReplayRow) (now : Z) (max_entries : nat) : M (list ReplayRow) bool :=
  transaction (
    modify (filter (λ r, (timestamp now <? fr_expires_at r)%Z = true));;
    rows ← get;
    lift (helper_check (length rows <? max_entries) "package helper replay capacity is exhausted");;
    if existsb (conflicts row) rows then mret false
    else modify (λ rows, rows ++ [row]);; mret true).

(** The checks of [SignedFenceAuthorizer.authorize] before the transaction. *)
Definition grant_is_valid (g : SignedPackageHelperGrant) (now : Z) : result bool :=
  let c := sg_claims g in
  expires ← helper_instant (gc_expires_at c);
  issued ← helper_instant (gc_issued_at c);
  if (expires <=? now)%Z || (now <? issued)%Z then mret false else
  limit ← grant_limit (gc_issued_at c);
  mret ((expires <=? limit)%Z && eqb (sg_key_id (sg_signature g)) (key_id_of grant_key)
        && verify_signature grant_key (sg_value (sg_signature g)) (grant_signing_bytes c)).

(** [SignedFenceAuthorizer.authorize]. *)
Definition authorize (r : HelperRequest) (digest : string) (now : Z) : M (list ReplayRow) bool :=
  expected ← lift (body_digest (hr_body r));
  if negb (eqb digest expected) then mret false else
  valid ← lift (grant_is_valid (hr_grant r) now);
  if negb valid then mret false else consume (replay_row r digest) now max_replay_entries.

(** [Ed25519ReceiptVerifier.verify]. *)
Definition verify_receipt (r : SignedPackageObjectReceipt) : bool :=
  eqb (sg_key_id (re_signature r)) (key_id_of receipt_key)
  && verify_signature receipt_key (sg_value (re_signature r)) (receipt_signing_bytes (re_claims r)).

(** ** The helper *)

(** What is in the memory of the process, the replay database, and the launches with
    the time of their authorization. *)
Record helper_world := HelperWorld {
  hw_seen : gset (string * string); hw_replay : list ReplayRow; hw_launches : list (Z * HelperRequest)
}.
Definition set_hw_replay (rows : list ReplayRow) (w : helper_world) : helper_world := HelperWorld (hw_seen w) rows (hw_launches w).
Definition launched (key : string * string) (launch : Z * HelperRequest) (w : helper_world) : helper_world :=
  HelperWorld ({[key]} ∪ hw_seen w) (hw_replay w) (hw_launches w ++ [launch]).

(** What a call meets: the state file, the clock, what the launcher answers, and whether the
    response can be sent. *)
Record helper_inputs := HelperInputs { hi_slot : result string; hi_now : Z; hi_outcome : result json; hi_sent : bool }.

Record helper_process := HelperProcess { hc_agent_uid : Z; hc_slot_sha256 : string }.

(** The answer of the launcher. *)
Definition launcher_answer (r : HelperRequest) (digest : string) (outcome : result json) : result HelperResponse :=
  outcome ← match outcome with
            | Ok v => mret v
            | Err (Exn EHelperProtocol m) => helper_error m
            | Err _ => helper_error "package helper backend launch failed"
            end;
  match outcome with
  | JObj items =>
      helper_check (same_keys items ["status"; "evidence_digest"; "fence"]) "package helper result fields are invalid";;
      helper_check (py_eqb (field items "fence") (JStr (hb_fence (hr_body r)))) "package helper result fence does not match";;
      value_wrapped (make_response (JInt 1) (JStr (hb_request_id (hr_body r))) (field items "status") (field items "evidence_digest")
                       (field items "fence") (JStr digest)) "package helper result is invalid"
  | _ => helper_error "package helper result fields are invalid"
  end.

(** [PackageHelper.handle]. *)
Definition handle_request (p : helper_process) (peer_uid : Z) (raw : string) (i : helper_inputs) : M helper_world string :=
  lift (helper_check (peer_uid =? hc_agent_uid p)%Z "package helper peer is not the agent");;
  lift (verify_active_slot (hc_slot_sha256 p) (hi_slot i));;
  request ← lift (parse_helper_request raw);
  let b := hr_body request in
  let key := (hb_request_id b, hb_fence b) in
  w ← get;
  lift (helper_check (bool_decide (key ∉ hw_seen w)) "package helper request replay was rejected");;
  lift (helper_check (size (hw_seen w) <? max_replay_entries) "package helper replay state is full");;
  digest ← lift (body_digest b);
  authorized ← zoom hw_replay set_hw_replay (authorize request digest (hi_now i));
  lift (helper_check authorized "package helper operation fence is stale");;
  lift (helper_check (forallb verify_receipt (hb_receipts b)) "package helper object receipt is invalid");;
  modify (launched key (hi_now i, request));;
  response ← lift (launcher_answer request digest (hi_outcome i));
  lift (response_bytes response).

(** [serve_connection], of what the peer sends. *)
Definition serve_connection (p : helper_process) (peer_uid : result Z) (stream : string) (i : helper_inputs)
    : M helper_world string :=
  uid ← lift peer_uid;
  raw ← lift (receive_helper_message stream);
  response ← handle_request p uid raw i;
  framed ← lift (frame_helper_message response);
  lift (helper_check (hi_sent i) "package helper response deadline elapsed");;
  mret framed.

Record connection := Connection { cn_peer : result Z; cn_stream : string; cn_inputs : helper_inputs }.

(** [serve_listener], over the connections it accepts: the answers, as long as it runs. *)
Fixpoint serve_listener (p : helper_process) (connections : list connection) : M helper_world (list (option string)) :=
  match connections with
  | [] => mret []
  | c :: connections =>
      answer ← try_catch (response ← serve_connection p (cn_peer c) (cn_stream c) (cn_inputs c); mret (Some response))
                 (λ e, match exn_cls e with EHelperProtocol => mret None | _ => rethrow e end);
      answers ← serve_listener p connections;
      mret (answer :: answers)
  end.

(** A new process finds the replay database only. *)
Definition restart_helper (w : helper_world) : helper_world := HelperWorld ∅ (hw_replay w) (hw_launches w).

(** ** The client *)

(** [PackageHelperAuthorityVerifier.verify_request]; the binding was checked when the
    request was made, and is checked again. *)
Definition verify_request (r : HelperRequest) (now : Z) : result unit :=
  let c := sg_claims (hr_grant r) in
  let s := sg_signature (hr_grant r) in
  digest ← body_digest (hr_body r);
  helper_check (grant_binds c (hr_body r) digest) "package helper grant does not bind execution body";;
  helper_check (gc_issued_at c <=? timestamp now)%Z "package helper grant is not active";;
  helper_check (timestamp now <? gc_expires_at c)%Z "package helper grant has expired";;
  helper_check (eqb (sg_key_id s) (key_id_of grant_key)) "package helper grant key is invalid";;
  helper_check (verify_signature grant_key (sg_value s) (grant_signing_bytes c)) "package helper grant signature is invalid";;
  each (λ receipt,
    helper_check (eqb (sg_key_id (re_signature receipt)) (key_id_of receipt_key)) "package helper receipt key is invalid";;
    helper_check (verify_signature receipt_key (sg_value (re_signature receipt)) (receipt_signing_bytes (re_claims receipt)))
      "package helper receipt signature is invalid") (hb_receipts (hr_body r)).

(** The binding of a response to its request. *)
Definition response_binds (response : HelperResponse) (r : HelperRequest) (digest : string) : bool :=
  eqb (hp_request_id response) (hb_request_id (hr_body r)) && eqb (hp_fence response) (hb_fence (hr_body r))
  && eqb (hp_request_digest response) digest.

(** [UnixPackageHelperClient.submit]; [exchange] sends the frame of a request to the
    root-owned socket and receives the answer, or fails. *)
Definition submit_request (exchange : string → M helper_world string) (r : HelperRequest) (now : Z) : M helper_world HelperResponse :=
  lift (verify_request r now);;
  raw ← lift (request_bytes r);
  frame ← lift (frame_helper_message raw);
  answer ← try_catch (exchange frame ≫= λ stream, lift (receive_helper_message stream))
             (λ _, throw EHelperProtocol "package helper response deadline elapsed");
  response ← lift (value_wrapped (parse_response answer) "package helper response is invalid");
  digest ← lift (body_digest (hr_body r));
  lift (helper_check (response_binds response r digest) "package helper response binding is invalid");;
  mret response.

(** The socket: the helper serves one connection, and an exception of the helper closes
    it without an answer. *)
Definition helper_socket (p : helper_process) (peer_uid : Z) (i : helper_inputs) (frame : string) : M helper_world string :=
  serve_connection p (Ok peer_uid) frame i.

(** [PackageHelperAdapterExecutor.execute] after the request was built. *)
Definition execute_adapter (exchange : string → M helper_world string) (op : AdapterOperation) (inv : AdapterInvocation)
    (r : HelperRequest) (now : Z) : M helper_world HelperResponse :=
  let b := hr_body r in
  lift (helper_check (eqb (helper_value (hb_operation b)) (adapter_value op) && eqb (hb_node_id b) (inv_node_id inv)
                      && eqb (hb_job_id b) (inv_job_id inv) && eqb (hb_operation_id b) (inv_operation_id inv)
                      && (hb_attempt b =? inv_attempt inv)%Z && eqb (hb_fence b) (inv_fence inv)
                      && eqb (bi_release_digest (hb_invocation b)) (inv_release_digest inv)
                      && eqb (bi_generation (hb_invocation b)) (inv_generation inv))
          "package helper adapter request binding is invalid");;
  response ← submit_request exchange r now;
  digest ← lift (body_digest b);
  lift (helper_check (response_binds response r digest) "package helper adapter response binding is invalid");;
  mret response.
End helper.

(** ** The authority *)

Definition authority_check (b : bool) (m : string) : result unit := ensure b EHelperAuthority m.

(** [PackageHelperAuthorityService._check_attempt]. *)
Definition check_attempt (d : control_db) (node_id job_id operation_id : string) (attempt : Z) (fence release_digest serial : string)
    (now : Z) : result unit :=
  let current := find (λ p : string * AgentOperationAttempt,
                         eqb (at_operation_id p.2) operation_id && (at_attempt p.2 =? attempt)%Z) (map_to_list (t_attempts d)) in
  authority_check
    match t_operations d !! operation_id, current with
    | Some o, Some (token, a) =>
        eqb (so_node_id o) node_id && eqb (so_parent_job_id o) job_id && eqb (so_state o) "running"
        && (so_current_attempt o =? attempt)%Z && eqb (at_state a) "running" && eqb token fence
        && eqb (at_certificate_serial a) serial && (now <? at_lease_deadline a)%Z
        && match so_payload o with
           | JObj payload => eqb (lookup_key payload "release_digest") (Some (JStr release_digest))
           | _ => false
           end
    | _, _ => false
    end "package helper operation authority is stale".

Section authority.
Context (sign : string → string) (issuer_key : string).

(** [PackageHelperGrantIssuer.issue_grant]. *)
Definition issue_grant_claims (request_id node_id job_id operation_id : string) (attempt : Z) (fence release_digest generation : string)
    (operation : PackageHelperOperation) (request_digest : string) (expires_in now : Z) : result PackageHelperGrantClaims :=
  authority_check ((1 <=? expires_in)%Z && (expires_in <=? max_grant_seconds)%Z) "package helper grant expiry is invalid";;
  let issued := timestamp now in
  match make_grant [("schema_version", JInt 1); ("authority", JStr package_helper_authority); ("request_id", JStr request_id);
                    ("node_id", JStr node_id); ("job_id", JStr job_id); ("operation_id", JStr operation_id);
                    ("attempt", JInt attempt); ("fence", JStr fence); ("release_digest", JStr release_digest);
                    ("generation", JStr generation); ("request_digest", JStr request_digest); ("issued_at", JInt issued);
                    ("expires_at", JInt (issued + expires_in))] operation with
  | Ok c => mret c
  | Err _ => raise EHelperAuthority "package helper grant binding is invalid"
  end.

(** [PackageHelperAuthorityService.issue_grant]. *)
Definition issue_grant (d : control_db) (request_id node_id job_id operation_id : string) (attempt : Z)
    (fence release_digest generation : string) (operation : PackageHelperOperation) (request_digest serial : string)
    (expires_in now : Z) : result SignedPackageHelperGrant :=
  check_attempt d node_id job_id operation_id attempt fence release_digest serial now;;
  c ← issue_grant_claims request_id node_id job_id operation_id attempt fence release_digest generation operation request_digest
        expires_in now;
  mret (MkSignedGrant c (MkSignature (key_id_of issuer_key) (sign (grant_signing_bytes c)))).

(** [PackageObjectReceiptIssuer.issue_object_receipt]. *)
Definition issue_object_receipt (object_digest : string) (size : Z) : result SignedPackageObjectReceipt :=
  match make_receipt_claims [("schema_version", JInt 1); ("authority", JStr package_helper_authority);
                             ("object_digest", JStr object_digest); ("size", JInt size);
                             ("relative_name", JStr (receipt_name object_digest))] with
  | Ok c => mret (MkReceipt c (MkSignature (key_id_of issuer_key) (sign (receipt_signing_bytes c))))
  | Err _ => raise EHelperAuthority "package object receipt binding is invalid"
  end.

(** [_release_objects]; [read] is the target of the release, after the checks on its
    file. *)
Definition release_objects (read : string → result string) (release_digest : string) : result (list (string * Z)) :=
  authority_check (is_digest release_digest) "package release digest is invalid";;
  lock ← match (raw ← read release_digest;
                ensure (eqb (Sha256.hexdigest raw) release_digest) EValue "workload release target digest mismatch";;
                lock ← parse_release_lock raw;
                ensure (eqb (lock_canonical_bytes lock) raw) EValue "workload release target is not canonical";;
                mret lock) with
         | Ok lock => mret lock
         | Err _ => raise EHelperAuthority "package release target is unavailable"
         end;
  authority_check (eqb (lock_digest lock) release_digest) "package release target identity is invalid";;
  mret (map (λ c, (drop_chars 7 (cd_digest c), cd_size c)) (lock_components lock ++ [lock_adapter lock])).

(** The value of a key in the dictionary built from pairs: the last one. *)
Definition last_of (allowed : list (string * Z)) (digest : string) : option Z := lookup_key (rev allowed) digest.

(** The loop of [issue_receipts]. *)
Fixpoint issue_each (allowed : list (string * Z)) (seen : list string) (objects : list (string * Z))
    : result (list SignedPackageObjectReceipt) :=
  match objects with
  | [] => mret []
  | (digest, size) :: objects =>
      authority_check (negb (among digest seen) && bool_decide (last_of allowed digest = Some size))
        "package helper object is not authorized";;
      receipt ← issue_object_receipt digest size;
      receipts ← issue_each allowed (digest :: seen) objects;
      mret (receipt :: receipts)
  end.

(** [PackageHelperAuthorityService.issue_receipts]. *)
Definition issue_receipts (read : string → result string) (d : control_db) (node_id job_id operation_id : string) (attempt : Z)
    (fence release_digest : string) (objects : list (string * Z)) (serial : string) (now : Z)
    : result (list SignedPackageObjectReceipt) :=
  check_attempt d node_id job_id operation_id attempt fence release_digest serial now;;
  allowed ← release_objects read release_digest;
  authority_check ((1 <=? length objects) && (length objects <=? 256)) "package helper objects are invalid";;
  issue_each allowed [] objects.
End authority.

(** [descriptors] of [package_request_factory]. *)
Definition lock_objects (lock : PackageReleaseLock) : list (string * Z) :=
  map (λ c, (drop_chars 7 (cd_digest c), cd_size c)) (lock_components lock ++ [lock_adapter lock]).
