(* ===== verification/HelperFacts.v ===== *)
(** * What the package helper guarantees

    Every workload the helper starts has a grant that the control plane signed for
    exactly that request, in time and used once, and a signed receipt for each object it
    mounts. *)

From S2P Require Import Prelude Identifiers Canonical Documents JsonText Datetimes Contracts PackageEngine Protocol Messages.
From S2P Require Import OperationGraph Orchestration AgentTables AgentJobs Routes ReleaseLocks ReleaseLockFacts HelperMessages PackageHelper.

(** ** Requests *)

Lemma value_wrapped_ok {A} (r : result A) m a : value_wrapped r m = Ok a → r = Ok a.
Proof. unfold value_wrapped, helper_error. destruct r as [x|[c t]]; [done|]. destruct c; done. Qed.
Lemma backend_wrapped_ok {A} (r : result A) a : backend_wrapped r = Ok a → r = Ok a.
Proof. unfold backend_wrapped, helper_error. destruct r as [x|[c t]]; [done|]. destruct c; done. Qed.

Ltac helper_run H := unfold helper_check, helper_error, protocol_check, protocol_error in H; inv_run_all.

(** What a request promises about its body and its grant. *)
Record well_made (r : HelperRequest) : Prop := {
  wm_digest : body_digest (hr_body r) = Ok (gc_request_digest (sg_claims (hr_grant r)));
  wm_binds : grant_binds (sg_claims (hr_grant r)) (hr_body r) (gc_request_digest (sg_claims (hr_grant r))) = true;
  wm_mounts m : m ∈ bi_mounts (hb_invocation (hr_body r)) →
    ∃ receipt, receipt ∈ hb_receipts (hr_body r) ∧ rc_object_digest (re_claims receipt) = mo_object_digest m
}.

Lemma make_body_mounts document operation invocation receipts b : make_body document operation invocation receipts = Ok b →
  hb_invocation b = invocation ∧ hb_receipts b = receipts ∧
  ∀ m, m ∈ bi_mounts invocation → ∃ receipt, receipt ∈ receipts ∧ rc_object_digest (re_claims receipt) = mo_object_digest m.
Proof.
  unfold make_body. intros H. helper_run H. subst b. cbn [hb_invocation hb_receipts]. split_and!; [done..|]. intros m Hm.
  match goal with E : forallb _ _ = true |- _ => rewrite forallb_forall in E; apply list_elem_of_In in Hm; specialize (E _ Hm);
    apply among_true, list_elem_of_fmap in E as (receipt & -> & Hr) end. eauto.
Qed.

Lemma make_request_well_made b g r :
  (∀ m, m ∈ bi_mounts (hb_invocation b) → ∃ receipt, receipt ∈ hb_receipts b ∧ rc_object_digest (re_claims receipt) = mo_object_digest m) →
  make_request b g = Ok r → well_made r ∧ hr_body r = b ∧ hr_grant r = g.
Proof.
  unfold make_request. intros Hm H. helper_run H. subst r. split; [|done].
  assert (gc_request_digest (sg_claims g) = x) as Hd.
  { match goal with E : grant_binds _ _ _ = true |- _ => unfold grant_binds in E; bool_facts; done end. }
  split; cbn [hr_body hr_grant]; rewrite ?Hd; done.
Qed.

Lemma parse_well_made raw r : parse_helper_request raw = Ok r → well_made r.
Proof.
  unfold parse_helper_request, parse_body. intros H. inv_run_all.
  destruct x7 as [operation receipts]. apply make_body_mounts in H4 as (Hi & Hr & Hm).
  eapply make_request_well_made in H as (Hw & _ & _); [done|]. by rewrite Hi, Hr.
Qed.

Lemma make_grant_times document operation c : make_grant document operation = Ok c →
  (1 ≤ gc_issued_at c)%Z ∧ (1 ≤ gc_expires_at c - gc_issued_at c ≤ max_grant_seconds)%Z.
Proof.
  unfold make_grant, positive_integer, protocol_check. intros H. inv_run_all. subst c. cbn [gc_issued_at gc_expires_at].
  assert (∀ lo hi m v n, bounded_integer lo hi m v = Ok n → (lo ≤ n ≤ hi)%Z) as Hb.
  { intros lo hi m v n Hn. unfold bounded_integer, protocol_check, protocol_error in Hn. destruct v; inv_run_all; try done. subst. bool_facts. lia. }
  repeat match goal with E : bounded_integer _ _ _ _ = Ok _ |- _ => apply Hb in E end. bool_facts. lia.
Qed.

Lemma parse_times raw r : parse_helper_request raw = Ok r →
  (1 ≤ gc_issued_at (sg_claims (hr_grant r)))%Z ∧
  (1 ≤ gc_expires_at (sg_claims (hr_grant r)) - gc_issued_at (sg_claims (hr_grant r)) ≤ max_grant_seconds)%Z.
Proof.
  unfold parse_helper_request. intros H. inv_run_all. unfold make_request in H. inv_run_all. subst r. cbn [hr_grant].
  match goal with E : value_wrapped _ _ = Ok _ |- _ => apply value_wrapped_ok in E; unfold parse_signed_grant, parse_grant_claims in E end.
  inv_run_all. subst. cbn [sg_claims]. destruct (helper_operation _); [|done]. by eapply make_grant_times.
Qed.

(** ** Authorization *)

(** Every outcome of a run, one branch at a time. *)
Lemma run_bind {S A B} (m : M S A) (f : A → M S B) s res s' : (m ≫= f) s = (res, s') →
  (∃ e, m s = (Err e, s') ∧ res = Err e) ∨ ∃ a s1, m s = (Ok a, s1) ∧ f a s1 = (res, s').
Proof. unfold mbind, M_bind. destruct (m s) as [[a|e] s1]; intros H; simplify_eq; eauto 10. Qed.
Lemma run_lift_bind {S A B} (r : result A) (f : A → M S B) s res s' : (lift r ≫= f) s = (res, s') →
  (∃ e, r = Err e ∧ s' = s ∧ res = Err e) ∨ ∃ a, r = Ok a ∧ f a s = (res, s').
Proof. unfold mbind, M_bind, lift. destruct r; intros H; simplify_eq; eauto 10. Qed.

Section facts.
Context `{HelperKeys}.

Definition live (now : Z) (rows : list ReplayRow) : list ReplayRow := filter (λ r, (timestamp now <? fr_expires_at r)%Z = true) rows.

Lemma live_idemp t t' rows r : (t ≤ t')%Z → r ∈ rows → (timestamp t' < fr_expires_at r)%Z → r ∈ live t rows.
Proof.
  intros Ht Hr Hlt. apply list_elem_of_filter. split; [|done]. apply Z.ltb_lt.
  assert (timestamp t ≤ timestamp t')%Z; [|lia]. unfold timestamp. by apply Z.quot_le_mono.
Qed.

Lemma consume_cases row now limit rows res rows' : consume row now limit rows = (res, rows') →
  (rows' = rows ∧ ∃ m, res = Err (Exn EHelperProtocol m)) ∨
  (rows' = live now rows ∧ res = Ok false ∧ existsb (conflicts row) (live now rows) = true) ∨
  (rows' = live now rows ++ [row] ∧ res = Ok true ∧ existsb (conflicts row) (live now rows) = false).
Proof.
  unfold consume, transaction. unfold mbind, M_bind, modify, get. cbv beta iota zeta. fold (live now rows).
  unfold lift, helper_check, ensure.
  destruct (length (live now rows) <? limit); [|intros [= <- <-]; left; eauto].
  destruct (existsb (conflicts row) (live now rows)) eqn:E; intros [= <- <-]; [right; left|right; right]; done.
Qed.

Lemma authorize_cases r digest now rows res rows' : authorize r digest now rows = (res, rows') →
  rows' = rows ∧ res ≠ Ok true ∨
  rows' = live now rows ∧ res = Ok false ∧ existsb (conflicts (replay_row r digest)) (live now rows) = true ∨
  rows' = live now rows ++ [replay_row r digest] ∧ res = Ok true ∧ existsb (conflicts (replay_row r digest)) (live now rows) = false
    ∧ body_digest (hr_body r) = Ok digest ∧ grant_is_valid (hr_grant r) now = Ok true.
Proof.
  unfold authorize. intros Hrun.
  apply run_lift_bind in Hrun as [(e & He & -> & ->)|(expected & Hd & Hrun)]; [left; done|].
  destruct (negb (eqb digest expected)) eqn:E; [injection Hrun as <- <-; left; done|]. bool_facts. subst expected.
  apply run_lift_bind in Hrun as [(e & He & -> & ->)|(valid & Hv & Hrun)]; [left; done|].
  destruct valid; [|injection Hrun as <- <-; left; done].
  apply consume_cases in Hrun as [(-> & m & ->)|[(-> & -> & Hc)|(-> & -> & Hc)]]; [left; done|right; left; done|right; right; done].
Qed.

(** ** Launches *)

(** What was checked before a launch. *)
Record authorized (t : Z) (r : HelperRequest) : Prop := {
  au_made : well_made r;
  au_issued : (1 ≤ gc_issued_at (sg_claims (hr_grant r)))%Z;
  au_time : grant_is_valid (hr_grant r) t = Ok true;
  au_receipts receipt : receipt ∈ hb_receipts (hr_body r) → verify_receipt receipt = true
}.

Definition use_of (r : HelperRequest) : ReplayRow := replay_row r (gc_request_digest (sg_claims (hr_grant r))).

(** What a call does: it launches at most the request it was given, and forgets no use
    that has not expired. *)
Definition remembers (now : Z) (w w' : helper_world) : Prop := ∀ row, row ∈ live now (hw_replay w) → row ∈ hw_replay w'.

Lemma remembers_refl now w : remembers now w w.
Proof. intros row Hrow. by apply list_elem_of_filter in Hrow as [_ Hrow]. Qed.

Lemma handle_cases p uid raw i w res w' : handle_request p uid raw i w = (res, w') →
  hw_launches w' = hw_launches w ∧ remembers (hi_now i) w w' ∧ (∀ s, res ≠ Ok s) ∨
  ∃ r, parse_helper_request raw = Ok r ∧ hw_launches w' = hw_launches w ++ [(hi_now i, r)] ∧ authorized (hi_now i) r ∧
    hw_replay w' = live (hi_now i) (hw_replay w) ++ [use_of r] ∧
    existsb (conflicts (use_of r)) (live (hi_now i) (hw_replay w)) = false.
Proof.
  unfold handle_request. intros Hrun.
  apply run_lift_bind in Hrun as [(e & He & -> & ->)|([] & _ & Hrun)]; [left; by split_and!; [|apply remembers_refl|]|].
  apply run_lift_bind in Hrun as [(e & He & -> & ->)|([] & _ & Hrun)]; [left; by split_and!; [|apply remembers_refl|]|].
  apply run_lift_bind in Hrun as [(e & He & -> & ->)|(r & Hr & Hrun)]; [left; by split_and!; [|apply remembers_refl|]|].
  unfold get in Hrun. unfold mbind at 1, M_bind at 1 in Hrun. cbv beta iota zeta in Hrun.
  apply run_lift_bind in Hrun as [(e & He & -> & ->)|([] & _ & Hrun)]; [left; by split_and!; [|apply remembers_refl|]|].
  apply run_lift_bind in Hrun as [(e & He & -> & ->)|([] & _ & Hrun)]; [left; by split_and!; [|apply remembers_refl|]|].
  apply run_lift_bind in Hrun as [(e & He & -> & ->)|(digest & Hd & Hrun)]; [left; by split_and!; [|apply remembers_refl|]|].
  pose proof (parse_well_made _ _ Hr) as Hwm. rewrite (wm_digest _ Hwm) in Hd. injection Hd as <-.
  unfold mbind at 1, M_bind at 1, zoom in Hrun. fold (use_of r) in Hrun.
  destruct (authorize r _ (hi_now i) (hw_replay w)) as [ra rows] eqn:Ha. apply authorize_cases in Ha. fold (use_of r) in Ha.
  assert (remembers (hi_now i) w (set_hw_replay rows w)) as Hrem.
  { destruct Ha as [(-> & _)|[(-> & _)|(-> & _)]]; [exact (remembers_refl (hi_now i) w)|by intros row Hrow|].
    intros row Hrow. cbn. apply elem_of_app. by left. }
  destruct ra as [[]|e]; [|injection Hrun as <- <-; by left|injection Hrun as <- <-; by left].
  destruct Ha as [(_ & [])|[(_ & [=] & _)|(-> & _ & Hc & _ & Hv)]]; [done|].
  unfold mbind at 1, M_bind at 1 in Hrun. cbn [lift helper_check ensure] in Hrun.
  apply run_lift_bind in Hrun as [(e & He & -> & ->)|([] & Hreceipts & Hrun)]; [by left|].
  apply ensure_ok in Hreceipts. rewrite forallb_forall in Hreceipts.
  unfold mbind at 1, M_bind at 1, modify in Hrun. right. exists r. split; [done|].
  assert (w' = launched (hb_request_id (hr_body r), hb_fence (hr_body r)) (hi_now i, r) (set_hw_replay (live (hi_now i) (hw_replay w) ++ [use_of r]) w)) as ->.
  { apply run_lift_bind in Hrun as [(e & He & -> & _)|(response & _ & Hrun)]; [done|]. by injection Hrun as _ <-. }
  split_and!; [done| |done|done]. split; [done|by eapply parse_times|done|]. intros receipt Hre. by apply Hreceipts, list_elem_of_In.
Qed.

Lemma serve_cases p peer stream i w res w' : serve_connection p peer stream i w = (res, w') →
  hw_launches w' = hw_launches w ∧ remembers (hi_now i) w w' ∨
  ∃ raw r, parse_helper_request raw = Ok r ∧ hw_launches w' = hw_launches w ++ [(hi_now i, r)] ∧ authorized (hi_now i) r ∧
    hw_replay w' = live (hi_now i) (hw_replay w) ++ [use_of r] ∧
    existsb (conflicts (use_of r)) (live (hi_now i) (hw_replay w)) = false.
Proof.
  unfold serve_connection. intros Hrun.
  apply run_lift_bind in Hrun as [(e & He & -> & ->)|(uid & _ & Hrun)]; [left; by split; [|apply remembers_refl]|].
  apply run_lift_bind in Hrun as [(e & He & -> & ->)|(raw & _ & Hrun)]; [left; by split; [|apply remembers_refl]|].
  assert (∃ res1, handle_request p uid raw i w = (res1, w')) as (res1 & Hh).
  { apply run_bind in Hrun as [(e & Hh & _)|(response & w1 & Hh & Hrun)]; [by eexists|]. exists (Ok response).
    apply run_lift_bind in Hrun as [(? & _ & -> & _)|(framed & _ & Hrun)]; [done|].
    apply run_lift_bind in Hrun as [(? & _ & -> & _)|(? & _ & Hrun)]; [done|]. by injection Hrun as _ <-. }
  apply handle_cases in Hh as [(H1 & H2 & _)|(r & Hr)]; [by left|right; eauto].
Qed.

(** ** The helper over time *)

(** Connections are served while the clock does not go back, and the process may be
    started again at any time. *)
Inductive helper_reaches : Z → helper_world → Prop :=
| reach_start t : helper_reaches t (HelperWorld ∅ [] [])
| reach_serve t w p peer stream i res w' : helper_reaches t w → (t ≤ hi_now i)%Z →
    serve_connection p peer stream i w = (res, w') → helper_reaches (hi_now i) w'
| reach_restart t w : helper_reaches t w → helper_reaches t (restart_helper w).

(** What can follow in such a run. *)
Inductive helper_continues (t : Z) (w : helper_world) : Z → helper_world → Prop :=
| continues_here : helper_continues t w t w
| continues_serve t' w' p peer stream i res w'' : helper_continues t w t' w' → (t' ≤ hi_now i)%Z →
    serve_connection p peer stream i w' = (res, w'') → helper_continues t w (hi_now i) w''
| continues_restart t' w' : helper_continues t w t' w' → helper_continues t w t' (restart_helper w').

Lemma reaches_continues t w t' w' : helper_reaches t w → helper_continues t w t' w' → helper_reaches t' w'.
Proof. intros Hr. induction 1; [done|by eapply reach_serve|by apply reach_restart]. Qed.

Lemma continues_launches t w t' w' : helper_continues t w t' w' → ∀ l, l ∈ hw_launches w → l ∈ hw_launches w'.
Proof.
  induction 1 as [|t' w' p peer stream i res w'' _ IH _ Hrun|]; [done| |done]. intros l Hl%IH.
  apply serve_cases in Hrun as [(-> & _)|(raw & r & _ & -> & _)]; [done|]. apply elem_of_app. by left.
Qed.

Definition grant_expires (r : HelperRequest) : Z := gc_expires_at (sg_claims (hr_grant r)).

(** Uses that the replay database does not tell apart are separated by the expiry of the
    first grant. *)
Definition used_once (launches : list (Z * HelperRequest)) : Prop :=
  ∀ i j ti ri tj rj, i < j → launches !! i = Some (ti, ri) → launches !! j = Some (tj, rj) →
    conflicts (use_of rj) (use_of ri) = true → (grant_expires ri ≤ timestamp tj)%Z.

Record helper_inv (t : Z) (w : helper_world) : Prop := {
  hv_authorized t0 r : (t0, r) ∈ hw_launches w → (t0 ≤ t)%Z ∧ authorized t0 r;
  hv_known t0 r : (t0, r) ∈ hw_launches w → use_of r ∈ hw_replay w ∨ (grant_expires r ≤ timestamp t)%Z;
  hv_once : used_once (hw_launches w)
}.

Lemma timestamp_mono t t' : (t ≤ t')%Z → (timestamp t ≤ timestamp t')%Z.
Proof. intros Ht. unfold timestamp. by apply Z.quot_le_mono. Qed.

(** A use of a past launch is live, or has expired. *)
Lemma known_live t now w t0 r : helper_inv t w → (t ≤ now)%Z → (t0, r) ∈ hw_launches w →
  use_of r ∈ live now (hw_replay w) ∨ (grant_expires r ≤ timestamp now)%Z.
Proof.
  intros Hinv Ht Hin. destruct (Z.leb_spec (grant_expires r) (timestamp now)) as [Hle|Hlt]; [by right|]. left.
  destruct (hv_known _ _ Hinv _ _ Hin) as [Hrow|Hexp]; [|pose proof (timestamp_mono _ _ Ht); lia].
  apply list_elem_of_filter. split; [|done]. by apply Z.ltb_lt.
Qed.

Lemma used_once_snoc launches now r : used_once launches →
  (∀ ti ri, (ti, ri) ∈ launches → conflicts (use_of r) (use_of ri) = true → (grant_expires ri ≤ timestamp now)%Z) →
  used_once (launches ++ [(now, r)]).
Proof.
  intros Honce Hnew i j ti ri tj rj Hij Hi Hj. assert (j ≤ length launches) as Hlen.
  { apply lookup_lt_Some in Hj. rewrite length_app in Hj. cbn in Hj. lia. }
  rewrite lookup_app_l in Hi by lia. destruct (decide (j = length launches)) as [->|].
  - rewrite list_lookup_middle in Hj by done. injection Hj as <- <-. by eapply Hnew, list_elem_of_lookup_2.
  - rewrite lookup_app_l in Hj by lia. by eapply Honce.
Qed.

Lemma helper_reaches_inv t w : helper_reaches t w → helper_inv t w.
Proof.
  induction 1 as [t|t w p peer stream i res w' _ IH Ht Hrun|t w _ IH].
  - split; [by intros ?? ?%elem_of_nil..|]. by intros ????????.
  - apply serve_cases in Hrun as [(Hl & Hrem)|(raw & r & _ & Hl & Hauth & Hrows & Hc)].
    + split; rewrite ?Hl; [|..|apply IH].
      * intros t0 r Hin. destruct (hv_authorized _ _ IH _ _ Hin). split; [lia|done].
      * intros t0 r Hin. destruct (known_live _ _ _ _ _ IH Ht Hin) as [?|?]; [left; by apply Hrem|by right].
    + split; rewrite Hl.
      * intros t0 r0 [Hin|Hin]%elem_of_app; [destruct (hv_authorized _ _ IH _ _ Hin); split; [lia|done]|].
        apply list_elem_of_singleton in Hin as [= -> ->]. split; [lia|done].
      * intros t0 r0 [Hin|Hin]%elem_of_app; rewrite Hrows.
        -- destruct (known_live _ _ _ _ _ IH Ht Hin) as [?|?]; [left; apply elem_of_app; by left|by right].
        -- apply list_elem_of_singleton in Hin as [= -> ->]. left. apply elem_of_app. right. by left.
      * apply used_once_snoc; [apply IH|]. intros ti ri Hin Hconf. destruct (known_live _ _ _ _ _ IH Ht Hin) as [Hlive|?]; [|done].
        exfalso. assert (existsb (conflicts (use_of r)) (live (hi_now i) (hw_replay w)) = true) as E; [|congruence].
        apply existsb_exists. exists (use_of ri). split; [by apply list_elem_of_In|done].
  - split; apply IH.
Qed.

(** ** The guarantee *)

Lemma valid_grant g t : grant_is_valid g t = Ok true →
  verify_signature grant_key (sg_value (sg_signature g)) (grant_signing_bytes (sg_claims g)) = true ∧
  (gc_issued_at (sg_claims g) * microsecond ≤ t < gc_expires_at (sg_claims g) * microsecond)%Z ∧
  (gc_expires_at (sg_claims g) ≤ gc_issued_at (sg_claims g) + max_grant_seconds)%Z.
Proof.
  unfold grant_is_valid, grant_limit, helper_instant, fromtimestamp. intros Hv. apply result_bind_ok in Hv as (expires & He & Hv).
  destruct (_ && _); [|done]. injection He as <-. apply result_bind_ok in Hv as (issued & Hi & Hv).
  destruct (_ && _); [|done]. injection Hi as <-. destruct (_ || _) eqn:E; [done|]. apply result_bind_ok in Hv as (limit & Hl & Hv).
  destruct (_ && _); [|done]. injection Hl as <-. injection Hv as Hv. bool_facts. unfold microsecond in *. split_and!; [done|lia..].
Qed.

Lemma before_expiry t e : (1 ≤ e)%Z → (t < e * microsecond)%Z → (timestamp t < e)%Z.
Proof.
  unfold timestamp. change microsecond with 1000000%Z. intros He Ht. destruct (Z.leb_spec 0 t) as [H0|H0].
  - apply Z.quot_lt_upper_bound; lia.
  - assert (Z.quot t 1000000 ≤ Z.quot 0 1000000)%Z as Hq by (apply Z.quot_le_mono; lia). rewrite Z.quot_0_l in Hq by lia. lia.
Qed.

(** What a launch was checked for, in the terms of the control plane. *)
Record granted (t : Z) (r : HelperRequest) : Prop := {
  gr_signed : verify_signature grant_key (sg_value (sg_signature (hr_grant r))) (grant_signing_bytes (sg_claims (hr_grant r))) = true;
  gr_binds : grant_binds (sg_claims (hr_grant r)) (hr_body r) (gc_request_digest (sg_claims (hr_grant r))) = true;
  gr_digest : body_digest (hr_body r) = Ok (gc_request_digest (sg_claims (hr_grant r)));
  gr_time : (gc_issued_at (sg_claims (hr_grant r)) * microsecond ≤ t < grant_expires r * microsecond)%Z;
  gr_short : (grant_expires r ≤ gc_issued_at (sg_claims (hr_grant r)) + max_grant_seconds)%Z;
  gr_mounts m : m ∈ bi_mounts (hb_invocation (hr_body r)) → ∃ receipt, receipt ∈ hb_receipts (hr_body r) ∧
    rc_object_digest (re_claims receipt) = mo_object_digest m ∧
    verify_signature receipt_key (sg_value (re_signature receipt)) (receipt_signing_bytes (re_claims receipt)) = true
}.

Lemma authorized_granted t r : authorized t r → granted t r.
Proof.
  intros [Hm _ Hv Hr]. destruct (valid_grant _ _ Hv) as (H1 & H2 & H3). split; [done|apply Hm..|done|done|].
  intros m (receipt & Hin & Hd)%(wm_mounts _ Hm). exists receipt. split_and!; [done..|]. specialize (Hr _ Hin).
  unfold verify_receipt in Hr. by apply andb_true_iff in Hr as [_ Hr].
Qed.

Lemma conflicts_refl row : conflicts row row = true.
Proof. unfold conflicts. by rewrite eqb_refl. Qed.

Lemma launched_once t w : helper_reaches t w → NoDup (map snd (hw_launches w)).
Proof.
  intros Hinv%helper_reaches_inv. apply NoDup_alt. intros i j r Hi Hj.
  assert (∀ i j, i < j → map snd (hw_launches w) !! i = Some r → map snd (hw_launches w) !! j = Some r → False) as Hlt.
  { clear i j Hi Hj. intros i j Hij Hi Hj. rewrite list_lookup_fmap in Hi, Hj.
    apply fmap_Some in Hi as ([ti ri] & Hi & ->). apply fmap_Some in Hj as ([tj rj] & Hj & Heq). cbn in Heq. subst rj.
    pose proof (hv_once _ _ Hinv _ _ _ _ _ _ Hij Hi Hj (conflicts_refl _)) as Hexp.
    destruct (hv_authorized _ _ Hinv tj ri) as [_ Hauth]; [by eapply list_elem_of_lookup_2|].
    pose proof (gr_time _ _ (authorized_granted _ _ Hauth)) as [H1 H2]. pose proof (au_issued _ _ Hauth).
    assert (timestamp tj < grant_expires ri)%Z; [|lia]. apply before_expiry; [|done].
    unfold microsecond in *. lia. }
  destruct (Nat.lt_trichotomy i j) as [?|[?|?]]; [exfalso|done|exfalso]; eauto.
Qed.

(** C24. Whatever the agent sends and however often the helper is started again, while its
    clock does not go back: every workload it launched had a grant with a signature of the
    control plane over claims that name exactly this request, its digest included, inside
    the lifetime of the grant, which is at most fifteen minutes, and a signed receipt for
    every object it mounts; no request was launched twice, and two launches under one
    request id, or one attempt and fence, are separated by the expiry of the first grant. *)
Theorem launches_are_granted_once t w : helper_reaches t w →
  (∀ t0 r, (t0, r) ∈ hw_launches w → (t0 ≤ t)%Z ∧ granted t0 r) ∧
  NoDup (map snd (hw_launches w)) ∧ used_once (hw_launches w).
Proof.
  intros Hreach. pose proof (helper_reaches_inv _ _ Hreach) as Hinv. split_and!; [|by eapply launched_once|apply Hinv].
  intros t0 r Hin. destruct (hv_authorized _ _ Hinv _ _ Hin). split; [done|by apply authorized_granted].
Qed.
End facts.

