(* ===== verification/HelperCalls.v ===== *)
(** * Calls of the package helper

    The agent calls the helper through a socket: a frame of a request goes in, a frame of
    a response comes back. What one adapter call leaves behind decides about the next. *)

From S2P Require Import Prelude Identifiers Canonical Documents JsonText Datetimes Contracts PackageEngine Protocol Messages.
From S2P Require Import OperationGraph Orchestration AgentTables AgentJobs Routes ReleaseLocks ReleaseLockFacts HelperMessages PackageHelper HelperFacts.

(** ** Frames *)

Lemma byte_value n : Z.of_N (code (byte_of n)) = (n mod 256)%Z.
Proof.
  unfold byte_of, code. rewrite Ascii.N_ascii_embedding.
  - rewrite Z2N.id; [done|]. apply Z.mod_pos_bound. lia.
  - pose proof (Z.mod_pos_bound n 256). lia.
Qed.

Lemma unpack_pack n : (0 ≤ n < 2 ^ 32)%Z →
  unpack_size (byte_of (n / 2 ^ 24)) (byte_of (n / 2 ^ 16)) (byte_of (n / 2 ^ 8)) (byte_of n) = n.
Proof.
  intros Hn. unfold unpack_size. rewrite !byte_value. change (2 ^ 24)%Z with 16777216%Z. change (2 ^ 16)%Z with 65536%Z.
  change (2 ^ 8)%Z with 256%Z. change (2 ^ 32)%Z with 4294967296%Z in Hn. Z.div_mod_to_equations. lia.
Qed.

Lemma substring_all s : String.substring 0 (String.length s) s = s.
Proof. induction s as [|c s IH]; cbn; [done|]. by rewrite IH. Qed.

Lemma string_cons_app c s t : String c s +:+ t = String c (s +:+ t).
Proof. reflexivity. Qed.

Lemma frame_received raw frame : frame_helper_message raw = Ok frame → receive_helper_message frame = Ok raw.
Proof.
  unfold frame_helper_message, helper_check. intros H. inv_run_all. subst frame. unfold helper_fits, max_helper_message_bytes in *. bool_facts.
  unfold pack_size. rewrite !string_cons_app. change (EmptyString +:+ raw) with raw. unfold receive_helper_message, helper_check. rewrite unpack_pack by lia.
  unfold max_helper_message_bytes, ensure.
  rewrite (proj2 (andb_true_iff _ _)) by (split; apply Z.leb_le; lia). cbn [mbind result_bind].
  rewrite Z.leb_refl. cbn [mbind result_bind]. rewrite Nat2Z.id. by rewrite substring_all.
Qed.

(** ** Requests on the wire *)

#[export] Instance helper_hook_laws : HookLaws helper_hook.
Proof.
  split; unfold object_of_pairs, helper_hook; intros pairs.
  - by destruct (first_duplicate [] pairs).
  - intros Hnd. destruct (first_duplicate [] pairs) eqn:E; [|done]. exfalso.
    assert (first_duplicate [] pairs = None) by (apply first_duplicate_none; set_solver). congruence.
  - destruct (first_duplicate [] pairs) eqn:E; [done|]. intros items [= <-] Hall. apply object_dict; [|done].
    by apply first_duplicate_none in E as [].
Qed.

Lemma array_dict {A} (f : A → json) l : (∀ x, dict_keys (f x) = true) → dict_keys (JArr (map f l)) = true.
Proof. intros Hf. apply dict_keys_array, Forall_fmap, Forall_true. done. Qed.

Lemma signed_grant_dict g : dict_keys (signed_grant_json g) = true.
Proof. vm_compute. reflexivity. Qed.
Lemma receipt_dict r : dict_keys (receipt_json r) = true.
Proof. vm_compute. reflexivity. Qed.

(** The fields of an object that was opened. *)
Ltac opened lemma Hf := pose proof lemma as Hf; specialize (Hf ltac:(literal_keys)).
Ltac dict_items := apply object_dict; [literal_keys|]; repeat first [apply Forall_cons; split; cbn [snd]|apply Forall_nil]; try done.

Lemma invocation_dict i : dict_keys (invocation_json i) = true.
Proof.
  unfold invocation_json. apply object_dict.
  - destruct (bi_part i); literal_keys.
  - apply Forall_app. split.
    + repeat first [apply Forall_cons; split; cbn [snd]|apply Forall_nil]; try done; try apply strings_dict.
      * by apply array_dict.
      * dict_items. apply strings_dict.
    + destruct (bi_part i) as [bundle digest|runtime|]; cbn [part_items]; repeat constructor.
Qed.

Lemma body_dict b : dict_keys (body_json b) = true.
Proof. unfold body_json. dict_items; first [apply invocation_dict|by apply array_dict, receipt_dict|by apply array_dict]. Qed.
Lemma request_dict r : dict_keys (request_json r) = true.
Proof. unfold request_json. dict_items; first [apply body_dict|apply signed_grant_dict]. Qed.

(** The canonical text ignores the order of keys. *)
Lemma canonical_sort v : dict_keys v = true → canonical_utf8 (sort_json v) = canonical_utf8 v.
Proof.
  induction v as [| | | |l IH|l IH] using json_nested_ind; try done.
  - rewrite dict_keys_array. intros Hl. rewrite sort_array.
    change (canonical_utf8 (JArr (map sort_json l))) with ("[" +:+ join "," (map canonical_utf8 (map sort_json l)) +:+ "]").
    change (canonical_utf8 (JArr l)) with ("[" +:+ join "," (map canonical_utf8 l) +:+ "]"). do 3 f_equal. rewrite map_map.
    apply map_ext_in. intros v Hv%list_elem_of_In. rewrite Forall_forall in IH, Hl. auto.
  - rewrite dict_keys_object. intros [Hnd Hl]. rewrite sort_json_object, !canonical_object by (try apply sorted_keys; done).
    do 3 f_equal.
    rewrite (key_sort_unique (merge_sort key_le (map (on_values sort_json) l)) (map (on_values sort_json) l));
      [|by apply sorted_keys|by rewrite key_sort_perm]. rewrite <- key_sort_map, map_map by done.
    apply map_ext_in. intros [key v] Hin%list_elem_of_In. rewrite key_sort_perm in Hin. unfold item_text, on_values. cbn [fst snd].
    rewrite Forall_forall in IH, Hl. unfold json_item. cbn [fst snd]. do 2 f_equal. apply (IH _ Hin), (Hl _ Hin).
Qed.

(** The document of canonical bytes. *)
Lemma parse_canonical_bytes v raw name items : dict_keys v = true → canonical_helper_document v = Ok raw → sort_json v = JObj items →
  parse_canonical raw name = Ok (JObj items).
Proof.
  intros Hd Hraw Hitems. unfold canonical_helper_document, helper_check in Hraw. inv_run_all. subst raw.
  destruct (canonical_opens v) as (c & t & Hc & _).
  assert ((1 <=? Z.of_nat (String.length (canonical_utf8 v)))%Z = true) as Hlen by (apply Z.leb_le; rewrite Hc; cbn [String.length]; lia).
  unfold parse_canonical, helper_fits, helper_check. rewrite (loads_with_canonical _ Hd), Hitems, Hlen, H.
  cbn [andb ensure mret result_ret mbind result_bind]. unfold canonical_helper_document, helper_check.
  rewrite <- Hitems, canonical_sort, H by done. cbn [ensure mret result_ret mbind result_bind]. by rewrite eqb_refl.
Qed.

(** ** Identities of a request that is read *)

Lemma text_of_value e p m v t : typed_text e p m v = Ok t → v = JStr t.
Proof. unfold typed_text. destruct v; intros H; inv_run_all; try done. by subst. Qed.
Lemma integer_of_value e lo hi m v n : integer_of e lo hi m v = Ok n → v = JInt n.
Proof. unfold integer_of. destruct v; intros H; inv_run_all; try done. by subst. Qed.
Lemma bounded_integer_value lo hi m v n : bounded_integer lo hi m v = Ok n → v = JInt n.
Proof. unfold bounded_integer, protocol_check, protocol_error. destruct v; intros H; inv_run_all; try done. by subst. Qed.

Lemma make_body_values document o invocation receipts b : make_body document o invocation receipts = Ok b →
  field document "request_id" = JStr (hb_request_id b) ∧ field document "operation_id" = JStr (hb_operation_id b) ∧
  field document "attempt" = JInt (hb_attempt b) ∧ field document "fence" = JStr (hb_fence b).
Proof.
  unfold make_body, helper_check, helper_uuid. intros H. inv_run_all. subst b. cbn [hb_request_id hb_operation_id hb_attempt hb_fence].
  repeat match goal with
  | E : typed_text _ _ _ _ = Ok _ |- _ => apply text_of_value in E
  | E : integer_of _ _ _ _ _ = Ok _ |- _ => apply integer_of_value in E end. done.
Qed.

Lemma make_grant_expiry document o c : make_grant document o = Ok c → field document "expires_at" = JInt (gc_expires_at c).
Proof.
  unfold make_grant, positive_integer, protocol_check. intros H. inv_run_all. subst c. cbn [gc_expires_at].
  match goal with E : bounded_integer _ _ _ (field document "expires_at") = Ok _ |- _ => by apply bounded_integer_value in E end.
Qed.

(** An object that was sorted and opened. *)
Lemma read_field e items fields name read : object_of e (sort_json (JObj items)) fields name = Ok read → NoDup items.*1 →
  ∀ key, field read key = sort_json (field items key).
Proof. rewrite sort_json_object. unfold object_of. intros H Hnd key. inv_run_all. subst read. by apply field_sorted. Qed.
Lemma mapped_field items name read : lock_mapping (sort_json (JObj items)) name = Ok read → NoDup items.*1 →
  ∀ key, field read key = sort_json (field items key).
Proof. rewrite sort_json_object. intros [= <-] Hnd key. by apply field_sorted. Qed.

Lemma read_body b b' : parse_body (sort_json (body_json b)) = Ok b' →
  hb_request_id b' = hb_request_id b ∧ hb_operation_id b' = hb_operation_id b ∧ hb_attempt b' = hb_attempt b ∧ hb_fence b' = hb_fence b.
Proof.
  unfold parse_body, body_json. intros H. apply result_bind_ok in H as (document & Hd & H). inv_run_all.
  destruct x1 as [o receipts]. apply make_body_values in H as (E1 & E2 & E3 & E4).
  opened (read_field _ _ _ _ _ Hd) Hf. rewrite Hf in E1, E2, E3, E4. vm_compute in E1, E2, E3, E4. by simplify_eq.
Qed.

Lemma read_grant g g' : parse_signed_grant (sort_json (signed_grant_json g)) = Ok g' →
  gc_expires_at (sg_claims g') = gc_expires_at (sg_claims g).
Proof.
  unfold parse_signed_grant, signed_grant_json. intros H. apply result_bind_ok in H as (document & Hd & H). inv_run_all. subst g'. cbn [sg_claims].
  match goal with E : parse_grant_claims _ = Ok _ |- _ => rename E into Hc end. opened (mapped_field _ _ _ Hd) Hf. rewrite Hf in Hc.
  change (field _ "claims") with (grant_json (sg_claims g)) in Hc. unfold parse_grant_claims, grant_json in Hc.
  apply result_bind_ok in Hc as (claims & Hclaims & Hc). inv_run_all. destruct (helper_operation _); [|done].
  apply make_grant_expiry in Hc. opened (mapped_field _ _ _ Hclaims) Hf'. rewrite Hf' in Hc. vm_compute in Hc. by simplify_eq.
Qed.

(** A request read from the bytes of another one is for the same attempt, and its grant
    expires with the other. *)
Definition same_attempt (r r' : HelperRequest) : Prop :=
  hb_operation_id (hr_body r) = hb_operation_id (hr_body r') ∧ hb_attempt (hr_body r) = hb_attempt (hr_body r') ∧
  hb_fence (hr_body r) = hb_fence (hr_body r').

Lemma read_request r raw r' : request_bytes r = Ok raw → parse_helper_request raw = Ok r' →
  same_attempt r' r ∧ grant_expires r' = grant_expires r.
Proof.
  intros Hraw H. unfold parse_helper_request in H. apply result_bind_ok in H as (v & Hv & H).
  rewrite (parse_canonical_bytes (request_json r) raw _ _ (request_dict r) Hraw (sort_json_object _)) in Hv.
  rewrite <- sort_json_object in Hv. assert (v = sort_json (request_json r)) as -> by (unfold request_json; congruence). apply result_bind_ok in H as (document & Hd & H). inv_run_all.
  match goal with E : value_wrapped _ _ = Ok _ |- _ => apply value_wrapped_ok in E; rename E into Hg end.
  match goal with E : parse_body _ = Ok _ |- _ => rename E into Hb end.
  opened (read_field _ _ _ _ _ Hd) Hf. rewrite Hf in Hg, Hb.
  change (field _ "grant") with (signed_grant_json (hr_grant r)) in Hg. change (field _ "body") with (body_json (hr_body r)) in Hb.
  apply read_grant in Hg. apply read_body in Hb as (_ & H1' & H2' & H3').
  unfold make_request in H. inv_run_all. subst r'. by split_and!.
Qed.

Section calls.
Context `{HelperKeys}.

(** A request for an attempt whose grant has not expired is not launched. *)
Lemma attempt_is_used t w t0 r p uid raw i res w' r' : helper_inv t w → (t0, r) ∈ hw_launches w → (t ≤ hi_now i)%Z →
  (timestamp (hi_now i) < grant_expires r)%Z → parse_helper_request raw = Ok r' → same_attempt r' r →
  handle_request p uid raw i w = (res, w') → hw_launches w' = hw_launches w ∧ ∀ s, res ≠ Ok s.
Proof.
  intros Hinv Hin Ht Hexp Hr (H1 & H2 & H3) Hrun. apply handle_cases in Hrun as [(Hl & _ & Hres)|(r1 & Hr1 & _ & _ & _ & Hc)]; [done|].
  exfalso. rewrite Hr in Hr1. injection Hr1 as <-. destruct (known_live _ _ _ _ _ Hinv Ht Hin) as [Hlive|?]; [|lia].
  assert (existsb (conflicts (use_of r')) (live (hi_now i) (hw_replay w)) = true) as E; [|congruence].
  apply existsb_exists. exists (use_of r). split; [by apply list_elem_of_In|]. unfold conflicts, use_of, replay_row. cbn.
  rewrite H1, H2, H3, !eqb_refl, Z.eqb_refl. apply orb_true_r.
Qed.

Definition for_invocation (inv : AdapterInvocation) (r : HelperRequest) : Prop :=
  hb_operation_id (hr_body r) = inv_operation_id inv ∧ hb_attempt (hr_body r) = inv_attempt inv ∧ hb_fence (hr_body r) = inv_fence inv.

(** An adapter call reaches the helper with the frame of its request, or stops before. *)
Lemma adapter_call_cases p uid i op inv r now w res w' : execute_adapter (helper_socket p uid i) op inv r now w = (res, w') →
  w' = w ∧ (∀ response, res ≠ Ok response) ∨
  for_invocation inv r ∧ ∃ raw frame served, request_bytes r = Ok raw ∧ frame_helper_message raw = Ok frame ∧
    serve_connection p (Ok uid) frame i w = (served, w') ∧ ((∀ s, served ≠ Ok s) → ∀ response, res ≠ Ok response).
Proof.
  unfold execute_adapter. intros Hrun.
  apply run_lift_bind in Hrun as [(e & He & -> & ->)|([] & Hb & Hrun)]; [by left|].
  assert (for_invocation inv r) as Hinv. { apply ensure_ok in Hb. bool_facts. by split_and!. }
  assert (∃ res1, submit_request (helper_socket p uid i) r now w = (res1, w') ∧ ((∀ x, res1 ≠ Ok x) → ∀ x, res ≠ Ok x)) as (res1 & Hsub & Hres).
  { apply run_bind in Hrun as [(e & Hsub & ->)|(response & w1 & Hsub & Hrun)]; [by exists (Err e)|].
    exists (Ok response). split; [|intros Hn; exfalso; by eapply Hn].
    assert (w1 = w') as ->; [|done].
    apply run_lift_bind in Hrun as [(? & _ & -> & _)|(? & _ & Hrun)]; [done|].
    apply run_lift_bind in Hrun as [(? & _ & -> & _)|(? & _ & Hrun)]; [done|]. by injection Hrun as _ ->. }
  clear Hrun. rename Hsub into Hrun. unfold submit_request in Hrun.
  apply run_lift_bind in Hrun as [(e & He & -> & ->)|([] & _ & Hrun)]; [left; split; [done|by apply Hres]|].
  apply run_lift_bind in Hrun as [(e & He & -> & ->)|(raw & Hraw & Hrun)]; [left; split; [done|by apply Hres]|].
  apply run_lift_bind in Hrun as [(e & He & -> & ->)|(frame & Hframe & Hrun)]; [left; split; [done|by apply Hres]|].
  right. split; [done|]. exists raw, frame. destruct (helper_socket p uid i frame w) as [served w1] eqn:Hs.
  assert (w1 = w' ∧ ((∀ s, served ≠ Ok s) → ∀ x, res1 ≠ Ok x)) as [-> Himp].
  { unfold mbind at 1, M_bind at 1, try_catch, mbind at 1, M_bind at 1 in Hrun. rewrite Hs in Hrun. destruct served as [stream|e].
    - unfold lift at 1 in Hrun. split; [|intros Hn; exfalso; by eapply Hn].
      destruct (receive_helper_message stream); [|by injection Hrun as _ ->].
      apply run_lift_bind in Hrun as [(? & _ & -> & _)|(? & _ & Hrun)]; [done|].
      apply run_lift_bind in Hrun as [(? & _ & -> & _)|(? & _ & Hrun)]; [done|].
      apply run_lift_bind in Hrun as [(? & _ & -> & _)|(? & _ & Hrun)]; [done|]. by injection Hrun as _ ->.
    - by injection Hrun as <- ->. }
  exists served. split_and!; try done. auto.
Qed.

(** The helper on the frame of a request. *)
Lemma serve_frame p uid raw frame i w served w' : frame_helper_message raw = Ok frame →
  serve_connection p (Ok uid) frame i w = (served, w') →
  ∃ res, handle_request p uid raw i w = (res, w') ∧ ((∀ s, res ≠ Ok s) → ∀ s, served ≠ Ok s).
Proof.
  intros Hf Hrun. unfold serve_connection in Hrun. rewrite (frame_received _ _ Hf) in Hrun.
  apply run_lift_bind in Hrun as [(e & [=] & _)|(? & [= <-] & Hrun)].
  apply run_lift_bind in Hrun as [(e & [=] & _)|(? & [= <-] & Hrun)].
  apply run_bind in Hrun as [(e & Hh & ->)|(response & w1 & Hh & Hrun)]; [by exists (Err e)|].
  exists (Ok response). split; [|intros Hn; exfalso; by eapply Hn]. assert (w1 = w') as ->; [|done].
  apply run_lift_bind in Hrun as [(? & _ & -> & _)|(framed & _ & Hrun)]; [done|].
  apply run_lift_bind in Hrun as [(? & _ & -> & _)|(? & _ & Hrun)]; [done|]. by injection Hrun as _ <-.
Qed.

(** What a call that returned leaves behind: a launch of its attempt. *)
Lemma adapter_call_launches t w p uid i op inv r now response w1 :
  helper_reaches t w → (t ≤ hi_now i)%Z → execute_adapter (helper_socket p uid i) op inv r now w = (Ok response, w1) →
  helper_reaches (hi_now i) w1 ∧ ∃ r1, (hi_now i, r1) ∈ hw_launches w1 ∧ for_invocation inv r1 ∧ grant_expires r1 = grant_expires r.
Proof.
  intros Hreach Ht Hrun.
  apply adapter_call_cases in Hrun as [(_ & Hn)|((Ho & Ha & Hf) & raw & frame & served & Hraw & Hframe & Hs & Himp)]; [by destruct (Hn response)|].
  split; [exact (reach_serve _ _ _ _ _ _ _ _ Hreach Ht Hs)|].
  destruct (serve_frame _ _ _ _ _ _ _ _ Hframe Hs) as (res1 & Hh & Himp1).
  apply handle_cases in Hh as [(_ & _ & Hn)|(r1 & Hr1 & Hl & _)]; [exfalso; by eapply Himp; [apply Himp1|]|].
  destruct (read_request _ _ _ Hraw Hr1) as [(Ho1 & Ha1 & Hf1) He1]. exists r1.
  split; [rewrite Hl; apply elem_of_app; right; by left|]. split; [split_and!; congruence|done].
Qed.

(** C26. The replay database keeps one row for an attempt and its fence, and an operation of
    the package engine makes several adapter calls under one attempt (preparation has three,
    activation and rollback have two): after an adapter call returned, and whatever the
    helper serves and however often it is started again in between, every further adapter
    call for the same attempt raises and launches nothing, whatever it asks for, until the
    grant of the first has expired. *)
Theorem further_adapter_calls_are_refused t w p p' uid uid' i i' op op' inv r r' now now' response w1 t2 w2 res w3 :
  helper_reaches t w → (t ≤ hi_now i)%Z →
  execute_adapter (helper_socket p uid i) op inv r now w = (Ok response, w1) →
  helper_continues (hi_now i) w1 t2 w2 → (t2 ≤ hi_now i')%Z →
  execute_adapter (helper_socket p' uid' i') op' inv r' now' w2 = (res, w3) →
  (timestamp (hi_now i') < grant_expires r)%Z →
  (∀ response', res ≠ Ok response') ∧ hw_launches w3 = hw_launches w2.
Proof.
  intros Hreach Ht Hrun Hlater Ht' Hrun' Hexp.
  destruct (adapter_call_launches _ _ _ _ _ _ _ _ _ _ _ Hreach Ht Hrun) as (Hreach1 & r1 & Hin & (Ho1 & Ha1 & Hf1) & He1).
  pose proof (helper_reaches_inv _ _ (reaches_continues _ _ _ _ Hreach1 Hlater)) as Hinv.
  apply (continues_launches _ _ _ _ Hlater) in Hin.
  apply adapter_call_cases in Hrun' as [(-> & Hn)|((Ho' & Ha' & Hf') & raw' & frame' & served' & Hraw' & Hframe' & Hs' & Himp')]; [done|].
  destruct (serve_frame _ _ _ _ _ _ _ _ Hframe' Hs') as (res2 & Hh' & Himp2).
  assert (hw_launches w3 = hw_launches w2 ∧ ∀ s, res2 ≠ Ok s) as [Hl' Hn']; [|split; auto].
  destruct (parse_helper_request raw') as [r2|e] eqn:Hr2.
  - destruct (read_request _ _ _ Hraw' Hr2) as [(Ho2 & Ha2 & Hf2) _].
    eapply attempt_is_used; [exact Hinv|exact Hin|exact Ht'|by rewrite He1|exact Hr2| |exact Hh']. split_and!; congruence.
  - apply handle_cases in Hh' as [(H1 & _ & H2)|(r2 & Hr2' & _)]; [done|]. congruence.
Qed.

(** ** Messages that stop the helper *)

(** C27. An agent stops the helper without any signature: a well-formed request whose grant
    expires after the year 9999 makes the authorizer raise an error that is not a
    HelperProtocolError, before it looks at the signature, and the listener, which is meant
    to isolate bad peers, passes it on and ends. *)
Theorem far_expiry_stops_the_helper p c rest raw r w :
  cn_peer c = Ok (hc_agent_uid p) → receive_helper_message (cn_stream c) = Ok raw →
  verify_active_slot (hc_slot_sha256 p) (hi_slot (cn_inputs c)) = Ok () → parse_helper_request raw = Ok r →
  (hb_request_id (hr_body r), hb_fence (hr_body r)) ∉ hw_seen w → size (hw_seen w) < max_replay_entries →
  (253402300799 < grant_expires r)%Z →
  ∃ e, serve_listener p (c :: rest) w = (Err e, w) ∧ exn_cls e ∈ [EValue; EOS; EOverflow].
Proof.
  intros Hpeer Hraw Hslot Hr Hnew Hsize Hfar. pose proof (wm_digest _ (parse_well_made _ _ Hr)) as Hd.
  assert (timestamp_error (grant_expires r) ∈ [EValue; EOS; EOverflow]) as Hcls.
  { unfold timestamp_error. repeat case_match; rewrite !elem_of_cons; tauto. }
  assert (∃ m, handle_request p (hc_agent_uid p) raw (cn_inputs c) w = (Err (Exn (timestamp_error (grant_expires r)) m), w)) as (m & Hh).
  { exists "timestamp is out of range". unfold handle_request. rewrite Hslot, Hr. unfold mbind, M_bind, lift, helper_check, ensure, get.
    rewrite Z.eqb_refl. cbv beta iota zeta. rewrite bool_decide_true by done.
    rewrite (proj2 (Nat.ltb_lt _ _) Hsize), Hd. unfold zoom, authorize, mbind, M_bind, lift. rewrite Hd, eqb_refl. cbv beta iota zeta.
    cbn [negb]. unfold grant_is_valid, helper_instant, fromtimestamp. fold (grant_expires r).
    assert ((grant_expires r <=? 253402300799)%Z = false) as -> by (apply Z.leb_gt; done). rewrite andb_false_r. cbn. by destruct w. }
  exists (Exn (timestamp_error (grant_expires r)) m). split; [|exact Hcls].
  cbn [serve_listener]. unfold mbind at 1, M_bind at 1, try_catch, mbind at 1, M_bind at 1, serve_connection.
  unfold mbind, M_bind, lift. rewrite Hpeer, Hraw, Hh. cbn [exn_cls].
  rewrite !elem_of_cons in Hcls. destruct Hcls as [->|[->|[->|Hnil]]]; [done..|]. by apply not_elem_of_nil in Hnil.
Qed.

(** ** Grants come from running attempts *)

Lemma grant_dict c : dict_keys (grant_json c) = true.
Proof. vm_compute. reflexivity. Qed.

Lemma helper_value_inj o o' : helper_value o = helper_value o' → o = o'.
Proof. by destruct o, o'. Qed.

Lemma sorted_fields items items' : sort_json (JObj items) = sort_json (JObj items') → NoDup items.*1 → NoDup items'.*1 →
  ∀ key, sort_json (field items key) = sort_json (field items' key).
Proof.
  rewrite !sort_json_object. intros [= E] Hnd Hnd' key. rewrite <- (field_sorted _ key Hnd), <- (field_sorted _ key Hnd').
  unfold sorted_items. by rewrite E.
Qed.

(** What is signed names one grant. *)
Lemma grant_signing_inj c c' : grant_signing_bytes c = grant_signing_bytes c' → c = c'.
Proof.
  unfold grant_signing_bytes. intros E. apply (inj (String.append _)) in E.
  assert (sort_json (grant_json c) = sort_json (grant_json c')) as Hs.
  { pose proof (loads_canonical _ (grant_dict c)) as H1. pose proof (loads_canonical _ (grant_dict c')) as H2. congruence. }
  pose proof (sorted_fields _ _ Hs) as Hf. specialize (Hf ltac:(literal_keys) ltac:(literal_keys)).
  assert (helper_value (gc_operation c) = helper_value (gc_operation c')) as Ho%helper_value_inj
    by (pose proof (Hf "operation") as Eo; change (JStr (helper_value (gc_operation c)) = JStr (helper_value (gc_operation c'))) in Eo; congruence).
  pose proof (Hf "request_id") as E1. pose proof (Hf "node_id") as E2. pose proof (Hf "job_id") as E3. pose proof (Hf "operation_id") as E4.
  pose proof (Hf "attempt") as E5. pose proof (Hf "fence") as E6. pose proof (Hf "release_digest") as E7. pose proof (Hf "generation") as E8.
  pose proof (Hf "request_digest") as E9. pose proof (Hf "issued_at") as E10. pose proof (Hf "expires_at") as E11. clear Hf Hs E.
  destruct c, c'. cbn in *. by simplify_eq.
Qed.

(** The attempt that a body names is running in the control plane, on its node and with
    its release, and holds its lease. *)
Definition attempt_is_running (d : control_db) (now : Z) (b : HelperExecutionBody) : Prop :=
  ∃ o a payload, t_operations d !! hb_operation_id b = Some o ∧ so_node_id o = hb_node_id b ∧ so_parent_job_id o = hb_job_id b ∧
    so_state o = "running" ∧ so_current_attempt o = hb_attempt b ∧
    so_payload o = JObj payload ∧ lookup_key payload "release_digest" = Some (JStr (bi_release_digest (hb_invocation b))) ∧
    t_attempts d !! hb_fence b = Some a ∧ at_operation_id a = hb_operation_id b ∧ at_attempt a = hb_attempt b ∧
    at_state a = "running" ∧ (now < at_lease_deadline a)%Z.

Lemma check_attempt_ok d node job operation attempt fence release serial now u :
  check_attempt d node job operation attempt fence release serial now = Ok u →
  ∃ o a payload, t_operations d !! operation = Some o ∧ so_node_id o = node ∧ so_parent_job_id o = job ∧ so_state o = "running" ∧
    so_current_attempt o = attempt ∧ so_payload o = JObj payload ∧ lookup_key payload "release_digest" = Some (JStr release) ∧
    t_attempts d !! fence = Some a ∧ at_operation_id a = operation ∧ at_attempt a = attempt ∧ at_state a = "running" ∧
    (now < at_lease_deadline a)%Z.
Proof.
  unfold check_attempt, authority_check. intros E%ensure_ok. destruct (t_operations d !! operation) as [o|]; [|done].
  destruct (find _ _) as [[token a]|] eqn:Hf; [|done]. apply find_some in Hf as [Hin Hf]. apply list_elem_of_In, elem_of_map_to_list in Hin.
  cbn [snd] in Hf. destruct (so_payload o) as [| | | | |payload] eqn:Hp; try (rewrite andb_false_r in E; done).
  bool_facts. exists o, a, payload. subst token. by split_and!.
Qed.

Lemma issue_grant_ok sign key d request node job operation attempt fence release generation o digest serial expires now g :
  issue_grant sign key d request node job operation attempt fence release generation o digest serial expires now = Ok g →
  gc_issued_at (sg_claims g) = timestamp now ∧
  check_attempt d (gc_node_id (sg_claims g)) (gc_job_id (sg_claims g)) (gc_operation_id (sg_claims g)) (gc_attempt (sg_claims g))
    (gc_fence (sg_claims g)) (gc_release_digest (sg_claims g)) serial now = Ok ().
Proof.
  unfold issue_grant, issue_grant_claims. intros E. inv_run_all. subst g. cbn [sg_claims].
  generalize dependent (timestamp now). intros issued. intros.
  destruct (make_grant _ o) as [c|] eqn:Hc; [|done]. match goal with E : mret c = Ok _ |- _ => injection E as <- end.
  unfold make_grant, lock_uuid, lock_raw_digest, lock_identifier, positive_integer, protocol_check in Hc. inv_run_all. subst c.
  cbn [gc_node_id gc_job_id gc_operation_id gc_attempt gc_fence gc_release_digest gc_issued_at].
  repeat match goal with
  | E : text_that _ _ _ = Ok _ |- _ => apply text_ok in E as [E _]; vm_compute in E; injection E as <-
  | E : bounded_integer _ _ _ _ = Ok _ |- _ => apply bounded_integer_value in E; vm_compute in E; injection E as <- end.
  destruct x. done.
Qed.

(** The messages with signatures that the helper accepts as grants are those that the
    authority signed, at some time, from the database of the control plane at that time;
    [database] is the course of that database. *)
Definition signed_by_authority (sign : string → string) (database : Z → control_db) : Prop :=
  ∀ value message, verify_signature grant_key value message = true →
  ∃ now request node job operation attempt fence release generation o digest serial expires g,
    issue_grant sign grant_key (database now) request node job operation attempt fence release generation o digest serial expires now = Ok g ∧
    message = grant_signing_bytes (sg_claims g).

End calls.

