(* ===== verification/HelperRun.v ===== *)
(** * The package helper, run

    A control plane with one running attempt, its grants, and the helper that carries out
    the first adapter call of the attempt and refuses the second. *)

From S2P Require Import Prelude Identifiers Canonical Documents JsonText Datetimes Contracts PackageEngine Protocol Messages.
From S2P Require Import OperationGraph Orchestration AgentTables AgentJobs Routes ReleaseLocks ReleaseLockFacts HelperMessages PackageHelper HelperFacts HelperCalls.

Definition first_request_id : string := "00000000-0000-4000-8000-000000000001".
Definition second_request_id : string := "00000000-0000-4000-8000-000000000002".
Definition sample_job : string := "00000000-0000-4000-8000-000000000003".
Definition sample_operation : string := "00000000-0000-4000-8000-000000000004".
Definition sample_fence : string := "00000000-0000-4000-8000-000000000005".
Definition sample_node : string := "spk_00112233445566778899aabbccddeeff".
Definition sample_release : string := Eval vm_compute in Sha256.hexdigest "release".
Definition sample_object : string := Eval vm_compute in Sha256.hexdigest "object".

(** The issue of the grants, in microseconds. *)
Definition issue_time : Z := 1700000000000000.

Definition helper_grant_key : string := "grant".
Definition helper_receipt_key : string := "receipt".
Definition sample_sign (key message : string) : string :=
  Sha256.hexdigest (key +:+ message) +:+ Sha256.hexdigest (message +:+ key).

(** ** Bodies *)

Definition sample_receipt : SignedPackageObjectReceipt := Eval vm_compute in
  let claims := MkReceiptClaims sample_object 1024 in
  MkReceipt claims (MkSignature (key_id_of helper_receipt_key) (sample_sign helper_receipt_key (receipt_signing_bytes claims))).

Definition sample_invocation : BackendInvocation :=
  MkInvocation sample_release "gen-1" "components/adapter/adapter" ["--once"] (MkResources 1000 1024 256 900 65536)
    [MkMount sample_object "objects/model"] [] (MkNetwork "none" []) NativePart.

Definition sample_body (request_id : string) (operation : PackageHelperOperation) : HelperExecutionBody :=
  MkBody request_id sample_node sample_job sample_operation 1 sample_fence operation sample_invocation [sample_receipt].

Definition digest_of (b : HelperExecutionBody) : string := match body_digest b with Ok digest => digest | Err _ => "" end.
Definition first_digest : string := Eval vm_compute in digest_of (sample_body first_request_id HPrepare).
Definition second_digest : string := Eval vm_compute in digest_of (sample_body second_request_id HVerify).

(** ** The control plane *)

Definition sample_stored : StoredOperation :=
  MkOperation sample_job sample_node "package.prepare" "" (JObj [("release_digest", JStr sample_release)]) "" "running" 1 None None 0 0.
Definition sample_attempt : AgentOperationAttempt :=
  MkAgentAttempt sample_operation 1 (issue_time + 60000000) "serial" "running" None None.
Definition sample_control : control_db :=
  ControlDb ∅ ∅ ∅ ∅ ∅ {[sample_operation := sample_stored]} {[sample_fence := sample_attempt]} ∅ ∅ ∅ ∅ ∅ ∅ [] ∅ ∅ None None.

Definition sample_issue (request_id : string) (operation : PackageHelperOperation) (digest : string) : result SignedPackageHelperGrant :=
  issue_grant (sample_sign helper_grant_key) helper_grant_key sample_control request_id sample_node sample_job sample_operation 1
    sample_fence sample_release "gen-1" operation digest "serial" 30 issue_time.

Definition first_grant : SignedPackageHelperGrant :=
  ltac:(let x := eval vm_compute in (sample_issue first_request_id HPrepare first_digest) in match x with Ok ?g => exact g end).
Definition second_grant : SignedPackageHelperGrant :=
  ltac:(let x := eval vm_compute in (sample_issue second_request_id HVerify second_digest) in match x with Ok ?g => exact g end).

(** The signatures of this control plane. *)
#[local] Instance sample_keys : HelperKeys := {|
  verify_signature key value message :=
    eqb value (sample_sign key message)
    && (negb (eqb key helper_grant_key)
        || among message [grant_signing_bytes (sg_claims first_grant); grant_signing_bytes (sg_claims second_grant)]);
  grant_key := helper_grant_key;
  receipt_key := helper_receipt_key
|}.

Lemma sample_signed : signed_by_authority (sample_sign helper_grant_key) (λ _, sample_control).
Proof.
  intros value message Hv. cbn [verify_signature sample_keys grant_key] in Hv. rewrite eqb_refl in Hv. cbn [negb orb] in Hv.
  apply andb_true_iff in Hv as [_ Hv]. apply among_true in Hv.
  assert (∃ request o digest g, sample_issue request o digest = Ok g ∧ message = grant_signing_bytes (sg_claims g)) as (request & o & digest & g & Hi & Hm).
  { apply elem_of_cons in Hv as [->|Hv].
    - exists first_request_id, HPrepare, first_digest, first_grant. split; [vm_compute|]; reflexivity.
    - apply list_elem_of_singleton in Hv as ->. exists second_request_id, HVerify, second_digest, second_grant. split; [vm_compute|]; reflexivity. }
  unfold sample_issue in Hi. eexists _, _, _, _, _, _, _, _, _, _, _, _, _, _. by split.
Qed.

(** ** The helper *)

Definition sample_slot : json :=
  JObj [("activation_deadline", JNull); ("active_slot", JStr "A"); ("boot_attempts", JInt 0); ("expected_sha256", JStr sample_release);
        ("generation", JInt 1); ("previous_slot", JNull); ("rollback_performed", JBool false); ("schema_version", JInt 1);
        ("slot_sha256", JObj [("A", JStr sample_release); ("B", JNull)]); ("status", JStr "stable")].
Definition sample_process : helper_process := HelperProcess 1000 sample_release.
Definition sample_inputs (now : Z) : helper_inputs :=
  HelperInputs (Ok (canonical sample_slot +:+ newline)) now
    (Ok (JObj [("status", JStr "ok"); ("evidence_digest", JStr sample_object); ("fence", JStr sample_fence)])) true.

Definition first_call : HelperRequest := MkHelperRequest (sample_body first_request_id HPrepare) first_grant.
Definition second_call : HelperRequest := MkHelperRequest (sample_body second_request_id HVerify) second_grant.
Definition sample_binding : AdapterInvocation := Invocation sample_job sample_operation 1 sample_fence sample_release "gen-1" sample_node.

Definition first_time : Z := issue_time + 1000000.
Definition second_time : Z := issue_time + 2000000.

Definition call_helper (op : AdapterOperation) (r : HelperRequest) (now : Z) : M helper_world HelperResponse :=
  execute_adapter (helper_socket sample_process 1000 (sample_inputs now)) op sample_binding r now.
Definition first_run := call_helper APrepare first_call first_time (HelperWorld ∅ [] []).

Example first_call_runs : is_ok first_run.1 = true ∧ length (hw_launches first_run.2) = 1.
Proof. vm_compute. done. Qed.
(** ** Witnesses *)

Definition empty_helper : helper_world := HelperWorld ∅ [] [].
Definition first_frame : string :=
  ltac:(let x := eval vm_compute in (request_bytes first_call ≫= frame_helper_message) in match x with Ok ?f => exact f end).

Lemma run_world {A B} (p : A * B) w : p.2 = w → p = (p.1, w).
Proof. by destruct p; intros <-. Qed.
Lemma run_value {A B} (p : A * B) a w : p.1 = a → p.2 = w → p = (a, w).
Proof. by destruct p; intros <- <-. Qed.

(** The helper after the first request. *)
Definition first_replay : list ReplayRow := Eval vm_compute in hw_replay first_run.2.
Definition first_response : HelperResponse :=
  ltac:(let x := eval vm_compute in first_run.1 in match x with Ok ?r => exact r end).
Definition first_world : helper_world := HelperWorld {[(first_request_id, sample_fence)]} first_replay [(first_time, first_call)].

Lemma first_served : (serve_connection sample_process (Ok 1000%Z) first_frame (sample_inputs first_time) empty_helper).2 = first_world.
Proof. vm_compute. reflexivity. Qed.

Lemma first_reaches : helper_reaches first_time first_world.
Proof.
  eapply (reach_serve first_time empty_helper sample_process (Ok 1000%Z) first_frame (sample_inputs first_time)).
  - apply reach_start.
  - apply Z.le_refl.
  - apply run_world. exact first_served.
Qed.

Lemma first_result : call_helper APrepare first_call first_time empty_helper = (Ok first_response, first_world).
Proof. apply run_value; vm_compute; reflexivity. Qed.

Lemma launches_are_granted_once_witness : granted first_time first_call ∧ used_once (hw_launches first_world).
Proof.
  destruct (launches_are_granted_once _ _ first_reaches) as (Hg & _ & Ho). split; [|exact Ho].
  apply (Hg first_time first_call). left.
Defined.


(** The helper is started again, and the second call of the attempt comes. *)
Lemma further_adapter_calls_are_refused_witness :
  (∀ response, (call_helper AVerify second_call second_time (restart_helper first_world)).1 ≠ Ok response) ∧
  hw_launches (call_helper AVerify second_call second_time (restart_helper first_world)).2 = hw_launches first_world.
Proof.
  apply (further_adapter_calls_are_refused first_time empty_helper sample_process sample_process 1000 1000 (sample_inputs first_time)
    (sample_inputs second_time) APrepare AVerify sample_binding first_call second_call first_time second_time first_response first_world
    first_time (restart_helper first_world)).
  - apply reach_start.
  - vm_compute. discriminate.
  - exact first_result.
  - apply continues_restart, continues_here.
  - vm_compute. discriminate.
  - apply surjective_pairing.
  - vm_compute. reflexivity.
Defined.

(** A request with a signature that nobody made, and a grant that expires too late. *)
Definition late_claims : PackageHelperGrantClaims :=
  MkGrant first_request_id sample_node sample_job sample_operation 1 sample_fence sample_release "gen-1" HPrepare first_digest
    300000000000 300000000030.
Definition late_call : HelperRequest :=
  MkHelperRequest (sample_body first_request_id HPrepare) (MkSignedGrant late_claims (MkSignature sample_object (sample_object +:+ sample_object))).
Definition late_raw : string := ltac:(let x := eval vm_compute in (request_bytes late_call) in match x with Ok ?f => exact f end).
Definition late_frame : string := ltac:(let x := eval vm_compute in (frame_helper_message late_raw) in match x with Ok ?f => exact f end).

Lemma far_expiry_stops_the_helper_witness :
  ∃ e, serve_listener sample_process [Connection (Ok 1000%Z) late_frame (sample_inputs first_time);
                                      Connection (Ok 1000%Z) first_frame (sample_inputs first_time)] empty_helper
       = (Err e, empty_helper) ∧ exn_cls e ∈ [EValue; EOS; EOverflow].
Proof.
  apply (far_expiry_stops_the_helper sample_process (Connection (Ok 1000%Z) late_frame (sample_inputs first_time))
    [Connection (Ok 1000%Z) first_frame (sample_inputs first_time)] late_raw late_call empty_helper).
  - reflexivity.
  - vm_compute. reflexivity.
  - vm_compute. reflexivity.
  - vm_compute. reflexivity.
  - apply not_elem_of_empty.
  - apply Nat.ltb_lt. vm_compute. reflexivity.
  - vm_compute. reflexivity.
Defined.
