(* ===== verification/PackageRollouts.v ===== *)
(** * Package rollouts ([control/src/vonk_control/package_rollouts.py],
    [package_rollout_worker.py])

    [PackageRolloutOrchestrator] persists a package plan and takes its nodes through
    the operations of the plan, the canary first, by enqueueing them into the agent
    queue beneath one parent job. Its tables are added to those of the control plane.
    A row of [package_rollouts] is one that [create] wrote: it carries a base commit.
    The columns are those the code reads or writes: [authority_digest], which an insert
    derives from others, is left out, and so are the limits on the length of JSON
    columns. What a call draws (ids, fences, readings of the clock) is an argument. *)

From S2P Require Import Prelude Identifiers Canonical Documents Contracts PackageEngine Protocol.
From S2P Require Import OperationGraph Orchestration Jobs AgentTables AgentJobs.

(** ** Tables *)

Record PackageRollout := MkPackageRollout {
  pk_job_id : option string; pk_deployment_id : string; pk_deployment_digest : string; pk_release_digest : string;
  pk_previous_release_digest : option string; pk_base_commit : string; pk_policy_digest : string;
  pk_tuf_target_digest : string; pk_fleet_digest : string; pk_topology_digest : string; pk_plan_digest : string;
  pk_state : string; pk_actor : string; pk_plan : json; pk_progress : json; pk_current_batch : Z;
  pk_failure_reason : option string; pk_failure_evidence_digest : option string;
  pk_rollback_evidence_digest : option string; pk_created_at : Z; pk_updated_at : Z; pk_completed_at : option Z
}.

(** An entry of [operation_history]; a rollback is not an operation of the graph. *)
Record history_item := HistoryItem {
  hi_graph_operation_id : option string; hi_kind : string; hi_payload_digest : string; hi_operation_id : string;
  hi_state : string
}.

Record PackageRolloutNode := MkPackageNode {
  pn_rollout_id : string; pn_node_id : string; pn_batch_index : Z; pn_node_order : Z; pn_is_canary : bool;
  pn_state : string; pn_operation_kind : option string; pn_graph_operation_id : option string;
  pn_operation_key : option string; pn_operation_id : option string; pn_rollback_operation_id : option string;
  pn_operation_history : list history_item; pn_expected_payload_digest : string;
  pn_observed_release_digest : option string; pn_evidence_digest : option string; pn_failure_reason : option string;
  pn_failure_evidence_digest : option string; pn_created_at : Z; pn_updated_at : Z; pn_completed_at : option Z
}.

Record rollout_db := RolloutDb {
  rd_control : control_db;
  rd_rollouts : gmap string PackageRollout;
  rd_nodes : gmap string PackageRolloutNode
}.

Definition set_rd_control (c : control_db) (s : rollout_db) : rollout_db := RolloutDb c (rd_rollouts s) (rd_nodes s).
Definition on_control {A} (m : M control_db A) : M rollout_db A := zoom rd_control set_rd_control m.
Definition put_rollout (id : string) (r : PackageRollout) : M rollout_db unit :=
  modify (λ s, RolloutDb (rd_control s) (<[id := r]> (rd_rollouts s)) (rd_nodes s)).
Definition put_rollout_node (key : string) (n : PackageRolloutNode) : M rollout_db unit :=
  modify (λ s, RolloutDb (rd_control s) (rd_rollouts s) (<[key := n]> (rd_nodes s))).

(** [ReconciliationPlan] of [reconcile.py]: mappings keep the order of their keys. *)
Record ReconciliationPlan := MkReconciliationPlan {
  rp_commit : string; rp_targets : list string; rp_placements : list (string * json); rp_routes : list (string * json);
  rp_releases : list (string * json); rp_workload_groups : list (string * json); rp_input_digests : list (string * json);
  rp_fleet_evidence_digest : option string; rp_digest : string; rp_operation_graph : option OperationGraph;
  rp_operation_payloads : list (string * json); rp_agent_protocol_range : option (Z * Z)
}.

(** ** Helpers *)

(** [ORDER BY batch_index, node_order]. *)
Definition node_le (p q : string * PackageRolloutNode) : Prop :=
  (pn_batch_index p.2 < pn_batch_index q.2
   ∨ pn_batch_index p.2 = pn_batch_index q.2 ∧ pn_node_order p.2 <= pn_node_order q.2)%Z.
#[export] Instance node_le_dec p q : Decision (node_le p q).
Proof. unfold node_le. apply _. Defined.

Definition nodes_of (s : rollout_db) (rollout_id : string) : list (string * PackageRolloutNode) :=
  merge_sort node_le (filter (λ p : string * PackageRolloutNode, pn_rollout_id p.2 = rollout_id) (map_to_list (rd_nodes s))).

Definition rollout_error {A} (m : string) : result A := raise EPackageRollout m.
Definition rollout_check (b : bool) (m : string) : result unit := ensure b EPackageRollout m.

(** [_raw_digest]. *)
Definition raw_package_digest (v : json) : result string :=
  match v with
  | JStr s => rollout_check (is_digest s) "package digest is invalid";; mret s
  | _ => rollout_error "package digest is invalid"
  end.

(** [_mapping]. *)
Definition package_mapping (v : json) (label : string) : result (list (string * json)) :=
  match v with
  | JObj items => mret items
  | _ => rollout_error (label +:+ " must be an object")
  end.

(** [_active_operation]. *)
Definition active_operation (s : rollout_db) (n : PackageRolloutNode) : option (string * StoredOperation) :=
  id ← pn_operation_id n; o ← t_operations (rd_control s) !! id; Some (id, o).

(** The kind of the entry of the history that names an operation. *)
Definition active_kind (history : list history_item) (operation_id : string) : option string :=
  hi_kind <$> head (filter (λ i, hi_operation_id i = operation_id) history).

Definition mark_accepted (operation_id : string) (history : list history_item) : list history_item :=
  map (λ i, if eqb (hi_operation_id i) operation_id
            then HistoryItem (hi_graph_operation_id i) (hi_kind i) (hi_payload_digest i) (hi_operation_id i) "accepted"
            else i) history.

(** The row that [_accept_operation] leaves, with the evidence of a succeeded operation.
    The call marks the entries of the history in place and assigns a list of the same
    entries to the column, which is no change to the object-relational mapper: the marks
    are part of the session and reach the row only when an entry is appended. *)
Definition accept_operation (s : rollout_db) (n : PackageRolloutNode) (id : string) (o : StoredOperation) (now : Z)
    : PackageRolloutNode :=
  let evidence := match attempt_of (rd_control s) id (so_current_attempt o) with
                  | Some (_, a) => match at_result a with Some (JObj items) => Some (JObj items) | _ => None end
                  | None => None
                  end in
  MkPackageNode (pn_rollout_id n) (pn_node_id n) (pn_batch_index n) (pn_node_order n) (pn_is_canary n) (pn_state n)
    (pn_operation_kind n) (pn_graph_operation_id n) (pn_operation_key n) (pn_operation_id n) (pn_rollback_operation_id n)
    (pn_operation_history n) (pn_expected_payload_digest n)
    (match item_of (so_payload o) "release_digest" with JStr d => Some d | _ => None end)
    (Some (utf8_digest (default (JObj [("operation_id", JStr id); ("state", JStr (so_state o))]) evidence)))
    (pn_failure_reason n) (pn_failure_evidence_digest n) (pn_created_at n) now (pn_completed_at n).

(** [dependency in completed]: the identities of the graph that were accepted; an
    accepted rollback stands for [None]. *)
Definition dependency_done (completed : list (option string)) (dependency : json) : result bool :=
  match dependency with
  | JStr d => mret (among (Some d) completed)
  | JNull => mret (among None completed)
  | JArr _ | JObj _ => raise EType "unhashable type"
  | _ => mret false
  end.

(** [any(dependency not in completed for ...)]. *)
Fixpoint dependency_open (completed : list (option string)) (dependencies : list json) : result bool :=
  match dependencies with
  | [] => mret false
  | d :: dependencies =>
      dependency_done completed d ≫= λ is_done : bool, if is_done then dependency_open completed dependencies else mret true
  end.

(** The loop of [_next_operation]: the first operation of the node that is not
    accepted and whose dependencies are. *)
Fixpoint next_of (node_id : string) (completed : list (option string)) (payloads : list (string * json)) (raw_nodes : list json)
    : result (option (string * string * list (string * json))) :=
  match raw_nodes with
  | [] => mret None
  | JObj raw :: raw_nodes =>
      let go := next_of node_id completed payloads raw_nodes in
      if negb (py_eqb (field raw "node_id") (JStr node_id)) then go else
      match field raw "operation_id", field raw "kind", field raw "dependencies" with
      | JStr operation_id, JStr kind, JArr dependencies =>
          if among (Some operation_id) completed then go else
          dependency_open completed dependencies ≫= λ open : bool,
          if open then go else
          match field payloads operation_id with
          | JObj payload => mret (Some (operation_id, kind, payload))
          | _ => go
          end
      | _, _, _ => go
      end
  | _ :: raw_nodes => next_of node_id completed payloads raw_nodes
  end.

(** [_next_operation]. *)
Definition next_operation (r : PackageRollout) (node_id : string) (history : list history_item)
    : result (option (string * string * list (string * json))) :=
  match pk_plan r with
  | JObj plan =>
      match field plan "operation_graph", field plan "operation_payloads" with
      | JObj graph, JObj payloads =>
          match field graph "nodes" with
          | JArr raw_nodes =>
              next_of node_id (map hi_graph_operation_id (filter (λ i, hi_state i = "accepted") history)) payloads raw_nodes
          | _ => rollout_error "package rollout graph nodes are invalid"
          end
      | _, _ => rollout_error "package rollout graph/payloads are unavailable"
      end
  | _ => rollout_error "package rollout plan is unavailable"
  end.

(** ** Updates of rows *)

Definition with_package (r : PackageRollout) (state : string) (batch : Z) (reason failure rollback : option string)
    (updated : Z) (completed : option Z) : PackageRollout :=
  MkPackageRollout (pk_job_id r) (pk_deployment_id r) (pk_deployment_digest r) (pk_release_digest r)
    (pk_previous_release_digest r) (pk_base_commit r) (pk_policy_digest r) (pk_tuf_target_digest r) (pk_fleet_digest r)
    (pk_topology_digest r) (pk_plan_digest r) state (pk_actor r) (pk_plan r) (pk_progress r) batch reason failure rollback
    (pk_created_at r) updated completed.

Definition to_state (state : string) (r : PackageRollout) : PackageRollout :=
  with_package r state (pk_current_batch r) (pk_failure_reason r) (pk_failure_evidence_digest r)
    (pk_rollback_evidence_digest r) (pk_updated_at r) (pk_completed_at r).
Definition touched (now : Z) (r : PackageRollout) : PackageRollout :=
  with_package r (pk_state r) (pk_current_batch r) (pk_failure_reason r) (pk_failure_evidence_digest r)
    (pk_rollback_evidence_digest r) now (pk_completed_at r).
Definition without_targets (now : Z) (r : PackageRollout) : PackageRollout :=
  with_package r "failed" (pk_current_batch r) (Some "package rollout has no target nodes") (pk_failure_evidence_digest r)
    (pk_rollback_evidence_digest r) now (pk_completed_at r).
Definition completed_rollout (now : Z) (r : PackageRollout) : PackageRollout :=
  with_package r "completed" (pk_current_batch r) (pk_failure_reason r) (pk_failure_evidence_digest r)
    (pk_rollback_evidence_digest r) now (Some now).
Definition next_batch (now : Z) (r : PackageRollout) : PackageRollout :=
  with_package r "planned" (pk_current_batch r + 1) (pk_failure_reason r) (pk_failure_evidence_digest r)
    (pk_rollback_evidence_digest r) now (pk_completed_at r).
Definition rolled_back (evidence : option string) (r : PackageRollout) : PackageRollout :=
  with_package r "rolled-back" (pk_current_batch r) (pk_failure_reason r) (pk_failure_evidence_digest r) evidence
    (pk_updated_at r) (pk_completed_at r).
Definition waiting_rollout (reason digest : string) (r : PackageRollout) : PackageRollout :=
  with_package r "waiting-for-operator" (pk_current_batch r) (Some reason) (Some digest) (pk_rollback_evidence_digest r)
    (pk_updated_at r) (pk_completed_at r).

Definition settled_node (state : string) (now : Z) (n : PackageRolloutNode) : PackageRolloutNode :=
  MkPackageNode (pn_rollout_id n) (pn_node_id n) (pn_batch_index n) (pn_node_order n) (pn_is_canary n) state
    (pn_operation_kind n) (pn_graph_operation_id n) (pn_operation_key n) (pn_operation_id n) (pn_rollback_operation_id n)
    (pn_operation_history n) (pn_expected_payload_digest n) (pn_observed_release_digest n) (pn_evidence_digest n)
    (pn_failure_reason n) (pn_failure_evidence_digest n) (pn_created_at n) now (Some now).
Definition failed_node (reason digest : string) (now : Z) (n : PackageRolloutNode) : PackageRolloutNode :=
  MkPackageNode (pn_rollout_id n) (pn_node_id n) (pn_batch_index n) (pn_node_order n) (pn_is_canary n) "failed"
    (pn_operation_kind n) (pn_graph_operation_id n) (pn_operation_key n) (pn_operation_id n) (pn_rollback_operation_id n)
    (pn_operation_history n) (pn_expected_payload_digest n) (pn_observed_release_digest n) (pn_evidence_digest n)
    (Some reason) (Some digest) (pn_created_at n) now (pn_completed_at n).

(** The node while an operation of the graph, or a rollback, is in the queue; the
    history is that of the session. *)
Definition dispatched_node (state kind digest id : string) (graph : option string) (history : list history_item) (now : Z)
    (n : PackageRolloutNode)
    : PackageRolloutNode :=
  MkPackageNode (pn_rollout_id n) (pn_node_id n) (pn_batch_index n) (pn_node_order n) (pn_is_canary n) state
    (Some kind) (if is_Some_b graph then graph else pn_graph_operation_id n)
    (if is_Some_b graph then graph else pn_operation_key n) (Some id)
    (if is_Some_b graph then pn_rollback_operation_id n else Some id)
    (history ++ [HistoryItem graph kind digest id "queued"]) digest (pn_observed_release_digest n)
    (pn_evidence_digest n) (pn_failure_reason n) (pn_failure_evidence_digest n) (pn_created_at n) now (pn_completed_at n).

(** ** Advancing *)

Record draw := Draw { dr_operation_id : string; dr_fence : string; dr_now : Z }.

Section orchestrator.
Context {prepared : Type} (update_authorizer : option (UpdateAuthorizer prepared)).

Definition enqueue_package (job_id node_id kind base_commit : string) (payload : list (string * json)) (d : draw)
    : M rollout_db unit :=
  on_control (enqueue_in_session update_authorizer job_id node_id kind base_commit payload (dr_operation_id d) (dr_fence d)
                None (dr_now d));;
  mret ().

(** [job.state = ...] of the parent. *)
Definition set_job (job_id state : string) (reason : Job → option string) (updated : Job → Z) : M rollout_db unit :=
  s ← get;
  match t_jobs (rd_control s) !! job_id with
  | Some j => on_control (put_job job_id (with_job_state state (reason j) (updated j) j))
  | None => mret ()
  end.

Definition alter_rollout (id : string) (f : PackageRollout → PackageRollout) : M rollout_db unit :=
  modify (λ s, RolloutDb (rd_control s) (alter f id (rd_rollouts s)) (rd_nodes s)).

Definition rollback_payload (plan : json) (node_id : string) : option (list (string * json)) :=
  match item_of (item_of (item_of plan "release") "rollback_payloads") node_id with
  | JObj payload => Some payload
  | _ => None
  end.

(** How the loop of [advance] goes on with a node: [continue], with or without an
    operation queued for it, or the rest of the loop with the history of the session. *)
Inductive verdict := Continue (queued : bool) | Proceed (history : list history_item).

(** A node whose operation did not complete and cannot be rolled back. *)
Definition abandon (rollout_id job_id key id : string) (o : StoredOperation) (now : Z) (n : PackageRolloutNode)
    : M rollout_db unit :=
  let reason := "package operation did not complete" in
  let digest := utf8_digest (JObj [("operation_id", JStr id); ("state", JStr (so_state o))]) in
  put_rollout_node key (failed_node reason digest now n);;
  alter_rollout rollout_id (waiting_rollout reason digest);;
  set_job job_id "waiting-for-operator" (λ _, Some reason) (λ _, now).

Definition unsettled (rollout_id job_id key id : string) (o : StoredOperation) (d : draw) (now : Z)
    (r : PackageRollout) (n : PackageRolloutNode) : M rollout_db verdict :=
  match rollback_payload (pk_plan r) (pn_node_id n) with
  | Some payload =>
      if among (active_kind (pn_operation_history n) id)
           [Some (operation_value PACKAGE_ACTIVATE); Some (operation_value PACKAGE_HEALTH)] then
        enqueue_package job_id (pn_node_id n) PACKAGE_ROLLBACK (pk_base_commit r) payload d;;
        put_rollout_node key (dispatched_node "rolling-back" PACKAGE_ROLLBACK (utf8_digest (JObj payload)) (dr_operation_id d)
                                None (pn_operation_history n) now n);;
        alter_rollout rollout_id (to_state "rolling-back");;
        mret (Continue true)
      else abandon rollout_id job_id key id o now n;; mret (Continue false)
  | None => abandon rollout_id job_id key id o now n;; mret (Continue false)
  end.

(** The first part of the loop: the operation of the node in the queue. *)
Definition settle (rollout_id job_id key : string) (d : draw) (now : Z) : M rollout_db verdict :=
  s ← get;
  match rd_rollouts s !! rollout_id, rd_nodes s !! key with
  | Some r, Some n =>
      match active_operation s n with
      | None => mret (Proceed (pn_operation_history n))
      | Some (id, o) =>
          if among (so_state o) ["queued"; "running"] then mret (Continue false)
          else if eqb (so_state o) "succeeded" then
            let n' := accept_operation s n id o now in
            put_rollout_node key n';;
            if eqb (active_kind (pn_operation_history n) id) (Some (operation_value PACKAGE_ROLLBACK)) then
              put_rollout_node key (settled_node "rolled-back" now n');;
              alter_rollout rollout_id (rolled_back (pn_evidence_digest n'));;
              set_job job_id "failed" (λ _, Some "package rollout rolled back") (λ _, now);;
              mret (Continue false)
            else mret (Proceed (mark_accepted id (pn_operation_history n)))
          else if among (so_state o) ["failed"; "waiting-for-operator"; "expired"] then
            unsettled rollout_id job_id key id o d now r n
          else mret (Proceed (pn_operation_history n))
      end
  | _, _ => mret (Continue false)
  end.

Definition dispatched_state (kind : string) : string :=
  if eqb kind PACKAGE_PREPARE then "preparing"
  else if eqb kind PACKAGE_ACTIVATE then "activating"
  else if eqb kind PACKAGE_HEALTH then "health-checking"
  else "preparing".

(** The rest of the loop: the next operation of the node; true when it was queued. *)
Definition dispatch_next (rollout_id job_id key : string) (d : draw) (now : Z) (history : list history_item)
    : M rollout_db bool :=
  s ← get;
  match rd_rollouts s !! rollout_id, rd_nodes s !! key with
  | Some r, Some n =>
      if among (pn_state n) ["accepted"; "cancelled"; "failed"; "rolled-back"; "offline-pending"] then mret false
      else
        next ← lift (next_operation r (pn_node_id n) history);
        match next with
        | None => put_rollout_node key (settled_node "accepted" now n);; mret false
        | Some (graph_operation_id, kind, payload) =>
            enqueue_package job_id (pn_node_id n) kind (pk_base_commit r) payload d;;
            put_rollout_node key (dispatched_node (dispatched_state kind) kind (utf8_digest (JObj payload)) (dr_operation_id d)
                                    (Some graph_operation_id) history now n);;
            mret true
        end
  | _, _ => mret false
  end.

Definition advance_node (rollout_id job_id key : string) (d : draw) (now : Z) : M rollout_db bool :=
  v ← settle rollout_id job_id key d now;
  match v with
  | Continue queued => mret queued
  | Proceed history => dispatch_next rollout_id job_id key d now history
  end.

(** The loop over a batch; true when some operation was queued. *)
Fixpoint advance_nodes (rollout_id job_id : string) (draws : string → draw) (now : Z) (keys : list string)
    : M rollout_db bool :=
  match keys with
  | [] => mret false
  | key :: keys =>
      queued ← advance_node rollout_id job_id key (draws key) now;
      rest ← advance_nodes rollout_id job_id draws now keys;
      mret (queued || rest)
  end.

(** [_job_in_session]: the linked job, one that names the rollout, or a new one. *)
Definition job_in_session (rollout_id : string) (r : PackageRollout) (fresh : string * string * Z) : M rollout_db string :=
  s ← get;
  let linked := job_id ← pk_job_id r; (λ _, job_id) <$> t_jobs (rd_control s) !! job_id in
  match linked with
  | Some job_id => mret job_id
  | None =>
      match find_row (λ j, eqb (job_kind j) "package.rollout"
                           && py_eqb (item_of (job_payload j) "rollout_id") (JStr rollout_id)) (t_jobs (rd_control s)) with
      | Some (job_id, _) => mret job_id
      | None =>
          let '(job_id, request_id, now) := fresh in
          let payload := JObj [("rollout_id", JStr rollout_id)] in
          on_control (put_job job_id (MkJob request_id "package.rollout" "running" (pk_actor r) (pk_base_commit r) []
                                        (utf8_digest payload) payload None None 0 now now None));;
          mret job_id
      end
  end.

(** What a call of [advance] draws. *)
Record advance_inputs := AdvanceInputs {
  ai_now : Z; ai_fresh_job : string * string * Z; ai_draws : string → draw
}.

(** The end of [advance]: the batch is done, or the call returns the state it left. *)
Definition close_batch (rollout_id job_id : string) (keys : list string) (now : Z) : M rollout_db unit :=
  s ← get;
  match rd_rollouts s !! rollout_id with
  | None => mret ()
  | Some r =>
      if forallb (λ key, match rd_nodes s !! key with Some n => eqb (pn_state n) "accepted" | None => false end) keys then
        if existsb (λ p : string * PackageRolloutNode, (pk_current_batch r <? pn_batch_index p.2)%Z) (nodes_of s rollout_id) then
          put_rollout rollout_id (next_batch now r)
        else
          put_rollout rollout_id (completed_rollout now r);;
          set_job job_id "succeeded" job_status_reason job_updated_at
      else mret ()
  end.

Definition rollout_state (rollout_id : string) : M rollout_db string :=
  s ← get;
  match rd_rollouts s !! rollout_id with
  | Some r => mret (pk_state r)
  | None => throw EKey rollout_id
  end.

(** [PackageRolloutOrchestrator.advance]. *)
Definition advance_rollout (rollout_id : string) (i : advance_inputs) : M rollout_db string :=
  transaction (
    let now := ai_now i in
    s ← get;
    match rd_rollouts s !! rollout_id with
    | None => throw EKey rollout_id
    | Some r =>
        if among (pk_state r) ["completed"; "failed"; "cancelled"; "partial"] then mret (pk_state r) else
        let nodes := nodes_of s rollout_id in
        if negb (nonempty nodes) then
          put_rollout rollout_id (without_targets now r);; rollout_state rollout_id
        else
          job_id ← job_in_session rollout_id r (ai_fresh_job i);
          let batch := map fst (filter (λ p : string * PackageRolloutNode, pn_batch_index p.2 = pk_current_batch r) nodes) in
          if negb (nonempty batch) then
            put_rollout rollout_id (completed_rollout now r);;
            set_job job_id "succeeded" job_status_reason (λ _, now);;
            rollout_state rollout_id
          else
            advance_nodes rollout_id job_id (ai_draws i) now batch ≫= λ queued : bool,
            (if queued then
               alter_rollout rollout_id (λ r, touched now (if eqb (pk_state r) "rolling-back" then r else to_state "running" r))
             else close_batch rollout_id job_id batch now);;
            rollout_state rollout_id
    end).

(** ** Creation *)

Definition insert_rollout_node (key : string) (n : PackageRolloutNode) : M rollout_db unit :=
  s ← get;
  lift (ensure (is_None_b (rd_nodes s !! key)) EIntegrity "UNIQUE constraint failed");;
  lift (ensure (is_Some_b (t_nodes (rd_control s) !! pn_node_id n)) EIntegrity "FOREIGN KEY constraint failed");;
  put_rollout_node key n.

(** The CHECK constraints on the columns [create] takes from its plan. *)
Definition rollout_row_ok (r : PackageRollout) : bool :=
  let commit := Z.of_nat (String.length (pk_base_commit r)) in
  is_digest (pk_fleet_digest r) && match pk_previous_release_digest r with Some d => is_digest d | None => true end
  && (40 <=? commit)%Z && (commit <=? 128)%Z.

(** One projection per node: the first node is the canary. *)
Fixpoint insert_nodes (rollout_id : string) (p : ReconciliationPlan) (package_nodes : list OperationNode) (keys : string → string)
    (now order : Z) (node_ids : list string) : M rollout_db unit :=
  match node_ids with
  | [] => mret ()
  | node_id :: node_ids =>
      match head (filter (λ n, op_node_id n = node_id) package_nodes) with
      | None => throw ERuntime "StopIteration"
      | Some first =>
          payload ← lift (match lookup_key (rp_operation_payloads p) (op_id first) with
                          | Some v => mret v
                          | None => raise EKey (op_id first)
                          end);
          insert_rollout_node (keys node_id)
            (MkPackageNode rollout_id node_id (if (order =? 0)%Z then 0 else 1)%Z order (order =? 0)%Z "pending"
               (Some (op_kind first)) (Some (op_id first)) (Some (op_id first)) None None [] (utf8_digest payload)
               None None None None now now None);;
          insert_nodes rollout_id p package_nodes keys now (order + 1) node_ids
      end
  end.

(** [PackageRolloutOrchestrator.create], with the ids of the job, of the rollout and
    of its nodes. *)
Definition create_rollout (p : ReconciliationPlan) (deployment_id : option string) (actor request_id job_id rollout_id : string)
    (keys : string → string) (now : Z) : M rollout_db string :=
  let chosen := match deployment_id, rp_releases p with
                | None, [(only, _)] => Some only
                | d, _ => d
                end in
  deployment ← lift (match chosen with
                     | Some d => rollout_check (negb (eqb d "")) "package deployment ID is invalid";; mret d
                     | None => rollout_error "package deployment ID is invalid"
                     end);
  graph ← lift (match rp_operation_graph p with
                | Some g => mret g
                | None => rollout_error "package rollout plan has no operation graph"
                end);
  release ← lift (package_mapping (field (rp_releases p) deployment) "package release");
  release_digest ← lift (raw_package_digest (field release "release_digest"));
  deployment_digest ← lift (raw_package_digest (field release "deployment_digest"));
  lock_digest ← lift (raw_package_digest (default (JStr release_digest) (lookup_key release "lock_digest")));
  let package_nodes := filter (λ n, op_workload_id n = deployment ∧ String.prefix "package." (op_kind n) = true)
                         (graph_nodes graph) in
  lift (rollout_check (nonempty package_nodes) "package rollout has no target operations");;
  let document := JObj [("schema_version", JInt 1); ("deployment_id", JStr deployment); ("operation_graph", graph_json graph);
                        ("operation_payloads", JObj (rp_operation_payloads p)); ("release", JObj release);
                        ("targets", JArr (map JStr (rp_targets p)))] in
  let plan_digest := utf8_digest document in
  let fleet_digest := match rp_fleet_evidence_digest p with
                      | Some (String _ _ as d) => d
                      | _ => utf8_digest (JArr (map JStr (rp_targets p)))
                      end in
  let node_ids := py_sorted (remove_dups (map op_node_id package_nodes)) in
  let payload := JObj [("rollout_id", JStr rollout_id); ("plan_digest", JStr plan_digest)] in
  transaction (
    s ← get;
    match find_row (λ r, eqb (pk_plan_digest r) plan_digest) (rd_rollouts s) with
    | Some (existing, _) => mret existing
    | None =>
        lift (ensure (is_None_b (t_jobs (rd_control s) !! job_id) && is_None_b (rd_rollouts s !! rollout_id)
                      && is_None_b (find_row (λ j, eqb (job_request_id j) request_id) (t_jobs (rd_control s))))
                EIntegrity "UNIQUE constraint failed");;
        on_control (put_job job_id (MkJob request_id "package.rollout" "running" actor (rp_commit p) (rp_targets p)
                                      (utf8_digest payload) payload None None 0 now now None));;
        let r :=
          MkPackageRollout (Some job_id) deployment deployment_digest release_digest
            (match field release "previous_release_digest" with JStr d => Some d | _ => None end)
            (rp_commit p) (utf8_digest (JObj [("deployment_id", JStr deployment); ("release_digest", JStr release_digest)]))
            lock_digest fleet_digest (utf8_digest (JObj (rp_placements p))) plan_digest "planned" actor document
            (JObj [("accepted", JInt 0); ("total", JInt (Z.of_nat (length node_ids)))]) 0 None None None now now None in
        lift (ensure (rollout_row_ok r) EIntegrity "CHECK constraint failed");;
        put_rollout rollout_id r;;
        insert_nodes rollout_id p package_nodes keys now 0 node_ids;;
        mret rollout_id
    end).
End orchestrator.

(** The write of [ProductionPackageProjectionService.rollback] to a rollout. *)
Definition begin_rollback (rollout_id : string) (now : Z) : M rollout_db unit :=
  alter_rollout rollout_id (λ r, touched now (to_state "rolling-back" r)).

(** ** The worker *)

Definition advance_states : list string :=
  ["planned"; "running"; "preparing"; "activating"; "health-checking"; "soaking"; "rolling-back"].
Definition terminal_operation_states : list string := ["succeeded"; "failed"; "waiting-for-operator"; "expired"].

(** [ORDER BY created_at, id]. *)
Definition rollout_le (p q : string * PackageRollout) : Prop :=
  (pk_created_at p.2 < pk_created_at q.2)%Z ∨ pk_created_at p.2 = pk_created_at q.2 ∧ String.le p.1 q.1.
#[export] Instance rollout_le_dec p q : Decision (rollout_le p q).
Proof. unfold rollout_le. apply _. Defined.

(** [_candidates]. *)
Definition rollout_candidates (s : rollout_db) : list string :=
  map fst (merge_sort rollout_le (filter (λ p : string * PackageRollout, pk_state p.2 ∈ advance_states)
                                    (map_to_list (rd_rollouts s)))).

(** The loop of [_ready]: whether the rollout is ready, or what is missing. *)
Fixpoint nodes_ready (s : rollout_db) (nodes : list PackageRolloutNode) : bool + string :=
  match nodes with
  | [] => inl false
  | n :: nodes =>
      if eqb (pn_state n) "accepted" then nodes_ready s nodes else
      match pn_operation_id n with
      | None => inl true
      | Some id =>
          match t_operations (rd_control s) !! id with
          | None => inr "package rollout operation is unavailable"
          | Some o => if among (so_state o) terminal_operation_states then inl true else nodes_ready s nodes
          end
      end
  end.

(** [_ready]; the text is what it leaves in [last_error]. *)
Definition rollout_ready (s : rollout_db) (rollout_id : string) : bool + string :=
  match rd_rollouts s !! rollout_id with
  | None => inl false
  | Some r =>
      if negb (among (pk_state r) advance_states) then inl false else
      match filter (λ p : string * PackageRolloutNode, pn_batch_index p.2 = pk_current_batch r) (nodes_of s rollout_id) with
      | [] => inr "package rollout current batch is unavailable"
      | nodes => if eqb (pk_state r) "planned" then inl true else nodes_ready s (map snd nodes)
      end
  end.

(** The database and [last_error] of the worker. *)
Record rollout_worker := RolloutWorker { wk_db : rollout_db; wk_last_error : option string }.

Definition set_wk_db (d : rollout_db) (w : rollout_worker) : rollout_worker := RolloutWorker d (wk_last_error w).
Definition set_last_error (e : option string) (w : rollout_worker) : rollout_worker := RolloutWorker (wk_db w) e.

Section worker.
Context {prepared : Type} (update_authorizer : option (UpdateAuthorizer prepared)).
(** Whether the claim on a rollout is free, and what an advance of it draws. *)
Context (claimed : string → bool) (inputs : string → advance_inputs).

Fixpoint tick_rollouts (ids : list string) : M rollout_worker bool :=
  match ids with
  | [] => mret false
  | rollout_id :: ids =>
      if negb (claimed rollout_id) then tick_rollouts ids else
      w ← get;
      match rollout_ready (wk_db w) rollout_id with
      | inr error => modify (set_last_error (Some error));; tick_rollouts ids
      | inl false => tick_rollouts ids
      | inl true =>
          zoom wk_db set_wk_db (advance_rollout update_authorizer rollout_id (inputs rollout_id));;
          mret true
      end
  end.

(** [PackageRolloutWorker.tick]. *)
Definition tick_packages : M rollout_worker bool :=
  modify (set_last_error None);;
  w ← get;
  tick_rollouts (rollout_candidates (wk_db w)).
End worker.

(** ** The loop of the control worker ([worker.py]) *)

Section run_once.
Context {W : Type} (housekeeping loop_heartbeat : option (M W unit)) (sources : list (M W bool)).

(** The sources in the order they are asked, and the cursor after the one that had
    work. *)
Fixpoint run_sources (cursor : nat) (offsets : list nat) : M W (option nat) :=
  match offsets with
  | [] => mret None
  | offset :: offsets =>
      let index := (cursor + offset) mod length sources in
      match sources !! index with
      | None => mret None
      | Some source =>
          source ≫= λ worked : bool,
          if worked then mret (Some ((index + 1) mod length sources)) else run_sources cursor offsets
      end
  end.

(** [Worker.run_once], with [_source_cursor] as a state of its own. *)
Definition run_once : M (nat * W) bool :=
  (match housekeeping with Some f => zoom snd (λ w s, (s.1, w)) f | None => mret () end);;
  s ← get;
  let cursor := if length sources <=? s.1 then 0 else s.1 in
  modify (λ s, (cursor, s.2));;
  moved ← zoom snd (λ w s, (s.1, w)) (run_sources cursor (seq 0 (length sources)));
  match moved with
  | Some next => modify (λ s, (next, s.2))
  | None => mret ()
  end;;
  (match loop_heartbeat with Some f => zoom snd (λ w s, (s.1, w)) f | None => mret () end);;
  mret (is_Some_b moved).
End run_once.
