(* ===== verification/PackagePlans.v ===== *)
(** * Plans of package rollouts ([control/src/vonk_control/package_rollouts.py])

    [PackageDesiredStateResolver] turns deployments of the repository into a
    reconciliation plan: it loads each deployment and the release it names, selects the
    nodes and builds the graph of package operations. The repository, the validator of
    JSON schemas and the trust projection are parameters; [WorkloadDeployment.load] is that of
    [src/cluster_profiles/workload_packages/contracts.py]. Observations are JSON
    objects, as the projection service passes them; [(?i)] folds ASCII letters. *)

From S2P Require Import Prelude Identifiers Canonical Documents JsonText Contracts PackageEngine Protocol.
From S2P Require Import OperationGraph Orchestration AgentTables AgentJobs Routes ReleaseLocks PackageRollouts.

(** ** Documents *)

Record RepositoryDocument := MkDocument { doc_parsed : json; doc_content : string; doc_sha256 : string }.

Record WorkloadDeployment := MkDeployment {
  wd_deployment_id : string; wd_family_id : string; wd_release_digest : string; wd_selector : json; wd_ports : json;
  wd_routing : json; wd_resources : json; wd_document : json
}.

(** [_canonical]. *)
Definition canonical_bytes (d : WorkloadDeployment) : string := canonical (wd_document d) +:+ newline.

Class PackageSources := {
  read_document : string → string → result RepositoryDocument;
  validate_deployment_schema : json → result unit;
  package_trust : option (string → string → string → bool)
}.

(** [except Exception as error: raise PackageRolloutError(m) from error]. *)
Definition rollout_wrapped {A} (r : result A) (m : string) : result A :=
  match r with Ok a => Ok a | Err _ => rollout_error m end.

(** [(token|password|secret|api[_-]?key)\s*=]. *)
Fixpoint assigned (s : string) : bool :=
  match s with
  | String c rest => eqb c "="%char || is_py_space c && assigned rest
  | EmptyString => false
  end.
Definition secret_word_at (s : string) : bool :=
  existsb (λ word, match strip_prefix word s with Some rest => assigned rest | None => false end)
    ["token"; "password"; "secret"; "apikey"; "api_key"; "api-key"].

(** [..] up to a slash or the end; [$] also matches before a last line feed. *)
Definition parent_at (s : string) : bool :=
  match strip_prefix ".." s with
  | Some rest => eqb rest "" || eqb rest newline || String.prefix "/" rest
  | None => false
  end.

(** [_UNSAFE_ARGUMENT.search]. *)
Definition unsafe_argument (argument : string) : bool :=
  let s := lower argument in
  String.prefix "/" s || parent_at s
  || search (λ s, existsb (λ p, String.prefix p s) ["http://"; "https://"; "file://"; "secret://"; "-----begin"; "=/"]
                  || secret_word_at s
                  || match strip_prefix "/" s with Some rest => parent_at rest | None => false end) s.

Definition workload_check (b : bool) (m : string) : result unit := ensure b EValue m.

(** [v[key]], and the same for a value the schema makes a string. *)
Definition subscript (v : json) (key : string) : result json :=
  match v with
  | JObj items => match lookup_key items key with Some item => mret item | None => raise EKey key end
  | _ => raise EType "object is not subscriptable"
  end.
Definition text_item (v : json) (key : string) : result string :=
  item ← subscript v key;
  match item with JStr s => mret s | _ => raise EType "a string is expected" end.

Section loading.
Context `{PackageSources}.

(** [WorkloadDeployment.load]. *)
Definition load_deployment (document : json) : result WorkloadDeployment :=
  match document with
  | JObj _ =>
      workload_check (Z.of_nat (String.length (canonical document)) <=? 1024 * 1024)%Z "workload deployment size is invalid";;
      let value := sort_json document in
      validate_deployment_schema value;;
      arguments ← subscript value "arguments";
      workload_check (match arguments with
                      | JArr l => forallb (λ a, negb (is_str unsafe_argument a)) l
                      | _ => true
                      end) "workload deployment argument contains payload or secret material";;
      routing ← subscript value "routing";
      ports ← subscript value "ports";
      port ← text_item routing "port";
      workload_check (match ports with JObj items => among port items.*1 | _ => false end)
        "workload deployment route references an unknown port";;
      deployment_id ← text_item value "deployment_id";
      family_id ← text_item value "family_id";
      release_digest ← text_item value "release_digest";
      selector ← subscript value "selector";
      resources ← subscript value "resources";
      mret (MkDeployment deployment_id family_id release_digest selector ports routing resources value)
  | _ => raise EValue "workload deployment must be an object"
  end.

Definition release_path (d : WorkloadDeployment) : string :=
  "manifests/workload-releases/" +:+ wd_family_id d +:+ "/" +:+ wd_release_digest d +:+ ".json".

(** [_load_lock]. *)
Definition load_lock (commit : string) (d : WorkloadDeployment) : result (PackageReleaseLock * string) :=
  document ← rollout_wrapped (read_document commit (release_path d)) "promoted workload release is unavailable";
  let raw := doc_content document in
  lock ← rollout_wrapped (parse_release_lock raw) "promoted workload release lock is invalid";
  rollout_check (eqb (lock_family_id lock) (wd_family_id d) && eqb (lock_digest lock) (wd_release_digest d))
    "deployment release identity does not match lock";;
  rollout_check (is_Some_b (lock_resource_envelope lock)) "promoted workload release resource envelope is missing";;
  rollout_check (eqb raw (lock_canonical_bytes lock) || eqb raw (lock_canonical_bytes lock +:+ newline))
    "workload release lock is not canonical";;
  mret (lock, doc_sha256 document).
End loading.

(** [_package_digest]. *)
Definition package_digest (d : WorkloadDeployment) : string := Sha256.hexdigest (canonical_bytes d).

(** ** Observations *)

(** [observation.get(name, default)]. *)
Definition observed (o : list (string * json)) (name : string) (fallback : json) : json :=
  default fallback (lookup_key o name).

(** [_node_id]. *)
Definition package_node_id (v : json) : result string :=
  match v with
  | JStr s => rollout_check (is_node_id s) "package target node ID is invalid";; mret s
  | _ => rollout_error "package target node ID is invalid"
  end.

(** [_labels]. *)
Definition observed_labels (o : list (string * json)) : list (string * json) :=
  match observed o "labels" (JObj []) with
  | JObj labels => labels
  | _ => match item_of (observed o "node" JNull) "labels" with JObj labels => labels | _ => [] end
  end.

Definition no_digest : string := "0000000000000000000000000000000000000000000000000000000000000000".

Definition release_digest_of (v : json) : option string :=
  match v with JStr s => if is_digest s then Some s else None | _ => None end.
Definition text_or_zero (v : json) : string := match v with JStr s => s | _ => no_digest end.

(** [bool(v)]. *)
Definition truthy (v : json) : bool :=
  match v with
  | JNull => false
  | JBool b => b
  | JInt n => negb (n =? 0)%Z
  | JStr s => negb (eqb s "")
  | JArr l => nonempty l
  | JObj l => nonempty l
  end.
Definition py_or (v w : json) : json := if truthy v then v else w.

(** One of the forms a package generation is observed in. *)
Definition release_in (value : json) (deployment_id : string) : option (string * string) :=
  match value with
  | JObj items =>
      match field items deployment_id with
      | JObj raw =>
          (λ release, (release, text_or_zero (field raw "deployment_digest")))
            <$> release_digest_of (py_or (field raw "release_digest") (field raw "release"))
      | raw => (λ release, (release, no_digest)) <$> release_digest_of raw
      end
  | JArr items =>
      head (omap (λ item, match item with
                          | JObj i =>
                              if py_eqb (field i "deployment_id") (JStr deployment_id) then
                                (λ release, (release, text_or_zero (field i "deployment_digest")))
                                  <$> release_digest_of (field i "release_digest")
                              else None
                          | _ => None
                          end) items)
  | _ => None
  end.

(** [_current_release]. *)
Definition current_release (o : list (string * json)) (deployment_id : string) : option (string * string) :=
  head (omap (λ name, release_in (observed o name (JObj [])) deployment_id)
          ["current_packages"; "packages"; "current_workloads"]
        ++ omap (λ name, (λ release, (release, no_digest)) <$> release_digest_of (observed o name JNull))
             ["current_release_digest"; "package_release_digest"]).

(** ** Selection *)

(** [set(v)] of an iterable. *)
Definition py_set (v : json) : result (list json) :=
  match v with
  | JArr l => ensure (forallb hashable l) EType "unhashable type";; mret l
  | JObj items => mret (map JStr items.*1)
  | JStr s => mret (map (λ c, JStr (String c EmptyString)) (String.list_ascii_of_string s))
  | _ => raise EType "object is not iterable"
  end.

(** [v in collection] for a set. *)
Definition in_set (v : json) (l : list string) : result bool :=
  ensure (hashable v) EType "unhashable type";; mret (is_str (λ s, among s l) v).

(** [isinstance(v, int)], a boolean being one. *)
Definition integer (v : json) : option Z :=
  match v with JInt n => Some n | JBool b => Some (if b then 1 else 0)%Z | _ => None end.

(** The requirements of a deployment and its release on a node. *)
Record requirements := MkRequirements {
  rq_count : Z; rq_labels : list (string * json); rq_preferred : list json; rq_memory : Z; rq_storage : Z;
  rq_gpu_memory : Z; rq_capabilities : list string; rq_architectures : list string; rq_operating_systems : list string
}.

Definition maximum (v : json) (n : Z) : result Z :=
  match integer v with Some m => mret (Z.max m n) | None => raise EType "'>' not supported" end.

(** [set(compatibility.get(key, ()))] of a parsed lock, whose values are tuples of
    identifiers. *)
Definition identifiers_of (compatibility : list (string * json)) (key : string) : list string :=
  match lookup_key compatibility key with
  | Some (JArr l) => omap (λ v, match v with JStr s => Some s | _ => None end) l
  | _ => []
  end.

(** The first part of [_select_nodes]: the deployment and the release, before any
    observation. *)
Definition requirements_of (d : WorkloadDeployment) (lock : PackageReleaseLock) : result requirements :=
  selector ← package_mapping (wd_selector d) "deployment selector";
  labels ← package_mapping (field selector "required_labels") "deployment labels";
  count ← match field selector "node_count" with
          | JInt n => rollout_check (1 <=? n)%Z "deployment selector node_count is invalid";; mret n
          | _ => rollout_error "deployment selector node_count is invalid"
          end;
  resources ← package_mapping (wd_resources d) "deployment resources";
  envelope ← package_mapping (default JNull (lock_resource_envelope lock)) "release resource envelope";
  rollout_check (py_eqb (field envelope "required_nodes") (JInt count))
    "deployment GPU node count does not match release resource envelope";;
  per_node ← package_mapping (field envelope "per_node") "release per-node resources";
  match field per_node "host_memory_bytes", field per_node "installed_bytes", field per_node "transient_bytes",
        field per_node "gpu_memory_bytes" with
  | JInt memory, JInt installed, JInt transient, JInt gpu =>
      rollout_check ((0 <=? memory)%Z && (0 <=? installed)%Z && (0 <=? transient)%Z && (0 <=? gpu)%Z)
        "release resource envelope is incomplete";;
      memory ← maximum (observed resources "memory_bytes" (JInt 0)) memory;
      storage ← maximum (observed resources "storage_bytes" (JInt 0)) (installed + transient);
      compatibility ← package_mapping (lock_compatibility lock) "release compatibility";
      mret (MkRequirements count labels
              (match field selector "preferred_node_ids" with JArr l => l | _ => [] end)
              memory storage gpu (identifiers_of compatibility "required_capabilities")
              (identifiers_of compatibility "architectures") (identifiers_of compatibility "operating_systems"))
  | _, _, _, _ => rollout_error "release resource envelope is incomplete"
  end.

Definition at_least (v : json) (minimum : Z) : bool :=
  match integer v with Some n => (minimum <=? n)%Z | None => false end.

(** A known property of the node, when the release restricts it. *)
Definition supported (v : json) (allowed : list string) : result bool :=
  if negb (nonempty allowed) then mret true else
  match v with JNull => mret true | v => in_set v allowed end.

(** One turn of the loop of [_select_nodes]: whether the node is a candidate. *)
Definition eligible (q : requirements) (o : list (string * json)) : result bool :=
  package_node_id (observed o "node_id" JNull);;
  if json_eqb (observed o "healthy" (JBool true)) (JBool false) then mret false else
  active ← in_set (observed o "agent_state" (JStr "active")) ["active"; "ready"; "online"];
  if negb active then mret false else
  if negb (at_least (observed o "memory_available_bytes" JNull) (rq_memory q)
           && at_least (observed o "disk_available_bytes" JNull) (rq_storage q)
           && ((rq_gpu_memory q <=? 0)%Z
               || at_least (observed o "gpu_memory_available_bytes" (observed o "gpu_memory_free_bytes" JNull))
                    (rq_gpu_memory q)))
  then mret false else
  capabilities ← py_set (py_or (observed o "capabilities" (JArr [])) (JArr []));
  if negb (forallb (λ c, existsb (λ v, py_eqb v (JStr c)) capabilities) (rq_capabilities q)) then mret false else
  architecture ← supported (observed o "architecture" JNull) (rq_architectures q);
  if negb architecture then mret false else
  system ← supported (observed o "operating_system" JNull) (rq_operating_systems q);
  if negb system then mret false else
  mret (forallb (λ p : string * json, py_eqb (field (observed_labels o) p.1) p.2) (rq_labels q)).

Fixpoint candidates (q : requirements) (observations : list (list (string * json)))
    : result (list (string * list (string * json))) :=
  match observations with
  | [] => mret []
  | o :: observations =>
      accepted ← eligible q o;
      node_id ← package_node_id (observed o "node_id" JNull);
      rest ← candidates q observations;
      mret (if accepted : bool then (node_id, o) :: rest else rest)
  end.

Definition preferred (q : requirements) (node_id : string) : bool := existsb (λ v, py_eqb v (JStr node_id)) (rq_preferred q).

(** The key of the sort: the preferred nodes first, then by name. *)
Definition candidate_le (q : requirements) (p r : string * list (string * json)) : Prop :=
  preferred q p.1 = true ∧ preferred q r.1 = false ∨ preferred q p.1 = preferred q r.1 ∧ String.le p.1 r.1.
#[export] Instance candidate_le_dec q p r : Decision (candidate_le q p r).
Proof. unfold candidate_le. apply _. Defined.

(** [_select_nodes], with a release. *)
Definition select_nodes (d : WorkloadDeployment) (observations : list (list (string * json))) (lock : PackageReleaseLock)
    : result (list (string * list (string * json))) :=
  q ← requirements_of d lock;
  found ← candidates q observations;
  rollout_check (rq_count q <=? Z.of_nat (length found))%Z "deployment has no compatible node placement";;
  mret (take (Z.to_nat (rq_count q)) (merge_sort (candidate_le q) found)).

(** ** The graph *)

(** The payload of an operation on a release of the deployment. *)
Definition payload_of (d : WorkloadDeployment) (release_digest deployment_digest : string) : list (string * json) :=
  [("schema_version", JInt 1); ("deployment_id", JStr (wd_deployment_id d)); ("release_digest", JStr release_digest);
   ("deployment_digest", JStr deployment_digest); ("deployment", sort_json (wd_document d));
   ("deployment_config_digest", JStr (package_digest d))].

(** [package_operation_payload], of a loaded deployment. *)
Definition package_operation_payload (d : WorkloadDeployment) (operation : string) : result (list (string * json)) :=
  kind ← rollout_wrapped (operation_of_value operation) "package operation is unsupported";
  rollout_check (release_bound kind) "package operation is not release-bound";;
  release_digest ← raw_package_digest (JStr (wd_release_digest d));
  let payload := payload_of d release_digest (package_digest d) in
  parse_package_request kind (JObj payload);;
  mret payload.

(** [_package_payload_for_identity]. *)
Definition package_payload_for_identity (d : WorkloadDeployment) (operation release_digest deployment_digest : string)
    : result (list (string * json)) :=
  kind ← operation_of_value operation;
  release_digest ← raw_package_digest (JStr release_digest);
  deployment_digest ← raw_package_digest (JStr deployment_digest);
  let payload := payload_of d release_digest deployment_digest in
  parse_package_request kind (JObj payload);;
  mret payload.

Definition package_kinds : list string := values [PACKAGE_PREPARE; PACKAGE_ACTIVATE; PACKAGE_HEALTH].

(** The operations of one node, from the generation observed on it. *)
Definition kinds_of (d : WorkloadDeployment) (previous : option (string * string)) : list string :=
  match previous with
  | None => package_kinds
  | Some (release, _) =>
      if eqb release (wd_release_digest d) then values [PACKAGE_HEALTH] else operation_value PACKAGE_STOP :: package_kinds
  end.

Definition package_operation_id (deployment_id node_id kind : string) : string :=
  deployment_id +:+ ":" +:+ node_id +:+ ":" +:+ kind.

Definition package_dependencies (deployment_id node_id : string) (kinds : list string) (kind : string) : list string :=
  let id k := package_operation_id deployment_id node_id k in
  let among_kinds k := among (operation_value k) kinds in
  if eqb kind PACKAGE_STOP then [id PACKAGE_PREPARE]
  else if eqb kind PACKAGE_PREPARE then []
  else if eqb kind PACKAGE_ACTIVATE then
    if among_kinds PACKAGE_STOP then py_sorted [id PACKAGE_PREPARE; id PACKAGE_STOP] else [id PACKAGE_PREPARE]
  else if among_kinds PACKAGE_ACTIVATE then [id PACKAGE_ACTIVATE]
  else if among_kinds PACKAGE_PREPARE then [id PACKAGE_PREPARE] else [].

(** One operation of a node, with its payload. *)
Definition node_operation (d : WorkloadDeployment) (deployment_id node_id : string) (previous : option (string * string))
    (kind : string) : result (OperationNode * list (string * json)) :=
  payload ← match previous with
            | Some (release, deployment) =>
                if eqb kind PACKAGE_STOP then package_payload_for_identity d kind release deployment
                else package_operation_payload d kind
            | None => package_operation_payload d kind
            end;
  mret (Node (package_operation_id deployment_id node_id kind) node_id deployment_id kind
          (package_dependencies deployment_id node_id (kinds_of d previous) kind)
          (if eqb kind PACKAGE_ACTIVATE then Some (operation_value PACKAGE_ROLLBACK) else None) (utf8_digest (JObj payload)),
        payload).

(** [setdefault]. *)
Definition set_default (items : list (string * json)) (key : string) (v : json) : list (string * json) :=
  if among key items.*1 then items else items ++ [(key, v)].

(** The entry of a release, with the rollback of a node that runs another one. *)
Definition with_rollback (node_id : string) (previous : string * string) (payload release : list (string * json))
    : list (string * json) :=
  let rollbacks := match field release "rollback_payloads" with JObj r => r | _ => [] end in
  set_default (set_default (put_item release "rollback_payloads" (JObj (put_item rollbacks node_id (JObj payload))))
                 "previous_release_digest" (JStr previous.1))
    "previous_deployment_digest" (JStr previous.2).

(** What [_package_graph] collects. *)
Record graph_parts := MkParts {
  gp_nodes : list OperationNode; gp_payloads : list (string * json); gp_placements : list (string * json);
  gp_routes : list (string * json); gp_releases : list (string * json); gp_groups : list (string * json)
}.
Definition no_parts : graph_parts := MkParts [] [] [] [] [] [].

(** [nodes[operation_id] = ...; payloads[operation_id] = ...]. *)
Definition put_node_of (n : OperationNode) (nodes : list OperationNode) : list OperationNode :=
  if among (op_id n) (map op_id nodes) then map (λ m, if eqb (op_id m) (op_id n) then n else m) nodes else nodes ++ [n].
Definition put_operation_of (g : graph_parts) (p : OperationNode * list (string * json)) : graph_parts :=
  MkParts (put_node_of p.1 (gp_nodes g)) (put_item (gp_payloads g) (op_id p.1) (JObj p.2)) (gp_placements g) (gp_routes g)
    (gp_releases g) (gp_groups g).

Fixpoint node_parts (d : WorkloadDeployment) (deployment_id : string) (release : list (string * json)) (g : graph_parts)
    (selected : list (string * list (string * json))) : result (list (string * json) * graph_parts) :=
  match selected with
  | [] => mret (release, g)
  | (node_id, o) :: selected =>
      let previous := current_release o deployment_id in
      release ← match previous with
                | Some p =>
                    if eqb p.1 (wd_release_digest d) then mret release else
                    payload ← package_payload_for_identity d PACKAGE_ROLLBACK p.1 p.2;
                    mret (with_rollback node_id p payload release)
                | None => mret release
                end;
      operations ← traverse (node_operation d deployment_id node_id previous) (kinds_of d previous);
      node_parts d deployment_id release (foldl put_operation_of g operations) selected
  end.

(** A deployment with its release and the nodes selected for it. *)
Record deployment_plan := MkDeploymentPlan {
  dp_deployment : WorkloadDeployment; dp_lock : PackageReleaseLock; dp_selected : list (string * list (string * json));
  dp_path : string; dp_sha256 : string; dp_lock_sha256 : string
}.

(** One turn of the loop of [_package_graph]; a node that was selected twice is observed
    as its first observation. *)
Definition deployment_parts (g : graph_parts) (deployment_id : string) (p : deployment_plan) : result graph_parts :=
  let d := dp_deployment p in
  let first_observed id := default [] (snd <$> head (filter (λ q, q.1 = id) (dp_selected p))) in
  let node_ids := (dp_selected p).*1 in
  let release := [("family_id", JStr (wd_family_id d)); ("release_digest", JStr (wd_release_digest d));
                  ("deployment_digest", JStr (package_digest d)); ("lock_digest", JStr (lock_digest (dp_lock p)));
                  ("resource_envelope", default JNull (lock_resource_envelope (dp_lock p)));
                  ("rollback_payloads", JObj [])] in
  alias ← text_item (wd_routing d) "alias";
  port_name ← text_item (wd_routing d) "port";
  port ← subscript (wd_ports d) port_name;
  entrypoint ← match head node_ids with Some id => mret id | None => raise EKey "tuple index out of range" end;
  '(release, g) ← node_parts d deployment_id release g (map (λ id, (id, first_observed id)) node_ids);
  mret (MkParts (gp_nodes g) (gp_payloads g)
          (put_item (gp_placements g) deployment_id (JArr (map JStr node_ids)))
          (put_item (gp_routes g) alias
             (JObj [("deployment_id", JStr deployment_id); ("entrypoint_node_id", JStr entrypoint); ("port", port)]))
          (put_item (gp_releases g) deployment_id (JObj release))
          (put_item (gp_groups g) deployment_id
             (JObj [("nodes", JArr (map JStr node_ids)); ("release_digest", JStr (wd_release_digest d));
                    ("deployment_digest", JStr (package_digest d))]))).

Fixpoint all_parts (g : graph_parts) (plans : list (string * deployment_plan)) : result graph_parts :=
  match plans with
  | [] => mret g
  | (deployment_id, p) :: plans => g ← deployment_parts g deployment_id p; all_parts g plans
  end.

(** [_topological]: the loop is that of the reconciliation graph, with an exception of
    its own. *)
Definition package_topological (nodes : list OperationNode) : result (list OperationNode) :=
  match topological (by_ids nodes) with
  | Ok l => Ok l
  | Err _ => rollout_error "package operation graph contains a cycle"
  end.

(** [_package_graph]. *)
Definition package_graph (commit : string) (plans : list (string * deployment_plan)) : result (OperationGraph * graph_parts) :=
  g ← all_parts no_parts plans;
  ordered ← package_topological (gp_nodes g);
  let targets := py_sorted (remove_dups (map op_node_id ordered)) in
  let digest := document_digest (graph_document commit targets ordered) in
  mret (Graph ("pending:" +:+ digest) commit targets ordered digest,
        MkParts ordered (merge_sort key_le (gp_payloads g)) (gp_placements g) (gp_routes g) (gp_releases g) (gp_groups g)).

(** ** The plan ([reconcile.py]) *)

(** [_freeze_mapping]: the keys in order, also of the mappings inside. *)
Fixpoint freeze (v : json) : json :=
  match v with
  | JObj items => JObj (merge_sort key_le (map (λ p : string * json, (p.1, freeze p.2)) items))
  | v => v
  end.
Definition freeze_mapping (items : list (string * json)) : list (string * json) :=
  match freeze (JObj items) with JObj items => items | _ => [] end.

(** The checks of [_plan_content] on the values of a resolved plan. *)
Definition check_plan_content (commit : string) (targets : list string) (graph : OperationGraph) (range : Z * Z)
    (fleet : option string) : result unit :=
  value_check (nonempty targets && forallb nonblank targets) "reconciliation definitions require nonempty string targets";;
  value_check (distinct targets) "reconciliation targets must be unique";;
  value_check (match fleet with Some d => is_digest d | None => true end) "reconciliation fleet evidence digest is invalid";;
  value_check (eqb (graph_base_commit graph) commit) "reconciliation operation graph is invalid";;
  value_check ((1 <=? range.1)%Z && (range.1 <=? range.2)%Z) "reconciliation agent protocol range is invalid".

(** What the digest of the plan is taken of. *)
Definition plan_content (commit : string) (targets : list string) (placements routes releases groups digests : list (string * json))
    (graph : OperationGraph) (payloads : list (string * json)) (range : Z * Z) (fleet : option string) : json :=
  JObj ([("commit", JStr commit); ("targets", JArr (map JStr (py_sorted targets))); ("placements", JObj placements);
         ("routes", JObj routes); ("releases", JObj releases); ("workload_groups", JObj groups); ("input_digests", JObj digests)]
        ++ match fleet with Some d => [("fleet_evidence_digest", JStr d)] | None => [] end
        ++ [("operation_graph", graph_json graph); ("operation_payloads", JObj payloads);
            ("agent_protocol_range", JArr [JInt range.1; JInt range.2])]).

(** [resolved_reconciliation_plan]. *)
Definition resolved_reconciliation_plan (commit : string) (targets : list string) (g : graph_parts)
    (digests : list (string * json)) (graph : OperationGraph) (range : Z * Z) (fleet : option string)
    : result ReconciliationPlan :=
  check_plan_content commit targets graph range fleet;;
  let content := plan_content commit targets (gp_placements g) (gp_routes g) (gp_releases g) (gp_groups g) digests graph
                   (gp_payloads g) range fleet in
  mret (MkReconciliationPlan commit (py_sorted targets) (freeze_mapping (gp_placements g)) (freeze_mapping (gp_routes g))
          (freeze_mapping (gp_releases g)) (freeze_mapping (gp_groups g)) (merge_sort key_le digests) fleet
          (document_digest content) (Some graph) (freeze_mapping (gp_payloads g)) (Some range)).

(** ** Resolution *)

Section resolving.
Context `{PackageSources}.

(** One turn of the loop of [resolve]. *)
Definition plan_deployment (commit : string) (evidence : list (list (string * json))) (deployment_id : string)
    : result deployment_plan :=
  let path := "config/workload-deployments/" +:+ deployment_id +:+ ".toml" in
  '(document, d) ← rollout_wrapped
    (document ← read_document commit path;
     parsed ← package_mapping (doc_parsed document) "workload deployment";
     d ← load_deployment (JObj parsed);
     mret (document, d)) "workload deployment document is invalid";
  rollout_check (eqb (wd_deployment_id d) deployment_id) "deployment ID does not match repository path";;
  '(lock, lock_sha256) ← load_lock commit d;
  rollout_check (match package_trust with
                 | Some trusted => trusted (wd_release_digest d) (lock_canonical_bytes lock) commit
                 | None => true
                 end) "workload release is not TUF-authorized";;
  selected ← select_nodes d evidence lock;
  mret (MkDeploymentPlan d lock selected path (doc_sha256 document) lock_sha256).

Definition input_digests (plans : list (string * deployment_plan)) : list (string * json) :=
  foldl (λ digests p, put_item (put_item digests (dp_path p.2) (JStr (dp_sha256 p.2)))
                        (release_path (dp_deployment p.2)) (JStr (dp_lock_sha256 p.2))) [] plans.

(** The node of the evidence of the fleet. *)
Definition fleet_entry (o : list (string * json)) : result json :=
  node_id ← package_node_id (observed o "node_id" JNull);
  mret (JObj [("node_id", JStr node_id); ("healthy", JBool (truthy (observed o "healthy" (JBool true))))]).

(** [sorted] of mappings: two or more of them are compared, and Python has no order on
    them. *)
Definition sorted_mappings (l : list json) : result (list json) :=
  match l with
  | [] | [_] => mret l
  | _ => raise EType "'<' not supported between instances of 'dict' and 'dict'"
  end.

(** The plans of the deployments and their graph, before the evidence of the fleet. *)
Definition resolve_parts (commit : string) (deployment_ids : list string) (evidence : list (list (string * json)))
    : result (list (string * deployment_plan) * OperationGraph * graph_parts) :=
  rollout_check (is_commit commit) "base Git commit is invalid";;
  let ids := py_sorted (remove_dups deployment_ids) in
  rollout_check (nonempty ids && forallb (λ id, negb (eqb id "")) ids) "deployment IDs are invalid";;
  rollout_check (nonempty evidence) "fleet observations are required";;
  plans ← traverse (λ id, p ← plan_deployment commit evidence id; mret (id, p)) ids;
  '(graph, g) ← package_graph commit plans;
  mret (plans, graph, g).

(** [PackageDesiredStateResolver.resolve]. *)
Definition resolve_packages (commit : string) (deployment_ids : list string) (evidence : list (list (string * json)))
    : result ReconciliationPlan :=
  '(plans, graph, g) ← resolve_parts commit deployment_ids evidence;
  let targets := py_sorted (remove_dups (map op_node_id (graph_nodes graph) ++ concat (map (λ p, (dp_selected p.2).*1) plans))) in
  entries ← traverse fleet_entry evidence;
  entries ← sorted_mappings entries;
  resolved_reconciliation_plan commit targets g (input_digests plans) graph (2, 2)%Z (Some (utf8_digest (JArr entries))).
End resolving.
