(* ===== verification/AgentReconciliation.v ===== *)
(** * The reconciliation service ([control/src/vonk_control/agent_reconciliation.py])

    [AgentReconciliationService] carries out persisted graphs: it withdraws the
    routes, dispatches the operations of a graph wave by wave to the agent queue,
    accepts results whose evidence matches the request, publishes the routes again
    when everything was accepted, and compensates, stops or cancels otherwise.
    Every public method is one transaction over [control_db], [tick] a sequence of
    them.

    Constructor arguments are parameters: the publisher of route bundles, the
    resolver of management addresses and the two ways of asking whether a commit
    may still be reconciled. [redact_text] is the function of the logging module.
    A row of the object-relational mapper is read from and written to the tables
    wherever the code does so to its attributes. The readings of the clock, the
    UUIDs drawn and what other transactions commit are the fields of [inputs].
    What the publisher does to the file system is not modelled, nor are row locks
    and the wake-up of waiting agents. *)

From S2P Require Import Prelude Identifiers Canonical Datetimes Contracts PackageEngine Protocol.
From S2P Require Import OperationGraph Orchestration NodeLeases Jobs AgentTables AgentJobs Routes.

(** [_WORKLOAD_ACTIONS]. *)
Definition workload_actions : list (string * string) :=
  [("workload.prepare", "prepare"); ("workload.start", "start"); ("workload.stop", "stop");
   ("workload.health", "health"); ("workload.verify", "verify")].

(** [_PACKAGE_ACTIONS], its keys. *)
Definition package_actions : list string :=
  ["package.prepare"; "package.activate"; "package.health"; "package.stop"; "package.rollback";
   "package.remove"; "package.repair"].

(** [_MUTATIONS]. *)
Definition graph_mutations : list string :=
  ["agent.rollback"; "agent.update"; "release.install"; "workload.prepare"; "workload.start";
   "workload.stop"; "package.prepare"; "package.activate"; "package.stop"; "package.rollback";
   "package.remove"; "package.repair"].

(** [_REQUIRED_AGENT_CAPABILITIES] and [_NEXT_AGENT_CAPABILITIES]. *)
Definition required_agent_capabilities : list string :=
  ["node.probe"; "release.install"; "workload.health"; "workload.prepare"; "workload.start";
   "workload.stop"; "workload.verify"].
Definition next_agent_capabilities : list string :=
  required_agent_capabilities ++ ["agent.rollback"; "agent.update"].

Definition active_cancellation_states : list string :=
  ["requested"; "withdrawal-pending"; "withdrawn"; "processing"; "compensating"].

(** ** The next wave, and the order of compensation *)

(** [states.get(id)] of a dictionary built from rows. *)
Notation states := (gmap string string).

Definition ready (st : states) (n : OperationNode) : bool :=
  eqb (default "planned" (st !! op_id n)) "planned"
  && forallb (λ dependency, eqb (st !! dependency) (Some "accepted")) (op_dependencies n).

Definition ready_operation_ids (nodes : list OperationNode) (st : states) : list string :=
  py_sorted (remove_dups (op_id <$> filter (λ n, ready st n = true) nodes)).

Definition compensation_order (nodes : list OperationNode) (st : states) : list string :=
  op_id <$> filter (λ n, st !! op_id n = Some "accepted" ∧ op_compensation_kind n ≠ None) (rev nodes).

(** ** Evidence *)

Definition is_oci_digest (s : string) : bool := String.prefix "sha256:" s && is_digest (drop_chars 7 s).

Definition same_item (evidence payload : list (string * json)) (key payload_key : string) : bool :=
  py_eqb (field evidence key) (field payload payload_key).

Definition release_evidence (payload evidence : list (string * json)) : result unit :=
  value_check (same_keys evidence ["status"; "release_digest"; "manifest_digest"; "adapter_id"])
    "release evidence is invalid";;
  ensure (hashable (field evidence "status")) EType "unhashable type";;
  value_check (is_str (λ s, among s ["installed"; "already-installed"]) (field evidence "status"))
    "release evidence status is invalid";;
  value_check (same_item evidence payload "release_digest" "target_digest"
               && same_item evidence payload "manifest_digest" "oci_manifest_digest"
               && same_item evidence payload "adapter_id" "adapter_id"
               && is_str is_digest (field evidence "release_digest")
               && is_str is_oci_digest (field evidence "manifest_digest")
               && is_str (λ s, negb (eqb s "")) (field evidence "adapter_id"))
    "release evidence does not match the request".

Definition workload_evidence (kind : string) (payload evidence : list (string * json)) : result unit :=
  value_check (same_keys evidence ["status"; "action"; "workload_id"; "release_digest"; "evidence_digest"])
    "workload evidence is invalid";;
  value_check (is_str (λ s, negb (eqb s "")) (field evidence "status")
               && py_eqb (field evidence "action") (JStr (default "" (lookup_key workload_actions kind)))
               && same_item evidence payload "workload_id" "workload_id"
               && same_item evidence payload "release_digest" "release_digest"
               && is_str is_digest (field evidence "evidence_digest"))
    "workload evidence does not match the request";;
  value_check (negb (eqb kind "workload.verify"
                     && negb (same_item evidence payload "evidence_digest" "expected_digest")))
    "workload verify evidence digest does not match the request".

Definition expected_statuses (kind : string) : list string :=
  if eqb kind "package.prepare" then ["validated"; "completed"]
  else if eqb kind "package.activate" then ["active"]
  else if eqb kind "package.health" then ["ok"; "healthy"; "active"]
  else if eqb kind "package.stop" then ["ok"; "stopped"; "active"; "removed"]
  else if eqb kind "package.rollback" then ["active"; "rolled-back"]
  else if eqb kind "package.remove" then ["removed"]
  else if eqb kind "package.repair" then ["validated"; "repaired"; "active"; "healthy"]
  else [].

Definition package_evidence (kind : string) (payload evidence : list (string * json)) : result unit :=
  value_check (same_keys evidence
      ["operation"; "deployment_id"; "release_digest"; "generation"; "status"; "evidence_digest"])
    "package evidence is invalid";;
  value_check (py_eqb (field evidence "operation") (JStr kind)
               && same_item evidence payload "deployment_id" "deployment_id"
               && same_item evidence payload "release_digest" "release_digest"
               && is_str (λ s, among s (expected_statuses kind)) (field evidence "status")
               && match field evidence "generation" with JNull | JStr _ => true | _ => false end
               && is_str is_digest (field evidence "evidence_digest")
               && is_str (λ _, true) (field payload "deployment_id")
               && is_str is_digest (field payload "release_digest"))
    "package evidence does not match the request".

Definition probe_evidence (payload evidence : list (string * json)) : result unit :=
  value_check (py_eqb (JObj payload) gate_payload)
    "node probe request is not an authenticated compute gate";;
  let health := field evidence "vonk_forge" in
  let accelerator := item_of health "accelerator" in
  value_check (same_keys evidence ["vonk_forge"; "nvidia"]
               && is_object (λ h, py_eqb (field h "schema_version") (JInt 1)) health
               && is_object (λ a, py_eqb (field a "active_nvidia_compute_processes") (JInt 0)) accelerator
               && is_object (λ _, true) (field evidence "nvidia"))
    "node probe compute gate evidence is invalid".

Definition accepted_result_digests (kind : string) (payload : list (string * json)) (value : json)
    : result (string * string) :=
  match value with
  | JObj items =>
      value_check (same_keys items ["status"; "evidence"]) "accepted agent result is invalid";;
      value_check (py_eqb (field items "status") (JStr "ok")) "accepted agent result status is invalid";;
      match field items "evidence" with
      | JObj evidence =>
          (if eqb kind "release.install" then release_evidence payload evidence
           else if is_Some_b (lookup_key workload_actions kind) then workload_evidence kind payload evidence
           else if among kind package_actions then package_evidence kind payload evidence
           else if eqb kind "node.probe" then probe_evidence payload evidence
           else raise EValue "accepted agent result operation is invalid");;
          mret (utf8_digest value, utf8_digest (JObj evidence))
      | _ => raise EType "accepted agent result evidence is invalid"
      end
  | _ => raise EValue "accepted agent result is invalid"
  end.

(** ** Plans and graphs *)

Definition validated_plan (id : string) (r : Reconciliation) : result (OperationGraph * json) :=
  validate_persisted_resolved_plan id (rec_base_commit r) (rec_graph r) (rec_graph_digest r)
    (default "" (rec_plan_digest r)) (default JNull (rec_resolved_plan r))
    (rec_route_withdrawal_generation r).

Definition plan_digest_of (r : Reconciliation) : result string :=
  match rec_plan_digest r with
  | Some d => mret d
  | None => raise EType "reconciliation lacks an immutable plan digest"
  end.

Definition operation_payload (document : json) (operation_id : string) : result (list (string * json)) :=
  match item_of document "operation_payloads" with
  | JObj payloads =>
      match field payloads operation_id with
      | JObj payload => mret payload
      | _ => raise EType "reconciliation operation payload is invalid"
      end
  | _ => raise EType "reconciliation operation payloads are invalid"
  end.

Definition graph_node (g : OperationGraph) (operation_id : string) : result OperationNode :=
  match head (filter (λ n, op_id n = operation_id) (graph_nodes g)) with
  | Some n => mret n
  | None => raise EValue "execution projection operation is absent from the graph"
  end.

Definition has_keys (items : list (string * json)) (keys : list string) : bool :=
  forallb (λ key, is_Some_b (lookup_key items key)) keys.

Definition compensation_payload (payload : list (string * json)) : result (list (string * json)) :=
  let select keys := map (λ key, (key, field payload key)) keys in
  if py_eqb (field payload "schema_version") (JInt 1)
     && has_keys payload ["deployment_id"; "release_digest"; "deployment_digest"]
  then mret (select ["schema_version"; "deployment_id"; "release_digest"; "deployment_digest"])
  else
    value_check (has_keys payload ["schema_version"; "workload_id"; "release_digest"; "adapter_id"])
      "workload compensation payload is incomplete";;
    mret (select ["adapter_id"; "release_digest"; "schema_version"; "workload_id"]).

(** ** Rows *)

Definition alter_reconciliation (id : string) (f : Reconciliation → Reconciliation) : M control_db unit :=
  modify (set_t_reconciliations (alter f id)).
Definition alter_job (id : string) (f : Job → Job) : M control_db unit :=
  modify (set_t_jobs (alter f id)).
Definition alter_projection (key : string) (f : ReconciliationOperation → ReconciliationOperation)
    : M control_db unit :=
  modify (set_t_projections (alter f key)).
Definition alter_cancellation (id : string) (f : ReconciliationCancellation → ReconciliationCancellation)
    : M control_db unit :=
  modify (set_t_cancellations (alter f id)).

(** [current_phase] and [status]. *)
Definition in_phase (phase status : string) (r : Reconciliation) : Reconciliation :=
  with_phase r phase status (rec_route_withdrawal_generation r) (rec_completion_generation r).

Definition to_phase (phase : string) (r : Reconciliation) : Reconciliation :=
  in_phase phase (rec_status r) r.

Definition with_reason (reason : string) (r : Reconciliation) : Reconciliation :=
  Row (rec_base_commit r) (rec_status r) (rec_summary r) (rec_graph r) (rec_graph_digest r)
    (rec_plan_digest r) (rec_resolved_plan r) (rec_current_phase r)
    (rec_route_withdrawal_generation r) (Some reason) (rec_completion_generation r) (rec_created_at r).

Definition queued_as (operation_id : string) (p : ReconciliationOperation) : ReconciliationOperation :=
  MkProjection (ro_reconciliation_id p) (ro_graph_operation_id p) (ro_role p) (Some operation_id)
    (ro_expected_payload_digest p) "queued" (ro_result_digest p) (ro_evidence_digest p)
    (ro_accepted_at p) (ro_compensated_graph_operation_id p).

Definition with_evidence (state result_digest evidence_digest : string) (now : Z)
    (p : ReconciliationOperation) : ReconciliationOperation :=
  MkProjection (ro_reconciliation_id p) (ro_graph_operation_id p) (ro_role p)
    (ro_agent_operation_id p) (ro_expected_payload_digest p) state (Some result_digest)
    (Some evidence_digest) (Some now) (ro_compensated_graph_operation_id p).

Definition with_failure (state result_digest : string) (p : ReconciliationOperation)
    : ReconciliationOperation :=
  MkProjection (ro_reconciliation_id p) (ro_graph_operation_id p) (ro_role p)
    (ro_agent_operation_id p) (ro_expected_payload_digest p) state (Some result_digest)
    (ro_evidence_digest p) (ro_accepted_at p) (ro_compensated_graph_operation_id p).

Definition attached (reconciliation_id : string) (now : Z) (j : Job) : Job :=
  MkJob (job_request_id j) (job_kind j) "running" (job_actor j) (job_base_commit j) (job_targets j)
    (job_payload_digest j) (job_payload j) (job_result j) (job_status_reason j)
    (job_current_attempt j) (job_created_at j) now (Some reconciliation_id).

(** The rows of a query, ordered by the operation of the graph. *)
Definition role_projections (s : control_db) (reconciliation_id role : string)
    : list (string * ReconciliationOperation) :=
  filter (λ p : string * ReconciliationOperation, ro_role p.2 = role) (projections_of s reconciliation_id).

Definition projection_states (l : list (string * ReconciliationOperation)) : states :=
  list_to_map (map (λ p : string * ReconciliationOperation, (ro_graph_operation_id p.2, ro_state p.2)) l).

Definition job_of (s : control_db) (reconciliation_id : string) : option (string * Job) :=
  find_row (λ j, eqb (job_reconciliation_id j) (Some reconciliation_id)) (t_jobs s).

(** The target nodes that exist, [ORDER BY node_id]. *)
Definition target_rows (s : control_db) (targets : list string) : list (string * AgentNode) :=
  omap (λ id, (λ n, (id, n)) <$> t_nodes s !! id) (py_sorted (remove_dups targets)).

Definition targets_are_active (s : control_db) (targets : list string) : bool :=
  eqb (target_rows s targets).*1 targets
  && forallb (λ p : string * AgentNode, eqb (node_state p.2) "active" && is_None_b (node_revoked_at p.2))
       (target_rows s targets).

(** The order in which reconciliations were created. *)
Definition creation_le (p q : string * Reconciliation) : bool :=
  (rec_created_at p.2 <? rec_created_at q.2)%Z
  || (rec_created_at p.2 =? rec_created_at q.2)%Z && bool_decide (String.le p.1 q.1).

(** [ORDER BY created_at, id LIMIT 1], and the same descending. *)
Definition first_created (l : list (string * Reconciliation)) : option (string * Reconciliation) :=
  best creation_le l.
Definition last_created (l : list (string * Reconciliation)) : option (string * Reconciliation) :=
  best (λ p q, creation_le q p) l.

Definition rows_where (s : control_db) (p : string * Reconciliation → bool) : list (string * Reconciliation) :=
  filter (λ q, p q = true) (map_to_list (t_reconciliations s)).

(** The completion that was published last. *)
Definition latest_completed (s : control_db) : option string :=
  fst <$> best (λ p q : string * Reconciliation,
                  let g r := default 0%Z (rec_completion_generation r) in
                  (g q.2 <? g p.2)%Z || (g p.2 =? g q.2)%Z && bool_decide (String.le q.1 p.1))
    (rows_where s (λ p, eqb (rec_status p.2) "succeeded" && eqb (rec_current_phase p.2) "completed"
                        && negb (is_None_b (rec_completion_generation p.2)))).

(** The newest reconciliation whose withdrawal is pending. *)
Definition pending_publication_handoff (s : control_db) : option string :=
  fst <$> last_created
    (rows_where s (λ p, eqb (rec_current_phase p.2) "withdrawal-pending"
       && eqb (rp_state <$> t_publications s !! p.1) (Some "withdrawal-pending"))).

(** ** Parameters *)

Record ReconciliationAuthorityInput := MkAuthorityInput {
  ai_reconciliation_id : string; ai_base_commit : string; ai_plan_digest : string;
  ai_fleet_evidence_digest : string; ai_routes : list PublishedRoute
}.

Record Publisher := MkPublisher {
  withdraw : string → string → list string → string → result ActivationMarker;
  publish : RouteBundleRequest → result ActivationMarker
}.

(** [commit_eligible] and [current_commit], or [authority_prefetch],
    [authority_check] and [authority_clear]: the decision depends on what was
    prefetched last, and is a truth value or a reason. *)
Inductive authority_mode :=
| NoAuthority
| CommitAuthority (commit_eligible : string → result bool) (current_commit : result string)
| CheckedAuthority (authority_check : option ReconciliationAuthorityInput →
                      string → string → string → list PublishedRoute → result (bool + string)).

(** The places where a transaction reads the clock. *)
Inductive reading :=
| ForLease | ForEnqueue | ForQuiesce (role : string) | ForSweep | ForJob | ForResult
| ForCancellation | ForCancelled | ForOwner | ForRenewal | ForPublication.

(** What one transaction draws: times, the ids of agent operations and the keys
    of projections by graph operation, fences, and what other transactions commit
    to the lease table while nodes are acquired. *)
Record inputs := Inputs {
  in_clock : reading → Z; in_operation_uuid : string → string; in_projection_key : string → string;
  in_claim_fence : string → string; in_lease_fence : string;
  in_others : gmap string mutation_lease → gmap string mutation_lease
}.

(** What a locked context holds: the ids of the reconciliation and its job, the
    authenticated graph and document. *)
Record context := Context' {
  cx_id : string; cx_job : string; cx_graph : OperationGraph; cx_document : json
}.

Definition cx_targets (cx : context) : list string := graph_targets (cx_graph cx).

(** The lease service on the tables of the control plane. *)
Definition on_leases {A} (m : M session A) : M control_db A :=
  zoom (λ s, Session (t_leases s) (dom (t_nodes s)))
    (λ l s, set_t_leases (λ _, mutation_leases l) s) m.

(** The orchestrator on the tables of the control plane. *)
Definition on_reconciliations {A} (m : M tables A) : M control_db A :=
  zoom (λ s, Tables (t_reconciliations s) (t_completions s))
    (λ t s, set_t_completions (λ _, completion_counter t)
              (set_t_reconciliations (λ _, reconciliations t) s)) m.

Definition reconciliation_row (id : string) : M control_db Reconciliation :=
  s ← get;
  match t_reconciliations s !! id with
  | Some r => mret r
  | None => throw EKey id
  end.

Definition publication_row (id : string) : M control_db RoutePublication :=
  s ← get;
  match t_publications s !! id with
  | Some p => mret p
  | None => throw EValue "reconciliation route withdrawal is not durable"
  end.

Definition locked_context (id : string) (expected_job_id : option string) : M control_db context :=
  r ← reconciliation_row id;
  '(g, document) ← lift (validated_plan id r);
  s ← get;
  match expected_job_id with
  | Some job_id =>
      match t_jobs s !! job_id with
      | Some _ => mret (Context' id job_id g document)
      | None => throw EValue "reconciliation has no durable parent job"
      end
  | None =>
      match job_of s id with
      | Some (job_id, _) => mret (Context' id job_id g document)
      | None => throw EValue "reconciliation has no durable parent job"
      end
  end.

(** ** Node leases *)

Definition terminal_phases : list string := ["completed"; "failed"; "cancelled"; "waiting-for-operator"].

Definition catch_conflict {A} (m : M control_db A) (handler : M control_db A) : M control_db A :=
  try_catch m (λ e, if eqb (exn_cls e) ENodeLeaseConflict then handler else rethrow e).

Section leases.
Context (i : inputs) (cx : context).

Definition owned_grant : M control_db (option NodeLeaseGrant) :=
  on_leases (owned_grant_in_session (cx_targets cx) "reconciliation" (cx_id cx)).

Definition acquire_targets : M control_db (option NodeLeaseGrant) :=
  g ← on_leases (acquire_in_session (in_others i) (in_lease_fence i) (in_clock i ForLease) (cx_targets cx)
                   "reconciliation" (cx_id cx));
  mret (Some g).

(** The nodes of a predecessor that is through with them are taken over. *)
Definition take_over : M control_db (option NodeLeaseGrant) :=
  s ← get;
  let nodes := py_sorted (cx_targets cx) in
  let rows := lease_rows (Session (t_leases s) (dom (t_nodes s))) nodes in
  match remove_dups (map (λ p : string * mutation_lease,
                       (ml_owner_kind p.2, ml_owner_id p.2, ml_fence p.2)) rows) with
  | [(owner_kind, owner_id, fence)] =>
      if negb (eqb owner_kind "reconciliation") then mret None else
      match t_reconciliations s !! owner_id with
      | None => mret None
      | Some predecessor =>
          if negb (among (rec_current_phase predecessor) terminal_phases) then mret None else
          let held := existsb (λ p : string * mutation_lease, eqb (ml_state p.2) "held") rows in
          if held && negb (eqb (rec_current_phase predecessor) "completed"
                           && eqb (ca_state <$> t_cancellations s !! owner_id) (Some "withdrawal-pending"))
          then mret None else
          (if held
           then on_leases (mark_releasing_in_session (in_clock i ForLease)
                             (Grant owner_kind owner_id fence nodes "held"))
           else mret ());;
          on_leases (release_in_session (Grant owner_kind owner_id fence nodes "releasing"));;
          catch_conflict acquire_targets (mret None)
      end
  | _ => mret None
  end.

Definition ensure_node_lease : M control_db (option NodeLeaseGrant) :=
  catch_conflict
    (grant ← owned_grant;
     match grant with
     | Some g => mret (if eqb (grant_state g) "held" then Some g else None)
     | None => acquire_targets
     end)
    take_over.

Definition release_pending_node_lease : M control_db bool :=
  catch_conflict
    (grant ← owned_grant;
     match grant with
     | Some g =>
         if eqb (grant_state g) "releasing" then on_leases (release_in_session g);; mret true
         else mret false
     | None => mret false
     end)
    (mret false).

Definition mark_node_lease_releasing : M control_db bool :=
  grant ← catch_conflict owned_grant (mret None);
  match grant with
  | Some g =>
      if eqb (grant_state g) "held"
      then on_leases (mark_releasing_in_session (in_clock i ForLease) g);; mret true
      else mret false
  | None => mret false
  end.
End leases.

(** ** Ownership of the published routes *)

(** The single row, which is created when it is missing; a first owner is the
    completion that was published last. *)
Definition publication_owner : M control_db RoutePublicationOwner :=
  s ← get;
  let owner := default (MkOwner None 0 None) (t_owner s) in
  let owner := match own_reconciliation_id owner with
               | Some _ => owner
               | None => MkOwner (latest_completed s) (own_generation owner) (own_updated_at owner)
               end in
  put_owner owner;;
  mret owner.

Definition free_or_own (pending : option string) (id : string) : bool :=
  among pending [None; Some id].

(** The reconciliation the owner row names, with its id. *)
Definition owning_row (s : control_db) (owner : RoutePublicationOwner) : option (string * Reconciliation) :=
  id ← own_reconciliation_id owner;
  r ← t_reconciliations s !! id;
  Some (id, r).

Definition owns_publication (id : string) (may_supersede : bool) : M control_db bool :=
  owner ← publication_owner;
  s ← get;
  let pending := pending_publication_handoff s in
  if eqb (own_reconciliation_id owner) (Some id) then mret (free_or_own pending id) else
  r ← reconciliation_row id;
  match owning_row s owner with
  | Some current =>
      if negb (among (rec_current_phase current.2) terminal_phases) then mret false
      else if negb may_supersede || creation_le (id, r) current then mret false
      else mret (free_or_own pending id)
  | None => mret (may_supersede && free_or_own pending id)
  end.

Definition transfer_publication_owner (i : inputs) (id : string) : M control_db unit :=
  owner ← publication_owner;
  if eqb (own_reconciliation_id owner) (Some id) then mret () else
  s ← get;
  lift (value_check (eqb (pending_publication_handoff s) (Some id))
          "route publication handoff is no longer authoritative");;
  r ← reconciliation_row id;
  lift (value_check (match owning_row s owner with
                     | Some current => negb (creation_le (id, r) current)
                     | None => true
                     end) "route publication handoff is stale");;
  put_owner (MkOwner (Some id) (own_generation owner + 1) (Some (in_clock i ForOwner))).

(** The marker of the publisher, as the columns of a publication. The
    generation is unique. *)
Definition store_marker (id : string) (m : ActivationMarker) (state : string) : M control_db unit :=
  s ← get;
  lift (ensure (forallb (λ p : string * RoutePublication,
                  eqb p.1 id || negb (eqb (rp_generation p.2) (Some (mk_generation m))))
                  (map_to_list (t_publications s))) EIntegrity "UNIQUE constraint failed");;
  put_publication id
    (MkPublication state (Some (mk_generation m)) (mk_plan_digest m) (Some (mk_evidence_set_digest m))
       (Some (mk_routes_sha256 m)) (Some (mk_litellm_sha256 m)) (Some (mk_manifest_sha256 m))
       (Some (marker_document m)) (Some (marker_digest m)) (Some (mk_issued_at m))
       (Some (mk_expires_at m))).

Section service.
Context (redact_text : string → string) (publisher : option Publisher).
Context (endpoint_resolver : control_db → string → result (string * Z)).
Context (authority : authority_mode).
Context {prepared : Type} (update_authorizer : option (UpdateAuthorizer prepared)).
Context (publication_lease_seconds : Z).

(** ** Authority *)

Definition route_entry (p : string * json) : result (string * json * string) :=
  match p.2 with
  | JObj raw =>
      match field raw "entrypoint_node_id" with
      | JStr node_id => mret (p.1, p.2, node_id)
      | _ => raise EType "reconciliation route entrypoint is invalid"
      end
  | _ => raise EType "reconciliation route is invalid"
  end.

Definition published_authority_routes (s : control_db) (document : json) : result (list PublishedRoute) :=
  match item_of document "routes" with
  | JObj routes =>
      parsed ← traverse route_entry (merge_sort key_le routes);
      let nodes := py_sorted (remove_dups (map snd parsed)) in
      addresses ← traverse (λ node_id, address ← endpoint_resolver s node_id; mret (node_id, address.1)) nodes;
      traverse (λ '(alias, raw, node_id),
                  build_published_route alias raw (default "" (lookup_key addresses node_id))) parsed
  | _ => raise EType "reconciliation routes are invalid"
  end.

Definition load_reconciliation_authority_input (s : control_db) (id : string)
    : result ReconciliationAuthorityInput :=
  match t_reconciliations s !! id with
  | None => raise EValue "reconciliation does not exist"
  | Some r =>
      '(_, document) ← validated_plan id r;
      routes ← published_authority_routes s document;
      digest ← plan_digest_of r;
      mret (MkAuthorityInput id (rec_base_commit r) digest
              (match item_of document "fleet_evidence_digest" with JStr d => d | _ => "" end) routes)
  end.

(** What is prefetched before the locks are taken; a failure leaves nothing. *)
Definition prepare_authority (id : string) : M control_db (option ReconciliationAuthorityInput) :=
  match authority with
  | CheckedAuthority _ =>
      s ← get;
      match load_reconciliation_authority_input s id with
      | Ok snapshot => mret (Some snapshot)
      | Err e => if eligibility_unknown (exn_cls e) then mret None else rethrow e
      end
  | _ => mret None
  end.

Definition known_reasons : list string :=
  ["fleet acceptance evidence changed since planning"; "reconciliation commit is no longer current";
   "reconciliation commit is no longer eligible"].

(** [try: ... except (OSError, RuntimeError, TypeError, ValueError): return reason]. *)
Definition or_reason (r : result (option string)) (reason : string) : result (option string) :=
  match r with
  | Err e => if eligibility_unknown (exn_cls e) then mret (Some reason) else Err e
  | Ok _ => r
  end.

Definition commit_reason (s : control_db) (prefetched : option ReconciliationAuthorityInput) (id : string)
    (r : Reconciliation) (document : json) : result (option string) :=
  or_reason
    (match authority with
     | NoAuthority => mret None
     | CheckedAuthority authority_check =>
         digest ← plan_digest_of r;
         routes ← published_authority_routes s document;
         decision ← authority_check prefetched id (rec_base_commit r) digest routes;
         mret match decision with
              | inr reason =>
                  Some (if among reason known_reasons then reason else "reconciliation authority is invalid")
              | inl true => None
              | inl false => Some "reconciliation commit is no longer eligible"
              end
     | CommitAuthority commit_eligible current_commit =>
         eligible ← commit_eligible (rec_base_commit r);
         if negb eligible then mret (Some "reconciliation commit is no longer eligible") else
         current ← current_commit;
         mret (if eqb current (rec_base_commit r) then None
               else Some "reconciliation commit is no longer current")
     end) "reconciliation commit eligibility is unavailable".

Definition target_incompatible (low high : Z) (n : AgentNode) : bool :=
  negb (eqb (node_state n) "active") || negb (is_None_b (node_revoked_at n))
  || negb match node_protocol_version n with
          | Some v => (low <=? v)%Z && (v <=? high)%Z
          | None => false
          end
  || negb (subset required_agent_capabilities (node_capabilities n)
           && subset (node_capabilities n) next_agent_capabilities).

Fixpoint address_reason (s : control_db) (targets : list string) : result (option string) :=
  match targets with
  | [] => mret None
  | node_id :: targets =>
      '(address, _) ← endpoint_resolver s node_id;
      if eqb address "" then mret (Some "reconciliation management address is invalid")
      else address_reason s targets
  end.

Definition target_reason (s : control_db) (targets : list string) (document : json) : result (option string) :=
  match item_of document "agent_protocol_range" with
  | JArr [JInt low; JInt high] =>
      let nodes := target_rows s targets in
      if negb (eqb nodes.*1 targets) then mret (Some "reconciliation target set is unavailable")
      else if existsb (λ p : string * AgentNode, target_incompatible low high p.2) nodes
      then mret (Some "reconciliation target agent is incompatible")
      else or_reason (address_reason s targets) "reconciliation management address is unavailable"
  | _ => mret (Some "reconciliation protocol authority is invalid")
  end.

Definition authority_reason (s : control_db) (prefetched : option ReconciliationAuthorityInput)
    (cx : context) (r : Reconciliation) : result (option string) :=
  match authority with
  | NoAuthority => mret None
  | _ =>
      reason ← commit_reason s prefetched (cx_id cx) r (cx_document cx);
      match reason with
      | Some reason => mret (Some reason)
      | None => target_reason s (cx_targets cx) (cx_document cx)
      end
  end.

(** ** Stopping *)

Definition safe_reason (reason : string) : string := redacted redact_text reason.

Definition wait_for_operator (i : inputs) (cx : context) (reason : string) : M control_db unit :=
  alter_reconciliation (cx_id cx) (stopped_reconciliation (safe_reason reason));;
  alter_job (cx_job cx)
    (with_job_state "waiting-for-operator" (Some (safe_reason reason)) (in_clock i ForJob)).

(** [if row.terminal_reason or ...]: an empty reason counts as none. *)
Definition finish_failed (i : inputs) (cx : context) : M control_db unit :=
  r ← reconciliation_row (cx_id cx);
  let reason := match rec_terminal_reason r with
                | Some t => if eqb t "" then "reconciliation failed" else t
                | None => "reconciliation failed"
                end in
  alter_reconciliation (cx_id cx) (in_phase "failed" "failed");;
  alter_job (cx_job cx) (with_job_state "failed" (Some reason) (in_clock i ForJob)).

(** One projection that is still open: nothing more of it may start, and a
    mutation that runs is left to the operator. *)
Definition quiesce_row (g : OperationGraph) (now : Z) (key : string) : M control_db bool :=
  s ← get;
  match t_projections s !! key with
  | None => mret false
  | Some p =>
      if eqb (ro_state p) "planned" then put_projection key (with_ro_state "failed" p);; mret false else
      match (if eqb (ro_state p) "queued" then ro_agent_operation_id p else None) with
      | None => mret false
      | Some id =>
          match t_operations s !! id with
          | None => throw EValue "reconciliation operation projection is incomplete"
          | Some o =>
              n ← lift (graph_node g (ro_graph_operation_id p));
              if eqb (so_state o) "queued" then
                put_operation id (with_operation_state "failed" now o);;
                put_projection key (with_ro_state "failed" p);;
                mret false
              else if negb (eqb (so_state o) "running") then mret false
              else
                match attempt_of s id (so_current_attempt o) with
                | Some (fence, a) =>
                    lift (value_check (eqb (at_state a) "running")
                            "running reconciliation operation lacks its attempt");;
                    let uncertain := among (op_kind n) graph_mutations in
                    let terminal := if uncertain then "waiting-for-operator" else "failed" in
                    put_attempt fence (with_at_state terminal a);;
                    put_projection key (with_ro_state terminal p);;
                    put_operation id (with_operation_state terminal now o);;
                    mret uncertain
                | None => throw EValue "running reconciliation operation lacks its attempt"
                end
          end
      end
  end.

Fixpoint quiesce_pending (g : OperationGraph) (now : Z) (keys : list string) : M control_db bool :=
  match keys with
  | [] => mret false
  | key :: keys =>
      uncertain ← quiesce_row g now key;
      later ← quiesce_pending g now keys;
      mret (uncertain || later)
  end.

(** The projections of one role. *)
Definition quiesce_role (i : inputs) (cx : context) (role : string) : M control_db bool :=
  s ← get;
  quiesce_pending (cx_graph cx) (in_clock i (ForQuiesce role)) (role_projections s (cx_id cx) role).*1.

Definition quiesce_for_unavailable_target (i : inputs) (cx : context) (reason : string) : M control_db unit :=
  _ ← quiesce_role i cx "primary";
  _ ← quiesce_role i cx "compensation";
  wait_for_operator i cx reason;;
  _ ← mark_node_lease_releasing i cx;
  mret ().

(** A queued projection whose mutation ran out of its lease. *)
Definition sweep_row (now : Z) (key : string) : M control_db bool :=
  s ← get;
  match t_projections s !! key with
  | None => mret false
  | Some p =>
      match (if eqb (ro_state p) "queued" then ro_agent_operation_id p else None) with
      | None => mret false
      | Some id =>
          match t_operations s !! id with
          | None => mret false
          | Some o =>
              if negb (eqb (so_state o) "running" && among (so_kind o) graph_mutations) then mret false else
              match attempt_of s id (so_current_attempt o) with
              | Some (fence, a) =>
                  if negb (eqb (at_state a) "running" && (at_lease_deadline a <=? now)%Z) then mret false else
                  put_attempt fence (with_at_state "expired" a);;
                  put_operation id (held_back now o);;
                  put_projection key (with_ro_state "waiting-for-operator" p);;
                  mret true
              | None => mret false
              end
          end
      end
  end.

Fixpoint sweep_rows (now : Z) (keys : list string) : M control_db bool :=
  match keys with
  | [] => mret false
  | key :: keys =>
      expired ← sweep_row now key;
      later ← sweep_rows now keys;
      mret (expired || later)
  end.

Definition lease_expired_reason : string := "mutating agent operation lease expired with uncertain outcome".

Definition sweep_expired_mutations (i : inputs) (cx : context) : M control_db bool :=
  s ← get;
  let primary := (role_projections s (cx_id cx) "primary").*1 in
  let compensation := (role_projections s (cx_id cx) "compensation").*1 in
  expired ← sweep_rows (in_clock i ForSweep) (primary ++ compensation);
  if negb expired then mret false else
  _ ← quiesce_pending (cx_graph cx) (in_clock i (ForQuiesce "primary")) primary;
  _ ← quiesce_pending (cx_graph cx) (in_clock i (ForQuiesce "compensation")) compensation;
  wait_for_operator i cx lease_expired_reason;;
  mret true.

(** ** Dispatching *)

(** [agent_jobs.enqueue_in_session(...)], with the id drawn for the operation. *)
Definition enqueue_node (i : inputs) (cx : context) (r : Reconciliation) (n : OperationNode) (kind : string)
    (payload : list (string * json)) : M control_db string :=
  let id := in_operation_uuid i (op_id n) in
  _ ← enqueue_in_session update_authorizer (cx_job cx) (op_node_id n) kind (rec_base_commit r) payload id
        (in_claim_fence i (op_id n)) None (in_clock i ForEnqueue);
  mret id.

Definition dispatch_node (i : inputs) (cx : context) (r : Reconciliation)
    (by_id : list (string * ReconciliationOperation)) (operation_id : string) : M control_db unit :=
  n ← lift (graph_node (cx_graph cx) operation_id);
  payload ← lift (operation_payload (cx_document cx) operation_id);
  id ← enqueue_node i cx r n (op_kind n) payload;
  match find (λ p : string * ReconciliationOperation, eqb (ro_graph_operation_id p.2) operation_id) by_id with
  | Some (key, _) => alter_projection key (queued_as id)
  | None => throw EKey operation_id
  end.

Definition dispatch_primary (i : inputs) (cx : context) : M control_db bool :=
  s ← get;
  let projections := role_projections s (cx_id cx) "primary" in
  let st := projection_states projections in
  lift (value_check (length projections =? length (graph_nodes (cx_graph cx)))%nat
          "reconciliation execution projection is incomplete");;
  if forallb (λ p, eqb (ro_state p.2) "accepted") projections then
    alter_reconciliation (cx_id cx) (to_phase "accepting");; mret false
  else
    r ← reconciliation_row (cx_id cx);
    let wave := ready_operation_ids (graph_nodes (cx_graph cx)) st in
    eachM (dispatch_node i cx r projections) wave;;
    mret (nonempty wave).

Definition compensate_node (i : inputs) (cx : context) (operation_id : string) : M control_db unit :=
  n ← lift (graph_node (cx_graph cx) operation_id);
  primary_payload ← lift (operation_payload (cx_document cx) operation_id);
  payload ← lift (compensation_payload primary_payload);
  let key := in_projection_key i operation_id in
  insert_projection key (MkProjection (cx_id cx) operation_id "compensation" None (utf8_digest (JObj payload))
                           "planned" None None None (Some operation_id));;
  r ← reconciliation_row (cx_id cx);
  id ← enqueue_node i cx r n (default "" (op_compensation_kind n)) payload;
  alter_projection key (queued_as id).

(** The next operation to compensate, the last of the graph first. *)
Fixpoint compensate_next (i : inputs) (cx : context) (existing : states) (ordered : list string)
    : M control_db bool :=
  match ordered with
  | [] => finish_failed i cx;; mret false
  | operation_id :: ordered =>
      let state := default "" (existing !! operation_id) in
      if among state ["queued"; "running"] then mret false
      else if eqb state "compensated" then compensate_next i cx existing ordered
      else if among state ["failed"; "uncertain"; "waiting-for-operator"] then
        wait_for_operator i cx "reconciliation compensation is incomplete";; mret false
      else compensate_node i cx operation_id;; mret true
  end.

Definition dispatch_compensation (i : inputs) (cx : context) : M control_db bool :=
  s ← get;
  let primary := projection_states (role_projections s (cx_id cx) "primary") in
  let existing := projection_states (role_projections s (cx_id cx) "compensation") in
  compensate_next i cx existing (compensation_order (graph_nodes (cx_graph cx)) primary).

(** ** Results *)

Definition binding_matches (o_id : string) (o : StoredOperation) (a : AgentOperationAttempt) (fence : string)
    (m : AgentResult) (r : Reconciliation) (job_id : string) (p : ReconciliationOperation)
    (n : OperationNode) (kind : string) (payload : list (string * json)) : bool :=
  eqb (ro_agent_operation_id p) (Some o_id)
  && eqb (ro_expected_payload_digest p) (utf8_digest (JObj payload))
  && eqb (so_parent_job_id o) job_id
  && eqb (so_node_id o) (op_node_id n)
  && eqb (so_kind o) kind
  && eqb (so_base_commit o) (rec_base_commit r)
  && eqb (so_payload_digest o) (ro_expected_payload_digest p)
  && py_eqb (so_payload o) (JObj payload)
  && eqb (id_job (result_identity m)) job_id
  && eqb (id_operation (result_identity m)) o_id
  && eqb (id_node (result_identity m)) (so_node_id o)
  && (id_attempt (result_identity m) =? at_attempt a)%Z
  && eqb (id_fence (result_identity m)) fence
  && among (result_state m) ["succeeded"; "failed"; "waiting-for-operator"].

Definition result_reason (m : AgentResult) : string :=
  let reason := match item_of (result_document m) "reason" with
                | JStr reason => JStr reason
                | _ => item_of (result_document m) "error_code"
                end in
  safe_reason match reason with
              | JStr reason => if eqb reason "" then "agent operation failed" else reason
              | _ => "agent operation failed"
              end.

Definition compensated_failures : list string :=
  ["workload.start"; "workload.health"; "workload.verify"; "package.activate"; "package.health"].

Definition handle_primary_failure (i : inputs) (cx : context) (failed : OperationNode) (reason : string)
    : M control_db unit :=
  s ← get;
  let keys := (role_projections s (cx_id cx) "primary").*1 in
  uncertain ← quiesce_pending (cx_graph cx) (in_clock i (ForQuiesce "primary")) keys;
  if (uncertain : bool) then
    wait_for_operator i cx "a sibling mutation was running when reconciliation failed"
  else
    s ← get;
    let accepted := projection_states (role_projections s (cx_id cx) "primary") in
    if among (op_kind failed) compensated_failures
       && nonempty (compensation_order (graph_nodes (cx_graph cx)) accepted) then
      alter_reconciliation (cx_id cx) (with_reason reason ∘ in_phase "compensating" "running")
    else if among (op_kind failed) graph_mutations then wait_for_operator i cx reason
    else
      alter_reconciliation (cx_id cx) (with_reason reason ∘ in_phase "failed" "failed");;
      alter_job (cx_job cx) (with_job_state "failed" (Some reason) (in_clock i ForJob)).

Definition quiesce_and_wait (i : inputs) (cx : context) (reason : string) : M control_db unit :=
  _ ← quiesce_role i cx "primary";
  _ ← quiesce_role i cx "compensation";
  wait_for_operator i cx reason.

(** An accepted result, or a failure and what it means for the rest. *)
Definition apply_result (i : inputs) (cx : context) (key : string) (p : ReconciliationOperation)
    (n : OperationNode) (kind : string) (payload : list (string * json)) (m : AgentResult)
    : M control_db unit :=
  let compensation := eqb (ro_role p) "compensation" in
  if eqb (result_state m) "succeeded" then
    '(result_digest, evidence_digest) ← lift (accepted_result_digests kind payload (result_document m));
    alter_projection key (with_evidence (if compensation then "compensated" else "accepted") result_digest
                            evidence_digest (in_clock i ForResult))
  else
    let waiting := eqb (result_state m) "waiting-for-operator" in
    alter_projection key (with_failure (if waiting then "waiting-for-operator" else "failed")
                            (utf8_digest (result_document m)));;
    if compensation || waiting then quiesce_and_wait i cx (result_reason m)
    else
      handle_primary_failure i cx n (result_reason m);;
      r ← reconciliation_row (cx_id cx);
      if among (rec_current_phase r) ["failed"; "cancelled"]
      then _ ← mark_node_lease_releasing i cx; mret () else mret ().

(** What a result is for: the operation of the graph, or its compensation. *)
Definition result_request (p : ReconciliationOperation) (n : OperationNode) (document : json)
    : result (string * list (string * json)) :=
  payload ← operation_payload document (op_id n);
  if eqb (ro_role p) "compensation" then
    match op_compensation_kind n with
    | None => raise EValue "reconciliation compensation is not graph-authorized"
    | Some kind => payload ← compensation_payload payload; mret (kind, payload)
    end
  else mret (op_kind n, payload).

Definition consume_result (i : inputs) (prefetched : option ReconciliationAuthorityInput)
    (operation_id fence : string) (m : AgentResult) : M control_db unit :=
  s ← get;
  match projection_of s operation_id with
  | None => mret ()
  | Some (key, p) =>
      let id := ro_reconciliation_id p in
      r ← reconciliation_row id;
      match t_operations s !! operation_id, t_attempts s !! fence with
      | Some o, Some a =>
          match t_jobs s !! so_parent_job_id o with
          | Some j =>
              lift (value_check (eqb (job_reconciliation_id j) (Some id))
                      "agent result lacks its reconciliation projection");;
              '(g, document) ← lift (validated_plan id r);
              let cx := Context' id (so_parent_job_id o) g document in
              n ← lift (graph_node g (ro_graph_operation_id p));
              '(kind, payload) ← lift (result_request p n document);
              lift (value_check (binding_matches operation_id o a fence m r (so_parent_job_id o) p n kind payload)
                      "agent result does not match its reconciliation operation");;
              lift (value_check (eqb (rec_current_phase r) (expected_phase p))
                      "agent result is invalid for reconciliation phase");;
              reason ← lift (authority_reason s prefetched cx r);
              match reason with
              | Some reason =>
                  let terminal := if among (so_kind o) graph_mutations then "waiting-for-operator" else "failed" in
                  put_attempt fence (with_at_state terminal a);;
                  put_operation operation_id (with_operation_state terminal (in_clock i ForResult) o);;
                  put_projection key (with_ro_state terminal p);;
                  quiesce_and_wait i cx reason
              | None => apply_result i cx key p n kind payload m
              end
          | None => throw EValue "agent result lacks its reconciliation projection"
          end
      | _, _ => throw EKey operation_id
      end
  end.

(** ** Attaching and cancelling *)

Definition attach_job (i : inputs) (prefetched : option ReconciliationAuthorityInput) (id job_id : string)
    : M control_db unit :=
  transaction (
    cx ← locked_context id (Some job_id);
    r ← reconciliation_row id;
    s ← get;
    match t_jobs s !! job_id with
    | None => throw EValue "reconciliation has no durable parent job"
    | Some j =>
        lift (value_check (among (job_reconciliation_id j) [None; Some id])
                "job is attached to another reconciliation");;
        lift (value_check (eqb (job_base_commit j) (rec_base_commit r))
                "reconciliation job base commit does not match");;
        lift (value_check (targets_are_active s (cx_targets cx)) "reconciliation target agent is unavailable");;
        reason ← lift (authority_reason s prefetched cx r);
        match reason with
        | Some reason => throw EValue reason
        | None =>
            lift (ensure (match job_of s id with Some (other, _) => eqb other job_id | None => true end)
                    EIntegrity "UNIQUE constraint failed");;
            put_job job_id (attached id (in_clock i ForJob) j)
        end
    end).

Definition strip (s : string) : string := trim_right (trim_left s).

Definition enqueue_cancel (now : Z) (id reason actor request_id : string)
    : M control_db ReconciliationCancellation :=
  lift (value_check (nonblank reason && nonblank actor) "cancellation reason and actor are required");;
  lift (value_check (is_uuid request_id) "cancellation request ID is invalid");;
  transaction (
    s ← get;
    match t_cancellations s !! id with
    | Some existing => mret existing
    | None =>
        _ ← locked_context id None;
        r ← reconciliation_row id;
        lift (value_check (negb (among (rec_current_phase r) ["failed"; "cancelled"]))
                "reconciliation is terminal");;
        lift (ensure (forallb (λ p : string * ReconciliationCancellation,
                        negb (eqb (ca_request_id p.2) request_id)) (map_to_list (t_cancellations s)))
                EIntegrity "UNIQUE constraint failed");;
        let c := MkCancellation "requested" (safe_reason (strip reason))
                   (String.substring 0 200 (strip actor)) request_id now now in
        put_cancellation id c;;
        mret c
    end).

Definition unsafe_states : list string :=
  ["failed"; "running"; "succeeded"; "uncertain"; "waiting-for-operator"].

(** [any(f(x) for x in xs)]. *)
Fixpoint any_of {A} (f : A → result bool) (l : list A) : result bool :=
  match l with
  | [] => mret false
  | x :: l => b ← f x; if (b : bool) then mret true else any_of f l
  end.

(** A mutation of the graph whose outcome is not certain. *)
Definition unsafe_row (g : OperationGraph) (row : string * ReconciliationOperation) : result bool :=
  n ← graph_node g (ro_graph_operation_id row.2);
  mret (among (op_kind n) graph_mutations && among (ro_state row.2) unsafe_states).

(** The mutations that were accepted. *)
Fixpoint mutated_nodes (g : OperationGraph) (rows : list (string * ReconciliationOperation))
    : result (list OperationNode) :=
  match rows with
  | [] => mret []
  | row :: rows =>
      if negb (eqb (ro_state row.2) "accepted") then mutated_nodes g rows else
      n ← graph_node g (ro_graph_operation_id row.2);
      rest ← mutated_nodes g rows;
      mret (if among (op_kind n) graph_mutations then n :: rest else rest)
  end.

Definition compensatable (n : OperationNode) : bool :=
  match op_compensation_kind n with Some kind => negb (eqb kind "") | None => false end.

Definition cancelled_job (i : inputs) (cx : context) (reason : string) : M control_db unit :=
  alter_reconciliation (cx_id cx) (in_phase "cancelled" "cancelled");;
  alter_job (cx_job cx) (with_job_state "failed" (Some reason) (in_clock i ForJob)).

(** Both roles; whether a mutation was running. *)
Definition quiesce_both (i : inputs) (cx : context) : M control_db bool :=
  primary ← quiesce_role i cx "primary";
  compensation ← quiesce_role i cx "compensation";
  mret (compensation || primary).

Definition set_cancellation (i : inputs) (cx : context) (state : string) : M control_db unit :=
  alter_cancellation (cx_id cx) (with_ca_state state (in_clock i ForCancelled)).

(** The cancellation of a reconciliation that does not own the routes. *)
Definition cancel_historical (i : inputs) (cx : context) (reason : string) : M control_db unit :=
  uncertain ← quiesce_both i cx;
  alter_reconciliation (cx_id cx) (with_reason reason);;
  if (uncertain : bool) then
    wait_for_operator i cx "historical cancellation interrupted a running mutation";;
    set_cancellation i cx "waiting-for-operator"
  else
    cancelled_job i cx "historical reconciliation cancelled";;
    set_cancellation i cx "completed".

(** The cancellation of the owner: what was changed is undone, or left to the
    operator. *)
Definition cancel_owner (i : inputs) (cx : context) (reason : string) : M control_db unit :=
  s ← get;
  unsafe_primary ← lift (any_of (unsafe_row (cx_graph cx)) (role_projections s (cx_id cx) "primary"));
  let unsafe_mutation :=
    unsafe_primary
    || existsb (λ row : string * ReconciliationOperation, among (ro_state row.2) unsafe_states)
         (role_projections s (cx_id cx) "compensation") in
  uncertain ← quiesce_both i cx;
  s ← get;
  mutated ← lift (mutated_nodes (cx_graph cx) (role_projections s (cx_id cx) "primary"));
  alter_reconciliation (cx_id cx) (with_reason reason);;
  if uncertain || unsafe_mutation then
    wait_for_operator i cx "cancellation interrupted a running mutation";;
    set_cancellation i cx "waiting-for-operator"
  else if existsb compensatable mutated then
    alter_reconciliation (cx_id cx) (in_phase "compensating" "running");;
    alter_job (cx_job cx) (λ j, with_job_state "running" (job_status_reason j) (in_clock i ForJob) j);;
    set_cancellation i cx "compensating"
  else if nonempty mutated then
    wait_for_operator i cx "cancellation requires operator recovery";;
    set_cancellation i cx "waiting-for-operator"
  else
    cancelled_job i cx "reconciliation cancelled before mutation";;
    set_cancellation i cx "completed".

Definition apply_cancellation (i : inputs) (cx : context) (c : ReconciliationCancellation)
    : M control_db unit :=
  owns ← owns_publication (cx_id cx) false;
  if negb owns then cancel_historical i cx (ca_reason c) else
  r ← reconciliation_row (cx_id cx);
  if eqb (rec_current_phase r) "waiting-for-operator" then
    _ ← quiesce_both i cx;
    set_cancellation i cx "waiting-for-operator"
  else cancel_owner i cx (ca_reason c).

(** [publisher.withdraw(...)] for a reconciliation that has a publication. *)
Definition withdraw_marker (cx : context) (reason : string) : M control_db ActivationMarker :=
  _ ← publication_row (cx_id cx);
  r ← reconciliation_row (cx_id cx);
  match publisher with
  | None => throw EExternal "object has no attribute 'withdraw'"
  | Some p =>
      digest ← lift (plan_digest_of r);
      lift (withdraw p (cx_id cx) digest (cx_targets cx) reason)
  end.

Definition withdraw_routes (cx : context) (reason : string) : M control_db unit :=
  marker ← withdraw_marker cx reason;
  store_marker (cx_id cx) marker "routes-withdrawn".

(** Whether another handoff keeps a reconciliation that does not own the routes
    from moving. *)
Definition handoff_elsewhere (owns : bool) : M control_db bool :=
  s ← get; mret (negb owns && negb (is_None_b (pending_publication_handoff s))).

(** [None] when the cancellation leaves the tick to the phases. *)
Definition advance_cancellation (i : inputs) (cx : context) (c : ReconciliationCancellation)
    : M control_db (option bool) :=
  let to state := alter_cancellation (cx_id cx) (with_ca_state state (in_clock i ForCancellation)) in
  r ← reconciliation_row (cx_id cx);
  if eqb (ca_state c) "requested" then
    owns ← owns_publication (cx_id cx) false;
    elsewhere ← handoff_elsewhere owns;
    if (elsewhere : bool) then mret (Some false) else
    to (if among (rec_current_phase r) ["completed"; "publication-pending"] && owns
        then "withdrawal-pending" else "processing");;
    mret (Some true)
  else if eqb (ca_state c) "withdrawal-pending" then
    owns ← owns_publication (cx_id cx) false;
    elsewhere ← handoff_elsewhere owns;
    if (elsewhere : bool) then mret (Some false) else
    (if (owns : bool) then
       lift (ensure (negb (is_None_b publisher)) ERuntime "route publisher is unavailable");;
       withdraw_routes cx "reconciliation cancellation";;
       to "withdrawn"
     else to "processing");;
    mret (Some true)
  else if eqb (ca_state c) "withdrawn" then
    to "processing";;
    apply_cancellation i cx c;;
    mret (Some true)
  else if eqb (ca_state c) "processing" then
    apply_cancellation i cx c;;
    mret (Some true)
  else if eqb (ca_state c) "compensating" then
    if eqb (rec_current_phase r) "failed" then to "completed";; mret (Some true)
    else if eqb (rec_current_phase r) "waiting-for-operator" then
      to "waiting-for-operator";; mret (Some true)
    else mret None
  else mret None.

(** ** Phases *)

Definition published_phases : list string := ["completed"; "publication-pending"].

(** The routes are taken over and withdrawn. *)
Definition hand_over (i : inputs) (cx : context) : M control_db bool :=
  owns ← owns_publication (cx_id cx) true;
  if negb owns then mret false else
  marker ← withdraw_marker cx "reconciliation maintenance";
  transfer_publication_owner i (cx_id cx);;
  store_marker (cx_id cx) marker "routes-withdrawn";;
  alter_reconciliation (cx_id cx) (to_phase "routes-withdrawn");;
  mret true.

(** Authority was lost: routes that were published are withdrawn, and the rest is
    left to the operator. *)
Definition lose_authority (i : inputs) (cx : context) (phase reason : string) : M control_db bool :=
  owner ← publication_owner;
  owns ← owns_publication (cx_id cx) false;
  if (owns || eqb (own_reconciliation_id owner) (Some (cx_id cx))) && among phase published_phases
     && negb (is_None_b publisher)
  then
    grant ← ensure_node_lease i cx;
    if is_None_b grant then mret false else
    withdraw_routes cx "reconciliation authority lost";;
    quiesce_for_unavailable_target i cx reason;;
    mret true
  else
    quiesce_for_unavailable_target i cx reason;;
    mret true.

Definition begin_withdrawal (i : inputs) (cx : context) (r : Reconciliation) : M control_db bool :=
  s ← get;
  lift (value_check (eqb (job_base_commit <$> t_jobs s !! cx_job cx) (Some (rec_base_commit r)))
          "reconciliation job base commit does not match");;
  let predecessor_handoff :=
    match t_owner s ≫= owning_row s with
    | Some (id, owner) => negb (eqb id (cx_id cx)) && among (rec_current_phase owner) terminal_phases
    | None => false
    end in
  ready ← (if predecessor_handoff then mret true
           else grant ← ensure_node_lease i cx; mret (negb (is_None_b grant)));
  if negb ready then mret false else
  digest ← lift (plan_digest_of r);
  s ← get;
  lift (ensure (is_None_b (t_publications s !! cx_id cx)) EIntegrity "UNIQUE constraint failed");;
  put_publication (cx_id cx)
    (MkPublication "withdrawal-pending" None digest None None None None None None None None);;
  alter_reconciliation (cx_id cx) (in_phase "withdrawal-pending" "running");;
  alter_job (cx_job cx) (with_job_state "running" None (in_clock i ForJob));;
  mret true.

Definition unavailable_reason : string := "reconciliation target agent is unavailable".

(** Projections for the operations that have none. *)
Definition plan_node (i : inputs) (cx : context) (n : OperationNode) : M control_db unit :=
  insert_projection (in_projection_key i (op_id n))
    (MkProjection (cx_id cx) (op_id n) "primary" None (op_payload_digest n) "planned" None None None None).

Definition begin_dispatch (i : inputs) (cx : context) : M control_db bool :=
  s ← get;
  let existing := map (λ p, ro_graph_operation_id p.2) (role_projections s (cx_id cx) "primary") in
  eachM (plan_node i cx) (filter (λ n, op_id n ∉ existing) (graph_nodes (cx_graph cx)));;
  alter_reconciliation (cx_id cx) (to_phase "dispatching");;
  mret true.

Definition accepted_evidence_digest (rows : list (string * ReconciliationOperation)) : result string :=
  value_check (nonempty rows
               && forallb (λ p : string * ReconciliationOperation,
                    eqb (ro_state p.2) "accepted" && negb (is_None_b (ro_result_digest p.2))
                    && negb (is_None_b (ro_evidence_digest p.2))) rows)
    "reconciliation operation evidence is incomplete";;
  mret (utf8_digest (JArr (map (λ p : string * ReconciliationOperation,
          JObj [("operation_id", JStr (ro_graph_operation_id p.2));
                ("result_digest", opt_str (ro_result_digest p.2));
                ("evidence_digest", opt_str (ro_evidence_digest p.2))]) rows))).

Definition accept_evidence (cx : context) (publication : RoutePublication) : M control_db unit :=
  s ← get;
  digest ← lift (accepted_evidence_digest (role_projections s (cx_id cx) "primary"));
  put_publication (cx_id cx)
    (MkPublication "publication-pending" (rp_generation publication) (rp_plan_digest publication)
       (Some digest) (rp_route_digest publication) (rp_litellm_digest publication)
       (rp_bundle_digest publication) (rp_activation_marker publication)
       (rp_activation_marker_digest publication) (rp_lease_issued_at publication)
       (rp_lease_expires_at publication));;
  alter_reconciliation (cx_id cx) (to_phase "publication-pending").

(** The endpoint of one route, with the evidence of its verification. *)
Definition route_endpoint (s : control_db) (rows : list (string * ReconciliationOperation)) (raw : json)
    : result AcceptedEndpointEvidence :=
  match raw with
  | JObj route =>
      match field route "entrypoint_node_id", field route "workload_id" with
      | JStr node_id, JStr workload_id =>
          let operation_id := workload_id +:+ ":" +:+ node_id +:+ ":workload.verify" in
          match find (λ p : string * ReconciliationOperation,
                  eqb (ro_graph_operation_id p.2) operation_id) rows with
          | Some (_, p) =>
              match (if eqb (ro_state p) "accepted" then ro_evidence_digest p else None) with
              | Some evidence =>
                  '(address, observed_at) ← endpoint_resolver s node_id;
                  mret (MkEndpoint node_id address observed_at operation_id evidence
                          (endpoint_evidence_digest node_id address observed_at operation_id evidence))
              | None => raise EValue "accepted route lacks exact verify evidence"
              end
          | None => raise EValue "accepted route lacks exact verify evidence"
          end
      | _, _ => raise EType "accepted route entrypoint is invalid"
      end
  | _ => raise EType "accepted route is invalid"
  end.

Definition publication_request (i : inputs) (s : control_db) (cx : context) (r : Reconciliation)
    (publication : RoutePublication) : result RouteBundleRequest :=
  match rp_evidence_digest publication with
  | None => raise EType "accepted reconciliation evidence set is unavailable"
  | Some evidence =>
      match item_of (cx_document cx) "routes" with
      | JObj (_ :: _ as routes) =>
          endpoints ← traverse (route_endpoint s (role_projections s (cx_id cx) "primary")) (map snd routes);
          digest ← plan_digest_of r;
          mret (MkBundleRequest (cx_id cx) digest evidence routes
                  (foldl (λ m e, <[ep_node_id e := e]> m) ∅ endpoints)
                  (in_clock i ForPublication + publication_lease_seconds * microsecond) (rec_base_commit r))
      | _ => raise EValue "accepted reconciliation routes are unavailable"
      end
  end.

(** [reconciliation.completion_generation], drawn once; it is unique. *)
Definition complete_reconciliation (cx : context) : M control_db unit :=
  r ← reconciliation_row (cx_id cx);
  match rec_completion_generation r with
  | Some _ => alter_reconciliation (cx_id cx) (in_phase "completed" "succeeded")
  | None =>
      g ← on_reconciliations next_completion_generation;
      s ← get;
      lift (ensure (negb (completion_taken (Tables (t_reconciliations s) (t_completions s)) (cx_id cx) g))
              EIntegrity "UNIQUE constraint failed");;
      alter_reconciliation (cx_id cx)
        (λ r, with_phase r "completed" "succeeded" (rec_route_withdrawal_generation r) (Some g))
  end.

Definition publish_routes (i : inputs) (cx : context) (r : Reconciliation) (publication : RoutePublication)
    : M control_db unit :=
  s ← get;
  request ← lift (publication_request i s cx r publication);
  match publisher with
  | None => throw EExternal "object has no attribute 'publish'"
  | Some p =>
      marker ← lift (publish p request);
      store_marker (cx_id cx) marker "completed";;
      complete_reconciliation cx;;
      digest ← lift (plan_digest_of r);
      let outcome := JObj [("reconciliation_id", JStr (cx_id cx)); ("plan_digest", JStr digest);
                           ("bundle_digest", JStr (mk_manifest_sha256 marker))] in
      alter_job (cx_job cx)
        (λ j, with_job j "succeeded" (Some outcome) None (job_current_attempt j) (in_clock i ForJob));;
      _ ← mark_node_lease_releasing i cx;
      mret ()
  end.

(** The routes are withdrawn before their lease ends, to be published again. *)
Definition renew_routes (i : inputs) (cx : context) (released : bool) : M control_db bool :=
  grant ← ensure_node_lease i cx;
  if is_None_b grant then mret released else
  withdraw_routes cx "route lease renewal";;
  alter_reconciliation (cx_id cx) (in_phase "accepting" "running");;
  alter_job (cx_job cx) (λ j, with_job_state "running" (job_status_reason j) (in_clock i ForJob) j);;
  mret true.

(** Whether the lease of the published routes is not due for renewal. *)
Definition lease_is_fresh (i : inputs) (publication : RoutePublication) : bool :=
  match rp_lease_expires_at publication with
  | None => true
  | Some expires => (in_clock i ForRenewal + 30 * microsecond <? expires)%Z
  end.

Definition dispatch_phase (i : inputs) (cx : context) : M control_db bool :=
  notify ← dispatch_primary i cx;
  r ← reconciliation_row (cx_id cx);
  mret (notify || negb (eqb (rec_current_phase r) "dispatching")).

Definition compensation_phase (i : inputs) (cx : context) : M control_db bool :=
  notify ← dispatch_compensation i cx;
  r ← reconciliation_row (cx_id cx);
  (if eqb (rec_current_phase r) "failed" then _ ← mark_node_lease_releasing i cx; mret () else mret ());;
  mret (notify || negb (eqb (rec_current_phase r) "compensating")).

(** The phases in which every target must be active. *)
Definition active_phases : list string :=
  ["routes-withdrawn"; "dispatching"; "accepting"; "publication-pending"; "compensating"].

(** The step of a phase, once the reconciliation may touch the routes. *)
Definition advance_phase (i : inputs) (cx : context) (r : Reconciliation) (released automatic : bool)
    : M control_db bool :=
  let phase := rec_current_phase r in
  publication ← publication_row (cx_id cx);
  s ← get;
  if eqb phase "completed" && automatic && lease_is_fresh i publication then
    mret (released && (negb (eqb (t_owner s ≫= own_reconciliation_id) (Some (cx_id cx)))
                       || is_None_b (rp_generation publication)))
  else if among phase active_phases && negb (targets_are_active s (cx_targets cx)) then
    quiesce_for_unavailable_target i cx
      (if eqb phase "compensating" then unavailable_reason +:+ " during compensation" else unavailable_reason);;
    mret true
  else if eqb phase "routes-withdrawn" then begin_dispatch i cx
  else if eqb phase "dispatching" then dispatch_phase i cx
  else if eqb phase "accepting" then accept_evidence cx publication;; mret true
  else if eqb phase "publication-pending" then publish_routes i cx r publication;; mret true
  else if eqb phase "completed" then renew_routes i cx released
  else if eqb phase "compensating" then compensation_phase i cx
  else throw EValue "reconciliation execution phase is invalid".

(** The step of a reconciliation that is neither terminal nor being cancelled. *)
Definition execute (i : inputs) (prefetched : option ReconciliationAuthorityInput) (cx : context)
    (r : Reconciliation) (released automatic : bool) : M control_db bool :=
  let phase := rec_current_phase r in
  swept ← sweep_expired_mutations i cx;
  if (swept : bool) then mret true else
  owner ← publication_owner;
  if eqb phase "withdrawal-pending" && negb (is_None_b (own_reconciliation_id owner))
     && negb (eqb (own_reconciliation_id owner) (Some (cx_id cx)))
  then hand_over i cx else
  s ← get;
  reason ← lift (authority_reason s prefetched cx r);
  match reason with
  | Some reason => lose_authority i cx phase reason
  | None =>
      if eqb phase "withdrawal-pending" then hand_over i cx else
      owns ← owns_publication (cx_id cx) (eqb phase "planned");
      if negb owns then mret false
      else if eqb phase "planned" then begin_withdrawal i cx r
      else advance_phase i cx r released automatic
  end.

(** The phases that need the nodes, while a withdrawal waits for its nodes to
    come back. *)
Definition lease_phases : list string :=
  ["withdrawal-pending"; "routes-withdrawn"; "dispatching"; "accepting"; "publication-pending"; "compensating"].

Definition lease_missing (i : inputs) (cx : context) (phase : string) : M control_db bool :=
  s ← get;
  if among phase lease_phases
     && negb (eqb phase "withdrawal-pending" && negb (targets_are_active s (cx_targets cx)))
  then grant ← ensure_node_lease i cx; mret (is_None_b grant)
  else mret false.

(** A cancellation takes the tick, leaves it, or cannot get the nodes. *)
Definition cancellation_step (i : inputs) (cx : context) (phase : string) (c : ReconciliationCancellation)
    : M control_db (option bool) :=
  blocked ←
    (if eqb phase "completed" && among (ca_state c) ["requested"; "withdrawal-pending"] then
       owns ← owns_publication (cx_id cx) false;
       if (owns : bool) then grant ← ensure_node_lease i cx; mret (is_None_b grant) else mret false
     else mret false);
  if (blocked : bool) then mret (Some false) else
  advanced ← advance_cancellation i cx c;
  match advanced with
  | None => mret None
  | Some b =>
      r ← reconciliation_row (cx_id cx);
      (if among (rec_current_phase r) ["failed"; "cancelled"]
       then _ ← mark_node_lease_releasing i cx; mret () else mret ());;
      mret (Some b)
  end.

Definition tick_candidate (i : inputs) (prefetched : option ReconciliationAuthorityInput)
    (candidate : string) (automatic : bool) : M control_db bool :=
  transaction (
    cx ← locked_context candidate None;
    r ← reconciliation_row candidate;
    let phase := rec_current_phase r in
    released ← release_pending_node_lease cx;
    s ← get;
    let cancellation := t_cancellations s !! candidate in
    if released && negb (eqb phase "completed") && is_None_b cancellation then mret true else
    marked ← (if among phase ["failed"; "cancelled"] then mark_node_lease_releasing i cx else mret false);
    if (marked : bool) then mret true else
    missing ← lease_missing i cx phase;
    if (missing : bool) then mret false else
    step ← match cancellation with
           | Some c => cancellation_step i cx phase c
           | None => mret None
           end;
    match step with
    | Some b => mret b
    | None =>
        if among phase ["failed"; "cancelled"; "waiting-for-operator"] then mret released
        else execute i prefetched cx r released automatic
    end).

(** ** Choosing a reconciliation *)

(** The owner of the routes, when it is completed. *)
Definition completed_owner_id (s : control_db) : option string :=
  owner ← match t_owner s ≫= own_reconciliation_id with
          | Some id => Some id
          | None => latest_completed s
          end;
  r ← t_reconciliations s !! owner;
  if eqb (rec_current_phase r) "completed" then Some owner else None.

(** The reconciliation whose lease has been releasing the longest. *)
Definition releasing_owner (s : control_db) : option string :=
  let rows := omap (λ p : string * mutation_lease,
      r ← t_reconciliations s !! ml_owner_id p.2;
      if eqb (ml_owner_kind p.2) "reconciliation" && eqb (ml_state p.2) "releasing"
      then Some (ml_owner_id p.2, ml_updated_at p.2) else None) (map_to_list (t_leases s)) in
  fst <$> best (λ p q : string * Z,
                  (p.2 <? q.2)%Z || (p.2 =? q.2)%Z && bool_decide (String.le p.1 q.1)) rows.

(** Whether a mutation of a reconciliation ran out of its lease. *)
Definition has_expired_mutation (s : control_db) (now : Z) (id : string) : bool :=
  existsb (λ p : string * StoredOperation,
      let '(operation_id, o) := p in
      eqb (t_jobs s !! so_parent_job_id o ≫= job_reconciliation_id) (Some id)
      && eqb (so_state o) "running" && among (so_kind o) graph_mutations
      && match attempt_of s operation_id (so_current_attempt o) with
         | Some (_, a) => eqb (at_state a) "running" && (at_lease_deadline a <=? now)%Z
         | None => false
         end) (map_to_list (t_operations s)).

Definition active_owner_phases : list string :=
  ["planned"; "routes-withdrawn"; "dispatching"; "accepting"; "publication-pending"; "compensating"].

(** The next reconciliation to dispatch: the owner goes on, and otherwise the
    oldest plan after it. *)
Definition next_plan (s : control_db) : option string :=
  match t_owner s ≫= owning_row s with
  | Some owner =>
      if among (rec_current_phase owner.2) active_owner_phases then Some owner.1
      else fst <$> first_created
             (rows_where s (λ p, eqb (rec_current_phase p.2) "planned" && negb (creation_le p owner)))
  | None =>
      match first_created (rows_where s (λ p, eqb (rec_current_phase p.2) "planned")) with
      | Some p => Some p.1
      | None => fst <$> first_created (rows_where s (λ p, among (rec_current_phase p.2) active_owner_phases))
      end
  end.

Definition candidate_id (s : control_db) (now : Z) : option string :=
  let pending := pending_publication_handoff s in
  let releasing :=
    id ← releasing_owner s;
    if negb (eqb (rec_current_phase <$> t_reconciliations s !! id) (Some "waiting-for-operator"))
       || is_None_b pending
    then Some id else None in
  match releasing with
  | Some id => Some id
  | None =>
      match pending with
      | Some id => Some id
      | None =>
          match first_created (rows_where s (λ p, has_expired_mutation s now p.1)) with
          | Some p => Some p.1
          | None =>
              match first_created (rows_where s (λ p,
                      match t_cancellations s !! p.1 with
                      | Some c => among (ca_state c) active_cancellation_states
                      | None => false
                      end)) with
              | Some p => Some p.1
              | None => next_plan s
              end
          end
      end
  end.

Definition tick_one (i : inputs) (id : string) (automatic : bool) : M control_db bool :=
  prefetched ← prepare_authority id;
  tick_candidate i prefetched id automatic.

(** [tick(None)]: the completed owner first, then the next candidate. *)
Definition tick (i_owner i_candidate : inputs) (now : Z) : M control_db bool :=
  s ← get;
  renewed ← match completed_owner_id s with
            | Some id => tick_one i_owner id true
            | None => mret false
            end;
  if (renewed : bool) then mret true else
  s ← get;
  match candidate_id s now with
  | None => mret false
  | Some id => tick_one i_candidate id true
  end.

Fixpoint tick_while (id : string) (attempts : list inputs) : M control_db unit :=
  match attempts with
  | [] => mret ()
  | i :: attempts =>
      advanced ← tick_one i id false;
      if negb advanced then mret () else tick_while id attempts
  end.

(** [request_cancel]: the intent, and at most three ticks. *)
Definition request_cancel (now : Z) (i1 i2 i3 : inputs) (id reason request_id : string) : M control_db unit :=
  _ ← enqueue_cancel now id reason "internal-cancellation-adapter" request_id;
  tick_while id [i1; i2; i3].
End service.
