(* ===== verification/Waves.v ===== *)
(** * Waves of a graph

    The pure decisions of the reconciliation service: which operations of a graph
    may be dispatched next, in which order accepted ones are compensated, and
    which evidence is accepted for a request. *)

From S2P Require Import Prelude Identifiers Canonical Documents Contracts PackageEngine Protocol.
From S2P Require Import OperationGraph Orchestration OrchestrationFacts NodeLeases Jobs AgentTables AgentJobs.
From S2P Require Import Routes AgentReconciliation.

(** ** Authenticated graphs *)

Record executable (nodes : list OperationNode) : Prop := {
  ex_distinct : NoDup (op_id <$> nodes);
  ex_ordered : respects ∅ nodes
}.

Lemma validated_executable id r g document :
  validated_plan id r = Ok (g, document) → executable (graph_nodes g).
Proof.
  unfold validated_plan. intros (v & P & HP & -> & _)%validate_ok.
  destruct v as [| | | | |l]; try discriminate HP. apply parse_plan_ok in HP.
  destruct HP as (_ & _ & _ & _ & raws & parsed & _ & _ & _ & (Hnd & _) & Ht).
  destruct (schedule_of_nodes _ _ Hnd Ht) as [Hp Hr]. split; [|done]. by rewrite Hp.
Qed.

Lemma graph_node_ok g id n : graph_node g id = Ok n → n ∈ graph_nodes g ∧ op_id n = id.
Proof.
  unfold graph_node. destruct (head _) as [m|] eqn:H; [|done]. intros [= ->].
  apply head_Some in H as [l H].
  assert (n ∈ filter (λ n, op_id n = id) (graph_nodes g)) as Hin by (rewrite H; by left).
  by apply list_elem_of_filter in Hin as [? ?].
Qed.

(** ** The next wave *)

Definition is_accepted (st : states) (id : string) : Prop := st !! id = Some "accepted".
Definition unstarted (st : states) (id : string) : Prop := st !! id = None ∨ st !! id = Some "planned".

#[export] Instance is_accepted_dec st id : Decision (is_accepted st id).
Proof. unfold is_accepted. apply _. Defined.

Lemma ready_true st n :
  ready st n = true ↔ unstarted st (op_id n) ∧ Forall (is_accepted st) (op_dependencies n).
Proof.
  unfold ready, unstarted, is_accepted. rewrite andb_true_iff, eqb_true, forallb_forall, Forall_forall.
  setoid_rewrite eqb_true. setoid_rewrite list_elem_of_In.
  destruct (st !! op_id n) as [x|]; cbn; naive_solver.
Qed.

Lemma wave_elem nodes st id :
  id ∈ ready_operation_ids nodes st ↔
  ∃ n, n ∈ nodes ∧ op_id n = id ∧ unstarted st id ∧ Forall (is_accepted st) (op_dependencies n).
Proof.
  unfold ready_operation_ids. rewrite py_sorted_elem_of, elem_of_remove_dups, list_elem_of_fmap.
  setoid_rewrite list_elem_of_filter. setoid_rewrite ready_true. naive_solver.
Qed.

(** A graph with operations left has one that may start. *)
Lemma wave_progress nodes st n :
  respects ∅ nodes → n ∈ nodes → (∀ m, m ∈ nodes → unstarted st (op_id m) ∨ is_accepted st (op_id m)) →
  ¬ is_accepted st (op_id n) → ∃ id, id ∈ ready_operation_ids nodes st.
Proof.
  intros Hr Hn Hall Hna.
  assert (∃ i m, nodes !! i = Some m ∧ ¬ is_accepted st (op_id m)
    ∧ ∀ j k, (j < i)%nat → nodes !! j = Some k → is_accepted st (op_id k)) as (i & m & Hm & Hna' & Hbefore).
  { clear Hr Hall. induction nodes as [|k nodes IH]; [by apply elem_of_nil in Hn|].
    destruct (decide (is_accepted st (op_id k))) as [Hk|Hk].
    - apply elem_of_cons in Hn as [->|Hn]; [done|]. destruct (IH Hn) as (i & m & ? & ? & Hb).
      exists (S i), m. split_and!; [done..|]. intros [|j] x Hj Hx; cbn in Hx; [by simplify_eq|].
      eapply Hb; [|done]. lia.
    - exists 0, k. split_and!; [done..|]. intros; lia. }
  exists (op_id m). apply wave_elem. exists m. assert (m ∈ nodes) by (by eapply list_elem_of_lookup_2).
  split_and!; [done..| |].
  - by destruct (Hall m).
  - apply Forall_forall. intros d Hd.
    destruct (respects_before _ _ _ _ _ Hr Hm Hd) as (j & k & Hj & Hk & <-); [set_solver|]. by eapply Hbefore.
Qed.

(** ** Executing a graph wave by wave *)

(** The operations of a wave are accepted before the next one is formed. *)
Definition accept_wave (nodes : list OperationNode) (st : states) : states :=
  foldr (λ id, <[id := "accepted"]>) st (ready_operation_ids nodes st).

Fixpoint accept_waves (k : nat) (nodes : list OperationNode) (st : states) : states :=
  match k with
  | O => st
  | S k => accept_waves k nodes (accept_wave nodes st)
  end.

Lemma accept_wave_lookup nodes st id :
  accept_wave nodes st !! id =
  if bool_decide (id ∈ ready_operation_ids nodes st) then Some "accepted" else st !! id.
Proof.
  unfold accept_wave. induction (ready_operation_ids nodes st) as [|x l IH]; cbn; [done|].
  destruct (decide (id = x)) as [->|Hne].
  - rewrite lookup_insert_eq, bool_decide_true by set_solver. done.
  - rewrite lookup_insert_ne by done. rewrite IH. erewrite bool_decide_ext; [done|]. set_solver.
Qed.

Definition remaining (nodes : list OperationNode) (st : states) : nat :=
  length (filter (λ n, ¬ is_accepted st (op_id n)) nodes).

Lemma filter_lt {A} (P Q : A → Prop) `{!∀ x, Decision (P x)} `{!∀ x, Decision (Q x)} l x :
  (∀ y, Q y → P y) → x ∈ l → P x → ¬ Q x → (length (filter Q l) < length (filter P l))%nat.
Proof.
  intros Hi. assert (∀ l, length (filter Q l) ≤ length (filter P l))%nat as Hle.
  { intros k. induction k as [|y k IH]; [done|]. rewrite !filter_cons.
    repeat case_decide; cbn; [lia|naive_solver|lia|lia]. }
  induction 1 as [y l|y z l Hx IH]; intros Hp Hq; rewrite !filter_cons.
  - rewrite decide_False, decide_True by done. cbn. specialize (Hle l). lia.
  - specialize (IH Hp Hq). repeat case_decide; cbn; [lia|naive_solver|lia|lia].
Qed.

Lemma accept_wave_decreases nodes st n :
  respects ∅ nodes → n ∈ nodes → (∀ id x, st !! id = Some x → x = "accepted") → ¬ is_accepted st (op_id n) →
  (remaining nodes (accept_wave nodes st) < remaining nodes st)%nat.
Proof.
  intros Hr Hn Hst Hna. destruct (wave_progress nodes st n) as [id Hid]; [done..| |done|].
  { intros m _. unfold unstarted, is_accepted. destruct (st !! op_id m) as [x|] eqn:E; [|by left; left].
    right. by rewrite (Hst _ _ E). }
  pose proof Hid as (m & Hm & Eid & Hu & _)%wave_elem. unfold remaining.
  apply (filter_lt _ _ _ m); [| done | |].
  - intros y Hy Ha. apply Hy. unfold is_accepted in *. rewrite accept_wave_lookup. by case_bool_decide.
  - unfold is_accepted. subst id. by destruct Hu as [-> | ->].
  - unfold is_accepted. rewrite accept_wave_lookup, Eid. rewrite bool_decide_true by done. naive_solver.
Qed.

Lemma accept_waves_complete k : ∀ nodes st,
  respects ∅ nodes → (∀ id x, st !! id = Some x → x = "accepted") → (remaining nodes st ≤ k)%nat →
  ∀ n, n ∈ nodes → is_accepted (accept_waves k nodes st) (op_id n).
Proof.
  induction k as [|k IH]; intros nodes st Hr Hst Hk n Hn; cbn.
  - destruct (decide (is_accepted st (op_id n))) as [|Hna]; [done|]. unfold remaining in Hk.
    assert (n ∈ filter (λ n, ¬ is_accepted st (op_id n)) nodes) as Hin by (by apply list_elem_of_filter).
    destruct (filter _ nodes); [by apply elem_of_nil in Hin|cbn in Hk; lia].
  - apply IH; [done| | |done].
    + intros id x. rewrite accept_wave_lookup. case_bool_decide; [by intros [= <-]|apply Hst].
    + destruct (decide (Exists (λ m, ¬ is_accepted st (op_id m)) nodes)) as [He|He].
      * apply Exists_exists in He as (m & Hm & Hna). pose proof (accept_wave_decreases _ _ _ Hr Hm Hst Hna). lia.
      * unfold remaining. enough (filter (λ n, ¬ is_accepted (accept_wave nodes st) (op_id n)) nodes = []) as ->
          by (cbn; lia).
        apply elem_of_nil_inv. intros m [Hnm Hm]%list_elem_of_filter. apply Hnm. unfold is_accepted.
        rewrite accept_wave_lookup. case_bool_decide; [done|].
        destruct (decide (is_accepted st (op_id m))) as [|Hna]; [done|]. destruct He. apply Exists_exists. eauto.
Qed.

(** ** The order of compensation *)

Lemma filter_app_inv {A} (P : A → Prop) `{!∀ x, Decision (P x)} (l l1 l2 : list A) x :
  filter P l = l1 ++ x :: l2 → ∃ k1 k2, l = k1 ++ x :: k2 ∧ filter P k1 = l1.
Proof.
  revert l1. induction l as [|y l IH]; intros l1; [by destruct l1|]. rewrite filter_cons. case_decide as Hy.
  - destruct l1 as [|z l1]; cbn; [intros [= -> _]; by exists [], l|].
    intros [= -> (k1 & k2 & -> & <-)%IH]. exists (z :: k1), k2. by rewrite filter_cons_True.
  - intros (k1 & k2 & -> & <-)%IH. exists (y :: k1), k2. by rewrite filter_cons_False.
Qed.

Lemma respects_dependencies D l m : respects D l → m ∈ l → list_to_set (op_dependencies m) ⊆ D ∪ ids_of l.
Proof.
  revert D. induction l as [|n l IH]; intros D Hr Hm; [by apply elem_of_nil in Hm|]. destruct Hr as [Hn Hl].
  unfold ids_of in *. cbn. apply elem_of_cons in Hm as [->|Hm]; [set_solver|].
  specialize (IH _ Hl Hm). set_solver.
Qed.

(** What depends on an operation comes before it. *)
Lemma compensation_before nodes st done n rest m :
  executable nodes → n ∈ nodes → compensation_order nodes st = done ++ op_id n :: rest →
  m ∈ nodes → op_id n ∈ op_dependencies m → is_accepted st (op_id m) → op_compensation_kind m ≠ None →
  op_id m ∈ done.
Proof.
  intros [Hnd Hr] Hn Ho Hm Hd Ha Hc. unfold compensation_order in Ho.
  apply fmap_app_inv in Ho as (l1 & l2 & -> & Hl2 & Hf). destruct l2 as [|n' l2]; [done|]. injection Hl2 as Hid _.
  apply filter_app_inv in Hf as (k1 & k2 & Hrev & <-).
  assert (nodes = rev k2 ++ n' :: rev k1) as Hsplit.
  { rewrite <- (rev_involutive nodes), Hrev, rev_app_distr. cbn. by rewrite <- app_assoc. }
  rewrite Hsplit, fmap_app, fmap_cons in Hnd. apply NoDup_app in Hnd as (_ & Hk2 & _).
  rewrite Hsplit in Hr, Hm. rewrite respects_app in Hr. destruct Hr as [Hr2 [Hn' _]].
  assert (op_id n ∉ op_id <$> rev k2) as Hout by (intros Hin; apply (Hk2 (op_id n) Hin); rewrite Hid; by left).
  apply elem_of_app in Hm as [Hm|[->|Hm]%elem_of_cons].
  - destruct Hout. apply (respects_dependencies _ _ _ Hr2) in Hm. unfold ids_of in Hm. set_solver.
  - destruct Hout. unfold ids_of in Hn'. set_solver.
  - apply list_elem_of_fmap_2. apply list_elem_of_filter. split; [done|].
    apply list_elem_of_In, in_rev. by apply list_elem_of_In.
Qed.

(** ** Evidence

    What the evidence of a kind of operation says, for a request. *)

Lemma same_item_str evidence payload key payload_key s :
  field evidence key = JStr s →
  same_item evidence payload key payload_key = true ↔ field payload payload_key = JStr s.
Proof.
  unfold same_item. intros ->. rewrite py_eqb_eq. cbn. split; [|by intros ->].
  by destruct (field payload payload_key).
Qed.

Lemma is_str_true p v : is_str p v = true ↔ ∃ s, v = JStr s ∧ p s = true.
Proof. destruct v; cbn; naive_solver. Qed.

Lemma is_object_true p v : is_object p v = true ↔ ∃ items, v = JObj items ∧ p items = true.
Proof. destruct v; cbn; naive_solver. Qed.

(** The release that was installed is the one the request names. *)
Definition installed (payload evidence : list (string * json)) : Prop :=
  same_keys evidence ["status"; "release_digest"; "manifest_digest"; "adapter_id"] = true
  ∧ ∃ status release manifest adapter,
      field evidence "status" = JStr status ∧ status ∈ ["installed"; "already-installed"]
      ∧ field evidence "release_digest" = JStr release ∧ field payload "target_digest" = JStr release
      ∧ field evidence "manifest_digest" = JStr manifest ∧ field payload "oci_manifest_digest" = JStr manifest
      ∧ field evidence "adapter_id" = JStr adapter ∧ field payload "adapter_id" = JStr adapter
      ∧ is_digest release = true ∧ is_oci_digest manifest = true ∧ adapter ≠ "".

(** The action was carried out on the workload and release of the request; a
    verification saw the expected evidence. *)
Definition acted (kind action : string) (payload evidence : list (string * json)) : Prop :=
  same_keys evidence ["status"; "action"; "workload_id"; "release_digest"; "evidence_digest"] = true
  ∧ ∃ status digest, field evidence "status" = JStr status ∧ status ≠ ""
      ∧ field evidence "action" = JStr action
      ∧ same_item evidence payload "workload_id" "workload_id" = true
      ∧ same_item evidence payload "release_digest" "release_digest" = true
      ∧ field evidence "evidence_digest" = JStr digest ∧ is_digest digest = true
      ∧ (kind = "workload.verify" → field payload "expected_digest" = JStr digest).

(** The package operation was carried out for the deployment and release of the
    request. *)
Definition packaged (kind : string) (payload evidence : list (string * json)) : Prop :=
  same_keys evidence
    ["operation"; "deployment_id"; "release_digest"; "generation"; "status"; "evidence_digest"] = true
  ∧ ∃ deployment release status digest, field evidence "operation" = JStr kind
      ∧ field evidence "deployment_id" = JStr deployment ∧ field payload "deployment_id" = JStr deployment
      ∧ field evidence "release_digest" = JStr release ∧ field payload "release_digest" = JStr release
      ∧ field evidence "status" = JStr status ∧ status ∈ expected_statuses kind
      ∧ (field evidence "generation" = JNull ∨ ∃ generation, field evidence "generation" = JStr generation)
      ∧ field evidence "evidence_digest" = JStr digest
      ∧ is_digest release = true ∧ is_digest digest = true.

(** No compute process was active on the node the gate asks about. *)
Definition gate_is_clear (payload evidence : list (string * json)) : Prop :=
  py_eqb (JObj payload) gate_payload = true
  ∧ same_keys evidence ["vonk_forge"; "nvidia"] = true
  ∧ ∃ health accelerator nvidia, field evidence "vonk_forge" = JObj health
      ∧ py_eqb (field health "schema_version") (JInt 1) = true
      ∧ field health "accelerator" = JObj accelerator
      ∧ py_eqb (field accelerator "active_nvidia_compute_processes") (JInt 0) = true
      ∧ field evidence "nvidia" = JObj nvidia.

Definition evidence_for (kind : string) (payload evidence : list (string * json)) : Prop :=
  kind = "release.install" ∧ installed payload evidence
  ∨ (∃ action, lookup_key workload_actions kind = Some action ∧ acted kind action payload evidence)
  ∨ kind ∈ package_actions ∧ packaged kind payload evidence
  ∨ kind = "node.probe" ∧ gate_is_clear payload evidence.

Ltac str_facts :=
  repeat match goal with
  | H : is_str _ _ = true |- _ => apply is_str_true in H as (? & ? & ?)
  | H : is_object _ _ = true |- _ => apply is_object_true in H as (? & ? & ?)
  | H : py_eqb _ (JStr _) = true |- _ => apply py_eqb_str in H
  | H : field ?e ?k = JStr _, H' : same_item ?e _ ?k _ = true |- _ => apply (same_item_str _ _ _ _ _ H) in H'
  end.

Lemma release_evidence_ok payload evidence : release_evidence payload evidence = Ok () ↔ installed payload evidence.
Proof.
  unfold release_evidence, installed, value_check. split.
  - intros H. inv_run_all. bool_facts. str_facts. bool_facts. split; [done|].
    do 4 eexists. split_and!; done.
  - intros (-> & status & release & manifest & adapter & Hs & Hin & Hr & Hr' & Hm & Hm' & Ha & Ha' & Hd & Ho & Hne).
    apply among_true in Hin. rewrite Hs. cbn [ensure mbind result_bind hashable is_str]. rewrite Hin.
    cbn [ensure mbind result_bind].
    rewrite !(proj2 (same_item_str _ _ _ _ _ Hr)), !(proj2 (same_item_str _ _ _ _ _ Hm)),
      !(proj2 (same_item_str _ _ _ _ _ Ha)), Hr, Hm, Ha by done. cbn [is_str]. rewrite Hd, Ho.
    by rewrite (proj2 (eqb_false adapter "")).
Qed.

Lemma workload_evidence_ok kind action payload evidence :
  lookup_key workload_actions kind = Some action →
  workload_evidence kind payload evidence = Ok () ↔ acted kind action payload evidence.
Proof.
  intros Hk. unfold workload_evidence, acted, value_check. rewrite Hk. cbn [default]. split.
  - intros H. inv_run_all. bool_facts. str_facts. bool_facts. split; [done|].
    do 2 eexists. split_and!; try done. intros ->.
    match goal with H : eqb _ _ && _ = false |- _ => rewrite eqb_refl, andb_true_l in H end.
    bool_facts. by str_facts.
  - intros (-> & status & digest & Hs & Hne & Ha & Hw & Hr & He & Hd & Hv).
    rewrite Hs, Ha, Hw, Hr, He. cbn [ensure mbind result_bind is_str].
    rewrite (proj2 (eqb_false status "")), (proj2 (py_eqb_eq _ _) eq_refl), Hd by done.
    cbn [ensure mbind result_bind negb andb]. destruct (eqb kind "workload.verify") eqn:Hkind; [|done].
    bool_facts. by rewrite (proj2 (same_item_str _ _ _ _ _ He) (Hv Hkind)).
Qed.

Lemma package_evidence_ok kind payload evidence :
  package_evidence kind payload evidence = Ok () ↔ packaged kind payload evidence.
Proof.
  unfold package_evidence, packaged, value_check. split.
  - intros H. inv_run_all. bool_facts. str_facts. bool_facts.
    match goal with H : match field evidence "generation" with _ => _ end = true |- _ => rename H into Hg end.
    unfold same_item in *.
    repeat match goal with H : field payload ?k = JStr _, H' : py_eqb _ (field payload ?k) = true |- _ =>
      rewrite H in H'; apply py_eqb_str in H' end.
    split; [done|]. do 4 eexists. split_and!; try done. destruct (field evidence "generation"); eauto; done.
  - intros (-> & deployment & release & status & digest & Ho & Hd & Hd' & Hr & Hr' & Hs & Hin & Hg & He & Hrd & Hdd).
    apply among_true in Hin.
    rewrite (proj2 (same_item_str _ _ _ _ _ Hd) Hd'), (proj2 (same_item_str _ _ _ _ _ Hr) Hr'), Ho, Hs, He, Hd', Hr'.
    cbn [ensure mbind result_bind is_str]. rewrite (proj2 (py_eqb_eq _ _) eq_refl), Hin, Hrd, Hdd.
    destruct Hg as [-> | [x ->]]; done.
Qed.

Lemma probe_evidence_ok payload evidence : probe_evidence payload evidence = Ok () ↔ gate_is_clear payload evidence.
Proof.
  unfold probe_evidence, gate_is_clear, value_check. split.
  - intros H. inv_run_all. bool_facts. str_facts. split_and!; [done..|].
    match goal with H : field evidence "vonk_forge" = _, H' : item_of _ _ = _ |- _ => rewrite H in H' end.
    do 3 eexists. split_and!; done.
  - intros (-> & -> & health & accelerator & nvidia & Hh & Hv & Ha & Hp & Hn).
    rewrite Hh, Hn. cbn [is_object item_of ensure mbind result_bind]. rewrite Hv, Ha. cbn [is_object]. by rewrite Hp.
Qed.

Lemma evidence_check_ok kind payload evidence :
  (if eqb kind "release.install" then release_evidence payload evidence
   else if is_Some_b (lookup_key workload_actions kind) then workload_evidence kind payload evidence
   else if among kind package_actions then package_evidence kind payload evidence
   else if eqb kind "node.probe" then probe_evidence payload evidence
   else raise EValue "accepted agent result operation is invalid") = Ok () ↔ evidence_for kind payload evidence.
Proof.
  unfold evidence_for. destruct (eqb kind "release.install") eqn:E1; bool_facts.
  { subst kind. rewrite release_evidence_ok. split; [by left|]. intros [[_ ?]|[(? & [=] & _)|[[Hin _]|[[=] _]]]]; [done|].
    by apply among_true in Hin. }
  destruct (lookup_key workload_actions kind) as [action|] eqn:E2; cbn [is_Some_b is_None_b negb].
  { rewrite (workload_evidence_ok _ _ _ _ E2). split; [by eauto 6|].
    intros [[? _]|[(? & [= <-] & ?)|[[Hin _]|[-> _]]]]; [done|done| |done]. exfalso.
    unfold package_actions in Hin. repeat (apply elem_of_cons in Hin as [->|Hin]; [discriminate E2|]).
    by apply elem_of_nil in Hin. }
  destruct (among kind package_actions) eqn:E3.
  { bool_facts. rewrite package_evidence_ok. split; [by eauto|].
    intros [[? _]|[(? & [=] & _)|[[_ ?]|[-> _]]]]; [done|done|]. by apply among_true in E3. }
  assert (kind ∉ package_actions) by (intros Hin%among_true; congruence).
  destruct (eqb kind "node.probe") eqn:E4; bool_facts.
  - subst kind. rewrite probe_evidence_ok. split; [by eauto|]. intros [[? _]|[(? & [=] & _)|[[? _]|[_ ?]]]]; done.
  - split; [done|]. intros [[? _]|[(? & [=] & _)|[[? _]|[? _]]]]; done.
Qed.

Lemma accepted_digests_iff kind payload value result_digest evidence_digest :
  accepted_result_digests kind payload value = Ok (result_digest, evidence_digest) ↔
  ∃ items evidence, value = JObj items ∧ same_keys items ["status"; "evidence"] = true
    ∧ field items "status" = JStr "ok" ∧ field items "evidence" = JObj evidence
    ∧ evidence_for kind payload evidence
    ∧ result_digest = utf8_digest value ∧ evidence_digest = utf8_digest (JObj evidence).
Proof.
  unfold accepted_result_digests, value_check. split.
  - destruct value as [| | | | |items]; try done. intros H. inv_run_all. bool_facts. str_facts.
    destruct (field items "evidence") as [| | | | |evidence] eqn:He; try done. inv_run_all. simplify_eq.
    exists items, evidence. split_and!; try done. apply evidence_check_ok. match goal with u : unit |- _ => by destruct u end.
  - intros (items & evidence & -> & -> & Hs & -> & Hev%evidence_check_ok & -> & ->). rewrite Hs. cbn [ensure mbind result_bind].
    rewrite (proj2 (py_eqb_eq _ _) eq_refl). cbn [ensure mbind result_bind]. by rewrite Hev.
Qed.

(** What a request is about: the fields of its payload that its evidence has to repeat. *)
Definition subject (kind : string) : list string :=
  if eqb kind "release.install" then ["target_digest"; "oci_manifest_digest"; "adapter_id"]
  else if eqb kind "workload.verify" then ["workload_id"; "release_digest"; "expected_digest"]
  else if String.prefix "workload." kind then ["workload_id"; "release_digest"]
  else if String.prefix "package." kind then ["deployment_id"; "release_digest"]
  else [].

Lemma same_keys_differ {A} (l : list (string * A)) k k' x :
  same_keys l k = true → same_keys l k' = true → among x k = true → among x k' = false → False.
Proof.
  rewrite !same_keys_spec. intros Hk Hk' Hx%among_true Hx'. apply not_true_iff_false in Hx'. apply Hx'.
  by apply among_true, Hk', Hk.
Qed.

Lemma same_item_both evidence payload payload' key payload_key :
  same_item evidence payload key payload_key = true → same_item evidence payload' key payload_key = true →
  py_eqb (field payload payload_key) (field payload' payload_key) = true.
Proof. unfold same_item. rewrite !py_eqb_eq. congruence. Qed.

Lemma same_fields (payload payload' : list (string * json)) key v :
  field payload key = v → field payload' key = v → py_eqb (field payload key) (field payload' key) = true.
Proof. intros -> ->. by apply py_eqb_eq. Qed.

Lemma action_kind kind kind' action :
  lookup_key workload_actions kind = Some action → lookup_key workload_actions kind' = Some action → kind = kind'.
Proof.
  rewrite !lookup_key_Some by (apply distinct_true; reflexivity). unfold workload_actions. rewrite !elem_of_cons, !elem_of_nil.
  intros [[=]|[[=]|[[=]|[[=]|[[=]|[]]]]]] [[=]|[[=]|[[=]|[[=]|[[=]|[]]]]]]; congruence.
Qed.

Lemma package_status kind payload evidence :
  evidence_for kind payload evidence → String.prefix "package." kind = true →
  ∃ status, field evidence "status" = JStr status ∧ status ≠ "failed" ∧ (kind = "package.activate" → status = "active").
Proof.
  intros [[-> _]|[(a & Ha & _)|[[Hkind (_ & deployment & release & status & digest & H)]|[-> _]]]] Hpre; [done| | |done].
  - apply lookup_key_Some in Ha; [|apply distinct_true; reflexivity]. unfold workload_actions in Ha. rewrite !elem_of_cons, elem_of_nil in Ha.
    by destruct Ha as [[=]|[[=]|[[=]|[[=]|[[=]|[]]]]]]; subst.
  - destruct H as (_ & _ & _ & _ & _ & Hst & Hin & _). exists status. split; [done|].
    unfold package_actions in Hkind. rewrite !elem_of_cons, elem_of_nil in Hkind.
    destruct Hkind as [->|[->|[->|[->|[->|[->|[->|[]]]]]]]]; 
      (match type of Hin with _ ∈ ?l => let l' := eval vm_compute in l in change l with l' in Hin end);
      rewrite !elem_of_cons, ?elem_of_nil in Hin; (split; [intros ->; naive_solver|]); naive_solver.
Qed.

Ltac join_fields :=
  repeat match goal with
  | H : field ?e ?k = JStr _, H' : field ?e ?k = JStr _ |- _ => rewrite H in H'; injection H' as ?
  end; subst.
Ltac each_field :=
  rewrite <- Forall_forall;
  match goal with |- Forall _ ?l => let l' := eval vm_compute in l in change l with l' end; repeat constructor.

(** Evidence for two requests is for one kind of operation and one subject. *)
Lemma evidence_for_one kind payload kind' payload' evidence :
  evidence_for kind payload evidence → evidence_for kind' payload' evidence →
  kind' = kind ∧ (∀ key, key ∈ subject kind → py_eqb (field payload key) (field payload' key) = true)
  ∧ (kind = "node.probe" → py_eqb (JObj payload) (JObj payload') = true).
Proof.
  intros [[-> [Hk H]]|[(a & Ha & Hk & H)|[[Hkind [Hk H]]|[-> (Hp & Hk & H)]]]] [[-> [Hk' H']]|[(a' & Ha' & Hk' & H')|[[Hkind' [Hk' H']]|[-> (Hp' & Hk' & H')]]]];
    try (exfalso; first [by apply (same_keys_differ _ _ _ "adapter_id" Hk Hk')|by apply (same_keys_differ _ _ _ "adapter_id" Hk' Hk)
      |by apply (same_keys_differ _ _ _ "workload_id" Hk Hk')|by apply (same_keys_differ _ _ _ "workload_id" Hk' Hk)
      |by apply (same_keys_differ _ _ _ "nvidia" Hk Hk')|by apply (same_keys_differ _ _ _ "nvidia" Hk' Hk)]).
  - destruct H as (status & release & manifest & adapter & _ & _ & Hr & Hr1 & Hm & Hm1 & Ha & Ha1 & _).
    destruct H' as (status' & release' & manifest' & adapter' & _ & _ & Hr' & Hr2 & Hm' & Hm2 & Ha' & Ha2 & _).
    split; [done|]. split; [|done]. join_fields. each_field; by eapply same_fields.
  - destruct H as (status & digest & _ & _ & Hact & Hw & Hr & He & _ & Hv).
    destruct H' as (status' & digest' & _ & _ & Hact' & Hw' & Hr' & He' & _ & Hv'). join_fields.
    pose proof (action_kind _ _ _ Ha Ha') as ->. split; [done|].
    pose proof (same_item_both _ _ _ _ _ Hw Hw') as Ew. pose proof (same_item_both _ _ _ _ _ Hr Hr') as Er.
    apply lookup_key_Some in Ha; [|apply distinct_true; reflexivity]. unfold workload_actions in Ha. rewrite !elem_of_cons, elem_of_nil in Ha.
    split; [|by destruct Ha as [[=]|[[=]|[[=]|[[=]|[[=]|[]]]]]]; subst].
    destruct Ha as [[=]|[[=]|[[=]|[[=]|[[=]|[]]]]]]; subst; each_field; try done. eapply same_fields; auto.
  - destruct H as (deployment & release & status & digest & Ho & Hd & Hd1 & Hr & Hr1 & _).
    destruct H' as (deployment' & release' & status' & digest' & Ho' & Hd' & Hd2 & Hr' & Hr2 & _).
    assert (subject kind = ["deployment_id"; "release_digest"] ∧ kind ≠ "node.probe") as [-> Hne].
    { unfold package_actions in Hkind. rewrite !elem_of_cons, elem_of_nil in Hkind. by destruct Hkind as [->|[->|[->|[->|[->|[->|[->|[]]]]]]]]. }
    join_fields. split_and!; [done| |done]. rewrite <- Forall_forall. repeat constructor; by eapply same_fields.
  - split; [done|]. split; [each_field|]. intros _. apply py_eqb_eq in Hp, Hp'. apply py_eqb_eq. congruence.
Qed.

(** C14. Evidence speaks for one request: when a result is accepted for two requests, they
    have the same kind of operation and the same subject (the release, manifest and adapter
    that were to be installed, the workload and release and for a verification the expected
    digest, the deployment and release of a package, the gate that was asked about), and the
    same digests are recorded. So a result of another node's release, deployment or workload
    is refused. An activation is accepted only with the status [active], and no package
    operation with the status [failed]. *)
Theorem accepted_evidence_speaks_for_one_request kind payload kind' payload' value d d' :
  accepted_result_digests kind payload value = Ok d → accepted_result_digests kind' payload' value = Ok d' →
  kind' = kind ∧ d' = d
  ∧ (∀ key, key ∈ subject kind → py_eqb (field payload key) (field payload' key) = true)
  ∧ (kind = "node.probe" → py_eqb (JObj payload) (JObj payload') = true)
  ∧ (String.prefix "package." kind = true → ∃ items evidence status, value = JObj items ∧ field items "evidence" = JObj evidence
       ∧ field evidence "status" = JStr status ∧ status ≠ "failed" ∧ (kind = "package.activate" → status = "active")).
Proof.
  destruct d as [rd ed], d' as [rd' ed']. rewrite !accepted_digests_iff.
  intros (items & evidence & -> & _ & _ & He & Hev & -> & ->) (items' & evidence' & [= <-] & _ & _ & He' & Hev' & -> & ->).
  rewrite He in He'. injection He' as <-. destruct (evidence_for_one _ _ _ _ _ Hev Hev') as (-> & Hs & Hp). split_and!; [done..|].
  intros Hpre. destruct (package_status _ _ _ Hev Hpre) as (status & Hst & Hok). by exists items, evidence, status.
Qed.

(** The evidence of an activation, for two requests that differ in what is not checked. *)
Definition sample_release_digest : string := Eval vm_compute in Sha256.hexdigest "release".
Definition activation_payload (note : string) : list (string * json) :=
  [("deployment_id", JStr "chat"); ("release_digest", JStr sample_release_digest); ("note", JStr note)].
Definition activation_result : json :=
  JObj [("status", JStr "ok");
        ("evidence", JObj [("operation", JStr "package.activate"); ("deployment_id", JStr "chat");
                           ("release_digest", JStr sample_release_digest); ("generation", JStr "gen-1"); ("status", JStr "active");
                           ("evidence_digest", JStr sample_release_digest)])].
Definition activation_digests : string * string := (utf8_digest activation_result, utf8_digest (item_of activation_result "evidence")).

Lemma accepted_evidence_speaks_for_one_request_witness :
  py_eqb (field (activation_payload "a") "deployment_id") (field (activation_payload "b") "deployment_id") = true
  ∧ py_eqb (field (activation_payload "a") "release_digest") (field (activation_payload "b") "release_digest") = true.
Proof.
  destruct (accepted_evidence_speaks_for_one_request "package.activate" (activation_payload "a") "package.activate" (activation_payload "b")
    activation_result activation_digests activation_digests) as (_ & _ & Hs & _); [vm_compute; reflexivity..|].
  split; apply Hs; apply among_true; reflexivity.
Defined.

(** C10. Executing an authenticated graph wave by wave terminates with every
    operation accepted, after at most as many waves as it has operations: the
    graph cannot stall. Every wave holds exactly the operations that have not
    started and whose dependencies were all accepted. *)
Theorem waves_complete_the_graph id r g document :
  validated_plan id r = Ok (g, document) →
  (∀ n, n ∈ graph_nodes g →
     is_accepted (accept_waves (length (graph_nodes g)) (graph_nodes g) ∅) (op_id n))
  ∧ ∀ st x, x ∈ ready_operation_ids (graph_nodes g) st ↔
      ∃ n, n ∈ graph_nodes g ∧ op_id n = x ∧ unstarted st x ∧ Forall (is_accepted st) (op_dependencies n).
Proof.
  intros Hv%validated_executable. split; [|intros; apply wave_elem].
  apply accept_waves_complete; [apply Hv|by intros id' x; rewrite lookup_empty|apply filter_length].
Qed.

(** ** Which agents may be targets *)

Lemma subset_true l k : subset l k = true ↔ l ⊆ k.
Proof.
  unfold subset. rewrite forallb_forall. split; intros H x Hx.
  - apply among_true, H. by apply list_elem_of_In.
  - apply among_true, H. by apply list_elem_of_In.
Qed.

(** The capabilities the queue accepts and the reconciliation service does not know. *)
Definition unknown_capabilities : list string :=
  "agent.runtime.rust.v1" :: package_capabilities ++ recipe_capabilities.

Lemma capabilities_split c : c ∈ next_capabilities ↔ c ∈ next_agent_capabilities ∨ c ∈ unknown_capabilities.
Proof.
  change unknown_capabilities with (["agent.runtime.rust.v1"] ++ package_capabilities ++ recipe_capabilities).
  change next_capabilities with (required_agent_capabilities ++ ["agent.rollback"; "agent.update"]
    ++ ["agent.runtime.rust.v1"] ++ package_capabilities ++ recipe_capabilities).
  unfold next_agent_capabilities. rewrite !elem_of_app. tauto.
Qed.

Lemma capabilities_disjoint c : c ∈ unknown_capabilities → ¬ c ∈ next_agent_capabilities.
Proof.
  assert (forallb (λ c, negb (among c next_agent_capabilities)) unknown_capabilities = true) as H by reflexivity.
  rewrite forallb_forall in H. intros Hc%list_elem_of_In%H Hn%among_true. by rewrite Hn in Hc.
Qed.

Lemma incompatible_target low high n :
  node_incompatible low high n = false →
  target_incompatible low high n = true ↔ ∃ c, c ∈ node_capabilities n ∧ c ∈ unknown_capabilities.
Proof.
  unfold node_incompatible, target_incompatible. rewrite !orb_false_iff. intros [[[-> ->] ->] Hsub].
  apply negb_false_iff, andb_true_iff in Hsub as [Hreq Hnext]. change required_agent_capabilities with required_capabilities.
  rewrite Hreq. cbn. rewrite negb_true_iff, <- not_true_iff_false, subset_true. apply subset_true in Hnext. split.
  - intros Hn. destruct (decide (Exists (λ c, c ∈ unknown_capabilities) (node_capabilities n))) as [He|He].
    + by apply Exists_exists in He.
    + destruct Hn. intros c Hc. destruct (proj1 (capabilities_split c) (Hnext _ Hc)) as [|Hu]; [done|].
      destruct He. apply Exists_exists. by exists c.
  - intros (c & Hc & Hu) Hall. by eapply capabilities_disjoint, Hall.
Qed.

Lemma target_rows_elem s targets id n : t_nodes s !! id = Some n → id ∈ targets → (id, n) ∈ target_rows s targets.
Proof.
  intros Hn Hid. unfold target_rows. apply list_elem_of_omap. exists id.
  rewrite py_sorted_elem_of, elem_of_remove_dups, Hn. done.
Qed.

(** The check of targets in the reconciliation service is stricter than the one
    of the agent queue exactly on agents that advertise the Rust runtime, a package or
    a recipe capability: the queue accepts them, while the service finds them
    incompatible, so that with an authority configured no reconciliation with such a
    target is ever found to have authority. *)
Theorem rust_targets_are_refused endpoint_resolver authority :
  (∀ low high n, node_incompatible low high n = false →
     target_incompatible low high n = true ↔ ∃ c, c ∈ node_capabilities n ∧ c ∈ unknown_capabilities)
  ∧ ∀ s prefetched cx r id n c,
      authority ≠ NoAuthority → id ∈ cx_targets cx → t_nodes s !! id = Some n →
      c ∈ node_capabilities n → c ∈ unknown_capabilities →
      authority_reason endpoint_resolver authority s prefetched cx r ≠ Ok None.
Proof.
  split; [apply incompatible_target|]. intros s prefetched cx r id n c Ha Hid Hn Hc Hu H.
  assert (target_reason endpoint_resolver s (cx_targets cx) (cx_document cx) = Ok None) as Ht.
  { unfold authority_reason in H. destruct authority; [done|..]; inv_run_all; by case_match; inv_run_all. }
  unfold target_reason in Ht. destruct (item_of _ _) as [| | | |[|[] [|[] []]]|]; try done.
  destruct (negb _); [done|]. destruct (existsb _ _) eqn:He; [done|].
  rewrite <- not_true_iff_false, existsb_exists in He. apply He. exists (id, n).
  split; [apply list_elem_of_In; by apply target_rows_elem|]. unfold target_incompatible. cbn.
  rewrite !orb_true_iff. right. rewrite negb_true_iff, <- not_true_iff_false, andb_true_iff, !subset_true.
  intros [_ Hs]. by eapply capabilities_disjoint, Hs.
Qed.

Definition rust_node : AgentNode :=
  MkNode "active" "rust" "complete" (Some 3%Z) None None None None None None None false None None
    (required_capabilities ++ ["agent.runtime.rust.v1"]) None None.
Definition rust_db : control_db :=
  ControlDb {["node" := rust_node]} ∅ ∅ ∅ ∅ ∅ ∅ ∅ ∅ ∅ ∅ ∅ ∅ [] ∅ ∅ None None.
Definition rust_context : context := Context' "r" "j" (Graph "r" "c" ["node"] [] "") (JObj []).
Definition main_authority : authority_mode := CommitAuthority (λ _, mret true) (mret "c").
Definition any_endpoint (_ : control_db) (_ : string) : result (string * Z) := mret ("10.0.0.1", 0%Z).
Definition any_plan : Reconciliation := Row "c" "running" JNull JNull "" None None "dispatching" 0 None None 0.

Lemma rust_targets_are_refused_witness :
  node_incompatible 1 3 rust_node = false ∧ target_incompatible 1 3 rust_node = true
  ∧ commit_reason any_endpoint main_authority rust_db None "r" any_plan (JObj []) = Ok None
  ∧ authority_reason any_endpoint main_authority rust_db None rust_context any_plan ≠ Ok None.
Proof.
  assert ("agent.runtime.rust.v1" ∈ node_capabilities rust_node) as Hc by (apply among_true; reflexivity).
  assert ("agent.runtime.rust.v1" ∈ unknown_capabilities) as Hu by left.
  destruct (rust_targets_are_refused any_endpoint main_authority) as [Hstrict Hno].
  split; [reflexivity|]. split; [|split; [reflexivity|]].
  - apply (Hstrict 1%Z 3%Z rust_node); [reflexivity|]. exists "agent.runtime.rust.v1". split; [exact Hc|exact Hu].
  - apply (Hno rust_db None rust_context any_plan "node" rust_node "agent.runtime.rust.v1");
      [discriminate|left|reflexivity|exact Hc|exact Hu].
Defined.
