(* ===== verification/ReconciliationQuiet.v ===== *)
(** * The reconciliation service as a client of the agent queue

    The service writes to the tables of the queue: it enqueues operations, stops
    those that have not started, and ends attempts that run. It never starts one.
    That is what the queue asks of the consumer of its results
    ([AgentJobsFacts.quiet]), so the guarantees of the queue hold while
    reconciliations are carried out. *)

From S2P Require Import Prelude Identifiers Canonical Contracts PackageEngine Protocol.
From S2P Require Import OperationGraph Orchestration NodeLeases Jobs AgentTables AgentJobs AgentJobsFacts.
From S2P Require Import Routes AgentReconciliation.

#[export] Hint Resolve settles_quiet : py.

(** ** Writes that leave operations and attempts alone *)

Lemma on_leases_settles {A} (m : M session A) : moves settles (on_leases m).
Proof. apply moves_zoom. intros l s _. by apply settles_frame. Qed.

Lemma on_reconciliations_settles {A} (m : M tables A) : moves settles (on_reconciliations m).
Proof. apply moves_zoom. intros l s _. by apply settles_frame. Qed.

Lemma alter_reconciliation_settles id f : moves settles (alter_reconciliation id f).
Proof. quiet_write. Qed.
Lemma alter_job_settles id f : moves settles (alter_job id f).
Proof. quiet_write. Qed.
Lemma alter_projection_settles id f : moves settles (alter_projection id f).
Proof. quiet_write. Qed.
Lemma alter_cancellation_settles id f : moves settles (alter_cancellation id f).
Proof. quiet_write. Qed.
Lemma put_cancellation_settles id c : moves settles (put_cancellation id c).
Proof. quiet_write. Qed.
Lemma put_publication_settles id p : moves settles (put_publication id p).
Proof. quiet_write. Qed.
Lemma put_owner_settles o : moves settles (put_owner o).
Proof. quiet_write. Qed.

#[export] Hint Resolve on_leases_settles on_reconciliations_settles alter_reconciliation_settles
  alter_job_settles alter_projection_settles alter_cancellation_settles put_cancellation_settles
  put_publication_settles put_owner_settles : py.

Lemma reconciliation_row_settles id : moves settles (reconciliation_row id).
Proof. unfold reconciliation_row. solve_moves. Qed.
Lemma publication_row_settles id : moves settles (publication_row id).
Proof. unfold publication_row. solve_moves. Qed.
Lemma insert_projection_settles key p : moves settles (insert_projection key p).
Proof. unfold insert_projection. solve_moves. Qed.
#[export] Hint Resolve reconciliation_row_settles publication_row_settles insert_projection_settles : py.

Lemma locked_context_settles id job : moves settles (locked_context id job).
Proof. unfold locked_context. solve_moves. Qed.

Lemma catch_conflict_settles {A} (m h : M control_db A) :
  moves settles m → moves settles h → moves settles (catch_conflict m h).
Proof. intros Hm Hh. unfold catch_conflict. solve_moves. Qed.
#[export] Hint Resolve locked_context_settles : py.

Ltac solve_settles :=
  repeat (first [ solve [auto 3 with py nocore] | apply catch_conflict_settles | moves_step ]).

Section programs.
Context (i : inputs) (cx : context).

Lemma owned_grant_settles : moves settles (owned_grant cx).
Proof. unfold owned_grant. solve_settles. Qed.
Lemma acquire_targets_settles : moves settles (acquire_targets i cx).
Proof. unfold acquire_targets. solve_settles. Qed.
#[local] Hint Resolve owned_grant_settles acquire_targets_settles : py.

Lemma take_over_settles : moves settles (take_over i cx).
Proof. unfold take_over. solve_settles. Qed.
#[local] Hint Resolve take_over_settles : py.

Lemma ensure_node_lease_settles : moves settles (ensure_node_lease i cx).
Proof. unfold ensure_node_lease. solve_settles. Qed.
Lemma release_pending_settles : moves settles (release_pending_node_lease cx).
Proof. unfold release_pending_node_lease. solve_settles. Qed.
Lemma mark_releasing_settles : moves settles (mark_node_lease_releasing i cx).
Proof. unfold mark_node_lease_releasing. solve_settles. Qed.
End programs.
#[export] Hint Resolve ensure_node_lease_settles release_pending_settles mark_releasing_settles : py.

(** ** Stopping operations *)

Lemma moves_at_then {A B} s (m : M control_db A) (f : A → M control_db B) :
  moves_at settles s m → (∀ a, moves settles (f a)) → moves_at settles s (m ≫= f).
Proof. intros Hm Hf. apply moves_at_bind; [exact _|done|intros a s1 _; by apply moves_at_moves]. Qed.

Lemma terminal_state b : (if b : bool then "waiting-for-operator" else "failed") ≠ "running".
Proof. by destruct b. Qed.

Lemma quiesce_row_settles g now key : moves settles (quiesce_row g now key).
Proof.
  unfold quiesce_row. apply moves_get_at. intros s.
  destruct (t_projections s !! key) as [p|]; [|apply moves_at_moves; solve_moves].
  destruct (eqb (ro_state p) "planned"); [apply moves_at_moves; solve_moves|].
  destruct (if eqb (ro_state p) "queued" then ro_agent_operation_id p else None) as [id|];
    [|apply moves_at_moves; solve_moves].
  destruct (t_operations s !! id) as [o|] eqn:Ho; [|apply moves_at_moves; solve_moves].
  at_read. destruct (eqb (so_state o) "queued").
  { apply moves_at_then; [by apply put_state_settles|intros; solve_moves]. }
  destruct (negb _); [apply moves_at_moves; solve_moves|].
  destruct (attempt_of s id _) as [[fence a']|] eqn:Ha; [|apply moves_at_moves; solve_moves].
  apply attempt_of_Some in Ha as (Ha & _ & _). at_read. cbv zeta.
  apply moves_at_bind; [exact _|apply put_attempt_state_settles; [done|apply terminal_state]|intros ? s1 [= _ <-]].
  apply moves_at_bind; [exact _|apply moves_at_moves; solve_moves|intros ? s2 [= _ <-]].
  apply moves_at_then; [apply put_state_settles; [done|by intros ?%terminal_state]|intros; solve_moves].
Qed.

Lemma quiesce_pending_settles g now keys : moves settles (quiesce_pending g now keys).
Proof.
  induction keys as [|key keys IH]; cbn; [solve_moves|].
  apply moves_bind; [exact _|apply quiesce_row_settles|intros u]. solve_moves.
Qed.

Lemma quiesce_role_settles i cx role : moves settles (quiesce_role i cx role).
Proof. unfold quiesce_role. apply moves_bind; [exact _|solve_moves|intros s]. apply quiesce_pending_settles. Qed.

Lemma sweep_row_settles now key : moves settles (sweep_row now key).
Proof.
  unfold sweep_row. apply moves_get_at. intros s.
  destruct (t_projections s !! key) as [p|]; [|apply moves_at_moves; solve_moves].
  destruct (if eqb (ro_state p) "queued" then ro_agent_operation_id p else None) as [id|];
    [|apply moves_at_moves; solve_moves].
  destruct (t_operations s !! id) as [o|] eqn:Ho; [|apply moves_at_moves; solve_moves].
  destruct (negb _); [apply moves_at_moves; solve_moves|].
  destruct (attempt_of s id _) as [[fence a]|] eqn:Ha; [|apply moves_at_moves; solve_moves].
  apply attempt_of_Some in Ha as (Ha & _ & _).
  destruct (negb _); [apply moves_at_moves; solve_moves|].
  apply moves_at_bind; [exact _|by apply put_attempt_state_settles|intros ? s1 [= _ <-]].
  apply moves_at_then; [by apply put_held_settles|intros; solve_moves].
Qed.

Lemma sweep_rows_settles now keys : moves settles (sweep_rows now keys).
Proof.
  induction keys as [|key keys IH]; cbn; [solve_moves|].
  apply moves_bind; [exact _|apply sweep_row_settles|intros u]. solve_moves.
Qed.

#[export] Hint Resolve quiesce_pending_settles quiesce_role_settles sweep_rows_settles : py.

Section service.
Context (redact_text : string → string) (publisher : option Publisher).
Context (endpoint_resolver : control_db → string → result (string * Z)).
Context (authority : authority_mode).
Context {prepared : Type} (update_authorizer : option (UpdateAuthorizer prepared)).
Context (publication_lease_seconds : Z).
Context (i : inputs).

Lemma wait_for_operator_settles cx reason : moves settles (wait_for_operator redact_text i cx reason).
Proof. unfold wait_for_operator. solve_moves. Qed.
Lemma finish_failed_settles cx : moves settles (finish_failed i cx).
Proof. unfold finish_failed. solve_moves. Qed.
#[local] Hint Resolve wait_for_operator_settles finish_failed_settles : py.

Lemma quiesce_unavailable_settles cx reason :
  moves settles (quiesce_for_unavailable_target redact_text i cx reason).
Proof. unfold quiesce_for_unavailable_target. solve_moves. Qed.
Lemma sweep_expired_settles cx : moves settles (sweep_expired_mutations redact_text i cx).
Proof. unfold sweep_expired_mutations. solve_moves. Qed.
Lemma quiesce_and_wait_settles cx reason : moves settles (quiesce_and_wait redact_text i cx reason).
Proof. unfold quiesce_and_wait. solve_moves. Qed.
Lemma primary_failure_settles cx n reason : moves settles (handle_primary_failure redact_text i cx n reason).
Proof. unfold handle_primary_failure. solve_moves. Qed.
#[local] Hint Resolve quiesce_unavailable_settles sweep_expired_settles quiesce_and_wait_settles primary_failure_settles : py.

Lemma apply_result_settles cx key p n kind payload m :
  moves settles (apply_result redact_text i cx key p n kind payload m).
Proof. unfold apply_result. solve_moves. Qed.
#[local] Hint Resolve apply_result_settles : py.

(** ** The consumer of results *)

Lemma consume_result_settles prefetched operation_id fence m :
  moves settles (consume_result redact_text endpoint_resolver authority i prefetched operation_id fence m).
Proof.
  unfold consume_result. apply moves_get_at. intros s.
  destruct (projection_of s operation_id) as [[key p]|]; [|apply moves_at_moves; solve_moves].
  assert (reads (reconciliation_row (ro_reconciliation_id p))) as Hread
    by (apply reads_moves; unfold reconciliation_row; solve_moves).
  apply moves_at_read; [exact _|exact Hread|intros r _].
  destruct (t_operations s !! operation_id) as [o|] eqn:Ho; [|apply moves_at_moves; solve_moves].
  destruct (t_attempts s !! fence) as [a|] eqn:Ha; [|apply moves_at_moves; solve_moves].
  destruct (t_jobs s !! so_parent_job_id o) as [j|]; [|apply moves_at_moves; solve_moves].
  at_read. apply moves_at_read; [exact _|apply reads_lift|intros [g document] _].
  at_read. apply moves_at_read; [exact _|apply reads_lift|intros [kind payload] _].
  at_read. at_read. at_read. case_match; [|apply moves_at_moves; solve_moves]. cbv zeta.
  apply moves_at_bind; [exact _|apply put_attempt_state_settles; [done|apply terminal_state]|intros ? s1 [= _ <-]].
  apply moves_at_then; [apply put_state_settles; [done|by intros ?%terminal_state]|intros; solve_moves].
Qed.

(** ** Dispatching *)

Lemma insert_operation_quiet id o :
  so_current_attempt o = 0%Z → ¬ is_running o → retry_requested o = false → moves quiet (insert_operation id o).
Proof.
  intros Hz Hr Ht. apply moves_get_bind. intros s. unfold mbind, M_bind, lift, ensure.
  destruct (is_None_b _) eqn:Hn; [|cbn; reflexivity]. bool_facts. by apply quiet_insert_operation.
Qed.
#[local] Hint Resolve insert_operation_quiet : py.

Lemma enqueue_in_session_quiet job node kind commit payload id fence handle now :
  moves quiet (enqueue_in_session update_authorizer job node kind commit payload id fence handle now).
Proof.
  unfold enqueue_in_session. repeat first [apply insert_operation_quiet; done | progress solve_moves].
Qed.

Lemma enqueue_node_quiet cx r n kind payload : moves quiet (enqueue_node update_authorizer i cx r n kind payload).
Proof.
  unfold enqueue_node. apply moves_bind; [exact _|apply enqueue_in_session_quiet|intros ?]. solve_moves.
Qed.
#[local] Hint Resolve enqueue_node_quiet : py.

Lemma dispatch_primary_quiet cx : moves quiet (dispatch_primary update_authorizer i cx).
Proof. unfold dispatch_primary, dispatch_node. solve_moves. Qed.

Lemma compensate_next_quiet cx existing ordered :
  moves quiet (compensate_next redact_text update_authorizer i cx existing ordered).
Proof. induction ordered as [|id ordered IH]; cbn; unfold compensate_node; solve_moves. Qed.

Lemma dispatch_compensation_quiet cx : moves quiet (dispatch_compensation redact_text update_authorizer i cx).
Proof.
  unfold dispatch_compensation. apply moves_bind; [exact _|solve_moves|intros s]. apply compensate_next_quiet.
Qed.
#[local] Hint Resolve dispatch_primary_quiet dispatch_compensation_quiet : py.

(** ** Cancellations *)

Lemma publication_owner_settles : moves settles publication_owner.
Proof. unfold publication_owner. solve_moves. Qed.
#[local] Hint Resolve publication_owner_settles : py.

Lemma owns_publication_settles id may : moves settles (owns_publication id may).
Proof. unfold owns_publication. solve_moves. Qed.
Lemma transfer_owner_settles id : moves settles (transfer_publication_owner i id).
Proof. unfold transfer_publication_owner. solve_moves. Qed.
Lemma store_marker_settles id m state : moves settles (store_marker id m state).
Proof. unfold store_marker. solve_moves. Qed.
Lemma withdraw_marker_settles cx reason : moves settles (withdraw_marker publisher cx reason).
Proof. unfold withdraw_marker. solve_moves. Qed.
#[local] Hint Resolve owns_publication_settles transfer_owner_settles store_marker_settles
  withdraw_marker_settles : py.

Lemma withdraw_routes_settles cx reason : moves settles (withdraw_routes publisher cx reason).
Proof. unfold withdraw_routes. solve_moves. Qed.
Lemma quiesce_both_settles cx : moves settles (quiesce_both i cx).
Proof. unfold quiesce_both. solve_moves. Qed.
#[local] Hint Resolve withdraw_routes_settles quiesce_both_settles : py.

Lemma apply_cancellation_settles cx c : moves settles (apply_cancellation redact_text i cx c).
Proof.
  unfold apply_cancellation, cancel_historical, cancel_owner, cancelled_job, set_cancellation. solve_moves.
Qed.
#[local] Hint Resolve apply_cancellation_settles : py.

Lemma advance_cancellation_settles cx c : moves settles (advance_cancellation redact_text publisher i cx c).
Proof. unfold advance_cancellation, handoff_elsewhere. solve_moves. Qed.
#[local] Hint Resolve advance_cancellation_settles : py.

(** ** Ticks *)

Lemma cancellation_step_settles cx phase c : moves settles (cancellation_step redact_text publisher i cx phase c).
Proof. unfold cancellation_step. solve_moves. Qed.
Lemma lease_missing_settles cx phase : moves settles (lease_missing i cx phase).
Proof. unfold lease_missing. solve_moves. Qed.
Lemma hand_over_settles cx : moves settles (hand_over publisher i cx).
Proof. unfold hand_over. solve_moves. Qed.
Lemma lose_authority_settles cx phase reason : moves settles (lose_authority redact_text publisher i cx phase reason).
Proof. unfold lose_authority. solve_moves. Qed.
Lemma begin_withdrawal_settles cx r : moves settles (begin_withdrawal i cx r).
Proof. unfold begin_withdrawal. solve_moves. Qed.
Lemma begin_dispatch_settles cx : moves settles (begin_dispatch i cx).
Proof. unfold begin_dispatch, plan_node. solve_moves. Qed.
Lemma accept_evidence_settles cx p : moves settles (accept_evidence cx p).
Proof. unfold accept_evidence. solve_moves. Qed.
Lemma publish_routes_settles cx r p :
  moves settles (publish_routes publisher endpoint_resolver publication_lease_seconds i cx r p).
Proof. unfold publish_routes, complete_reconciliation. solve_moves. Qed.
Lemma renew_routes_settles cx released : moves settles (renew_routes publisher i cx released).
Proof. unfold renew_routes. solve_moves. Qed.
#[local] Hint Resolve cancellation_step_settles lease_missing_settles hand_over_settles lose_authority_settles
  begin_withdrawal_settles begin_dispatch_settles accept_evidence_settles publish_routes_settles
  renew_routes_settles : py.

Lemma advance_phase_quiet cx r released automatic :
  moves quiet (advance_phase redact_text publisher endpoint_resolver update_authorizer
                 publication_lease_seconds i cx r released automatic).
Proof. unfold advance_phase, dispatch_phase, compensation_phase. solve_moves. Qed.
#[local] Hint Resolve advance_phase_quiet : py.

Lemma tick_candidate_quiet prefetched id automatic :
  moves quiet (tick_candidate redact_text publisher endpoint_resolver authority update_authorizer
                 publication_lease_seconds i prefetched id automatic).
Proof. unfold tick_candidate, execute. solve_moves. Qed.

Lemma attach_job_quiet prefetched id job :
  moves quiet (attach_job endpoint_resolver authority i prefetched id job).
Proof. unfold attach_job. solve_moves. Qed.

Lemma enqueue_cancel_quiet now id reason actor request :
  moves quiet (enqueue_cancel redact_text now id reason actor request).
Proof. unfold enqueue_cancel. solve_moves. Qed.
End service.
#[export] Hint Resolve tick_candidate_quiet attach_job_quiet enqueue_cancel_quiet : py.

(** ** The promise to the queue *)

(** What the queue asks of the service that consumes its results. *)
Class QuietConsumer (consume : string → string → AgentResult → M control_db unit) : Prop :=
  consumer_is_quiet id fence m : moves quiet (consume id fence m).

Section promise.
Context (redact_text : string → string) (publisher : option Publisher).
Context (endpoint_resolver : control_db → string → result (string * Z)).
Context (authority : authority_mode).
Context {prepared : Type} (update_authorizer : option (UpdateAuthorizer prepared)).
Context (publication_lease_seconds : Z).

#[export] Instance reconciliation_consumer i prefetched :
  QuietConsumer (consume_result redact_text endpoint_resolver authority i prefetched).
Proof. intros id fence m. apply settles_quiet, consume_result_settles. Qed.

Lemma tick_one_quiet i id automatic :
  moves quiet (tick_one redact_text publisher endpoint_resolver authority update_authorizer
                 publication_lease_seconds i id automatic).
Proof. unfold tick_one, prepare_authority. solve_moves. Qed.
#[local] Hint Resolve tick_one_quiet : py.

Lemma tick_while_quiet id attempts :
  moves quiet (tick_while redact_text publisher endpoint_resolver authority update_authorizer
                 publication_lease_seconds id attempts).
Proof. induction attempts as [|i attempts IH]; cbn; solve_moves. Qed.
#[local] Hint Resolve tick_while_quiet : py.

(** The reconciliation service never starts an attempt and never brings an
    operation back: whatever ticks, results, attachments and cancellations do to
    the tables of the agent queue, an operation that was not running is not
    running afterwards, operations keep their work and their attempts, new ones
    have not been attempted, and no attempt appears. *)
Theorem reconciliation_starts_nothing :
  (∀ i j now, moves quiet (tick redact_text publisher endpoint_resolver authority update_authorizer
                             publication_lease_seconds i j now))
  ∧ (∀ i id automatic, moves quiet (tick_one redact_text publisher endpoint_resolver authority
                                      update_authorizer publication_lease_seconds i id automatic))
  ∧ (∀ i prefetched, QuietConsumer (consume_result redact_text endpoint_resolver authority i prefetched))
  ∧ (∀ i prefetched id job, moves quiet (attach_job endpoint_resolver authority i prefetched id job))
  ∧ (∀ now i1 i2 i3 id reason request,
       moves quiet (request_cancel redact_text publisher endpoint_resolver authority update_authorizer
                      publication_lease_seconds now i1 i2 i3 id reason request)).
Proof.
  split_and!; intros; [unfold tick| | | |unfold request_cancel]; try solve [solve_moves]. apply _.
Qed.
End promise.
