(* ===== verification/ReconciliationFacts.v ===== *)
(** * What the reconciliation service promises

    The runs of a tick, the invariant that connects the phase of a reconciliation
    with the evidence it has, the order of dispatch and compensation, and who may
    own the published routes. *)

From S2P Require Import Prelude Identifiers Canonical Documents Contracts PackageEngine Protocol.
From S2P Require Import OperationGraph Orchestration OrchestrationFacts NodeLeases Jobs AgentTables AgentJobs AgentJobsFacts.
From S2P Require Import Routes AgentReconciliation Waves ReconciliationQuiet.

(** ** Bookkeeping steps

    [calm]: only leases, the publications and their owner, and the counter of
    completions change. [still]: not even the leases. *)

Record calm (s s' : control_db) : Prop := {
  calm_reconciliations : t_reconciliations s' = t_reconciliations s;
  calm_projections : t_projections s' = t_projections s;
  calm_operations : t_operations s' = t_operations s;
  calm_attempts : t_attempts s' = t_attempts s;
  calm_jobs : t_jobs s' = t_jobs s;
  calm_nodes : t_nodes s' = t_nodes s;
  calm_cancellations : t_cancellations s' = t_cancellations s
}.

#[export] Instance calm_preorder : PreOrder calm.
Proof. split; [by split|]. intros s1 s2 s3 [] []. split; congruence. Qed.

Definition still (s s' : control_db) : Prop := calm s s' ∧ t_leases s' = t_leases s.

#[export] Instance still_preorder : PreOrder still.
Proof. split; [by split|]. intros s1 s2 s3 [? ?] [? ?]. split; [by etrans|congruence]. Qed.

Lemma still_calm {A} (m : M control_db A) : moves still m → moves calm m.
Proof. apply moves_impl. by intros ? ? []. Qed.
#[export] Hint Resolve still_calm : py.

Ltac calm_write := apply moves_modify; intros ?; repeat split.

Lemma on_leases_calm {A} (m : M session A) : moves calm (on_leases m).
Proof. apply moves_zoom. intros l s _. by split. Qed.
Lemma put_publication_still id p : moves still (put_publication id p).
Proof. calm_write. Qed.
Lemma put_owner_still o : moves still (put_owner o).
Proof. calm_write. Qed.
#[export] Hint Resolve on_leases_calm put_publication_still put_owner_still : py.

Lemma reconciliation_row_still id : moves still (reconciliation_row id).
Proof. unfold reconciliation_row. solve_moves. Qed.
Lemma publication_row_still id : moves still (publication_row id).
Proof. unfold publication_row. solve_moves. Qed.
Lemma publication_owner_still : moves still publication_owner.
Proof. unfold publication_owner. solve_moves. Qed.
#[export] Hint Resolve reconciliation_row_still publication_row_still publication_owner_still : py.

Lemma owns_publication_still id may : moves still (owns_publication id may).
Proof. unfold owns_publication. solve_moves. Qed.
Lemma transfer_owner_still i id : moves still (transfer_publication_owner i id).
Proof. unfold transfer_publication_owner. solve_moves. Qed.
Lemma store_marker_still id m state : moves still (store_marker id m state).
Proof. unfold store_marker. solve_moves. Qed.
Lemma withdraw_marker_still publisher cx reason : moves still (withdraw_marker publisher cx reason).
Proof. unfold withdraw_marker. solve_moves. Qed.
Lemma locked_context_still id job : moves still (locked_context id job).
Proof. unfold locked_context. solve_moves. Qed.
Lemma handoff_elsewhere_still owns : moves still (handoff_elsewhere owns).
Proof. unfold handoff_elsewhere. solve_moves. Qed.
#[export] Hint Resolve owns_publication_still transfer_owner_still store_marker_still withdraw_marker_still
  locked_context_still handoff_elsewhere_still : py.

Lemma withdraw_routes_still publisher cx reason : moves still (withdraw_routes publisher cx reason).
Proof. unfold withdraw_routes. solve_moves. Qed.
#[export] Hint Resolve withdraw_routes_still : py.

Lemma catch_conflict_calm {A} (m h : M control_db A) : moves calm m → moves calm h → moves calm (catch_conflict m h).
Proof. intros Hm Hh. unfold catch_conflict. solve_moves. Qed.

Ltac solve_calm :=
  repeat (first [ solve [auto 3 with py nocore] | apply catch_conflict_calm | moves_step ]).

Lemma ensure_node_lease_calm i cx : moves calm (ensure_node_lease i cx).
Proof. unfold ensure_node_lease, take_over, acquire_targets, owned_grant. solve_calm. Qed.
Lemma release_pending_calm cx : moves calm (release_pending_node_lease cx).
Proof. unfold release_pending_node_lease, owned_grant. solve_calm. Qed.
Lemma mark_releasing_calm i cx : moves calm (mark_node_lease_releasing i cx).
Proof. unfold mark_node_lease_releasing, owned_grant. solve_calm. Qed.
#[export] Hint Resolve ensure_node_lease_calm release_pending_calm mark_releasing_calm : py.

Lemma lease_missing_calm i cx phase : moves calm (lease_missing i cx phase).
Proof. unfold lease_missing. solve_moves. Qed.
#[export] Hint Resolve lease_missing_calm : py.

(** A sweep that finds nothing writes nothing. *)
Lemma sweep_row_false now key s s' : sweep_row now key s = (Ok false, s') → s' = s.
Proof.
  unfold sweep_row. intros H. inv_run_all. repeat (case_match; inv_run_all; try done).
Qed.

Lemma sweep_rows_false now keys : ∀ s s', sweep_rows now keys s = (Ok false, s') → s' = s.
Proof.
  induction keys as [|key keys IH]; intros s s' H; cbn in H; inv_run_all; [done|].
  match goal with H : _ || _ = false |- _ => apply orb_false_iff in H as [-> ->] end.
  match goal with H : sweep_row _ _ _ = _ |- _ => apply sweep_row_false in H as -> end. by apply IH.
Qed.

Lemma sweep_false redact_text i cx s s' : sweep_expired_mutations redact_text i cx s = (Ok false, s') → s' = s.
Proof.
  unfold sweep_expired_mutations. intros H. inv_run_all.
  match type of H with (if negb ?b then _ else _) _ = _ => destruct b; cbn [negb] in H; inv_run_all; [done|] end.
  by eapply sweep_rows_false.
Qed.

(** A cancellation that leaves the tick to the phases writes nothing of weight. *)
Lemma advance_cancellation_none redact_text publisher i cx c s s' :
  advance_cancellation redact_text publisher i cx c s = (Ok None, s') → still s s'.
Proof.
  unfold advance_cancellation. intros H. inv_run_all.
  match goal with H : reconciliation_row _ _ = _ |- _ => apply (moves_run _ _ _ _ _ (reconciliation_row_still _)) in H end.
  repeat (case_match; inv_run_all; try done).
Qed.

Lemma cancellation_step_none redact_text publisher i cx phase c s s' :
  cancellation_step redact_text publisher i cx phase c s = (Ok None, s') →
  calm s s' ∧ (phase ≠ "completed" → still s s').
Proof.
  unfold cancellation_step. intros H. inv_run_all.
  match type of H with (if ?b then _ else _) _ = _ => destruct b; inv_run_all; [done|] end.
  match goal with H : (if _ then _ else _) s = (Ok false, ?s1) |- _ =>
    rename s1 into s0; rename H into Hlease end.
  assert (calm s s0 ∧ (phase ≠ "completed" → s0 = s)) as [Hc Hp].
  { split.
    - match type of Hlease with ?m s = _ => assert (moves calm m) as Hm by solve_moves end.
      by apply (moves_run _ _ _ _ _ Hm Hlease).
    - intros Hne. rewrite (proj2 (eqb_false _ _) Hne) in Hlease. cbn [andb] in Hlease. by inv_run_all. }
  match goal with H : match ?o with _ => _ end _ = (Ok None, _) |- _ => destruct o as [b|]; inv_run_all; [done|] end.
  match goal with H : advance_cancellation _ _ _ _ _ _ = _ |- _ =>
    apply advance_cancellation_none in H; rename H into Hs end.
  split; [etrans; [exact Hc|]; by destruct Hs|]. intros Hne. by rewrite <- (Hp Hne).
Qed.

(** ** The runs of a tick *)

(** A context that was read from the tables. *)
Record ctx_ok (s : control_db) (cx : context) (r : Reconciliation) : Prop := {
  ctx_row : t_reconciliations s !! cx_id cx = Some r;
  ctx_plan : validated_plan (cx_id cx) r = Ok (cx_graph cx, cx_document cx);
  ctx_job : ∃ j, t_jobs s !! cx_job cx = Some j ∧ job_reconciliation_id j = Some (cx_id cx)
}.

Lemma reconciliation_row_ok id s r s' :
  reconciliation_row id s = (Ok r, s') → s' = s ∧ t_reconciliations s !! id = Some r.
Proof. unfold reconciliation_row. intros H. inv_run_all. by case_match; inv_run_all; subst. Qed.

Lemma job_of_Some s id job j :
  job_of s id = Some (job, j) → t_jobs s !! job = Some j ∧ job_reconciliation_id j = Some id.
Proof. unfold job_of. intros [? ?]%find_row_Some. by bool_facts. Qed.

Lemma locked_context_ok id s cx s' :
  locked_context id None s = (Ok cx, s') → s' = s ∧ cx_id cx = id ∧ ∃ r, ctx_ok s cx r.
Proof.
  unfold locked_context. intros H. inv_run_all.
  match goal with H : reconciliation_row _ _ = (Ok ?r, _) |- _ =>
    apply reconciliation_row_ok in H as [-> Hr]; rename r into row end.
  match goal with H : (let '(_, _) := ?p in _) _ = _ |- _ => destruct p as [g document] end. inv_run_all.
  destruct (job_of s id) as [[job j]|] eqn:Hj; [|by inv_run_all]. inv_run_all.
  apply job_of_Some in Hj. split_and!; [done..|]. exists row. split; cbn; [done|done|eauto].
Qed.

Lemma ctx_ok_calm s s' cx r : calm s s' → ctx_ok s cx r → ctx_ok s' cx r.
Proof.
  intros Hc [Hr Hp Hj]. split; [by rewrite (calm_reconciliations _ _ Hc)|done|].
  by rewrite (calm_jobs _ _ Hc).
Qed.

(** ** Nodes under lease *)

Definition holds_nodes (s : control_db) (cx : context) : Prop :=
  ∃ fence, held_by (t_leases s) "reconciliation" (cx_id cx) fence "held" (cx_targets cx).

Lemma acquire_targets_ok i cx s g s' : acquire_targets i cx s = (Ok (Some g), s') → holds_nodes s' cx.
Proof.
  unfold acquire_targets, on_leases. intros H. inv_run_all.
  match goal with H : zoom _ _ _ _ = _ |- _ => apply zoom_ok in H as (l & Hl & ->) end.
  apply acquire_cases in Hl as [(e & [=] & _)|(g' & base & _ & _ & _ & _ & _ & _ & _ & Hh & _)].
  by exists (grant_fence g').
Qed.

Lemma owned_grant_ok cx s g s' :
  owned_grant cx s = (Ok (Some g), s') → grant_state g = "held" → holds_nodes s' cx.
Proof.
  unfold owned_grant, on_leases. intros H Hs. apply zoom_ok in H as (l & Hl & ->).
  unfold owned_grant_in_session, lease_conflict in Hl. inv_run_all.
  match goal with H : lease_nodes _ = Ok _ |- _ => apply lease_nodes_ok in H as (-> & _) end.
  destruct (negb _); [by inv_run_all|].
  destruct (one_of (ml_fence ∘ snd <$> _)) as [fence|] eqn:Hf; [|by inv_run_all].
  destruct (one_of (ml_state ∘ snd <$> _)) as [state|] eqn:Ht; [|by inv_run_all].
  case_match eqn:Hc; [|by inv_run_all]. inv_run_all. simplify_eq. bool_facts. cbn in Hs. subst state.
  exists fence. eapply held_by_perm; [apply py_sorted_perm|].
  apply (rows_held (Session (t_leases s) (dom (t_nodes s)))); [done|].
  apply one_of_some in Hf, Ht. rewrite Forall_fmap in Hf, Ht. rewrite Forall_forall in Hf, Ht |- *.
  intros p Hp. split_and!; [|by apply Hf|by apply Ht].
  match goal with H : ∀ x, In x _ → _ |- _ => apply H end. by apply list_elem_of_In.
Qed.

Lemma catch_conflict_ok {A} (m h : M control_db A) s a s' :
  catch_conflict m h s = (Ok a, s') → m s = (Ok a, s') ∨ ∃ s1, h s1 = (Ok a, s').
Proof.
  unfold catch_conflict. intros [H|(e & s1 & _ & H)]%try_catch_ok; [by left|].
  destruct (eqb _ _); [by right; exists s1|by inv_run_all].
Qed.

Lemma take_over_ok i cx s g s' : take_over i cx s = (Ok (Some g), s') → holds_nodes s' cx.
Proof.
  unfold take_over. intros H. inv_run_all. repeat (case_match; inv_run_all; try done);
  match goal with H : catch_conflict _ _ _ = _ |- _ => apply catch_conflict_ok in H as [H|[? H]] end;
  solve [by inv_run_all | by eapply acquire_targets_ok].
Qed.

Lemma ensure_node_lease_ok i cx s g s' : ensure_node_lease i cx s = (Ok (Some g), s') → holds_nodes s' cx.
Proof.
  unfold ensure_node_lease. intros [H|[s1 H]]%catch_conflict_ok; [|by eapply take_over_ok]. inv_run_all.
  match type of H with match ?o with _ => _ end _ = _ => destruct o as [g'|] end; [|by eapply acquire_targets_ok].
  destruct (eqb (grant_state g') "held") eqn:Hh; [|by inv_run_all]. inv_run_all. simplify_eq. bool_facts.
  by eapply owned_grant_ok.
Qed.

Lemma lease_missing_ok i cx phase s s' :
  lease_missing i cx phase s = (Ok false, s') → phase ∈ lease_phases → phase ≠ "withdrawal-pending" →
  holds_nodes s' cx.
Proof.
  unfold lease_missing. intros H Hp Hw. inv_run_all. apply among_true in Hp. apply eqb_false in Hw.
  rewrite Hp, Hw in H. cbn [andb negb] in H. inv_run_all.
  match goal with H : is_None_b ?o = false |- _ => destruct o; [|done] end. by eapply ensure_node_lease_ok.
Qed.

Section service.
Context (redact_text : string → string) (publisher : option Publisher).
Context (endpoint_resolver : control_db → string → result (string * Z)).
Context (authority : authority_mode).
Context {prepared : Type} (update_authorizer : option (UpdateAuthorizer prepared)).
Context (publication_lease_seconds : Z).

Notation execute' := (execute redact_text publisher endpoint_resolver authority update_authorizer
                        publication_lease_seconds).
Notation advance_phase' := (advance_phase redact_text publisher endpoint_resolver update_authorizer
                              publication_lease_seconds).
Notation tick_candidate' := (tick_candidate redact_text publisher endpoint_resolver authority update_authorizer
                               publication_lease_seconds).

(** Where the work of a tick is done, and from which row. *)
Inductive tick_run (i : inputs) (pre : option ReconciliationAuthorityInput) (automatic : bool)
    (cx : context) (r : Reconciliation) (s : control_db) (b : bool) (s' : control_db) : Prop :=
| run_calm : calm s s' → tick_run i pre automatic cx r s b s'
| run_cancellation s1 c :
    calm s s1 → t_cancellations s !! cx_id cx = Some c →
    cancellation_step redact_text publisher i cx (rec_current_phase r) c s1 = (Ok (Some b), s') →
    tick_run i pre automatic cx r s b s'
| run_execute s0 s1 s2 released :
    calm s s0 → lease_missing i cx (rec_current_phase r) s0 = (Ok false, s1) → calm s1 s2 →
    (rec_current_phase r ≠ "completed" → still s1 s2) →
    rec_current_phase r ∉ ["failed"; "cancelled"; "waiting-for-operator"] →
    execute' i pre cx r released automatic s2 = (Ok b, s') → tick_run i pre automatic cx r s b s'.

Lemma tick_cases i pre id automatic s b s' :
  tick_candidate' i pre id automatic s = (Ok b, s') →
  ∃ cx r, cx_id cx = id ∧ ctx_ok s cx r ∧ tick_run i pre automatic cx r s b s'.
Proof.
  unfold tick_candidate. intros H. inv_run_all.
  match goal with H : locked_context _ _ _ = (Ok ?c, _) |- _ =>
    rename c into cx; apply locked_context_ok in H as (-> & <- & r0 & Hctx) end.
  match goal with H : reconciliation_row _ _ = (Ok ?r', _) |- _ =>
    rename r' into r; apply reconciliation_row_ok in H as [-> Hr] end.
  assert (r0 = r) as -> by (pose proof (ctx_row _ _ _ Hctx); congruence). exists cx, r. split; [done|]. split; [done|].
  match goal with H : release_pending_node_lease _ _ = (Ok ?b, ?s1) |- _ =>
    rename b into released, s1 into sA; apply (moves_run _ _ _ _ _ (release_pending_calm _)) in H as HA end.
  destruct (released && _ && _); [inv_run_all; by apply run_calm|]. inv_run_all.
  match goal with H : (if among _ _ then mark_node_lease_releasing _ _ else _) _ = (Ok ?b, ?s1) |- _ =>
    rename b into marked, s1 into sB;
    apply (moves_run _ _ _ _ _ (moves_if _ _ _ _ (mark_releasing_calm i cx) (moves_ret calm false))) in H as HB end.
  destruct marked; [inv_run_all; apply run_calm; by etrans|]. inv_run_all.
  match goal with H : lease_missing _ _ _ _ = (Ok ?b, ?s1) |- _ =>
    rename b into missing, s1 into sC, H into Hmissing end.
  pose proof (moves_run _ _ _ _ _ (lease_missing_calm _ _ _) Hmissing) as HC.
  destruct missing; [inv_run_all; apply run_calm; by repeat (etrans; [eassumption|])|]. inv_run_all.
  rewrite (calm_cancellations _ _ HA) in *.
  match goal with H : match t_cancellations s !! _ with _ => _ end _ = (Ok ?o, ?s1) |- _ =>
    rename o into outcome, s1 into sD, H into Hcancel end.
  destruct outcome as [b'|].
  - inv_run_all. destruct (t_cancellations s !! cx_id cx) as [c|] eqn:Ec; [|by inv_run_all].
    eapply run_cancellation; [|done|exact Hcancel]. by repeat (etrans; [eassumption|]).
  - assert (calm sC sD ∧ (rec_current_phase r ≠ "completed" → still sC sD)) as [HD Hnone].
    { destruct (t_cancellations s !! cx_id cx) as [c|]; [by eapply cancellation_step_none|]. by inv_run_all. }
    destruct (among _ [_; _; "waiting-for-operator"]) eqn:Hphase; [inv_run_all; apply run_calm; by repeat (etrans; [eassumption|])|].
    eapply run_execute; [|exact Hmissing|exact HD|exact Hnone| |exact H]; [by etrans|].
    intros Hin%among_true. congruence.
Qed.

(** Whoever passes without superseding owns the routes. *)
Definition owner_is (s : control_db) (id : string) : Prop :=
  ∃ o, t_owner s = Some o ∧ own_reconciliation_id o = Some id.

Lemma publication_owner_ok s o s' : publication_owner s = (Ok o, s') → t_owner s' = Some o ∧ still s s'.
Proof.
  intros H. split; [|by apply (moves_run _ _ _ _ _ publication_owner_still H)].
  unfold publication_owner, put_owner in H. inv_run_all. by subst.
Qed.

Lemma owns_publication_ok id s s' : owns_publication id false s = (Ok true, s') → owner_is s' id.
Proof.
  unfold owns_publication. intros H. inv_run_all.
  match goal with H : publication_owner _ = _ |- _ => apply publication_owner_ok in H as [Ho _] end.
  destruct (eqb _ (Some id)) eqn:E; inv_run_all; [bool_facts; by eexists|].
  match goal with H : reconciliation_row _ _ = _ |- _ => apply reconciliation_row_ok in H as [-> _] end.
  repeat (case_match; inv_run_all; try done).
Qed.

(** What [execute] does with a reconciliation in row [r]. *)
Inductive execute_run (i : inputs) (pre : option ReconciliationAuthorityInput) (cx : context)
    (r : Reconciliation) (released automatic : bool) (s : control_db) (b : bool) (s' : control_db) : Prop :=
| ex_swept : sweep_expired_mutations redact_text i cx s = (Ok true, s') →
    execute_run i pre cx r released automatic s b s'
| ex_idle : still s s' → execute_run i pre cx r released automatic s b s'
| ex_handed s1 : still s s1 → rec_current_phase r = "withdrawal-pending" →
    hand_over publisher i cx s1 = (Ok b, s') → execute_run i pre cx r released automatic s b s'
| ex_lost s1 reason : still s s1 →
    lose_authority redact_text publisher i cx (rec_current_phase r) reason s1 = (Ok b, s') →
    execute_run i pre cx r released automatic s b s'
| ex_begun s1 : still s s1 → rec_current_phase r = "planned" →
    begin_withdrawal i cx r s1 = (Ok b, s') → execute_run i pre cx r released automatic s b s'
| ex_phase s0 s1 : still s s0 → still s0 s1 →
    authority_reason endpoint_resolver authority s0 pre cx r = Ok None → owner_is s1 (cx_id cx) →
    advance_phase' i cx r released automatic s1 = (Ok b, s') → execute_run i pre cx r released automatic s b s'.

Lemma execute_cases i pre cx r released automatic s b s' :
  execute' i pre cx r released automatic s = (Ok b, s') → execute_run i pre cx r released automatic s b s'.
Proof.
  unfold execute. intros H. inv_run_all.
  match goal with H : sweep_expired_mutations _ _ _ _ = (Ok ?b, _) |- _ => destruct b; rename H into Hsweep end.
  { inv_run_all. by apply ex_swept. }
  apply sweep_false in Hsweep as ->. inv_run_all.
  match goal with H : publication_owner _ = (Ok ?o, ?s1) |- _ =>
    rename s1 into s0; apply publication_owner_ok in H as [_ H0] end.
  destruct (eqb (rec_current_phase r) "withdrawal-pending") eqn:Hw; cbn [andb] in H.
  - bool_facts. destruct (negb _ && negb _); [by eapply ex_handed|]. inv_run_all.
    match type of H with match ?o with _ => _ end _ = _ => destruct o end; [by eapply ex_lost|by eapply ex_handed].
  - inv_run_all. match type of H with match ?o with _ => _ end _ = _ => destruct o as [reason|] end; [by eapply ex_lost|].
    inv_run_all. match goal with H : owns_publication _ _ _ = (Ok ?b, ?s2) |- _ =>
      rename b into owns, s2 into s1, H into Howns end.
    pose proof (moves_run _ _ _ _ _ (owns_publication_still _ _) Howns) as Hs1.
    destruct owns; cbn [negb] in H; [|inv_run_all; apply ex_idle; by etrans].
    destruct (eqb (rec_current_phase r) "planned") eqn:Hp; bool_facts.
    + eapply ex_begun; [by etrans|done|done].
    + eapply ex_phase; [exact H0|exact Hs1|done|by eapply owns_publication_ok|done].
Qed.
(** ** What a tick enqueues *)

(** Operations are added, each with the property [P]; leases and the owner of the
    routes stay. *)
Record enqueues (P : StoredOperation → Prop) (s s' : control_db) : Prop := {
  enq_leases : t_leases s' = t_leases s;
  enq_owner : t_owner s' = t_owner s;
  enq_kept : t_operations s ⊆ t_operations s';
  enq_new id o : t_operations s' !! id = Some o → t_operations s !! id = None → P o
}.

#[export] Instance enqueues_preorder P : PreOrder (enqueues P).
Proof.
  split; [intros s; split; [done..|congruence]|]. intros s1 s2 s3 [L1 O1 K1 N1] [L2 O2 K2 N2].
  split; [congruence..|by etrans|]. intros id o H3 H1.
  destruct (t_operations s2 !! id) as [o2|] eqn:H2; [|by eapply N2].
  rewrite map_subseteq_spec in K2. pose proof (K2 _ _ H2). simplify_eq. by eapply N1.
Qed.

Lemma enqueues_frame P s s' :
  t_leases s' = t_leases s → t_owner s' = t_owner s → t_operations s' = t_operations s → enqueues P s s'.
Proof. intros Hl Ho Hops. split; [done..|by rewrite Hops|]. intros id o. rewrite Hops. congruence. Qed.

Ltac enqueue_write := apply moves_modify; intros ?; by apply enqueues_frame.

Lemma alter_projection_enqueues P key f : moves (enqueues P) (alter_projection key f).
Proof. enqueue_write. Qed.
Lemma put_projection_enqueues P key p : moves (enqueues P) (put_projection key p).
Proof. enqueue_write. Qed.
Lemma alter_reconciliation_enqueues P id f : moves (enqueues P) (alter_reconciliation id f).
Proof. enqueue_write. Qed.
Lemma alter_job_enqueues P id f : moves (enqueues P) (alter_job id f).
Proof. enqueue_write. Qed.
#[local] Hint Resolve alter_projection_enqueues put_projection_enqueues alter_reconciliation_enqueues
  alter_job_enqueues : py.

Lemma reconciliation_row_enqueues P id : moves (enqueues P) (reconciliation_row id).
Proof. unfold reconciliation_row. solve_moves. Qed.
Lemma insert_projection_enqueues P key p : moves (enqueues P) (insert_projection key p).
Proof. unfold insert_projection. solve_moves. Qed.
Lemma wait_for_operator_enqueues P i cx reason : moves (enqueues P) (wait_for_operator redact_text i cx reason).
Proof. unfold wait_for_operator. solve_moves. Qed.
#[local] Hint Resolve reconciliation_row_enqueues insert_projection_enqueues wait_for_operator_enqueues : py.
Lemma finish_failed_enqueues P i cx : moves (enqueues P) (finish_failed i cx).
Proof. unfold finish_failed. solve_moves. Qed.
#[local] Hint Resolve finish_failed_enqueues : py.

(** The work an operation of the graph stands for. *)
Definition work_of (cx : context) (n : OperationNode) (kind : string) (o : StoredOperation) : Prop :=
  so_parent_job_id o = cx_job cx ∧ so_node_id o = op_node_id n ∧ so_kind o = kind.

Lemma insert_operation_enqueues (P : StoredOperation → Prop) id o :
  P o → moves (enqueues P) (insert_operation id o).
Proof.
  intros HP. apply moves_get_bind. intros s. unfold mbind, M_bind, lift, ensure.
  destruct (is_None_b _) eqn:Hn; [|cbn; reflexivity]. bool_facts. split; cbn; [done..|by apply insert_subseteq|].
  intros id' o' Ho' Hno. apply lookup_insert_Some in Ho' as [[<- <-]|[_ ?]]; [done|congruence].
Qed.

Lemma enqueue_node_enqueues P i cx r n kind payload :
  (∀ o, work_of cx n kind o → P o) →
  moves (enqueues P) (enqueue_node update_authorizer i cx r n kind payload).
Proof.
  intros HP. unfold enqueue_node, enqueue_in_session.
  repeat first [apply insert_operation_enqueues, HP; done | moves_step].
Qed.

Notation primary_states s id := (projection_states (role_projections s id "primary")).
Notation compensation_states s id := (projection_states (role_projections s id "compensation")).

(** A primary operation whose dependencies were all accepted. *)
Definition due (st : states) (cx : context) (o : StoredOperation) : Prop :=
  ∃ n, n ∈ graph_nodes (cx_graph cx) ∧ work_of cx n (op_kind n) o ∧ unstarted st (op_id n)
       ∧ Forall (is_accepted st) (op_dependencies n).

(** The compensation of an accepted operation; what depends on it and can be
    compensated has been. *)
Definition undone (st compensated : states) (cx : context) (o : StoredOperation) : Prop :=
  ∃ n kind, n ∈ graph_nodes (cx_graph cx) ∧ op_compensation_kind n = Some kind ∧ work_of cx n kind o
    ∧ is_accepted st (op_id n)
    ∧ ∀ m, m ∈ graph_nodes (cx_graph cx) → op_id n ∈ op_dependencies m → is_accepted st (op_id m) →
        op_compensation_kind m ≠ None → compensated !! op_id m = Some "compensated".

Lemma node_unique nodes n m : NoDup (op_id <$> nodes) → n ∈ nodes → m ∈ nodes → op_id n = op_id m → n = m.
Proof.
  intros Hnd [i Hi]%list_elem_of_lookup [j Hj]%list_elem_of_lookup Hid.
  assert (i = j) as ->; [|congruence]. eapply NoDup_lookup; [exact Hnd|..].
  - by rewrite list_lookup_fmap, Hi.
  - by rewrite list_lookup_fmap, Hj, Hid.
Qed.

Lemma dispatch_primary_enqueues i cx s : executable (graph_nodes (cx_graph cx)) →
  moves_at (enqueues (due (primary_states s (cx_id cx)) cx)) s (dispatch_primary update_authorizer i cx).
Proof.
  intros Hex. unfold dispatch_primary. apply moves_at_read; [exact _|apply reads_get|intros ? [= <-]].
  at_read. destruct (forallb _ _); [apply moves_at_moves; solve_moves|].
  apply moves_at_moves. apply moves_bind; [exact _|solve_moves|intros r].
  apply moves_bind; [exact _| |intros ?; solve_moves]. apply moves_eachM_in; [exact _|].
  intros id (n & Hn & <- & Hu & Hd)%wave_elem. unfold dispatch_node.
  apply moves_lift_bind; [exact _|intros n' [Hn' Hid]%graph_node_ok].
  assert (n' = n) as -> by (eapply node_unique; [apply Hex|done..]).
  apply moves_lift_bind; [exact _|intros payload _]. apply moves_bind; [exact _| |intros ?; solve_moves].
  apply enqueue_node_enqueues. intros o Ho. by exists n.
Qed.

Lemma compensate_next_enqueues i cx st existing rest : ∀ done,
  executable (graph_nodes (cx_graph cx)) → compensation_order (graph_nodes (cx_graph cx)) st = done ++ rest →
  Forall (λ id, existing !! id = Some "compensated") done →
  moves (enqueues (undone st existing cx)) (compensate_next redact_text update_authorizer i cx existing rest).
Proof.
  induction rest as [|id rest IH]; intros done Hex Hord Hdone; cbn; [solve_moves|].
  destruct (among _ ["queued"; "running"]); [solve_moves|].
  destruct (eqb _ "compensated") eqn:Hc.
  { bool_facts. apply (IH (done ++ [id])); [done|by rewrite <- app_assoc|]. apply Forall_app. split; [done|].
    apply Forall_singleton. destruct (existing !! id) as [x|]; cbn in Hc; congruence. }
  destruct (among _ _); [solve_moves|]. apply moves_bind; [exact _| |intros ?; solve_moves].
  unfold compensate_node. apply moves_lift_bind; [exact _|intros n [Hn <-]%graph_node_ok].
  do 2 (apply moves_lift_bind; [exact _|intros ? _]). cbv zeta.
  apply moves_bind; [exact _|solve_moves|intros _]. apply moves_bind; [exact _|solve_moves|intros r].
  apply moves_bind; [exact _| |intros ?; solve_moves]. apply enqueue_node_enqueues. intros o Ho.
  assert (op_id n ∈ compensation_order (graph_nodes (cx_graph cx)) st) as Hin by (rewrite Hord; set_solver).
  unfold compensation_order in Hin. apply list_elem_of_fmap in Hin as (n' & Hid & [[Ha Hk] Hn'%list_elem_of_In%in_rev]%list_elem_of_filter).
  apply list_elem_of_In in Hn'. assert (n' = n) as -> by (eapply node_unique; [apply Hex|done..]).
  destruct (op_compensation_kind n) as [kind|] eqn:Hkind; [|done]. exists n, kind. split_and!; [done..|].
  intros m Hm Hd Ham Hkm. rewrite Forall_forall in Hdone. apply Hdone.
  exact (compensation_before _ st done n rest m Hex Hn Hord Hm Hd Ham Hkm).
Qed.

(** A compensation that dispatches leaves the row alone; one that does not leaves
    the operations alone. *)
Definition same_rows (s s' : control_db) : Prop := t_reconciliations s' = t_reconciliations s.
Definition same_operations (s s' : control_db) : Prop := t_operations s' = t_operations s.
#[export] Instance same_rows_preorder : PreOrder same_rows.
Proof. split; unfold same_rows; [done|congruence]. Qed.
#[export] Instance same_operations_preorder : PreOrder same_operations.
Proof. split; unfold same_operations; [done|congruence]. Qed.

Lemma insert_operation_rows id o : moves same_rows (insert_operation id o).
Proof. unfold insert_operation, put_operation. solve_moves. by apply moves_modify. Qed.
Lemma compensate_node_rows i cx id : moves same_rows (compensate_node update_authorizer i cx id).
Proof.
  unfold compensate_node, insert_projection, put_projection, enqueue_node, enqueue_in_session, alter_projection,
    reconciliation_row.
  repeat first [apply insert_operation_rows | apply moves_modify; done | moves_step].
Qed.

Lemma compensate_next_cases i cx existing rest s b s' :
  compensate_next redact_text update_authorizer i cx existing rest s = (Ok b, s') →
  if b then same_rows s s' else same_operations s s'.
Proof.
  assert (∀ reason, moves same_operations (wait_for_operator redact_text i cx reason)) as Hw.
  { intros reason. unfold wait_for_operator, alter_reconciliation, alter_job. solve_moves; by apply moves_modify. }
  assert (moves same_operations (finish_failed i cx)) as Hf.
  { unfold finish_failed, reconciliation_row, alter_reconciliation, alter_job. solve_moves; by apply moves_modify. }
  induction rest as [|id rest IH]; cbn; intros H.
  { inv_run_all. by eapply moves_run; [exact Hf|]. }
  destruct (among _ ["queued"; "running"]); [by inv_run_all|]. destruct (eqb _ _); [by apply IH|].
  destruct (among _ _); inv_run_all; [by eapply moves_run; [apply Hw|]|].
  by eapply moves_run; [apply compensate_node_rows|].
Qed.

(** The operations a phase adds, and under which leases. *)
Definition in_order (s : control_db) (cx : context) (phase : string) (o : StoredOperation) : Prop :=
  phase = "dispatching" ∧ due (primary_states s (cx_id cx)) cx o
  ∨ phase = "compensating" ∧ undone (primary_states s (cx_id cx)) (compensation_states s (cx_id cx)) cx o.

Lemma dispatch_phase_new i cx s b s' id o :
  dispatch_phase update_authorizer i cx s = (Ok b, s') → executable (graph_nodes (cx_graph cx)) →
  t_operations s' !! id = Some o → t_operations s !! id = None →
  due (primary_states s (cx_id cx)) cx o ∧ t_leases s' = t_leases s ∧ t_owner s' = t_owner s.
Proof.
  unfold dispatch_phase. intros H Hex Ho Hn. inv_run_all.
  match goal with H : reconciliation_row _ _ = _ |- _ => apply reconciliation_row_ok in H as [-> _] end.
  match goal with H : dispatch_primary _ _ _ _ = _ |- _ =>
    apply (moves_at_run _ _ _ _ _ (dispatch_primary_enqueues i cx s Hex)) in H as [HL HO _ HN] end.
  by split_and!; [eapply HN|..].
Qed.

Lemma compensation_phase_new i cx r s b s' id o :
  compensation_phase redact_text update_authorizer i cx s = (Ok b, s') → executable (graph_nodes (cx_graph cx)) →
  t_reconciliations s !! cx_id cx = Some r → rec_current_phase r = "compensating" →
  t_operations s' !! id = Some o → t_operations s !! id = None →
  undone (primary_states s (cx_id cx)) (compensation_states s (cx_id cx)) cx o
  ∧ t_leases s' = t_leases s ∧ t_owner s' = t_owner s.
Proof.
  unfold compensation_phase, dispatch_compensation. intros H Hex Hr Hp Ho Hn. inv_run_all.
  match goal with H : compensate_next _ _ _ _ _ _ _ = (Ok ?n, ?s1) |- _ =>
    rename n into notify, s1 into sA; pose proof (compensate_next_cases _ _ _ _ _ _ _ H) as Hcases;
    apply (moves_run _ _ _ _ _ (compensate_next_enqueues i cx _ _ _ [] Hex eq_refl (Forall_nil_2 _))) in H
      as [HL HO _ HN] end.
  match goal with H : reconciliation_row _ _ = (Ok ?r', _) |- _ => apply reconciliation_row_ok in H as [-> Hr'] end.
  destruct notify; unfold same_rows, same_operations in Hcases.
  - rewrite Hcases, Hr in Hr'. injection Hr' as <-. rewrite Hp in *.
    match goal with H : (if eqb "compensating" "failed" then _ else _) _ = _ |- _ =>
      change (eqb "compensating" "failed") with false in H; cbv iota in H end.
    inv_run_all. by split_and!; [eapply HN|..].
  - exfalso. match goal with H : (if eqb _ "failed" then _ else _) sA = (_, ?s1) |- _ =>
      assert (calm sA s1) as Hc; [destruct (eqb _ "failed"); inv_run_all; [|done]|] end.
    + by eapply moves_run; [apply mark_releasing_calm|].
    + rewrite (calm_operations _ _ Hc), Hcases in Ho. congruence.
Qed.

Lemma settles_no_new s s' id : settles s s' → t_operations s !! id = None → t_operations s' !! id = None.
Proof. intros [_ Hd]. rewrite <- !not_elem_of_dom. by rewrite Hd. Qed.

Lemma advance_phase_new i cx r released automatic s b s' id o :
  advance_phase' i cx r released automatic s = (Ok b, s') → executable (graph_nodes (cx_graph cx)) →
  t_reconciliations s !! cx_id cx = Some r →
  t_operations s' !! id = Some o → t_operations s !! id = None →
  in_order s cx (rec_current_phase r) o ∧ t_leases s' = t_leases s ∧ t_owner s' = t_owner s.
Proof.
  intros H Hex Hr Ho Hn. unfold advance_phase in H. inv_run_all.
  match goal with H : publication_row _ _ = (Ok ?p, _) |- _ =>
    unfold publication_row in H; inv_run_all; rename p into publication end.
  assert (∀ s1, settles s s1 → t_operations s1 !! id = Some o → False) as Hsettles.
  { intros s1 Hs1 Ho1. by rewrite (settles_no_new _ _ _ Hs1 Hn) in Ho1. }
  destruct (t_publications s !! cx_id cx) as [p'|]; [|by inv_run_all]. inv_run_all.
  destruct (eqb _ "completed" && _ && _); [inv_run_all; congruence|].
  destruct (among _ _ && _).
  { exfalso. inv_run_all. eapply Hsettles; [|exact Ho].
    by eapply moves_run; [apply quiesce_unavailable_settles|]. }
  destruct (eqb _ "routes-withdrawn").
  { exfalso. eapply Hsettles; [|exact Ho]. by eapply moves_run; [apply begin_dispatch_settles|]. }
  destruct (eqb _ "dispatching") eqn:Hdis; bool_facts.
  { destruct (dispatch_phase_new _ _ _ _ _ _ _ H Hex Ho Hn) as (? & ? & ?). split; [by left|done]. }
  destruct (eqb _ "accepting").
  { exfalso. inv_run_all. eapply Hsettles; [|exact Ho]. by eapply moves_run; [apply accept_evidence_settles|]. }
  destruct (eqb _ "publication-pending").
  { exfalso. inv_run_all. eapply Hsettles; [|exact Ho]. by eapply moves_run; [apply publish_routes_settles|]. }
  destruct (eqb _ "completed").
  { exfalso. eapply Hsettles; [|exact Ho]. by eapply moves_run; [apply renew_routes_settles|]. }
  destruct (eqb _ "compensating") eqn:Hcomp; [|by inv_run_all]. bool_facts.
  destruct (compensation_phase_new _ _ _ _ _ _ _ _ H Hex Hr Hcomp Ho Hn) as (? & ? & ?). split; [by right|done].
Qed.

Lemma calm_states s s' id : calm s s' →
  primary_states s' id = primary_states s id ∧ compensation_states s' id = compensation_states s id.
Proof. intros Hc. unfold role_projections, projections_of. by rewrite (calm_projections _ _ Hc). Qed.

(** C3. A tick enqueues operations of the graph of its reconciliation only, in an
    order the graph allows: a primary operation when everything it depends on was
    accepted, a compensation when its operation was accepted and everything that
    depends on it and can be compensated has been. At that time the reconciliation
    owns the routes and holds the lease of every target node. *)
Theorem operations_are_dispatched_in_order i pre id automatic s b s' op o :
  tick_candidate' i pre id automatic s = (Ok b, s') →
  t_operations s' !! op = Some o → t_operations s !! op = None →
  ∃ cx r, cx_id cx = id ∧ ctx_ok s cx r ∧ in_order s cx (rec_current_phase r) o
    ∧ holds_nodes s' cx ∧ owner_is s' id.
Proof.
  intros (cx & r & <- & Hctx & Hrun)%tick_cases Ho Hn. exists cx, r. split; [done|]. split; [done|].
  assert (∀ s1 s2, calm s s1 → settles s1 s2 → t_operations s2 !! op = Some o → False) as Hsettles.
  { intros s1 s2 Hc Hs Ho2. rewrite (settles_no_new _ _ op Hs) in Ho2; [done|].
    by rewrite (calm_operations _ _ Hc). }
  destruct Hrun as [Hc|s1 c Hc _ H|s0 s1 s2 released Hc0 Hmissing Hc1 Hstill Hphase H].
  { exfalso. rewrite (calm_operations _ _ Hc) in Ho. congruence. }
  { exfalso. eapply (Hsettles s1 s'); [done| |done]. by eapply moves_run; [apply cancellation_step_settles|]. }
  assert (calm s s1) as Hs1.
  { etrans; [done|]. by eapply moves_run; [apply lease_missing_calm|]. }
  assert (calm s s2) as Hs2 by by etrans.
  destruct (execute_cases _ _ _ _ _ _ _ _ _ H) as [H'|[H' _]|s3 [H3 _] _ H'|s3 reason [H3 _] H'|s3 [H3 _] _ H'
    |s3 s4 H3 H4 _ Howner H'].
  - exfalso. eapply (Hsettles s2 s'); [done| |done]. by eapply moves_run; [apply sweep_expired_settles|].
  - exfalso. rewrite (calm_operations _ _ H'), (calm_operations _ _ Hs2) in Ho. congruence.
  - exfalso. eapply (Hsettles s3 s'); [by etrans| |done]. by eapply moves_run; [apply hand_over_settles|].
  - exfalso. eapply (Hsettles s3 s'); [by etrans| |done]. by eapply moves_run; [apply lose_authority_settles|].
  - exfalso. eapply (Hsettles s3 s'); [by etrans| |done]. by eapply moves_run; [apply begin_withdrawal_settles|].
  - assert (still s2 s4) as Hs4 by by etrans. assert (calm s s4) as Hc4 by (etrans; [exact Hs2|apply Hs4]).
    pose proof (ctx_ok_calm _ _ _ _ Hc4 Hctx) as Hctx4.
    destruct (advance_phase_new _ _ _ _ _ _ _ _ op o H') as (Hord & HL & HO); [|apply Hctx4|done| |].
    { eapply validated_executable, Hctx. }
    { by rewrite (calm_operations _ _ Hc4). }
    unfold in_order in *. destruct (calm_states _ _ (cx_id cx) Hc4) as [Ep Ec]. rewrite Ep, Ec in Hord.
    split; [done|]. unfold holds_nodes, owner_is. rewrite HL, HO. split; [|done].
    assert (rec_current_phase r ∈ lease_phases ∧ rec_current_phase r ≠ "withdrawal-pending"
            ∧ rec_current_phase r ≠ "completed") as (Hl & Hw & Hne).
    { destruct Hord as [[-> _]|[-> _]]; split_and!; try done; by apply among_true. }
    destruct Hs4 as [_ ->]. destruct (Hstill Hne) as [_ ->]. by eapply lease_missing_ok.
Qed.

End service.
