(* ===== verification/ReconciliationEvidence.v ===== *)
(** * Routes follow evidence

    A reconciliation that is about to publish its routes, or has published them,
    has accepted evidence for every operation of its graph. The invariant is kept
    by every transaction of the reconciliation service and of the agent queue. *)

From S2P Require Import Prelude Identifiers Canonical Documents Contracts PackageEngine Protocol.
From S2P Require Import OperationGraph Orchestration OrchestrationFacts NodeLeases Jobs AgentTables AgentJobs AgentJobsFacts.
From S2P Require Import Routes AgentReconciliation Waves ReconciliationQuiet ReconciliationFacts.

(** ** Complete evidence *)

(** The phases that follow the dispatch of a graph. *)
Definition stages : list string := ["accepting"; "publication-pending"; "completed"].
Definition in_stage (r : Reconciliation) : Prop := rec_current_phase r ∈ stages.

#[export] Instance in_stage_dec r : Decision (in_stage r).
Proof. unfold in_stage. apply _. Defined.

(** The columns a plan is authenticated from. *)
Definition plan_of (r : Reconciliation) :=
  (rec_base_commit r, rec_graph r, rec_graph_digest r, rec_plan_digest r, rec_resolved_plan r,
   rec_route_withdrawal_generation r).

Lemma plan_of_validated id r r' : plan_of r' = plan_of r → validated_plan id r' = validated_plan id r.
Proof. unfold plan_of, validated_plan. by intros [= -> -> -> -> -> ->]. Qed.

(** What a projection stands for. *)
Definition ident (p : ReconciliationOperation) : string * string * string :=
  (ro_reconciliation_id p, ro_graph_operation_id p, ro_role p).

Definition accepted_row (s : control_db) (id operation : string) : Prop :=
  ∃ key p, t_projections s !! key = Some p ∧ ident p = (id, operation, "primary") ∧ ro_state p = "accepted".

Definition complete (s : control_db) (id : string) : Prop :=
  ∀ r g document, t_reconciliations s !! id = Some r → validated_plan id r = Ok (g, document) →
    Forall (λ n, accepted_row s id (op_id n)) (graph_nodes g).

(** Projections are unique, and those of operations belong to the graph. *)
Record wf (s : control_db) : Prop := {
  wf_unique key key' p p' : t_projections s !! key = Some p → t_projections s !! key' = Some p' →
    ident p = ident p' → key = key';
  wf_graph key p r g document : t_projections s !! key = Some p → ro_role p = "primary" →
    t_reconciliations s !! ro_reconciliation_id p = Some r →
    validated_plan (ro_reconciliation_id p) r = Ok (g, document) →
    ro_graph_operation_id p ∈ op_id <$> graph_nodes g;
  wf_row key p : t_projections s !! key = Some p → is_Some (t_reconciliations s !! ro_reconciliation_id p)
}.

(** ** Transactions that keep the evidence *)

(** The accepted operations of a reconciliation stay accepted. *)
Definition accepted_kept (s s' : control_db) (id : string) : Prop :=
  ∀ key p, t_projections s !! key = Some p → ro_reconciliation_id p = id → ro_role p = "primary" →
    ro_state p = "accepted" → ∃ p', t_projections s' !! key = Some p' ∧ ident p' = ident p ∧ ro_state p' = "accepted".

Record keeps (s s' : control_db) : Prop := {
  keeps_plan id r : t_reconciliations s !! id = Some r →
    ∃ r', t_reconciliations s' !! id = Some r' ∧ plan_of r' = plan_of r;
  keeps_ident key p : t_projections s !! key = Some p → ∃ p', t_projections s' !! key = Some p' ∧ ident p' = ident p;
  keeps_wf : wf s → wf s';
  keeps_stage id r' : wf s → t_reconciliations s' !! id = Some r' → in_stage r' →
    (∃ r, t_reconciliations s !! id = Some r ∧ in_stage r ∧ accepted_kept s s' id) ∨ complete s' id
}.

Lemma accepted_kept_trans s1 s2 s3 id : accepted_kept s1 s2 id → accepted_kept s2 s3 id → accepted_kept s1 s3 id.
Proof.
  intros H12 H23 key p Hp Hid Hrole Hs. destruct (H12 key p) as (p2 & Hp2 & Hi2 & Hs2); [done..|].
  unfold ident in Hi2. injection Hi2 as E1 E2 E3. destruct (H23 key p2) as (p3 & Hp3 & Hi3 & Hs3); [done|congruence..|done|].
  exists p3. split_and!; [done| |done]. rewrite Hi3. unfold ident. by rewrite E1, E2, E3.
Qed.

Lemma complete_kept s s' id : keeps s s' → is_Some (t_reconciliations s !! id) → accepted_kept s s' id →
  complete s id → complete s' id.
Proof.
  intros HK [r Hr] Hkept Hc r' g document Hr' Hv.
  destruct (keeps_plan _ _ HK _ _ Hr) as (r2 & Hr2 & Hplan).
  assert (r2 = r') as -> by congruence.
  rewrite (plan_of_validated _ _ _ Hplan) in Hv. eapply Forall_impl; [eapply Hc; eauto|].
  intros n (key & p & Hp & Hi & Hs). unfold ident in Hi. injection Hi as E1 E2 E3.
  destruct (Hkept key p) as (p' & Hp' & Hi' & Hs'); [done..|].
  exists key, p'. split_and!; [done| |done]. rewrite Hi'. unfold ident. congruence.
Qed.

#[export] Instance keeps_preorder : PreOrder keeps.
Proof.
  split.
  - intros s. split; [eauto..|done|]. intros id r' _ Hr' Hs. left. exists r'. split_and!; [done..|].
    intros key p Hp _ _ ?. by exists p.
  - intros s1 s2 s3 H12 H23. split.
    + intros id r Hr. destruct (keeps_plan _ _ H12 _ _ Hr) as (r2 & Hr2 & E2).
      destruct (keeps_plan _ _ H23 _ _ Hr2) as (r3 & Hr3 & E3). exists r3. split; [done|congruence].
    + intros key p Hp. destruct (keeps_ident _ _ H12 _ _ Hp) as (p2 & Hp2 & E2).
      destruct (keeps_ident _ _ H23 _ _ Hp2) as (p3 & Hp3 & E3). exists p3. split; [done|congruence].
    + intros Hw. by apply (keeps_wf _ _ H23), (keeps_wf _ _ H12).
    + intros id r3 Hw Hr3 Hs3.
      destruct (keeps_stage _ _ H23 id r3) as [(r2 & Hr2 & Hs2 & K23)|Hc]; [by apply (keeps_wf _ _ H12)|done..| |by right].
      destruct (keeps_stage _ _ H12 id r2) as [(r1 & Hr1 & Hs1 & K12)|Hc]; [done..| |].
      * left. exists r1. split_and!; [done..|by eapply accepted_kept_trans].
      * right. by eapply complete_kept.
Qed.

Lemma keeps_frame s s' :
  t_reconciliations s' = t_reconciliations s → t_projections s' = t_projections s → keeps s s'.
Proof.
  intros Hr Hp. split.
  - intros id r. rewrite Hr. eauto.
  - intros key p. rewrite Hp. eauto.
  - intros [U G W]. split; rewrite ?Hr, ?Hp; auto.
  - intros id r'. rewrite Hr. intros _ Hr' Hs. left. exists r'. split_and!; [done..|].
    intros key p. rewrite Hp. intros Hk _ _ ?. by exists p.
Qed.

Lemma calm_keeps s s' : calm s s' → keeps s s'.
Proof. intros Hc. by apply keeps_frame; apply Hc. Qed.

Lemma moves_calm_keeps {A} (m : M control_db A) : moves calm m → moves keeps m.
Proof. apply moves_impl, calm_keeps. Qed.
#[export] Hint Resolve moves_calm_keeps : py.

(** The invariant. *)
Definition evidence_inv (s : control_db) : Prop :=
  wf s ∧ ∀ id r, t_reconciliations s !! id = Some r → in_stage r → complete s id.

Lemma keeps_inv s s' : keeps s s' → evidence_inv s → evidence_inv s'.
Proof.
  intros HK [Hw Hi]. split; [by apply (keeps_wf _ _ HK)|]. intros id r' Hr' Hs'.
  destruct (keeps_stage _ _ HK id r' Hw Hr' Hs') as [(r & Hr & Hs & Hkept)|]; [|done].
  eapply complete_kept; [done|by eexists|done|by eapply Hi].
Qed.

(** ** Writes *)

Ltac keeps_write := apply moves_modify; intros ?; by apply keeps_frame.

Lemma put_operation_keeps id o : moves keeps (put_operation id o).
Proof. keeps_write. Qed.
Lemma put_attempt_keeps id o : moves keeps (put_attempt id o).
Proof. keeps_write. Qed.
Lemma put_job_keeps id o : moves keeps (put_job id o).
Proof. keeps_write. Qed.
Lemma put_node_keeps id o : moves keeps (put_node id o).
Proof. keeps_write. Qed.
Lemma alter_job_keeps id f : moves keeps (alter_job id f).
Proof. keeps_write. Qed.
Lemma alter_cancellation_keeps id f : moves keeps (alter_cancellation id f).
Proof. keeps_write. Qed.
Lemma put_cancellation_keeps id f : moves keeps (put_cancellation id f).
Proof. keeps_write. Qed.
Lemma certificates_keeps f : moves keeps (modify (set_t_certificates f)).
Proof. keeps_write. Qed.
Lemma observations_keeps f : moves keeps (modify (set_t_observations f)).
Proof. keeps_write. Qed.
#[export] Hint Resolve put_operation_keeps put_attempt_keeps put_job_keeps put_node_keeps alter_job_keeps
  alter_cancellation_keeps put_cancellation_keeps certificates_keeps observations_keeps : py.

(** A row that keeps its plan, and leaves the stages or was in one. *)
Lemma keeps_put_row s id r r' :
  t_reconciliations s !! id = Some r → plan_of r' = plan_of r →
  (wf s → in_stage r' → in_stage r ∨ complete (set_t_reconciliations <[id := r']> s) id) →
  keeps s (set_t_reconciliations <[id := r']> s).
Proof.
  intros Hr Hplan Hstage. split; cbn.
  - intros id' x Hx. destruct (decide (id' = id)) as [->|Hne].
    + rewrite lookup_insert_eq. assert (x = r) as -> by congruence. eauto.
    + rewrite lookup_insert_ne by done. eauto.
  - eauto.
  - intros [U G W]. split; cbn; [done| |].
    + intros key p x g document Hp Hrole Hx Hv. apply lookup_insert_Some in Hx as [[Hid <-]|[_ Hx]]; [|by eapply G].
      eapply (G key p r); [done..|by rewrite <- Hid|]. rewrite Hid in Hr |- *. by rewrite <- (plan_of_validated _ _ _ Hplan).
    + intros key p Hp. destruct (W key p Hp) as [x Hx]. rewrite lookup_insert_is_Some'. right. eauto.
  - intros id' x Hw Hx Hs. apply lookup_insert_Some in Hx as [[<- <-]|[Hne Hx]].
    + destruct (Hstage Hw Hs) as [?|?]; [left|by right]. exists r. split_and!; [done..|]. intros key p Hp _ _ ?. by exists p.
    + left. exists x. split_and!; [done..|]. intros key p Hp _ _ ?. by exists p.
Qed.

Lemma alter_insert {A} (f : A → A) (m : gmap string A) id x : m !! id = Some x → alter f id m = <[id := f x]> m.
Proof. intros H. apply map_eq. intros j. rewrite lookup_alter, lookup_insert. case_decide; subst; by rewrite ?H. Qed.

Lemma alter_none {A} (f : A → A) (m : gmap string A) id : m !! id = None → alter f id m = m.
Proof. intros H. apply map_eq. intros j. rewrite lookup_alter. case_decide; subst; by rewrite ?H. Qed.

Lemma alter_reconciliation_keeps id f :
  (∀ r, plan_of (f r) = plan_of r) → (∀ r, in_stage (f r) → in_stage r) → moves keeps (alter_reconciliation id f).
Proof.
  intros Hp Hs. apply moves_modify. intros s. unfold set_t_reconciliations at 1.
  destruct (t_reconciliations s !! id) as [r|] eqn:Hr.
  - rewrite (alter_insert f _ _ _ Hr). by apply (keeps_put_row s id r (f r)); [..|left; apply Hs].
  - rewrite alter_none by done. by apply keeps_frame.
Qed.

(** *** Projections *)

(** The reconciliation has not reached the stages. *)
Definition away (s : control_db) (id : string) : Prop :=
  ∀ r, t_reconciliations s !! id = Some r → ¬ in_stage r.

Lemma keeps_put_projection s key p p' :
  t_projections s !! key = Some p → ident p' = ident p →
  (ro_role p = "primary" → ro_state p = "accepted" → away s (ro_reconciliation_id p)) →
  keeps s (set_t_projections <[key := p']> s).
Proof.
  intros Hp Hid Ha. split; cbn.
  - eauto.
  - intros key' q Hq. destruct (decide (key' = key)) as [->|Hne].
    + rewrite lookup_insert_eq. assert (q = p) as -> by congruence. eauto.
    + rewrite lookup_insert_ne by done. eauto.
  - intros [U G W]. unfold ident in Hid. injection Hid as E1 E2 E3. split; cbn.
    + intros k k' q q' Hq Hq' E. apply lookup_insert_Some in Hq as [[<- <-]|[Hk Hq]], Hq' as [[<- <-]|[Hk' Hq']].
      * done.
      * eapply U; [done..|]. rewrite <- E. unfold ident. congruence.
      * eapply U; [done..|]. rewrite E. unfold ident. congruence.
      * by eapply U.
    + intros k q r g document Hq. apply lookup_insert_Some in Hq as [[<- <-]|[Hk Hq]]; [|by eapply G].
      rewrite E1, E2, E3. by apply (G key p).
    + intros k q Hq. apply lookup_insert_Some in Hq as [[<- <-]|[Hk Hq]]; [rewrite E1|]; by eapply W.
  - intros id r' _ Hr' Hs. left. exists r'. split_and!; [done..|]. intros k q Hq Hqid Hrole Hst. cbn.
    destruct (decide (k = key)) as [->|Hne]; [|rewrite lookup_insert_ne by done; eauto].
    assert (q = p) as -> by congruence. destruct (Ha Hrole Hst r'); [by rewrite Hqid|done].
Qed.

Lemma keeps_insert_projection s key p :
  t_projections s !! key = None →
  (∀ k q, t_projections s !! k = Some q → ident q ≠ ident p) →
  (∃ r, t_reconciliations s !! ro_reconciliation_id p = Some r ∧ (ro_role p = "primary" → ∀ g document,
     validated_plan (ro_reconciliation_id p) r = Ok (g, document) → ro_graph_operation_id p ∈ op_id <$> graph_nodes g)) →
  keeps s (set_t_projections <[key := p]> s).
Proof.
  intros Hn Hu (r & Hr & Hg). split; cbn.
  - eauto.
  - intros k q Hq. rewrite lookup_insert_ne by congruence. eauto.
  - intros [U G W]. split; cbn.
    + intros k k' q q' Hq Hq' E. apply lookup_insert_Some in Hq as [[<- <-]|[Hk Hq]], Hq' as [[<- <-]|[Hk' Hq']];
        [done|by destruct (Hu k' q')|by destruct (Hu k q)|by eapply U].
    + intros k q r0 g document Hq. apply lookup_insert_Some in Hq as [[<- <-]|[Hk Hq]]; [|by eapply G].
      intros Hrole Hr0. assert (r0 = r) as -> by congruence. by apply Hg.
    + intros k q Hq. apply lookup_insert_Some in Hq as [[<- <-]|[Hk Hq]]; [by eexists|by eapply W].
  - intros id r' _ Hr' Hs. left. exists r'. split_and!; [done..|]. intros k q Hq _ _ Hst. cbn.
    rewrite lookup_insert_ne by congruence. eauto.
Qed.

Lemma put_projection_keeps s key p p' :
  t_projections s !! key = Some p → ident p' = ident p →
  (ro_role p = "primary" → ro_state p = "accepted" → away s (ro_reconciliation_id p)) →
  moves_at keeps s (put_projection key p').
Proof. apply keeps_put_projection. Qed.

(** The same through a row that may be gone. *)
Lemma alter_projection_keeps s key f :
  (∀ p, ident (f p) = ident p) →
  (∀ p, t_projections s !! key = Some p → ro_role p = "primary" → ro_state p = "accepted" →
     away s (ro_reconciliation_id p)) →
  moves_at keeps s (alter_projection key f).
Proof.
  intros Hid Ha. unfold moves_at, alter_projection, modify. cbn. unfold set_t_projections.
  destruct (t_projections s !! key) as [p|] eqn:Hp.
  - rewrite (alter_insert f _ _ _ Hp). apply (keeps_put_projection s key p (f p)); auto.
  - rewrite alter_none by done. by apply keeps_frame.
Qed.

Lemma insert_projection_keeps s key p :
  (∃ r, t_reconciliations s !! ro_reconciliation_id p = Some r ∧ (ro_role p = "primary" → ∀ g document,
     validated_plan (ro_reconciliation_id p) r = Ok (g, document) → ro_graph_operation_id p ∈ op_id <$> graph_nodes g)) →
  moves_at keeps s (insert_projection key p).
Proof.
  intros Hr. unfold insert_projection. apply moves_at_read; [exact _|apply reads_get|intros ? [= <-]].
  apply moves_at_read; [exact _|apply reads_lift|intros ? [He _]%lift_ok]. apply ensure_ok in He. bool_facts.
  apply keeps_insert_projection; [done| |done]. intros k q Hq Hid. unfold ident in Hid. injection Hid as E1 E2 E3.
  match goal with H : find_row _ _ = None |- _ => apply (find_row_None _ _ _ _ H) in Hq end. cbn in Hq.
  by rewrite E1, E2, E3, !eqb_refl in Hq.
Qed.

(** A row moves on within the stages. *)
Lemma alter_stage_keeps s id r f :
  t_reconciliations s !! id = Some r → in_stage r → (∀ r, plan_of (f r) = plan_of r) →
  moves_at keeps s (alter_reconciliation id f).
Proof.
  intros Hr Hs Hp. unfold moves_at, alter_reconciliation, modify. cbn. unfold set_t_reconciliations at 1.
  rewrite (alter_insert f _ _ _ Hr). apply (keeps_put_row s id r (f r)); auto.
Qed.

(** ** Stopping *)

Ltac leaves_stage := apply alter_reconciliation_keeps; [done|intros ? Hin%among_true; discriminate Hin].

Lemma alter_stopped_keeps id reason : moves keeps (alter_reconciliation id (stopped_reconciliation reason)).
Proof. leaves_stage. Qed.
Lemma alter_reason_keeps id reason : moves keeps (alter_reconciliation id (with_reason reason)).
Proof. by apply alter_reconciliation_keeps. Qed.
Lemma alter_phase_keeps id phase status :
  among phase stages = false → moves keeps (alter_reconciliation id (in_phase phase status)).
Proof.
  intros Hp. apply alter_reconciliation_keeps; [done|]. intros r Hin%among_true. cbn in Hin. congruence.
Qed.
Lemma alter_to_phase_keeps id phase :
  among phase stages = false → moves keeps (alter_reconciliation id (to_phase phase)).
Proof.
  intros Hp. apply alter_reconciliation_keeps; [done|]. intros r Hin%among_true. cbn in Hin. congruence.
Qed.
Lemma alter_reason_phase_keeps id reason phase status :
  among phase stages = false → moves keeps (alter_reconciliation id (with_reason reason ∘ in_phase phase status)).
Proof.
  intros Hp. apply alter_reconciliation_keeps; [done|]. intros r Hin%among_true. cbn in Hin. congruence.
Qed.
#[export] Hint Resolve alter_stopped_keeps alter_reason_keeps : py.
#[export] Hint Extern 2 (moves keeps (alter_reconciliation _ (in_phase _ _))) =>
  apply alter_phase_keeps; vm_compute; reflexivity : py.
#[export] Hint Extern 2 (moves keeps (alter_reconciliation _ (to_phase _))) =>
  apply alter_to_phase_keeps; vm_compute; reflexivity : py.
#[export] Hint Extern 2 (moves keeps (alter_reconciliation _ (with_reason _ ∘ in_phase _ _))) =>
  apply alter_reason_phase_keeps; vm_compute; reflexivity : py.

(** A write to a projection that was not accepted, after writes elsewhere. *)
Lemma put_open_projection s s1 key p state :
  t_projections s1 = t_projections s → t_projections s !! key = Some p → ro_state p ≠ "accepted" →
  moves_at keeps s1 (put_projection key (with_ro_state state p)).
Proof. intros E Hp Hs. eapply put_projection_keeps; [by rewrite E|done|]. by intros _ ?. Qed.

Lemma keeps_at_then {A B} s (m : M control_db A) (f : A → M control_db B) :
  moves_at keeps s m → (∀ a, moves keeps (f a)) → moves_at keeps s (m ≫= f).
Proof. intros Hm Hf. apply moves_at_bind; [exact _|done|intros a s1 _; by apply moves_at_moves]. Qed.

Lemma quiesce_row_keeps g now key : moves keeps (quiesce_row g now key).
Proof.
  unfold quiesce_row. apply moves_get_at. intros s.
  destruct (t_projections s !! key) as [p|] eqn:Hp; [|apply moves_at_moves; solve_moves].
  destruct (eqb (ro_state p) "planned") eqn:Hs; bool_facts.
  { apply keeps_at_then; [|intros; solve_moves]. eapply put_open_projection; [done..|congruence]. }
  destruct (eqb (ro_state p) "queued") eqn:Hq; [|apply moves_at_moves; solve_moves]. bool_facts.
  destruct (ro_agent_operation_id p) as [id|]; [|apply moves_at_moves; solve_moves].
  destruct (t_operations s !! id) as [o|] eqn:Ho; [|apply moves_at_moves; solve_moves].
  at_read. destruct (eqb (so_state o) "queued").
  { apply moves_at_bind; [exact _|apply moves_at_moves; solve_moves|intros ? s1 [= _ <-]].
    apply keeps_at_then; [|intros; solve_moves]. eapply (put_open_projection s); [done..|congruence]. }
  destruct (negb _); [apply moves_at_moves; solve_moves|].
  destruct (attempt_of s id _) as [[fence a']|] eqn:Ha; [|apply moves_at_moves; solve_moves]. at_read. cbv zeta.
  apply moves_at_bind; [exact _|apply moves_at_moves; solve_moves|intros ? s1 [= _ <-]].
  apply keeps_at_then; [|intros; solve_moves]. eapply (put_open_projection s); [done..|congruence].
Qed.

Lemma quiesce_pending_keeps g now keys : moves keeps (quiesce_pending g now keys).
Proof.
  induction keys as [|key keys IH]; cbn; [solve_moves|].
  apply moves_bind; [exact _|apply quiesce_row_keeps|intros u]. solve_moves.
Qed.

Lemma quiesce_role_keeps i cx role : moves keeps (quiesce_role i cx role).
Proof. unfold quiesce_role. apply moves_bind; [exact _|solve_moves|intros s]. apply quiesce_pending_keeps. Qed.

Lemma sweep_row_keeps now key : moves keeps (sweep_row now key).
Proof.
  unfold sweep_row. apply moves_get_at. intros s.
  destruct (t_projections s !! key) as [p|] eqn:Hp; [|apply moves_at_moves; solve_moves].
  destruct (eqb (ro_state p) "queued") eqn:Hq; [|apply moves_at_moves; solve_moves]. bool_facts.
  destruct (ro_agent_operation_id p) as [id|]; [|apply moves_at_moves; solve_moves].
  destruct (t_operations s !! id) as [o|] eqn:Ho; [|apply moves_at_moves; solve_moves].
  destruct (negb _); [apply moves_at_moves; solve_moves|].
  destruct (attempt_of s id _) as [[fence a]|] eqn:Ha; [|apply moves_at_moves; solve_moves].
  destruct (negb _); [apply moves_at_moves; solve_moves|].
  apply moves_at_bind; [exact _|apply moves_at_moves; solve_moves|intros ? s1 [= _ <-]].
  apply moves_at_bind; [exact _|apply moves_at_moves; solve_moves|intros ? s2 [= _ <-]].
  apply keeps_at_then; [|intros; solve_moves]. eapply (put_open_projection s); [done..|congruence].
Qed.

Lemma sweep_rows_keeps now keys : moves keeps (sweep_rows now keys).
Proof.
  induction keys as [|key keys IH]; cbn; [solve_moves|].
  apply moves_bind; [exact _|apply sweep_row_keeps|intros u]. solve_moves.
Qed.

#[export] Hint Resolve quiesce_pending_keeps quiesce_role_keeps sweep_rows_keeps : py.

(** ** The projections of a reconciliation *)

Lemma role_projections_elem s id role key p :
  (key, p) ∈ role_projections s id role ↔
  t_projections s !! key = Some p ∧ ro_reconciliation_id p = id ∧ ro_role p = role.
Proof.
  unfold role_projections, projections_of. rewrite list_elem_of_filter, merge_sort_Permutation, list_elem_of_filter.
  rewrite elem_of_map_to_list. naive_solver.
Qed.

Lemma role_projections_nodup s id role : NoDup (role_projections s id role).
Proof.
  unfold role_projections, projections_of. apply NoDup_filter. rewrite merge_sort_Permutation.
  apply NoDup_filter, NoDup_map_to_list.
Qed.

Definition operation_ids (rows : list (string * ReconciliationOperation)) : list string :=
  (λ p : string * ReconciliationOperation, ro_graph_operation_id p.2) <$> rows.

Lemma projection_ids_nodup s id role : wf s → NoDup (operation_ids (role_projections s id role)).
Proof.
  intros Hw. apply NoDup_fmap_2_strong; [|apply role_projections_nodup]. intros [k q] [k' q'] Hq Hq' E. cbn in E.
  apply role_projections_elem in Hq as (Hq & E1 & E2), Hq' as (Hq' & E1' & E2').
  assert (k = k') as -> by (eapply (wf_unique _ Hw); [done..|]; unfold ident; congruence). congruence.
Qed.

Lemma projection_ids_graph s id r g document :
  wf s → t_reconciliations s !! id = Some r → validated_plan id r = Ok (g, document) →
  operation_ids (role_projections s id "primary") ⊆ (op_id <$> graph_nodes g).
Proof.
  intros Hw Hr Hv x ([k q] & -> & (Hq & Hid & Hrole)%role_projections_elem)%list_elem_of_fmap. cbn.
  eapply (wf_graph _ Hw k q r); rewrite ?Hid; done.
Qed.

Section service.
Context (redact_text : string → string) (publisher : option Publisher).
Context (endpoint_resolver : control_db → string → result (string * Z)).
Context (authority : authority_mode).
Context {prepared : Type} (update_authorizer : option (UpdateAuthorizer prepared)).
Context (publication_lease_seconds : Z).
Context (i : inputs).

Lemma wait_for_operator_keeps cx reason : moves keeps (wait_for_operator redact_text i cx reason).
Proof. unfold wait_for_operator. solve_moves. Qed.
Lemma finish_failed_keeps cx : moves keeps (finish_failed i cx).
Proof. unfold finish_failed. solve_moves. Qed.
#[local] Hint Resolve wait_for_operator_keeps finish_failed_keeps : py.

Lemma quiesce_unavailable_keeps cx reason :
  moves keeps (quiesce_for_unavailable_target redact_text i cx reason).
Proof. unfold quiesce_for_unavailable_target. solve_moves. Qed.
Lemma sweep_keeps cx : moves keeps (sweep_expired_mutations redact_text i cx).
Proof. unfold sweep_expired_mutations. solve_moves. Qed.
Lemma quiesce_and_wait_keeps cx reason : moves keeps (quiesce_and_wait redact_text i cx reason).
Proof. unfold quiesce_and_wait. solve_moves. Qed.
Lemma primary_failure_keeps cx n reason : moves keeps (handle_primary_failure redact_text i cx n reason).
Proof. unfold handle_primary_failure. solve_moves. Qed.
#[local] Hint Resolve quiesce_unavailable_keeps sweep_keeps quiesce_and_wait_keeps primary_failure_keeps : py.

Lemma quiesce_both_keeps cx : moves keeps (quiesce_both i cx).
Proof. unfold quiesce_both. solve_moves. Qed.
#[local] Hint Resolve quiesce_both_keeps : py.

Lemma apply_cancellation_keeps cx c : moves keeps (apply_cancellation redact_text i cx c).
Proof.
  unfold apply_cancellation, cancel_historical, cancel_owner, cancelled_job, set_cancellation. solve_moves.
Qed.
#[local] Hint Resolve apply_cancellation_keeps : py.

Lemma advance_cancellation_keeps cx c : moves keeps (advance_cancellation redact_text publisher i cx c).
Proof. unfold advance_cancellation. solve_moves. Qed.
#[local] Hint Resolve advance_cancellation_keeps : py.

Lemma cancellation_step_keeps cx phase c : moves keeps (cancellation_step redact_text publisher i cx phase c).
Proof. unfold cancellation_step. solve_moves. Qed.
Lemma hand_over_keeps cx : moves keeps (hand_over publisher i cx).
Proof. unfold hand_over. solve_moves. Qed.
Lemma lose_authority_keeps cx phase reason : moves keeps (lose_authority redact_text publisher i cx phase reason).
Proof. unfold lose_authority. solve_moves. Qed.
Lemma begin_withdrawal_keeps cx r : moves keeps (begin_withdrawal i cx r).
Proof. unfold begin_withdrawal. solve_moves. Qed.
#[local] Hint Resolve cancellation_step_keeps hand_over_keeps lose_authority_keeps begin_withdrawal_keeps : py.

(** ** Results *)

Lemma projection_of_Some s operation_id key p :
  projection_of s operation_id = Some (key, p) →
  t_projections s !! key = Some p ∧ ro_agent_operation_id p = Some operation_id.
Proof. unfold projection_of. intros [? ?]%find_row_Some. by bool_facts. Qed.

Lemma expected_phase_away s r p :
  t_reconciliations s !! ro_reconciliation_id p = Some r → rec_current_phase r = expected_phase p →
  away s (ro_reconciliation_id p).
Proof.
  intros Hr Hp r' Hr' Hin. assert (r' = r) as -> by congruence. unfold in_stage in Hin. rewrite Hp in Hin.
  unfold expected_phase in Hin. apply among_true in Hin. by destruct (eqb _ _).
Qed.

Lemma apply_result_keeps s cx key p n kind payload m :
  t_projections s !! key = Some p → away s (ro_reconciliation_id p) →
  moves_at keeps s (apply_result redact_text i cx key p n kind payload m).
Proof.
  intros Hp Ha. unfold apply_result. cbv zeta.
  assert (∀ q, t_projections s !! key = Some q → ro_role q = "primary" → ro_state q = "accepted" →
            away s (ro_reconciliation_id q)) as Haway by (intros q Hq _ _; by assert (q = p) as -> by congruence).
  destruct (eqb (result_state m) "succeeded").
  - apply moves_at_read; [exact _|apply reads_lift|intros [rd ed] _]. by apply alter_projection_keeps.
  - apply keeps_at_then; [by apply alter_projection_keeps|intros ?; solve_moves].
Qed.

Lemma consume_result_keeps prefetched operation_id fence m :
  moves keeps (consume_result redact_text endpoint_resolver authority i prefetched operation_id fence m).
Proof.
  unfold consume_result. apply moves_get_at. intros s.
  destruct (projection_of s operation_id) as [[key p]|] eqn:Hproj; [|apply moves_at_moves; solve_moves].
  apply projection_of_Some in Hproj as [Hp _].
  assert (reads (reconciliation_row (ro_reconciliation_id p))) as Hread
    by (apply reads_moves; unfold reconciliation_row; solve_moves).
  apply moves_at_read; [exact _|exact Hread|intros r [_ Hr]%reconciliation_row_ok].
  destruct (t_operations s !! operation_id) as [o|]; [|apply moves_at_moves; solve_moves].
  destruct (t_attempts s !! fence) as [a|]; [|apply moves_at_moves; solve_moves].
  destruct (t_jobs s !! so_parent_job_id o) as [j|]; [|apply moves_at_moves; solve_moves].
  at_read. apply moves_at_read; [exact _|apply reads_lift|intros [g document] _].
  at_read. apply moves_at_read; [exact _|apply reads_lift|intros [kind payload] _]. at_read.
  apply moves_at_read; [exact _|apply reads_lift|intros ? [Hphase _]%lift_ok].
  apply ensure_ok in Hphase. bool_facts. pose proof (expected_phase_away _ _ _ Hr Hphase) as Ha.
  at_read. case_match; [|by apply apply_result_keeps]. cbv zeta.
  apply moves_at_bind; [exact _|apply moves_at_moves; solve_moves|intros ? s1 [= _ <-]].
  apply moves_at_bind; [exact _|apply moves_at_moves; solve_moves|intros ? s2 [= _ <-]].
  apply keeps_at_then; [by eapply put_projection_keeps|intros; solve_moves].
Qed.

(** ** Dispatching *)

(** The steps that follow [s0] in one transaction. *)
Definition after (s0 s s' : control_db) : Prop := keeps s0 s → keeps s s'.

#[export] Instance after_preorder s0 : PreOrder (after s0).
Proof.
  split; [intros s _; reflexivity|]. intros s1 s2 s3 H12 H23 H01. specialize (H12 H01). etrans; [exact H12|]. apply H23. by etrans.
Qed.

Lemma after_at {A} s0 (m : M control_db A) : moves (after s0) m → moves_at keeps s0 m.
Proof. intros H. by apply H. Qed.

Lemma keeps_after {A} s0 (m : M control_db A) : moves keeps m → moves (after s0) m.
Proof. intros H s _. apply H. Qed.
#[local] Hint Resolve keeps_after : py.

Lemma begin_dispatch_keeps s cx r : ctx_ok s cx r → moves_at keeps s (begin_dispatch i cx).
Proof.
  intros [Hr Hv _]. unfold begin_dispatch. apply moves_at_read; [exact _|apply reads_get|intros ? [= <-]].
  apply after_at. apply moves_bind; [exact _| |intros ?; solve_moves]. apply moves_eachM_in; [exact _|].
  intros n [_ Hn]%list_elem_of_filter s1 Hs1. apply insert_projection_keeps.
  destruct (keeps_plan _ _ Hs1 _ _ Hr) as (r1 & Hr1 & Hplan). exists r1. split; [done|]. cbn.
  rewrite (plan_of_validated _ _ _ Hplan), Hv. intros _ g document [= <- <-]. by apply list_elem_of_fmap_2.
Qed.

Lemma insert_operation_keeps id o : moves keeps (insert_operation id o).
Proof. unfold insert_operation. solve_moves. Qed.
#[local] Hint Resolve insert_operation_keeps : py.

Lemma enqueue_node_keeps cx r n kind payload : moves keeps (enqueue_node update_authorizer i cx r n kind payload).
Proof. unfold enqueue_node, enqueue_in_session. solve_moves. Qed.
#[local] Hint Resolve enqueue_node_keeps : py.

(** As many accepted projections as operations: every operation is accepted. *)
Lemma all_accepted s cx r : wf s → ctx_ok s cx r →
  length (role_projections s (cx_id cx) "primary") = length (graph_nodes (cx_graph cx)) →
  Forall (λ p, ro_state p.2 = "accepted") (role_projections s (cx_id cx) "primary") →
  Forall (λ n, accepted_row s (cx_id cx) (op_id n)) (graph_nodes (cx_graph cx)).
Proof.
  intros Hw [Hr Hv _] Hlen Hall. set (rows := role_projections _ _ _) in *.
  assert (operation_ids rows ≡ₚ op_id <$> graph_nodes (cx_graph cx)) as Hperm.
  { apply submseteq_length_Permutation; [|unfold operation_ids; by rewrite !length_fmap, Hlen].
    apply NoDup_submseteq; [by apply projection_ids_nodup|by eapply projection_ids_graph]. }
  apply Forall_forall. intros n Hn. assert (op_id n ∈ operation_ids rows) as Hin by (rewrite Hperm; by apply list_elem_of_fmap_2).
  apply list_elem_of_fmap in Hin as ([k q] & Hf & Hq). rewrite Forall_forall in Hall. specialize (Hall _ Hq).
  apply role_projections_elem in Hq as (Hq & Hid & Hrole). exists k, q. split_and!; [done| |done].
  unfold ident. cbn in Hf. by rewrite Hid, Hrole, Hf.
Qed.

(** The same while the rows of the reconciliations stay as they were. *)
Definition after_rows (s0 s s' : control_db) : Prop :=
  keeps s0 s ∧ same_rows s0 s → keeps s s' ∧ same_rows s s'.

#[export] Instance after_rows_preorder s0 : PreOrder (after_rows s0).
Proof.
  split; [intros s _; by split|]. intros s1 s2 s3 H12 H23 [H01 R01]. destruct (H12 (conj H01 R01)) as [K12 R12].
  destruct H23 as [K23 R23]; [split; by etrans|]. split; by etrans.
Qed.

Lemma after_rows_at {A} s0 (m : M control_db A) : moves (after_rows s0) m → moves_at keeps s0 m.
Proof. intros H. apply (H s0). split; reflexivity. Qed.

Lemma after_rows_moves {A} s0 (m : M control_db A) : moves keeps m → moves same_rows m → moves (after_rows s0) m.
Proof. intros Hk Hr s _. split; [apply Hk|apply Hr]. Qed.

Lemma enqueue_node_rows cx r n kind payload : moves same_rows (enqueue_node update_authorizer i cx r n kind payload).
Proof.
  unfold enqueue_node, enqueue_in_session. repeat first [apply insert_operation_rows | moves_step].
Qed.

(** A projection of a reconciliation before the stages is queued. *)
Lemma queue_projection_keeps s0 cx key p id :
  t_projections s0 !! key = Some p → (ro_role p = "primary" → ro_reconciliation_id p = cx_id cx ∧ away s0 (cx_id cx)) →
  moves (after_rows s0) (alter_projection key (queued_as id)).
Proof.
  intros Hp Ha s [Hk Hrows]. split; [|done]. apply alter_projection_keeps; [done|]. intros q Hq Hrole _.
  destruct (keeps_ident _ _ Hk _ _ Hp) as (q' & Hq' & Hid). assert (q' = q) as -> by congruence.
  unfold ident in Hid. injection Hid as E1 _ E3. destruct Ha as [Hc Haway]; [congruence|].
  rewrite E1, Hc. intros r. rewrite Hrows. apply Haway.
Qed.

Lemma dispatch_node_keeps s0 cx r by_id operation_id :
  (∀ key p, (key, p) ∈ by_id → t_projections s0 !! key = Some p ∧ ro_reconciliation_id p = cx_id cx) →
  away s0 (cx_id cx) → moves (after_rows s0) (dispatch_node update_authorizer i cx r by_id operation_id).
Proof.
  intros Hrows Ha. unfold dispatch_node. do 2 (apply moves_lift_bind; [exact _|intros ? _]).
  apply moves_bind; [exact _|apply after_rows_moves; [solve_moves|apply enqueue_node_rows]|intros id].
  destruct (find _ by_id) as [[key p]|] eqn:Hf; [|solve_moves].
  apply find_some in Hf as [Hin%list_elem_of_In _]. destruct (Hrows _ _ Hin).
  eapply (queue_projection_keeps s0 cx); eauto.
Qed.

Lemma dispatch_primary_keeps s cx r : ctx_ok s cx r → rec_current_phase r = "dispatching" →
  moves_at keeps s (dispatch_primary update_authorizer i cx).
Proof.
  intros Hctx Hphase. unfold dispatch_primary. apply moves_at_read; [exact _|apply reads_get|intros ? [= <-]].
  apply moves_at_read; [exact _|apply reads_lift|intros ? [Hlen%ensure_ok _]%lift_ok]. apply Nat.eqb_eq in Hlen.
  destruct (forallb _ _) eqn:Hall.
  - apply keeps_at_then; [|intros; solve_moves]. unfold moves_at, alter_reconciliation, modify. cbn.
    unfold set_t_reconciliations at 1. rewrite (alter_insert _ _ _ _ (ctx_row _ _ _ Hctx)).
    eapply (keeps_put_row s (cx_id cx) r); [apply Hctx|done|]. intros Hw _. right. intros r' g document. cbn.
    rewrite lookup_insert_eq. intros [= <-] Hv. rewrite (plan_of_validated _ r) in Hv by done.
    rewrite (ctx_plan _ _ _ Hctx) in Hv. injection Hv as <- <-. refine (all_accepted s cx r Hw Hctx Hlen _).
    apply forallb_Forall in Hall. eapply Forall_impl; [exact Hall|]. cbn. intros p. apply eqb_true.
  - assert (away s (cx_id cx)) as Ha.
    { intros r'. rewrite (ctx_row _ _ _ Hctx). intros [= <-] Hin%among_true. by rewrite Hphase in Hin. }
    apply after_rows_at.
    apply moves_bind; [exact _|apply after_rows_moves; [solve_moves|unfold reconciliation_row; solve_moves]|].
    intros row. apply moves_bind; [exact _| |intros ?; solve_moves]. apply moves_eachM; [exact _|intros id].
    apply dispatch_node_keeps; [|done]. intros key p (? & ? & _)%role_projections_elem. done.
Qed.

Lemma compensate_node_keeps s cx r operation_id :
  ctx_ok s cx r → moves_at keeps s (compensate_node update_authorizer i cx operation_id).
Proof.
  intros Hctx. unfold compensate_node. do 3 at_read. cbv zeta.
  apply moves_at_bind; [exact _|apply insert_projection_keeps|].
  { exists r. split; [apply Hctx|done]. }
  intros ? s1 Hins. unfold insert_projection, put_projection in Hins. inv_run_all.
  apply after_rows_at.
  apply moves_bind; [exact _|apply after_rows_moves; [solve_moves|unfold reconciliation_row; solve_moves]|].
  intros row. apply moves_bind; [exact _|apply after_rows_moves; [solve_moves|apply enqueue_node_rows]|intros id].
  eapply (queue_projection_keeps _ cx); [apply lookup_insert_eq|by intros [=]].
Qed.

Lemma compensate_next_keeps s cx r existing ordered : ctx_ok s cx r →
  moves_at keeps s (compensate_next redact_text update_authorizer i cx existing ordered).
Proof.
  intros Hctx. induction ordered as [|id ordered IH]; cbn; [apply moves_at_moves; solve_moves|].
  destruct (among _ _); [apply moves_at_moves; solve_moves|]. destruct (eqb _ _); [done|].
  destruct (among _ _); [apply moves_at_moves; solve_moves|].
  apply keeps_at_then; [by eapply compensate_node_keeps|intros; solve_moves].
Qed.

(** ** Publishing *)

Lemma next_generation_calm : moves calm (on_reconciliations next_completion_generation).
Proof.
  apply moves_zoom. intros t s <-. unfold next_completion_generation, mbind, M_bind, get, lift, ensure, modify.
  cbn. destruct (_ && _); cbn; by split.
Qed.

Lemma complete_reconciliation_keeps s cx r :
  t_reconciliations s !! cx_id cx = Some r → in_stage r → moves_at keeps s (complete_reconciliation cx).
Proof.
  intros Hr Hs. unfold complete_reconciliation.
  assert (reads (reconciliation_row (cx_id cx))) as Hread
    by (apply reads_moves; unfold reconciliation_row; solve_moves).
  apply moves_at_read; [exact _|exact Hread|intros r' [_ Hr']%reconciliation_row_ok].
  destruct (rec_completion_generation r').
  - by eapply (alter_stage_keeps s _ r).
  - apply moves_at_bind; [exact _|apply moves_at_moves, moves_calm_keeps, next_generation_calm|intros g s1 Hg].
    apply (moves_run _ _ _ _ _ next_generation_calm) in Hg.
    apply moves_at_read; [exact _|apply reads_get|intros ? [= <-]]. at_read.
    eapply (alter_stage_keeps _ _ r); [by rewrite (calm_reconciliations _ _ Hg)|done|done].
Qed.

Lemma publish_routes_keeps s cx r publication :
  t_reconciliations s !! cx_id cx = Some r → in_stage r →
  moves_at keeps s (publish_routes publisher endpoint_resolver publication_lease_seconds i cx r publication).
Proof.
  intros Hr Hs. unfold publish_routes. apply moves_at_read; [exact _|apply reads_get|intros ? [= <-]]. at_read.
  destruct publisher as [p|]; [|apply moves_at_moves; solve_moves]. at_read.
  apply moves_at_bind; [exact _|apply moves_at_moves; solve_moves|intros ? s1 Hm].
  apply (moves_run _ _ _ _ _ (store_marker_still _ _ _)) in Hm as [Hm _].
  apply keeps_at_then; [|intros; solve_moves].
  eapply complete_reconciliation_keeps; [by rewrite (calm_reconciliations _ _ Hm)|done].
Qed.

Lemma renew_routes_keeps s cx r released :
  t_reconciliations s !! cx_id cx = Some r → in_stage r → moves_at keeps s (renew_routes publisher i cx released).
Proof.
  intros Hr Hs. unfold renew_routes.
  apply moves_at_bind; [exact _|apply moves_at_moves; solve_moves|intros grant s1 Hl].
  apply (moves_run _ _ _ _ _ (ensure_node_lease_calm _ _)) in Hl.
  destruct (is_None_b grant); [apply moves_at_moves; solve_moves|].
  apply moves_at_bind; [exact _|apply moves_at_moves; solve_moves|intros ? s2 Hm].
  apply (moves_run _ _ _ _ _ (withdraw_routes_still _ _ _)) in Hm as [Hm _].
  apply keeps_at_then; [|intros; solve_moves].
  eapply (alter_stage_keeps _ _ r); [by rewrite (calm_reconciliations _ _ Hm), (calm_reconciliations _ _ Hl)|done|done].
Qed.

Lemma accept_evidence_keeps s cx r publication :
  t_reconciliations s !! cx_id cx = Some r → in_stage r → moves_at keeps s (accept_evidence cx publication).
Proof.
  intros Hr Hs. unfold accept_evidence. apply moves_at_read; [exact _|apply reads_get|intros ? [= <-]]. at_read.
  apply moves_at_bind; [exact _|apply moves_at_moves; solve_moves|intros ? s1 [= _ <-]]. by eapply (alter_stage_keeps _ _ r).
Qed.

Lemma phase_in_stage r phase : rec_current_phase r = phase → among phase stages = true → in_stage r.
Proof. intros <-. apply among_true. Qed.

Lemma advance_phase_keeps s cx r released automatic : ctx_ok s cx r →
  moves_at keeps s (advance_phase redact_text publisher endpoint_resolver update_authorizer
                      publication_lease_seconds i cx r released automatic).
Proof.
  intros Hctx. pose proof (ctx_row _ _ _ Hctx) as Hr. unfold advance_phase. cbv zeta.
  assert (reads (publication_row (cx_id cx))) as Hread by (apply reads_moves; unfold publication_row; solve_moves).
  apply moves_at_read; [exact _|exact Hread|intros publication _].
  apply moves_at_read; [exact _|apply reads_get|intros ? [= <-]].
  destruct (eqb _ "completed" && _ && _); [apply moves_at_moves; solve_moves|].
  destruct (among _ _ && _); [apply moves_at_moves; solve_moves|].
  destruct (eqb _ "routes-withdrawn"); [by eapply begin_dispatch_keeps|].
  destruct (eqb _ "dispatching") eqn:H1; bool_facts.
  { apply keeps_at_then; [by eapply dispatch_primary_keeps|intros; solve_moves]. }
  destruct (eqb _ "accepting") eqn:H2; bool_facts.
  { apply keeps_at_then; [eapply accept_evidence_keeps; [done|by eapply phase_in_stage]|intros; solve_moves]. }
  destruct (eqb _ "publication-pending") eqn:H3; bool_facts.
  { apply keeps_at_then; [eapply publish_routes_keeps; [done|by eapply phase_in_stage]|intros; solve_moves]. }
  destruct (eqb _ "completed") eqn:H4; bool_facts.
  { eapply renew_routes_keeps; [done|by eapply phase_in_stage]. }
  destruct (eqb _ "compensating"); [|apply moves_at_moves; solve_moves]. unfold compensation_phase, dispatch_compensation.
  apply keeps_at_then; [|intros; solve_moves]. apply moves_at_read; [exact _|apply reads_get|intros ? [= <-]].
  by eapply compensate_next_keeps.
Qed.

Lemma execute_keeps s cx r prefetched released automatic : ctx_ok s cx r →
  ∀ b s', execute redact_text publisher endpoint_resolver authority update_authorizer
            publication_lease_seconds i prefetched cx r released automatic s = (Ok b, s') → keeps s s'.
Proof.
  intros Hctx b s' H.
  destruct (execute_cases _ _ _ _ _ _ _ _ _ _ _ _ _ _ _ H) as [H'|[H' _]|s1 [H1 _] _ H'|s1 reason [H1 _] H'|s1 [H1 _] _ H'
    |s1 s2 [H1 _] [H2 _] _ _ H'].
  - by eapply moves_run; [apply sweep_keeps|].
  - by apply calm_keeps.
  - etrans; [by apply calm_keeps|]. by eapply moves_run; [apply hand_over_keeps|].
  - etrans; [by apply calm_keeps|]. by eapply moves_run; [apply lose_authority_keeps|].
  - etrans; [by apply calm_keeps|]. by eapply moves_run; [apply begin_withdrawal_keeps|].
  - assert (calm s s2) as Hc by by etrans. etrans; [by apply calm_keeps|].
    eapply moves_at_run; [|exact H']. eapply advance_phase_keeps. by eapply ctx_ok_calm.
Qed.

Lemma tick_candidate_keeps prefetched id automatic :
  moves keeps (tick_candidate redact_text publisher endpoint_resolver authority update_authorizer
                 publication_lease_seconds i prefetched id automatic).
Proof.
  intros s. destruct (tick_candidate _ _ _ _ _ _ _ _ _ _ s) as [[b|e] s'] eqn:H; cbn;
    [|apply transaction_err in H as ->; reflexivity].
  apply tick_cases in H as (cx & r & <- & Hctx & [Hc|s1 c Hc _ H|s0 s1 s2 released Hc0 Hmissing Hc1 _ _ H]).
  - by apply calm_keeps.
  - etrans; [by apply calm_keeps|]. by eapply moves_run; [apply cancellation_step_keeps|].
  - assert (calm s s2) as Hc.
    { etrans; [done|]. etrans; [|done]. by eapply moves_run; [apply lease_missing_calm|]. }
    etrans; [by apply calm_keeps|]. eapply execute_keeps; [by eapply ctx_ok_calm|done].
Qed.

End service.
