(* ===== verification/PublishedEvidence.v ===== *)
(** * Reachable databases of the control plane

    The agent queue and the reconciliation service as one system: every
    transaction of both keeps the evidence of [ReconciliationEvidence], so in every
    database they lead to a reconciliation whose routes may be published has
    accepted evidence for each operation of its graph. *)

From S2P Require Import Prelude Identifiers Canonical Documents Contracts PackageEngine Protocol.
From S2P Require Import OperationGraph Orchestration OrchestrationFacts NodeLeases Jobs AgentTables AgentJobs AgentJobsFacts.
From S2P Require Import Routes AgentReconciliation Waves ReconciliationQuiet ReconciliationFacts ReconciliationEvidence.

(** ** Stopping a reconciliation from the queue *)

(** The projections of [rid] may change; everything else the evidence is read
    from stays. *)
Record disturbs (rid : string) (s s' : control_db) : Prop := {
  dist_rows : t_reconciliations s' = t_reconciliations s;
  dist_jobs : t_jobs s' = t_jobs s;
  dist_projections key : t_projections s' !! key = t_projections s !! key ∨
    ∃ p p', t_projections s !! key = Some p ∧ t_projections s' !! key = Some p' ∧ ident p' = ident p
            ∧ ro_reconciliation_id p = rid
}.

#[export] Instance disturbs_preorder rid : PreOrder (disturbs rid).
Proof.
  split; [intros s; split; auto|]. intros s1 s2 s3 [R12 J12 P12] [R23 J23 P23].
  split; [congruence|congruence|]. intros key.
  destruct (P12 key) as [E12|(p & p' & Hp & Hp' & Hi & Hr)], (P23 key) as [E23|(q & q' & Hq & Hq' & Hi' & Hr')].
  - left. congruence.
  - right. exists q, q'. by rewrite <- E12.
  - right. exists p, p'. by rewrite E23.
  - right. exists p, q'. assert (q = p') as -> by congruence. split_and!; [done..|congruence|done].
Qed.

Lemma disturbs_frame rid s s' : t_reconciliations s' = t_reconciliations s → t_jobs s' = t_jobs s →
  t_projections s' = t_projections s → disturbs rid s s'.
Proof. intros Hr Hj Hp. split; [done..|]. intros key. left. by rewrite Hp. Qed.

(** A write to a projection that was read earlier in the transaction. *)
Definition disturbs_after rid (s0 s s' : control_db) : Prop := disturbs rid s0 s → disturbs rid s s'.

#[export] Instance disturbs_after_preorder rid s0 : PreOrder (disturbs_after rid s0).
Proof.
  split; [intros s _; reflexivity|]. intros s1 s2 s3 H12 H23 H01. specialize (H12 H01).
  etrans; [exact H12|]. apply H23. by etrans.
Qed.

Lemma disturbed_lookup rid s0 s key p : disturbs rid s0 s → t_projections s0 !! key = Some p →
  ∃ q, t_projections s !! key = Some q ∧ ident q = ident p.
Proof.
  intros [_ _ HP] Hp. destruct (HP key) as [E|(q & q' & Hq & Hq' & Hi & _)].
  - exists p. by rewrite E.
  - exists q'. split; [done|]. assert (q = p) as -> by congruence. done.
Qed.

Lemma disturbs_put s key p p' : t_projections s !! key = Some p → ident p' = ident p →
  disturbs (ro_reconciliation_id p) s (set_t_projections <[key := p']> s).
Proof.
  intros Hp Hi. split; [done..|]. intros k. cbn. destruct (decide (k = key)) as [->|Hne].
  - right. exists p, p'. by rewrite lookup_insert_eq.
  - left. by rewrite lookup_insert_ne.
Qed.

Lemma put_projection_disturbs rid s0 key p state :
  t_projections s0 !! key = Some p → ro_reconciliation_id p = rid →
  moves (disturbs_after rid s0) (put_projection key (with_ro_state state p)).
Proof.
  intros Hp <-. apply moves_modify. intros s Hs. destruct (disturbed_lookup _ _ _ _ _ Hs Hp) as (q & Hq & Hi).
  assert (ro_reconciliation_id p = ro_reconciliation_id q) as -> by (unfold ident in Hi; congruence).
  by apply disturbs_put.
Qed.

Lemma put_operation_disturbs rid s0 id o : moves (disturbs_after rid s0) (put_operation id o).
Proof. apply moves_modify. intros s _. by apply disturbs_frame. Qed.
Lemma put_attempt_disturbs rid s0 fence a : moves (disturbs_after rid s0) (put_attempt fence a).
Proof. apply moves_modify. intros s _. by apply disturbs_frame. Qed.
#[local] Hint Resolve put_projection_disturbs put_operation_disturbs put_attempt_disturbs : py.

Lemma quiesce_disturbs rid now s : disturbs rid s (quiesce_reconciliation_operations rid now s).2.
Proof.
  assert (moves_at (disturbs_after rid s) s (quiesce_reconciliation_operations rid now)) as H; [|by apply H].
  unfold quiesce_reconciliation_operations. apply moves_at_read; [exact _|apply reads_get|intros ? [= <-]].
  apply moves_at_moves, moves_eachM_in; [exact _|]. intros [key p] Hin.
  unfold projections_of in Hin. rewrite merge_sort_Permutation, list_elem_of_filter in Hin.
  destruct Hin as [Hrid Hin%elem_of_map_to_list]. cbn in Hrid. unfold quiesce_projection. solve_moves.
Qed.

(** The reconciliation leaves the stages with its projections disturbed. *)
Lemma stopped_keeps s s1 rid r reason :
  disturbs rid s s1 → t_reconciliations s !! rid = Some r →
  keeps s (set_t_reconciliations <[rid := stopped_reconciliation reason r]> s1).
Proof.
  intros [HR _ HP] Hr. split; cbn; rewrite ?HR.
  - intros id x Hx. destruct (decide (id = rid)) as [->|Hne].
    + rewrite lookup_insert_eq. assert (x = r) as -> by congruence. eauto.
    + rewrite lookup_insert_ne by done. eauto.
  - intros key p Hp. destruct (HP key) as [E|(q & q' & Hq & Hq' & Hi & _)]; [rewrite E; eauto|].
    assert (q = p) as -> by congruence. eauto.
  - assert (∀ key q', t_projections s1 !! key = Some q' →
              ∃ q, t_projections s !! key = Some q ∧ ident q' = ident q) as Hback.
    { intros key q' Hq'. destruct (HP key) as [E|(q & x & Hq & Hx & Hi & _)].
      - exists q'. by rewrite <- E.
      - exists q. assert (x = q') as -> by congruence. done. }
    intros [U G W]. split; cbn.
    + intros k k' q q' (x & Hx & Ex)%Hback (x' & Hx' & Ex')%Hback E. eapply U; [done..|congruence].
    + intros k q x g document (y & Hy & Ey)%Hback. unfold ident in Ey. injection Ey as -> -> ->. intros Hrole Hx Hv.
      rewrite HR in Hx. apply lookup_insert_Some in Hx as [[Hid <-]|[_ Hx]]; [|by eapply G].
      eapply (G k y r); [done..|by rewrite <- Hid|]. by rewrite <- Hv.
    + intros k q (y & Hy & Ey)%Hback. unfold ident in Ey. injection Ey as -> _ _.
      rewrite HR, lookup_insert_is_Some'. right. by eapply W.
  - intros id x _ Hx Hs. apply lookup_insert_Some in Hx as [[<- <-]|[Hne Hx]].
    { apply among_true in Hs. discriminate Hs. }
    left. exists x. split_and!; [done..|]. intros key p Hp Hid _ Hst. cbn.
    destruct (HP key) as [E|(q & _ & Hq & _ & _ & Hrid)]; [exists p; by rewrite E|].
    assert (q = p) as -> by congruence. congruence.
Qed.

Lemma stop_keeps s s1 rid jid reason now r j a s' :
  disturbs rid s s1 → t_reconciliations s !! rid = Some r → t_jobs s !! jid = Some j →
  stop_reconciliation rid jid reason now s1 = (Ok a, s') → keeps s s'.
Proof.
  intros Hd Hr Hj H. unfold stop_reconciliation in H. inv_run_all.
  rewrite (dist_rows _ _ _ Hd), (dist_jobs _ _ _ Hd), Hr, Hj in H. unfold put_reconciliation, put_job in H.
  inv_run_all. etrans; [by eapply stopped_keeps|]. by apply keeps_frame.
Qed.

(** ** Claims *)

Definition commits_keeps {A} (m : M control_db A) : Prop := ∀ s a s', m s = (Ok a, s') → keeps s s'.

Lemma moves_commits {A} (m : M control_db A) : moves keeps m → commits_keeps m.
Proof. intros Hm s a s'. by apply moves_run. Qed.

Lemma authority_commits commit_authority id o now : commits_keeps (claim_has_authority commit_authority id o now).
Proof.
  intros s b s' H. unfold claim_has_authority in H. inv_run_all.
  destruct (t_jobs s !! so_parent_job_id o) as [j|] eqn:Hj; [|by inv_run_all].
  destruct (job_reconciliation_id j) as [rid|].
  - destruct (t_reconciliations s !! rid) as [r|] eqn:Hr; [|by inv_run_all].
    destruct (projection_in s rid id) as [[key p]|]; [|by inv_run_all]. inv_run_all. case_match; inv_run_all; [done|].
    match goal with H : quiesce_reconciliation_operations _ _ _ = (_, ?s1) |- _ =>
      pose proof (quiesce_disturbs rid now s) as Hd; rewrite H in Hd; cbn in Hd end.
    by eapply stop_keeps.
  - revert H. apply moves_run. solve_moves.
Qed.

Lemma project_commits id o now : commits_keeps (project_unsafe_expiry id o now).
Proof.
  intros s b s' H. unfold project_unsafe_expiry in H. inv_run_all.
  destruct (projection_of s id) as [[key p]|] eqn:Hp; [|by inv_run_all]. apply projection_of_Some in Hp as [Hp _].
  destruct (t_reconciliations s !! ro_reconciliation_id p) as [r|] eqn:Hr; [|by inv_run_all].
  destruct (t_jobs s !! so_parent_job_id o) as [j|] eqn:Hj; [|by inv_run_all]. inv_run_all. inv_puts.
  match goal with H : quiesce_reconciliation_operations ?rid _ ?s0 = (_, ?s1) |- _ =>
    pose proof (quiesce_disturbs rid now s0) as Hd; rewrite H in Hd; cbn in Hd end.
  eapply stop_keeps; [etrans; [by apply (disturbs_put s key p (with_ro_state "waiting-for-operator" p))|exact Hd]|done..].
Qed.

Lemma select_commits commit_authority fuel locked node_id now excluded :
  commits_keeps (select_operation commit_authority fuel locked node_id now excluded).
Proof.
  revert excluded. induction fuel as [|fuel IH]; intros excluded s o s' H; cbn in H; [by inv_run_all|]. inv_run_all.
  destruct (next_operation _ _ _ _ _) as [[id op]|]; [|by inv_run_all]. inv_run_all.
  match goal with H : claim_has_authority _ _ _ _ _ = _ |- _ => apply authority_commits in H; etrans; [exact H|] end.
  unfold refreshed in *. inv_run_all.
  do 2 (match goal with H : (if ?b then _ else _) _ = _ |- _ => destruct b; [by inv_run_all|] end).
  inv_run_all. inv_puts. etrans; [|by eapply IH]. by apply keeps_frame.
Qed.

Section system.
Context (redact_text : string → string) (publisher : option Publisher).
Context (endpoint_resolver : control_db → string → result (string * Z)).
Context (authority : authority_mode).
Context {prepared : Type} (update_authorizer : option (UpdateAuthorizer prepared)).
Context (publication_lease_seconds : Z).
Context (commit_authority : option ((string → result bool) * result string)).
Context (contact_consumer : option (AgentSource → M control_db unit)).
Hypothesis contacts_keep : ∀ consume source, contact_consumer = Some consume → moves keeps (consume source).

Lemma aggregate_keeps job now : moves keeps (aggregate_parent redact_text job now).
Proof. unfold aggregate_parent. solve_moves. Qed.
Lemma expire_keeps id o : moves keeps (expire_previous id o).
Proof. unfold expire_previous. solve_moves. Qed.
Lemma contact_keeps source node serial c : moves keeps (consume_contact contact_consumer source node serial c).
Proof.
  unfold consume_contact. destruct source; [|solve_moves].
  apply moves_lift_bind; [exact _|intros ? _]. destruct contact_consumer eqn:Hc; [by eauto|solve_moves].
Qed.
Lemma record_contact_keeps node serial now protocol capabilities runtime :
  moves keeps (record_contact node serial now protocol capabilities runtime).
Proof. unfold record_contact. solve_moves. Qed.
Lemma negotiate_keeps node serial advertised protocol capabilities now :
  moves keeps (negotiate_implementation node serial advertised protocol capabilities now).
Proof. unfold negotiate_implementation, revoke_older. solve_moves. Qed.
Lemma grant_keeps r id o now fence deadline : moves keeps (grant r id o now fence deadline).
Proof. unfold grant, insert_agent_attempt. solve_moves. Qed.
#[local] Hint Resolve aggregate_keeps expire_keeps contact_keeps record_contact_keeps negotiate_keeps grant_keeps : py.

Lemma lock_targets_keeps id : moves keeps (lock_reconciliation_targets id).
Proof. apply moves_reads; [exact _|]. apply lock_targets_reads. Qed.
Lemma require_keeps id : moves keeps (require_active_reconciliation_authority id).
Proof. apply moves_reads; [exact _|]. apply require_authority_reads. Qed.
#[local] Hint Resolve lock_targets_keeps require_keeps : py.

Lemma dispatch_commits r p id o : commits_keeps (dispatch redact_text r p id o).
Proof.
  intros s m s' H. unfold dispatch in H. inv_run_all. destruct (negb _); [by inv_run_all|]. inv_run_all.
  match goal with H : expire_previous _ _ _ = _ |- _ =>
    apply (moves_run _ _ _ _ _ (expire_keeps _ _)) in H; etrans; [exact H|] end.
  destruct (_ && _).
  - inv_run_all. inv_puts.
    match goal with H : project_unsafe_expiry _ _ _ _ = _ |- _ =>
      apply project_commits in H; etrans; [|etrans; [exact H|]]; [by apply keeps_frame|] end.
    match goal with H : (if ?b then _ else _) _ = _ |- _ => destruct b; inv_run_all; [done|] end.
    by eapply moves_run; [apply aggregate_keeps|].
  - revert H. apply moves_run. solve_moves.
Qed.

Lemma claim_once_keeps r p : moves keeps (claim_once redact_text commit_authority contact_consumer r p).
Proof.
  apply moves_committed; [exact _|]. intros s m s' H. inv_run_all.
  match goal with H : match reconciliation_hint _ _ with _ => _ end _ = _ |- _ =>
    etrans; [refine (moves_run _ _ _ _ _ _ H); solve_moves|clear H] end.
  destruct (lock_identity _ _ _) as [[n c]|]; [|by inv_run_all].
  destruct (negb _); [by inv_run_all|]. inv_run_all.
  match goal with H : negotiate_implementation _ _ _ _ _ _ _ = _ |- _ =>
    apply (moves_run _ _ _ _ _ (negotiate_keeps _ _ _ _ _ _)) in H; etrans; [exact H|] end.
  match goal with H : consume_contact _ _ _ _ _ _ = _ |- _ =>
    apply (moves_run _ _ _ _ _ (contact_keeps _ _ _ _)) in H; etrans; [exact H|] end.
  match goal with H : record_contact _ _ _ _ _ _ _ = _ |- _ =>
    apply (moves_run _ _ _ _ _ (record_contact_keeps _ _ _ _ _ _)) in H; etrans; [exact H|] end.
  match goal with H : select_operation _ _ _ _ _ _ _ = _ |- _ => apply select_commits in H; etrans; [exact H|] end.
  case_match; [|by inv_run_all]. case_match. by eapply dispatch_commits.
Qed.

Lemma active_keeps f source now : moves keeps (agent_active contact_consumer f source now).
Proof. unfold agent_active, stale_attempt. solve_moves. Qed.
#[local] Hint Resolve active_keeps : py.

Lemma heartbeat_keeps f progress lease source t now :
  moves keeps (agent_heartbeat contact_consumer f progress lease source t now).
Proof. unfold agent_heartbeat. solve_moves. Qed.

Lemma enqueue_keeps job node kind commit payload target id fence now :
  moves keeps (agent_enqueue update_authorizer job node kind commit payload target id fence now).
Proof.
  unfold agent_enqueue, enqueue_in_session.
  repeat first [apply insert_operation_keeps | moves_step].
Qed.

Lemma finish_keeps i prefetched f state value reason source t now t' :
  moves keeps (agent_finish redact_text contact_consumer
                 (Some (consume_result redact_text endpoint_resolver authority i prefetched))
                 f state value reason source t now t').
Proof.
  unfold agent_finish, observe_probe. repeat first [apply consume_result_keeps | solve [auto 3 with py nocore] | moves_step].
Qed.

Lemma attach_keeps i prefetched id job : moves keeps (attach_job endpoint_resolver authority i prefetched id job).
Proof. unfold attach_job. solve_moves. Qed.
Lemma enqueue_cancel_keeps now id reason actor request :
  moves keeps (enqueue_cancel redact_text now id reason actor request).
Proof. unfold enqueue_cancel. solve_moves. Qed.
#[local] Hint Resolve attach_keeps enqueue_cancel_keeps : py.

Lemma tick_one_keeps i id automatic :
  moves keeps (tick_one redact_text publisher endpoint_resolver authority update_authorizer
                 publication_lease_seconds i id automatic).
Proof.
  unfold tick_one, prepare_authority. repeat first [apply tick_candidate_keeps | solve [auto 3 with py nocore] | moves_step].
Qed.
#[local] Hint Resolve tick_one_keeps : py.

Lemma tick_while_keeps id attempts :
  moves keeps (tick_while redact_text publisher endpoint_resolver authority update_authorizer
                 publication_lease_seconds id attempts).
Proof. induction attempts as [|i attempts IH]; cbn; solve_moves. Qed.
#[local] Hint Resolve tick_while_keeps : py.

(** ** New plans *)

(** The orchestrator's tables, seen in the database. *)
Definition keeps_tables (t t' : tables) : Prop :=
  ∀ s, Tables (t_reconciliations s) (t_completions s) = t →
    keeps s (set_t_completions (λ _, completion_counter t') (set_t_reconciliations (λ _, reconciliations t') s)).

#[export] Instance keeps_tables_preorder : PreOrder keeps_tables.
Proof.
  split.
  - intros t s <-. by apply keeps_frame.
  - intros t1 t2 t3 H12 H23 s Hs. etrans; [by apply H12|].
    apply (H23 (set_t_completions (λ _, completion_counter t2) (set_t_reconciliations (λ _, reconciliations t2) s))).
    by destruct t2.
Qed.

Lemma insert_row_keeps id r : among (rec_current_phase r) stages = false → moves keeps_tables (insert_row id r).
Proof.
  intros Hp t s <-. unfold insert_row, mbind, M_bind, get, lift, ensure, modify. cbn.
  match goal with |- context [if ?b then _ else _] => destruct b eqn:H end; cbn; [|by apply keeps_frame].
  apply andb_true_iff in H as [Hn _]. bool_facts. split; cbn.
  - intros id' x Hx. rewrite lookup_insert_ne by congruence. eauto.
  - eauto.
  - intros [U G W]. split; cbn; [done| |].
    + intros key p x g document Hk Hrole Hx. apply lookup_insert_Some in Hx as [[Hid _]|[_ Hx]]; [|by eapply G].
      destruct (W key p Hk) as [y Hy]. congruence.
    + intros key p Hk. rewrite lookup_insert_is_Some'. right. by eapply W.
  - intros id' x _ Hx Hs. apply lookup_insert_Some in Hx as [[<- <-]|[_ Hx]].
    { apply among_true in Hs. congruence. }
    left. exists x. split_and!; [done..|]. intros key p Hk _ _ ?. by exists p.
Qed.

Lemma create_keeps id now graph digest document :
  moves keeps (on_reconciliations (get_or_create_resolved_plan id now graph digest document)).
Proof.
  apply moves_zoom. change (moves keeps_tables (get_or_create_resolved_plan id now graph digest document)).
  unfold get_or_create_resolved_plan. repeat first [by apply insert_row_keeps | moves_step].
Qed.

(** ** The control plane *)

(** One transaction of a process of the control plane. A step of another service
    leaves the two tables the evidence is read from alone. *)
Inductive control_step (s : control_db) : control_db → Prop :=
| step_plan id now graph digest document :
    control_step s (on_reconciliations (get_or_create_resolved_plan id now graph digest document) s).2
| step_attach i prefetched id job : control_step s (attach_job endpoint_resolver authority i prefetched id job s).2
| step_tick i id automatic :
    control_step s (tick_one redact_text publisher endpoint_resolver authority update_authorizer
                      publication_lease_seconds i id automatic s).2
| step_tick_any i j now :
    control_step s (tick redact_text publisher endpoint_resolver authority update_authorizer
                      publication_lease_seconds i j now s).2
| step_cancel now id reason actor request :
    control_step s (enqueue_cancel redact_text now id reason actor request s).2
| step_request_cancel now i1 i2 i3 id reason request :
    control_step s (request_cancel redact_text publisher endpoint_resolver authority update_authorizer
                      publication_lease_seconds now i1 i2 i3 id reason request s).2
| step_enqueue job node kind commit payload target id fence now :
    control_step s (agent_enqueue update_authorizer job node kind commit payload target id fence now s).2
| step_claim r p : control_step s (claim_once redact_text commit_authority contact_consumer r p s).2
| step_heartbeat f progress lease source t now :
    control_step s (agent_heartbeat contact_consumer f progress lease source t now s).2
| step_finish i prefetched f state value reason source t now t' :
    control_step s (agent_finish redact_text contact_consumer
                      (Some (consume_result redact_text endpoint_resolver authority i prefetched))
                      f state value reason source t now t' s).2
| step_outside s' : t_reconciliations s' = t_reconciliations s → t_projections s' = t_projections s →
    control_step s s'.

Lemma control_step_keeps s s' : control_step s s' → keeps s s'.
Proof.
  destruct 1 as [id now graph digest document|i prefetched id job|i id automatic|i j now|now id reason actor request
    |now i1 i2 i3 id reason request|job node kind commit payload target id fence now|r p
    |f progress lease source t now|i prefetched f state value reason source t now t'|s' Hr Hp].
  - apply create_keeps.
  - apply attach_keeps.
  - apply tick_one_keeps.
  - apply (moves_at_moves keeps). unfold tick. solve_moves.
  - apply enqueue_cancel_keeps.
  - apply (moves_at_moves keeps). unfold request_cancel. solve_moves.
  - apply enqueue_keeps.
  - apply claim_once_keeps.
  - apply heartbeat_keeps.
  - apply finish_keeps.
  - by apply keeps_frame.
Qed.

(** The databases that lead from one without reconciliations. *)
Definition control_reachable (s : control_db) : Prop :=
  ∃ s0, t_reconciliations s0 = ∅ ∧ t_projections s0 = ∅ ∧ rtc control_step s0 s.


Lemma steps_evidence s s' : rtc control_step s s' → evidence_inv s → evidence_inv s'.
Proof. induction 1 as [|s s1 s' Hs _ IH]; [done|]. intros Hi. eapply IH, keeps_inv, Hi. by apply control_step_keeps. Qed.

Lemma reachable_evidence s : control_reachable s → evidence_inv s.
Proof.
  intros (s0 & Hr & Hp & Hs). eapply steps_evidence; [done|].
  split; [split; intros *; rewrite Hp, lookup_empty; discriminate|]. intros id r. by rewrite Hr, lookup_empty.
Qed.

(** C1. In every database the control plane can reach, a reconciliation that accepts
    evidence, is about to publish its routes or has completed holds an accepted
    projection for every operation of its authenticated graph, exactly one per
    operation; a claim, an expired mutation or a cancellation that withdraws an
    acceptance also takes the reconciliation out of these phases. *)
Theorem published_routes_have_evidence s id r g document :
  control_reachable s → t_reconciliations s !! id = Some r → validated_plan id r = Ok (g, document) →
  rec_current_phase r ∈ ["accepting"; "publication-pending"; "completed"] →
  operation_ids (role_projections s id "primary") ≡ₚ (op_id <$> graph_nodes g)
  ∧ Forall (λ p : string * ReconciliationOperation, ro_state p.2 = "accepted") (role_projections s id "primary").
Proof.
  intros [Hw Hi]%reachable_evidence Hr Hv Hs. specialize (Hi _ _ Hr Hs _ _ _ Hr Hv). rewrite Forall_forall in Hi.
  assert (operation_ids (role_projections s id "primary") ≡ₚ (op_id <$> graph_nodes g)) as Hperm.
  { apply NoDup_Permutation; [by apply projection_ids_nodup|by eapply ex_distinct, validated_executable|].
    intros x. split; [by eapply projection_ids_graph|]. intros (n & -> & Hn)%list_elem_of_fmap.
    destruct (Hi n Hn) as (key & p & Hp & [= E1 E2 E3] & _). apply list_elem_of_fmap. exists (key, p).
    split; [done|]. by apply role_projections_elem. }
  split; [done|]. apply Forall_forall. intros [key p] Hin. pose proof Hin as (Hp & Hid & Hrole)%role_projections_elem.
  assert (ro_graph_operation_id p ∈ op_id <$> graph_nodes g) as Hel
    by (rewrite <- Hperm; apply list_elem_of_fmap; by exists (key, p)).
  apply list_elem_of_fmap in Hel as (n & Hn & Hel).
  destruct (Hi n Hel) as (key' & p' & Hp' & [= E1 E2 E3] & Hst).
  assert (key = key') as -> by (eapply (wf_unique _ Hw); [done..|]; unfold ident; congruence). cbn. congruence.
Qed.

End system.
