(* ===== verification/ControlRun.v ===== *)
(** * A reconciliation from its plan to its evidence

    The packages of a rollout are prepared, activated and checked on one node: the
    plan is stored and attached to a job, the routes are withdrawn, the operations
    are dispatched one after the other, claimed and completed by the agent, and
    their evidence is accepted. *)

From S2P Require Import Prelude Identifiers Canonical Documents Contracts PackageEngine Protocol.
From S2P Require Import OperationGraph Orchestration OrchestrationFacts NodeLeases Jobs AgentTables AgentJobs AgentJobsFacts.
From S2P Require Import Routes AgentReconciliation Waves ReconciliationQuiet ReconciliationFacts ReconciliationEvidence PublishedEvidence.

(** ** A plan of two operations *)

Definition run_id : string := "00000000-0000-4000-8000-0000000000aa".

Definition run_payload : json :=
  JObj [("adapter_id", JStr "vllm"); ("release_digest", JStr sample_digest); ("schema_version", JInt 1);
        ("workload_id", JStr "chat")].
Definition run_nodes : list OperationNode :=
  [Node "chat.prepare" sample_target "chat" "workload.prepare" [] None (utf8_digest run_payload);
   Node "chat.start" sample_target "chat" "workload.start" ["chat.prepare"] (Some "workload.stop")
     (utf8_digest run_payload)].
Definition run_document : json :=
  sample_resolved run_nodes [("chat.prepare", run_payload); ("chat.start", run_payload)].

Definition run_db : control_db :=
  ControlDb {[sample_target := sample_agent_node]}
    {["serial" := MkCertificate sample_target 0 1000000000000000 "fingerprint" "active" None]} ∅ ∅
    {[sample_job_id := MkJob "request" "reconcile" "queued" "operator" sample_commit [sample_target] "" JNull
        None None 0 0 0 None]} ∅ ∅ ∅ ∅ ∅ ∅ ∅ ∅ [] ∅ ∅ None None.

(** The ids drawn for the operations. *)
Definition run_uuid (operation : string) : string :=
  if eqb operation "chat.prepare" then "00000000-0000-4000-8000-0000000000a1"
  else "00000000-0000-4000-8000-0000000000a2".

Definition run_inputs (now : Z) : inputs :=
  Inputs (λ _, now) run_uuid run_uuid run_uuid "00000000-0000-4000-8000-0000000000af" (λ l, l).

Definition run_publisher : Publisher :=
  MkPublisher
    (λ id digest _ _, mret (MkMarker 1 1 "withdrawn" id digest sample_digest sample_digest sample_digest 0 0 "d"
                              sample_digest))
    (λ _, raise ERouteRuntime "no routes").

Definition run_resolver (_ : control_db) (_ : string) : result (string * Z) := mret ("10.0.0.1", 0%Z).

(** What the processes of the control plane and the agent do. *)
Inductive action :=
| Plan' | Attach (now : Z) | Tick (now : Z) | Claim (now : Z) (fence : string)
| Report (now : Z) (fence action : string).

(** The result of an operation that did what it was asked for. *)
Definition run_result (action : string) : json :=
  JObj [("status", JStr "ok");
        ("evidence", JObj [("status", JStr "done"); ("action", JStr action); ("workload_id", JStr "chat");
                           ("release_digest", JStr sample_digest); ("evidence_digest", JStr sample_digest)])].

Definition run_request : claim_request :=
  ClaimRequest sample_target "serial" 60 (Some 2%Z) (Some [operation_value WORKLOAD_PREPARE; operation_value WORKLOAD_START]) None None None.

Definition act (s : control_db) (a : action) : control_db :=
  match a with
  | Plan' => (on_reconciliations (get_or_create_resolved_plan run_id 5 (sample_plan_of run_nodes)
                (digest_of run_document) run_document) s).2
  | Attach now => (attach_job run_resolver NoAuthority (run_inputs now) None run_id sample_job_id s).2
  | Tick now => (tick_one (λ r, r) (Some run_publisher) run_resolver NoAuthority (prepared:=unit) None 60
                   (run_inputs now) run_id true s).2
  | Claim now fence => (claim_once (λ r, r) None None run_request (Poll ∅ now now now fence) s).2
  | Report now fence action =>
      (agent_finish (λ r, r) None
         (Some (consume_result (λ r, r) run_resolver NoAuthority (run_inputs now) None))
         (FToken fence) "succeeded" (Some (run_result action)) None None now now now s).2
  end.

Definition run (l : list action) : control_db := foldl act run_db l.
Definition phase_of (s : control_db) : option string := rec_current_phase <$> t_reconciliations s !! run_id.
Definition queue_of (s : control_db) : list (string * string) :=
  map (λ p : string * StoredOperation, (so_kind p.2, so_state p.2)) (map_to_list (t_operations s)).

Definition fence_1 : string := "00000000-0000-4000-8000-0000000000b1".
Definition fence_2 : string := "00000000-0000-4000-8000-0000000000b2".

(** The first operation is accepted; the second is dispatched; it is accepted too. *)
Definition prepared_run : list action :=
  [Plan'; Attach 10; Tick 20; Tick 30; Tick 40; Tick 50; Claim 60 fence_1; Report 70 fence_1 "prepare"].
Definition dispatch_tick (s : control_db) : result bool * control_db :=
  tick_candidate (λ r, r) (Some run_publisher) run_resolver NoAuthority (prepared:=unit) None 60
    (run_inputs 80) None run_id true s.
Definition last_steps : list action := [Claim 90 fence_2; Report 100 fence_2 "start"; Tick 110].

Definition row_of (s : control_db) : option (string * bool) :=
  (λ r, (rec_current_phase r, is_ok (validated_plan run_id r))) <$> t_reconciliations s !! run_id.

Definition started_id : string := run_uuid "chat.start".
Definition start_of (s : control_db) : option string := so_state <$> t_operations s !! started_id.

Definition last_facts (s : control_db) : option string * result bool * option string * option (string * bool) :=
  let r := dispatch_tick s in
  (start_of s, r.1, start_of r.2, row_of (foldl act r.2 last_steps)).

Example run_facts : last_facts (run prepared_run) = (None, Ok true, Some "queued", Some ("accepting", true)).
Proof. vm_compute. reflexivity. Qed.

(** ** Reachability *)

Notation run_reachable :=
  (control_reachable (λ r, r) (Some run_publisher) run_resolver NoAuthority (prepared:=unit) None 60 None None).
Notation run_step :=
  (control_step (λ r, r) (Some run_publisher) run_resolver NoAuthority (prepared:=unit) None 60 None None).

Lemma act_step s a : run_step s (act s a).
Proof.
  destruct a as [|now|now|now fence|now fence action]; cbn [act].
  - apply step_plan.
  - apply step_attach.
  - apply step_tick.
  - apply step_claim.
  - apply step_finish.
Qed.

Lemma acts_steps l s : rtc run_step s (foldl act s l).
Proof. revert s. induction l as [|a l IH]; intros s; cbn; [done|]. eapply rtc_l; [apply act_step|apply IH]. Qed.

(** The tick that dispatches, without authority to prefetch. *)
Lemma dispatch_tick_act s : (dispatch_tick s).2 = act s (Tick 80).
Proof. reflexivity. Qed.

Definition accepting_db : control_db := foldl act (dispatch_tick (run prepared_run)).2 last_steps.

Lemma accepting_reachable : run_reachable accepting_db.
Proof.
  exists run_db. split; [done|]. split; [done|]. unfold accepting_db. rewrite dispatch_tick_act.
  etrans; [apply (acts_steps prepared_run)|]. eapply rtc_l; [apply act_step|apply acts_steps].
Qed.

Lemma last_facts_split s state row : last_facts s = (None, Ok true, Some state, Some row) →
  t_operations s !! started_id = None ∧ (dispatch_tick s).1 = Ok true
  ∧ is_Some (t_operations (dispatch_tick s).2 !! started_id)
  ∧ row_of (foldl act (dispatch_tick s).2 last_steps) = Some row.
Proof.
  unfold last_facts, start_of. intros [= H1 H2 H3 H4]. split_and!; [|done| |done].
  - by destruct (t_operations s !! started_id).
  - by destruct (t_operations (dispatch_tick s).2 !! started_id).
Qed.

Lemma row_of_Some s phase : row_of s = Some (phase, true) →
  ∃ r g document, t_reconciliations s !! run_id = Some r ∧ rec_current_phase r = phase
                  ∧ validated_plan run_id r = Ok (g, document).
Proof.
  unfold row_of. destruct (t_reconciliations s !! run_id) as [r|]; [|done]. cbn. intros [= Hphase Hok].
  destruct (validated_plan run_id r) as [[g document]|] eqn:Hv; [|done]. by exists r, g, document.
Qed.

Lemma accepting_row : ∃ r g document, t_reconciliations accepting_db !! run_id = Some r
  ∧ rec_current_phase r = "accepting" ∧ validated_plan run_id r = Ok (g, document).
Proof. apply row_of_Some. destruct (last_facts_split _ _ _ run_facts) as (_ & _ & _ & H). exact H. Qed.

Lemma no_contacts_keep (consume : AgentSource → M control_db unit) source :
  None = Some consume → moves keeps (consume source).
Proof. discriminate. Qed.

Lemma published_routes_have_evidence_witness :
  ∃ r g document, t_reconciliations accepting_db !! run_id = Some r ∧ rec_current_phase r = "accepting"
    ∧ validated_plan run_id r = Ok (g, document)
    ∧ operation_ids (role_projections accepting_db run_id "primary") ≡ₚ (op_id <$> graph_nodes g)
    ∧ Forall (λ p : string * ReconciliationOperation, ro_state p.2 = "accepted")
        (role_projections accepting_db run_id "primary").
Proof.
  destruct accepting_row as (r & g & document & Hr & Hphase & Hv).
  exists r, g, document. split; [exact Hr|]. split; [exact Hphase|]. split; [exact Hv|].
  apply (published_routes_have_evidence (λ r, r) (Some run_publisher) run_resolver NoAuthority (prepared:=unit) None 60
    None None no_contacts_keep accepting_db run_id r g document accepting_reachable Hr Hv).
  rewrite Hphase. left.
Defined.

Lemma operations_are_dispatched_in_order_witness :
  ∃ o cx r, t_operations (dispatch_tick (run prepared_run)).2 !! started_id = Some o
    ∧ cx_id cx = run_id ∧ ctx_ok (run prepared_run) cx r
    ∧ in_order (run prepared_run) cx (rec_current_phase r) o
    ∧ holds_nodes (dispatch_tick (run prepared_run)).2 cx ∧ owner_is (dispatch_tick (run prepared_run)).2 run_id.
Proof.
  destruct (last_facts_split _ _ _ run_facts) as (Hn & Hok & [o Ho] & _). exists o.
  destruct (operations_are_dispatched_in_order (λ r, r) (Some run_publisher) run_resolver NoAuthority
    (prepared:=unit) None 60 (run_inputs 80) None run_id true (run prepared_run) true
    (dispatch_tick (run prepared_run)).2 started_id o) as (cx & r & H); [|exact Ho|exact Hn|].
  - rewrite <- Hok. apply surjective_pairing.
  - exists cx, r. split; [exact Ho|exact H].
Defined.

Lemma waves_complete_the_graph_witness :
  ∃ r g document, validated_plan run_id r = Ok (g, document)
    ∧ ∀ n, n ∈ graph_nodes g → is_accepted (accept_waves (length (graph_nodes g)) (graph_nodes g) ∅) (op_id n).
Proof.
  destruct accepting_row as (r & g & document & _ & _ & Hv).
  exists r, g, document. split; [exact Hv|]. apply (waves_complete_the_graph run_id r g document Hv).
Defined.
