(* ===== verification/AgentPackages.v ===== *)
(** * Package operations of an agent, end to end

    The package engine as the boundary of the agent's registry, as [build_agent] of
    [agent/src/vonk_agent/main.py] composes them, and its evidence on the control
    plane. Two results: the evidence of a successful operation is what the
    reconciliation service asks for; and a defect: an operation that the engine
    completed before its result was recorded stops the agent for good. *)

From S2P Require Import Prelude Identifiers Canonical Documents JsonText Datetimes Contracts PackageState PackageJournal.
From S2P Require Import PackageGC PackageEngine PackageTransitions Protocol Messages AttemptStore AttemptFacts Requests Registry.
From S2P Require Import RegistryFacts AgentLoop AgentLoopFacts AgentDelivery AgentReconciliation Waves.

#[local] Opaque isoformat fromisoformat canonical_message.

(** ** The engine as a boundary *)

(** The engine's part of the machine. *)
Class HasEngine (W : Type) := {
  engine_of : W → engine_world;
  with_engine : engine_world → W → W;
  engine_with e w : engine_of (with_engine e w) = e;
  with_engine_of w : with_engine (engine_of w) w = w
}.

(** [PackageEvidence] and [GarbageCollectionResult] as mappings. *)
Definition evidence_document (o : outcome) : json :=
  match o with
  | OEvidence e =>
      JObj [("operation", JStr (ev_operation e)); ("deployment_id", JStr (ev_deployment_id e));
            ("release_digest", JStr (ev_release_digest e)); ("generation", json_option (ev_generation e));
            ("status", JStr (ev_status e)); ("evidence_digest", JStr (ev_digest e))]
  | OCollection r =>
      JObj [("candidate_digests", JArr (map JStr (res_candidate_digests r))); ("reclaimed_bytes", JInt (res_reclaimed_bytes r));
            ("dry_run", JBool (res_dry_run r)); ("status", JStr (res_status r))]
  end.

Section boundary.
Context `{Services} {W : Type} `{!HasEngine W}.

Definition on_engine {A} (m : M engine_world A) : M W A := zoom engine_of with_engine m.

(** The [PackageEngine] that [build_agent] passes to the registry; its inspections
    carry no evidence. *)
Definition package_boundary : PackageOperationsBoundary W :=
  MkPackageBoundary _
    (λ r b d, on_engine (o ← PackageEngine.execute r b (absolute_monotonic d); mret (evidence_document o)))
    (λ r b d, on_engine (disposition ← inspect b; mret (disposition, None))).
End boundary.

(** ** A completed operation without a recorded result *)

(** Talking to the control plane does not touch the engine. *)
Definition same_engine {W} `{!HasEngine W} (w w' : W) : Prop := engine_of w' = engine_of w.

#[export] Instance same_engine_preorder {W} `{!HasEngine W} : PreOrder (same_engine (W:=W)).
Proof. unfold same_engine. split; repeat intros ?; congruence. Qed.

Class KeepsEngine {W} `{!HasEngine W} (client : AgentControl W) (exchange : M W unit) : Prop := {
  heartbeat_engine p : moves same_engine (control_heartbeat client p);
  exchange_engine : moves same_engine exchange
}.

Section blocked.
Context `{Services} {W : Type} `{!HasEngine W}.
Context (client : AgentControl W) `{!ControlMessages client} (credentials : option (CredentialBoundary W)) (exchange : M W unit)
  `{!KeepsEngine client exchange}.
Implicit Types (claim : AgentClaim) (c : schedule) (s : agent (loop_world W)) (l : loop_world W).

Definition loop_engine l l' : Prop := same_engine (lw_world l) (lw_world l').

#[export] Instance loop_engine_preorder : PreOrder loop_engine.
Proof. unfold loop_engine. split; repeat intros ?; [reflexivity|by etrans]. Qed.

Definition quiet s s' : Prop := beats s s' ∧ world_moves loop_engine s s'.

#[export] Instance quiet_preorder : PreOrder quiet.
Proof. unfold quiet. split; [intros s; split; reflexivity|intros ??? [] []; split; by etrans]. Qed.

Lemma on_client_engine {A} (m : M W A) : moves same_engine m → moves loop_engine (on_client m).
Proof. intros Hm l. specialize (Hm (lw_world l)). unfold on_client, zoom. by destruct (m (lw_world l)). Qed.

Lemma loop_modify_engine (f : loop_world W → loop_world W) :
  (∀ l, lw_world (f l) = lw_world l) → moves (world_moves loop_engine) (on_loop (modify f)).
Proof. intros Hf s. cbn. unfold world_moves, loop_engine, same_engine. cbn. by rewrite Hf. Qed.

Lemma report_exchange_engine : moves loop_engine (report_authenticated_exchange exchange).
Proof.
  unfold report_authenticated_exchange. apply moves_bind; [apply _|apply moves_get, _|intros l].
  destruct (lw_exchange_reported l); [apply moves_ret, _|].
  apply moves_bind; [apply _|apply on_client_engine, exchange_engine|intros _]. by intros l'.
Qed.

Ltac engine :=
  repeat first
    [ apply moves_ret, _ | apply moves_lift, _ | apply moves_throw, _ | apply moves_rethrow, _ | apply moves_get, _
    | apply store_keeps_world, _ | apply loop_modify_engine; by intros ?
    | apply on_world_moves, on_client_engine, heartbeat_engine | apply on_world_moves, report_exchange_engine
    | apply moves_bind; [apply _| |intros ?] | apply moves_try_catch; [apply _| |intros ?]
    | case_match ].

Lemma heartbeat_thread_engine claim turns : moves (world_moves loop_engine) (heartbeat_thread client exchange claim turns).
Proof.
  induction turns as [|n turns IH]; cbn [heartbeat_thread]; [apply moves_ret, _|].
  apply moves_bind; [apply _| |intros []; [done|apply moves_ret, _]]. unfold heartbeat_round. engine.
Qed.

Lemma heartbeats_quiet claim turns : moves quiet (heartbeats client exchange claim turns).
Proof.
  intros s. split; [by apply heartbeats_beat|]. revert s. unfold heartbeats. apply moves_bind; [apply _|apply moves_get, _|intros s].
  destruct (lw_started _); [apply heartbeat_thread_engine|apply moves_ret, _].
Qed.

Lemma heartbeat_start_quiet claim : moves quiet (heartbeat_start (W:=W) claim).
Proof. intros s. split; [by apply heartbeat_start_beats|]. revert s. unfold heartbeat_start. engine. Qed.

Lemma world_quiet {A} (m : M (loop_world W) A) : moves loop_engine m → moves quiet (on_loop m).
Proof. intros Hm s. split; [by apply on_world_beats|by apply on_world_moves]. Qed.

Lemma stop_quiet joined : moves quiet (try_catch (heartbeat_stop (W:=W) joined) (λ e,
  if eqb (exn_cls e) EHeartbeatShutdown then on_loop (modify set_shutdown);; rethrow e else rethrow e)).
Proof.
  unfold heartbeat_stop. repeat first
    [ apply moves_ret, _ | apply moves_throw, _ | apply moves_rethrow, _ | apply moves_get, _ | apply world_quiet; by intros l
    | apply moves_bind; [apply _| |intros ?] | apply moves_try_catch; [apply _| |intros ?] | case_match ].
Qed.

Context (ctx : OperationContext W) (Hpackages : ctx_packages ctx = Some package_boundary).

Lemma completed_inspection t claim r l d : recovery_deadline t = Ok d →
  inspect (binding_of claim) (engine_of (lw_world l)) = (Ok COMPLETED, engine_of (lw_world l)) →
  inspect_request t claim (PackageOperation r) (lift_context ctx) l = (Ok (inspected InspectCompleted None), l).
Proof.
  intros Hd Hc. rewrite lift_context_inspect. unfold on_client, zoom, inspect_request. rewrite Hpackages.
  rewrite (M_bind_run _ _ _ package_boundary (lw_world l)) by done. rewrite (M_bind_run _ _ _ d (lw_world l)) by by rewrite Hd.
  rewrite (M_bind_run _ _ _ (COMPLETED, None) (lw_world l)); [by destruct l|].
  cbn [package_inspect package_boundary]. unfold on_engine, zoom. rewrite (M_bind_run _ _ _ _ _ Hc). cbn. by rewrite with_engine_of.
Qed.

(** An agent that owes the result of a package operation which its engine has
    completed. *)
Record blocked claim s : Prop := {
  bk_journal : journal (ag_store s);
  bk_running : slot_of (ag_store s) = Running claim;
  bk_completed : inspect (binding_of claim) (engine_of (lw_world (ag_world s)))
                 = (Ok COMPLETED, engine_of (lw_world (ag_world s)))
}.

Lemma quiet_blocked claim s s' : quiet s s' → blocked claim s → blocked claim s'.
Proof.
  intros [Hb He] [Hj Hs Hc]. destruct (Hb Hj) as (Hj' & _ & Hs'). unfold world_moves, loop_engine, same_engine in He.
  constructor; [done|congruence|]. by rewrite He.
Qed.

(** The call of the registry raises. *)
Lemma blocked_execute c claim r s : validate_claim claim ctx = Ok (PackageOperation r) →
  sqlite_int (id_attempt (claim_identity claim)) = Ok () → blocked claim s → lw_started (ag_world s) = false →
  is_ok (recovery_deadline (sc_readings c)) = true →
  ∃ s', registry_execute (Some (heartbeat_start claim)) (heartbeats client exchange claim (sc_turns c)) (sc_readings c) claim
          (lift_context ctx) (λ s, lw_deadline (ag_world s)) s
        = (Err (Exn EAgentStateConflict "interrupted mutation requires explicit disposition"), s') ∧ quiet s s'.
Proof.
  intros Hval Hsql [Hj Hs Hc] Hst Hd. destruct (recovery_deadline (sc_readings c)) as [d|] eqn:Ed; [|done].
  pose proof (heartbeat_start_run claim s Hj Hs Hsql Hst) as Hstart. set (s1 := Agent (ag_store s) (set_started (ag_world s))) in *.
  eexists. split.
  - eapply (unexplained_completion_raises _ _ _ _ _ _ _ _ (inspected InspectCompleted None)); [done..| |reflexivity|reflexivity]. constructor; [by rewrite lift_context_validate|done| |done].
    exists s1, (ag_world s1). split_and!; [done|by eapply completed_inspection|reflexivity].
  - etrans; [|apply heartbeats_quiet]. pose proof (heartbeat_start_quiet claim s) as Hq. by rewrite Hstart in Hq.
Qed.

(** The agent of a new process over the same journal and machine. *)
Definition restarted s : agent (loop_world W) :=
  Agent (ag_store s) (LoopWorld (lw_world (ag_world s)) false false false None None).

(** C21. Once the engine has completed a package operation whose result the agent had
    not recorded when it stopped, the agent is blocked for good: every turn raises,
    whatever the heartbeats, the clocks and the control plane do, and leaves the
    restarted agent blocked in the same way. The operation is never reported, and no
    other claim is ever fetched. (The engine answers [completed] without evidence,
    and the registry takes a completed operation only with evidence.) *)
Theorem completed_operation_blocks_the_agent c claim r s :
  validate_claim claim ctx = Ok (PackageOperation r) →
  sqlite_int (id_attempt (claim_identity claim)) = Ok () → is_ok (recovery_deadline (sc_readings c)) = true → blocked claim s →
  ∃ e s', run_once client credentials exchange c (lift_context ctx) s = (Err e, s') ∧ blocked claim (restarted s').
Proof.
  intros Hval Hsql Hd Hbk. assert (∀ s', quiet s s' → blocked claim (restarted s')) as Hstay.
  { intros s' Hq. destruct (quiet_blocked claim s s' Hq Hbk). by constructor. }
  pose proof Hbk as [Hj Hs Hc]. destruct (lw_shutdown (ag_world s)) eqn:Hsh.
  { unfold run_once. rewrite (M_bind_run _ _ _ s s) by done. rewrite Hsh. do 2 eexists. split; [reflexivity|]. by apply Hstay. }
  rewrite (run_once_running _ _ _ _ c s claim Hj Hs Hsh). destruct (running_recorded s claim Hj Hs) as (a & Hrec & Er).
  unfold agent_execute at 1. unfold mbind at 1, M_bind at 1. rewrite (M_bind_run _ _ _ _ _ (recorded_lookup _ _ _ Hj Hsql Hrec)).
  cbv zeta. set (deadline := bound_deadline _ _).
  rewrite (M_bind_run _ _ _ () (Agent (ag_store s) (new_worker deadline (ag_world s)))) by done.
  set (s1 := Agent _ _). destruct (blocked_execute c claim r s1) as (s2 & Hr & Hq); try done.
  unfold try_finally. rewrite Hr. pose proof (stop_quiet (sc_joined c) s2) as Hstop. set (stop := try_catch _ _) in *.
  assert (quiet s (stop s2).2) as Hall by (do 2 (etrans; [|done]); by split).
  destruct (stop s2) as [[u|e] s3]; do 2 eexists; (split; [reflexivity|]); by apply Hstay.
Qed.
End blocked.

(** ** The evidence of the engine *)

(** Evidence of the request, with a status in [P]. *)
Definition speaks_for (P : string → Prop) (r : PackageOperationRequest) (e : PackageEvidence) : Prop :=
  release_identity r = Ok (ev_deployment_id e, ev_release_digest e)
  ∧ ev_operation e = operation_value (req_operation r) ∧ is_digest (ev_digest e) = true ∧ P (ev_status e).

Lemma evidence_speaks (P : string → Prop) r generation status e :
  P status → evidence r generation status = Ok e → speaks_for P r e.
Proof.
  unfold evidence. intros HP H. inv_run_all. subst e. destruct (release_identity r) as [[]|] eqn:E; simplify_eq.
  split_and!; [done|done|apply hexdigest_is_digest|done].
Qed.

Section speaking.
Context `{Services}.

(** [answers P r m]: what [m] returns is evidence of [r] with a status in [P]. *)
Definition answers (P : string → Prop) (r : PackageOperationRequest) (m : M engine_world PackageEvidence) : Prop :=
  ∀ w e w', m w = (Ok e, w') → speaks_for P r e.

Lemma answers_bind {A} P r (m : M engine_world A) f : (∀ a, answers P r (f a)) → answers P r (m ≫= f).
Proof. intros Hf w e w' (a & w1 & _ & Hr)%M_bind_ok. by eapply Hf. Qed.

Lemma answers_run P r m w e w' : answers P r m → m w = (Ok e, w') → speaks_for P r e.
Proof. intros Hm. apply Hm. Qed.

Lemma answers_throw P r c m : answers P r (throw c m).
Proof. intros w e w' Hr. by apply throw_ok in Hr. Qed.

Lemma answers_evidence (P : string → Prop) r generation status : P status → answers P r (lift (evidence r generation status)).
Proof. intros HP w e w' [Hr _]%lift_ok. by eapply evidence_speaks. Qed.

Ltac solve_answers :=
  repeat first
    [ apply answers_evidence; repeat constructor
    | apply answers_throw
    | apply answers_bind; intros ?
    | match goal with |- answers _ _ (match ?x with _ => _ end) => destruct x end ].

Definition reports (o : AgentOperation) (status : string) : Prop :=
  among status (expected_statuses (operation_value o)) = true ∨ o = PACKAGE_ACTIVATE ∧ status = "rolled-back".

Lemma compensate_answers r b target previous t :
  req_operation r = PACKAGE_ACTIVATE → answers (reports (req_operation r)) r (compensate r b target previous t "rolled-back").
Proof. intros Ho. unfold compensate, reports. rewrite Ho. solve_answers; by right. Qed.

Lemma activate_answers r b t : req_operation r = PACKAGE_ACTIVATE → answers (reports (req_operation r)) r (activate r b t).
Proof.
  intros Ho. unfold activate, engine_error. do 3 (apply answers_bind; intros ?).
  match goal with |- answers _ _ (match ?x with _ => _ end) => destruct x end; [|apply answers_throw].
  do 11 (apply answers_bind; intros ?). intros w ev w' (early & w1 & Hc & Hr)%M_bind_ok.
  apply try_catch_ok in Hc as [Hc|(e & w3 & _ & Hc)].
  2: { destruct (is_engine_error e), (is_exception e); inv_run_all. }
  destruct early as [ev'|].
  - apply M_ret_ok in Hr as [<- <-]. unfold start_and_check in Hc. inv_run_all.
    match goal with Hi : (if ?stop : bool then _ else _) _ = _ |- _ => destruct stop end; inv_run_all; [|done]. simplify_eq.
    by eapply compensate_answers.
  - revert Hr. generalize w1, ev, w'. apply answers_bind. intros _. apply answers_evidence. unfold reports. rewrite Ho. by left.
Qed.

Lemma execute_answers r b t w e w' :
  PackageEngine.execute r b t w = (Ok (OEvidence e), w') → speaks_for (reports (req_operation r)) r e.
Proof.
  intros Hr. unfold PackageEngine.execute in Hr. destruct (req_operation r) eqn:Ho; try (by apply throw_ok in Hr);
    apply M_bind_ok in Hr as (e' & w1 & Hr & [[=] <-]%M_ret_ok); subst; rewrite <- Ho.
  all: try (by eapply activate_answers).
  all: eapply answers_run; [|exact Hr]; rewrite Ho.
  all: unfold prepare, rollback, invoke_existing, remove, repair, engine_error; solve_answers.
Qed.

(** What a parsed request names is what its payload says. *)
Lemma parsed_names o items r : parse_package_request o (JObj items) = Ok r → release_bound o = true →
  req_operation r = o ∧ ∃ deployment release, release_identity r = Ok (deployment, release)
    ∧ field items "deployment_id" = JStr deployment ∧ field items "release_digest" = JStr release ∧ is_digest release = true.
Proof.
  unfold parse_package_request, protocol_check, protocol_error. intros Hp Ho. inv_run_all. rewrite Ho in Hp.
  unfold parse_release_bound, check_wire_digest, protocol_check, protocol_error in Hp. inv_run_all. case_match. inv_run_all. subst r.
  split; [done|]. do 2 eexists. split; [reflexivity|]. unfold field in *. clear Ho.
  repeat (case_match; try discriminate); inv_run_all; by simplify_eq.
Qed.

Lemma validated_package {W} (ctx : OperationContext W) claim r : validate_claim claim ctx = Ok (PackageOperation r) →
  parse_package_request (claim_operation claim) (claim_payload claim) = Ok r.
Proof. unfold validate_claim, unsupported. intros H1. inv_run_all. repeat (case_match; try discriminate); inv_run_all; by simplify_eq. Qed.

(** A succeeded result carries what the engine answered. *)
Lemma succeeded_package {W} `{!HasEngine W} (ctx : OperationContext W) claim r d s v s' :
  ctx_packages ctx = Some package_boundary →
  run_handler claim (PackageOperation r) (lift_context ctx) d s = (Ok v, s') → result_state v = "succeeded" →
  ∃ o e, PackageEngine.execute r (binding_of claim) (absolute_monotonic d) (engine_of (lw_world (ag_world s))) = (Ok o, e)
    ∧ result_document v = sort_json (JObj [("status", JStr "ok"); ("evidence", evidence_document o)]).
Proof.
  intros Hctx Hr Hst. unfold run_handler in Hr. apply try_catch_ok in Hr as [Hr|(e & s1 & _ & Hr)].
  - apply M_bind_ok in Hr as (e & s1 & He & [Hv _]%lift_ok). apply made_result in Hv as (_ & _ & document & Hd & ->).
    apply bounded_document_sorted in Hd as ->. apply zoom_ok in He as (l & He & _). rewrite lift_context_execute in He.
    apply zoom_ok in He as (w & He & _). cbn [execute_request] in He. rewrite Hctx in He.
    apply M_bind_ok in He as (b & w1 & [<- <-]%M_ret_ok & He). cbn [package_execute package_boundary] in He.
    apply zoom_ok in He as (e' & He & _). apply M_bind_ok in He as (o & e1 & Ho & [<- <-]%M_ret_ok). by eauto.
  - apply lift_ok in Hr as [Hv _]. apply made_result in Hv as (_ & _ & document & _ & ->). done.
Qed.

(** The evidence of the engine is what the control plane asks for. *)
Lemma evidence_matches r e items : speaks_for (reports (req_operation r)) r e → release_bound (req_operation r) = true →
  (∃ deployment release, release_identity r = Ok (deployment, release) ∧ field items "deployment_id" = JStr deployment
     ∧ field items "release_digest" = JStr release ∧ is_digest release = true) →
  packaged (operation_value (req_operation r)) items (sorted_items
    [("operation", JStr (ev_operation e)); ("deployment_id", JStr (ev_deployment_id e));
     ("release_digest", JStr (ev_release_digest e)); ("generation", json_option (ev_generation e));
     ("status", JStr (ev_status e)); ("evidence_digest", JStr (ev_digest e))])
  ∨ req_operation r = PACKAGE_ACTIVATE ∧ ev_status e = "rolled-back".
Proof.
  intros (Hid & Hop & Hdig & [Hst|Hst]) Ho (deployment & release & Hid' & Hdep & Hrel & Hd); [left|by right].
  rewrite Hid in Hid'. simplify_eq. split.
  - apply same_keys_spec. intros key. unfold sorted_items. by rewrite key_sort_perm, on_values_keys.
  - do 4 eexists. rewrite !sorted_field by by apply (bool_decide_unpack _). cbn. rewrite Hop.
    split_and!; try done; [by apply among_true|]. destruct (ev_generation e); cbn; eauto.
Qed.

Lemma reported_items e :
  let items := merge_sort key_le (map (on_values sort_json) [("status", JStr "ok"); ("evidence", evidence_document (OEvidence e))]) in
  same_keys items ["status"; "evidence"] = true ∧ field items "status" = JStr "ok"
  ∧ field items "evidence" = JObj (sorted_items
      [("operation", JStr (ev_operation e)); ("deployment_id", JStr (ev_deployment_id e));
       ("release_digest", JStr (ev_release_digest e)); ("generation", json_option (ev_generation e));
       ("status", JStr (ev_status e)); ("evidence_digest", JStr (ev_digest e))]).
Proof.
  intros items. split.
  - apply same_keys_spec. intros key. unfold items. by rewrite key_sort_perm, on_values_keys.
  - unfold items. rewrite !field_sort by by apply (bool_decide_unpack _). split; [done|]. apply sort_json_object.
Qed.

(** C20. What an agent reports of a package operation is what the control plane asks
    for: if the engine ran a claimed operation on a release and the agent made a
    succeeded result of it, the reconciliation service accepts that result for the
    payload of the claim and records its digests. The exception is an activation
    that was cancelled after it started, which the agent reports as succeeded with
    the status [rolled-back]: the service does not accept that. *)
Theorem reported_package_result_is_accepted {W} `{!HasEngine W} (ctx : OperationContext W) claim r items d s v s' :
  ctx_packages ctx = Some package_boundary → validate_claim claim ctx = Ok (PackageOperation r) →
  claim_payload claim = JObj items → release_bound (claim_operation claim) = true →
  run_handler claim (PackageOperation r) (lift_context ctx) d s = (Ok v, s') → result_state v = "succeeded" →
  ∃ e, (PackageEngine.execute r (binding_of claim) (absolute_monotonic d) (engine_of (lw_world (ag_world s)))).1 = Ok (OEvidence e)
    ∧ (accepted_result_digests (operation_value (claim_operation claim)) items (result_document v)
         = Ok (utf8_digest (result_document v), utf8_digest (sort_json (evidence_document (OEvidence e))))
       ∨ claim_operation claim = PACKAGE_ACTIVATE ∧ ev_status e = "rolled-back"
         ∧ ∀ p, accepted_result_digests (operation_value (claim_operation claim)) items (result_document v) ≠ Ok p).
Proof.
  intros Hctx Hval Hpay Ho Hr Hst. apply validated_package in Hval. rewrite Hpay in Hval.
  destruct (parsed_names _ _ _ Hval Ho) as [Eo Hnames]. destruct (succeeded_package _ _ _ _ _ _ _ Hctx Hr Hst) as (o & w & He & Hv).
  destruct o as [e|g]; [|exfalso; unfold PackageEngine.execute in He; rewrite Eo in He; destruct (claim_operation claim);
    try done; inv_run_all; done].
  exists e. rewrite He. split; [done|]. apply execute_answers in He. rewrite <- Eo in *.
  pose proof (reported_items e) as (Hkeys & Hstatus & Hev). rewrite Hv, sort_json_object.
  destruct (evidence_matches r e items He Ho Hnames) as [Hp|[Ea Es]]; [left|right].
  - apply accepted_digests_iff. do 2 eexists. split_and!; [reflexivity|done|done|done| |done|done].
    right. right. left. split; [|done]. by destruct (req_operation r); apply among_true.
  - split_and!; [done..|]. intros [p q] (its & evidence & Hits & _ & _ & E & Hfor & _)%accepted_digests_iff.
    pose proof (f_equal (λ v, match v with JObj i => i | _ => [] end) Hits) as Eits. cbn beta iota in Eits.
    rewrite <- Eits, Hev in E. injection E as <-. rewrite Ea in Hfor. destruct Hfor as [[? _]|[(a & Ha & _)|[[_ Hp]|[? _]]]]; try done.
    destruct Hp as (_ & ? & ? & status & ? & _ & _ & _ & _ & _ & E & Hin & _). rewrite sorted_field in E by by apply (bool_decide_unpack _).
    cbn in E. injection E as <-. rewrite Es in Hin. by apply among_true in Hin.
Qed.
End speaking.

(** ** Samples *)

#[export] Instance whole_engine : HasEngine engine_world.
Proof. by refine {| engine_of := id; with_engine e _ := e |}. Defined.

(** The agent stopped after its engine had activated a release. *)
Module PackageSample.
Import RegistrySample.

#[export] Instance sample_services : Services := demo_services false "" 63.
Definition silent_client : AgentControl engine_world :=
  MkControl _ (mret None) (λ _, throw EAgentTransport "unreachable") (λ _, throw EAgentTransport "unreachable")
    (λ _, mret 0%Z) (λ _, mret ()).

#[export] Instance silent_messages : ControlMessages silent_client.
Proof. constructor; intros; discriminate. Qed.
#[export] Instance silent_engine : KeepsEngine silent_client (mret ()).
Proof. constructor; [intros p w; reflexivity|intros w; reflexivity]. Qed.

Definition engine_context : OperationContext engine_world :=
  MkContext _ "spk_00000000000000000000000000000000" (λ _, mret (JObj [])) None None None (Some package_boundary).
Definition activated : result PackageEvidence * engine_world := demo_activation.
Definition stopped_agent : agent (loop_world engine_world) :=
  Agent (run_calls package_begun []) (LoopWorld activated.2 false false false None None).
Definition fresh_agent : agent (loop_world engine_world) :=
  Agent (run_calls package_begun []) (LoopWorld (demo_world sample_db) false false false None None).
Definition late_schedule : schedule := Schedule (0, 0)%Z sample_readings [Turn 0 0 0] true 0.
End PackageSample.
Import RegistrySample PackageSample.

Lemma completed_operation_blocks_the_agent_witness :
  ∃ e s', run_once silent_client None (mret ()) late_schedule (lift_context engine_context) stopped_agent = (Err e, s')
    ∧ blocked package_claim (restarted s').
Proof.
  apply (completed_operation_blocks_the_agent silent_client None (mret ()) engine_context eq_refl late_schedule package_claim
    package_request stopped_agent).
  - vm_compute. reflexivity.
  - reflexivity.
  - reflexivity.
  - constructor; [exact package_begun_journal|exact package_is_running|].
    vm_compute. reflexivity.
Defined.

(** The agent runs the activation it was interrupted in, and reports it. *)
Definition reported : result AgentResult * agent (loop_world engine_world) :=
  run_handler package_claim (PackageOperation package_request) (lift_context engine_context) (Deadline 0 0) fresh_agent.

Lemma reported_package_result_is_accepted_witness :
  ∃ v, reported.1 = Ok v ∧
  ∃ e, (PackageEngine.execute package_request (binding_of package_claim) (absolute_monotonic (Deadline 0 0))
          (engine_of (lw_world (ag_world fresh_agent)))).1 = Ok (OEvidence e)
    ∧ (accepted_result_digests (operation_value (claim_operation package_claim)) package_payload (result_document v)
         = Ok (utf8_digest (result_document v), utf8_digest (sort_json (evidence_document (OEvidence e))))
       ∨ claim_operation package_claim = PACKAGE_ACTIVATE ∧ ev_status e = "rolled-back"
         ∧ ∀ p, accepted_result_digests (operation_value (claim_operation package_claim)) package_payload (result_document v) ≠ Ok p).
Proof.
  assert (match reported.1 with Ok v => eqb (result_state v) "succeeded" | Err _ => false end = true) as Hok by (vm_compute; reflexivity).
  destruct reported as [[v|x] s'] eqn:Hr; [|discriminate Hok]. exists v. split; [reflexivity|].
  apply (reported_package_result_is_accepted engine_context package_claim package_request package_payload (Deadline 0 0) fresh_agent v s').
  - reflexivity.
  - vm_compute. reflexivity.
  - reflexivity.
  - reflexivity.
  - exact Hr.
  - exact (proj1 (eqb_true _ _) Hok).
Defined.
