(* ===== verification/RolloutFacts.v ===== *)
(** * What package rollouts guarantee

    The canary comes first: in every database that creation, advances, rollbacks and
    any activity of the agent queue lead to, no other node of a rollout is touched
    before its canary is accepted, and a completed rollout has only accepted nodes.
    What an advance enqueues is an operation of the plan whose dependencies were
    accepted, or the planned rollback of one that failed. And a defect: the agent queue
    closes the parent job with the first result, after which a rollout can neither go
    on nor roll back. *)

From S2P Require Import Prelude Identifiers Canonical Documents Contracts PackageEngine Protocol.
From S2P Require Import OperationGraph Orchestration Jobs AgentTables AgentJobs AgentJobsFacts PackageRollouts.

(** ** Writes *)

(** The nodes of batch [b] of rollout [rid] change, and the state of its row. *)
Record touches (rid : string) (b : Z) (s s' : rollout_db) : Prop := {
  tch_other id : id ≠ rid → rd_rollouts s' !! id = rd_rollouts s !! id;
  tch_row r : rd_rollouts s !! rid = Some r → ∃ r', rd_rollouts s' !! rid = Some r'
    ∧ pk_current_batch r' = pk_current_batch r ∧ (pk_state r' = pk_state r ∨ pk_state r' ≠ "completed");
  tch_nodes key : rd_nodes s' !! key = rd_nodes s !! key ∨
    ∃ n n', rd_nodes s !! key = Some n ∧ rd_nodes s' !! key = Some n' ∧ pn_rollout_id n = rid ∧ pn_batch_index n = b
            ∧ pn_rollout_id n' = rid ∧ pn_batch_index n' = b ∧ pn_is_canary n' = pn_is_canary n
}.

#[export] Instance touches_preorder rid b : PreOrder (touches rid b).
Proof.
  split; [intros s; split; naive_solver|]. intros s1 s2 s3 [O12 R12 N12] [O23 R23 N23]. split.
  - intros id Hid. rewrite O23, O12; done.
  - intros r (r2 & H2 & B2 & S2)%R12. destruct (R23 r2 H2) as (r3 & H3 & B3 & S3). exists r3.
    split_and!; [done|congruence|]. destruct S3 as [->|]; [|by right]. done.
  - intros key. destruct (N12 key) as [E12|(n & n' & Hn & Hn' & ? & ? & ? & ? & ?)],
      (N23 key) as [E23|(m & m' & Hm & Hm' & ? & ? & ? & ? & ?)].
    + left. congruence.
    + right. exists m, m'. rewrite <- E12. done.
    + right. exists n, n'. rewrite E23. done.
    + right. exists n, m'. assert (m = n') as -> by congruence. split_and!; congruence.
Qed.

Lemma touches_control rid b c s : touches rid b s (set_rd_control c s).
Proof. split; cbn; naive_solver. Qed.

Lemma touches_node rid b key n n' s :
  rd_nodes s !! key = Some n → pn_rollout_id n = rid → pn_batch_index n = b →
  pn_rollout_id n' = rid → pn_batch_index n' = b → pn_is_canary n' = pn_is_canary n →
  touches rid b s (RolloutDb (rd_control s) (rd_rollouts s) (<[key := n']> (rd_nodes s))).
Proof.
  intros. split; cbn; [done|naive_solver|]. intros k. destruct (decide (k = key)) as [->|].
  - right. exists n, n'. by rewrite lookup_insert_eq.
  - left. by rewrite lookup_insert_ne.
Qed.

Lemma touches_alter rid b f s :
  (∀ r, pk_current_batch (f r) = pk_current_batch r ∧ (pk_state (f r) = pk_state r ∨ pk_state (f r) ≠ "completed")) →
  touches rid b s (RolloutDb (rd_control s) (alter f rid (rd_rollouts s)) (rd_nodes s)).
Proof.
  intros Hf. split; cbn; [|intros r Hr; exists (f r)|auto].
  - intros id Hid. by rewrite lookup_alter_ne.
  - rewrite lookup_alter_eq, Hr. cbn. split; [done|apply Hf].
Qed.

(** A node of the batch is still one. *)
Definition in_batch (rid : string) (b : Z) (s : rollout_db) (key : string) : Prop :=
  ∃ n, rd_nodes s !! key = Some n ∧ pn_rollout_id n = rid ∧ pn_batch_index n = b.

Lemma touches_in_batch rid b rid' b' s s' key : touches rid b s s' → in_batch rid' b' s key → in_batch rid' b' s' key.
Proof.
  intros Ht (n & Hn & Hr & Hb). destruct (tch_nodes _ _ _ _ Ht key) as [E|(m & m' & Hm & Hm' & ? & ? & ? & ? & _)].
  - exists n. by rewrite E.
  - exists m'. assert (m = n) as -> by congruence. split_and!; congruence.
Qed.

Section advancing.
Context {prepared : Type} (update_authorizer : option (UpdateAuthorizer prepared)).
Implicit Types (s : rollout_db) (n : PackageRolloutNode) (d : draw) (i : advance_inputs).

Lemma on_control_frame {A} (m : M control_db A) s a s' :
  on_control m s = (Ok a, s') → ∃ c, m (rd_control s) = (Ok a, c) ∧ s' = set_rd_control c s.
Proof. unfold on_control. by rewrite zoom_ok. Qed.

Lemma enqueue_frame job node kind commit payload d s u s' :
  enqueue_package update_authorizer job node kind commit payload d s = (Ok u, s') → ∃ c, s' = set_rd_control c s.
Proof. unfold enqueue_package. intros H. inv_run_all. apply on_control_frame in H0 as (c & _ & ->). eauto. Qed.

Lemma set_job_frame job state reason updated s u s' :
  set_job job state reason updated s = (Ok u, s') → ∃ c, s' = set_rd_control c s.
Proof.
  unfold set_job. intros H. inv_run_all. destruct (t_jobs _ !! job).
  - apply on_control_frame in H as (c & _ & ->). eauto.
  - inv_run_all. exists (rd_control s). by destruct s.
Qed.

(** The two rows of one step of the loop, as runs. *)
Lemma put_node_touches rid b key n' s u s' :
  in_batch rid b s key → (∀ n, rd_nodes s !! key = Some n → pn_is_canary n' = pn_is_canary n) →
  pn_rollout_id n' = rid → pn_batch_index n' = b → put_rollout_node key n' s = (Ok u, s') → touches rid b s s'.
Proof.
  intros (n & Hn & ? & ?) Hc ? ? ->%modify_ok. eapply (touches_node _ _ key n); [done..|]. by apply Hc.
Qed.

Lemma alter_touches rid b f s u s' :
  (∀ r, pk_current_batch (f r) = pk_current_batch r ∧ (pk_state (f r) = pk_state r ∨ pk_state (f r) ≠ "completed")) →
  alter_rollout rid f s = (Ok u, s') → touches rid b s s'.
Proof. intros Hf ->%modify_ok. by apply touches_alter. Qed.

Lemma set_job_touches rid b job state reason updated s u s' :
  set_job job state reason updated s = (Ok u, s') → touches rid b s s'.
Proof. intros (c & ->)%set_job_frame. apply touches_control. Qed.

Lemma enqueue_touches rid b job node kind commit payload d s u s' :
  enqueue_package update_authorizer job node kind commit payload d s = (Ok u, s') → touches rid b s s'.
Proof. intros (c & ->)%enqueue_frame. apply touches_control. Qed.

(** The row of the node after a step keeps what identifies it. *)
Lemma touches_canary rid b key n s s' m : touches rid b s s' → rd_nodes s !! key = Some n → rd_nodes s' !! key = Some m →
  pn_is_canary n = pn_is_canary m.
Proof. intros [_ _ HN] Hn Hm. destruct (HN key) as [E|(x & y & Hx & Hy & ? & ? & ? & ? & Hc)]; congruence. Qed.

Ltac touch_run :=
  match goal with
  | H : set_job _ _ _ _ _ = (Ok _, ?s') |- touches _ _ _ ?s' => eapply set_job_touches; exact H
  | H : alter_rollout _ _ _ = (Ok _, ?s') |- touches _ _ _ ?s' =>
      eapply alter_touches; [|exact H]; intros ?; by split; [|right]
  end.

Ltac node_run n :=
  match goal with H : put_rollout_node _ _ _ = _ |- _ =>
    eapply put_node_touches in H; [|by exists n|naive_solver|done..] end.

Lemma abandon_touches rid b job key id o now n s u s' :
  rd_nodes s !! key = Some n → pn_rollout_id n = rid → pn_batch_index n = b →
  abandon rid job key id o now n s = (Ok u, s') → touches rid b s s'.
Proof.
  intros Hn Hr Hb H. unfold abandon in H. inv_run_all.
  node_run n.
  etrans; [eassumption|]. etrans; [|touch_run]. touch_run.
Qed.

Lemma unsettled_touches rid b job key id o d now r n s v s' :
  rd_nodes s !! key = Some n → pn_rollout_id n = rid → pn_batch_index n = b →
  unsettled update_authorizer rid job key id o d now r n s = (Ok v, s') → touches rid b s s'.
Proof.
  intros Hn Hr Hb H. unfold unsettled in H.
  destruct (rollback_payload (pk_plan r) (pn_node_id n)) as [payload|]; [destruct (among _ _)|]; inv_run_all;
    [|by eapply abandon_touches..].
  match goal with H : enqueue_package _ _ _ _ _ _ _ _ = (_, ?s1) |- _ =>
    pose proof (enqueue_touches rid b _ _ _ _ _ _ _ _ _ H) as Ht; apply enqueue_frame in H as (c & ->) end.
  node_run n.
  etrans; [exact Ht|]. etrans; [eassumption|]. touch_run.
Qed.

Lemma settle_touches rid b job key d now s v s' :
  in_batch rid b s key → settle update_authorizer rid job key d now s = (Ok v, s') → touches rid b s s'.
Proof.
  intros (n & Hn & Hr & Hb) H. unfold settle in H. inv_run_all. rewrite Hn in H.
  destruct (rd_rollouts s !! rid) as [r|]; [|inv_run_all; reflexivity].
  destruct (active_operation s n) as [[id o]|]; [|inv_run_all; reflexivity].
  destruct (among _ ["queued"; "running"]); [inv_run_all; reflexivity|].
  destruct (eqb (so_state o) "succeeded").
  - inv_run_all. match goal with H : put_rollout_node _ _ _ = _ |- _ =>
      pose proof H as Hput; eapply put_node_touches in H; [|by exists n|naive_solver|done..] end.
    etrans; [eassumption|]. destruct (eqb _ _); [|inv_run_all; reflexivity]. inv_run_all.
    match goal with H : put_rollout_node _ _ ?s1 = (_, ?s2), Ht : touches _ _ _ ?s1 |- touches _ _ ?s1 _ =>
      eapply put_node_touches in H; [|eapply touches_in_batch; [exact Ht|by exists n]| |done..] end.
    + etrans; [eassumption|]. etrans; [|touch_run]. touch_run.
    + intros m Hm. cbn. by eapply touches_canary.
  - destruct (among _ _); [by eapply unsettled_touches|inv_run_all; reflexivity].
Qed.

Lemma dispatch_touches rid b job key d now history s q s' :
  in_batch rid b s key → dispatch_next update_authorizer rid job key d now history s = (Ok q, s') → touches rid b s s'.
Proof.
  intros (n & Hn & Hr & Hb) H. unfold dispatch_next in H. inv_run_all. rewrite Hn in H.
  destruct (rd_rollouts s !! rid) as [r|]; [|inv_run_all; reflexivity].
  destruct (among _ _); [inv_run_all; reflexivity|]. inv_run_all.
  destruct x as [[[g kind] payload]|]; inv_run_all.
  - match goal with H : enqueue_package _ _ _ _ _ _ _ _ = (_, ?s1) |- _ =>
      pose proof (enqueue_touches rid b _ _ _ _ _ _ _ _ _ H) as Ht; apply enqueue_frame in H as (c & ->) end.
    node_run n.
    by etrans.
  - by node_run n.
Qed.

Lemma advance_node_touches rid b job key d now s q s' :
  in_batch rid b s key → advance_node update_authorizer rid job key d now s = (Ok q, s') → touches rid b s s'.
Proof.
  intros Hk H. unfold advance_node in H. inv_run_all. pose proof (settle_touches _ _ _ _ _ _ _ _ _ Hk H0) as Ht.
  destruct x; inv_run_all; [done|]. etrans; [exact Ht|]. eapply dispatch_touches; [|done]. by eapply touches_in_batch.
Qed.

Lemma advance_nodes_touches rid b job draws now keys s q s' :
  (∀ key, key ∈ keys → in_batch rid b s key) →
  advance_nodes update_authorizer rid job draws now keys s = (Ok q, s') → touches rid b s s'.
Proof.
  revert s q. induction keys as [|key keys IH]; intros s q Hin H; cbn in H; inv_run_all; [reflexivity|].
  match goal with H : advance_node _ _ _ _ _ _ _ = _ |- _ =>
    pose proof (advance_node_touches _ _ _ _ _ _ _ _ _ (Hin key ltac:(set_solver)) H) as Ht end.
  etrans; [exact Ht|]. eapply IH; [|done]. intros k Hk. eapply touches_in_batch, Hin; [done|set_solver].
Qed.

(** ** The canary first *)

Definition closed_states : list string := ["completed"; "failed"; "cancelled"; "partial"].

Record node_gated (r : PackageRollout) (n : PackageRolloutNode) : Prop := {
  ng_index : (0 ≤ pn_batch_index n ≤ 1)%Z;
  ng_canary : pn_is_canary n = (pn_batch_index n =? 0)%Z;
  ng_before : (pn_batch_index n < pk_current_batch r)%Z → pn_state n = "accepted";
  ng_after : (pk_current_batch r < pn_batch_index n)%Z → pn_state n = "pending" ∧ pn_operation_id n = None;
  ng_completed : pk_state r = "completed" → pn_state n = "accepted"
}.

Record gated s : Prop := {
  gt_node key n : rd_nodes s !! key = Some n → ∃ r, rd_rollouts s !! pn_rollout_id n = Some r ∧ node_gated r n;
  gt_row id r : rd_rollouts s !! id = Some r →
    (0 ≤ pk_current_batch r ≤ 1)%Z ∧ (∃ key, in_batch id (pk_current_batch r) s key) ∧ ∃ key, in_batch id 0 s key
}.

(** A node of the rollout after the loop over its current batch. *)
Lemma touched_node rid r s s1 key n :
  gated s → rd_rollouts s !! rid = Some r → touches rid (pk_current_batch r) s s1 →
  rd_nodes s1 !! key = Some n → pn_rollout_id n = rid →
  (0 ≤ pn_batch_index n ≤ 1)%Z ∧ pn_is_canary n = (pn_batch_index n =? 0)%Z
  ∧ (pn_batch_index n ≠ pk_current_batch r → node_gated r n).
Proof.
  intros [GN _] Hr Ht Hn Hid. destruct (tch_nodes _ _ _ _ Ht key) as [E|(m & m' & Hm & Hm' & Hid' & Hb & _ & Hb' & Hc)].
  - rewrite Hn in E. symmetry in E. apply GN in E as (r' & Hr' & [? ? ? ? ?]).
    assert (r' = r) as -> by congruence. split_and!; [lia..|done|done].
  - assert (m' = n) as -> by congruence. apply GN in Hm as (r' & Hr' & [Hi Hk _ _ _]).
    split_and!; [lia..|congruence|]. by intros [].
Qed.

(** What the row of the rollout may become after the loop. *)
Definition same_batch (rid : string) (r : PackageRollout) s (r2 : PackageRollout) : Prop :=
  pk_current_batch r2 = pk_current_batch r ∧
  (pk_state r2 = "completed" → ∀ key n, rd_nodes s !! key = Some n → pn_rollout_id n = rid → pn_state n = "accepted").

Definition batch_done (rid : string) (r : PackageRollout) s : Prop :=
  ∀ key n, rd_nodes s !! key = Some n → pn_rollout_id n = rid → pn_batch_index n = pk_current_batch r →
    pn_state n = "accepted".

Definition later_batch (rid : string) (r : PackageRollout) s (r2 : PackageRollout) : Prop :=
  pk_current_batch r2 = (pk_current_batch r + 1)%Z ∧ pk_state r2 ≠ "completed" ∧ batch_done rid r s ∧
  ∃ key n, rd_nodes s !! key = Some n ∧ pn_rollout_id n = rid ∧ (pk_current_batch r < pn_batch_index n)%Z.

Lemma gated_row rid r s s1 s2 r2 :
  gated s → rd_rollouts s !! rid = Some r → touches rid (pk_current_batch r) s s1 →
  rd_rollouts s2 !! rid = Some r2 → (∀ id, id ≠ rid → rd_rollouts s2 !! id = rd_rollouts s1 !! id) →
  rd_nodes s2 = rd_nodes s1 → same_batch rid r s1 r2 ∨ later_batch rid r s1 r2 → gated s2.
Proof.
  intros G Hr Ht Hr2 Hother HN Hcase. pose proof G as [GN GR]. split.
  - intros key n. rewrite HN. intros Hn. destruct (decide (pn_rollout_id n = rid)) as [Hid|Hid].
    + rewrite Hid. exists r2. split; [done|]. destruct (touched_node _ _ _ _ _ _ G Hr Ht Hn Hid) as (Hi & Hk & Hg).
      destruct Hcase as [[Hb Hc]|(Hb & Hc & Hd & _)]; split; try done; rewrite ?Hb.
      * intros Hlt. apply (ng_before r); [apply Hg; lia|lia].
      * intros Hlt. apply (ng_after r); [apply Hg; lia|lia].
      * intros Hs. by eapply Hc.
      * intros Hlt. destruct (decide (pn_batch_index n = pk_current_batch r)) as [He|He]; [by eapply Hd|].
        apply (ng_before r); [by apply Hg|lia].
      * intros Hlt. apply (ng_after r); [apply Hg; lia|lia].
    + rewrite Hother, (tch_other _ _ _ _ Ht) by done.
      destruct (tch_nodes _ _ _ _ Ht key) as [E|(? & ? & _ & ? & _ & _ & ? & _)]; [|congruence].
      apply (GN key). congruence.
  - assert (∀ id b key, in_batch id b s key → in_batch id b s2 key) as Hin.
    { intros id b key Hk. eapply touches_in_batch in Hk; [|exact Ht]. unfold in_batch in *. by rewrite HN. }
    intros id x Hx. destruct (decide (id = rid)) as [->|Hid].
    + assert (x = r2) as -> by congruence. destruct (GR rid r Hr) as (Hcur & (key & Hk) & key' & Hk').
      destruct Hcase as [[Hb Hc]|(Hb & Hc & Hd & k & n & Hn & Hid & Hlt)]; rewrite Hb; [split_and!; eauto; lia|].
      destruct (touched_node _ _ _ _ _ _ G Hr Ht Hn Hid) as (Hi & _ & _). split_and!; [lia..| |eauto].
      exists k, n. rewrite HN. split_and!; [done..|lia].
    + rewrite Hother, (tch_other _ _ _ _ Ht) in Hx by done. destruct (GR id x Hx) as (Hcur & (key & Hk) & key' & Hk').
      split_and!; [lia..|eauto|eauto].
Qed.

Lemma elem_nodes_of s rid key n : (key, n) ∈ nodes_of s rid ↔ rd_nodes s !! key = Some n ∧ pn_rollout_id n = rid.
Proof.
  unfold nodes_of. rewrite merge_sort_Permutation, list_elem_of_filter, elem_of_map_to_list. cbn. naive_solver.
Qed.

Definition batch_of s (rid : string) (b : Z) : list string :=
  map fst (filter (λ p : string * PackageRolloutNode, pn_batch_index p.2 = b) (nodes_of s rid)).

Lemma elem_batch_of s rid b key : key ∈ batch_of s rid b ↔ in_batch rid b s key.
Proof.
  unfold batch_of, in_batch. rewrite list_elem_of_fmap. split.
  - intros ([k n] & -> & [Hb Hin%elem_nodes_of]%list_elem_of_filter). cbn in *. naive_solver.
  - intros (n & Hn & Hr & Hb). exists (key, n). split; [done|]. apply list_elem_of_filter. by rewrite elem_nodes_of.
Qed.

Lemma job_in_session_frame rid r fresh s id s' :
  job_in_session rid r fresh s = (Ok id, s') → ∃ c, s' = set_rd_control c s.
Proof.
  unfold job_in_session. intros H. inv_run_all. cbv zeta in H.
  assert (s = set_rd_control (rd_control s) s) as Hs by (by destruct s).
  destruct (pk_job_id r ≫= _) as [job|]; [inv_run_all; eauto|].
  destruct (find_row _ _) as [[job j]|]; [inv_run_all; eauto|].
  destruct fresh as [[job request] now]. inv_run_all. apply on_control_frame in H0 as (c & _ & ->). eauto.
Qed.

(** The end of a call whose batch is not finished. *)
Lemma close_batch_gated rid job r now s s1 u s2 :
  gated s → rd_rollouts s !! rid = Some r → pk_state r ≠ "completed" → touches rid (pk_current_batch r) s s1 →
  close_batch rid job (batch_of s rid (pk_current_batch r)) now s1 = (Ok u, s2) → gated s2.
Proof.
  intros G Hr Hst Ht H. unfold close_batch in H. inv_run_all.
  destruct (tch_row _ _ _ _ Ht r Hr) as (r1 & Hr1 & Hb & Hst1). rewrite Hr1, Hb in H.
  destruct (forallb _ _) eqn:Hall; [|inv_run_all; eapply (gated_row rid r s s1); [done..|]; left; split; [done|]; intros ?; exfalso; destruct Hst1; congruence].
  assert (batch_done rid r s1) as Hdone.
  { intros key n Hn Hid Hidx. pose proof (proj1 (forallb_forall _ _) Hall key) as Hk. cbv beta in Hk. rewrite Hn in Hk.
    apply eqb_true, Hk, list_elem_of_In, elem_batch_of. destruct (tch_nodes _ _ _ _ Ht key) as [E|(m & _ & Hm & _ & ? & ? & _)].
    - exists n. by rewrite <- E.
    - by exists m. }
  destruct (existsb _ _) eqn:Hex.
  - apply existsb_exists in Hex as ([k n] & Hin%list_elem_of_In%elem_nodes_of & Hlt%Z.ltb_lt).
    unfold put_rollout in H. inv_run_all. eapply (gated_row rid r s s1 _ (next_batch now r1)); [done..| | |done|].
    + cbn. by rewrite lookup_insert_eq.
    + intros id ?. cbn. by rewrite lookup_insert_ne.
    + right. split_and!; [cbn; congruence|done|done|]. exists k, n. cbn in *. by destruct Hin.
  - unfold put_rollout in H. inv_run_all. apply set_job_frame in H as (c & ->).
    eapply (gated_row rid r s s1 _ (completed_rollout now r1)); [done..| | |done|].
    + cbn. by rewrite lookup_insert_eq.
    + intros id ?. cbn. by rewrite lookup_insert_ne.
    + left. split; [done|]. intros _ key n Hn Hid.
      destruct (touched_node _ _ _ _ _ _ G Hr Ht Hn Hid) as (_ & _ & Hg).
      destruct (Z.lt_trichotomy (pn_batch_index n) (pk_current_batch r)) as [Hlt|[He|Hlt]];
        [by apply (ng_before r); [apply Hg; lia|]|by eapply Hdone|].
      assert (existsb (λ p : string * PackageRolloutNode, (pk_current_batch r <? pn_batch_index p.2)%Z) (nodes_of s1 rid) = true);
        [|congruence]. apply existsb_exists. exists (key, n). split; [|by apply Z.ltb_lt].
      by apply list_elem_of_In, elem_nodes_of.
Qed.

(** An advance of an open rollout: its parent, the loop over its batch, the end. *)
Lemma rollout_advance_run rid i s r st s' :
  rd_rollouts s !! rid = Some r → batch_of s rid (pk_current_batch r) ≠ [] → among (pk_state r) closed_states = false →
  advance_rollout update_authorizer rid i s = (Ok st, s') →
  ∃ job c queued s1,
    job_in_session rid r (ai_fresh_job i) s = (Ok job, set_rd_control c s) ∧
    advance_nodes update_authorizer rid job (ai_draws i) (ai_now i) (batch_of s rid (pk_current_batch r))
      (set_rd_control c s) = (Ok queued, s1) ∧
    (if (queued : bool)
     then alter_rollout rid (λ r, touched (ai_now i) (if eqb (pk_state r) "rolling-back" then r else to_state "running" r))
     else close_batch rid job (batch_of s rid (pk_current_batch r)) (ai_now i)) s1 = (Ok (), s').
Proof.
  intros Hr Hb Hclosed H. unfold advance_rollout in H. inv_run_all. rewrite Hr in H. unfold closed_states in Hclosed.
  rewrite Hclosed in H. fold (batch_of s rid (pk_current_batch r)) in H.
  assert (nodes_of s rid ≠ []) as Hn by (intros E; apply Hb; unfold batch_of; by rewrite E).
  rewrite (proj2 (nonempty_true _) Hn) in H. cbn [negb] in H. inv_run_all.
  rewrite (proj2 (nonempty_true _) Hb) in H. cbn [negb] in H. inv_run_all.
  destruct (job_in_session_frame _ _ _ _ _ _ H0) as (c & ->).
  match goal with H : rollout_state _ ?s2 = _, H' : _ ?s1 = (Ok ?u, ?s2) |- _ => exists x, c, x1, s1; destruct u end.
  split_and!; [done..|]. match goal with H : rollout_state _ _ = _ |- _ => unfold rollout_state in H end. inv_run_all.
  by case_match; inv_run_all.
Qed.

Lemma in_batch_control rid b c s key : in_batch rid b (set_rd_control c s) key ↔ in_batch rid b s key.
Proof. done. Qed.

(** A call that returns left everything as it was, or ran the loop over the batch. *)
Lemma advance_cases rid i s st s' : gated s → advance_rollout update_authorizer rid i s = (Ok st, s') →
  s' = s ∨ ∃ r job c queued s1, rd_rollouts s !! rid = Some r ∧ among (pk_state r) closed_states = false ∧
    job_in_session rid r (ai_fresh_job i) s = (Ok job, set_rd_control c s) ∧
    advance_nodes update_authorizer rid job (ai_draws i) (ai_now i) (batch_of s rid (pk_current_batch r))
      (set_rd_control c s) = (Ok queued, s1) ∧
    (if (queued : bool)
     then alter_rollout rid (λ r, touched (ai_now i) (if eqb (pk_state r) "rolling-back" then r else to_state "running" r))
     else close_batch rid job (batch_of s rid (pk_current_batch r)) (ai_now i)) s1 = (Ok (), s').
Proof.
  intros G H. destruct (rd_rollouts s !! rid) as [r|] eqn:Hr;
    [|unfold advance_rollout in H; inv_run_all; rewrite Hr in H; by inv_run_all].
  destruct (among (pk_state r) closed_states) eqn:Hclosed.
  { left. unfold advance_rollout, closed_states in *. inv_run_all. rewrite Hr, Hclosed in H. by inv_run_all. }
  assert (batch_of s rid (pk_current_batch r) ≠ []) as Hb.
  { destruct (gt_row s G rid r Hr) as (_ & (key & Hkey%elem_batch_of) & _). intros E. rewrite E in Hkey. set_solver. }
  right. destruct (rollout_advance_run _ _ _ _ _ _ Hr Hb Hclosed H) as (job & c & queued & s1 & ?). exists r, job, c, queued, s1. done.
Qed.

Lemma advance_gated rid i s st s' :
  gated s → advance_rollout update_authorizer rid i s = (Ok st, s') → gated s'.
Proof.
  intros G H. destruct (advance_cases _ _ _ _ _ G H) as [->|(r & job & c & queued & s1 & Hr & Hclosed & _ & Hloop & Hend)]; [done|].
  assert (pk_state r ≠ "completed") as Hst by (intros E; by rewrite E in Hclosed).
  eapply advance_nodes_touches in Hloop; [|intros k; by rewrite elem_batch_of, in_batch_control].
  assert (touches rid (pk_current_batch r) s s1) as Ht by (etrans; [apply (touches_control _ _ c)|exact Hloop]).
  destruct queued; [|by eapply close_batch_gated]. apply modify_ok in Hend as ->.
  destruct (tch_row _ _ _ _ Ht r Hr) as (r1 & Hr1 & Hcur & _). eapply (gated_row rid r s s1); [done..| | |done|].
  - cbn. by rewrite lookup_alter_eq, Hr1.
  - intros id ?. cbn. by rewrite lookup_alter_ne.
  - left. split; [by case_match|]. intros Hs. exfalso. case_match; [|done]. bool_facts. cbn in Hs. congruence.
Qed.
End advancing.

(** ** Creation *)

(** A node [create] inserted. *)
Definition fresh_node (rid : string) (n : PackageRolloutNode) : Prop :=
  pn_rollout_id n = rid ∧ (0 ≤ pn_batch_index n ≤ 1)%Z ∧ pn_is_canary n = (pn_batch_index n =? 0)%Z
  ∧ pn_state n = "pending" ∧ pn_operation_id n = None ∧ pn_operation_history n = [].

(** The rows [insert_nodes] adds. *)
Record adds_nodes (rid : string) (s s' : rollout_db) : Prop := {
  an_control : rd_control s' = rd_control s;
  an_rollouts : rd_rollouts s' = rd_rollouts s;
  an_old key n : rd_nodes s !! key = Some n → rd_nodes s' !! key = Some n;
  an_new key n : rd_nodes s' !! key = Some n → rd_nodes s !! key = Some n ∨ fresh_node rid n
}.

#[export] Instance adds_nodes_preorder rid : PreOrder (adds_nodes rid).
Proof.
  split; [intros s; split; auto|]. intros s1 s2 s3 [C12 R12 O12 N12] [C23 R23 O23 N23].
  split; [congruence..|eauto|]. intros key n [Hn|Hn]%N23; auto.
Qed.

Lemma insert_rollout_node_adds rid key n s u s' :
  fresh_node rid n → insert_rollout_node key n s = (Ok u, s') → adds_nodes rid s s' ∧ rd_nodes s' !! key = Some n.
Proof.
  intros Hf H. unfold insert_rollout_node, put_rollout_node in H. inv_run_all. bool_facts.
  split; [|apply lookup_insert_eq]. split; cbn; [done..| |].
  - intros k m Hm. rewrite lookup_insert_ne by congruence. done.
  - intros k m [[<- <-]|[_ Hm]]%lookup_insert_Some; auto.
Qed.

Lemma insert_nodes_adds rid p package_nodes keys now order node_ids s u s' :
  (0 ≤ order)%Z → insert_nodes rid p package_nodes keys now order node_ids s = (Ok u, s') →
  adds_nodes rid s s' ∧ (order = 0%Z → node_ids ≠ [] → ∃ key, in_batch rid 0 s' key).
Proof.
  revert order s u. induction node_ids as [|id node_ids IH]; intros order s u Ho H; cbn in H; [by inv_run_all|].
  destruct (head _) as [first|]; [|by inv_run_all]. inv_run_all.
  match goal with H : insert_rollout_node _ _ _ = _ |- _ => apply (insert_rollout_node_adds rid) in H as [Ha Hk] end.
  - apply IH in H as [Ha' _]; [|lia]. split; [by etrans|]. intros -> _. eexists _, _. split; [by apply (an_old _ _ _ Ha'), Hk|done].
  - unfold fresh_node. cbn. destruct (Z.eqb_spec order 0) as [->|]; by repeat split.
Qed.

Lemma created_gated rid r c s s' :
  gated s → rd_rollouts s !! rid = None → pk_current_batch r = 0%Z → pk_state r = "planned" →
  adds_nodes rid (RolloutDb c (<[rid := r]> (rd_rollouts s)) (rd_nodes s)) s' → (∃ key, in_batch rid 0 s' key) → gated s'.
Proof.
  intros [GN GR] Hrid Hb Hst [_ HR HO HN] Hk. cbn in HR, HO, HN. split; rewrite HR.
  - intros key n [Hn|(-> & Hi & Hc & Hs & Ho & _)]%HN.
    + destruct (GN _ _ Hn) as (x & Hx & Hg). exists x. by rewrite lookup_insert_ne by congruence.
    + exists r. rewrite lookup_insert_eq. split; [done|]. split; rewrite ?Hb, ?Hst; [done..|lia|done|done].
  - intros id x [[<- <-]|[Hne Hx]]%lookup_insert_Some; [by rewrite Hb|].
    destruct (GR id x Hx) as (Hi & (key & n & Hn & Hrest) & key' & n' & Hn' & Hrest').
    split_and!; [lia..|exists key, n; auto|exists key', n'; auto].
Qed.

Lemma create_gated p deployment actor request job rid keys now s id s' :
  gated s → create_rollout p deployment actor request job rid keys now s = (Ok id, s') → gated s'.
Proof.
  intros G H. unfold create_rollout in H. inv_run_all.
  destruct (find_row _ _) as [[existing e]|]; [by inv_run_all|]. inv_run_all. bool_facts.
  match goal with H : on_control _ _ = _ |- _ => apply on_control_frame in H as (c & _ & ->) end.
  unfold put_rollout in *. inv_run_all.
  match goal with H : insert_nodes _ _ _ _ _ _ _ _ = _ |- _ => apply insert_nodes_adds in H as [Ha Hk]; [|done] end.
  eapply created_gated; [done|done| | |exact Ha|]; [done..|]. apply Hk; [done|].
  match goal with H : rollout_check (nonempty ?l) _ = _ |- _ => unfold rollout_check in H; inv_run_all; rename H into Hne end.
  apply nonempty_true in Hne. intros Hl. apply Hne, length_zero_iff_nil.
  destruct (filter _ _) as [|x' l]; [done|]. exfalso. assert (op_node_id x' ∈ ([] : list string)); [|set_solver].
  rewrite <- Hl. apply py_sorted_elem_of, elem_of_remove_dups. cbn. set_solver.
Qed.

(** One transaction on the tables of rollouts, or any activity of the rest of the
    control plane. *)
Inductive rollout_step {prepared} (update_authorizer : option (UpdateAuthorizer prepared)) (s : rollout_db)
    : rollout_db → Prop :=
| rs_create p deployment actor request job rid keys now :
    rollout_step update_authorizer s (create_rollout p deployment actor request job rid keys now s).2
| rs_advance rid i : rollout_step update_authorizer s (advance_rollout update_authorizer rid i s).2
| rs_rollback rid now : rollout_step update_authorizer s (begin_rollback rid now s).2
| rs_control c : rollout_step update_authorizer s (set_rd_control c s).

Definition no_rollouts (c : control_db) : rollout_db := RolloutDb c ∅ ∅.

Lemma step_gated {prepared} (ua : option (UpdateAuthorizer prepared)) s s' : gated s → rollout_step ua s s' → gated s'.
Proof.
  set (R := λ s s', gated s → gated s'). assert (Reflexive R) by (by intros ?).
  intros G [p deployment actor request job rid keys now|rid i|rid now|c].
  - revert G. apply (moves_atomic R); [unfold create_rollout; solve_atomic|]. intros ?????. by eapply create_gated.
  - revert G. apply (moves_atomic R); [apply atomic_transaction|]. intros ?????. by eapply advance_gated.
  - destruct (rd_rollouts s !! rid) as [r|] eqn:Hr.
    + eapply (gated_row rid r s s); [done..|reflexivity| | |done|]; cbn.
      * by rewrite lookup_alter_eq, Hr.
      * intros id ?. by rewrite lookup_alter_ne.
      * left. by split.
    + cbn. rewrite alter_id by (intros ?; by rewrite Hr). by destruct G, s.
  - by destruct G.
Qed.

Section canary.
Context {prepared : Type} (update_authorizer : option (UpdateAuthorizer prepared)).

Lemma reachable_gated c s : rtc (rollout_step update_authorizer) (no_rollouts c) s → gated s.
Proof.
  intros Hs. assert (gated (no_rollouts c)) as G by (split; intros ?? H; cbn in H; by rewrite lookup_empty in H).
  revert G. induction Hs as [|s1 s2 s3 H12 _ IH]; [done|]. intros G. by apply IH, (step_gated _ _ _ G H12).
Qed.

(** C8. In every database that creations, advances and rollbacks of package rollouts
    and any activity of the rest of the control plane lead to, a rollout has a canary;
    a node that is not the canary is pending, with no operation, unless each canary of
    its rollout is accepted; and every node of a completed rollout is accepted. *)
Theorem canary_comes_first c s rid r :
  rtc (rollout_step update_authorizer) (no_rollouts c) s → rd_rollouts s !! rid = Some r →
  (∃ key n, rd_nodes s !! key = Some n ∧ pn_rollout_id n = rid ∧ pn_is_canary n = true) ∧
  (∀ key n key' n', rd_nodes s !! key = Some n → pn_rollout_id n = rid → pn_is_canary n = true →
     rd_nodes s !! key' = Some n' → pn_rollout_id n' = rid → pn_is_canary n' = false →
     pn_state n = "accepted" ∨ pn_state n' = "pending" ∧ pn_operation_id n' = None) ∧
  (pk_state r = "completed" → ∀ key n, rd_nodes s !! key = Some n → pn_rollout_id n = rid → pn_state n = "accepted").
Proof.
  intros [GN GR]%reachable_gated Hr. assert (∀ key n, rd_nodes s !! key = Some n → pn_rollout_id n = rid → node_gated r n) as Hg.
  { intros key n Hn Hid. destruct (GN key n Hn) as (x & Hx & Hg). by assert (x = r) as <- by congruence. }
  destruct (GR rid r Hr) as (Hcur & _ & key & n & Hn & Hid & Hb). split_and!.
  - exists key, n. split_and!; [done..|]. rewrite (ng_canary r n) by eauto. by rewrite Hb.
  - intros k m k' m' Hm Hmid Hc Hm' Hmid' Hc'. destruct (Hg _ _ Hm Hmid) as [Hi Hk Hbef _ _], (Hg _ _ Hm' Hmid') as [Hi' Hk' _ Haft _].
    rewrite Hc in Hk. rewrite Hc' in Hk'. destruct (decide (pk_current_batch r = 0%Z)); [right; apply Haft|left; apply Hbef]; lia.
  - intros Hst k m Hm Hmid. by apply (ng_completed r m); [eauto|].
Qed.
End canary.
