(* ===== verification/PackagePlanFacts.v ===== *)
(** * What the plans of package rollouts guarantee

    The selection takes eligible nodes, preferred ones first. The graph is acyclic
    and local to the nodes: an operation depends on operations of its own node only,
    and has a payload. And a defect: no plan is resolved for a fleet of two or more
    nodes. *)

From S2P Require Import Prelude Identifiers Canonical Documents JsonText Contracts PackageEngine Protocol.
From S2P Require Import OperationGraph Orchestration AgentTables AgentJobs Messages Routes ReleaseLocks ReleaseLockFacts PackageRollouts PackagePlans.

(** ** Names of operations *)

Lemma has_char_append c s t : has_char c (s +:+ String c t) = true.
Proof.
  induction s as [|a s IH].
  - change ("" +:+ String c t) with (String c t). cbn [has_char]. by rewrite eqb_refl.
  - change (String a s +:+ String c t) with (String a (s +:+ String c t)). cbn [has_char]. rewrite IH. apply orb_true_r.
Qed.

(** The part after the last separator. *)
Lemma append_char_inj c s1 s2 t1 t2 :
  s1 +:+ String c t1 = s2 +:+ String c t2 → has_char c t1 = false → has_char c t2 = false → s1 = s2 ∧ t1 = t2.
Proof.
  revert s2. induction s1 as [|a s1 IH]; intros [|b s2] H H1 H2.
  - by injection H as ->.
  - injection H as -> ->. by rewrite has_char_append in H1.
  - injection H as -> <-. by rewrite has_char_append in H2.
  - injection H as -> H. apply IH in H as [-> ->]; done.
Qed.

Lemma substring_whole n s : String.length s ≤ n → String.substring 0 n s = s.
Proof.
  revert n. induction s as [|c s IH]; intros [|n]; cbn; intros Hn; [done|done|lia|]. by rewrite IH by lia.
Qed.

Lemma hex_no_colon s : all_chars is_hex s = true → has_char ":"%char s = false.
Proof.
  induction s as [|c s IH]; cbn [all_chars has_char]; [done|]. intros [Hc Hs]%andb_true_iff. rewrite (IH Hs), orb_false_r.
  apply eqb_false. by intros <-.
Qed.

Lemma prefix_char a p s : String.prefix (String a p) s = true → ∃ rest, s = String a rest ∧ String.prefix p rest = true.
Proof.
  destruct s as [|b rest]; cbn; [done|]. destruct (Ascii.ascii_dec a b) as [->|]; [|done]. eauto.
Qed.

Lemma node_id_no_colon s : is_node_id s = true → has_char ":"%char s = false.
Proof.
  unfold is_node_id. intros [[Hp Hl]%andb_true_iff Hh]%andb_true_iff. apply Nat.eqb_eq in Hl.
  do 4 (apply prefix_char in Hp as (rest & -> & Hp); rename rest into s). injection Hl as Hl.
  change (String.substring 4 32 _) with (String.substring 0 32 s) in Hh. rewrite substring_whole in Hh by lia.
  cbn [has_char]. by rewrite (hex_no_colon _ Hh).
Qed.

Lemma operation_id_inj d d' n n' k k' :
  is_node_id n = true → is_node_id n' = true → has_char ":"%char k = false → has_char ":"%char k' = false →
  package_operation_id d n k = package_operation_id d' n' k' → d = d' ∧ n = n' ∧ k = k'.
Proof.
  assert (∀ d n k, package_operation_id d n k = (d +:+ String ":"%char n) +:+ String ":"%char k) as E
    by (intros; by rewrite <- (assoc_L String.append)).
  intros Hn Hn' Hk Hk' H. rewrite !E in H. apply append_char_inj in H as [H ->]; [|done..].
  apply append_char_inj in H as [-> ->]; [done|by apply node_id_no_colon..].
Qed.

(** ** The operations of a node *)

Definition lifecycle_kinds : list string := values [PACKAGE_PREPARE; PACKAGE_STOP; PACKAGE_ACTIVATE; PACKAGE_HEALTH].

Definition rank (kind : string) : nat :=
  if eqb kind PACKAGE_PREPARE then 0 else if eqb kind PACKAGE_STOP then 1
  else if eqb kind PACKAGE_ACTIVATE then 2 else 3.

Lemma kinds_lifecycle d previous k : k ∈ kinds_of d previous → k ∈ lifecycle_kinds.
Proof.
  unfold kinds_of. destruct previous as [[release ?]|]; [destruct (eqb _ _)|]; rewrite <- !among_true;
    unfold among; rewrite !bool_decide_eq_true; cbn; set_solver.
Qed.

Lemma lifecycle_no_colon k : k ∈ lifecycle_kinds → has_char ":"%char k = false.
Proof. unfold lifecycle_kinds. cbn. rewrite !elem_of_cons, elem_of_nil. by intros [->|[->|[->|[->|[]]]]]. Qed.

(** Comparisons of kinds, evaluated. *)
Ltac eval_kinds :=
  repeat match goal with
  | |- context [eqb ?a ?b] => let v := eval vm_compute in (eqb a b) in progress change (eqb a b) with v; cbv iota
  | |- context [among ?a ?b] => let v := eval vm_compute in (among a b) in progress change (among a b) with v; cbv iota
  end.

(** Dependencies are operations of the same node that come earlier in the lifecycle. *)
Lemma dependencies_rank d deployment_id node_id previous kind dep :
  kind ∈ kinds_of d previous → dep ∈ package_dependencies deployment_id node_id (kinds_of d previous) kind →
  ∃ k, k ∈ kinds_of d previous ∧ rank k < rank kind ∧ dep = package_operation_id deployment_id node_id k.
Proof.
  unfold kinds_of. destruct previous as [[release ?]|]; [destruct (eqb release _)|]; unfold package_kinds; cbn [values map];
    rewrite !elem_of_cons, elem_of_nil; intros Hk Hd; repeat (destruct Hk as [->|Hk]); try done; revert Hd;
    unfold package_dependencies; cbv zeta; eval_kinds; rewrite ?py_sorted_elem_of, ?elem_of_cons, elem_of_nil; intros Hd;
    repeat (destruct Hd as [->|Hd]); try done; 
    (eexists; split_and!; [| |reflexivity]; [rewrite !elem_of_cons; tauto|vm_compute; lia]).
Qed.

(** ** The collected parts *)

(** An operation of the lifecycle of a node. *)
Record lifecycle_node (n : OperationNode) : Prop := {
  ln_node : is_node_id (op_node_id n) = true;
  ln_kind : op_kind n ∈ lifecycle_kinds;
  ln_id : op_id n = package_operation_id (op_workload_id n) (op_node_id n) (op_kind n);
  ln_dependencies dep : dep ∈ op_dependencies n → ∃ k, k ∈ lifecycle_kinds ∧ rank k < rank (op_kind n) ∧
    dep = package_operation_id (op_workload_id n) (op_node_id n) k
}.

Record sound_parts (g : graph_parts) : Prop := {
  sp_distinct : NoDup (op_id <$> gp_nodes g);
  sp_nodes n : n ∈ gp_nodes g → lifecycle_node n;
  sp_closed n dep : n ∈ gp_nodes g → dep ∈ op_dependencies n → dep ∈ op_id <$> gp_nodes g;
  sp_keys : NoDup (gp_payloads g).*1;
  sp_payloads id : id ∈ op_id <$> gp_nodes g → ∃ payload, lookup_key (gp_payloads g) id = Some (JObj payload)
}.

(** The operation a dependency names. *)
Lemma dependency_node g n dep : sound_parts g → n ∈ gp_nodes g → dep ∈ op_dependencies n →
  ∃ m, m ∈ gp_nodes g ∧ op_id m = dep ∧ op_node_id m = op_node_id n ∧ rank (op_kind m) < rank (op_kind n).
Proof.
  intros [_ Hnodes Hclosed _ _] Hn Hdep. destruct (Hnodes n Hn) as [Hid _ _ Hd]. destruct (Hd dep Hdep) as (k & Hk & Hr & E).
  pose proof (Hclosed n dep Hn Hdep) as (m & -> & Hm)%list_elem_of_fmap. destruct (Hnodes m Hm) as [Hmid Hmk Hmi _].
  exists m. rewrite Hmi in E. apply operation_id_inj in E as (_ & -> & ->); [|done|done|by apply lifecycle_no_colon..].
  by split_and!.
Qed.

Lemma put_node_ids n nodes : op_id <$> put_node_of n nodes =
  if among (op_id n) (op_id <$> nodes) then op_id <$> nodes else (op_id <$> nodes) ++ [op_id n].
Proof.
  unfold put_node_of. change (map op_id nodes) with (op_id <$> nodes). destruct (among _ _); [|by rewrite fmap_app].
  rewrite <- list_fmap_compose. apply list_fmap_ext. intros i x _. unfold compose.
  destruct (eqb (op_id x) (op_id n)) eqn:E; [|done]. by apply (proj1 (eqb_true _ _)) in E.
Qed.

(** Assigning operations to the dictionary one after the other. *)
Lemma put_operations_nodes g operations : NoDup (op_id <$> gp_nodes g) →
  let g' := foldl put_operation_of g operations in
  NoDup (op_id <$> gp_nodes g') ∧ (∀ n, n ∈ gp_nodes g' → n ∈ gp_nodes g ∨ n ∈ operations.*1) ∧
  (∀ id, id ∈ op_id <$> gp_nodes g' ↔ id ∈ op_id <$> gp_nodes g ∨ id ∈ op_id <$> operations.*1).
Proof.
  revert g. induction operations as [|[n payload] operations IH]; intros g Hnd; cbn -[op_id].
  - split_and!; [done|by left|]. intros id. rewrite elem_of_nil. tauto.
  - destruct (IH (put_operation_of g (n, payload))) as (Hnd' & Hin & Hids).
    + cbn. rewrite put_node_ids. destruct (among _ _) eqn:Ha; [done|]. apply NoDup_app. split_and!; [done| |apply NoDup_singleton].
      intros x Hx ->%list_elem_of_singleton. apply among_true in Hx. congruence.
    + split_and!; [done| |].
      * intros m [Hm|Hm]%Hin; [|right; set_solver]. cbn in Hm. unfold put_node_of in Hm. destruct (among _ _).
        -- apply list_elem_of_fmap in Hm as (x & -> & Hx). destruct (eqb _ _); [right|left]; set_solver.
        -- apply elem_of_app in Hm as [Hm|Hm]; [by left|]. apply list_elem_of_singleton in Hm as ->. right. set_solver.
      * intros id. rewrite Hids. cbn -[op_id]. rewrite put_node_ids, elem_of_cons. destruct (among _ _) eqn:Ha.
        -- apply among_true in Ha. set_solver.
        -- rewrite elem_of_app, list_elem_of_singleton. tauto.
Qed.

Lemma lookup_key_cons {A} (p : string * A) l key : lookup_key (p :: l) key = if eqb p.1 key then Some p.2 else lookup_key l key.
Proof. unfold lookup_key. rewrite filter_cons. unfold eqb. destruct (decide (p.1 = key)); [by rewrite bool_decide_eq_true_2|by rewrite bool_decide_eq_false_2]. Qed.

Lemma put_item_lookup items key v k : lookup_key (put_item items key v) k = if eqb key k then Some v else lookup_key items k.
Proof.
  unfold put_item. destruct (among key items.*1) eqn:Ha.
  - apply among_true in Ha. induction items as [|[k' w] items IH]; [by apply elem_of_nil in Ha|]. cbn [map].
    rewrite !lookup_key_cons. cbn [fst snd]. destruct (eqb k' key) eqn:E.
    + apply (proj1 (eqb_true _ _)) in E as ->. cbn [fst snd]. destruct (eqb key k) eqn:Ek; [done|].
      clear IH Ha. induction items as [|[k' w'] items IH]; [done|]. cbn [map]. rewrite !lookup_key_cons. cbn [fst snd].
      destruct (eqb k' key) eqn:E'; cbn [fst snd]; [|by destruct (eqb k' k)].
      apply (proj1 (eqb_true _ _)) in E' as ->. by rewrite Ek.
    + cbn [fst snd]. destruct (eqb k' k) eqn:Ek; [|apply IH; apply (proj1 (eqb_false _ _)) in E; set_solver].
      apply (proj1 (eqb_true _ _)) in Ek as ->. destruct (eqb key k) eqn:Ekk; [|done].
      apply (proj1 (eqb_true _ _)) in Ekk as ->. by rewrite eqb_refl in E.
  - assert (key ∉ items.*1) as Hk by (intros Hin; apply among_true in Hin; congruence). clear Ha.
    induction items as [|[k' w] items IH]; cbn [app]; rewrite !lookup_key_cons; cbn [fst snd]; [done|].
    destruct (eqb k' k) eqn:E; [|apply IH; set_solver]. apply (proj1 (eqb_true _ _)) in E as ->.
    destruct (eqb key k) eqn:Ek; [|done]. apply (proj1 (eqb_true _ _)) in Ek as ->. set_solver.
Qed.

Lemma put_item_keys items key v : NoDup items.*1 → NoDup (put_item items key v).*1.
Proof.
  intros Hnd. unfold put_item. destruct (among key items.*1) eqn:Ha.
  - assert ((map (λ p : string * json, if eqb p.1 key then (key, v) else p) items).*1 = items.*1) as ->; [|done].
    clear. induction items as [|[k w] items IH]; [done|]. cbn [map fmap list_fmap fst]. rewrite <- IH. f_equal.
    destruct (eqb k key) eqn:E; [|done]. by apply (proj1 (eqb_true _ _)) in E.
  - rewrite fmap_app. apply NoDup_app. split_and!; [done| |apply NoDup_singleton].
    intros x Hx ->%list_elem_of_singleton. apply among_true in Hx. cbn in Hx. congruence.
Qed.

Lemma put_operations_payloads g operations :
  let g' := foldl put_operation_of g operations in
  (NoDup (gp_payloads g).*1 → NoDup (gp_payloads g').*1) ∧
  (∀ id, (∃ payload, lookup_key (gp_payloads g) id = Some (JObj payload)) ∨ id ∈ op_id <$> operations.*1 →
     ∃ payload, lookup_key (gp_payloads g') id = Some (JObj payload)).
Proof.
  revert g. induction operations as [|[n payload] operations IH]; intros g; cbn -[op_id].
  - split; [done|]. intros id [?|Hid]; [done|]. by apply elem_of_nil in Hid.
  - destruct (IH (put_operation_of g (n, payload))) as [Hnd Hpay]. cbn -[op_id] in Hnd, Hpay.
    split; [intros ?; by apply Hnd, put_item_keys|]. intros id Hid. apply Hpay. rewrite put_item_lookup.
    destruct (eqb (op_id n) id) eqn:E; [left; eauto|]. apply (proj1 (eqb_false _ _)) in E.
    destruct Hid as [?|[->|?]%elem_of_cons]; [by left|done|by right].
Qed.

Lemma put_operations_sound g operations :
  sound_parts g → (∀ n, n ∈ operations.*1 → lifecycle_node n) →
  (∀ n dep, n ∈ operations.*1 → dep ∈ op_dependencies n → dep ∈ op_id <$> operations.*1) →
  sound_parts (foldl put_operation_of g operations).
Proof.
  intros [Hnd Hnodes Hclosed Hkeys Hpay] Hl Hc. destruct (put_operations_nodes g operations Hnd) as (Hnd' & Hin & Hids).
  destruct (put_operations_payloads g operations) as [Hk Hp]. split; [done| | |by apply Hk|].
  - intros n [Hn|Hn]%Hin; auto.
  - intros n dep Hn Hdep. apply Hids. destruct (Hin n Hn) as [?|?]; eauto.
  - intros id [Hid|Hid]%Hids; apply Hp; auto.
Qed.

(** ** The graph *)

Lemma node_operation_ok d deployment_id node_id previous kind n payload :
  node_operation d deployment_id node_id previous kind = Ok (n, payload) →
  op_id n = package_operation_id deployment_id node_id kind ∧ op_node_id n = node_id ∧ op_workload_id n = deployment_id
  ∧ op_kind n = kind ∧ op_dependencies n = package_dependencies deployment_id node_id (kinds_of d previous) kind.
Proof. unfold node_operation. intros H. inv_run_all. by injection H as <- <-. Qed.

Lemma node_operations_ok d deployment_id node_id previous operations :
  is_node_id node_id = true → traverse (node_operation d deployment_id node_id previous) (kinds_of d previous) = Ok operations →
  (∀ n, n ∈ operations.*1 → lifecycle_node n ∧ op_node_id n = node_id) ∧
  (∀ n dep, n ∈ operations.*1 → dep ∈ op_dependencies n → dep ∈ op_id <$> operations.*1).
Proof.
  intros Hid H%traverse_ok.
  assert (∀ n, n ∈ operations.*1 → ∃ kind payload, kind ∈ kinds_of d previous ∧
    node_operation d deployment_id node_id previous kind = Ok (n, payload)) as Hop.
  { intros n ([m payload] & -> & Hin)%list_elem_of_fmap. destruct (Forall2_elem_r _ _ _ _ H Hin) as (kind & Hk & E). eauto. }
  assert (∀ kind, kind ∈ kinds_of d previous → package_operation_id deployment_id node_id kind ∈ op_id <$> operations.*1) as Hids.
  { intros kind Hk. destruct (Forall2_elem_l _ _ _ _ H Hk) as ([n payload] & Hin & E%node_operation_ok).
    destruct E as (<- & _). apply list_elem_of_fmap_2. by apply (list_elem_of_fmap_2 fst) in Hin. }
  split.
  - intros n (kind & payload & Hk & (Ei & En & Ew & Ek & Ed)%node_operation_ok)%Hop. split; [|done].
    split; rewrite ?En, ?Ew, ?Ek; [done|by eapply kinds_lifecycle|done|]. intros dep. rewrite Ed. intros Hdep.
    destruct (dependencies_rank _ _ _ _ _ _ Hk Hdep) as (k & Hk' & Hr & ->). exists k. split_and!; [by eapply kinds_lifecycle|done..].
  - intros n dep (kind & payload & Hk & (_ & _ & _ & _ & Ed)%node_operation_ok)%Hop. rewrite Ed. intros Hdep.
    destruct (dependencies_rank _ _ _ _ _ _ Hk Hdep) as (k & Hk' & _ & ->). by apply Hids.
Qed.

Lemma put_operations_elem g operations n : NoDup (op_id <$> gp_nodes g) → n ∈ gp_nodes (foldl put_operation_of g operations) →
  n ∈ gp_nodes g ∨ n ∈ operations.*1.
Proof. intros Hnd. by apply put_operations_nodes. Qed.

Lemma node_parts_sound d deployment_id release g selected release' g' :
  sound_parts g → (∀ id, id ∈ selected.*1 → is_node_id id = true) →
  node_parts d deployment_id release g selected = Ok (release', g') →
  sound_parts g' ∧ ∀ n, n ∈ gp_nodes g' → n ∈ gp_nodes g ∨ op_node_id n ∈ selected.*1.
Proof.
  revert release g. induction selected as [|[id o] selected IH]; intros release g Hg Hids H; cbn [node_parts] in H.
  - inv_run_all. injection H as <- <-. split; [done|]. by left.
  - inv_run_all. rename x into release1, x0 into operations.
    match goal with H : traverse _ _ = _ |- _ => apply node_operations_ok in H as [Hl Hc]; [|apply Hids; set_solver] end.
    pose proof (put_operations_sound g operations Hg (λ n Hn, proj1 (Hl n Hn)) Hc) as Hg1.
    apply IH in H as [Hg' Hin]; [|done|intros k Hk; apply Hids; set_solver]. split; [done|].
    intros n [Hn|Hn]%Hin; [|right; set_solver]. apply put_operations_elem in Hn as [?|Hn]; [by left| |apply Hg].
    right. destruct (Hl n Hn) as [_ ->]. set_solver.
Qed.

Lemma sound_parts_frame g g' : gp_nodes g' = gp_nodes g → gp_payloads g' = gp_payloads g → sound_parts g → sound_parts g'.
Proof. intros En Ep [? ? ? ? ?]. split; rewrite ?En, ?Ep; done. Qed.

Definition selected_ids (plans : list (string * deployment_plan)) : list string :=
  concat (map (λ p : string * deployment_plan, (dp_selected p.2).*1) plans).

Lemma elem_selected plans id : id ∈ selected_ids plans ↔ ∃ p, p ∈ plans ∧ id ∈ (dp_selected p.2).*1.
Proof.
  unfold selected_ids. induction plans as [|p plans IH]; cbn [map concat]; [set_solver|]. rewrite elem_of_app, IH. set_solver.
Qed.

Lemma paired_keys {A} (f : string → A) l : (map (λ id, (id, f id)) l).*1 = l.
Proof. induction l as [|x l IH]; [done|]. cbn [map fmap list_fmap fst]. by f_equal. Qed.

Lemma all_parts_sound plans g g' :
  sound_parts g → (∀ id, id ∈ selected_ids plans → is_node_id id = true) → all_parts g plans = Ok g' →
  sound_parts g' ∧ ∀ n, n ∈ gp_nodes g' → n ∈ gp_nodes g ∨ op_node_id n ∈ selected_ids plans.
Proof.
  revert g. induction plans as [|[deployment_id p] plans IH]; intros g Hg Hids H; cbn [all_parts] in H; inv_run_all.
  { subst. split; [done|]. by left. }
  assert (∀ id, id ∈ selected_ids ((deployment_id, p) :: plans) ↔ id ∈ (dp_selected p).*1 ∨ id ∈ selected_ids plans) as Hsel
    by (intros id; unfold selected_ids; cbn [map concat]; by rewrite elem_of_app).
  match goal with H : deployment_parts _ _ _ = Ok ?x |- _ => rename x into g1; unfold deployment_parts in H end.
  inv_run_all. match goal with H : (let '(_, _) := ?x in _) = _ |- _ => destruct x as [release g2] end. inv_run_all. subst g1.
  match goal with H : node_parts _ _ _ _ _ = _ |- _ => apply node_parts_sound in H as [Hg2 Hin2]; [|done|] end;
    setoid_rewrite paired_keys in Hin2 || setoid_rewrite paired_keys.
  - apply IH in H as [Hg' Hin']; [|by apply (sound_parts_frame g2)|intros id Hid; apply Hids, Hsel; by right]. split; [done|].
    intros n [Hn|Hn]%Hin'; [|right; apply Hsel; by right]. cbn in Hn. destruct (Hin2 n Hn) as [?|Hs]; [by left|].
    right. apply Hsel. by left.
  - intros id Hid. apply Hids, Hsel. by left.
Qed.

(** ** The order *)

Definition rank_le (n m : OperationNode) : Prop := rank (op_kind n) ≤ rank (op_kind m).
#[export] Instance rank_le_dec n m : Decision (rank_le n m).
Proof. unfold rank_le. apply _. Defined.
#[export] Instance rank_le_total : Total rank_le.
Proof. intros n m. unfold rank_le. lia. Qed.
#[export] Instance rank_le_trans : Transitive rank_le.
Proof. intros n m k. unfold rank_le. lia. Qed.

Lemma ranked_respects D l : StronglySorted rank_le l →
  (∀ n dep, n ∈ l → dep ∈ op_dependencies n →
     dep ∈ D ∨ ∃ m, m ∈ l ∧ op_id m = dep ∧ rank (op_kind m) < rank (op_kind n)) → respects D l.
Proof.
  intros Hs. revert D. induction Hs as [|n l Hs IH Hn]; intros D Hdeps; cbn; [done|]. rewrite Forall_forall in Hn. split.
  - intros dep Hdep%elem_of_list_to_set. destruct (Hdeps n dep ltac:(set_solver) Hdep) as [?|(m & Hm & _ & Hr)]; [done|].
    exfalso. apply elem_of_cons in Hm as [->|Hm]; [lia|]. apply Hn in Hm. unfold rank_le in Hm. lia.
  - apply IH. intros m dep Hm Hdep. destruct (Hdeps m dep ltac:(set_solver) Hdep) as [?|(k & Hk & Hid & Hr)]; [set_solver|].
    apply elem_of_cons in Hk as [->|Hk]; [left; set_solver|eauto].
Qed.

Lemma sound_topological g : sound_parts g →
  ∃ l, package_topological (gp_nodes g) = Ok l ∧ l ≡ₚ gp_nodes g ∧ respects ∅ l.
Proof.
  intros Hg. pose proof (sp_distinct g Hg) as Hnd. unfold package_topological.
  destruct (topological_cases (by_ids (gp_nodes g)) (by_ids_key _ Hnd)) as [(l & -> & Hp & Hr)|[_ Hno]].
  - exists l. split_and!; [done| |done]. by rewrite Hp, by_ids_values.
  - exfalso. apply (Hno (merge_sort rank_le (gp_nodes g))). split.
    + by rewrite by_ids_values, merge_sort_Permutation.
    + apply ranked_respects.
      * apply Sorted_StronglySorted; [exact _|]. apply Sorted_merge_sort, _.
      * intros n dep. rewrite merge_sort_Permutation. intros Hn Hdep. right.
        destruct (dependency_node g n dep Hg Hn Hdep) as (m & Hm & Hid & _ & Hlt). exists m.
        by rewrite merge_sort_Permutation.
Qed.

(** The graph of a rollout: in an order that respects the dependencies, every operation
    with a payload and depending on operations of its node only. *)
Record node_local (nodes : list OperationNode) (payloads : list (string * json)) : Prop := {
  nl_order : respects ∅ nodes;
  nl_distinct : NoDup (op_id <$> nodes);
  nl_payloads n : n ∈ nodes → ∃ payload, field payloads (op_id n) = JObj payload;
  nl_dependencies n dep : n ∈ nodes → dep ∈ op_dependencies n → ∃ m, m ∈ nodes ∧ op_id m = dep ∧ op_node_id m = op_node_id n
}.

Lemma no_parts_sound : sound_parts no_parts.
Proof. split; cbn; [constructor|set_solver..|constructor|set_solver]. Qed.

Lemma frozen_lookup items key v : NoDup items.*1 → lookup_key items key = Some v →
  lookup_key (freeze_mapping (merge_sort key_le items)) key = Some (freeze v).
Proof.
  intros Hnd Hv%lookup_key_Some; [|done].
  change (freeze_mapping ?l) with (merge_sort key_le (map (on_values freeze) l)). apply lookup_key_Some.
  - rewrite key_sort_perm, on_values_keys, key_sort_perm. done.
  - rewrite key_sort_perm. apply list_elem_of_fmap. exists (key, v). by rewrite key_sort_perm.
Qed.

Lemma package_graph_local commit plans g0 :
  (∀ id, id ∈ selected_ids plans → is_node_id id = true) → all_parts no_parts plans = Ok g0 →
  ∃ graph g, package_graph commit plans = Ok (graph, g) ∧ node_local (graph_nodes graph) (freeze_mapping (gp_payloads g)) ∧
    graph_base_commit graph = commit ∧ (∀ n, n ∈ graph_nodes graph → op_node_id n ∈ selected_ids plans).
Proof.
  intros Hids Hg0. destruct (all_parts_sound plans no_parts g0 no_parts_sound Hids Hg0) as [Hs Hin].
  destruct (sound_topological g0 Hs) as (l & Hl & Hp & Hr). unfold package_graph. rewrite Hg0. cbn. rewrite Hl. cbn.
  eexists _, _. split; [reflexivity|]. cbn [graph_nodes graph_base_commit gp_payloads]. split_and!; [|done|].
  - split; [done|by rewrite Hp; apply Hs| |].
    + intros n. rewrite Hp. intros Hn. destruct (sp_payloads g0 Hs (op_id n)) as [payload Hpay]; [by apply list_elem_of_fmap_2|].
      apply frozen_lookup in Hpay; [|apply Hs].
      match goal with |- ∃ _, field ?m _ = _ => change m with (freeze_mapping (merge_sort key_le (gp_payloads g0))) end.
      unfold field. rewrite Hpay. cbn. eauto.
    + intros n dep. rewrite Hp. intros Hn Hdep. destruct (dependency_node g0 n dep Hs Hn Hdep) as (m & Hm & ? & ? & _).
      exists m. by rewrite Hp.
  - intros n. rewrite Hp. intros [Hn|Hn]%Hin; [by apply elem_of_nil in Hn|done].
Qed.

(** ** Selection *)

Definition observed_id (o : list (string * json)) : result string := package_node_id (observed o "node_id" JNull).

Lemma package_node_id_ok v id : package_node_id v = Ok id → is_node_id id = true.
Proof. unfold package_node_id, rollout_check. destruct v; intros H; inv_run_all; by subst. Qed.

Lemma candidates_ok q evidence found : candidates q evidence = Ok found →
  (∀ o, o ∈ evidence → ∃ id, observed_id o = Ok id) ∧
  ∀ id o, (id, o) ∈ found ↔ o ∈ evidence ∧ eligible q o = Ok true ∧ observed_id o = Ok id.
Proof.
  revert found. induction evidence as [|o evidence IH]; intros found H; cbn [candidates] in H; inv_run_all.
  - subst. split; [set_solver|]. intros id o. rewrite !elem_of_nil. tauto.
  - destruct (IH _ H2) as [Hids Hin]. fold (observed_id o) in *. split.
    + intros o' [->|Ho]%elem_of_cons; eauto.
    + intros id o'. rewrite (elem_of_cons evidence). destruct x; subst found; rewrite ?elem_of_cons, Hin; split.
      * intros [[= -> ->]|(? & ? & ?)]; [by split_and!; [left|..]|by split_and!; [right|..]].
      * intros ([->|?] & ? & ?); [left; congruence|by right].
      * intros (? & ? & ?). by split_and!; [right|..].
      * intros ([->|?] & ? & ?); [congruence|done].
Qed.

#[export] Instance candidate_le_total q : Total (candidate_le q).
Proof.
  intros p r. unfold candidate_le. destruct (preferred q p.1), (preferred q r.1); try tauto;
    destruct (total String.le p.1 r.1); tauto.
Qed.
#[export] Instance candidate_le_trans q : Transitive (candidate_le q).
Proof.
  intros p r t. unfold candidate_le. intros [[? ?]|[E1 H1]] [[? ?]|[E2 H2]]; try (left; split; congruence).
  right. split; [congruence|by etrans].
Qed.

(** What [_select_nodes] answers: eligible observations, as many as asked for, and the
    first ones of the order. *)
Lemma select_nodes_ok d evidence lock selected : select_nodes d evidence lock = Ok selected →
  ∃ q, requirements_of d lock = Ok q ∧ length selected = Z.to_nat (rq_count q) ∧ (1 ≤ rq_count q)%Z ∧
    (∀ o, o ∈ evidence → ∃ id, observed_id o = Ok id) ∧
    (∀ id o, (id, o) ∈ selected → o ∈ evidence ∧ eligible q o = Ok true ∧ observed_id o = Ok id) ∧
    (∀ id o, o ∈ evidence → eligible q o = Ok true → observed_id o = Ok id →
       (id, o) ∈ selected ∨ ∀ p, p ∈ selected → candidate_le q p (id, o)).
Proof.
  intros H. unfold select_nodes, rollout_check in H. inv_run_all. rename x into q, x0 into found. exists q.
  destruct (candidates_ok _ _ _ H1) as [Hids Hin]. bool_facts.
  assert (1 ≤ rq_count q)%Z as Hq.
  { clear -H0. unfold requirements_of, rollout_check in H0. inv_run_all. destruct (field x "node_count"); inv_run_all; try done.
    destruct (field x5 "host_memory_bytes"), (field x5 "installed_bytes"), (field x5 "transient_bytes"),
      (field x5 "gpu_memory_bytes"); try done. inv_run_all. subst q. cbn [rq_count]. bool_facts. lia. }
  set (l := merge_sort (candidate_le q) found) in *. assert (l ≡ₚ found) as Hl by apply merge_sort_Permutation.
  assert (StronglySorted (candidate_le q) l) as Hs.
  { apply Sorted_StronglySorted; [exact _|]. apply Sorted_merge_sort, _. }
  subst selected. split_and!; [done| |done|done| |].
  - rewrite length_take. apply Permutation_length in Hl. lia.
  - intros id o Ho%elem_of_take. apply Hin. rewrite <- Hl. destruct Ho as (i & Hi & _). by eapply list_elem_of_lookup_2.
  - intros id o Ho He Hi. assert ((id, o) ∈ l) as Hm by (by rewrite Hl, Hin).
    rewrite <- (take_drop (Z.to_nat (rq_count q)) l), elem_of_app in Hm. destruct Hm as [Hm|Hm]; [by left|]. right.
    intros p Hp. rewrite <- (take_drop (Z.to_nat (rq_count q)) l) in Hs.
    by eapply StronglySorted_app_1_elem_of.
Qed.

(** ** Resolution *)

Section resolution.
Context `{PackageSources}.
Implicit Types (evidence : list (list (string * json))).

Lemma plan_deployment_ok commit evidence id p : plan_deployment commit evidence id = Ok p →
  ∃ d lock, select_nodes d evidence lock = Ok (dp_selected p) ∧ d = dp_deployment p ∧ lock = dp_lock p.
Proof.
  unfold plan_deployment. intros H0. inv_run_all. destruct x as [document d]. inv_run_all. destruct x0 as [lock sha]. inv_run_all.
  subst p. eauto.
Qed.

(** The facts about a fleet that was planned for. *)
Lemma resolve_parts_ok commit ids evidence plans graph g :
  resolve_parts commit ids evidence = Ok (plans, graph, g) →
  evidence ≠ [] ∧ (∀ o, o ∈ evidence → ∃ id, observed_id o = Ok id) ∧
  (∀ id, id ∈ selected_ids plans → is_node_id id = true) ∧ selected_ids plans ≠ [] ∧
  (∃ g0, all_parts no_parts plans = Ok g0) ∧ package_graph commit plans = Ok (graph, g).
Proof.
  intros H0. unfold resolve_parts, rollout_check in H0. inv_run_all. rename x1 into plans'.
  match goal with H : (let '(_, _) := ?x in _) = _ |- _ => destruct x as [graph' g'] end. inv_run_all. bool_facts.
  injection H0 as -> -> ->. apply traverse_ok in H4.
  assert (∀ x, x ∈ plans → ∃ d lock, select_nodes d evidence lock = Ok (dp_selected x.2)) as Hsel.
  { intros y Hy. destruct (Forall2_elem_r _ _ _ _ H4 Hy) as (k & _ & E). inv_run_all. subst y.
    match goal with H : plan_deployment _ _ _ = _ |- _ => apply plan_deployment_ok in H as (d & lock & ? & _) end. eauto. }
  assert (∃ y, y ∈ plans) as [y Hy].
  { destruct plans as [|y plans]; [|exists y; set_solver]. apply Forall2_nil_inv_r in H4. by rewrite H4 in *. }
  destruct (Hsel y Hy) as (d & lock & (q & _ & Hlen & Hq & Hobs & _)%select_nodes_ok).
  split_and!; [done|done| | | |done].
  - intros id (z & Hz & ([k o] & -> & Hk)%list_elem_of_fmap)%elem_selected.
    destruct (Hsel z Hz) as (d' & lock' & (q' & _ & _ & _ & _ & Hin & _)%select_nodes_ok).
    destruct (Hin k o Hk) as (_ & _ & Hid). by apply package_node_id_ok in Hid.
  - destruct (dp_selected y.2) as [|[k o] l] eqn:E; [cbn in Hlen; lia|].
    intros E'. assert (k ∈ selected_ids plans) as Hk; [|rewrite E' in Hk; by apply elem_of_nil in Hk].
    apply elem_selected. exists y. rewrite E. set_solver.
  - match goal with H : package_graph _ _ = _ |- _ => unfold package_graph in H; inv_run_all; eauto end.
Qed.

Lemma node_id_nonblank s : is_node_id s = true → nonblank s = true.
Proof.
  unfold is_node_id. intros [[Hp _]%andb_true_iff _]%andb_true_iff. by apply prefix_char in Hp as (rest & -> & _).
Qed.

(** The plan content of a resolution passes its checks. *)
Lemma resolved_content commit targets g digests graph fleet :
  targets ≠ [] → (∀ id, id ∈ targets → is_node_id id = true) → graph_base_commit graph = commit →
  ∃ plan, resolved_reconciliation_plan commit (py_sorted (remove_dups targets)) g digests graph (2, 2)%Z
            (Some (utf8_digest fleet)) = Ok plan.
Proof.
  intros Hne Hids Hc. unfold resolved_reconciliation_plan, check_plan_content, value_check.
  assert (∀ id, id ∈ py_sorted (remove_dups targets) ↔ id ∈ targets) as Hin
    by (intros id; by rewrite py_sorted_elem_of, elem_of_remove_dups).
  assert (nonempty (py_sorted (remove_dups targets)) = true) as ->.
  { apply nonempty_true. intros E. destruct targets as [|x targets]; [done|]. specialize (Hin x). rewrite E in Hin. set_solver. }
  assert (forallb nonblank (py_sorted (remove_dups targets)) = true) as ->.
  { apply forallb_forall. intros id Hid%list_elem_of_In%Hin. by apply node_id_nonblank, Hids. }
  assert (distinct (py_sorted (remove_dups targets)) = true) as ->.
  { apply distinct_true. rewrite py_sorted_perm. apply NoDup_remove_dups. }
  unfold utf8_digest. rewrite hexdigest_is_digest, Hc, eqb_refl. eauto.
Qed.

Lemma fleet_entries evidence : (∀ o, o ∈ evidence → ∃ id, observed_id o = Ok id) →
  ∃ entries, traverse fleet_entry evidence = Ok entries ∧ length entries = length evidence.
Proof.
  induction evidence as [|o evidence IH]; intros Hall; [by exists []|].
  destruct (Hall o ltac:(set_solver)) as [id Hid]. destruct IH as (entries & E & El); [intros x Hx; apply Hall; set_solver|].
  assert (∃ e, fleet_entry o = Ok e) as [e He] by (unfold fleet_entry; unfold observed_id in Hid; rewrite Hid; by eexists).
  exists (e :: entries). cbn [traverse]. rewrite He. cbn. rewrite E. split; [done|]. cbn. lia.
Qed.

(** The graph of a resolved plan, with its payloads. *)
Lemma resolved_plan_local commit ids evidence plan : resolve_packages commit ids evidence = Ok plan →
  ∃ graph, rp_operation_graph plan = Some graph ∧ node_local (graph_nodes graph) (rp_operation_payloads plan).
Proof.
  unfold resolve_packages. intros Hr. inv_run_all. destruct x as [[plans graph] g].
  apply resolve_parts_ok in H0 as (_ & _ & Hids & _ & (g0 & Hg0) & Hgraph).
  destruct (package_graph_local commit plans g0 Hids Hg0) as (graph' & g' & Hgraph' & Hl & _).
  rewrite Hgraph in Hgraph'. injection Hgraph' as <- <-. inv_run_all. unfold resolved_reconciliation_plan in Hr. inv_run_all.
  subst plan. by exists graph.
Qed.

(** C23. When the deployments are planned for, that is, the documents, locks, placements
    and the graph are all in order, a plan is resolved if the fleet has one observed
    node; with two or more, resolution raises a TypeError, because the evidence of the
    fleet sorts mappings. *)
Theorem plans_are_resolved_for_one_node commit ids evidence parts :
  resolve_parts commit ids evidence = Ok parts →
  (length evidence = 1 ∧ ∃ plan, resolve_packages commit ids evidence = Ok plan) ∨
  (2 ≤ length evidence ∧ ∃ m, resolve_packages commit ids evidence = Err (Exn EType m)).
Proof.
  destruct parts as [[plans graph] g]. intros Hparts. unfold resolve_packages. rewrite Hparts. cbn [mbind result_bind].
  apply resolve_parts_ok in Hparts as (Hne & Hobs & Hids & Hsel & (g0 & Hg0) & Hgraph).
  destruct (package_graph_local commit plans g0 Hids Hg0) as (graph' & g' & Hgraph' & _ & Hcommit & Htargets).
  rewrite Hgraph in Hgraph'. injection Hgraph' as <- <-. destruct (fleet_entries evidence Hobs) as (entries & E & El).
  rewrite E. destruct evidence as [|o [|o' evidence]]; [done| |].
  - left. split; [done|]. destruct entries as [|x [|? ?]]; [done| |done]. apply resolved_content; [|..|done].
    + intros E'. apply app_eq_nil in E' as [_ E']. done.
    + intros id [Hid|Hid]%elem_of_app; [|by apply Hids]. apply Hids. apply list_elem_of_fmap in Hid as (n & -> & Hn). by apply Htargets.
  - right. split; [cbn; lia|]. destruct entries as [|x [|? ?]]; [done|done|]. by eexists.
Qed.
End resolution.

(** ** A fleet *)

Module PlanSample.

(** The text of the release, and its digest. *)
Definition lock_text : string := Eval vm_compute in canonical_utf8 (sample_lock []).
Definition release : string := Eval vm_compute in Sha256.hexdigest lock_text.

Definition deployment : json :=
  JObj [("arguments", JArr [JStr "--port"; JStr "8000"]); ("deployment_id", JStr "chat"); ("family_id", JStr "llama-serve");
        ("ports", JObj [("http", JInt 8000)]); ("release_digest", JStr release);
        ("resources", JObj [("gpu_count", JInt 1); ("memory_bytes", JInt 1024); ("storage_bytes", JInt 0)]);
        ("routing", JObj [("alias", JStr "chat"); ("port", JStr "http")]); ("schema_version", JInt 1); ("secrets", JObj []);
        ("selector", JObj [("node_count", JInt 1); ("preferred_node_ids", JArr []);
                           ("required_labels", JObj [("pool", JStr "default")])])].

(** A repository with one deployment and its release. *)
Definition sources : PackageSources := {|
  read_document commit path :=
    if eqb path "config/workload-deployments/chat.toml" then mret (MkDocument deployment "" "d1")
    else if eqb path ("manifests/workload-releases/llama-serve/" +:+ release +:+ ".json") then mret (MkDocument JNull lock_text "d2")
    else raise EKey path;
  validate_deployment_schema _ := mret ();
  package_trust := Some (λ digest raw commit, eqb digest release)
|}.

Definition node (id : string) : list (string * json) :=
  [("node_id", JStr id); ("healthy", JBool true); ("labels", JObj [("pool", JStr "default")]);
   ("memory_available_bytes", JInt 4096); ("disk_available_bytes", JInt 4096); ("gpu_memory_available_bytes", JInt 64)].

Definition first_node : list (string * json) := node "spk_00112233445566778899aabbccddee00".
Definition second_node : list (string * json) := node "spk_00112233445566778899aabbccddee01".
Definition commit : string := "0123456789abcdef0123456789abcdef01234567".

Definition parts_of (evidence : list (list (string * json))) := resolve_parts (H:=sources) commit ["chat"] evidence.

Lemma parts_two : is_ok (parts_of [first_node; second_node]) = true.
Proof. vm_compute. reflexivity. Qed.
Lemma parts_one : is_ok (parts_of [first_node]) = true.
Proof. vm_compute. reflexivity. Qed.

Lemma plans_are_resolved_for_one_node_witness :
  (∃ plan, resolve_packages (H:=sources) commit ["chat"] [first_node] = Ok plan) ∧
  (∃ m, resolve_packages (H:=sources) commit ["chat"] [first_node; second_node] = Err (Exn EType m)).
Proof.
  pose proof parts_one as P1. pose proof parts_two as P2. unfold parts_of in P1, P2. split.
  - destruct (resolve_parts commit ["chat"] [first_node]) as [parts|] eqn:E; [|discriminate P1].
    destruct (plans_are_resolved_for_one_node (H:=sources) _ _ _ _ E) as [[_ Hp]|[Hl _]]; [exact Hp|cbn in Hl; lia].
  - destruct (resolve_parts commit ["chat"] [first_node; second_node]) as [parts|] eqn:E; [|discriminate P2].
    destruct (plans_are_resolved_for_one_node (H:=sources) _ _ _ _ E) as [[Hl _]|[_ Hp]]; [cbn in Hl; lia|exact Hp].
Defined.
End PlanSample.
