(* ===== verification/RolloutOrder.v ===== *)
(** * What a package rollout enqueues

    Every operation an advance of a rollout adds to the agent queue is the next one of
    the plan for a node of the current batch, after the operations it depends on, or
    the planned rollback of a node whose activation or health check did not complete. *)

From S2P Require Import Prelude Identifiers Canonical Documents Contracts PackageEngine Protocol.
From S2P Require Import OperationGraph Orchestration Jobs AgentTables AgentJobs AgentJobsFacts PackageRollouts RolloutFacts.

(** ** The plan *)

(** The operation [d] of the graph was accepted on the node, or is the one in the queue
    and succeeded. *)
Definition accepted_on (s : rollout_db) (n : PackageRolloutNode) (d : string) : Prop :=
  ∃ item, item ∈ pn_operation_history n ∧ hi_graph_operation_id item = Some d ∧
    (hi_state item = "accepted" ∨
     pn_operation_id n = Some (hi_operation_id item) ∧
     ∃ o, t_operations (rd_control s) !! hi_operation_id item = Some o ∧ so_state o = "succeeded").

(** The digest of the payload, for the kinds that are not signed by the queue. *)
Definition carries (o : StoredOperation) (payload : list (string * json)) : Prop :=
  so_kind o ≠ operation_value AGENT_ROLLBACK → so_payload_digest o = utf8_digest (JObj payload).

(** An operation of the plan for the node, whose dependencies were accepted there. *)
Definition planned (s : rollout_db) (r : PackageRollout) (n : PackageRolloutNode) (o : StoredOperation) : Prop :=
  ∃ raw_nodes raw graph_id dependencies payload,
    item_of (item_of (pk_plan r) "operation_graph") "nodes" = JArr raw_nodes ∧ JObj raw ∈ raw_nodes ∧
    field raw "node_id" = JStr (pn_node_id n) ∧ field raw "operation_id" = JStr graph_id ∧
    field raw "kind" = JStr (so_kind o) ∧ field raw "dependencies" = JArr dependencies ∧
    (∀ d, JStr d ∈ dependencies → accepted_on s n d) ∧
    item_of (item_of (pk_plan r) "operation_payloads") graph_id = JObj payload ∧ carries o payload.

(** The rollback of the plan for a node whose last operation went wrong. *)
Definition planned_rollback (s : rollout_db) (r : PackageRollout) (n : PackageRolloutNode) (o : StoredOperation) : Prop :=
  so_kind o = operation_value PACKAGE_ROLLBACK ∧
  (∃ payload, rollback_payload (pk_plan r) (pn_node_id n) = Some payload ∧ carries o payload) ∧
  ∃ id o', pn_operation_id n = Some id ∧ t_operations (rd_control s) !! id = Some o' ∧
    so_state o' ∈ ["failed"; "waiting-for-operator"; "expired"] ∧
    active_kind (pn_operation_history n) id ∈ [Some (operation_value PACKAGE_ACTIVATE); Some (operation_value PACKAGE_HEALTH)].

Lemma dependency_open_false completed dependencies : dependency_open completed dependencies = Ok false →
  ∀ d, JStr d ∈ dependencies → Some d ∈ completed.
Proof.
  induction dependencies as [|x dependencies IH]; [intros _ d Hd; by apply elem_of_nil in Hd|]. cbn [dependency_open].
  intros H. inv_run_all. destruct x0; [|by inv_run_all]. intros d [<-|Hd]%elem_of_cons; [|by apply IH].
  unfold dependency_done in *. inv_run_all. bool_facts. done.
Qed.

(** An entry of the graph that [next_of] may return. *)
Definition ready_entry (node_id : string) (completed : list (option string)) (payloads raw : list (string * json))
    (graph_id kind : string) (payload : list (string * json)) : Prop :=
  field raw "node_id" = JStr node_id ∧ field raw "operation_id" = JStr graph_id ∧ field raw "kind" = JStr kind ∧
  field payloads graph_id = JObj payload ∧
  ∃ dependencies, field raw "dependencies" = JArr dependencies ∧ ∀ d, JStr d ∈ dependencies → Some d ∈ completed.

Lemma next_of_ok node_id completed payloads raw_nodes graph_id kind payload :
  next_of node_id completed payloads raw_nodes = Ok (Some (graph_id, kind, payload)) →
  ∃ raw, JObj raw ∈ raw_nodes ∧ ready_entry node_id completed payloads raw graph_id kind payload.
Proof.
  induction raw_nodes as [|x raw_nodes IH]; [done|]. intros H.
  assert ((∃ raw, JObj raw ∈ raw_nodes ∧ ready_entry node_id completed payloads raw graph_id kind payload) →
    ∃ raw, JObj raw ∈ x :: raw_nodes ∧ ready_entry node_id completed payloads raw graph_id kind payload) as Hup by set_solver.
  destruct x as [| | | | |raw]; cbn [next_of] in H; try by auto.
  destruct (py_eqb (field raw "node_id") (JStr node_id)) eqn:Hnode; cbn [negb] in H; [|by auto].
  destruct (field raw "operation_id") as [| | |id| |] eqn:Hid; try by auto.
  destruct (field raw "kind") as [| | |k| |] eqn:Hkind; try by auto.
  destruct (field raw "dependencies") as [| | | |dependencies|] eqn:Hdeps; try by auto.
  destruct (among (Some id) completed); [by auto|]. inv_run_all. destruct x; [by auto|].
  destruct (field payloads id) as [| | | | |items] eqn:Hp; try by auto. inv_run_all. injection H as <- <- <-.
  exists raw. split; [set_solver|]. apply py_eqb_str in Hnode. split_and!; [done..|]. exists dependencies. split; [done|].
  by apply dependency_open_false.
Qed.

(** The history an advance continues with. *)
Definition settled_history (s : rollout_db) (n : PackageRolloutNode) (history : list history_item) : Prop :=
  history = pn_operation_history n ∨
  ∃ id o, pn_operation_id n = Some id ∧ t_operations (rd_control s) !! id = Some o ∧ so_state o = "succeeded" ∧
    history = mark_accepted id (pn_operation_history n).

Lemma settled_accepted s n history d :
  settled_history s n history → Some d ∈ map hi_graph_operation_id (filter (λ i, hi_state i = "accepted") history) →
  accepted_on s n d.
Proof.
  intros Hh (i & Hd & [Hi Hin]%list_elem_of_filter)%list_elem_of_fmap.
  destruct Hh as [->|(id & o & Hid & Ho & Hst & ->)]; [exists i; naive_solver|].
  unfold mark_accepted in Hin. apply list_elem_of_fmap in Hin as (i' & -> & Hin). exists i'.
  destruct (eqb (hi_operation_id i') id) eqn:E; [|naive_solver]. apply (proj1 (eqb_true _ _)) in E.
  split_and!; [done..|]. right. rewrite E. eauto.
Qed.

Lemma next_operation_planned s r n history o graph_id payload :
  settled_history s n history →
  PackageRollouts.next_operation r (pn_node_id n) history = Ok (Some (graph_id, so_kind o, payload)) →
  carries o payload → planned s r n o.
Proof.
  intros Hh H Hc. unfold PackageRollouts.next_operation in H.
  destruct (pk_plan r) as [| | | | |plan] eqn:Hplan; try by inv_run_all.
  destruct (field plan "operation_graph") as [| | | | |graph] eqn:Hg; try by inv_run_all.
  destruct (field plan "operation_payloads") as [| | | | |payloads] eqn:Hp; try by inv_run_all.
  destruct (field graph "nodes") as [| | | |raw_nodes|] eqn:Hn; try by inv_run_all.
  apply next_of_ok in H as (raw & Hraw & Hnode & Hid & Hkind & Hpay & deps & Hdeps & Hacc).
  exists raw_nodes, raw, graph_id, deps, payload. rewrite Hplan. cbn [item_of]. rewrite Hg, Hp. cbn [item_of].
  split_and!; [done..| |done|done]. intros d Hd. eapply settled_accepted; [done|]. by apply Hacc.
Qed.

(** ** The loop *)

Section order.
Context {prepared : Type} (update_authorizer : option (UpdateAuthorizer prepared)).

(** The row an enqueue adds. *)
Lemma enqueued_row job node kind commit payload id fence now c o c' :
  enqueue_in_session update_authorizer job node kind commit payload id fence None now c = (Ok o, c') →
  c' = set_t_operations <[id := o]> c ∧ t_operations c !! id = None ∧
  so_node_id o = node ∧ so_kind o = kind ∧ so_state o = "queued" ∧ carries o payload.
Proof.
  intros H. unfold enqueue_in_session in H. inv_run_all.
  destruct (t_nodes _ !! node); [|by inv_run_all]. inv_run_all. destruct (t_jobs _ !! job); [|by inv_run_all].
  inv_run_all. unfold insert_operation, put_operation in *. inv_run_all. bool_facts. split_and!; [done..|].
  intros Hkind. cbn [so_kind so_payload_digest] in *.
  match goal with H : operation_of_value _ = Ok ?k |- _ => apply operation_of_value_ok in H; rename k into operation end.
  match goal with H : agent_claim _ _ _ _ ?p = Ok ?m |- _ =>
    assert (claim_payload_digest m = utf8_digest p) as ->; [unfold agent_claim in H; inv_run_all; by subst|] end.
  match goal with H : final_payload _ _ _ _ _ _ _ _ _ = Ok ?p |- _ => assert (p = JObj payload) as ->; [|done];
    unfold final_payload in H end.
  destruct operation; try (by inv_run_all). by destruct update_authorizer; inv_run_all.
Qed.

Context (rid : string) (s0 : rollout_db) (r0 : PackageRollout).
Implicit Types (s : rollout_db) (n : PackageRolloutNode).

(** What an operation was added for. *)
Definition justified (o : StoredOperation) : Prop :=
  so_state o = "queued" ∧ ∃ key n, rd_nodes s0 !! key = Some n ∧ pn_rollout_id n = rid ∧
    pn_batch_index n = pk_current_batch r0 ∧ so_node_id o = pn_node_id n ∧ (planned s0 r0 n o ∨ planned_rollback s0 r0 n o).

(** A state of the loop: what was added is justified, the rest of the queue and the
    plan are those it started from. *)
Record runs s : Prop := {
  rn_plan : ∃ r, rd_rollouts s !! rid = Some r ∧ pk_plan r = pk_plan r0;
  rn_old id o : t_operations (rd_control s0) !! id = Some o → t_operations (rd_control s) !! id = Some o;
  rn_new id o : t_operations (rd_control s) !! id = Some o →
    t_operations (rd_control s0) !! id = Some o ∨ t_operations (rd_control s0) !! id = None ∧ justified o
}.

Lemma runs_frame s s' : runs s → t_operations (rd_control s') = t_operations (rd_control s) →
  (∀ r, rd_rollouts s !! rid = Some r → ∃ r', rd_rollouts s' !! rid = Some r' ∧ pk_plan r' = pk_plan r) → runs s'.
Proof.
  intros [(r & Hr & Hp) Hold Hnew] Eo Hrow. split; rewrite ?Eo; [|done..].
  destruct (Hrow r Hr) as (r' & ? & ?). exists r'. split; [done|congruence].
Qed.

Lemma runs_enqueue job node kind commit payload d s u s' :
  runs s → enqueue_package update_authorizer job node kind commit payload d s = (Ok u, s') →
  (∀ o, so_node_id o = node → so_kind o = kind → so_state o = "queued" → carries o payload → justified o) →
  runs s' ∧ rd_nodes s' = rd_nodes s.
Proof.
  intros [Hp Hold Hnew] H Hj. unfold enqueue_package in H. inv_run_all. apply on_control_frame in H0 as (c & H0 & ->).
  apply enqueued_row in H0 as (-> & Hid & ? & ? & ? & ?). split; [|done]. split; cbn; [done| |].
  - intros id o Ho. rewrite lookup_insert_ne; [by apply Hold|]. intros <-. apply Hold in Ho. congruence.
  - intros id o [[<- <-]|[_ Ho]]%lookup_insert_Some; [|by apply Hnew]. right. split; [|by apply Hj].
    destruct (t_operations (rd_control s0) !! _) eqn:E; [|done]. apply Hold in E. congruence.
Qed.

Lemma runs_set_job job state reason updated s u s' :
  runs s → set_job job state reason updated s = (Ok u, s') → runs s' ∧ rd_nodes s' = rd_nodes s.
Proof.
  intros Hs H. unfold set_job in H. inv_run_all. destruct (t_jobs _ !! job); [|by inv_run_all].
  apply on_control_frame in H as (c & H & ->). unfold put_job in H. inv_run_all. split; [|done].
  eapply runs_frame; [done|done|naive_solver].
Qed.

Lemma runs_alter f s u s' : (∀ r, pk_plan (f r) = pk_plan r) →
  runs s → alter_rollout rid f s = (Ok u, s') → runs s' ∧ rd_nodes s' = rd_nodes s.
Proof.
  intros Hf Hs ->%modify_ok. split; [|done]. eapply runs_frame; [done|done|]. cbn. intros r Hr.
  rewrite lookup_alter_eq, Hr. cbn. eauto.
Qed.

Lemma runs_put key n s u s' : runs s → put_rollout_node key n s = (Ok u, s') →
  runs s' ∧ rd_nodes s' = <[key := n]> (rd_nodes s).
Proof. intros Hs ->%modify_ok. split; [|done]. eapply runs_frame; [done|done|naive_solver]. Qed.

Definition other_nodes (key : string) s s' : Prop := ∀ k, k ≠ key → rd_nodes s' !! k = rd_nodes s !! k.

Lemma other_refl key s s' : rd_nodes s' = rd_nodes s → other_nodes key s s'.
Proof. by intros E k _; rewrite E. Qed.
Lemma other_put key n s s' : rd_nodes s' = <[key := n]> (rd_nodes s) → other_nodes key s s'.
Proof. intros E k Hk. by rewrite E, lookup_insert_ne. Qed.
#[local] Hint Resolve other_refl other_put : core.
#[export] Instance other_nodes_trans key : Transitive (other_nodes key).
Proof. intros s1 s2 s3 H12 H23 k Hk. rewrite H23, H12; done. Qed.

(** The operation of a node in the queue, if it is settled, was there before. *)
Lemma settled_before s id o : runs s → t_operations (rd_control s) !! id = Some o → so_state o ≠ "queued" →
  t_operations (rd_control s0) !! id = Some o.
Proof. intros [_ _ Hnew] [?|[_ [Hq _]]]%Hnew Hst; [done|by destruct Hst]. Qed.

Lemma abandon_runs job key id o now n s u s' :
  runs s → abandon rid job key id o now n s = (Ok u, s') → runs s' ∧ other_nodes key s s'.
Proof.
  intros Hs H. unfold abandon in H. inv_run_all.
  match goal with H : put_rollout_node _ _ _ = _ |- _ => apply runs_put in H as [Hs1 E1]; [|done] end.
  match goal with H : alter_rollout _ _ _ = _ |- _ => apply runs_alter in H as [Hs2 E2]; [|done..] end.
  apply runs_set_job in H as [Hs3 E3]; [|done]. split; [done|]. etrans; [by eapply other_put|]. apply other_refl. congruence.
Qed.

(** The node as the loop finds it: the row of the batch it started from. *)
Definition loop_node (key : string) n : Prop :=
  rd_nodes s0 !! key = Some n ∧ pn_rollout_id n = rid ∧ pn_batch_index n = pk_current_batch r0.

Lemma unsettled_runs job key id o d now r n s v s' :
  runs s → loop_node key n → pk_plan r = pk_plan r0 → pn_operation_id n = Some id →
  t_operations (rd_control s0) !! id = Some o → so_state o ∈ ["failed"; "waiting-for-operator"; "expired"] →
  unsettled update_authorizer rid job key id o d now r n s = (Ok v, s') →
  runs s' ∧ other_nodes key s s' ∧ ∀ history, v ≠ Proceed history.
Proof.
  intros Hs (Hn & Hrid & Hb) Hp Hid Ho Hst H. unfold unsettled in H. rewrite Hp in H.
  destruct (rollback_payload (pk_plan r0) (pn_node_id n)) as [payload|] eqn:Hrb; [destruct (among _ _) eqn:Hk|]; inv_run_all.
  - match goal with H : enqueue_package _ _ _ _ _ _ _ _ = _ |- _ => apply runs_enqueue in H as [Hs1 E1]; [|done|] end.
    + match goal with H : put_rollout_node _ _ _ = _ |- _ => apply runs_put in H as [Hs2 E2]; [|done] end.
      match goal with H : alter_rollout _ _ _ = _ |- _ => apply runs_alter in H as [Hs3 E3]; [|done..] end.
      subst. split_and!; [done| |done]. etrans; [by apply other_refl|]. etrans; [by eapply other_put|]. by apply other_refl.
    + intros y Hnode Hkind Hq Hc. split; [done|]. exists key, n. split_and!; [done..|]. right. bool_facts.
      split_and!; [done|eauto|eauto 7].
  - match goal with H : abandon _ _ _ _ _ _ _ _ = _ |- _ => apply abandon_runs in H as [? ?]; [|done] end. by subst.
  - match goal with H : abandon _ _ _ _ _ _ _ _ = _ |- _ => apply abandon_runs in H as [? ?]; [|done] end. by subst.
Qed.

Lemma settle_runs job key d now n s v s' :
  runs s → loop_node key n → rd_nodes s !! key = Some n → settle update_authorizer rid job key d now s = (Ok v, s') →
  runs s' ∧ other_nodes key s s' ∧
  (∀ history, v = Proceed history → ∃ n', rd_nodes s' !! key = Some n' ∧ pn_node_id n' = pn_node_id n ∧
                       settled_history s0 n history).
Proof.
  intros Hs Hl Hn H. unfold settle in H. inv_run_all. destruct (rn_plan s Hs) as (r & Hr & Hp). rewrite Hr, Hn in H.
  assert (runs s ∧ other_nodes key s s ∧ ∀ history, Proceed (pn_operation_history n) = Proceed history →
    ∃ n', rd_nodes s !! key = Some n' ∧ pn_node_id n' = pn_node_id n ∧ settled_history s0 n history) as Hsame
    by (split_and!; [done|done|intros ? [= <-]; exists n; split_and!; [done|done|by left]]).
  unfold active_operation in H. destruct (pn_operation_id n) as [id|] eqn:Hid; cbn [mbind option_bind] in H; [|by inv_run_all].
  destruct (t_operations (rd_control s) !! id) as [o|] eqn:Ho; cbn [mbind option_bind] in H; [|by inv_run_all].
  destruct (among (so_state o) ["queued"; "running"]) eqn:Hq; [inv_run_all; subst; by split_and!|].
  assert (so_state o ≠ "queued") as Hnq by (intros E; by rewrite E in Hq).
  pose proof (settled_before _ _ _ Hs Ho Hnq) as Ho'.
  destruct (eqb (so_state o) "succeeded") eqn:Hsucc.
  - inv_run_all. match goal with H : put_rollout_node _ _ _ = _ |- _ => apply runs_put in H as [Hs1 E1]; [|done] end.
    destruct (eqb (active_kind _ _) _); inv_run_all.
    + match goal with H : put_rollout_node _ _ _ = _ |- _ => apply runs_put in H as [Hs2 E2]; [|done] end.
      match goal with H : alter_rollout _ _ _ = _ |- _ => apply runs_alter in H as [Hs3 E3]; [|done..] end.
      match goal with H : set_job _ _ _ _ _ = _ |- _ => apply runs_set_job in H as [Hs4 E4]; [|done..] end.
      subst. split_and!; [done| |done]. etrans; [by eapply other_put|]. etrans; [by eapply other_put|]. apply other_refl. congruence.
    + split_and!; [done|by eapply other_put|]. intros history [= <-]. eexists. rewrite E1, lookup_insert_eq. split_and!; [done..|].
      right. exists id, o. bool_facts. by split_and!.
  - destruct (among _ ["failed"; _; _]) eqn:Hf; [|by inv_run_all]. bool_facts.
    eapply unsettled_runs in H as (? & ? & Hv); [|done..]. split_and!; [done..|]. intros history E. by destruct (Hv history).
Qed.

Lemma next_operation_plan r node_id history : pk_plan r = pk_plan r0 →
  PackageRollouts.next_operation r node_id history = PackageRollouts.next_operation r0 node_id history.
Proof. unfold PackageRollouts.next_operation. by intros ->. Qed.

Lemma dispatch_runs job key d now history n n' s q s' :
  runs s → loop_node key n → rd_nodes s !! key = Some n' → pn_node_id n' = pn_node_id n →
  settled_history s0 n history →
  dispatch_next update_authorizer rid job key d now history s = (Ok q, s') → runs s' ∧ other_nodes key s s'.
Proof.
  intros Hs (Hn & Hrid & Hb) Hn' Hnode Hh H. unfold dispatch_next in H. inv_run_all.
  destruct (rn_plan s Hs) as (r & Hr & Hp). rewrite Hr, Hn' in H. destruct (among _ _); [by inv_run_all; split; [|apply other_refl]|].
  inv_run_all. rewrite (next_operation_plan r) in H0 by done. destruct x as [[[g kind] payload]|]; inv_run_all.
  - match goal with H : enqueue_package _ _ _ _ _ _ _ _ = _ |- _ => apply runs_enqueue in H as [Hs1 E1]; [|done|] end.
    + match goal with H : put_rollout_node _ _ _ = _ |- _ => apply runs_put in H as [Hs2 E2]; [|done] end.
      split; [done|]. etrans; [by apply other_refl|]. by eapply other_put.
    + intros o Ho Hk Hq Hc. split; [done|]. exists key, n. split_and!; [done..|congruence|]. left.
      eapply next_operation_planned; [done| |done]. rewrite Hk, <- Hnode. done.
  - match goal with H : put_rollout_node _ _ _ = _ |- _ => apply runs_put in H as [Hs2 E2]; [|done] end.
    split; [done|]. by eapply other_put.
Qed.

Lemma advance_node_runs job key d now n s q s' :
  runs s → loop_node key n → rd_nodes s !! key = Some n → advance_node update_authorizer rid job key d now s = (Ok q, s') →
  runs s' ∧ other_nodes key s s'.
Proof.
  intros Hs Hl Hn H. unfold advance_node in H. inv_run_all. eapply settle_runs in H0 as (Hs1 & Ho1 & Hnext); [|done..].
  destruct x; inv_run_all; [done|]. destruct (Hnext _ eq_refl) as (n' & Hn' & Hnode & Hh).
  eapply dispatch_runs in H as [Hs2 Ho2]; [|done..]. split; [done|]. by etrans.
Qed.

Lemma advance_nodes_runs job draws now keys s q s' :
  NoDup keys → (∀ key, key ∈ keys → ∃ n, loop_node key n ∧ rd_nodes s !! key = Some n) → runs s →
  advance_nodes update_authorizer rid job draws now keys s = (Ok q, s') → runs s'.
Proof.
  intros Hnd. revert s q. induction Hnd as [|key keys Hnot _ IH]; intros s q Hin Hs H; cbn in H; inv_run_all; [done|].
  destruct (Hin key ltac:(set_solver)) as (n & Hl & Hn).
  match goal with H : advance_node _ _ _ _ _ _ _ = _ |- _ => eapply advance_node_runs in H as [Hs1 Ho1]; [|done..] end.
  eapply IH; [|done|done]. intros k Hk. destruct (Hin k ltac:(set_solver)) as (m & Hm & Hm'). exists m.
  rewrite Ho1; [done|]. by intros ->.
Qed.
End order.

Lemma batch_of_NoDup s rid b : NoDup (batch_of s rid b).
Proof.
  assert (∀ (P : string * PackageRolloutNode → Prop) `{!∀ x, Decision (P x)} l, NoDup l.*1 → NoDup (filter P l).*1) as Hf.
  { intros P ? l Hl. eapply sublist_NoDup; [exact Hl|]. apply fmap_sublist, sublist_filter. }
  unfold batch_of, nodes_of. apply Hf. rewrite merge_sort_Permutation. apply Hf, NoDup_fst_map_to_list.
Qed.

(** The rest of an advance leaves the queue alone. *)
Definition same_queue (s s' : rollout_db) : Prop := t_operations (rd_control s') = t_operations (rd_control s).

#[export] Instance same_queue_preorder : PreOrder same_queue.
Proof. unfold same_queue. split; [by intros s|]. intros s1 s2 s3. congruence. Qed.

Lemma put_job_queue job j : moves same_queue (on_control (put_job job j)).
Proof. by intros s. Qed.
Lemma set_job_queue job state reason updated : moves same_queue (set_job job state reason updated).
Proof. unfold set_job. solve_moves. by intros s. Qed.
Lemma alter_queue rid f : moves same_queue (alter_rollout rid f).
Proof. by intros s. Qed.
Lemma put_rollout_queue rid r : moves same_queue (put_rollout rid r).
Proof. by intros s. Qed.
#[local] Hint Resolve put_job_queue set_job_queue alter_queue put_rollout_queue : py.

Lemma job_in_session_queue rid r fresh : moves same_queue (job_in_session rid r fresh).
Proof. unfold job_in_session. solve_moves. Qed.
Lemma close_batch_queue rid job keys now : moves same_queue (close_batch rid job keys now).
Proof. unfold close_batch. solve_moves. Qed.

(** C9. Every operation that an advance of a rollout adds to the agent queue is meant
    for a node of the current batch and is either an operation of the persisted plan
    for that node with the digest of its planned payload, whose dependencies were all
    accepted on the node, or the planned rollback of a node whose activation or health
    check did not complete; operations that were there before are not changed. *)
Theorem rollout_follows_its_plan {prepared} (update_authorizer : option (UpdateAuthorizer prepared)) c s rid r i st s' :
  rtc (rollout_step update_authorizer) (no_rollouts c) s → rd_rollouts s !! rid = Some r →
  advance_rollout update_authorizer rid i s = (Ok st, s') →
  (∀ id o, t_operations (rd_control s) !! id = Some o → t_operations (rd_control s') !! id = Some o) ∧
  (∀ id o, t_operations (rd_control s') !! id = Some o → t_operations (rd_control s) !! id = None →
     so_state o = "queued" ∧ ∃ key n, rd_nodes s !! key = Some n ∧ pn_rollout_id n = rid ∧
       pn_batch_index n = pk_current_batch r ∧ so_node_id o = pn_node_id n ∧ (planned s r n o ∨ planned_rollback s r n o)).
Proof.
  intros G%reachable_gated Hr H.
  destruct (advance_cases _ _ _ _ _ _ G H) as [->|(r' & job & c' & queued & s1 & Hr' & _ & Hjob & Hloop & Hend)]; [split; [done|congruence]|].
  assert (r' = r) as -> by congruence.
  apply (moves_run _ _ _ _ _ (job_in_session_queue _ _ _)) in Hjob.
  assert (same_queue s1 s') as Hq.
  { destruct queued; revert Hend; apply moves_run; [apply alter_queue|apply close_batch_queue]. }
  apply (advance_nodes_runs update_authorizer rid s r) in Hloop as [_ Hold Hnew].
  - unfold same_queue in Hq. rewrite Hq. split; [done|]. intros id o Ho Hnone. destruct (Hnew id o Ho) as [?|[_ Hj]]; [congruence|].
    exact Hj.
  - apply batch_of_NoDup.
  - intros key (n & Hn & Hid & Hidx)%elem_batch_of. exists n. by split_and!.
  - split; [by exists r|by rewrite Hjob|rewrite Hjob; by left].
Qed.
