(* ===== verification/RolloutCompletion.v ===== *)
(** * A node is accepted when its plan was carried out

    A rollout of a plan that [PackagePlans] built marks a node as accepted only after
    every operation of the graph for that node was accepted, whatever the agent queue
    and the order of the calls do. *)

From S2P Require Import Prelude Identifiers Canonical Documents JsonText Contracts PackageEngine Protocol.
From S2P Require Import OperationGraph Orchestration OrchestrationFacts Jobs AgentTables AgentJobs AgentJobsFacts PackageRollouts PackagePlans.
From S2P Require Import PackagePlanFacts RolloutFacts RolloutOrder.

(** ** The next operation of a local graph *)

(** [node_local nodes payloads] with the part of the list that is done. *)
Lemma dependencies_done completed dependencies :
  (∀ d, d ∈ dependencies → Some d ∈ completed) → dependency_open completed (map JStr dependencies) = Ok false.
Proof.
  induction dependencies as [|d dependencies IH]; intros Hall; [done|]. cbn [map dependency_open dependency_done].
  rewrite (proj2 (among_true _ _)) by (apply Hall; set_solver). cbn. apply IH. intros x Hx. apply Hall. set_solver.
Qed.

Lemma next_of_cons node_id completed payloads n l : next_of node_id completed payloads (to_document n :: l) =
  if negb (py_eqb (JStr (op_node_id n)) (JStr node_id)) then next_of node_id completed payloads l else
  if among (Some (op_id n)) completed then next_of node_id completed payloads l else
  dependency_open completed (map JStr (op_dependencies n)) ≫= λ open : bool,
  if open then next_of node_id completed payloads l else
  match field payloads (op_id n) with
  | JObj payload => mret (Some (op_id n, op_kind n, payload))
  | _ => next_of node_id completed payloads l
  end.
Proof. reflexivity. Qed.

(** An operation another one depends on comes before it. *)
Lemma earlier_operation pre n nodes m : respects ∅ (pre ++ n :: nodes) → NoDup (op_id <$> pre ++ n :: nodes) →
  op_id m ∈ op_dependencies n → m ∈ pre ++ n :: nodes → m ∈ pre.
Proof.
  intros Hr Hnd Hdep Hm. apply respects_app in Hr as [_ [Hsub _]].
  assert (op_id m ∈ op_id <$> pre) as (m' & Hid & Hm')%list_elem_of_fmap by (unfold ids_of in Hsub; set_solver).
  apply list_elem_of_lookup in Hm as [i Hi]. apply list_elem_of_lookup in Hm' as [j Hj].
  assert ((pre ++ n :: nodes) !! j = Some m') as Hj' by (by apply lookup_app_l_Some).
  assert (i = j) as ->; [|by simplify_eq; apply list_elem_of_lookup_2 in Hj].
  apply (NoDup_lookup _ i j (op_id m) Hnd); rewrite list_lookup_fmap; [by rewrite Hi|by rewrite Hj', Hid].
Qed.

Lemma next_of_none node_id completed payloads nodes done_nodes :
  node_local (done_nodes ++ nodes) payloads →
  (∀ n, n ∈ done_nodes → op_node_id n = node_id → Some (op_id n) ∈ completed) →
  next_of node_id completed payloads (map to_document nodes) = Ok None →
  ∀ n, n ∈ nodes → op_node_id n = node_id → Some (op_id n) ∈ completed.
Proof.
  revert done_nodes. induction nodes as [|n nodes IH]; intros pre Hl Hpre H; [set_solver|].
  cbn [map] in H. rewrite next_of_cons in H.
  assert (next_of node_id completed payloads (map to_document nodes) = Ok None ∧
          (op_node_id n = node_id → Some (op_id n) ∈ completed)) as [Hrest Hn].
  { destruct (py_eqb (JStr (op_node_id n)) (JStr node_id)) eqn:E; cbn [negb] in H.
    - apply py_eqb_str in E. injection E as E.
      destruct (among (Some (op_id n)) completed) eqn:Ha; [by bool_facts|]. exfalso.
      rewrite dependencies_done in H.
      + destruct (nl_payloads _ _ Hl n) as [payload Hp]; [set_solver|]. cbn in H. rewrite Hp in H. by inv_run_all.
      + intros dep Hdep. destruct (nl_dependencies _ _ Hl n dep) as (m & Hm & Hid & Hnode); [set_solver|done|].
        subst dep. apply Hpre; [|congruence]. eapply earlier_operation; [apply Hl|apply Hl| |]; done.
    - split; [done|]. intros E'. rewrite E' in E. by rewrite py_eqb_refl in E. }
  intros m [->|Hm]%elem_of_cons; [done|]. revert m Hm. apply (IH (pre ++ [n])); [by rewrite <- (assoc_L app)| |done].
  intros m [Hm| ->%list_elem_of_singleton]%elem_of_app; auto.
Qed.

(** ** Nodes that ran their plan *)

(** The operation of the queue completed. *)
Definition succeeded (s : rollout_db) (id : string) : Prop :=
  ∃ o, t_operations (rd_control s) !! id = Some o ∧ so_state o = "succeeded".

(** The graph and the payloads a rollout was created with. *)
Definition plan_of (plan : json) (nodes : list OperationNode) (payloads : list (string * json)) : Prop :=
  ∃ graph, item_of plan "operation_graph" = graph_json graph ∧ graph_nodes graph = nodes ∧
    item_of plan "operation_payloads" = JObj payloads.

(** The operation [id] of the graph has an entry whose operation completed. *)
Definition entered (s : rollout_db) (n : PackageRolloutNode) (id : string) : Prop :=
  ∃ entry, entry ∈ pn_operation_history n ∧ hi_graph_operation_id entry = Some id ∧ succeeded s (hi_operation_id entry).

Definition ran (s : rollout_db) (plan : json) (n : PackageRolloutNode) : Prop :=
  ∀ nodes payloads, plan_of plan nodes payloads → node_local nodes payloads →
  ∀ m, m ∈ nodes → op_node_id m = pn_node_id n → entered s n (op_id m).

(** Marks stand for operations that completed. *)
Definition true_marks (s : rollout_db) (history : list history_item) : Prop :=
  ∀ entry, entry ∈ history → hi_state entry = "accepted" → succeeded s (hi_operation_id entry).

(** The history of the session differs from that of the row in its marks. *)
Definition same_entries (history history' : list history_item) : Prop :=
  ∀ entry, entry ∈ history' → ∃ e, e ∈ history ∧ hi_graph_operation_id e = hi_graph_operation_id entry ∧
    hi_operation_id e = hi_operation_id entry.

Lemma nothing_next_ran s r n history : next_operation r (pn_node_id n) history = Ok None →
  true_marks s history → same_entries (pn_operation_history n) history → ran s (pk_plan r) n.
Proof.
  intros H Hm He nodes payloads (graph & Hg & <- & Hp) Hl m Hin Hid. unfold next_operation in H.
  destruct (pk_plan r) as [| | | | |plan]; try by inv_run_all. cbn [item_of] in Hg, Hp. rewrite Hg, Hp in H.
  eapply (next_of_none _ _ payloads _ []) in H; [|done|set_solver|done..].
  apply list_elem_of_fmap in H as (entry & Hgraph & [Hst Hentry]%list_elem_of_filter).
  destruct (He entry Hentry) as (e & ? & ? & Ho). exists e. split_and!; [done|congruence|]. rewrite Ho. by apply Hm.
Qed.

Record sound_node (s : rollout_db) (n : PackageRolloutNode) : Prop := {
  sn_marks : true_marks s (pn_operation_history n);
  sn_ran r : rd_rollouts s !! pn_rollout_id n = Some r → pn_state n = "accepted" → ran s (pk_plan r) n
}.

Definition sound s : Prop := ∀ key n, rd_nodes s !! key = Some n → sound_node s n.

(** Plans are not changed and operations that completed stay. *)
Record steady (s s' : rollout_db) : Prop := {
  sd_plans id : pk_plan <$> rd_rollouts s' !! id = pk_plan <$> rd_rollouts s !! id;
  sd_succeeded id : succeeded s id → succeeded s' id
}.

#[export] Instance steady_preorder : PreOrder steady.
Proof. split; [intros s; by split|]. intros s1 s2 s3 [P12 S12] [P23 S23]. split; [congruence|auto]. Qed.

Lemma steady_node s s' n : steady s s' → sound_node s n → sound_node s' n.
Proof.
  intros [HP HS] [Hm Hr]. split; [intros e He Hst; by apply HS, Hm|]. intros r' Hr' Hst nodes payloads Hof Hl m Hin Hid.
  specialize (HP (pn_rollout_id n)). rewrite Hr' in HP. symmetry in HP. apply fmap_Some in HP as (r & Hrow & Hp). rewrite Hp in Hof.
  destruct (Hr r Hrow Hst nodes payloads Hof Hl m Hin Hid) as (e & ? & ? & ?). exists e. auto.
Qed.

Lemma steady_sound s s' : steady s s' → rd_nodes s' = rd_nodes s → sound s → sound s'.
Proof. intros Hst E Hs key n. rewrite E. intros Hn. eapply steady_node; [done|by eapply Hs]. Qed.

(** ** The writes of a rollout *)

Lemma alter_steady rid f s u s' : (∀ r, pk_plan (f r) = pk_plan r) →
  alter_rollout rid f s = (Ok u, s') → steady s s' ∧ rd_nodes s' = rd_nodes s.
Proof.
  intros Hf ->%modify_ok. split; [|done]. split; [|done]. intros id. cbn. rewrite lookup_alter.
  destruct (decide _) as [->|]; [|done]. destruct (rd_rollouts s !! id) as [r|]; [|done]. cbn. by rewrite Hf.
Qed.

Lemma row_steady rid r r' s u s' : rd_rollouts s !! rid = Some r → pk_plan r' = pk_plan r →
  put_rollout rid r' s = (Ok u, s') → steady s s' ∧ rd_nodes s' = rd_nodes s.
Proof.
  intros Hr Hp ->%modify_ok. split; [|done]. split; [|done]. intros id. cbn. rewrite lookup_insert.
  destruct (decide _) as [->|]; [|done]. rewrite Hr. cbn. by rewrite Hp.
Qed.

Lemma job_steady job state reason updated s u s' : set_job job state reason updated s = (Ok u, s') →
  steady s s' ∧ rd_nodes s' = rd_nodes s.
Proof.
  unfold set_job. intros H. inv_run_all. destruct (t_jobs _ !! job).
  - apply on_control_frame in H as (c & Hc & ->). apply modify_ok in Hc as ->. done.
  - by inv_run_all.
Qed.

Lemma sound_put key n s u s' : sound s → sound_node s n → put_rollout_node key n s = (Ok u, s') →
  sound s' ∧ steady s s' ∧ s' = RolloutDb (rd_control s) (rd_rollouts s) (<[key := n]> (rd_nodes s)).
Proof.
  intros Hs Hn ->%modify_ok. split_and!; [|done|done]. intros k m Hm. cbn in Hm.
  apply lookup_insert_Some in Hm as [[_ <-]|[_ Hm]].
  - by destruct Hn.
  - by destruct (Hs k m Hm).
Qed.

(** Updates of a node that leave its history alone. *)
Lemma sound_same s n n' : pn_rollout_id n' = pn_rollout_id n → pn_node_id n' = pn_node_id n →
  pn_operation_history n' = pn_operation_history n → (pn_state n' = "accepted" → pn_state n = "accepted") →
  sound_node s n → sound_node s n'.
Proof.
  intros Hr Hid Hh Hst [Hm Hran]. split; [by rewrite Hh|]. rewrite Hr. intros r Hrow Ha nodes payloads Hof Hl m Hin.
  rewrite Hid. unfold entered. rewrite Hh. by apply (Hran r Hrow (Hst Ha) nodes payloads).
Qed.

Lemma sound_open s n : pn_state n ≠ "accepted" → true_marks s (pn_operation_history n) → sound_node s n.
Proof. intros Hst Hm. split; [done|]. by intros ? _ ?. Qed.

Lemma dispatched_sound s state kind digest id graph history now n : state ≠ "accepted" → true_marks s history →
  sound_node s (dispatched_node state kind digest id graph history now n).
Proof.
  intros Hst Hm. apply sound_open; [done|]. cbn. intros e [He| ->%list_elem_of_singleton]%elem_of_app; [by apply Hm|done].
Qed.

Lemma dispatched_state_open kind : dispatched_state kind ≠ "accepted".
Proof. unfold dispatched_state. by repeat case_match. Qed.

Section completion.
Context {prepared : Type} (update_authorizer : option (UpdateAuthorizer prepared)).
Implicit Types (s : rollout_db) (n : PackageRolloutNode) (d : draw) (i : advance_inputs).

Lemma enqueue_steady job node kind commit payload d s u s' :
  enqueue_package update_authorizer job node kind commit payload d s = (Ok u, s') →
  steady s s' ∧ rd_nodes s' = rd_nodes s ∧ rd_rollouts s' = rd_rollouts s.
Proof.
  unfold enqueue_package. intros H. inv_run_all. apply on_control_frame in H0 as (c & Hc & ->).
  apply enqueued_row in Hc as (-> & Hfresh & _). split_and!; [|done..]. split; [done|].
  intros id (o & Ho & Hst). exists o. cbn. by rewrite lookup_insert_ne by congruence.
Qed.

(** The rows other than that of the node. *)
Ltac quiet_run :=
  match goal with
  | H : set_job _ _ _ _ ?s = (Ok _, ?s'), Hs : sound ?s |- _ => apply job_steady in H as [? ?]
  | H : alter_rollout _ _ ?s = (Ok _, ?s'), Hs : sound ?s |- _ => apply alter_steady in H as [? ?]; [|by intros ?]
  end;
  match goal with Hst : steady ?s ?s', E : rd_nodes ?s' = rd_nodes ?s, Hs : sound ?s |- _ =>
    pose proof (steady_sound s s' Hst E Hs) end.

Ltac stay_run := inv_run_all; split; [done|reflexivity].

Lemma abandon_sound rid job key id o now n s u s' :
  sound s → rd_nodes s !! key = Some n → abandon rid job key id o now n s = (Ok u, s') → sound s' ∧ steady s s'.
Proof.
  intros Hs Hn H. unfold abandon in H. inv_run_all.
  match goal with H : put_rollout_node _ _ _ = _ |- _ => apply sound_put in H as (Hs1 & Hd1 & _); [|done|] end.
  - repeat quiet_run. split; [done|]. etrans; [exact Hd1|]. by etrans.
  - by apply (sound_open s (failed_node _ _ _ _)), (Hs key n).
Qed.

Lemma unsettled_sound rid job key id o d now r n s v s' :
  sound s → rd_nodes s !! key = Some n →
  unsettled update_authorizer rid job key id o d now r n s = (Ok v, s') → sound s' ∧ steady s s' ∧ ∀ h, v ≠ Proceed h.
Proof.
  intros Hs Hn H. unfold unsettled in H.
  destruct (rollback_payload (pk_plan r) (pn_node_id n)) as [payload|]; [destruct (among _ _)|]; inv_run_all;
    [|by match goal with H : abandon _ _ _ _ _ _ _ _ = _ |- _ => apply abandon_sound in H as [? ?]; subst end..].
  match goal with H : enqueue_package _ _ _ _ _ _ _ _ = _ |- _ => apply enqueue_steady in H as (Hd1 & E1 & _) end.
  pose proof (steady_sound _ _ Hd1 E1 Hs) as Hs1.
  match goal with H : put_rollout_node _ _ _ = _ |- _ => apply sound_put in H as (Hs2 & Hd2 & _); [|done|] end.
  - quiet_run. subst. split_and!; [done| |done]. etrans; [exact Hd1|]. by etrans.
  - apply dispatched_sound; [done|]. apply (Hs1 key). by rewrite E1.
Qed.

Lemma marked_true s history id : succeeded s id → true_marks s history → true_marks s (mark_accepted id history).
Proof.
  intros Hid Hm e (e' & -> & He)%list_elem_of_fmap. destruct (eqb (hi_operation_id e') id) eqn:E; [|by apply Hm].
  apply (proj1 (eqb_true _ _)) in E. cbn. intros _. by rewrite E.
Qed.

Lemma marked_same id history : same_entries history (mark_accepted id history).
Proof. intros e (e' & -> & He)%list_elem_of_fmap. exists e'. by destruct (eqb _ _). Qed.

(** What the rest of the loop relies on. *)
Definition session_history (key : string) s (history : list history_item) : Prop :=
  ∃ n, rd_nodes s !! key = Some n ∧ true_marks s history ∧ same_entries (pn_operation_history n) history.

Definition in_batch_of (rid : string) s (key : string) : Prop := ∃ n, rd_nodes s !! key = Some n ∧ pn_rollout_id n = rid.

Lemma row_history key n s : sound s → rd_nodes s !! key = Some n → session_history key s (pn_operation_history n).
Proof. intros Hs Hn. exists n. split_and!; [done|by apply (Hs key)|]. intros e He. by exists e. Qed.

Lemma settle_sound rid job key d now n s v s' :
  sound s → rd_nodes s !! key = Some n → settle update_authorizer rid job key d now s = (Ok v, s') →
  sound s' ∧ steady s s' ∧ ∀ history, v = Proceed history → session_history key s' history.
Proof.
  intros Hs Hn H. unfold settle in H. inv_run_all. rewrite Hn in H.
  pose proof (row_history key n s Hs Hn) as Hh.
  assert (∀ v, v = Continue false ∨ v = Proceed (pn_operation_history n) →
    sound s ∧ steady s s ∧ ∀ history, v = Proceed history → session_history key s history) as Hsame
    by (intros x Hx; split_and!; [done|done|intros h ->; destruct Hx; naive_solver]).
  destruct (rd_rollouts s !! rid) as [r|] eqn:Hr; [|inv_run_all; apply Hsame; auto].
  destruct (active_operation s n) as [[id o]|] eqn:Ha; [|inv_run_all; apply Hsame; auto].
  destruct (among _ ["queued"; "running"]); [inv_run_all; apply Hsame; auto|].
  destruct (eqb (so_state o) "succeeded") eqn:Hst.
  - apply (proj1 (eqb_true _ _)) in Hst. unfold active_operation in Ha. destruct (pn_operation_id n) as [id'|]; [|done]. cbn in Ha.
    destruct (t_operations _ !! id') as [o'|] eqn:Ho; [|done]. injection Ha as <- <-.
    inv_run_all. match goal with H : put_rollout_node _ _ _ = _ |- _ => apply sound_put in H as (Hs1 & Hd1 & E1); [|done|] end;
      [|apply (sound_same s n); [done..|by apply (Hs key)]].
    destruct (eqb _ _); inv_run_all.
    + match goal with H : put_rollout_node _ _ _ = _ |- _ => apply sound_put in H as (Hs2 & Hd2 & _); [|done|] end.
      * repeat quiet_run. subst. split_and!; [done| |done]. etrans; [exact Hd1|]. etrans; [exact Hd2|]. by etrans.
      * apply sound_open; [done|]. subst. exact (sn_marks s n (Hs key n Hn)).
    + split_and!; [done..|]. intros history [= <-]. subst. eexists. split_and!; [apply lookup_insert_eq| |apply marked_same].
      apply marked_true; [by exists o'|]. exact (sn_marks s n (Hs key n Hn)).
  - destruct (among _ _); [|inv_run_all; apply Hsame; auto]. eapply unsettled_sound in H as (? & ? & Hv); [|done..].
    split_and!; [done..|]. intros h E. by destruct (Hv h).
Qed.

Lemma dispatch_sound rid job key d now history s q s' :
  sound s → session_history key s history → in_batch_of rid s key →
  dispatch_next update_authorizer rid job key d now history s = (Ok q, s') → sound s' ∧ steady s s'.
Proof.
  intros Hs (n & Hn & Hm & He) (n' & Hn' & Hid) H. assert (n' = n) as -> by congruence. unfold dispatch_next in H. inv_run_all.
  rewrite Hn in H. destruct (rd_rollouts s !! rid) as [r|] eqn:Hr; [|stay_run].
  destruct (among _ _); [stay_run|]. inv_run_all. destruct x as [[[g kind] payload]|]; inv_run_all.
  - match goal with H : enqueue_package _ _ _ _ _ _ _ _ = _ |- _ => apply enqueue_steady in H as (Hd1 & E1 & _) end.
    pose proof (steady_sound _ _ Hd1 E1 Hs) as Hs1.
    match goal with H : put_rollout_node _ _ _ = _ |- _ => apply sound_put in H as (Hs2 & Hd2 & _); [|done|] end; [by split; [|etrans]|].
    apply dispatched_sound; [apply dispatched_state_open|]. intros e Hin Hst. by apply (sd_succeeded _ _ Hd1), Hm.
  - match goal with H : put_rollout_node _ _ _ = _ |- _ => apply sound_put in H as (Hs2 & Hd2 & _); [done|done|] end.
    split; [exact (sn_marks s n (Hs key n Hn))|]. cbn. rewrite Hid. intros y Hy _. assert (y = r) as -> by congruence.
    exact (nothing_next_ran s r (settled_node "accepted" now n) history H0 Hm He).
Qed.

Lemma advance_nodes_sound rid b job draws now keys s q s' :
  sound s → (∀ key, key ∈ keys → in_batch rid b s key) →
  advance_nodes update_authorizer rid job draws now keys s = (Ok q, s') → sound s' ∧ steady s s'.
Proof.
  revert s q. induction keys as [|key keys IH]; intros s q Hs Hin H; cbn in H; inv_run_all; [by split|].
  pose proof (Hin key ltac:(set_solver)) as Hk. pose proof (advance_node_touches _ _ _ _ _ _ _ _ _ _ Hk H0) as Ht.
  match goal with H : advance_node _ _ _ _ _ _ _ = (_, ?s1) |- _ => assert (sound s1 ∧ steady s s1) as [Hs1 Hd1] end.
  { unfold advance_node in H0. inv_run_all. destruct Hk as (n & Hn & Hid & Hb).
    match goal with H : settle _ _ _ _ _ _ _ = _ |- _ =>
      pose proof (settle_touches _ rid b _ _ _ _ _ _ _ (ex_intro _ n (conj Hn (conj Hid Hb))) H) as Ht';
      apply (settle_sound _ _ _ _ _ n) in H as (Hs1 & Hd1 & Hh); [|done..] end.
    match goal with v : verdict |- _ => destruct v as [|history]; inv_run_all; [done|] end.
    match goal with H : dispatch_next _ _ _ _ _ _ _ _ = _ |- _ => eapply dispatch_sound in H as [? ?]; [|done|by apply Hh|] end; [by split; [|etrans]|].
    destruct (touches_in_batch _ _ rid b _ _ key Ht') as (m & ? & ? & _); [by exists n|by exists m]. }
  match goal with H : advance_nodes _ _ _ _ _ _ _ = _ |- _ => eapply IH in H as [Hs2 Hd2]; [by split; [|etrans]|done|] end. intros k Hk'. eapply touches_in_batch, Hin; [done|set_solver].
Qed.

Lemma close_batch_sound rid job keys now s u s' : sound s → close_batch rid job keys now s = (Ok u, s') → sound s' ∧ steady s s'.
Proof.
  unfold close_batch. intros Hs H. inv_run_all. destruct (rd_rollouts s !! rid) as [r|] eqn:Hr; [|stay_run].
  destruct (forallb _ _); [|stay_run]. destruct (existsb _ _).
  - apply (row_steady _ r) in H as [Hd E]; [|done..]. split; [by eapply steady_sound|done].
  - inv_run_all. match goal with H : put_rollout _ _ _ = _ |- _ => apply (row_steady _ r) in H as [Hd E]; [|done..] end.
    pose proof (steady_sound _ _ Hd E Hs). quiet_run. split; [done|by etrans].
Qed.

Lemma advance_sound rid i s st s' : gated s → sound s →
  advance_rollout update_authorizer rid i s = (Ok st, s') → sound s' ∧ steady s s'.
Proof.
  intros G Hs H. destruct (advance_cases _ _ _ _ _ _ G H) as [->|(r & job & c & queued & s1 & Hr & _ & Hjob & Hloop & Hend)]; [by split|].
  apply (moves_run _ _ _ _ _ (job_in_session_queue _ _ _)) in Hjob.
  assert (steady s (set_rd_control c s)) as Hd.
  { split; [done|]. intros id (o & Ho & Hst). exists o. unfold same_queue in Hjob. by rewrite Hjob. }
  eapply (advance_nodes_sound rid (pk_current_batch r)) in Hloop as [Hs1 Hd1];
    [|by eapply steady_sound|intros key; by rewrite elem_batch_of].
  assert (sound s' ∧ steady s1 s') as [? ?]; [|split; [done|]; etrans; [exact Hd|by etrans]].
  destruct queued; [|by eapply close_batch_sound]. apply alter_steady in Hend as [Hd2 E2]; [split; [by eapply steady_sound|done]|].
  intros x. cbv beta. by destruct (eqb _ _).
Qed.

(** ** Every database *)

(** A creation adds a rollout with the plan it was given, and changes no other. *)
Definition added rid (r : PackageRollout) s s' : Prop := rd_rollouts s !! rid = None ∧ ∃ c,
  adds_nodes rid (RolloutDb c (<[rid := r]> (rd_rollouts s)) (rd_nodes s)) s'.

Lemma create_adds p deployment actor request job rid keys now s id s' :
  create_rollout p deployment actor request job rid keys now s = (Ok id, s') →
  s' = s ∧ is_Some (rd_rollouts s !! id) ∨ id = rid ∧ ∃ r graph, added rid r s s' ∧
    rp_operation_graph p = Some graph ∧ plan_of (pk_plan r) (graph_nodes graph) (rp_operation_payloads p).
Proof.
  intros H. unfold create_rollout in H. inv_run_all.
  destruct (find_row _ _) as [[existing e]|] eqn:Hf.
  { left. inv_run_all. split; [done|]. apply find_row_Some in Hf as [Hf _]. eauto. }
  right. inv_run_all. bool_facts. split; [done|].
  match goal with H : on_control _ _ = _ |- _ => apply on_control_frame in H as (c & _ & ->) end.
  unfold put_rollout in *. inv_run_all.
  match goal with H : insert_nodes _ _ _ _ _ _ _ _ = _ |- _ => apply insert_nodes_adds in H as [Ha _]; [|done] end.
  destruct (rp_operation_graph p) as [graph|]; [|by inv_run_all]. inv_run_all. subst graph.
  eexists _, _. split_and!; [split; [done|exists c; exact Ha]|done|by eexists].
Qed.

(** A step after which the operations that had completed still have. *)
Definition durable_step s s' : Prop :=
  rollout_step update_authorizer s s' ∧ ∀ id, succeeded s id → succeeded s' id.

Lemma step_kinds s s' : gated s → sound s → durable_step s s' →
  steady s s' ∧ sound s' ∨ ∃ rid r, added rid r s s'.
Proof.
  set (R := λ s s', gated s → sound s → steady s s' ∧ sound s' ∨ ∃ rid r, added rid r s s').
  assert (Reflexive R) by (intros x _ ?; by left).
  intros G Hs [[p deployment actor request job rid keys now|rid i|rid now|c] Hd].
  - clear Hd. revert G Hs. apply (moves_atomic R); [unfold create_rollout; solve_atomic|].
    intros x id x' [[-> _]|(_ & r & graph & Ha & _)]%create_adds; [by apply H|]. right. eauto.
  - clear Hd. revert G Hs. apply (moves_atomic R); [apply atomic_transaction|]. intros x st x' Hrun G Hs. left.
    eapply advance_sound in Hrun; naive_solver.
  - left. destruct (alter_steady rid (λ r, touched now (to_state "rolling-back" r)) s () (begin_rollback rid now s).2) as [Hst E];
      [done..|]. split; [done|by eapply steady_sound].
  - left. assert (steady s (set_rd_control c s)) by (by split). split; [done|by eapply steady_sound].
Qed.

Lemma added_sound rid r s s' : gated s → sound s → (∀ id, succeeded s id → succeeded s' id) → added rid r s s' → sound s'.
Proof.
  intros [GN _] Hs Hd (Hnone & c & [_ HR _ HN]) key n Hn. cbn in HR, HN.
  apply HN in Hn as [Hn|(_ & _ & _ & Hp & _ & Hh)].
  - destruct (GN _ _ Hn) as (y & Hy & _), (Hs key n Hn) as [Hm Hran]. split; [intros e He Hst; by apply Hd, Hm|].
    rewrite HR, lookup_insert_ne by congruence. intros x Hx Hst nodes payloads Hof Hl m Hin Hid.
    destruct (Hran x Hx Hst nodes payloads Hof Hl m Hin Hid) as (e & ? & ? & ?). exists e. auto.
  - apply sound_open; [by rewrite Hp|]. rewrite Hh. intros e He. by apply elem_of_nil in He.
Qed.

Lemma durable_sound s s' : gated s → sound s → durable_step s s' → sound s'.
Proof.
  intros G Hs Hst. destruct (step_kinds _ _ G Hs Hst) as [[_ ?]|(rid & r & Ha)]; [done|]. eapply added_sound; [done..|apply Hst|done].
Qed.

(** Along a run the invariants hold and plans stay. *)
Lemma run_sound s s' : rtc durable_step s s' → gated s → sound s → gated s' ∧ sound s' ∧
  ∀ rid r, rd_rollouts s !! rid = Some r → ∃ r', rd_rollouts s' !! rid = Some r' ∧ pk_plan r' = pk_plan r.
Proof.
  induction 1 as [s|s1 s2 s3 H12 _ IH]; intros G Hs; [eauto|].
  destruct IH as (G3 & Hs3 & Hp); [eapply step_gated; [done|apply H12]|by eapply durable_sound|]. split_and!; [done..|].
  intros rid r Hr. assert (∃ r2, rd_rollouts s2 !! rid = Some r2 ∧ pk_plan r2 = pk_plan r) as (r2 & Hr2 & <-); [|by apply Hp].
  destruct (step_kinds _ _ G Hs H12) as [[[HP _] _]|(id & x & Hnone & c & [_ HR _ _])].
  - specialize (HP rid). rewrite Hr in HP. apply fmap_Some in HP as (r2 & ? & ?). eauto.
  - exists r. rewrite HR. cbn. by rewrite lookup_insert_ne by congruence.
Qed.

(** C7. A plan that was resolved is created as a rollout; however often the rollout is
    advanced or rolled back and whatever else the control plane does afterwards, short
    of undoing operations that completed, a node of the rollout that is accepted has an
    entry for every operation the plan has for that node, and the operation of the
    entry succeeded in the agent queue. *)
Theorem accepted_node_ran_its_plan `{PackageSources} c commit ids evidence plan deployment actor request job rid keys now
    s0 s1 s (key : string) n :
  rtc durable_step (no_rollouts c) s0 → rd_rollouts s0 !! rid = None →
  resolve_packages commit ids evidence = Ok plan →
  create_rollout plan deployment actor request job rid keys now s0 = (Ok rid, s1) → durable_step s0 s1 →
  rtc durable_step s1 s →
  rd_nodes s !! key = Some n → pn_rollout_id n = rid → pn_state n = "accepted" →
  ∃ graph, rp_operation_graph plan = Some graph ∧ ∀ m, m ∈ graph_nodes graph → op_node_id m = pn_node_id n →
    ∃ entry o, entry ∈ pn_operation_history n ∧ hi_graph_operation_id entry = Some (op_id m) ∧
      t_operations (rd_control s) !! hi_operation_id entry = Some o ∧ so_state o = "succeeded".
Proof.
  intros H0 Hnone Hplan Hcreate H01 Hs Hn Hid Hst.
  destruct (run_sound _ _ H0) as (G0 & S0 & _);
    [apply (reachable_gated update_authorizer c); reflexivity|intros k x Hx; cbn in Hx; by rewrite lookup_empty in Hx|].
  destruct (run_sound _ _ Hs) as (_ & S & Hkept); [eapply step_gated; [exact G0|apply H01]|by eapply durable_sound|].
  destruct (create_adds _ _ _ _ _ _ _ _ _ _ _ Hcreate) as [[_ [x Hx]]|(_ & r & graph & (_ & c1 & Ha) & Hg & Hof)]; [congruence|].
  destruct (Hkept rid r) as (r' & Hr' & Hp); [rewrite (an_rollouts _ _ _ Ha); apply lookup_insert_eq|].
  destruct (resolved_plan_local _ _ _ _ Hplan) as (graph' & Hg' & Hl). rewrite Hg in Hg'. injection Hg' as <-.
  exists graph. split; [done|]. intros m Hm Hnode. rewrite <- Hp in Hof. rewrite <- Hid in Hr'.
  destruct (sn_ran _ _ (S key n Hn) r' Hr' Hst _ _ Hof Hl m Hm Hnode) as (entry & ? & ? & o & ? & ?). eauto 6.
Qed.
End completion.
