(* ===== verification/RolloutResults.v ===== *)
(** * Results of the operations of a package rollout

    The agent queue and the rollout orchestrator share the parent job of a rollout.
    When the queue records the result of an operation it derives the state of the
    parent from the operations that exist, and so closes it while operations of the
    rollout are still to be enqueued: the orchestrator can then neither go on nor roll
    back, and its worker, which asks the oldest rollout first, never gets past it. *)

From S2P Require Import Prelude Identifiers Canonical Documents Contracts PackageEngine Protocol.
From S2P Require Import OperationGraph Orchestration Jobs AgentTables AgentJobs AgentJobsFacts.
From S2P Require Import AgentReconciliation PackageRollouts RolloutFacts.

(** ** The consumers of the queue *)

(** The tables an advance and the state of a parent are read from. *)
Definition same_work (s s' : control_db) : Prop :=
  t_jobs s' = t_jobs s ∧ t_operations s' = t_operations s ∧ t_attempts s' = t_attempts s
  ∧ t_projections s' = t_projections s.

#[export] Instance same_work_preorder : PreOrder same_work.
Proof. unfold same_work. split; [by intros s|]. intros s1 s2 s3 (? & ? & ? & ?) (? & ? & ? & ?). split_and!; congruence. Qed.

(** Contacts are recorded elsewhere; results of operations that are not projected into
    a reconciliation are passed over. *)
Class Bystanders (contact_consumer : option (AgentSource → M control_db unit))
    (result_consumer : option (string → string → AgentResult → M control_db unit)) : Prop := {
  contact_bystander consume source : contact_consumer = Some consume → moves same_work (consume source);
  result_bystander consume id fence m s : result_consumer = Some consume → projection_of s id = None →
    consume id fence m s = (Ok (), s)
}.

(** The reconciliation service is such a consumer of results. *)
#[export] Instance reconciliation_bystander redact_text endpoint_resolver authority i prefetched :
  Bystanders None (Some (consume_result redact_text endpoint_resolver authority i prefetched)).
Proof.
  split; [done|]. intros consume id fence m s [= <-] Hp. unfold consume_result, mbind, M_bind, get. by rewrite Hp.
Qed.

Section results.
Context (redact_text : string → string).
Context (contact_consumer : option (AgentSource → M control_db unit)).
Context (result_consumer : option (string → string → AgentResult → M control_db unit)).
Context `{!Bystanders contact_consumer result_consumer}.

Lemma consume_contact_work source node serial c : moves same_work (consume_contact contact_consumer source node serial c).
Proof. unfold consume_contact. solve_moves. by eapply contact_bystander. Qed.

Lemma record_contact_work node serial now protocol capabilities runtime :
  moves same_work (record_contact node serial now protocol capabilities runtime).
Proof. unfold record_contact. solve_moves. by apply moves_modify. Qed.
#[local] Hint Resolve consume_contact_work record_contact_work : py.

Lemma lock_targets_work id : moves same_work (lock_reconciliation_targets id).
Proof. unfold lock_reconciliation_targets. solve_moves. Qed.
Lemma require_authority_work id : moves same_work (require_active_reconciliation_authority id).
Proof. unfold require_active_reconciliation_authority, stale_attempt. solve_moves. Qed.
#[local] Hint Resolve lock_targets_work require_authority_work : py.

Lemma active_work f source now : moves same_work (agent_active contact_consumer f source now).
Proof. unfold agent_active, stale_attempt. solve_moves. Qed.

Lemma active_rows f source now s id o a s' :
  agent_active contact_consumer f source now s = (Ok (id, o, a), s') →
  same_work s s' ∧ t_attempts s !! fence_token f = Some a ∧ id = at_operation_id a ∧ t_operations s !! id = Some o.
Proof.
  intros H. pose proof (moves_run _ _ _ _ _ (active_work f source now) H) as Hw. split; [done|].
  apply active_ok' in H as (_ & Ho & Ha & Hid & _).
  - destruct Hw as (_ & <- & <- & _). done.
  - intros consume x Hc s1. destruct (contact_bystander consume x Hc s1) as (_ & ? & ? & _). by apply quiet_frame.
Qed.

(** The parent of a settled operation whose siblings are all settled. *)
Lemma aggregate_closes job now s s' u j :
  aggregate_parent redact_text job now s = (Ok u, s') →
  t_jobs s !! job = Some j → job_kind j ≠ "platform.update" → job_reconciliation_id j = None →
  (∃ id o, t_operations s !! id = Some o ∧ so_parent_job_id o = job) →
  (∀ id o, t_operations s !! id = Some o → so_parent_job_id o = job → so_state o ∈ settled_states) →
  t_operations s' = t_operations s ∧
  ∃ j', t_jobs s' !! job = Some j' ∧ job_state j' ∈ terminal_parent_states ∧ job_kind j' = job_kind j.
Proof.
  intros H Hj Hk Hrec (id & o & Ho & Hp) Hall. unfold aggregate_parent in H. inv_run_all. rewrite Hj, Hrec in H.
  rewrite (proj2 (eqb_false _ _) Hk) in H. cbn [orb negb is_None_b] in H.
  assert (∀ p, p ∈ children s job ↔ t_operations s !! p.1 = Some p.2 ∧ so_parent_job_id p.2 = job) as Hin.
  { intros [k x]. unfold children. rewrite merge_sort_Permutation, list_elem_of_filter, elem_of_map_to_list. naive_solver. }
  assert (nonempty (children s job) = true) as Hne.
  { apply nonempty_true. intros E. assert ((id, o) ∈ children s job) as Hx by (by apply Hin). rewrite E in Hx. set_solver. }
  assert (existsb (λ p : string * StoredOperation, negb (among (so_state p.2) settled_states)) (children s job) = false) as Hex.
  { apply not_true_is_false. intros ([k x] & [Hx Hpx]%list_elem_of_In%Hin & Hn)%existsb_exists. bool_facts.
    apply not_true_iff_false in Hn. apply Hn, among_true. by eapply Hall. }
  rewrite Hne, Hex in H. cbn [orb negb] in H. inv_run_all. unfold put_job in H. inv_run_all.
  assert (x0 = s) as -> by (case_match; by inv_run_all). split; [done|].
  eexists. cbn. rewrite lookup_insert_eq. split_and!; [done| |done]. cbn. unfold aggregate_state.
  repeat case_match; apply among_true; reflexivity.
Qed.

(** A recorded result closes the parent as soon as no sibling is open. *)
Lemma finish_closes f state value reason source t now t' s s' u a o j :
  agent_finish redact_text contact_consumer result_consumer f state value reason source t now t' s = (Ok u, s') →
  t_attempts s !! fence_token f = Some a → t_operations s !! at_operation_id a = Some o →
  t_jobs s !! so_parent_job_id o = Some j → job_kind j ≠ "platform.update" → job_reconciliation_id j = None →
  projection_of s (at_operation_id a) = None → state ∈ settled_states →
  (∀ id x, t_operations s !! id = Some x → so_parent_job_id x = so_parent_job_id o → id ≠ at_operation_id a →
     so_state x ∈ settled_states) →
  t_operations s' !! at_operation_id a = Some (with_operation_state state now o) ∧
  ∃ j', t_jobs s' !! so_parent_job_id o = Some j' ∧ job_state j' ∈ terminal_parent_states ∧ job_kind j' = job_kind j.
Proof.
  intros H Ha Ho Hj Hk Hrec Hproj Hst Hothers. unfold agent_finish in H. inv_run_all.
  destruct x as [[id o1] a1]. apply active_rows in H0 as (Hw & Ha1 & -> & Ho1).
  assert (a1 = a) as -> by congruence. assert (o1 = o) as -> by congruence. clear Ha1 Ho1.
  inv_run_all. match goal with H : (if _ then observe_probe _ _ _ else _) _ = (_, ?s) |- _ => rename s into s1 end.
  assert (same_work s s1) as Hw1.
  { etrans; [exact Hw|]. match goal with H : (if _ then observe_probe _ _ _ else _) _ = _ |- _ => revert H end.
    apply moves_run. unfold observe_probe. solve_moves; by apply moves_modify. }
  destruct Hw1 as (Ej & Eo & _ & Ep). unfold put_attempt, put_operation in *. inv_run_all.
  match goal with H : aggregate_parent _ _ _ ?s3 = _, H' : _ ?s2 = (Ok _, ?s3) |- _ =>
    assert (s3 = s2) as -> end.
  { destruct result_consumer as [consume|] eqn:Hc; [|by inv_run_all]. case_match; [by inv_run_all|].
    match goal with H : consume _ _ _ _ = _ |- _ => rewrite (result_bystander consume) in H end; [by inv_run_all|done|].
    by rewrite <- Hproj; unfold projection_of; cbn; rewrite Ep. }
  match goal with H : aggregate_parent _ _ _ _ = _ |- _ => eapply aggregate_closes in H as [Eo' Hj']; cbn end.
  - rewrite Eo'. cbn. by rewrite lookup_insert_eq.
  - by rewrite Ej.
  - done.
  - done.
  - exists (at_operation_id a), (with_operation_state state now o). cbn. by rewrite lookup_insert_eq.
  - intros id y. cbn. intros [[<- <-]|[Hne Hx]]%lookup_insert_Some Hp; [done|]. rewrite Eo in Hx. by eapply Hothers.
Qed.
End results.

(** ** The rollout after a result *)

Section stalled.
Context {prepared : Type} (update_authorizer : option (UpdateAuthorizer prepared)).
Implicit Types (s : rollout_db) (n : PackageRolloutNode) (r : PackageRollout).

Lemma enqueue_refused job j node kind commit payload d s u s' :
  t_jobs (rd_control s) !! job = Some j → job_state j ∈ terminal_parent_states → job_kind j ≠ "platform.update" →
  enqueue_package update_authorizer job node kind commit payload d s ≠ (Ok u, s').
Proof.
  intros Hj Hst Hk H. unfold enqueue_package in H. inv_run_all. apply on_control_frame in H0 as (c & H0 & _).
  unfold enqueue_in_session in H0. inv_run_all. destruct (t_nodes _ !! node); [|by inv_run_all]. inv_run_all.
  rewrite Hj, (proj2 (eqb_false _ _) Hk), (proj2 (among_true _ _) Hst) in H0. cbn [andb negb] in H0. by inv_run_all.
Qed.

(** The result of the node's operation leaves something to enqueue: the next operation
    of the plan, or the rollback. *)
Definition more_to_do r n (id state : string) : Prop :=
  pn_state n ∉ ["accepted"; "cancelled"; "failed"; "rolled-back"; "offline-pending"] ∧
  (state = "succeeded" ∧ active_kind (pn_operation_history n) id ≠ Some (operation_value PACKAGE_ROLLBACK)
     ∧ (∃ x, PackageRollouts.next_operation r (pn_node_id n) (mark_accepted id (pn_operation_history n)) = Ok (Some x))
   ∨ state ∈ ["failed"; "waiting-for-operator"] ∧ is_Some (rollback_payload (pk_plan r) (pn_node_id n))
     ∧ active_kind (pn_operation_history n) id ∈ [Some (operation_value PACKAGE_ACTIVATE); Some (operation_value PACKAGE_HEALTH)]).

Lemma dispatch_stalls rid job j key d now history s r n x q s' :
  t_jobs (rd_control s) !! job = Some j → job_state j ∈ terminal_parent_states → job_kind j ≠ "platform.update" →
  rd_rollouts s !! rid = Some r → rd_nodes s !! key = Some n →
  pn_state n ∉ ["accepted"; "cancelled"; "failed"; "rolled-back"; "offline-pending"] →
  PackageRollouts.next_operation r (pn_node_id n) history = Ok (Some x) →
  dispatch_next update_authorizer rid job key d now history s ≠ (Ok q, s').
Proof.
  intros Hj Hst Hk Hr Hn Hs Hnext H. unfold dispatch_next in H. inv_run_all. rewrite Hr, Hn in H.
  unfold among in H. rewrite (proj2 (bool_decide_eq_false _) Hs) in H. rewrite Hnext in H. inv_run_all.
  destruct x as [[g kind] payload]. inv_run_all. subst. inv_run_all. eapply enqueue_refused; [done|done|done|eassumption].
Qed.

Lemma advance_node_stalls rid job j key d now s r n id o q s' :
  t_jobs (rd_control s) !! job = Some j → job_state j ∈ terminal_parent_states → job_kind j ≠ "platform.update" →
  rd_rollouts s !! rid = Some r → rd_nodes s !! key = Some n → pn_operation_id n = Some id →
  t_operations (rd_control s) !! id = Some o → more_to_do r n id (so_state o) →
  advance_node update_authorizer rid job key d now s ≠ (Ok q, s').
Proof.
  intros Hj Hst Hk Hr Hn Hid Ho [Hs Hmore] H. unfold advance_node, settle in H. inv_run_all. rewrite Hr, Hn in *.
  unfold active_operation in *. rewrite Hid in *. cbn [mbind option_bind] in *. rewrite Ho in *. cbn [mbind option_bind] in *.
  destruct Hmore as [(Hst' & Hkind & x' & Hx')|(Hst' & [payload Hp] & Hkind)].
  - rewrite Hst' in *. change (among "succeeded" _) with false in H0. change (eqb "succeeded" _) with true in H0.
    rewrite (proj2 (eqb_false _ _) Hkind) in H0. unfold put_rollout_node in H0. inv_run_all. subst.
    refine (dispatch_stalls rid job j key d now _ (RolloutDb (rd_control s) (rd_rollouts s) _) r
              (accept_operation s n id o now) x' _ _ _ _ _ _ _ _ _ H); [done..|apply lookup_insert_eq|done|done].
  - assert (among (so_state o) ["queued"; "running"] = false ∧ eqb (so_state o) "succeeded" = false
            ∧ among (so_state o) ["failed"; "waiting-for-operator"; "expired"] = true) as (E1 & E2 & E3).
    { rewrite !elem_of_cons, elem_of_nil in Hst'. by destruct Hst' as [->|[->|[]]]. }
    rewrite E1, E2, E3 in H0. unfold unsettled in H0. rewrite Hp, (proj2 (among_true _ _) Hkind) in H0. inv_run_all.
    eapply enqueue_refused; [done|done|done|eassumption].
Qed.

(** The state of a rollout whose only node of the current batch has a settled operation
    and whose parent was closed. *)
Record stalled (rid key : string) s r n (id : string) (o : StoredOperation) (job : string) (j : Job) : Prop := {
  sl_row : rd_rollouts s !! rid = Some r;
  sl_open : among (pk_state r) closed_states = false;
  sl_batch : batch_of s rid (pk_current_batch r) = [key];
  sl_node : rd_nodes s !! key = Some n;
  sl_operation : pn_operation_id n = Some id;
  sl_stored : t_operations (rd_control s) !! id = Some o;
  sl_more : more_to_do r n id (so_state o);
  sl_linked : pk_job_id r = Some job;
  sl_job : t_jobs (rd_control s) !! job = Some j;
  sl_closed : job_state j ∈ terminal_parent_states;
  sl_kind : job_kind j ≠ "platform.update"
}.

Lemma advance_stalls rid key s r n id o job j i : stalled rid key s r n id o job j →
  ∃ e, advance_rollout update_authorizer rid i s = (Err e, s).
Proof.
  intros [Hr Hopen Hbatch Hn Hid Ho Hmore Hlink Hj Hst Hk].
  destruct (advance_rollout update_authorizer rid i s) as [[st|e] s'] eqn:H.
  - exfalso. eapply rollout_advance_run in H as (job' & c & queued & s1 & Hjob & Hloop & _); [|done|by rewrite Hbatch|done].
    unfold job_in_session in Hjob. inv_run_all. rewrite Hlink in Hjob. cbn [mbind option_bind] in Hjob. rewrite Hj in Hjob.
    cbn in Hjob. inv_run_all. rewrite Hbatch in Hloop. cbn [advance_nodes] in Hloop. inv_run_all. subst.
    apply M_ret_ok in Hjob as [<- E]. rewrite <- E in *. by eapply advance_node_stalls.
  - exists e. f_equal. by eapply transaction_err.
Qed.

(** The worker finds such a rollout ready. *)
Lemma stalled_ready rid key s r n id o job j : stalled rid key s r n id o job j → pk_state r ∈ advance_states →
  rollout_ready s rid = inl true.
Proof.
  intros [Hr _ Hbatch Hn Hid Ho [Hs Hmore] _ _ _ _] Hst. unfold rollout_ready. rewrite Hr, (proj2 (among_true _ _) Hst).
  cbn [negb]. unfold batch_of in Hbatch. destruct (filter _ _) as [|[k m] [|? ?]] eqn:E; [done| |done].
  assert (k = key) as -> by (by injection Hbatch).
  assert ((key, m) ∈ filter (λ p : string * PackageRolloutNode, pn_batch_index p.2 = pk_current_batch r) (nodes_of s rid))
    as [_ [Hm _]%elem_nodes_of]%list_elem_of_filter by (rewrite E; set_solver).
  assert (m = n) as -> by congruence. destruct (eqb (pk_state r) "planned"); [done|]. cbn [map nodes_ready snd].
  rewrite (proj2 (eqb_false _ _)) by set_solver. rewrite Hid, Ho.
  assert (so_state o ∈ terminal_operation_states) as Ht; [|by rewrite (proj2 (among_true _ _) Ht)].
  destruct Hmore as [[-> _]|[Hm' _]]; [apply among_true; reflexivity|]. rewrite !elem_of_cons, elem_of_nil in Hm'.
  destruct Hm' as [->|[->|[]]]; apply among_true; reflexivity.
Qed.

Lemma candidate_state s id : id ∈ rollout_candidates s → ∃ r, rd_rollouts s !! id = Some r ∧ pk_state r ∈ advance_states.
Proof.
  unfold rollout_candidates. rewrite list_elem_of_fmap. intros ([k r] & -> & Hin). exists r.
  rewrite merge_sort_Permutation, list_elem_of_filter, elem_of_map_to_list in Hin. naive_solver.
Qed.

(** The oldest rollout stops the worker. *)
Lemma tick_stalls claimed inputs rid key s r n id o job j w ids : stalled rid key s r n id o job j →
  wk_db w = s → rollout_candidates s = rid :: ids → claimed rid = true →
  ∃ e w', tick_packages update_authorizer claimed inputs w = (Err e, w') ∧ wk_db w' = s.
Proof.
  intros Hs <- Hc Hcl. destruct (advance_stalls _ _ _ _ _ _ _ _ _ (inputs rid) Hs) as [e He].
  assert (rollout_ready (wk_db w) rid = inl true) as Hready.
  { eapply stalled_ready; [done|]. destruct (candidate_state (wk_db w) rid) as (x & Hx & ?); [rewrite Hc; set_solver|].
    assert (x = r) as <- by (pose proof (sl_row _ _ _ _ _ _ _ _ _ Hs); congruence). done. }
  exists e, (RolloutWorker (wk_db w) None). split; [|done].
  unfold tick_packages, mbind, M_bind, modify, get. cbn [wk_db set_last_error]. rewrite Hc. cbn [tick_rollouts].
  rewrite Hcl. cbn [negb]. unfold mbind, M_bind, get. change (wk_db (set_last_error None w)) with (wk_db w).
  rewrite Hready. unfold zoom. change (wk_db (set_last_error None w)) with (wk_db w). by rewrite He.
Qed.

(** A source of the control worker that raises at the cursor stops the loop. *)
Lemma source_stops_worker {W} (sources : list (M W bool)) heartbeat (tick : M W bool) cursor (w w' : W) e :
  sources !! cursor = Some tick → tick w = (Err e, w') →
  run_once None heartbeat sources (cursor, w) = (Err e, (cursor, w')).
Proof.
  intros Hs Ht. pose proof (lookup_lt_Some _ _ _ Hs) as Hlt. unfold run_once.
  unfold mbind, M_bind, mret, M_ret, get, modify, zoom. cbn [fst snd].
  destruct (Nat.leb_spec (length sources) cursor) as [|_]; [lia|].
  destruct (length sources) as [|k] eqn:El; [lia|]. cbn [seq run_sources].
  rewrite El, Nat.add_0_r, Nat.mod_small by lia. rewrite Hs. unfold mbind, M_bind. by rewrite Ht.
Qed.
End stalled.

Section theorem.
Context (redact_text : string → string).
Context (contact_consumer : option (AgentSource → M control_db unit)).
Context (result_consumer : option (string → string → AgentResult → M control_db unit)).
Context `{!Bystanders contact_consumer result_consumer}.
Context {prepared : Type} (update_authorizer : option (UpdateAuthorizer prepared)).

(** C22. The agent queue closes the parent of a package rollout when it records a result
    of the only node of the current batch, such as the canary, and all other operations of
    that parent are settled. If the plan has another operation for the node, or the
    activation or health check that failed asks for the planned rollback ([more_to_do]; not
    a failed preparation, and not the last operation of the plan), the rollout is then
    stuck: every advance raises and writes nothing; and while this rollout is the first
    candidate of the package worker and claimed by it, every tick of that worker raises
    without advancing any rollout, which ends the loop of the control worker when the
    worker is the next of its sources. *)
Theorem recorded_result_stalls_the_rollout f state value reason source t now t' (s : rollout_db) c' a o j rid r key n :
  agent_finish redact_text contact_consumer result_consumer f state value reason source t now t' (rd_control s) = (Ok (), c') →
  t_attempts (rd_control s) !! fence_token f = Some a → t_operations (rd_control s) !! at_operation_id a = Some o →
  projection_of (rd_control s) (at_operation_id a) = None →
  t_jobs (rd_control s) !! so_parent_job_id o = Some j → job_kind j = "package.rollout" → job_reconciliation_id j = None →
  (∀ id x, t_operations (rd_control s) !! id = Some x → so_parent_job_id x = so_parent_job_id o → id ≠ at_operation_id a →
     so_state x ∈ settled_states) →
  rd_rollouts s !! rid = Some r → among (pk_state r) closed_states = false → pk_job_id r = Some (so_parent_job_id o) →
  batch_of s rid (pk_current_batch r) = [key] → rd_nodes s !! key = Some n → pn_operation_id n = Some (at_operation_id a) →
  more_to_do r n (at_operation_id a) state →
  let s' := set_rd_control c' s in
  (∃ j', t_jobs c' !! so_parent_job_id o = Some j' ∧ job_state j' ∈ terminal_parent_states) ∧
  (∀ i, ∃ e, advance_rollout update_authorizer rid i s' = (Err e, s')) ∧
  (∀ claimed inputs w ids, wk_db w = s' → rollout_candidates s' = rid :: ids → claimed rid = true →
     ∃ e w', tick_packages update_authorizer claimed inputs w = (Err e, w') ∧ wk_db w' = s' ∧
       ∀ sources heartbeat cursor, sources !! cursor = Some (tick_packages update_authorizer claimed inputs) →
         run_once None heartbeat sources (cursor, w) = (Err e, (cursor, w'))).
Proof.
  intros H Ha Ho Hp Hj Hk Hrec Hothers Hr Hopen Hlink Hbatch Hn Hid Hmore s'.
  assert (job_kind j ≠ "platform.update") as Hk' by (by rewrite Hk).
  assert (state ∈ settled_states) as Hst.
  { destruct Hmore as [_ [[-> _]|[Hs _]]]; [apply among_true; reflexivity|]. rewrite !elem_of_cons, elem_of_nil in Hs.
    destruct Hs as [->|[->|[]]]; apply among_true; reflexivity. }
  eapply finish_closes in H as (Ho' & j' & Hj' & Hterm & Hkind); [|done..].
  assert (stalled rid key s' r n (at_operation_id a) (with_operation_state state now o) (so_parent_job_id o) j') as Hs
    by (split; [done..|by rewrite Hkind]).
  split; [by exists j'|]. split; [intros i; by eapply advance_stalls|]. intros claimed inputs w ids Hw Hc Hcl.
  destruct (tick_stalls update_authorizer claimed inputs _ _ _ _ _ _ _ _ _ _ _ Hs Hw Hc Hcl) as (e & w' & Ht & Hw').
  exists e, w'. split_and!; [done..|]. intros sources heartbeat cursor Hs'. by eapply source_stops_worker.
Qed.
End theorem.
