(* ===== verification/RolloutRun.v ===== *)
(** * A package rollout, run

    A plan for two nodes is created and advanced; the agent of the canary claims its
    first operation and reports that it succeeded. *)

From S2P Require Import Prelude Identifiers Canonical Documents Contracts PackageEngine Protocol.
From S2P Require Import OperationGraph Orchestration OrchestrationFacts Jobs AgentTables AgentJobs AgentJobsFacts.
From S2P Require Import AgentReconciliation PackageRollouts PackagePlans PackagePlanFacts RolloutFacts RolloutOrder RolloutCompletion RolloutResults.

Definition canary_id : string := "spk_00112233445566778899aabbccddee00".
Definition stable_id : string := "spk_00112233445566778899aabbccddee01".

Definition rollout_payload : json :=
  JObj [("deployment_digest", JStr sample_digest); ("deployment_id", JStr "chat"); ("release_digest", JStr sample_digest);
        ("schema_version", JInt 1)].

Definition rollout_operations (node : string) : list OperationNode :=
  let id kind := "chat:" +:+ node +:+ ":" +:+ kind in
  let operation kind dependencies compensation :=
    Node (id kind) node "chat" kind dependencies compensation (utf8_digest rollout_payload) in
  [operation PACKAGE_PREPARE [] None;
   operation PACKAGE_ACTIVATE [id PACKAGE_PREPARE] (Some (operation_value PACKAGE_ROLLBACK));
   operation PACKAGE_HEALTH [id PACKAGE_ACTIVATE] None].

Definition rollout_graph : OperationGraph :=
  Graph "pending" sample_commit [canary_id; stable_id] (rollout_operations canary_id ++ rollout_operations stable_id) sample_digest.

Definition rollout_plan : ReconciliationPlan :=
  MkReconciliationPlan sample_commit [canary_id; stable_id] [] []
    [("chat", JObj [("release_digest", JStr sample_digest); ("deployment_digest", JStr sample_digest);
                    ("rollback_payloads", JObj [])])]
    [] [] None sample_digest (Some rollout_graph)
    (map (λ n, (op_id n, rollout_payload)) (graph_nodes rollout_graph)) (Some (2, 2)%Z).

Definition rollout_nodes : gmap string AgentNode := {[canary_id := sample_agent_node; stable_id := sample_agent_node]}.

Definition rollout_base : control_db :=
  ControlDb rollout_nodes {["serial" := MkCertificate canary_id 0 1000000000000000 "fingerprint" "active" None]}
    ∅ ∅ ∅ ∅ ∅ ∅ ∅ ∅ ∅ ∅ ∅ [] ∅ ∅ None None.

Definition rollout_id : string := "00000000-0000-4000-8000-0000000000c0".
Definition rollout_job : string := "00000000-0000-4000-8000-0000000000c1".
Definition rollout_operation : string := "00000000-0000-4000-8000-0000000000c2".
Definition rollout_fence : string := "00000000-0000-4000-8000-0000000000c3".

Definition rollout_keys (node : string) : string := "row " +:+ node.
Definition rollout_draws (key : string) : draw := Draw rollout_operation "00000000-0000-4000-8000-0000000000c4" 20.
Definition rollout_inputs : advance_inputs := AdvanceInputs 20 (rollout_job, "request", 20%Z) rollout_draws.

Definition created : rollout_db :=
  (create_rollout rollout_plan None "operator" "request" rollout_job rollout_id rollout_keys 10 (no_rollouts rollout_base)).2.
Definition advanced : rollout_db := (advance_rollout (prepared:=unit) None rollout_id rollout_inputs created).2.

Definition rollout_request : claim_request :=
  ClaimRequest canary_id "serial" 60 (Some 2%Z) (Some package_capabilities) None None None.
Definition claimed_db : rollout_db :=
  set_rd_control (claim_once (λ r, r) None None rollout_request (Poll ∅ 30 30 30 rollout_fence) (rd_control advanced)).2 advanced.

Definition rollout_result : json := JObj [("status", JStr "ok"); ("evidence", JObj [("status", JStr "prepared")])].
Definition rollout_consumer :=
  consume_result (λ r, r) (λ _ _, raise EValue "no endpoint") NoAuthority
    (Inputs (λ _, 0%Z) id id id "" id) None.
Definition finish_rollout : result unit * control_db :=
  agent_finish (λ r, r) None (Some rollout_consumer) (FToken rollout_fence) "succeeded" (Some rollout_result) None None 40 40 40
    (rd_control claimed_db).

Definition reported_db : rollout_db := set_rd_control finish_rollout.2 claimed_db.

(** The rows before the report, evaluated. *)
Definition claimed_row : PackageRollout :=
  ltac:(let x := eval vm_compute in (rd_rollouts claimed_db !! rollout_id) in
        match x with Some ?r => exact r end).
Definition claimed_node : PackageRolloutNode :=
  ltac:(let x := eval vm_compute in (rd_nodes claimed_db !! rollout_keys canary_id) in
        match x with Some ?n => exact n end).
Definition waiting_node : PackageRolloutNode :=
  ltac:(let x := eval vm_compute in (rd_nodes claimed_db !! rollout_keys stable_id) in
        match x with Some ?n => exact n end).
Definition claimed_operation : StoredOperation :=
  ltac:(let x := eval vm_compute in (t_operations (rd_control claimed_db) !! rollout_operation) in
        match x with Some ?o => exact o end).
Definition claimed_attempt : AgentOperationAttempt :=
  ltac:(let x := eval vm_compute in (t_attempts (rd_control claimed_db) !! rollout_fence) in
        match x with Some ?a => exact a end).
Definition claimed_job : Job :=
  ltac:(let x := eval vm_compute in (t_jobs (rd_control claimed_db) !! rollout_job) in
        match x with Some ?j => exact j end).

Lemma run_pair {A B} (p : A * B) a : p.1 = a → p = (a, p.2).
Proof. by destruct p; intros <-. Qed.

Lemma finish_rollout_run : finish_rollout = (Ok (), finish_rollout.2).
Proof. apply run_pair. vm_compute. reflexivity. Qed.

Lemma claimed_operations : t_operations (rd_control claimed_db) = {[rollout_operation := claimed_operation]}.
Proof. vm_compute. reflexivity. Qed.

Lemma claimed_more : more_to_do claimed_row claimed_node rollout_operation "succeeded".
Proof.
  split; [rewrite <- among_true; by vm_compute|]. left. split_and!; [done|by vm_compute|].
  eexists. vm_compute. reflexivity.
Qed.

(** The prepared canary is never activated. *)
Lemma recorded_result_stalls_the_rollout_witness :
  ∃ e, advance_rollout (prepared:=unit) None rollout_id rollout_inputs (set_rd_control finish_rollout.2 claimed_db)
       = (Err e, set_rd_control finish_rollout.2 claimed_db).
Proof.
  refine (proj1 (proj2 (recorded_result_stalls_the_rollout (λ r, r) None (Some rollout_consumer) None (FToken rollout_fence)
    "succeeded" (Some rollout_result) None None 40 40 40 claimed_db finish_rollout.2 claimed_attempt claimed_operation
    claimed_job rollout_id claimed_row (rollout_keys canary_id) claimed_node finish_rollout_run _ _ _ _ _ _ _ _ _ _ _ _ _
    claimed_more)) rollout_inputs); try (vm_compute; reflexivity).
  intros id x Hx _ Hid. rewrite claimed_operations in Hx. apply lookup_singleton_Some in Hx as [<- _]. by destruct Hid.
Defined.

(** ** The run as a sequence of transactions *)

Lemma reported_reachable : rtc (rollout_step (prepared:=unit) None) (no_rollouts rollout_base) reported_db.
Proof.
  eapply rtc_l; [apply (rs_create _ _ rollout_plan None "operator" "request" rollout_job rollout_id rollout_keys 10)|].
  eapply rtc_l; [apply (rs_advance _ _ rollout_id rollout_inputs)|].
  apply (rtc_l _ _ claimed_db); [apply (rs_control None advanced)|]. apply rtc_once, (rs_control None claimed_db).
Qed.

(** The canary is being prepared, and the other node waits. *)
Lemma canary_comes_first_witness :
  (∃ key n, rd_nodes reported_db !! key = Some n ∧ pn_rollout_id n = rollout_id ∧ pn_is_canary n = true)
  ∧ (pn_state <$> rd_nodes reported_db !! rollout_keys canary_id) = Some "preparing"
  ∧ (pn_operation_id <$> rd_nodes reported_db !! rollout_keys stable_id) = Some None.
Proof.
  assert (rd_rollouts reported_db !! rollout_id = Some claimed_row) as Hr by (vm_compute; reflexivity).
  destruct (canary_comes_first None rollout_base reported_db rollout_id claimed_row reported_reachable Hr) as (Hc & Hw & _).
  split; [exact Hc|]. split; [vm_compute; reflexivity|].
  assert (rd_nodes reported_db !! rollout_keys canary_id = Some claimed_node) as Hn by (vm_compute; reflexivity).
  assert (rd_nodes reported_db !! rollout_keys stable_id = Some waiting_node) as Hm by (vm_compute; reflexivity).
  rewrite Hm. destruct (Hw _ claimed_node _ waiting_node Hn eq_refl eq_refl Hm eq_refl eq_refl) as [H|[_ H]];
    [discriminate H|]. cbn [fmap option_fmap option_map]. by rewrite H.
Defined.

Definition created_row : PackageRollout :=
  ltac:(let x := eval vm_compute in (rd_rollouts created !! rollout_id) in
        match x with Some ?r => exact r end).
Definition dispatched_operation : StoredOperation :=
  ltac:(let x := eval vm_compute in (t_operations (rd_control advanced) !! rollout_operation) in
        match x with Some ?o => exact o end).

Lemma created_reachable : rtc (rollout_step (prepared:=unit) None) (no_rollouts rollout_base) created.
Proof. apply rtc_once, (rs_create _ _ rollout_plan None "operator" "request" rollout_job rollout_id rollout_keys 10). Qed.

Lemma advanced_run : advance_rollout (prepared:=unit) None rollout_id rollout_inputs created = (Ok "running", advanced).
Proof. apply run_pair. vm_compute. reflexivity. Qed.

(** The preparation of the canary is the first operation of the plan. *)
Lemma rollout_follows_its_plan_witness :
  so_kind dispatched_operation = operation_value PACKAGE_PREPARE
  ∧ ∃ key n, rd_nodes created !! key = Some n ∧ pn_rollout_id n = rollout_id
    ∧ pn_batch_index n = pk_current_batch created_row ∧ so_node_id dispatched_operation = pn_node_id n
    ∧ (planned created created_row n dispatched_operation ∨ planned_rollback created created_row n dispatched_operation).
Proof.
  split; [reflexivity|].
  apply (rollout_follows_its_plan None rollout_base created rollout_id created_row rollout_inputs "running" advanced
    created_reachable ltac:(vm_compute; reflexivity) advanced_run) with (id := rollout_operation); vm_compute; reflexivity.
Defined.

(** ** A resolved plan, carried out *)

Definition one_plan : ReconciliationPlan :=
  ltac:(let x := eval vm_compute in (resolve_packages (H:=PlanSample.sources) PlanSample.commit ["chat"] [PlanSample.first_node]) in
        match x with Ok ?p => exact p end).

Definition one_created : rollout_db :=
  (create_rollout one_plan None "operator" "request" rollout_job rollout_id rollout_keys 10 (no_rollouts rollout_base)).2.

(** The queue says that an operation succeeded. *)
Definition operation_succeeded (id : string) (s : rollout_db) : rollout_db :=
  set_rd_control (set_t_operations (alter (with_operation_state "succeeded" 20) id) (rd_control s)) s.

Definition one_inputs (id : string) : advance_inputs :=
  AdvanceInputs 20 (rollout_job, "request", 20%Z) (λ _, Draw id "00000000-0000-4000-8000-0000000000d9" 20).
Definition one_advance (id : string) (s : rollout_db) : rollout_db :=
  (advance_rollout (prepared:=unit) None rollout_id (one_inputs id) s).2.
Definition one_turn (s : rollout_db) (id : string) : rollout_db := operation_succeeded id (one_advance id s).

(** The preparation, the activation and the health check. *)
Definition one_ids : list string :=
  ["00000000-0000-4000-8000-0000000000d0"; "00000000-0000-4000-8000-0000000000d1"; "00000000-0000-4000-8000-0000000000d2"].

Definition one_last : rollout_db := foldl one_turn one_created one_ids.
Definition one_done : rollout_db :=
  one_advance "unused" one_last.

Definition one_node : PackageRolloutNode :=
  ltac:(let x := eval vm_compute in (rd_nodes one_done !! rollout_keys canary_id) in
        match x with Some ?n => exact n end).

Lemma one_create_run : create_rollout one_plan None "operator" "request" rollout_job rollout_id rollout_keys 10
  (no_rollouts rollout_base) = (Ok rollout_id, one_created).
Proof. apply run_pair. vm_compute. reflexivity. Qed.

(** The operations that had completed still have. *)
Definition keeps_completed (s s' : rollout_db) : bool :=
  bool_decide (map_Forall (λ id o, so_state o = "succeeded" → so_state <$> t_operations (rd_control s') !! id = Some "succeeded")
                 (t_operations (rd_control s))).

Lemma keeps_completed_durable s s' : rollout_step (prepared:=unit) None s s' → keeps_completed s s' = true → durable_step (prepared:=unit) None s s'.
Proof.
  intros Hst Hk%bool_decide_eq_true. split; [done|]. intros id (o & Ho & Hs). specialize (Hk id o Ho Hs).
  apply fmap_Some in Hk as (o' & ? & ?). exists o'. done.
Qed.

Lemma one_advance_step id s : rollout_step (prepared:=unit) None s (one_advance id s).
Proof. apply (rs_advance None s rollout_id (one_inputs id)). Qed.

Fixpoint turns_keep (s : rollout_db) (ids : list string) : bool :=
  match ids with
  | [] => true
  | id :: ids => keeps_completed s (one_advance id s) && keeps_completed (one_advance id s) (one_turn s id)
                 && turns_keep (one_turn s id) ids
  end.

Lemma turns_durable ids s : turns_keep s ids = true → rtc (durable_step (prepared:=unit) None) s (foldl one_turn s ids).
Proof.
  revert s. induction ids as [|id ids IH]; intros s Hk; [done|]. cbn [turns_keep foldl] in *.
  apply andb_true_iff in Hk as [[H1 H2]%andb_true_iff H3].
  eapply rtc_l; [exact (keeps_completed_durable _ _ (one_advance_step id s) H1)|].
  eapply rtc_l; [apply keeps_completed_durable; [|exact H2]|by apply IH]. apply (rs_control None).
Qed.

Lemma one_done_durable : rtc (durable_step (prepared:=unit) None) one_created one_done.
Proof.
  apply (rtc_r _ one_last).
  - apply turns_durable. vm_compute. reflexivity.
  - apply (keeps_completed_durable _ _ (one_advance_step _ _)). vm_compute. reflexivity.
Qed.

Lemma one_created_durable : durable_step (prepared:=unit) None (no_rollouts rollout_base) one_created.
Proof.
  apply keeps_completed_durable; [|vm_compute; reflexivity].
  apply (rs_create _ _ one_plan None "operator" "request" rollout_job rollout_id rollout_keys 10).
Qed.

(** The three operations of the plan succeeded, and the rollout is completed. *)
Lemma accepted_node_ran_its_plan_witness :
  (pk_state <$> rd_rollouts one_done !! rollout_id) = Some "completed" ∧
  ∃ graph, rp_operation_graph one_plan = Some graph ∧ ∀ m, m ∈ graph_nodes graph → op_node_id m = pn_node_id one_node →
    ∃ entry o, entry ∈ pn_operation_history one_node ∧ hi_graph_operation_id entry = Some (op_id m) ∧
      t_operations (rd_control one_done) !! hi_operation_id entry = Some o ∧ so_state o = "succeeded".
Proof.
  split; [vm_compute; reflexivity|].
  refine (accepted_node_ran_its_plan (H:=PlanSample.sources) None rollout_base PlanSample.commit ["chat"] [PlanSample.first_node]
    one_plan None "operator" "request" rollout_job rollout_id rollout_keys 10 (no_rollouts rollout_base) one_created one_done
    (rollout_keys canary_id) one_node (rtc_refl _ _) _ _ one_create_run one_created_durable one_done_durable _ _ _);
    vm_compute; reflexivity.
Defined.
